(* ===== verification/_CoqProject ===== *)
-Q . S2P
Prelude.v
Effects.v
Ident.v
Config.v
TokenBucket.v
Policy.v
Records.v
Sha256.v
Base64.v
Keys.v
Caches.v
Seam.v
StoreViews.v
Discovery.v
Routes.v
Query.v
Listing.v
Timestamp.v
Cursor.v
Lifecycle.v
Runtime.v
Publisher.v
Scheduler.v
Worker.v
Owner.v
Rounds.v
Sweeper.v
Api.v
Interaction.v
Url.v
Utf8.v
Json.v
Gcm.v
Settings.v
Auth.v
Server.v
Poller.v
Basic.v
Issuer.v
Jwks.v
Claims.v
Verify.v
Cookie.v
Wire.v
Browser.v
Access.v
Proxy.v
Memlimit.v
TlsCert.v
Contexts.v
ClientIssuer.v
TokenCache.v
CacheProcs.v
DurationText.v
PolicyBody.v
UrlText.v
GatewayClient.v
ClientCollect.v
ListingWalk.v
Startup.v
StorePreflight.v
Serve.v
Login.v
System.v
Refinement.v
Liveness.v
