(* ===== verification/Prelude.v ===== *)
(** * profgate: verification library (root file)

    profgate is a gateway that lets people fetch pprof profiles from Pods of a
    Kubernetes cluster over HTTP, and that collects merged CPU profiles of whole
    Services on demand and on schedule (PGO Collections).  Several replicas run
    at once; they share nothing but two key-value buckets and an object store of
    NATS.  People reach it with a browser, or with the client of the same
    program.  This library models the Go code under src/internal and
    src/cmd/profgate and proves what makes it correct.

    ** The program and the files

    The PGO side, src/internal/pgo over src/internal/natskv:
    - Ident.v (id.go), Keys.v (key formats of caches.go; SHA-256 in Sha256.v),
      Records.v (record.go), Policy.v and DurationText.v (policy.go), Config.v
      (the PGO block of config/config.go), TokenBucket.v (runtime.go): data,
      their validation and encodings.
    - Effects.v (natskv.go, clock.go): the calls the code makes of the store,
      the clock, the random source, its own locked fields and the log; a
      function that makes them is a program, a tree over every answer.
    - Seam.v, StoreViews.v and StorePreflight.v (natskv/client.go,
      preflight.go): the connection's generation and replay barrier, the
      goroutines of the watches, the generation-bound views, the chunked read of
      an object; the connection of a replica and the probes it makes first.
    - Caches.v (caches.go): the four views folded from the watches, their
      guarded reads, the listing.
    - Runtime.v (runtime.go), Publisher.v (publisher.go), Scheduler.v
      (scheduler.go), Worker.v (worker.go: scan and claim), Owner.v (worker.go:
      the owner loop), Rounds.v (rounds.go), Sweeper.v (sweeper.go): the
      components that write the buckets.

    The HTTP side, src/internal/httpapi and what it asks:
    - Discovery.v (k8s/): which Pods of a Service are targets, why the others
      are not, and the confirmation of one before it is dialled.
    - Routes.v (routes.go, realm.go, the classifications of server.go,
      admit/gate.go), Query.v (profile.go and the selections of config.go),
      Listing.v (listing.go, targets.go, authinfo.go), Timestamp.v and Cursor.v
      (the listing part of pgo_collections.go), PolicyBody.v (the body decoder of
      pgo.go and the policy bodies): the grammar of requests and the bodies of
      answers.
    - Api.v (pgo.go, pgo_collections.go, pgo_policy.go): the handlers of the
      PGO routes, as programs over the calls of Effects.v.
    - Server.v (server.go, auth.go, console.go, audit.go): [ServeHTTP], over an
      interface of calls of its own; Interaction.v is generic in that interface.
    - Proxy.v (proxy/proxy.go): one profile fetched from a Pod and forwarded.

    Authentication, src/internal/auth, and what it is built of:
    - Auth.v (auth.go), Basic.v and Poller.v (basic.go, users.go, poll.go),
      Issuer.v (issuer.go, discovery.go), Jwks.v (jwks.go), Claims.v and Verify.v
      (verify.go, mapping.go), Cookie.v, Wire.v and Browser.v (cookie.go, wire.go,
      browser.go, oidc.go), Access.v (the authenticators under a valid
      configuration).
    - Utf8.v, Base64.v, Json.v, Gcm.v, Url.v and UrlText.v: the parts of the
      standard library this code rests on (encoding/json, AES-256-GCM, net/url).

    The process, src/cmd/profgate and src/internal/config:
    - Settings.v (config.go, users.go: every block and its validation), Memlimit.v
      (memlimit.go), TlsCert.v (tlscert/loader.go), Startup.v (the preflights and
      their retries), Serve.v (serve.go: startup, the event loop, the drain).

    The client, src/internal/client and the verbs of cmd/profgate:
    - Contexts.v (contexts.go), ClientIssuer.v (issuer.go, device.go, refresh.go),
      TokenCache.v and CacheProcs.v (cache.go, refresh.go, expiry.go, login.go, and
      several processes over one cache), GatewayClient.v (client.go, credential.go,
      transport.go), ClientCollect.v and ListingWalk.v (collect.go, wire.go, and
      the walk over the gateway's own listing), Login.v (login.go).

    What is composed of these:
    - Lifecycle.v: the abstract specification of a record's life, and the
      judgement [lawful] each component proves of its programs.
    - System.v: replicas, their goroutines and one bucket with compare-and-swap,
      as a step relation in which calls of any goroutines interleave, acknowledgements
      are lost, replicas crash and watches restart.
    - Refinement.v: the system refines the abstract machine of Collections.
    - Liveness.v: no Collection is stranded.

    ** State and operations

    A struct whose fields a mutex guards is a Record, and a method one step on
    it ([Caches], [PubState], [WorkerState], [client], [Gate], [jwksCache]).  A
    function that calls the outside is a program, one handler, pass or command
    each, with the guards and early returns of the code: a [prog] over the store
    (Effects.v) or an [itx] over an interface of its own (Interaction.v).  A
    theorem about it quantifies over every execution, so over whatever the store,
    the issuer, the gateway and the other replicas answer.  An [int] or a
    [time.Duration] is a Z that wraps at 64 bits where the code can overflow it,
    a [time.Time] a Z of nanoseconds since 1970, a float64 the Standard Library's
    binary64.  An error is a value: [result] for the store, [requestError] for an
    answer, a type of its own per client operation.

    ** What the theorems show

    Each property of the manifest carries its number in its comment.
    - The cluster: the system refines the lifecycle and no goroutine of it
      panics, an ended Collection stays ended, an attempt has one owner, two
      replicas never both act on one lease, every record is well formed, and,
      whatever runs beside it, a scan of a connected and current replica past a
      Collection's grace leaves it ended or moved on.
    - The store connection: a barrier that answers true means every watch has
      replayed under this generation; the caches then are what the server's
      watchers said; on a connection that stays up, in every fair run whose
      watches the server answers, the barrier opens again; a view never shows an
      answer of another generation; a preflight that passes has exercised what
      the gateway will do, and one that fails leaves nothing behind.
    - Each component: the order of a publication's writes and its reservation,
      what a claim and a final update may write, the entry protocol between
      drain, cutoff and owner, the slots of the scheduler, the safety of a
      sweep, what an attempt's result accounts for, the grounds of every API
      answer.
    - The HTTP side: the router means the table; no step of a request runs
      before what it depends on (ready, token placement, authentication, realm,
      allowlist, discovery, slot, confirmation); every request gives back its
      slot and leaves one metrics row with bounded labels; a denied Collection
      is indistinguishable from a missing one; a client that follows the
      listing's tokens reads everything once; a write route accepts exactly the
      bodies its type declares; a fetch is refused whole or forwarded as it came.
    - Authentication: an identity is admitted only on a verified token, a sealed
      session or one password comparison, the keys in force are those of the last
      good refresh, and a session only comes of the transaction that began it.
    - The process: serve's steps in their order, when a replica is ready, and the
      drain within the grace period the configuration asks for.
    - The client: a credential is only sent to the gateway it belongs to, one
      process at a time writes a cache entry, a login is recorded only once the
      gateway has accepted it, the polls are paced, a create settles.
    - Theorems that state defects: [Runtime.LatestCompleted_misses_older],
      [Cursor.minted_cursor_refused], [Browser.login_too_large],
      [ClientCollect.Create_misjudged], and the second half of
      [PolicyBody.override_body_roundtrip].

    ** Bounds and fuel

    Retry loops carry the code's own counts ([cancelAttempts], [receiptReads])
    or a count that its clock bounds: a create makes at most seven attempts
    before its window closes on a clock that does not step back, a lock 301 tries before its timeout.  [pumpChunks] takes as
    fuel the number of chunks of the object, and [pump_complete] shows that
    enough; [follow], [read_pages] and the client's walk take one unit a page, and
    a page is never empty while more follow.  The readers of text (JSON, base64,
    durations, URLs) are bounded by the length of their input.  The owner loop and
    the waiting loop are functions of the list of events their select meets; the
    loop of serve, a poll and a wait of the preflight take fuel and say so in
    their result: a run with no result is one that used it up.  The programs of
    Effects.v and Interaction.v are finite trees.

    ** Parameters

    Code that is not in the repository: the JSON text of stored records ([Wire],
    with the round trip encoding/json documents), nats.go (what it answers and
    delivers), the informer caches and label selectors of client-go,
    [IsDNS1123Label], [IsDNS1123Subdomain] and [IsValidPortName] of apimachinery,
    the pprof codec, go-jose (signatures and key sets), bcrypt, the parsers of key
    pairs and PEM, YAML.  Of net/url the grammar of hosts is an argument, of
    strings.ToLower what lies past ASCII.  [mime.ParseMediaType] is an argument
    where only the outcome matters.  HTTP transports are what they answer.

    ** Not modelled

    The decoding of YAML and the environment overlay (a library's, and the naming
    of its errors); metrics registration, the operations listener and the console's
    files (presentation and glue); the construction of client-go clients and
    informers; the parsing of command lines, help, prompts, rendering and the
    atomic write of a file; the texts of refusals and log lines. *)

From Stdlib Require Export ZArith Lia Bool Ascii.
From Stdlib Require String.
From stdpp Require Export base functions option gmap sets strings sorting pretty countable.
From stdpp Require Export list_relations list.

#[global] Open Scope Z_scope.

(** stdpp blocks the reduction of string append; the lemmas below compute with it. *)
#[global] Arguments String.append !_ _ / : simpl nomatch.

(** ** Go integers *)

(** The two ends of Go's [int64], which is also [int] and [time.Duration] on
    the platforms the gateway is built for. *)
Definition min_int64 : Z := - 2 ^ 63.
Definition max_int64 : Z := 2 ^ 63 - 1.

Definition in_int64 (z : Z) : Prop := min_int64 <= z <= max_int64.

(** Two's-complement wrap-around to 64 bits, what every [int64] operation
    does with its mathematical result. *)
Definition wrap64 (z : Z) : Z := (z + 2 ^ 63) mod 2 ^ 64 - 2 ^ 63.

(** Unsigned wrap-around, for [uint64]. *)
Definition wrapu64 (z : Z) : Z := z mod 2 ^ 64.

Declare Scope go_scope.
Delimit Scope go_scope with go.
Notation "a +! b" := (wrap64 (a + b)) (at level 50, left associativity) : go_scope.
Notation "a -! b" := (wrap64 (a - b)) (at level 50, left associativity) : go_scope.
Notation "a *! b" := (wrap64 (a * b)) (at level 40, left associativity) : go_scope.
(** Go's integer division truncates toward zero; the one quotient out of range
    ([min_int64 / -1]) wraps. *)
Notation "a /! b" := (wrap64 (Z.quot a b)) (at level 40, left associativity) : go_scope.
#[global] Open Scope go_scope.

Lemma wrap64_id (z : Z) : in_int64 z -> wrap64 z = z.
Proof.
  unfold in_int64, wrap64, min_int64, max_int64. intros H.
  rewrite Z.mod_small; lia.
Qed.

Lemma wrap64_range (z : Z) : in_int64 (wrap64 z).
Proof.
  unfold in_int64, wrap64, min_int64, max_int64.
  pose proof (Z.mod_pos_bound (z + 2 ^ 63) (2 ^ 64) eq_refl). lia.
Qed.

(** A quotient of nonnegative operands never wraps. *)
Lemma quot64_div (a b : Z) : 0 <= a <= max_int64 -> 0 < b -> a /! b = a / b.
Proof.
  intros Ha Hb. rewrite Z.quot_div_nonneg by lia. apply wrap64_id.
  unfold in_int64, min_int64. pose proof (Z.div_pos a b). pose proof (Z.div_le_upper_bound a b a). nia.
Qed.

(** Solves the range side conditions of [wrap64_id]. *)
Ltac in64 := unfold in_int64, min_int64, max_int64 in *; lia.

Lemma wrapu64_range (z : Z) : 0 <= wrapu64 z < 2 ^ 64.
Proof. apply Z.mod_pos_bound. reflexivity. Qed.

(** ** Tactics *)

(** Case analysis on the scrutinee a function's result hangs on, discarding the
    branches whose result contradicts the hypothesis. *)
Ltac step_case H :=
  lazymatch type of H with
  | match ?x with _ => _ end = _ =>
      let E := fresh "E" in destruct x eqn:E; try discriminate H; try discriminate E; cbv beta iota in H
  end.
Ltac step_cases H := repeat step_case H.

(** Boolean comparisons in hypotheses as propositions. *)
Ltac to_prop :=
  repeat match goal with
  | H : (_ <? _) = true |- _ => apply Z.ltb_lt in H
  | H : (_ <? _) = false |- _ => apply Z.ltb_ge in H
  | H : (_ <=? _) = true |- _ => apply Z.leb_le in H
  | H : (_ <=? _) = false |- _ => apply Z.leb_gt in H
  | H : (_ =? _) = true |- _ => apply Z.eqb_eq in H
  | H : (_ =? _) = false |- _ => apply Z.eqb_neq in H
  | H : (_ && _) = true |- _ => apply andb_true_iff in H as [? ?]
  | H : (_ || _) = false |- _ => apply orb_false_iff in H as [? ?]
  | H : negb _ = true |- _ => apply negb_true_iff in H
  | H : negb _ = false |- _ => apply negb_false_iff in H
  | H : String.eqb _ _ = true |- _ => apply String.eqb_eq in H
  | H : String.eqb _ _ = false |- _ => apply String.eqb_neq in H
  | H : bool_decide _ = true |- _ => apply bool_decide_eq_true in H
  | H : bool_decide _ = false |- _ => apply bool_decide_eq_false in H
  end.

(** ** Time

    An instant is a number of nanoseconds since the Unix epoch.  Go's
    [time.Time] covers every instant the gateway can meet, so the sum of an
    instant and a duration is exact; a [time.Duration] is an [int64] and wraps. *)
Abbreviation time := Z (only parsing).
Abbreviation duration := Z (only parsing).

Definition nanosecond : duration := 1.
Definition second : duration := 1000000000.
Definition minute : duration := 60 * second.
Definition hour : duration := 60 * minute.

(** [time.Time{}]: January 1, year 1, 00:00:00 UTC. *)
Definition zero_time : time := - 62135596800 * second.

(** [t.Sub(u)] saturates at the ends of [int64]. *)
Definition time_sub (t u : time) : duration :=
  Z.max min_int64 (Z.min max_int64 (t - u)).

(** [t.Before(u)]. *)
Definition before (t u : time) : bool := t <? u.

Lemma time_sub_exact (t u : time) : in_int64 (t - u) -> time_sub t u = t - u.
Proof. unfold in_int64, time_sub. lia. Qed.

(** [time_sub] keeps the sign of the exact difference. *)
Lemma time_sub_pos (t u : time) : 0 < time_sub t u <-> u < t.
Proof. unfold time_sub, min_int64, max_int64. lia. Qed.

(** ** Byte strings *)

Definition byte_len (s : string) : Z := Z.of_nat (String.length s).

(** [strings.CutPrefix]: what follows [p] in [s], when [s] starts with it. *)
Fixpoint cut_prefix (p s : string) : option string :=
  match p, s with
  | EmptyString, _ => Some s
  | String c p', String d s' => if decide (c = d) then cut_prefix p' s' else None
  | String _ _, EmptyString => None
  end.

(** [strings.HasPrefix]. *)
Definition has_prefix (p s : string) : bool :=
  match cut_prefix p s with Some _ => true | None => false end.

(** [strings.Cut] at the first byte [c]. *)
Fixpoint cut (c : ascii) (s : string) : option (string * string) :=
  match s with
  | EmptyString => None
  | String d s' =>
      if decide (d = c) then Some (EmptyString, s')
      else match cut c s' with
           | Some (a, b) => Some (String d a, b)
           | None => None
           end
  end.

(** [strings.Contains] of a single byte. *)
Fixpoint has_byte (c : ascii) (s : string) : bool :=
  match s with
  | EmptyString => false
  | String d s' => if decide (d = c) then true else has_byte c s'
  end.

(** [strings.CutSuffix]: what precedes [suf] in [s], when [s] ends with it. *)
Definition cut_suffix (suf s : string) : option string :=
  let n := (String.length s - String.length suf)%nat in
  if decide (String.length suf <= String.length s)%nat then
    if decide (String.substring n (String.length suf) s = suf)
    then Some (String.substring 0 n s) else None
  else None.

(** [strings.Split] at every byte [c]: never empty, one more part than there
    are separators. *)
Fixpoint split_at (c : ascii) (s : string) : list string :=
  match s with
  | EmptyString => [EmptyString]
  | String d s' =>
      if decide (d = c) then EmptyString :: split_at c s'
      else match split_at c s' with
           | [] => [String d EmptyString]
           | w :: ws => String d w :: ws
           end
  end.

(** [strings.Join] with a one-byte separator. *)
Fixpoint join_with (c : ascii) (l : list string) : string :=
  match l with
  | [] => EmptyString
  | [w] => w
  | w :: ws => w +:+ String c (join_with c ws)
  end.

(** Every byte of [s] satisfies [f]. *)
Fixpoint all_bytes (f : ascii -> bool) (s : string) : bool :=
  match s with
  | EmptyString => true
  | String c s' => f c && all_bytes f s'
  end.

Definition is_digit (c : ascii) : bool :=
  let n := nat_of_ascii c in (48 <=? n)%nat && (n <=? 57)%nat.

(** The value of a hexadecimal digit, of either case. *)
Definition hex_value (c : ascii) : option nat :=
  let n := nat_of_ascii c in
  if (48 <=? n)%nat && (n <=? 57)%nat then Some (n - 48)%nat
  else if (97 <=? n)%nat && (n <=? 102)%nat then Some (n - 87)%nat
  else if (65 <=? n)%nat && (n <=? 70)%nat then Some (n - 55)%nat
  else None.

(** *** Lemmas on byte strings *)

Lemma str_app_assoc (a b c : string) : (a +:+ b) +:+ c = a +:+ (b +:+ c).
Proof. induction a as [|x a IH]; [done|]. simpl. by rewrite IH. Qed.

Lemma str_app_nil_r (a : string) : a +:+ EmptyString = a.
Proof. induction a as [|x a IH]; [done|]. simpl. by rewrite IH. Qed.

Lemma str_length_app (a b : string) :
  String.length (a +:+ b) = (String.length a + String.length b)%nat.
Proof. induction a as [|x a IH]; [done|]. simpl. by rewrite IH. Qed.

Lemma byte_len_app (a b : string) : byte_len (a +:+ b) = byte_len a + byte_len b.
Proof. unfold byte_len. rewrite str_length_app. lia. Qed.

Lemma byte_len_nonneg (a : string) : 0 <= byte_len a.
Proof. unfold byte_len. lia. Qed.

Lemma str_app_inj_r (a b c : string) : a +:+ c = b +:+ c -> a = b.
Proof.
  revert b. induction a as [|x a IH]; intros [|y b] H; simpl in *; auto.
  - apply (f_equal String.length) in H. simpl in H. rewrite str_length_app in H. lia.
  - apply (f_equal String.length) in H. simpl in H. rewrite str_length_app in H. lia.
  - injection H as -> H. f_equal. auto.
Qed.

Lemma cut_prefix_app (p s : string) : cut_prefix p (p +:+ s) = Some s.
Proof. induction p; simpl; [done|]. by rewrite decide_True. Qed.

Lemma cut_prefix_Some (p s r : string) : cut_prefix p s = Some r <-> s = p +:+ r.
Proof.
  split; [|intros ->; apply cut_prefix_app].
  revert s. induction p as [|c p IH]; intros s; simpl; [congruence|].
  destruct s as [|d s]; [done|]. case_decide; [subst|done].
  intros E%IH. by subst.
Qed.

Lemma has_prefix_iff (p s : string) : has_prefix p s = true <-> exists r, s = p +:+ r.
Proof.
  unfold has_prefix. destruct (cut_prefix p s) eqn:E.
  - apply cut_prefix_Some in E. naive_solver.
  - split; [done|]. intros [r ->]. by rewrite cut_prefix_app in E.
Qed.

Lemma cut_app (c : ascii) (a b : string) :
  has_byte c a = false -> cut c (a +:+ String c b) = Some (a, b).
Proof.
  induction a as [|d a IH]; simpl.
  - by rewrite decide_True.
  - case_decide; [done|]. intros Ha. by rewrite IH.
Qed.

Lemma cut_Some (c : ascii) (s a b : string) :
  cut c s = Some (a, b) <-> s = a +:+ String c b /\ has_byte c a = false.
Proof.
  split; [|intros [-> H]; by apply cut_app].
  revert a b. induction s as [|d s IH]; intros a b; simpl; [done|].
  case_decide; [intros [= <- <-]; by subst|].
  destruct (cut c s) as [[x y]|] eqn:E; [|done]. intros [= <- <-].
  destruct (IH x y eq_refl) as [-> Hx]. simpl. by rewrite decide_False.
Qed.

Lemma cut_None (c : ascii) (s : string) : cut c s = None <-> has_byte c s = false.
Proof.
  induction s as [|d s IH]; simpl; [done|]. case_decide; [done|].
  rewrite <-IH. by destruct (cut c s) as [[x y]|].
Qed.

Lemma has_byte_app (c : ascii) (a b : string) :
  has_byte c (a +:+ b) = has_byte c a || has_byte c b.
Proof. induction a; simpl; [done|]. by case_decide. Qed.

Lemma all_bytes_app (f : ascii -> bool) (a b : string) :
  all_bytes f (a +:+ b) = all_bytes f a && all_bytes f b.
Proof. induction a as [|x a IH]; simpl; [done|]. rewrite IH. by destruct (f x). Qed.

(** A string all of whose bytes satisfy [f] holds no byte that does not. *)
Lemma all_bytes_no_byte (f : ascii -> bool) (c : ascii) (s : string) :
  all_bytes f s = true -> f c = false -> has_byte c s = false.
Proof.
  intros H Hc. induction s as [|d s IH]; simpl in *; [done|].
  apply andb_true_iff in H as [Hd Hs]. case_decide; [congruence|auto].
Qed.

Lemma substring_app_l (a b : string) : String.substring 0 (String.length a) (a +:+ b) = a.
Proof. induction a as [|x a IH]; simpl; [by destruct b|]. by rewrite IH. Qed.

Lemma substring_app_r (a b : string) :
  String.substring (String.length a) (String.length b) (a +:+ b) = b.
Proof.
  induction a as [|x a IH]; simpl; [|done].
  induction b as [|y b IH]; simpl; [done|]. by rewrite IH.
Qed.

Lemma substring_all (s : string) : String.substring 0 (String.length s) s = s.
Proof. induction s as [|x s IH]; simpl; [done|]. by rewrite IH. Qed.

Lemma substring_split (s : string) (n m : nat) :
  (n + m)%nat = String.length s -> s = String.substring 0 n s +:+ String.substring n m s.
Proof.
  revert n. induction s as [|x s IH]; intros [|n] H; simpl in H.
  - by destruct m.
  - done.
  - simpl in H. subst m. symmetry. apply (substring_all (String x s)).
  - simpl. f_equal. apply IH. lia.
Qed.

Lemma cut_suffix_app (a suf : string) : cut_suffix suf (a +:+ suf) = Some a.
Proof.
  unfold cut_suffix. rewrite str_length_app.
  replace (_ - _)%nat with (String.length a) by lia.
  rewrite decide_True by lia. rewrite substring_app_r, decide_True by done.
  by rewrite substring_app_l.
Qed.

Lemma cut_suffix_Some (suf s a : string) : cut_suffix suf s = Some a <-> s = a +:+ suf.
Proof.
  split; [|intros ->; apply cut_suffix_app].
  unfold cut_suffix. case_decide; [|done]. case_decide as Hs; [|done].
  intros [= <-]. rewrite <-Hs at 2. apply substring_split. lia.
Qed.

Lemma split_at_no_sep (c : ascii) (s : string) :
  has_byte c s = false -> split_at c s = [s].
Proof.
  induction s as [|d s IH]; simpl; [done|]. case_decide; [done|].
  intros Hs. by rewrite IH.
Qed.

Lemma split_at_app (c : ascii) (a b : string) :
  has_byte c a = false -> split_at c (a +:+ String c b) = a :: split_at c b.
Proof.
  induction a as [|d a IH]; simpl.
  - by rewrite decide_True.
  - case_decide; [done|]. intros Ha. by rewrite IH.
Qed.

Lemma split_join (c : ascii) (l : list string) :
  l <> [] -> Forall (fun w => has_byte c w = false) l -> split_at c (join_with c l) = l.
Proof.
  intros Hne Hl. induction Hl as [|w ws Hw Hws IH]; [done|].
  destruct ws as [|v ws].
  - simpl. by apply split_at_no_sep.
  - change (join_with c (w :: v :: ws)) with (w +:+ String c (join_with c (v :: ws))).
    rewrite split_at_app by done. f_equal. by apply IH.
Qed.

Lemma join_split (c : ascii) (s : string) : join_with c (split_at c s) = s.
Proof.
  induction s as [|d s IH]; [done|]. simpl. case_decide as Hd.
  - subst. destruct (split_at c s) eqn:E.
    + exfalso. destruct s; simpl in E; [done|]. repeat case_match; done.
    + simpl. simpl in IH. by rewrite IH.
  - destruct (split_at c s) as [|w ws] eqn:E.
    + simpl in IH. by subst.
    + destruct ws; simpl in *; congruence.
Qed.

(** Two strings cut at the first separator agree piecewise. *)
Lemma app_sep_inj (c : ascii) (a b x y : string) :
  has_byte c a = false -> has_byte c x = false ->
  a +:+ String c b = x +:+ String c y -> a = x /\ b = y.
Proof.
  intros Ha Hx H. assert (cut c (a +:+ String c b) = cut c (x +:+ String c y)) as E by congruence.
  rewrite !cut_app in E by done. naive_solver.
Qed.

(** *** Decimal numerals *)

Lemma pretty_N_char_digit (x : N) : (x < 10)%N -> is_digit (pretty_N_char x) = true.
Proof. intros _. unfold pretty_N_char. by repeat case_match. Qed.

Lemma pretty_N_go_digits (x : N) (s : string) :
  all_bytes is_digit s = true -> all_bytes is_digit (pretty_N_go x s) = true.
Proof.
  revert s. induction (N.lt_wf_0 x) as [x _ IH]; intros s Hs.
  assert (x = 0 \/ 0 < x)%N as [->|?] by lia; [done|].
  rewrite pretty_N_go_step by done. apply IH; [by apply N.div_lt|].
  cbn [all_bytes]. rewrite Hs, pretty_N_char_digit; [done|]. by apply N.mod_lt.
Qed.

Lemma pretty_N_digits (n : N) : all_bytes is_digit (pretty n) = true.
Proof.
  unfold pretty, pretty_N. case_decide; [done|]. by apply pretty_N_go_digits.
Qed.

Lemma pretty_Z_digits (z : Z) : 0 <= z -> all_bytes is_digit (pretty z) = true.
Proof. intros H. destruct z; [done| |lia]. apply pretty_N_digits. Qed.

Lemma pretty_N_nonempty (n : N) : pretty n <> EmptyString.
Proof.
  intros E. assert (pretty n = pretty n +:+ EmptyString) as H by by rewrite str_app_nil_r.
  unfold pretty, pretty_N in *. case_decide; [done|].
  assert (forall x s, (String.length s <= String.length (pretty_N_go x s))%nat) as L.
  { intros x. induction (N.lt_wf_0 x) as [x _ IH]; intros s.
    assert (x = 0 \/ 0 < x)%N as [->|?] by lia; [done|].
    rewrite pretty_N_go_step by done.
    etrans; [|apply IH; by apply N.div_lt]. simpl. lia. }
  rewrite pretty_N_go_step in E by lia.
  specialize (L (n `div` 10)%N (String (pretty_N_char (n `mod` 10)) "")).
  rewrite E in L. simpl in L. lia.
Qed.

Lemma pretty_Z_nonempty (z : Z) : pretty z <> EmptyString.
Proof. destruct z; [done|apply pretty_N_nonempty|done]. Qed.
