(* ===== verification/Effects.v ===== *)
(** * Effects: the calls the PGO code makes, as data

    The code under src/internal/pgo acts on the world through the interfaces of
    src/internal/natskv/natskv.go (the KV buckets and the Object Store), the
    clock of src/internal/pgo/clock.go, crypto/rand, the mutex-protected fields
    of its own structs, the log and the metrics recorder.  A function that makes
    such calls is modelled as a program, a tree of calls whose branches are the
    answers; nothing is assumed of an answer, so a theorem about every
    execution of a program holds whatever NATS and the other replicas do. *)

From S2P Require Import Prelude.

(** ** The vocabulary of calls *)

(** The sentinel errors of natskv.go, [ErrOther] for any error that wraps none
    of them. *)
Inductive store_err :=
  | ErrKeyNotFound
  | ErrKeyExists
  | ErrRevisionMismatch
  | ErrObjectNotFound
  | ErrUnavailable
  | ErrOther.

#[export] Instance store_err_eq_dec : EqDecision store_err.
Proof. solve_decision. Defined.

(** Go's [(T, error)]: the value when the error is nil, the error otherwise. *)
Inductive result (A : Type) :=
  | Ok (a : A)
  | Err (e : store_err).
Arguments Ok {A} a.
Arguments Err {A} e.

(** [errors.Is(err, sentinel)] on the error of a call. *)
Definition err_is {A} (r : result A) (e : store_err) : bool :=
  match r with Ok _ => false | Err e' => bool_decide (e' = e) end.

(** The two KV buckets of [natskv.Stores]; the third store is the Object Store. *)
Inductive bucket := BConfig | BJobs.

#[export] Instance bucket_eq_dec : EqDecision bucket.
Proof. solve_decision. Defined.

(** What [KV.Get] returns: the value, its revision and its server timestamp. *)
Record entry (V : Type) := Entry {
  e_value : V;
  e_revision : N;
  e_created : time
}.
Arguments Entry {V} _ _ _.
Arguments e_value {V} _.
Arguments e_revision {V} _.
Arguments e_created {V} _.

(** [natskv.ObjectInfo]. *)
Record object_info := ObjectInfo {
  oi_name : string;
  oi_size : Z;
  oi_mod_time : time
}.

(** What the code reports: the one transition record of [logTransition], the
    violations the scheduler logs once per revision, and the counters and
    gauges of [metrics.Recorder].  Other warning lines carry no state and are
    left out. *)
Inductive obs :=
  | LogTransition (id ns svc state : string) (attempt : Z) (reason : string)
  | LogViolation (ns svc : string) (revision : N) (field : string)
  | Metric (name label : string)
  | Gauge (name : string) (delta : Z)
  | Timing (name : string) (d : duration).

Section effects.
  Context {V : Type}.
  Context {St : Type}.

(** One call.  [Generation], [Connected], [WatchSynced] and [View] are the
    connection's, [natskv.Client].  [PanicOp] is a runtime panic: no answer, so nothing follows it.
    [Atomic f] is a critical section: a step on the fields the
    receiver's mutex protects, [St] being those fields. *)
Inductive op : Type -> Type :=
  | KvGet (b : bucket) (k : string) : op (result (entry V))
  | KvCreate (b : bucket) (k : string) (v : V) : op (result N)
  | KvUpdate (b : bucket) (k : string) (v : V) (expected : N) : op (result N)
  | KvDelete (b : bucket) (k : string) (expected : N) : op (result unit)
  | KvKeys (b : bucket) (prefix : string) : op (result (list string))
  | ObjPut (name : string) (body : string) : op (result unit)
  | ObjGet (name : string) : op (result unit)
  | ObjDelete (name : string) : op (result unit)
  | ObjList : op (result (list object_info))
  | Generation : op N
  | Connected : op bool
  | WatchSynced (g : N) : op bool
  | View (g : N) : op (result unit)
  | Now : op time
  | Rand (n : nat) : op (list Byte.byte)
  | Atomic {R : Type} (f : St -> R * St) : op R
  | Emit (o : obs) : op unit
  | PanicOp : op Empty_set.

(** A program: a value, or a call and what is done with each answer. *)
Inductive prog (A : Type) : Type :=
  | Ret (a : A)
  | Vis {R : Type} (o : op R) (k : R -> prog A).
Arguments Ret {A} a.
Arguments Vis {A R} o k.

Fixpoint prog_bind {A B} (f : A -> prog B) (p : prog A) : prog B :=
  match p with
  | Ret a => f a
  | Vis o k => Vis o (fun r => prog_bind f (k r))
  end.

#[export] Instance prog_mret : MRet prog := @Ret.
#[export] Instance prog_mbind : MBind prog := @prog_bind.

Definition call {R} (o : op R) : prog R := Vis o Ret.

Definition panic {A} : prog A := Vis PanicOp (fun x : Empty_set => match x with end).

(** [for _, x := range l { body }]. *)
Fixpoint for_each {A} (l : list A) (body : A -> prog unit) : prog unit :=
  match l with
  | [] => Ret tt
  | x :: l' => prog_bind (fun _ => for_each l' body) (body x)
  end.

(** ** Executions *)

(** A call with the answer it got. *)
Inductive event :=
  | Ev {R : Type} (o : op R) (r : R).

(** The calls made so far, newest first. *)
Abbreviation history := (list event).

(** [exec p h h' a]: started with the past [h], the program can return [a]
    having made the calls that extend [h] to [h'].  Every answer is possible. *)
Fixpoint exec {A} (p : prog A) (h h' : history) (a : A) : Prop :=
  match p with
  | Ret b => b = a /\ h = h'
  | Vis o k => exists r, exec (k r) (Ev o r :: h) h' a
  end.

(** Every call of [p] satisfies [ok] given the calls before it, and its result
    satisfies [Q]: a weakest precondition over all answers. *)
Fixpoint wp {A} (ok : history -> forall R, op R -> Prop) (p : prog A) (h : history)
    (Q : A -> history -> Prop) : Prop :=
  match p with
  | Ret a => Q a h
  | Vis o k => ok h _ o /\ forall r, wp ok (k r) (Ev o r :: h) Q
  end.

(** Each call that takes [h] to [h'] satisfies [ok]. *)
Inductive calls_ok (ok : history -> forall R, op R -> Prop) (h : history) : history -> Prop :=
  | calls_nil : calls_ok ok h h
  | calls_cons h' {R} (o : op R) (r : R) :
      calls_ok ok h h' -> ok h' _ o -> calls_ok ok h (Ev o r :: h').

Definition any_op (h : history) (R : Type) (o : op R) : Prop := True.

Lemma calls_ok_trans ok h1 h2 h3 :
  calls_ok ok h1 h2 -> calls_ok ok h2 h3 -> calls_ok ok h1 h3.
Proof. intros H1. induction 1; eauto using calls_ok. Qed.

(** A call in the history satisfied [ok] when it was made. *)
Lemma calls_ok_in ok h h' {R} (o : op R) (r : R) :
  calls_ok ok h h' -> Ev o r ∈ h' -> Ev o r ∈ h \/ exists h1, h1 ⊆ h' /\ ok h1 _ o.
Proof.
  induction 1 as [|h1 R' o' r' Hc IH Hok]; [by left|]. intros [Heq|Hin]%elem_of_cons.
  - right. exists h1. split; [intros e He; by apply list_elem_of_further|].
    change (match Ev o r with Ev o r => ok h1 _ o end). by rewrite Heq.
  - destruct (IH Hin) as [?|(h2 & Hs & ?)]; [by left|right]. exists h2.
    split; [|done]. intros e He. by apply list_elem_of_further, Hs.
Qed.

(** The rule that makes [wp] about executions. *)
Lemma wp_exec {A} ok (p : prog A) h Q h' a :
  wp ok p h Q -> exec p h h' a -> Q a h' /\ calls_ok ok h h'.
Proof.
  revert h. induction p as [b|R o k IH]; simpl; intros h.
  - intros HQ [-> ->]. eauto using calls_ok.
  - intros [Hok Hk] [r Hex]. destruct (IH r _ (Hk r) Hex) as [HQ Hc]. split; [done|].
    eapply calls_ok_trans; [|exact Hc]. by repeat constructor.
Qed.

Lemma wp_mono {A} ok (p : prog A) h (Q Q' : A -> history -> Prop) :
  wp ok p h Q -> (forall a h', Q a h' -> Q' a h') -> wp ok p h Q'.
Proof.
  revert h. induction p as [a|R o k IH]; simpl; [by auto|].
  intros h [Hok Hk] HQ. split; [done|]. intros r. eauto.
Qed.

Lemma wp_ok_mono {A} (ok ok' : history -> forall R, op R -> Prop) (p : prog A) h Q :
  wp ok p h Q -> (forall h R o, ok h R o -> ok' h R o) -> wp ok' p h Q.
Proof.
  intros Hwp Hok. revert h Hwp. induction p as [a|R o k IH]; simpl; [done|].
  intros h [? Hk]. split; [by apply Hok|]. auto.
Qed.

Lemma wp_bind {A B} ok (p : prog A) (f : A -> prog B) h Q :
  wp ok (p ≫= f) h Q <-> wp ok p h (fun a h' => wp ok (f a) h' Q).
Proof.
  revert h. induction p as [a|R o k IH]; [done|]. intros h.
  change ((Vis o k) ≫= f) with (Vis o (fun r => k r ≫= f)). simpl.
  split; (intros [? H]; split; [done|]; intros r; by apply IH).
Qed.

(** Histories only grow. *)
Lemma wp_grows {A} ok (p : prog A) h Q :
  wp ok p h Q -> wp ok p h (fun a h' => h ⊆ h' /\ Q a h').
Proof.
  revert h. induction p as [a|R o k IH]; simpl; [done|].
  intros h [Hok Hk]. split; [done|]. intros r. eapply wp_mono; [apply IH, Hk|].
  intros a h' [Hs HQ]. split; [|done]. intros e He. apply Hs. by apply list_elem_of_further.
Qed.

(** Where every call is allowed from here on. *)
Lemma wp_always {A} ok (p : prog A) h :
  (forall h' R (o : op R), h ⊆ h' -> ok h' R o) -> wp ok p h (fun _ h' => h ⊆ h').
Proof.
  intros Hok. assert (forall h1, h ⊆ h1 -> wp ok p h1 (fun _ h' => h ⊆ h')) as Hgen; [|by apply Hgen].
  induction p as [a|R o k IH]; intros h1 Hs; [done|]. simpl. split; [by apply Hok|].
  intros r. apply IH. intros e He. by apply list_elem_of_further, Hs.
Qed.

(** The rule for a call and what follows it. *)
Lemma wp_call ok {R B} (o : op R) (f : R -> prog B) h Q :
  ok h R o -> (forall r, wp ok (f r) (Ev o r :: h) Q) -> wp ok (call o ≫= f) h Q.
Proof. by split. Qed.

(** The loop rule: an invariant of the history. *)
Lemma wp_for_each {A} ok (l : list A) (body : A -> prog unit) (I : history -> Prop) h :
  I h ->
  (forall x h, x ∈ l -> I h -> wp ok (body x) h (fun _ h' => I h')) ->
  wp ok (for_each l body) h (fun _ h' => I h').
Proof.
  revert h. induction l as [|x l IH]; intros h HI Hbody; [done|].
  simpl. apply (wp_bind ok (body x) (fun _ => for_each l body)).
  eapply wp_mono; [apply Hbody; [apply list_elem_of_here|done]|].
  intros [] h2 HI2. apply IH; [done|]. intros y h3 Hy. apply Hbody. by apply list_elem_of_further.
Qed.

Lemma exec_bind {A B} (p : prog A) (f : A -> prog B) h h' b :
  exec (p ≫= f) h h' b <-> exists a h1, exec p h h1 a /\ exec (f a) h1 h' b.
Proof.
  revert h. induction p as [a|R o k IH]; intros h.
  - change ((Ret a) ≫= f) with (f a). simpl. naive_solver.
  - change ((Vis o k) ≫= f) with (Vis o (fun r => k r ≫= f)). simpl.
    setoid_rewrite IH. naive_solver.
Qed.

(** ** Running a program against a handler of its calls *)

(** [run handle p h w]: the answers come from [handle], which threads a world
    [w] and may leave a call unanswered; the result carries the history, so a
    closed program can be evaluated. *)
Fixpoint run {W A} (handle : forall R, op R -> W -> option (R * W)) (p : prog A)
    (h : history) (w : W) : option (A * history * W) :=
  match p with
  | Ret a => Some (a, h, w)
  | Vis o k =>
      match handle _ o w with
      | None => None
      | Some (r, w') => run handle (k r) (Ev o r :: h) w'
      end
  end.

Lemma run_exec {W A} (handle : forall R, op R -> W -> option (R * W)) (p : prog A) h w a h' w' :
  run handle p h w = Some (a, h', w') -> exec p h h' a.
Proof.
  revert h w. induction p as [b|R o k IH]; simpl; intros h w Hrun.
  - by injection Hrun as <- <- <-.
  - destruct (handle R o w) as [[r w1]|]; [|done]. exists r. by eapply IH.
Qed.

(** The value of a run. *)
Definition run_value {W A} (handle : forall R, op R -> W -> option (R * W)) (p : prog A) (w : W) :
    option A :=
  match run handle p [] w with None => None | Some (a, _, _) => Some a end.

Lemma run_value_exec {W A} (handle : forall R, op R -> W -> option (R * W)) (p : prog A) w a :
  run_value handle p w = Some a -> exists h, exec p [] h a.
Proof.
  unfold run_value. destruct (run handle p [] w) as [[[b h] w']|] eqn:E; [|done].
  intros [= <-]. exists h. by eapply run_exec.
Qed.

(** A run whose value passes a test. *)
Definition run_test {W A} (handle : forall R, op R -> W -> option (R * W)) (p : prog A) (w : W)
    (test : A -> bool) : bool :=
  match run handle p [] w with None => false | Some (a, _, _) => test a end.

Lemma run_test_run {W A} (handle : forall R, op R -> W -> option (R * W)) (p : prog A) w test :
  run_test handle p w test = true ->
  exists a h w', run handle p [] w = Some (a, h, w') /\ test a = true.
Proof.
  unfold run_test. destruct (run handle p [] w) as [[[a h] w']|] eqn:E; [|done].
  intros Ht. by exists a, h, w'.
Qed.

(** The creations in the jobs bucket a history shows, with their answers. *)
Definition create_of (e : event) : option (string * result N) :=
  match e with
  | Ev o r =>
      match o in op R return R -> option (string * result N) with
      | KvCreate BJobs k _ => fun a => Some (k, a)
      | _ => fun _ => None
      end r
  end.
Definition creates (h : history) : list (string * result N) := omap create_of h.

(** The readings of the clock, and the updates asked for. *)
Definition now_of (e : event) : option time :=
  match e with
  | Ev o r => match o in op R return R -> option time with Now => fun t => Some t | _ => fun _ => None end r
  end.
Definition now_reads (h : history) : list time := omap now_of h.

Definition update_of (e : event) : option (bucket * string * V * N) :=
  match e with Ev (KvUpdate b k v n) _ => Some (b, k, v, n) | _ => None end.
Definition updates (h : history) : list (bucket * string * V * N) := omap update_of h.

Lemma now_reads_sub (h h' : history) : h ⊆ h' -> now_reads h ⊆ now_reads h'.
Proof. intros Hs t. unfold now_reads. rewrite !list_elem_of_omap. intros (e & He & Ht). eauto. Qed.

(** ** Executions over the memory

    [exec] lets a critical section answer anything, which is enough for a
    program that only reads memory other goroutines fill.  Where the memory is
    the point, an execution threads it: other goroutines may change it, as
    [rely] allows, before each of the program's own critical sections, and the
    section then answers and leaves exactly what its function says. *)

Definition answer (rely : St -> St -> Prop) {R : Type} (o : op R) : St -> R -> St -> Prop :=
  match o in op R return St -> R -> St -> Prop with
  | Atomic f => fun st r st' => exists st1, rely st st1 /\ f st1 = (r, st')
  | _ => fun st _ st' => st' = st
  end.

Fixpoint sexec (rely : St -> St -> Prop) {A} (p : prog A) (h : history) (st : St)
    (h' : history) (st' : St) (a : A) : Prop :=
  match p with
  | Ret b => b = a /\ h = h' /\ st = st'
  | Vis o k => exists r st1, answer rely o st r st1 /\ sexec rely (k r) (Ev o r :: h) st1 h' st' a
  end.

Fixpoint swp (rely : St -> St -> Prop) {A} (p : prog A) (h : history) (st : St)
    (Q : A -> history -> St -> Prop) : Prop :=
  match p with
  | Ret a => Q a h st
  | Vis o k => forall r st1, answer rely o st r st1 -> swp rely (k r) (Ev o r :: h) st1 Q
  end.

Lemma swp_sexec rely {A} (p : prog A) h st Q h' st' a :
  swp rely p h st Q -> sexec rely p h st h' st' a -> Q a h' st'.
Proof.
  revert h st. induction p as [b|R o k IH]; simpl; intros h st.
  - by intros HQ (-> & -> & ->).
  - intros Hk (r & st1 & Ha & Hex). eauto.
Qed.

Lemma swp_mono rely {A} (p : prog A) h st (Q Q' : A -> history -> St -> Prop) :
  swp rely p h st Q -> (forall a h' st', Q a h' st' -> Q' a h' st') -> swp rely p h st Q'.
Proof. revert h st. induction p as [a|R o k IH]; simpl; eauto. Qed.

Lemma swp_bind rely {A B} (p : prog A) (f : A -> prog B) h st Q :
  swp rely (p ≫= f) h st Q <-> swp rely p h st (fun a h' st' => swp rely (f a) h' st' Q).
Proof.
  revert h st. induction p as [a|R o k IH]; [done|]. intros h st.
  change ((Vis o k) ≫= f) with (Vis o (fun r => k r ≫= f)). simpl.
  split; intros H r st1 Ha; by apply IH, H.
Qed.

(** A program with no critical section of its own. *)
Fixpoint quiet {A} (p : prog A) : Prop :=
  match p with
  | Ret _ => True
  | Vis o k => match o with Atomic _ => False | _ => forall r, quiet (k r) end
  end.

Lemma quiet_call {R B} (o : op R) (f : R -> prog B) :
  match o with Atomic _ => False | _ => True end -> (forall r, quiet (f r)) -> quiet (call o ≫= f).
Proof. destruct o; done. Qed.

Lemma quiet_bind {A B} (p : prog A) (f : A -> prog B) :
  quiet p -> (forall a, quiet (f a)) -> quiet (p ≫= f).
Proof.
  intros Hp Hf. induction p as [a|R o k IH]; [apply Hf|].
  change ((Vis o k) ≫= f) with (Vis o (fun r => k r ≫= f)).
  destruct o; simpl in *; try done; intros r; by apply IH.
Qed.

(** A program that writes to no bucket and no object. *)
Fixpoint writeless {A} (p : prog A) : Prop :=
  match p with
  | Ret _ => True
  | Vis o k =>
      match o with
      | KvCreate _ _ _ | KvUpdate _ _ _ _ | KvDelete _ _ _ | ObjPut _ _ | ObjDelete _ => False
      | _ => True
      end /\ forall r, writeless (k r)
  end.

Lemma writeless_bind {A B} (p : prog A) (f : A -> prog B) :
  writeless p -> (forall a, writeless (f a)) -> writeless (p ≫= f).
Proof.
  intros Hp Hf. induction p as [a|R o k IH]; [apply Hf|].
  change ((Vis o k) ≫= f) with (Vis o (fun r => k r ≫= f)). destruct Hp as [Ho Hk].
  split; [done|]. intros r. by apply IH.
Qed.

Lemma writeless_for_each {A} (l : list A) (body : A -> prog unit) :
  (forall x, writeless (body x)) -> writeless (for_each l body).
Proof.
  intros Hb. induction l as [|x l IH]; [done|].
  apply (writeless_bind (body x) (fun _ => for_each l body)); [apply Hb|done].
Qed.

(** It leaves the memory as it finds it. *)
Lemma swp_quiet rely {A} (p : prog A) h st (Q : A -> history -> St -> Prop) :
  quiet p -> (forall a h', h ⊆ h' -> Q a h' st) -> swp rely p h st Q.
Proof.
  revert h. induction p as [a|R o k IH]; intros h Hp HQ; [by apply HQ|].
  simpl. intros r st1 Ha.
  assert (st1 = st /\ quiet (k r)) as [-> Hq] by (destruct o; simpl in *; by subst).
  apply IH; [done|]. intros a h' Hs. apply HQ. intros e He. apply Hs.
  by apply list_elem_of_further.
Qed.

(** What holds of every later history. *)
Lemma swp_any rely {A} (p : prog A) h st (Q : A -> history -> St -> Prop) :
  (forall a h' st', h ⊆ h' -> Q a h' st') -> swp rely p h st Q.
Proof.
  revert h st. induction p as [a|R o k IH]; intros h st HQ; [by apply HQ|].
  simpl. intros r st1 _. apply IH. intros a h' st' Hs. apply HQ. intros e He. apply Hs.
  by apply list_elem_of_further.
Qed.

Lemma swp_call rely {R B} (o : op R) (f : R -> prog B) h st Q :
  (forall r st1, answer rely o st r st1 -> swp rely (f r) (Ev o r :: h) st1 Q) ->
  swp rely (call o ≫= f) h st Q.
Proof. done. Qed.

(** A run whose critical sections act on the world is an execution over it,
    the other goroutines standing still. *)
Lemma run_sexec rely {A} (handle : forall R, op R -> St -> option (R * St)) (p : prog A) h st a h' st' :
  (forall st, rely st st) ->
  (forall R (o : op R) st r st1, handle R o st = Some (r, st1) ->
    match o in op R return R -> Prop with Atomic f => fun r => f st = (r, st1) | _ => fun _ => st1 = st end r) ->
  run handle p h st = Some (a, h', st') -> sexec rely p h st h' st' a.
Proof.
  intros Hrefl Hh. revert h st. induction p as [b|R o k IH]; simpl; intros h st Hrun.
  - by injection Hrun as <- <- <-.
  - destruct (handle R o st) as [[r st1]|] eqn:E; [|done]. exists r, st1. split; [|by eapply IH].
    apply Hh in E. destruct o; simpl in *; eauto.
Qed.

(** An execution over the memory is an execution. *)
Lemma sexec_exec rely {A} (p : prog A) h st h' st' a :
  sexec rely p h st h' st' a -> exec p h h' a.
Proof.
  revert h st. induction p as [b|R o k IH]; simpl; intros h st.
  - by intros (-> & -> & _).
  - intros (r & st1 & _ & Hex). eauto.
Qed.
End effects.

Arguments op : clear implicits.
Arguments prog : clear implicits.
Arguments event : clear implicits.
Arguments Ret {V St A} a.
Arguments Vis {V St A R} o k.

(** The part of the process memory one component's mutex protects. *)
Class Has (St A : Type) := { the : St -> A; put : A -> St -> St }.

(** A component's part is what was put there. *)
Class HasLaws (St A : Type) `{Has St A} : Prop := {
  the_put : forall a st, the (put a st) = a
}.

#[export] Instance has_self (A : Type) : Has A A := {| the := id; put := fun a _ => a |}.
#[export] Instance has_self_laws (A : Type) : HasLaws A A.
Proof. by constructor. Qed.

(** [mu.Lock(); defer mu.Unlock()] around a step on that part. *)
Definition locked {V St A R} `{Has St A} (f : A -> R * A) : prog V St R :=
  call (Atomic (fun st => let '(r, a) := f (the st) in (r, put a st))).

(** The same, of a step that only reads. *)
Definition reading {V St A R} `{Has St A} (f : A -> R) : prog V St R :=
  call (Atomic (fun st => (f (the st), st))).

(** Two parts of the memory that do not overlap. *)
Class Apart (St A B : Type) `{Has St A} `{Has St B} : Prop := {
  apart : forall (a : A) st, the (A:=B) (put a st) = the st
}.

(** A memory made of two. *)
#[export] Instance has_left {A B C} `{Has A C} : Has (A * B) C :=
  {| the := fun st => the st.1; put := fun c st => (put c st.1, st.2) |}.
#[export] Instance has_right {A B C} `{Has B C} : Has (A * B) C :=
  {| the := fun st => the st.2; put := fun c st => (st.1, put c st.2) |}.
#[export] Instance has_left_laws {A B C} `{HasLaws A C} : HasLaws (A * B) C.
Proof. constructor. intros c st. exact (the_put c st.1). Qed.
#[export] Instance has_right_laws {A B C} `{HasLaws B C} : HasLaws (A * B) C.
Proof. constructor. intros c st. exact (the_put c st.2). Qed.
#[export] Instance apart_left {A B C D} `{Apart A C D} : Apart (A * B) C D.
Proof. constructor. intros c st. exact (apart c st.1). Qed.
#[export] Instance apart_left_right {A B C D} `{Has A C} `{Has B D} : Apart (A * B) C D.
Proof. by constructor. Qed.
#[export] Instance apart_right_left {A B C D} `{Has B C} `{Has A D} : Apart (A * B) C D.
Proof. by constructor. Qed.
