(* ===== verification/Ident.v ===== *)
(** * Identifiers and artifact names

    src/internal/pgo/id.go, and the artifact names of rounds.go and sweeper.go.
    The identifier of a Collection is opaque, so what matters of it is its
    grammar: every generated identifier satisfies it, and the object name the
    rounds store a profile under is read back by the sweeper as that
    identifier. *)

From S2P Require Import Prelude Effects.

Definition idAlphabet : string := "0123456789abcdefghjkmnpqrstvwxyz".

Definition idLength : nat := 20.

(** [idAlphabet[b & 0x1f]]; the index is below 32, so the default is never taken. *)
Definition idChar (b : Byte.byte) : ascii :=
  match String.get (N.to_nat (N.land (Byte.to_N b) 31)) idAlphabet with
  | Some c => c
  | None => "0"%char
  end.

Fixpoint string_of_chars (l : list ascii) : string :=
  match l with
  | [] => EmptyString
  | c :: l' => String c (string_of_chars l')
  end.

(** What [newID] makes of the bytes crypto/rand gave it. *)
Definition idOfBytes (buf : list Byte.byte) : string := string_of_chars (idChar <$> buf).

(** [newID]. *)
Definition newID {V St} : prog V St string :=
  buf ← call (Rand idLength);
  mret (idOfBytes buf).

(** [isIDChar]: the loop over the alphabet. *)
Fixpoint isIDChar_in (alphabet : string) (c : ascii) : bool :=
  match alphabet with
  | EmptyString => false
  | String d rest => if decide (d = c) then true else isIDChar_in rest c
  end.

Definition isIDChar (c : ascii) : bool := isIDChar_in idAlphabet c.

Definition ValidID (s : string) : bool :=
  if negb (String.length s =? idLength)%nat then false
  else all_bytes isIDChar s.

(** [artifactSuffix], and the object name [Rounds.finish] stores a profile
    under: ["%s-%d.pprof"] of the identifier and the attempt. *)
Definition artifactSuffix : string := ".pprof".

Definition artifactName (id : string) (attempt : Z) : string :=
  id +:+ "-" +:+ pretty attempt +:+ artifactSuffix.

(** [collectionOf]: the Collection an artifact name belongs to. *)
Definition collectionOf (object : string) : option string :=
  match cut_suffix artifactSuffix object with
  | None => None
  | Some base =>
      match cut "-" base with
      | None => None
      | Some (id, attempt) =>
          if (String.eqb attempt EmptyString) || negb (ValidID id) then None
          else if all_bytes is_digit attempt then Some id else None
      end
  end.

(** ** Properties *)

Lemma string_of_chars_length (l : list ascii) : String.length (string_of_chars l) = length l.
Proof. induction l as [|c l IH]; simpl; [done|]. by rewrite IH. Qed.

Lemma all_bytes_string_of_chars f (l : list ascii) :
  all_bytes f (string_of_chars l) = forallb f l.
Proof. induction l as [|c l IH]; simpl; [done|]. by rewrite IH. Qed.

Lemma idChar_ok (b : Byte.byte) : isIDChar (idChar b) = true.
Proof. by destruct b; vm_compute. Qed.

Lemma ValidID_iff (s : string) :
  ValidID s = true <-> String.length s = idLength /\ all_bytes isIDChar s = true.
Proof.
  unfold ValidID. destruct (Nat.eqb_spec (String.length s) idLength); simpl; naive_solver.
Qed.

(** Whatever 20 bytes crypto/rand returns, the identifier [newID] makes of
    them satisfies the grammar [ValidID] that route matching accepts. *)
Theorem newID_valid (buf : list Byte.byte) :
  length buf = idLength -> ValidID (idOfBytes buf) = true.
Proof.
  intros Hlen. apply ValidID_iff. unfold idOfBytes.
  rewrite string_of_chars_length, length_fmap, all_bytes_string_of_chars. split; [done|].
  apply forallb_forall. intros c (b & -> & _)%list_elem_of_In%list_elem_of_fmap.
  apply idChar_ok.
Qed.

Lemma newID_valid_witness :
  length (replicate 20 Byte.xff) = idLength /\
  ValidID (idOfBytes (replicate 20 Byte.xff)) = true.
Proof. split; [reflexivity|]. apply (newID_valid (replicate 20 Byte.xff)). reflexivity. Defined.

(** How many of the 256 byte values map to a character. *)
Definition byte_preimages (c : ascii) : nat :=
  length (List.filter (fun n => match Byte.of_N n with
                                | Some b => bool_decide (idChar b = c)
                                | None => false
                                end) (N.of_nat <$> seq 0 256)).

Fixpoint chars_of (s : string) : list ascii :=
  match s with EmptyString => [] | String c s' => c :: chars_of s' end.

(** Every character of the alphabet is the image of exactly 8 of the 256 byte
    values, so a uniform byte gives a uniform character. *)
Lemma idChar_uniform : forallb (fun c => (byte_preimages c =? 8)%nat) (chars_of idAlphabet) = true.
Proof. vm_compute. reflexivity. Qed.

Lemma isIDChar_no_dash (s : string) : all_bytes isIDChar s = true -> has_byte "-" s = false.
Proof. intros H. by apply (all_bytes_no_byte isIDChar). Qed.

Lemma isIDChar_no_dot (s : string) : all_bytes isIDChar s = true -> has_byte "." s = false.
Proof. intros H. by apply (all_bytes_no_byte isIDChar). Qed.

(** The sweeper reads back, from the object name a round stored a profile
    under, the identifier of the Collection, for every valid identifier and
    every attempt number. *)
Theorem collectionOf_artifactName (id : string) (attempt : Z) :
  ValidID id = true -> 0 <= attempt -> collectionOf (artifactName id attempt) = Some id.
Proof.
  intros Hid Ha. pose proof (proj1 (ValidID_iff _) Hid) as [_ Hchars].
  unfold collectionOf, artifactName.
  replace (id +:+ "-" +:+ pretty attempt +:+ artifactSuffix)
    with ((id +:+ String "-" (pretty attempt)) +:+ artifactSuffix)
    by (rewrite str_app_assoc; done).
  rewrite cut_suffix_app, cut_app by by apply isIDChar_no_dash.
  rewrite Hid, (pretty_Z_digits _ Ha), orb_false_r.
  destruct (String.eqb_spec (pretty attempt) EmptyString) as [E|]; [|done].
  by apply pretty_Z_nonempty in E.
Qed.

Lemma collectionOf_artifactName_witness :
  (ValidID "0123456789abcdefghjk" = true /\ 0 <= 3) /\
  collectionOf (artifactName "0123456789abcdefghjk" 3) = Some "0123456789abcdefghjk".
Proof.
  split; [split; [reflexivity|lia]|].
  apply (collectionOf_artifactName "0123456789abcdefghjk" 3); [reflexivity|lia].
Defined.

(** Two attempts of one Collection, and two Collections, never share a name. *)
Theorem artifactName_inj (id id' : string) (a a' : Z) :
  ValidID id = true -> ValidID id' = true ->
  artifactName id a = artifactName id' a' -> id = id' /\ a = a'.
Proof.
  intros [_ H1]%ValidID_iff [_ H2]%ValidID_iff E. unfold artifactName in E.
  change ("-" +:+ pretty a +:+ artifactSuffix) with (String "-" (pretty a +:+ artifactSuffix)) in E.
  change ("-" +:+ pretty a' +:+ artifactSuffix) with (String "-" (pretty a' +:+ artifactSuffix)) in E.
  apply app_sep_inj in E as [-> E]; [|by apply isIDChar_no_dash..].
  apply str_app_inj_r in E. by apply (inj pretty) in E as ->.
Qed.

Lemma artifactName_inj_witness :
  ValidID "0123456789abcdefghjk" = true /\
  ("0123456789abcdefghjk" = "0123456789abcdefghjk" /\ 1 = 1).
Proof.
  split; [reflexivity|].
  apply (artifactName_inj "0123456789abcdefghjk" "0123456789abcdefghjk" 1 1); reflexivity.
Defined.

(** An object name the sweeper attributes to a Collection is one the rounds
    could have written for it, up to the numeral's leading zeros: a valid
    identifier, a dash, digits and the suffix. *)
Lemma collectionOf_Some (object id : string) :
  collectionOf object = Some id ->
  ValidID id = true /\
  exists attempt, attempt <> EmptyString /\ all_bytes is_digit attempt = true /\
    object = id +:+ "-" +:+ attempt +:+ artifactSuffix.
Proof.
  unfold collectionOf.
  destruct (cut_suffix artifactSuffix object) as [base|] eqn:E1; [|done].
  apply cut_suffix_Some in E1 as ->.
  destruct (cut "-" base) as [[i att]|] eqn:E2; [|done].
  apply cut_Some in E2 as [-> Hi].
  destruct (String.eqb_spec att EmptyString); [done|].
  destruct (ValidID i) eqn:Hid; [|done]. simpl.
  destruct (all_bytes is_digit att) eqn:Hd; [|done]. intros [= <-].
  split; [done|]. exists att. repeat split; [done|done|].
  by rewrite str_app_assoc.
Qed.
