(* ===== verification/Config.v ===== *)
(** * The PGO block of the configuration

    src/internal/config/config.go: the ceilings every policy is measured
    against, the operator's defaults, the rules that relate the keys, and the
    container memory figure derived from them.  An [int] or a [time.Duration]
    is a [Z] and its arithmetic wraps at 64 bits. *)

From S2P Require Import Prelude.

Record PGOLimits := {
  MaxDuration : duration;
  MaxRounds : Z;
  MaxParallel : Z;
  MinEvery : duration;
  MaxEvery : duration;
  MaxRetention : duration;
  MaxSampleBytes : Z;
  MaxMergedBytes : Z;
  MaxTargetsPerRound : Z;
  MaxActiveCollections : Z;
  OnDemandPerMinute : Z;
  MaxLiveCollections : Z
}.

Record PGODefaults := {
  d_every : duration;
  d_jitter : duration;
  d_duration : duration;
  d_rounds : Z;
  d_roundInterval : duration;
  d_replicas : string;
  d_maxParallel : Z;
  d_retention : duration
}.

Record NATSConfig := {
  nats_URL : string;
  nats_CredsFile : string
}.

Record PGOConfig := {
  pgo_Enabled : bool;
  pgo_LeaseTTL : duration;
  pgo_MaxAttempts : Z;
  pgo_JobRetention : duration;
  pgo_Limits : PGOLimits;
  pgo_Defaults : PGODefaults
}.

(** The part of [Config] the PGO rules read; [cfg_CPUSeconds] is
    [limits.cpuSeconds]. *)
Record Config := {
  cfg_NATS : NATSConfig;
  cfg_PGO : PGOConfig;
  cfg_CPUSeconds : Z
}.

(** ** The per-key ranges

    Each is the [validate] tag of one field: a value outside it fails [Load]. *)
Definition in_range (lo hi x : Z) : bool := (lo <=? x) && (x <=? hi).

Definition limits_tags (l : PGOLimits) : bool :=
  (second <=? MaxDuration l)
  && in_range 1 20 (MaxRounds l)
  && in_range 1 64 (MaxParallel l)
  && (minute <=? MinEvery l)
  && (MaxEvery l <=? 24 * hour)
  && in_range minute (720 * hour) (MaxRetention l)
  && in_range 1048576 268435456 (MaxSampleBytes l)
  && (MaxMergedBytes l <=? 1073741824)
  && in_range 1 256 (MaxTargetsPerRound l)
  && (1 <=? MaxActiveCollections l)
  && in_range 1 600 (OnDemandPerMinute l)
  && in_range 1 1024 (MaxLiveCollections l).

Definition PGOMaxRoundInterval : duration := 10 * minute.
Definition PGOSampleOverhead : duration := 30 * second.
Definition PGODeadlineSlack : duration := 60 * second.
Definition PGODecodeRetainFactor : Z := 12.
Definition PGOMergeRetainFactor : Z := 16.
Definition PGOGatewayBaseMemory : Z := Z.shiftl 512 20.
Definition maxSamplesPerCollection : Z := 256.
Definition replicasAll : string := "all".

Definition defaults_tags (d : PGODefaults) : bool :=
  (second <=? d_duration d)
  && (1 <=? d_rounds d)
  && in_range 0 PGOMaxRoundInterval (d_roundInterval d)
  && (1 <=? d_maxParallel d)
  && (minute <=? d_retention d).

Definition pgo_tags (p : PGOConfig) : bool :=
  in_range (30 * second) (10 * minute) (pgo_LeaseTTL p)
  && in_range 1 10 (pgo_MaxAttempts p)
  && (pgo_JobRetention p <=? 2160 * hour)
  && limits_tags (pgo_Limits p)
  && defaults_tags (pgo_Defaults p).

(** ** [strconv.Atoi]

    An optional sign and at least one digit, the value within [int]. *)
Fixpoint digits_value (acc : Z) (s : string) : option Z :=
  match s with
  | EmptyString => Some acc
  | String c s' =>
      if is_digit c then digits_value (10 * acc + (Z.of_nat (nat_of_ascii c) - 48)) s' else None
  end.

Definition atoi (s : string) : option Z :=
  let '(neg, body) :=
    match s with
    | String "-" r => (true, r)
    | String "+" r => (false, r)
    | _ => (false, s)
    end in
  match body with
  | EmptyString => None
  | _ =>
      match digits_value 0 body with
      | None => None
      | Some n =>
          let v := if neg : bool then - n else n in
          if (min_int64 <=? v) && (v <=? max_int64) then Some v else None
      end
  end.

(** ** The memory figure *)

(** [Config.PGOMemoryBytes]. *)
Definition PGOMemoryBytes (l : PGOLimits) : Z :=
  let perCollection :=
    ((MaxParallel l *! (2 + PGODecodeRetainFactor)) *! MaxSampleBytes l)
    +! ((1 + PGOMergeRetainFactor) *! MaxMergedBytes l) in
  MaxActiveCollections l *! perCollection.

(** [Config.GatewayMemoryBytes]. *)
Definition GatewayMemoryBytes (p : PGOConfig) : Z :=
  if negb (pgo_Enabled p) then PGOGatewayBaseMemory
  else PGOGatewayBaseMemory +! PGOMemoryBytes (pgo_Limits p).

(** [validatePGOSizing]: true for a nil error.  Every step is the code's, in
    wrapping arithmetic, in the code's order. *)
Definition validatePGOSizing (l : PGOLimits) : bool :=
  let samples := MaxParallel l *! (2 + PGODecodeRetainFactor) in
  if max_int64 /! MaxSampleBytes l <? samples then false
  else if max_int64 /! MaxMergedBytes l <? 1 + PGOMergeRetainFactor then false
  else
    let sampleTerm := samples *! MaxSampleBytes l in
    let mergedTerm := (1 + PGOMergeRetainFactor) *! MaxMergedBytes l in
    if max_int64 -! mergedTerm <? sampleTerm then false
    else
      let perCollection := sampleTerm +! mergedTerm in
      if max_int64 /! perCollection <? MaxActiveCollections l then false
      else if max_int64 - PGOGatewayBaseMemory <? MaxActiveCollections l *! perCollection then false
      else true.

(** ** The rules that relate the keys *)

Inductive config_err :=
  | ErrSamplesPerCollection
  | ErrJobRetention
  | ErrMinEvery
  | ErrMergedBytes
  | ErrDefaultEvery
  | ErrDefaultJitter
  | ErrDefaultDuration
  | ErrDefaultRounds
  | ErrDefaultMaxParallel
  | ErrDefaultReplicas
  | ErrDefaultRetention
  | ErrDefaultRetentionUnderEvery
  | ErrNATSURL
  | ErrNATSScheme
  | ErrNATSCredsFile
  | ErrMaxDurationCPU
  | ErrSizing.

(** [validatePGODefaults]: [None] for a nil error. *)
Definition validatePGODefaults (d : PGODefaults) (l : PGOLimits) : option config_err :=
  if (d_every d <? MinEvery l) || (MaxEvery l <? d_every d) then Some ErrDefaultEvery
  else if d_every d /! 2 <? d_jitter d then Some ErrDefaultJitter
  else if MaxDuration l <? d_duration d then Some ErrDefaultDuration
  else if MaxRounds l <? d_rounds d then Some ErrDefaultRounds
  else if MaxParallel l <? d_maxParallel d then Some ErrDefaultMaxParallel
  else
    match
      (if String.eqb (d_replicas d) replicasAll then None
       else match atoi (d_replicas d) with
            | None => Some ErrDefaultReplicas
            | Some count =>
                if (count <? 1) || (MaxTargetsPerRound l <? count)
                then Some ErrDefaultReplicas else None
            end)
    with
    | Some e => Some e
    | None =>
        if MaxRetention l <? d_retention d then Some ErrDefaultRetention
        else if d_retention d <? d_every d then Some ErrDefaultRetentionUnderEvery
        else None
    end.

(** [strings.TrimSpace]: the encodings of the runes [unicode.IsSpace] accepts. *)
Definition space_runes : list string :=
  let b l := String.string_of_list_byte l in
  [ b [Byte.x09]; b [Byte.x0a]; b [Byte.x0b]; b [Byte.x0c]; b [Byte.x0d]; b [Byte.x20];
    b [Byte.xc2; Byte.x85]; b [Byte.xc2; Byte.xa0];
    b [Byte.xe1; Byte.x9a; Byte.x80];
    b [Byte.xe2; Byte.x80; Byte.x80]; b [Byte.xe2; Byte.x80; Byte.x81];
    b [Byte.xe2; Byte.x80; Byte.x82]; b [Byte.xe2; Byte.x80; Byte.x83];
    b [Byte.xe2; Byte.x80; Byte.x84]; b [Byte.xe2; Byte.x80; Byte.x85];
    b [Byte.xe2; Byte.x80; Byte.x86]; b [Byte.xe2; Byte.x80; Byte.x87];
    b [Byte.xe2; Byte.x80; Byte.x88]; b [Byte.xe2; Byte.x80; Byte.x89];
    b [Byte.xe2; Byte.x80; Byte.x8a]; b [Byte.xe2; Byte.x80; Byte.xa8];
    b [Byte.xe2; Byte.x80; Byte.xa9]; b [Byte.xe2; Byte.x80; Byte.xaf];
    b [Byte.xe2; Byte.x81; Byte.x9f]; b [Byte.xe3; Byte.x80; Byte.x80] ].

Fixpoint first_some {A B} (f : A -> option B) (l : list A) : option B :=
  match l with
  | [] => None
  | x :: l' => match f x with Some y => Some y | None => first_some f l' end
  end.

(** The fuel is the string's length: each round removes at least one byte. *)
Fixpoint trim_with (cutter : string -> string -> option string) (fuel : nat) (s : string) : string :=
  match fuel with
  | O => s
  | S fuel' =>
      match first_some (fun r => cutter r s) space_runes with
      | Some s' => trim_with cutter fuel' s'
      | None => s
      end
  end.

Definition trim_space (s : string) : string :=
  let l := trim_with cut_prefix (String.length s) s in
  trim_with cut_suffix (String.length l) l.

(** [validateNATS].  Whether the credentials file opens is the file system's
    answer, [opens]. *)
Definition validateNATS (opens : string -> bool) (n : NATSConfig) : option config_err :=
  if String.eqb (nats_URL n) EmptyString then Some ErrNATSURL
  else if forallb (fun entry => let e := trim_space entry in
                     has_prefix "nats://" e || has_prefix "tls://" e)
                  (split_at "," (nats_URL n))
  then if String.eqb (nats_CredsFile n) EmptyString then None
       else if opens (nats_CredsFile n) then None else Some ErrNATSCredsFile
  else Some ErrNATSScheme.

(** [validatePGO]. *)
Definition validatePGO (opens : string -> bool) (cfg : Config) : option config_err :=
  let p := cfg_PGO cfg in
  let l := pgo_Limits p in
  if maxSamplesPerCollection <? MaxRounds l *! MaxTargetsPerRound l
  then Some ErrSamplesPerCollection
  else if pgo_JobRetention p <? MaxRetention l +! hour then Some ErrJobRetention
  else if MaxEvery l <? MinEvery l then Some ErrMinEvery
  else if MaxMergedBytes l <? MaxSampleBytes l then Some ErrMergedBytes
  else
    match validatePGODefaults (pgo_Defaults p) l with
    | Some e => Some e
    | None =>
        if negb (pgo_Enabled p) then None
        else
          match validateNATS opens (cfg_NATS cfg) with
          | Some e => Some e
          | None =>
              if cfg_CPUSeconds cfg *! second <? MaxDuration l then Some ErrMaxDurationCPU
              else if validatePGOSizing l then None else Some ErrSizing
          end
    end.

(** ** Properties *)

(** The arithmetic facts of the ranges, for [lia]. *)
Lemma limits_tags_spec (l : PGOLimits) :
  limits_tags l = true ->
  second <= MaxDuration l /\ 1 <= MaxRounds l <= 20 /\ 1 <= MaxParallel l <= 64 /\
  minute <= MinEvery l /\ MaxEvery l <= 24 * hour /\
  minute <= MaxRetention l <= 720 * hour /\
  1048576 <= MaxSampleBytes l <= 268435456 /\ MaxMergedBytes l <= 1073741824 /\
  1 <= MaxTargetsPerRound l <= 256 /\ 1 <= MaxActiveCollections l /\
  1 <= OnDemandPerMinute l <= 600 /\ 1 <= MaxLiveCollections l <= 1024.
Proof.
  unfold limits_tags, in_range.
  rewrite ?andb_true_iff, ?Z.leb_le. intros H. repeat split; tauto.
Qed.

(** The figure in exact arithmetic. *)
Definition per_collection_bytes (l : PGOLimits) : Z :=
  MaxParallel l * 14 * MaxSampleBytes l + 17 * MaxMergedBytes l.

Definition memory_bytes (l : PGOLimits) : Z :=
  MaxActiveCollections l * per_collection_bytes l.

Lemma per_collection_bounds (l : PGOLimits) :
  limits_tags l = true -> MaxSampleBytes l <= MaxMergedBytes l ->
  0 < per_collection_bytes l <= 258771779584.
Proof. intros H%limits_tags_spec Hm. unfold per_collection_bytes. nia. Qed.

(** The check's own steps stay in range, so it is the check in exact arithmetic. *)
Lemma validatePGOSizing_exact (l : PGOLimits) :
  limits_tags l = true -> MaxSampleBytes l <= MaxMergedBytes l ->
  validatePGOSizing l =
    if max_int64 / per_collection_bytes l <? MaxActiveCollections l then false
    else negb (max_int64 - PGOGatewayBaseMemory
               <? MaxActiveCollections l *! per_collection_bytes l).
Proof.
  intros Ht Hm. pose proof (limits_tags_spec l Ht) as H.
  pose proof (per_collection_bounds l Ht Hm) as Hper.
  unfold validatePGOSizing, per_collection_bytes, PGODecodeRetainFactor, PGOMergeRetainFactor in *.
  cbv zeta. change (2 + 12) with 14. change (1 + 16) with 17.
  rewrite (quot64_div _ (MaxSampleBytes l)), (quot64_div _ (MaxMergedBytes l))
    by (unfold max_int64; lia).
  rewrite (wrap64_id (MaxParallel l * 14)) by in64.
  rewrite (wrap64_id (MaxParallel l * 14 * MaxSampleBytes l)) by (unfold in_int64, min_int64, max_int64; nia).
  rewrite (wrap64_id (17 * MaxMergedBytes l)) by in64.
  rewrite (wrap64_id (max_int64 - 17 * MaxMergedBytes l)) by in64.
  rewrite (wrap64_id (_ + 17 * MaxMergedBytes l)) by in64.
  rewrite quot64_div by (unfold max_int64; lia).
  pose proof (Z.div_le_lower_bound max_int64 (MaxSampleBytes l) 896) as D1.
  pose proof (Z.div_le_lower_bound max_int64 (MaxMergedBytes l) 17) as D2.
  unfold max_int64 in D1, D2.
  rewrite (proj2 (Z.ltb_ge (max_int64 / MaxSampleBytes l) _)) by (unfold max_int64; lia).
  rewrite (proj2 (Z.ltb_ge (max_int64 / MaxMergedBytes l) _)) by (unfold max_int64; lia).
  rewrite (proj2 (Z.ltb_ge (max_int64 - 17 * MaxMergedBytes l) _)) by (unfold max_int64; lia).
  case_match; [done|]. by destruct (max_int64 - PGOGatewayBaseMemory <? _).
Qed.

(** [PGOMemoryBytes] and the container sum in exact arithmetic. *)
Lemma PGOMemoryBytes_wrap (l : PGOLimits) :
  limits_tags l = true -> MaxSampleBytes l <= MaxMergedBytes l ->
  PGOMemoryBytes l = MaxActiveCollections l *! per_collection_bytes l.
Proof.
  intros Ht Hm. pose proof (limits_tags_spec l Ht) as H.
  pose proof (per_collection_bounds l Ht Hm) as Hper.
  unfold PGOMemoryBytes, per_collection_bytes, PGODecodeRetainFactor, PGOMergeRetainFactor in *.
  cbv zeta. change (2 + 12) with 14. change (1 + 16) with 17.
  rewrite (wrap64_id (MaxParallel l * 14)) by in64.
  rewrite (wrap64_id (MaxParallel l * 14 * MaxSampleBytes l)) by (unfold in_int64, min_int64, max_int64; nia).
  rewrite (wrap64_id (17 * MaxMergedBytes l)) by in64.
  by rewrite (wrap64_id (_ + 17 * MaxMergedBytes l)) by in64.
Qed.

Lemma sizing_fits (l : PGOLimits) :
  limits_tags l = true -> MaxSampleBytes l <= MaxMergedBytes l ->
  validatePGOSizing l = true <-> PGOGatewayBaseMemory + memory_bytes l <= max_int64.
Proof.
  intros Ht Hm. rewrite validatePGOSizing_exact by done.
  pose proof (limits_tags_spec l Ht) as H. pose proof (per_collection_bounds l Ht Hm) as Hper.
  unfold memory_bytes, PGOGatewayBaseMemory in *. change (Z.shiftl 512 20) with 536870912.
  destruct (Z.ltb_spec (max_int64 / per_collection_bytes l) (MaxActiveCollections l)) as [C|C].
  - split; [done|]. intros Hle. exfalso.
    apply Z.lt_nge in C. apply C. apply Z.div_le_lower_bound; unfold max_int64 in *; nia.
  - assert (MaxActiveCollections l * per_collection_bytes l <= max_int64) as Hfit.
    { pose proof (Z.mul_div_le max_int64 (per_collection_bytes l) ltac:(lia)). nia. }
    rewrite wrap64_id by (unfold in_int64, min_int64, max_int64 in *; nia).
    rewrite negb_true_iff, Z.ltb_ge. lia.
Qed.

(** For ceilings the per-key ranges admit, [validatePGOSizing] accepts
    exactly the configurations whose container memory figure, computed without
    wrap-around, fits a signed 64-bit byte count; none of the check's own
    steps wraps on the way to that answer. *)
Theorem validatePGOSizing_iff (l : PGOLimits) :
  limits_tags l = true -> MaxSampleBytes l <= MaxMergedBytes l ->
  validatePGOSizing l = true <-> PGOGatewayBaseMemory + memory_bytes l <= max_int64.
Proof. exact (sizing_fits l). Qed.

Definition small_limits : PGOLimits := {|
  MaxDuration := minute; MaxRounds := 5; MaxParallel := 4; MinEvery := 15 * minute;
  MaxEvery := 24 * hour; MaxRetention := 24 * hour; MaxSampleBytes := 16777216;
  MaxMergedBytes := 33554432; MaxTargetsPerRound := 32; MaxActiveCollections := 1;
  OnDemandPerMinute := 10; MaxLiveCollections := 64 |}.

Lemma validatePGOSizing_iff_witness :
  (limits_tags small_limits = true /\ MaxSampleBytes small_limits <= MaxMergedBytes small_limits) /\
  (validatePGOSizing small_limits = true <->
   PGOGatewayBaseMemory + memory_bytes small_limits <= max_int64).
Proof.
  split; [split; [reflexivity|simpl; lia]|].
  apply (validatePGOSizing_iff small_limits); [reflexivity|simpl; lia].
Defined.

(** Once the per-key ranges and [validatePGO] have accepted a
    configuration with collection on, the memory figure the Deployment
    carries is the exact sum, positive and within a signed 64-bit count. *)
Theorem GatewayMemoryBytes_exact (opens : string -> bool) (cfg : Config) :
  pgo_tags (cfg_PGO cfg) = true ->
  pgo_Enabled (cfg_PGO cfg) = true ->
  validatePGO opens cfg = None ->
  GatewayMemoryBytes (cfg_PGO cfg)
    = PGOGatewayBaseMemory + memory_bytes (pgo_Limits (cfg_PGO cfg)) /\
  0 < GatewayMemoryBytes (cfg_PGO cfg) <= max_int64.
Proof.
  unfold pgo_tags. rewrite !andb_true_iff. intros [[_ Ht] _] Hen Hv.
  unfold validatePGO in Hv. set (l := pgo_Limits (cfg_PGO cfg)) in *.
  rewrite Hen in Hv. step_cases Hv. to_prop.
  match goal with H : validatePGOSizing l = true |- _ => rename H into Hs end.
  assert (MaxSampleBytes l <= MaxMergedBytes l) as Hm by lia.
  apply sizing_fits in Hs; [|done..].
  pose proof (per_collection_bounds l Ht Hm) as Hper.
  pose proof (limits_tags_spec l Ht) as Hl.
  unfold GatewayMemoryBytes. rewrite Hen. cbn [negb]. fold l.
  rewrite PGOMemoryBytes_wrap by done. unfold memory_bytes, PGOGatewayBaseMemory in *.
  change (Z.shiftl 512 20) with 536870912 in *.
  rewrite (wrap64_id (MaxActiveCollections l * _)) by (unfold in_int64, min_int64, max_int64 in *; nia).
  rewrite wrap64_id by (unfold in_int64, min_int64, max_int64 in *; nia). split; [done|nia].
Qed.

Definition shipped_defaults : PGODefaults := {|
  d_every := 6 * hour; d_jitter := 10 * minute; d_duration := 30 * second; d_rounds := 2;
  d_roundInterval := 30 * second; d_replicas := "all"; d_maxParallel := 4; d_retention := 24 * hour |}.

Definition shipped_config : Config := {|
  cfg_NATS := {| nats_URL := "nats://nats:4222"; nats_CredsFile := "" |};
  cfg_PGO := {| pgo_Enabled := true; pgo_LeaseTTL := minute; pgo_MaxAttempts := 3;
                pgo_JobRetention := 168 * hour; pgo_Limits := small_limits;
                pgo_Defaults := shipped_defaults |};
  cfg_CPUSeconds := 60 |}.

Lemma GatewayMemoryBytes_exact_witness :
  (pgo_tags (cfg_PGO shipped_config) = true /\ pgo_Enabled (cfg_PGO shipped_config) = true /\
   validatePGO (fun _ => false) shipped_config = None) /\
  GatewayMemoryBytes (cfg_PGO shipped_config)
    = PGOGatewayBaseMemory + memory_bytes (pgo_Limits (cfg_PGO shipped_config)).
Proof.
  split; [by vm_compute|].
  apply (GatewayMemoryBytes_exact (fun _ => false) shipped_config); by vm_compute.
Defined.
