(* ===== verification/TokenBucket.v ===== *)
(** * The on-demand token bucket

    [TokenBucket] of src/internal/pgo/runtime.go: the limit a replica puts on
    the Collections it creates on demand.  The tokens are [float64]; the model
    computes them with the Standard Library's binary64 arithmetic, rounding
    every operation to nearest even, as Go does. *)

From Stdlib Require Import Floats.SpecFloat.
From S2P Require Import Prelude Config.

(** ** [float64] *)

Definition float64 := spec_float.

(** [float64(n)]. *)
Definition f64 (n : Z) : float64 := binary_normalize 53 1024 n 0 false.
Definition fadd : float64 -> float64 -> float64 := SFadd 53 1024.
Definition fsub : float64 -> float64 -> float64 := SFsub 53 1024.
Definition fmul : float64 -> float64 -> float64 := SFmul 53 1024.
Definition fdiv : float64 -> float64 -> float64 := SFdiv 53 1024.

(** The builtin [min]: a NaN wins, and of two zeroes the negative one. *)
Definition fmin (a b : float64) : float64 :=
  match a, b with
  | S754_nan, _ | _, S754_nan => S754_nan
  | S754_zero s, S754_zero t => S754_zero (s || t)
  | _, _ => if SFltb b a then b else a
  end.

(** [Duration.Seconds]. *)
Definition Seconds (d : duration) : float64 :=
  fadd (f64 (Z.quot d second)) (fdiv (f64 (Z.rem d second)) (f64 1000000000)).

(** ** The bucket *)

Definition tokenRefillWindow : duration := minute.

Record TokenBucket := {
  tb_capacity : float64;
  tb_perSecond : float64;
  tb_tokens : float64;
  tb_last : time
}.

(** [NewTokenBucket], the clock reading [now]. *)
Definition NewTokenBucket (perMinute : Z) (now : time) : TokenBucket :=
  let capacity := f64 perMinute in
  {| tb_capacity := capacity; tb_perSecond := fdiv capacity (Seconds tokenRefillWindow);
     tb_tokens := capacity; tb_last := now |}.

(** [Take], the clock reading [now]. *)
Definition Take (now : time) (b : TokenBucket) : bool * TokenBucket :=
  let elapsed := time_sub now (tb_last b) in
  let b1 :=
    if 0 <? elapsed
    then {| tb_capacity := tb_capacity b; tb_perSecond := tb_perSecond b;
            tb_tokens := fmin (tb_capacity b)
              (fadd (tb_tokens b) (fmul (Seconds elapsed) (tb_perSecond b)));
            tb_last := now |}
    else b in
  if SFltb (tb_tokens b1) (f64 1) then (false, b1)
  else (true, {| tb_capacity := tb_capacity b1; tb_perSecond := tb_perSecond b1;
                 tb_tokens := fsub (tb_tokens b1) (f64 1); tb_last := tb_last b1 |}).

(** Takes in a row, each at its own reading of the clock. *)
Fixpoint takes (nows : list time) (b : TokenBucket) : list bool :=
  match nows with
  | [] => []
  | now :: nows' => let '(ok, b') := Take now b in ok :: takes nows' b'
  end.

(** ** A full bucket *)

#[export] Instance float64_eq_dec : EqDecision float64.
Proof. solve_decision. Defined.

(** The whole numbers up to the largest rate a configuration accepts, [600],
    are exact, and one less than one of them is the next: checked for each. *)
Definition count_down (n : Z) : bool :=
  bool_decide (fsub (f64 n) (f64 1) = f64 (n - 1)) && negb (SFltb (f64 n) (f64 1)).

Lemma count_down_all : forallb count_down (Z.of_nat <$> seq 1 600) = true.
Proof. vm_compute. reflexivity. Qed.

Lemma count_down_at (n : Z) :
  1 <= n <= 600 -> fsub (f64 n) (f64 1) = f64 (n - 1) /\ SFltb (f64 n) (f64 1) = false.
Proof.
  intros Hn. pose proof count_down_all as H. rewrite forallb_forall in H.
  assert (In n (Z.of_nat <$> seq 1 600)) as Hin.
  { apply list_elem_of_In, list_elem_of_fmap. exists (Z.to_nat n). split; [lia|].
    apply elem_of_seq. lia. }
  apply H in Hin. unfold count_down in Hin. apply andb_true_iff in Hin as [H1 H2].
  apply bool_decide_eq_true in H1. apply negb_true_iff in H2. done.
Qed.

(** The bucket with [n] whole tokens. *)
Definition holding (n : Z) (b : TokenBucket) : TokenBucket :=
  {| tb_capacity := tb_capacity b; tb_perSecond := tb_perSecond b; tb_tokens := f64 n;
     tb_last := tb_last b |}.

Lemma takes_counted (b : TokenBucket) (n : nat) (nows : list time) :
  (n <= 600)%nat -> Forall (fun now => now <= tb_last b) nows ->
  takes nows (holding (Z.of_nat n) b) =
    replicate (min n (length nows)) true ++ replicate (length nows - n) false.
Proof.
  intros Hn Hall. revert n Hn. induction Hall as [|now nows Hnow _ IH]; intros n Hn.
  - by rewrite Nat.min_0_r.
  - cbn [takes]. unfold Take.
    assert (0 <? time_sub now (tb_last b) = false) as Hel.
    { apply Z.ltb_ge. destruct (Z.le_gt_cases (time_sub now (tb_last b)) 0) as [|Hp]; [done|].
      apply (proj1 (time_sub_pos _ _)) in Hp. lia. }
    cbn [tb_last holding]. rewrite Hel. cbn [tb_tokens holding].
    destruct n as [|n].
    + change (SFltb (f64 (Z.of_nat 0)) (f64 1)) with true. cbv iota.
      pose proof (IH 0%nat ltac:(lia)) as IH0. simpl in IH0. rewrite Nat.sub_0_r in IH0. cbn.
      by f_equal.
    + destruct (count_down_at (Z.of_nat (S n)) ltac:(lia)) as [Hs Hl]. rewrite Hl. cbv iota.
      rewrite Hs. replace (Z.of_nat (S n) - 1) with (Z.of_nat n) by lia.
      cbn. f_equal. apply IH. lia.
Qed.

(** A fresh bucket under any configuration the validator accepts grants
    exactly [onDemandPerMinute] requests before the clock moves past its
    creation, and refuses every one after them: the binary64 count of tokens
    neither loses nor gains one on the way down. *)
Theorem burst_exact (l : PGOLimits) (now : time) (nows : list time) :
  limits_tags l = true -> Forall (fun t => t <= now) nows ->
  let n := Z.to_nat (OnDemandPerMinute l) in
  takes nows (NewTokenBucket (OnDemandPerMinute l) now) =
    replicate (min n (length nows)) true ++ replicate (length nows - n) false.
Proof.
  intros Ht%limits_tags_spec Hall n.
  assert (1 <= OnDemandPerMinute l <= 600) as Hb by tauto.
  replace (NewTokenBucket (OnDemandPerMinute l) now)
    with (holding (Z.of_nat n) (NewTokenBucket (OnDemandPerMinute l) now)).
  - apply takes_counted; [subst n; lia|done].
  - unfold holding, NewTokenBucket. simpl. subst n. by rewrite Z2Nat.id by lia.
Qed.

Lemma burst_exact_witness :
  (limits_tags small_limits = true /\ Forall (fun t => t <= 7) [7; 7; 3]) /\
  takes [7; 7; 3] (NewTokenBucket (OnDemandPerMinute small_limits) 7) = [true; true; true].
Proof.
  assert (limits_tags small_limits = true) as H1 by (vm_compute; reflexivity).
  assert (Forall (fun t : time => t <= 7) [7; 7; 3]) as H2 by (repeat constructor; lia).
  split; [by split|]. exact (burst_exact small_limits 7 [7; 7; 3] H1 H2).
Defined.
