(* ===== verification/Policy.v ===== *)
(** * Policies

    src/internal/pgo/policy.go: the effective policy of a Service, the override
    layered onto the operator's defaults, and the measurement of a policy
    against the ceilings.  Durations are formatted here because a violation
    carries formatted text. *)

From S2P Require Import Prelude Config.

(** ** Duration text *)

Module Durations.

(** [time.fmtFrac]: [prec] decimal digits of [v] as a fraction without trailing
    zeros, in front of [acc], and what is left of [v]. *)
Fixpoint fmtFrac_go (prec : nat) (v : Z) (printing : bool) (acc : string) : bool * string * Z :=
  match prec with
  | O => (printing, acc, v)
  | S prec' =>
      let digit := v mod 10 in
      let printing' := printing || negb (digit =? 0) in
      fmtFrac_go prec' (v / 10) printing'
        (if printing' then pretty digit +:+ acc else acc)
  end.

Definition fmtFrac (prec : nat) (v : Z) (acc : string) : string * Z :=
  let '(printing, s, u) := fmtFrac_go prec v false acc in
  (if printing then "." +:+ s else s, u).

(** [time.Duration.String]. *)
Definition std_string (d : duration) : string :=
  let u := Z.abs d in
  let body :=
    if u <? second then
      if u =? 0 then "0s"
      else
        let '(prec, unit) :=
          if u <? 1000 then (0%nat, "ns")
          else if u <? 1000000
               then (3%nat, String.string_of_list_byte [Byte.xc2; Byte.xb5; Byte.x73])
               else (6%nat, "ms") in
        let '(frac, w) := fmtFrac prec u unit in
        pretty w +:+ frac
    else
      let '(frac, secs) := fmtFrac 9 u "s" in
      let s := pretty (secs mod 60) +:+ frac in
      let mins := secs / 60 in
      if 0 <? mins then
        let s := pretty (mins mod 60) +:+ "m" +:+ s in
        let hours := mins / 60 in
        if 0 <? hours then pretty hours +:+ "h" +:+ s else s
      else s in
  if d <? 0 then "-" +:+ body else body.

(** [Duration.String] of policy.go: no zero components after whole hours and
    minutes. *)
Definition String (d : duration) : string :=
  if d =? 0 then "0s"
  else
    let '(sign, v) := if d <? 0 then ("-", wrap64 (- d)) else ("", d) in
    let h := v /! hour in
    let '(hs, v) := if 0 <? h then (pretty h +:+ "h", v -! (h *! hour)) else ("", v) in
    let m := v /! minute in
    let '(ms, v) := if 0 <? m then (pretty m +:+ "m", v -! (m *! minute)) else ("", v) in
    let ss := if 0 <? v then std_string v else "" in
    sign +:+ hs +:+ ms +:+ ss.

Example string_1h : String hour = "1h".
Proof. reflexivity. Qed.

Example string_90m : String (90 * minute) = "1h30m".
Proof. reflexivity. Qed.

Example string_frac : String (minute + 1500000000) = "1m1.5s".
Proof. reflexivity. Qed.

Example std_string_1h : std_string hour = "1h0m0s".
Proof. reflexivity. Qed.

Example std_string_us : std_string 1200 = "1.2" +:+ String.string_of_list_byte [Byte.xc2; Byte.xb5; Byte.x73].
Proof. reflexivity. Qed.

End Durations.

(** ** Data *)

(** [Replicas]: "all" or a count; the zero value is neither. *)
Record Replicas := { r_all : bool; r_count : Z }.

Definition AllReplicas : Replicas := {| r_all := true; r_count := 0 |}.
Definition ReplicaCount (n : Z) : Replicas := {| r_all := false; r_count := n |}.
Definition IsAll (r : Replicas) : bool := r_all r.
Definition Count (r : Replicas) : Z := if r_all r then 0 else r_count r.

(** [Replicas.Resolve]. *)
Definition Resolve (r : Replicas) (maxTargets : Z) : Z :=
  if r_all r then maxTargets else Z.min (r_count r) maxTargets.

Record Schedule := { Every : duration; Jitter : duration }.

Record Sampling := {
  Duration : duration;
  Rounds : Z;
  RoundInterval : duration;
  SReplicas : Replicas;
  SMaxParallel : Z
}.

Record TargetPolicy := { Version : string }.
Record ArtifactPolicy := { Retention : duration }.

Record Policy := {
  Enabled : bool;
  PSchedule : Schedule;
  PSampling : Sampling;
  PTarget : TargetPolicy;
  PArtifact : ArtifactPolicy
}.

(** An override: a nil pointer is [None], of a block or of a field. *)
Record ScheduleOverride := { o_Every : option duration; o_Jitter : option duration }.
Record SamplingOverride := {
  o_Duration : option duration;
  o_Rounds : option Z;
  o_RoundInterval : option duration;
  o_Replicas : option Replicas;
  o_MaxParallel : option Z
}.
Record TargetOverride := { o_Version : option string }.
Record ArtifactOverride := { o_Retention : option duration }.
Record PolicyOverride := {
  o_Enabled : option bool;
  o_Schedule : option ScheduleOverride;
  o_Sampling : option SamplingOverride;
  o_Target : option TargetOverride;
  o_Artifact : option ArtifactOverride
}.

Record StoredOverride := {
  so_Policy : option PolicyOverride;
  so_UpdatedBy : string;
  so_UpdatedAt : time
}.

#[export] Instance Replicas_eq_dec : EqDecision Replicas.
Proof. solve_decision. Defined.
#[export] Instance Schedule_eq_dec : EqDecision Schedule.
Proof. solve_decision. Defined.
#[export] Instance Sampling_eq_dec : EqDecision Sampling.
Proof. solve_decision. Defined.
#[export] Instance TargetPolicy_eq_dec : EqDecision TargetPolicy.
Proof. solve_decision. Defined.
#[export] Instance ArtifactPolicy_eq_dec : EqDecision ArtifactPolicy.
Proof. solve_decision. Defined.
#[export] Instance Policy_eq_dec : EqDecision Policy.
Proof. solve_decision. Defined.

(** ** Operations *)

(** [DefaultPolicy]: [None] for the error. *)
Definition DefaultPolicy (d : PGODefaults) : option Policy :=
  let build replicas := {|
    Enabled := false;
    PSchedule := {| Every := d_every d; Jitter := d_jitter d |};
    PSampling := {| Duration := d_duration d; Rounds := d_rounds d;
                    RoundInterval := d_roundInterval d; SReplicas := replicas;
                    SMaxParallel := d_maxParallel d |};
    PTarget := {| Version := "" |};
    PArtifact := {| Retention := d_retention d |} |} in
  if String.eqb (d_replicas d) replicasAll then Some (build AllReplicas)
  else match atoi (d_replicas d) with
       | Some n => Some (build (ReplicaCount n))
       | None => None
       end.

(** [setIf]: a nil source is unset. *)
Definition setIf {A} (dst : A) (src : option A) : A :=
  match src with Some v => v | None => dst end.

(** [Effective]: block by block, one level deep. *)
Definition Effective (defaults : Policy) (override : option PolicyOverride) : Policy :=
  match override with
  | None => defaults
  | Some o =>
      {| Enabled := match o_Enabled o with Some b => b | None => Enabled defaults end;
         PSchedule :=
           match o_Schedule o with
           | None => PSchedule defaults
           | Some s => {| Every := setIf (Every (PSchedule defaults)) (o_Every s);
                          Jitter := setIf (Jitter (PSchedule defaults)) (o_Jitter s) |}
           end;
         PSampling :=
           match o_Sampling o with
           | None => PSampling defaults
           | Some s =>
               let d := PSampling defaults in
               {| Duration := setIf (Duration d) (o_Duration s);
                  Rounds := setIf (Rounds d) (o_Rounds s);
                  RoundInterval := setIf (RoundInterval d) (o_RoundInterval s);
                  SReplicas := setIf (SReplicas d) (o_Replicas s);
                  SMaxParallel := setIf (SMaxParallel d) (o_MaxParallel s) |}
           end;
         PTarget :=
           match o_Target o with
           | None => PTarget defaults
           | Some t => {| Version := setIf (Version (PTarget defaults)) (o_Version t) |}
           end;
         PArtifact :=
           match o_Artifact o with
           | None => PArtifact defaults
           | Some a => {| Retention := setIf (Retention (PArtifact defaults)) (o_Retention a) |}
           end |}
  end.

(** ** Validation *)

Definition minSamplingDuration : duration := second.
Definition minRetention : duration := minute.

Definition codeAboveMaximum : string := "above_maximum".
Definition codeBelowMinimum : string := "below_minimum".
Definition codeOutOfRange : string := "out_of_range".
Definition codeRetentionUnderInterval : string := "retention_under_interval".

Record Violation := {
  v_Field : string;
  v_Code : string;
  v_Ceiling : string;
  v_Detail : string
}.

Definition violation (field code ceiling detail : string) : list Violation :=
  [ {| v_Field := field; v_Code := code; v_Ceiling := ceiling; v_Detail := detail |} ].

Definition more_than (a b : string) : string := a +:+ " is more than " +:+ b.
Definition less_than (a b : string) : string := a +:+ " is less than " +:+ b.

(** [Validate], one block of the function per definition, in its order. *)
Definition validateEvery (p : Policy) (lim : PGOLimits) : list Violation :=
  let every := Every (PSchedule p) in
  let str := Durations.std_string in
  if MaxEvery lim <? every then
    violation "schedule.every" codeAboveMaximum "pgo.limits.maxEvery"
      (more_than (str every) (str (MaxEvery lim)))
  else if every <? MinEvery lim then
    violation "schedule.every" codeBelowMinimum "pgo.limits.minEvery"
      (less_than (str every) (str (MinEvery lim)))
  else [].

Definition validateJitter (p : Policy) : list Violation :=
  let jitter := Jitter (PSchedule p) in
  if (jitter <? 0) || (Every (PSchedule p) /! 2 <? jitter) then
    violation "schedule.jitter" codeOutOfRange "schedule.every/2"
      (Durations.std_string jitter +:+ " is more than half of " +:+ Durations.String (Every (PSchedule p)))
  else [].

Definition validateDuration (p : Policy) (lim : PGOLimits) : list Violation :=
  let d := Duration (PSampling p) in
  let str := Durations.std_string in
  if MaxDuration lim <? d then
    violation "sampling.duration" codeAboveMaximum "pgo.limits.maxDuration"
      (more_than (str d) (str (MaxDuration lim)))
  else if d <? minSamplingDuration then
    violation "sampling.duration" codeBelowMinimum (str minSamplingDuration)
      (less_than (str d) (str minSamplingDuration))
  else [].

Definition validateRounds (p : Policy) (lim : PGOLimits) : list Violation :=
  let rounds := Rounds (PSampling p) in
  if MaxRounds lim <? rounds then
    violation "sampling.rounds" codeAboveMaximum "pgo.limits.maxRounds"
      (more_than (pretty rounds) (pretty (MaxRounds lim)))
  else if rounds <? 1 then
    violation "sampling.rounds" codeBelowMinimum "1" (less_than (pretty rounds) "1")
  else [].

Definition validateRoundInterval (p : Policy) : list Violation :=
  let ri := RoundInterval (PSampling p) in
  if (ri <? 0) || (PGOMaxRoundInterval <? ri) then
    violation "sampling.roundInterval" codeOutOfRange (Durations.String PGOMaxRoundInterval)
      (Durations.std_string ri +:+ " is outside 0 to " +:+ Durations.std_string PGOMaxRoundInterval)
  else [].

Definition validateReplicas (p : Policy) (lim : PGOLimits) : list Violation :=
  let r := SReplicas (PSampling p) in
  if IsAll r then []
  else
    let n := Count r in
    if MaxTargetsPerRound lim <? n then
      violation "sampling.replicas" codeAboveMaximum "pgo.limits.maxTargetsPerRound"
        (more_than (pretty n) (pretty (MaxTargetsPerRound lim)))
    else if n <? 1 then
      violation "sampling.replicas" codeBelowMinimum "1" (less_than (pretty n) "1")
    else [].

Definition validateMaxParallel (p : Policy) (lim : PGOLimits) : list Violation :=
  let mp := SMaxParallel (PSampling p) in
  if MaxParallel lim <? mp then
    violation "sampling.maxParallel" codeAboveMaximum "pgo.limits.maxParallel"
      (more_than (pretty mp) (pretty (MaxParallel lim)))
  else if mp <? 1 then
    violation "sampling.maxParallel" codeBelowMinimum "1" (less_than (pretty mp) "1")
  else [].

Definition validateRetention (p : Policy) (lim : PGOLimits) : list Violation :=
  let r := Retention (PArtifact p) in
  let str := Durations.std_string in
  if MaxRetention lim <? r then
    violation "artifact.retention" codeAboveMaximum "pgo.limits.maxRetention"
      (more_than (str r) (str (MaxRetention lim)))
  else if r <? minRetention then
    violation "artifact.retention" codeBelowMinimum (Durations.String minRetention)
      (less_than (str r) (str minRetention))
  else if r <? Every (PSchedule p) then
    violation "artifact.retention" codeRetentionUnderInterval "schedule.every"
      (str r +:+ " is less than schedule.every " +:+ Durations.String (Every (PSchedule p)))
  else [].

Definition Validate (p : Policy) (lim : PGOLimits) : list Violation :=
  validateEvery p lim ++ validateJitter p ++ validateDuration p lim
  ++ validateRounds p lim ++ validateRoundInterval p ++ validateReplicas p lim
  ++ validateMaxParallel p lim ++ validateRetention p lim.

(** ** Properties of validation *)

(** What a policy within the ceilings is, field by field. *)
Definition every_within (p : Policy) (lim : PGOLimits) : Prop :=
  MinEvery lim <= Every (PSchedule p) <= MaxEvery lim.
Definition jitter_within (p : Policy) : Prop :=
  0 <= Jitter (PSchedule p) <= Every (PSchedule p) /! 2.
Definition duration_within (p : Policy) (lim : PGOLimits) : Prop :=
  second <= Duration (PSampling p) <= MaxDuration lim.
Definition rounds_within (p : Policy) (lim : PGOLimits) : Prop :=
  1 <= Rounds (PSampling p) <= MaxRounds lim.
Definition interval_within (p : Policy) : Prop :=
  0 <= RoundInterval (PSampling p) <= PGOMaxRoundInterval.
Definition replicas_within (p : Policy) (lim : PGOLimits) : Prop :=
  IsAll (SReplicas (PSampling p)) = true \/
  1 <= Count (SReplicas (PSampling p)) <= MaxTargetsPerRound lim.
Definition parallel_within (p : Policy) (lim : PGOLimits) : Prop :=
  1 <= SMaxParallel (PSampling p) <= MaxParallel lim.
Definition retention_within (p : Policy) (lim : PGOLimits) : Prop :=
  minute <= Retention (PArtifact p) <= MaxRetention lim /\
  Every (PSchedule p) <= Retention (PArtifact p).

Definition policy_within (p : Policy) (lim : PGOLimits) : Prop :=
  every_within p lim /\ jitter_within p /\ duration_within p lim /\ rounds_within p lim /\
  interval_within p /\ replicas_within p lim /\ parallel_within p lim /\ retention_within p lim.

(** A block reports nothing exactly when its field is within bounds: case
    analysis on its comparisons, then arithmetic. *)
Ltac block_nil :=
  unfold violation, minSamplingDuration, minRetention in *;
  repeat match goal with |- context [?a <? ?b] => destruct (Z.ltb_spec a b) end;
  cbn [orb]; (split; intros Hb; [try discriminate Hb|try reflexivity]);
  repeat match goal with H : _ \/ _ |- _ => destruct H end;
  unfold second, minute in *; try (congruence || lia).

Lemma validateEvery_nil p lim : validateEvery p lim = [] <-> every_within p lim.
Proof. unfold validateEvery, every_within. block_nil. Qed.

Lemma validateJitter_nil p : validateJitter p = [] <-> jitter_within p.
Proof. unfold validateJitter, jitter_within. block_nil. Qed.

Lemma validateDuration_nil p lim : validateDuration p lim = [] <-> duration_within p lim.
Proof. unfold validateDuration, duration_within. block_nil. Qed.

Lemma validateRounds_nil p lim : validateRounds p lim = [] <-> rounds_within p lim.
Proof. unfold validateRounds, rounds_within. block_nil. Qed.

Lemma validateRoundInterval_nil p : validateRoundInterval p = [] <-> interval_within p.
Proof. unfold validateRoundInterval, interval_within. block_nil. Qed.

Lemma validateReplicas_nil p lim : validateReplicas p lim = [] <-> replicas_within p lim.
Proof.
  unfold validateReplicas, replicas_within. destruct (IsAll _); [naive_solver|]. block_nil.
Qed.

Lemma validateMaxParallel_nil p lim : validateMaxParallel p lim = [] <-> parallel_within p lim.
Proof. unfold validateMaxParallel, parallel_within. block_nil. Qed.

Lemma validateRetention_nil p lim : validateRetention p lim = [] <-> retention_within p lim.
Proof. unfold validateRetention, retention_within. block_nil. Qed.

#[export] Hint Rewrite validateEvery_nil validateJitter_nil validateDuration_nil
  validateRounds_nil validateRoundInterval_nil validateReplicas_nil validateMaxParallel_nil
  validateRetention_nil : validate.

Lemma app_nil_iff {A} (l k : list A) : l ++ k = [] <-> l = [] /\ k = [].
Proof. split; [apply app_nil|]. by intros [-> ->]. Qed.

Lemma Validate_within (p : Policy) (lim : PGOLimits) :
  Validate p lim = [] <-> policy_within p lim.
Proof.
  unfold Validate, policy_within. rewrite !app_nil_iff. by autorewrite with validate.
Qed.

(** The fields a policy declares, in its order. *)
Definition field_order : list string :=
  [ "schedule.every"; "schedule.jitter"; "sampling.duration"; "sampling.rounds";
    "sampling.roundInterval"; "sampling.replicas"; "sampling.maxParallel"; "artifact.retention" ].

(** A block names its own field, at most once. *)
Definition block_of (f : string) (vs : list Violation) : Prop :=
  (v_Field <$> vs) `sublist_of` [f].

Ltac block_field :=
  unfold block_of, violation; repeat case_match; simpl;
  repeat constructor.

(** The violations come in the order the policy declares its fields and
    name each field at most once, wherever the policy is measured. *)
Lemma Validate_order (p : Policy) (lim : PGOLimits) :
  (v_Field <$> Validate p lim) `sublist_of` field_order.
Proof.
  unfold Validate. rewrite !fmap_app.
  change field_order with
    (["schedule.every"] ++ ["schedule.jitter"] ++ ["sampling.duration"] ++ ["sampling.rounds"] ++
     ["sampling.roundInterval"] ++ ["sampling.replicas"] ++ ["sampling.maxParallel"] ++
     ["artifact.retention"]).
  repeat apply sublist_app; unfold validateEvery, validateJitter, validateDuration, validateRounds,
    validateRoundInterval, validateReplicas, validateMaxParallel, validateRetention; block_field.
Qed.

(** [Validate] reports no violation exactly for the policies every field
    of which lies within its bound, which is the decision its callers (the
    write route, the scheduler, the claim) make from it; and the violations it
    does report come in the order the policy declares its fields, naming each
    at most once, wherever the policy is measured. *)
Theorem Validate_spec (p : Policy) (lim : PGOLimits) :
  (Validate p lim = [] <-> policy_within p lim) /\
  (v_Field <$> Validate p lim) `sublist_of` field_order.
Proof. split; [apply Validate_within|apply Validate_order]. Qed.

(** ** Properties of the layering *)

(** Two overrides layered as one: the second wins where it sets a field. *)
Definition orElse {A} (later earlier : option A) : option A :=
  match later with Some v => Some v | None => earlier end.

Definition overlay_schedule (a b : ScheduleOverride) : ScheduleOverride :=
  {| o_Every := orElse (o_Every b) (o_Every a); o_Jitter := orElse (o_Jitter b) (o_Jitter a) |}.
Definition overlay_sampling (a b : SamplingOverride) : SamplingOverride :=
  {| o_Duration := orElse (o_Duration b) (o_Duration a);
     o_Rounds := orElse (o_Rounds b) (o_Rounds a);
     o_RoundInterval := orElse (o_RoundInterval b) (o_RoundInterval a);
     o_Replicas := orElse (o_Replicas b) (o_Replicas a);
     o_MaxParallel := orElse (o_MaxParallel b) (o_MaxParallel a) |}.
Definition overlay_target (a b : TargetOverride) : TargetOverride :=
  {| o_Version := orElse (o_Version b) (o_Version a) |}.
Definition overlay_artifact (a b : ArtifactOverride) : ArtifactOverride :=
  {| o_Retention := orElse (o_Retention b) (o_Retention a) |}.

Definition overlay_block {A} (f : A -> A -> A) (a b : option A) : option A :=
  match a, b with
  | Some x, Some y => Some (f x y)
  | Some x, None => Some x
  | None, y => y
  end.

Definition overlay (a b : PolicyOverride) : PolicyOverride :=
  {| o_Enabled := orElse (o_Enabled b) (o_Enabled a);
     o_Schedule := overlay_block overlay_schedule (o_Schedule a) (o_Schedule b);
     o_Sampling := overlay_block overlay_sampling (o_Sampling a) (o_Sampling b);
     o_Target := overlay_block overlay_target (o_Target a) (o_Target b);
     o_Artifact := overlay_block overlay_artifact (o_Artifact a) (o_Artifact b) |}.

Lemma setIf_orElse {A} (d : A) (a b : option A) : setIf (setIf d a) b = setIf d (orElse b a).
Proof. by destruct a, b. Qed.

(** Layering is one level deep and the later override wins field by
    field: applying the stored override and then a request body gives the
    policy of the two overlaid, so a field neither sets keeps the default and
    a field only the first sets survives the second. *)
Theorem Effective_overlay (d : Policy) (a b : PolicyOverride) :
  Effective (Effective d (Some a)) (Some b) = Effective d (Some (overlay a b)).
Proof.
  destruct a as [ae [[]|] [[]|] [[]|] [[]|]], b as [be [[]|] [[]|] [[]|] [[]|]], ae, be;
    unfold Effective, overlay; cbn; rewrite ?setIf_orElse; reflexivity.
Qed.

(** An override that sets only [sampling.rounds] changes that field and
    nothing else. *)
Example Effective_rounds_only (d : Policy) (n : Z) :
  Effective d (Some {| o_Enabled := None; o_Schedule := None;
    o_Sampling := Some {| o_Duration := None; o_Rounds := Some n; o_RoundInterval := None;
                          o_Replicas := None; o_MaxParallel := None |};
    o_Target := None; o_Artifact := None |})
  = {| Enabled := Enabled d; PSchedule := PSchedule d;
       PSampling := {| Duration := Duration (PSampling d); Rounds := n;
                       RoundInterval := RoundInterval (PSampling d);
                       SReplicas := SReplicas (PSampling d);
                       SMaxParallel := SMaxParallel (PSampling d) |};
       PTarget := PTarget d; PArtifact := PArtifact d |}.
Proof. reflexivity. Qed.

(** ** Replicas *)

Lemma Resolve_bounds (p : Policy) (lim : PGOLimits) :
  1 <= MaxTargetsPerRound lim -> replicas_within p lim ->
  1 <= Resolve (SReplicas (PSampling p)) (MaxTargetsPerRound lim) <= MaxTargetsPerRound lim.
Proof.
  unfold replicas_within, IsAll, Count, Resolve. destruct (r_all _); [lia|]. intros ? [?|?]; [done|lia].
Qed.

(** ** The shipped defaults *)

(** When [validatePGODefaults] accepts the operator's defaults against
    ceilings the tags admit, and the default jitter is not negative, the
    policy [DefaultPolicy] builds from them exists and [Validate] accepts it:
    a Service with no override of its own is never ineligible. *)
Theorem DefaultPolicy_valid (d : PGODefaults) (lim : PGOLimits) :
  limits_tags lim = true -> defaults_tags d = true ->
  validatePGODefaults d lim = None -> 0 <= d_jitter d ->
  exists p, DefaultPolicy d = Some p /\ Enabled p = false /\ Validate p lim = [].
Proof.
  intros Hl%limits_tags_spec Hd Hv Hj.
  unfold defaults_tags, in_range in Hd. to_prop.
  unfold validatePGODefaults in Hv. step_cases Hv. to_prop.
  unfold DefaultPolicy.
  destruct (String.eqb (d_replicas d) replicasAll).
  - eexists. split; [reflexivity|]. split; [done|]. apply Validate_within.
    repeat split; simpl; try lia. by left.
  - match goal with H : match atoi _ with _ => _ end = None |- _ => step_cases H end. to_prop.
    eexists. split; [reflexivity|]. split; [done|]. apply Validate_within.
    repeat split; simpl; try lia. right. unfold Count. simpl. lia.
Qed.

Lemma DefaultPolicy_valid_witness :
  (limits_tags small_limits = true /\ defaults_tags shipped_defaults = true /\
   validatePGODefaults shipped_defaults small_limits = None /\ 0 <= d_jitter shipped_defaults) /\
  exists p, DefaultPolicy shipped_defaults = Some p /\ Enabled p = false /\
            Validate p small_limits = [].
Proof.
  split; [by vm_compute|].
  apply (DefaultPolicy_valid shipped_defaults small_limits); by vm_compute.
Defined.

(** The configuration block judges a negative default jitter differently from
    a policy: [validatePGODefaults] has no lower bound on it, [Validate] does. *)
Definition negative_jitter_defaults : PGODefaults := {|
  d_every := 6 * hour; d_jitter := - minute; d_duration := 30 * second; d_rounds := 2;
  d_roundInterval := 30 * second; d_replicas := "all"; d_maxParallel := 4; d_retention := 24 * hour |}.

(** A negative [pgo.defaults.schedule.jitter] passes the per-key tags and
    [validatePGODefaults], and the policy built from it is refused by
    [Validate] as [schedule.jitter] out of range: the same value is judged one
    way in the configuration and the other way as a policy. *)
Theorem negative_default_jitter_accepted :
  limits_tags small_limits = true /\ defaults_tags negative_jitter_defaults = true /\
  validatePGODefaults negative_jitter_defaults small_limits = None /\
  (fun v => (v_Field v, v_Code v)) <$>
    from_option (fun p => Validate p small_limits) [] (DefaultPolicy negative_jitter_defaults)
  = [("schedule.jitter", codeOutOfRange)].
Proof. repeat split; vm_compute; reflexivity. Qed.
