(* ===== verification/Records.v ===== *)
(** * Collection records

    src/internal/pgo/record.go: the value at [job.<id>], the states a
    Collection goes through, the size-checked serialization, the terminal form
    of a record that is too large, and the deadline. *)

From S2P Require Import Prelude Effects Config Policy.

(** [State] is a string in the code and an unknown one comes from a newer
    version, which is what [StateOther] stands for. *)
Inductive State :=
  | StateInitializing
  | StatePending
  | StateRunning
  | StateCompleted
  | StateFailed
  | StateCancelled
  | StateExpired
  | StateOther (s : string).

#[export] Instance State_eq_dec : EqDecision State.
Proof. solve_decision. Defined.

Definition state_name (s : State) : string :=
  match s with
  | StateInitializing => "initializing"
  | StatePending => "pending"
  | StateRunning => "running"
  | StateCompleted => "completed"
  | StateFailed => "failed"
  | StateCancelled => "cancelled"
  | StateExpired => "expired"
  | StateOther s => s
  end.

Inductive Origin := OriginSchedule | OriginAPI | OriginOther (s : string).

#[export] Instance Origin_eq_dec : EqDecision Origin.
Proof. solve_decision. Defined.

Definition ReasonVersionMissing : string := "version_missing".
Definition ReasonVersionConflict : string := "version_conflict".
Definition ReasonNoTargets : string := "no_targets".
Definition ReasonNoSamples : string := "no_samples".
Definition ReasonDeadlineExceeded : string := "deadline_exceeded".
Definition ReasonAttemptsExhausted : string := "attempts_exhausted".
Definition ReasonArtifactStoreFailed : string := "artifact_store_failed".
Definition ReasonMergedTooLarge : string := "merged_too_large".
Definition ReasonSerializeFailed : string := "serialize_failed".
Definition ReasonRecordTooLarge : string := "record_too_large".
Definition ReasonNotClaimed : string := "not_claimed".
Definition ReasonNotPublished : string := "not_published".
Definition ReasonLimitExceeded : string := "limit_exceeded".
Definition ReasonCancelledByAPI : string := "cancelled_by_api".

Definition sampleResultOK : string := "ok".

Record Owner := { ow_Instance : string; ow_Pod : string }.

Record Progress := {
  pr_Round : Z;
  pr_Rounds : Z;
  pr_SamplesOK : Z;
  pr_SamplesFailed : Z
}.

Record ArtifactRef := { ar_Object : string; ar_Bytes : Z }.

Record Sample := {
  sm_Round : Z;
  sm_Pod : string;
  sm_PodUID : string;
  sm_Node : string;
  sm_StartedAt : time;
  sm_Result : string;
  sm_Reason : string;
  sm_Bytes : Z
}.

Record Manifest := {
  mf_Collection : string;
  mf_Namespace : string;
  mf_Service : string;
  mf_Profile : string;
  mf_ConfigRevision : N;
  mf_ResolvedVersion : string;
  mf_VersionLabel : string;
  mf_Sampling : Sampling;
  mf_Attempt : Z;
  mf_Truncated : bool;
  mf_Gateway : string;
  mf_Samples : list Sample
}.

(** [Record]. *)
Record Job := {
  j_ID : string;
  j_Namespace : string;
  j_Service : string;
  j_Origin : Origin;
  j_Slot : string;
  j_ConfigRevision : N;
  j_Policy : Policy;
  j_State : State;
  j_Attempt : Z;
  j_Owner : option Owner;
  j_ClaimBy : time;
  j_LeaseUntil : option time;
  j_Deadline : option time;
  j_Reason : string;
  j_ResolvedVersion : string;
  j_Progress : Progress;
  j_Manifest : option Manifest;
  j_Artifact : option ArtifactRef;
  j_IdempotencyKey : string;
  j_SnapshotHash : string;
  j_CreatedBy : string;
  j_CreatedAt : time;
  j_StartedAt : option time;
  j_FinishedAt : option time;
  j_ExpiresAt : option time
}.

Record Receipt := { rc_ID : string; rc_SnapshotHash : string; rc_CreatedAt : time }.

(** [activeValue] and [slotValue] of caches.go. *)
Record activeValue := { av_ID : string; av_CreatedAt : time }.
Record slotValue := { sv_RetainUntil : time }.

#[export] Instance Owner_eq_dec : EqDecision Owner.
Proof. solve_decision. Defined.
#[export] Instance Progress_eq_dec : EqDecision Progress.
Proof. solve_decision. Defined.
#[export] Instance ArtifactRef_eq_dec : EqDecision ArtifactRef.
Proof. solve_decision. Defined.
#[export] Instance Sample_eq_dec : EqDecision Sample.
Proof. solve_decision. Defined.
#[export] Instance Manifest_eq_dec : EqDecision Manifest.
Proof. solve_decision. Defined.
#[export] Instance Job_eq_dec : EqDecision Job.
Proof. solve_decision. Defined.

(** ** Updates of one field, [rec.Field = v] on a copy *)

Definition set_state (s : State) (r : Job) : Job :=
  {| j_ID := j_ID r; j_Namespace := j_Namespace r; j_Service := j_Service r;
     j_Origin := j_Origin r; j_Slot := j_Slot r; j_ConfigRevision := j_ConfigRevision r;
     j_Policy := j_Policy r; j_State := s; j_Attempt := j_Attempt r; j_Owner := j_Owner r;
     j_ClaimBy := j_ClaimBy r; j_LeaseUntil := j_LeaseUntil r; j_Deadline := j_Deadline r;
     j_Reason := j_Reason r; j_ResolvedVersion := j_ResolvedVersion r;
     j_Progress := j_Progress r; j_Manifest := j_Manifest r; j_Artifact := j_Artifact r;
     j_IdempotencyKey := j_IdempotencyKey r; j_SnapshotHash := j_SnapshotHash r;
     j_CreatedBy := j_CreatedBy r; j_CreatedAt := j_CreatedAt r; j_StartedAt := j_StartedAt r;
     j_FinishedAt := j_FinishedAt r; j_ExpiresAt := j_ExpiresAt r |}.

(** [rec.State], [rec.Reason] and [rec.FinishedAt] set together, the shape of a
    failure and of a cancellation. *)
Definition set_ended (s : State) (reason : string) (finishedAt : time) (r : Job) : Job :=
  {| j_ID := j_ID r; j_Namespace := j_Namespace r; j_Service := j_Service r;
     j_Origin := j_Origin r; j_Slot := j_Slot r; j_ConfigRevision := j_ConfigRevision r;
     j_Policy := j_Policy r; j_State := s; j_Attempt := j_Attempt r; j_Owner := j_Owner r;
     j_ClaimBy := j_ClaimBy r; j_LeaseUntil := j_LeaseUntil r; j_Deadline := j_Deadline r;
     j_Reason := reason; j_ResolvedVersion := j_ResolvedVersion r;
     j_Progress := j_Progress r; j_Manifest := j_Manifest r; j_Artifact := j_Artifact r;
     j_IdempotencyKey := j_IdempotencyKey r; j_SnapshotHash := j_SnapshotHash r;
     j_CreatedBy := j_CreatedBy r; j_CreatedAt := j_CreatedAt r; j_StartedAt := j_StartedAt r;
     j_FinishedAt := Some finishedAt; j_ExpiresAt := j_ExpiresAt r |}.

(** The lease and progress a renewal proposes. *)
Definition set_lease (lease : time) (p : Progress) (r : Job) : Job :=
  {| j_ID := j_ID r; j_Namespace := j_Namespace r; j_Service := j_Service r;
     j_Origin := j_Origin r; j_Slot := j_Slot r; j_ConfigRevision := j_ConfigRevision r;
     j_Policy := j_Policy r; j_State := j_State r; j_Attempt := j_Attempt r; j_Owner := j_Owner r;
     j_ClaimBy := j_ClaimBy r; j_LeaseUntil := Some lease; j_Deadline := j_Deadline r;
     j_Reason := j_Reason r; j_ResolvedVersion := j_ResolvedVersion r;
     j_Progress := p; j_Manifest := j_Manifest r; j_Artifact := j_Artifact r;
     j_IdempotencyKey := j_IdempotencyKey r; j_SnapshotHash := j_SnapshotHash r;
     j_CreatedBy := j_CreatedBy r; j_CreatedAt := j_CreatedAt r; j_StartedAt := j_StartedAt r;
     j_FinishedAt := j_FinishedAt r; j_ExpiresAt := j_ExpiresAt r |}.

(** ** Serialization *)

(** The encodings encoding/json gives the values of the two buckets, [V] being
    the bytes.  Marshalling fails only for a value the format has no text for,
    such as a year past 9999; unmarshalling fails for bytes that are not the
    JSON of the type. *)
Class Wire (V : Type) := {
  wire_len : V -> Z;
  enc_job : Job -> option V;
  dec_job : V -> option Job;
  enc_active : activeValue -> option V;
  dec_active : V -> option activeValue;
  enc_slot : slotValue -> option V;
  dec_slot : V -> option slotValue;
  enc_receipt : Receipt -> option V;
  dec_receipt : V -> option Receipt;
  enc_override : StoredOverride -> option V;
  dec_override : V -> option StoredOverride;
  (** [SnapshotHash]'s input, [json.Marshal] of a policy; "total" in the code's words. *)
  enc_policy : Policy -> string
}.

(** The round trip encoding/json promises for these types: what was marshalled
    unmarshals to the same value. *)
Class WireLaws (V : Type) `{Wire V} : Prop := {
  dec_enc_job : forall r v, enc_job r = Some v -> dec_job v = Some r;
  dec_enc_active : forall a v, enc_active a = Some v -> dec_active v = Some a;
  dec_enc_slot : forall s v, enc_slot s = Some v -> dec_slot v = Some s;
  dec_enc_receipt : forall r v, enc_receipt r = Some v -> dec_receipt v = Some r;
  dec_enc_override : forall o v, enc_override o = Some v -> dec_override v = Some o
}.

Definition maxRecordBytes : Z := Z.shiftl 512 10.

Inductive marshal_result (V : Type) :=
  | Marshalled (v : V)
  | SerializeFailed
  | RecordTooLarge.
Arguments Marshalled {V} v.
Arguments SerializeFailed {V}.
Arguments RecordTooLarge {V}.

(** [MarshalBounded], of a value whose encoding is [enc]. *)
Definition MarshalBounded {V} `{Wire V} (enc : option V) : marshal_result V :=
  match enc with
  | None => SerializeFailed
  | Some b => if maxRecordBytes <? wire_len b then RecordTooLarge else Marshalled b
  end.

(** Nothing past [maxRecordBytes] reaches a bucket through [MarshalBounded]. *)
Lemma MarshalBounded_Some {V} `{Wire V} (enc : option V) (v : V) :
  MarshalBounded enc = Marshalled v -> enc = Some v /\ wire_len v <= maxRecordBytes.
Proof. unfold MarshalBounded. intros Hm. step_cases Hm. to_prop. by injection Hm as <-. Qed.

(** ** The too-large terminal form *)

Definition sample_ok (s : Sample) : bool := String.eqb (sm_Result s) sampleResultOK.

(** The loop of [terminalTooLarge] over the samples. *)
Fixpoint count_samples (l : list Sample) (ok failed : Z) : Z * Z :=
  match l with
  | [] => (ok, failed)
  | s :: l' => if sample_ok s then count_samples l' (ok + 1) failed
               else count_samples l' ok (failed + 1)
  end.

Definition drop_samples (m : Manifest) : Manifest :=
  {| mf_Collection := mf_Collection m; mf_Namespace := mf_Namespace m;
     mf_Service := mf_Service m; mf_Profile := mf_Profile m;
     mf_ConfigRevision := mf_ConfigRevision m; mf_ResolvedVersion := mf_ResolvedVersion m;
     mf_VersionLabel := mf_VersionLabel m; mf_Sampling := mf_Sampling m;
     mf_Attempt := mf_Attempt m; mf_Truncated := mf_Truncated m; mf_Gateway := mf_Gateway m;
     mf_Samples := [] |}.

(** [Record.terminalTooLarge]. *)
Definition terminalTooLarge (r : Job) (finishedAt : time) : Job :=
  {| j_ID := j_ID r; j_Namespace := j_Namespace r; j_Service := j_Service r;
     j_Origin := j_Origin r; j_Slot := j_Slot r; j_ConfigRevision := j_ConfigRevision r;
     j_Policy := j_Policy r; j_State := StateFailed; j_Attempt := j_Attempt r;
     j_Owner := j_Owner r; j_ClaimBy := j_ClaimBy r; j_LeaseUntil := j_LeaseUntil r;
     j_Deadline := j_Deadline r; j_Reason := ReasonRecordTooLarge;
     j_ResolvedVersion := j_ResolvedVersion r;
     j_Progress :=
       match j_Manifest r with
       | None => j_Progress r
       | Some m =>
           let '(ok, failed) := count_samples (mf_Samples m) 0 0 in
           {| pr_Round := pr_Round (j_Progress r); pr_Rounds := pr_Rounds (j_Progress r);
              pr_SamplesOK := ok; pr_SamplesFailed := failed |}
       end;
     j_Manifest := drop_samples <$> j_Manifest r;
     j_Artifact := None;
     j_IdempotencyKey := j_IdempotencyKey r; j_SnapshotHash := j_SnapshotHash r;
     j_CreatedBy := j_CreatedBy r; j_CreatedAt := j_CreatedAt r; j_StartedAt := j_StartedAt r;
     j_FinishedAt := Some finishedAt; j_ExpiresAt := None |}.

Lemma count_samples_spec (l : list Sample) (ok failed : Z) :
  count_samples l ok failed
  = (ok + Z.of_nat (length (List.filter sample_ok l)),
     failed + Z.of_nat (length (List.filter (fun s => negb (sample_ok s)) l))).
Proof.
  revert ok failed. induction l as [|s l IH]; intros ok failed; simpl.
  - f_equal; lia.
  - destruct (sample_ok s); rewrite IH; simpl; f_equal; lia.
Qed.

(** ** The deadline *)

(** [Deadline]: [None] is the division by zero of a policy with no parallelism. *)
Definition Deadline (startedAt : time) (p : Policy) (lim : PGOLimits) : option time :=
  let s := PSampling p in
  let rounds := Rounds s in
  let targets := Resolve (SReplicas s) (MaxTargetsPerRound lim) in
  if SMaxParallel s =? 0 then None
  else
    let batches := (targets +! SMaxParallel s -! 1) /! SMaxParallel s in
    let duration := Duration s in
    let roundInterval := RoundInterval s in
    let admissionWait := duration +! roundInterval in
    Some (startedAt +
      (rounds *! batches *! (duration +! PGOSampleOverhead +! admissionWait)
       +! ((rounds -! 1) *! roundInterval) +! PGODeadlineSlack)).

(** What the formula means: every round runs its batches one after another,
    each sample taking its duration, the overhead and the wait, the rounds are
    an interval apart, and the slack ends it. *)
Definition batches_of (p : Policy) (lim : PGOLimits) : Z :=
  (Resolve (SReplicas (PSampling p)) (MaxTargetsPerRound lim) + SMaxParallel (PSampling p) - 1)
  / SMaxParallel (PSampling p).

Definition sample_allowance (p : Policy) : Z :=
  2 * Duration (PSampling p) + RoundInterval (PSampling p) + 30 * second.

Definition deadline_span (p : Policy) (lim : PGOLimits) : Z :=
  Rounds (PSampling p) * batches_of p lim * sample_allowance p
  + (Rounds (PSampling p) - 1) * RoundInterval (PSampling p) + 60 * second.

Lemma batches_bounds (p : Policy) (lim : PGOLimits) :
  limits_tags lim = true -> replicas_within p lim -> parallel_within p lim ->
  1 <= batches_of p lim <= 256 /\
  Resolve (SReplicas (PSampling p)) (MaxTargetsPerRound lim)
    <= batches_of p lim * SMaxParallel (PSampling p).
Proof.
  intros Hl%limits_tags_spec Hr Hp. apply Resolve_bounds in Hr; [|lia].
  unfold parallel_within in Hp. unfold batches_of.
  set (t := Resolve _ _) in *. set (m := SMaxParallel _) in *.
  pose proof (Z.div_mod (t + m - 1) m ltac:(lia)).
  pose proof (Z.mod_pos_bound (t + m - 1) m ltac:(lia)). nia.
Qed.

Lemma span_bounds (p : Policy) (lim : PGOLimits) :
  limits_tags lim = true -> MaxDuration lim <= 24 * hour -> policy_within p lim ->
  sample_allowance p <= 173430 * second /\
  0 <= Rounds (PSampling p) * batches_of p lim <= 5120 /\
  0 <= (Rounds (PSampling p) - 1) * RoundInterval (PSampling p) <= 11400 * second.
Proof.
  intros Hl Hd (_ & _ & Hdur & Hr & Hi & Hrep & Hpar & _).
  pose proof (batches_bounds p lim Hl Hrep Hpar) as [Hb _].
  apply limits_tags_spec in Hl.
  unfold duration_within, rounds_within, interval_within, PGOMaxRoundInterval, sample_allowance,
    hour, minute, second in *. nia.
Qed.

(** For a policy [Validate] accepts, under ceilings the configuration
    admits (collection on bounds [maxDuration] by 24 hours of
    [limits.cpuSeconds]), the deadline computed in [int64] nanoseconds is the
    exact formula: nothing wraps, nothing divides by zero, and it lies after
    the start by at least a minute and every batch of every round. *)
Theorem Deadline_exact (startedAt : time) (p : Policy) (lim : PGOLimits) :
  limits_tags lim = true -> MaxDuration lim <= 24 * hour -> Validate p lim = [] ->
  Deadline startedAt p lim = Some (startedAt + deadline_span p lim) /\
  Rounds (PSampling p) * batches_of p lim * Duration (PSampling p) + 60 * second
    <= deadline_span p lim.
Proof.
  intros Hl Hd Hp%Validate_within.
  pose proof (span_bounds p lim Hl Hd Hp) as (Ha & Hb & Hi).
  destruct Hp as (_ & _ & Hdur & Hr & Hint & Hrep & Hpar & _).
  pose proof (batches_bounds p lim Hl Hrep Hpar) as [Hbb _].
  apply limits_tags_spec in Hl. apply Resolve_bounds in Hrep; [|lia].
  unfold duration_within, rounds_within, interval_within, parallel_within, PGOMaxRoundInterval,
    sample_allowance, batches_of, hour, minute in *.
  unfold Deadline, deadline_span, sample_allowance, batches_of. cbv zeta.
  set (t := Resolve _ _) in *. set (m := SMaxParallel _) in *. set (r := Rounds _) in *.
  set (d := Duration _) in *. set (i := RoundInterval _) in *.
  rewrite (proj2 (Z.eqb_neq m 0)) by lia.
  rewrite (wrap64_id (t + m)) by in64. rewrite (wrap64_id (t + m - 1)) by in64.
  rewrite quot64_div by (unfold max_int64; lia).
  unfold PGOSampleOverhead, PGODeadlineSlack, second in *.
  set (b := (t + m - 1) / m) in *.
  rewrite (wrap64_id (d + 30 * 1000000000)), (wrap64_id (d + i)) by in64.
  rewrite (wrap64_id (_ + (d + i))) by in64. rewrite (wrap64_id (r * b)) by in64.
  replace (d + 30 * 1000000000 + (d + i)) with (2 * d + i + 30 * 1000000000) by lia.
  rewrite (wrap64_id (r - 1)) by in64. rewrite (wrap64_id ((r - 1) * i)) by in64.
  assert (0 <= r * b * (2 * d + i + 30 * 1000000000) <= 5120 * (173430 * 1000000000)) as Hprod by nia.
  rewrite (wrap64_id (r * b * _)) by in64. rewrite (wrap64_id (_ + (r - 1) * i)) by in64.
  rewrite wrap64_id by in64. split; [reflexivity|]. nia.
Qed.

Definition default_policy : Policy :=
  {| Enabled := false;
     PSchedule := {| Every := 6 * hour; Jitter := 10 * minute |};
     PSampling := {| Duration := 30 * second; Rounds := 2; RoundInterval := 30 * second;
                     SReplicas := AllReplicas; SMaxParallel := 4 |};
     PTarget := {| Version := "" |};
     PArtifact := {| Retention := 24 * hour |} |}.

Lemma Deadline_exact_witness :
  (limits_tags small_limits = true /\ MaxDuration small_limits <= 24 * hour /\
   Validate default_policy small_limits = []) /\
  Deadline 0 default_policy small_limits = Some (0 + deadline_span default_policy small_limits).
Proof.
  split; [split; [reflexivity|split; [by vm_compute|by vm_compute]]|].
  apply (Deadline_exact 0 default_policy small_limits); by vm_compute.
Defined.

(** The too-large terminal form is a failed record that names no artifact
    and carries no sample, and its counts are those of the samples it dropped:
    together they account for every one. *)
Theorem terminalTooLarge_counts (r : Job) (m : Manifest) (now : time) :
  j_Manifest r = Some m ->
  let out := terminalTooLarge r now in
  j_State out = StateFailed /\ j_Reason out = ReasonRecordTooLarge /\
  j_Artifact out = None /\ j_ExpiresAt out = None /\ j_FinishedAt out = Some now /\
  (exists m', j_Manifest out = Some m' /\ mf_Samples m' = []) /\
  pr_SamplesOK (j_Progress out) = Z.of_nat (length (List.filter sample_ok (mf_Samples m))) /\
  pr_SamplesOK (j_Progress out) + pr_SamplesFailed (j_Progress out)
    = Z.of_nat (length (mf_Samples m)).
Proof.
  intros Hm. unfold terminalTooLarge. rewrite Hm, count_samples_spec. cbn.
  repeat split; [by eexists|].
  induction (mf_Samples m) as [|s l IH]; [done|]. cbn. destruct (sample_ok s); cbn; lia.
Qed.

(** A record for the concrete inputs the witnesses evaluate at. *)
Definition sample_job : Job :=
  {| j_ID := "0123456789abcdefghjk"; j_Namespace := "shop"; j_Service := "cart";
     j_Origin := OriginAPI; j_Slot := ""; j_ConfigRevision := 7; j_Policy := default_policy;
     j_State := StatePending; j_Attempt := 0; j_Owner := None; j_ClaimBy := 4000 * second;
     j_LeaseUntil := None; j_Deadline := None; j_Reason := ""; j_ResolvedVersion := "";
     j_Progress := {| pr_Round := 0; pr_Rounds := 0; pr_SamplesOK := 0; pr_SamplesFailed := 0 |};
     j_Manifest := None; j_Artifact := None; j_IdempotencyKey := ""; j_SnapshotHash := "h";
     j_CreatedBy := "alice"; j_CreatedAt := 400 * second; j_StartedAt := None;
     j_FinishedAt := None; j_ExpiresAt := None |}.

Definition sample_of (result : string) : Sample :=
  {| sm_Round := 0; sm_Pod := "cart-0"; sm_PodUID := "u0"; sm_Node := "n0"; sm_StartedAt := 0;
     sm_Result := result; sm_Reason := ""; sm_Bytes := 10 |}.

Definition sample_manifest : Manifest :=
  {| mf_Collection := "0123456789abcdefghjk"; mf_Namespace := "shop"; mf_Service := "cart";
     mf_Profile := "cpu"; mf_ConfigRevision := 7; mf_ResolvedVersion := "v1";
     mf_VersionLabel := "version"; mf_Sampling := PSampling default_policy; mf_Attempt := 1;
     mf_Truncated := false; mf_Gateway := "gw-0";
     mf_Samples := [sample_of "ok"; sample_of "target_changed"; sample_of "ok"] |}.

Definition with_manifest (m : option Manifest) (r : Job) : Job :=
  {| j_ID := j_ID r; j_Namespace := j_Namespace r; j_Service := j_Service r;
     j_Origin := j_Origin r; j_Slot := j_Slot r; j_ConfigRevision := j_ConfigRevision r;
     j_Policy := j_Policy r; j_State := j_State r; j_Attempt := j_Attempt r; j_Owner := j_Owner r;
     j_ClaimBy := j_ClaimBy r; j_LeaseUntil := j_LeaseUntil r; j_Deadline := j_Deadline r;
     j_Reason := j_Reason r; j_ResolvedVersion := j_ResolvedVersion r;
     j_Progress := j_Progress r; j_Manifest := m; j_Artifact := j_Artifact r;
     j_IdempotencyKey := j_IdempotencyKey r; j_SnapshotHash := j_SnapshotHash r;
     j_CreatedBy := j_CreatedBy r; j_CreatedAt := j_CreatedAt r; j_StartedAt := j_StartedAt r;
     j_FinishedAt := j_FinishedAt r; j_ExpiresAt := j_ExpiresAt r |}.

Lemma terminalTooLarge_counts_witness :
  j_Manifest (with_manifest (Some sample_manifest) sample_job) = Some sample_manifest /\
  pr_SamplesOK (j_Progress (terminalTooLarge (with_manifest (Some sample_manifest) sample_job) 5)) = 2.
Proof.
  split; [reflexivity|].
  exact (proj1 (proj2 (proj2 (proj2 (proj2 (proj2 (proj2
    (terminalTooLarge_counts (with_manifest (Some sample_manifest) sample_job) sample_manifest 5
       eq_refl)))))))).
Defined.

(** ** A wire format to evaluate the model with

    A value is its own encoding.  The witnesses run the programs with it. *)
Inductive tagged :=
  | TJob (r : Job)
  | TActive (a : activeValue)
  | TSlot (s : slotValue)
  | TReceipt (r : Receipt)
  | TOverride (o : StoredOverride)
  | TBytes (n : Z).

#[export] Instance tagged_wire : Wire tagged := {|
  wire_len := fun v => match v with TBytes n => n | _ => 1024 end;
  enc_job := fun r => Some (TJob r);
  dec_job := fun v => match v with TJob r => Some r | _ => None end;
  enc_active := fun a => Some (TActive a);
  dec_active := fun v => match v with TActive a => Some a | _ => None end;
  enc_slot := fun s => Some (TSlot s);
  dec_slot := fun v => match v with TSlot s => Some s | _ => None end;
  enc_receipt := fun r => Some (TReceipt r);
  dec_receipt := fun v => match v with TReceipt r => Some r | _ => None end;
  enc_override := fun o => Some (TOverride o);
  dec_override := fun v => match v with TOverride o => Some o | _ => None end;
  enc_policy := fun _ => "{}"
|}.

#[export] Instance tagged_laws : WireLaws tagged.
Proof. split; intros ?? [= <-]; done. Qed.

(** A completed record. *)
Definition completed_job : Job :=
  {| j_ID := "0123456789abcdefghjk"; j_Namespace := "shop"; j_Service := "cart";
     j_Origin := OriginAPI; j_Slot := ""; j_ConfigRevision := 7; j_Policy := default_policy;
     j_State := StateCompleted; j_Attempt := 1;
     j_Owner := Some {| ow_Instance := "gw-0"; ow_Pod := "gw-0" |}; j_ClaimBy := 4000 * second;
     j_LeaseUntil := Some (500 * second); j_Deadline := Some (900 * second); j_Reason := "";
     j_ResolvedVersion := "v1";
     j_Progress := {| pr_Round := 1; pr_Rounds := 2; pr_SamplesOK := 2; pr_SamplesFailed := 1 |};
     j_Manifest := Some sample_manifest;
     j_Artifact := Some {| ar_Object := "0123456789abcdefghjk-1.pprof"; ar_Bytes := 10 |};
     j_IdempotencyKey := ""; j_SnapshotHash := "h"; j_CreatedBy := "alice";
     j_CreatedAt := 400 * second; j_StartedAt := Some (401 * second);
     j_FinishedAt := Some (480 * second); j_ExpiresAt := Some (480 * second + 24 * hour) |}.
