(* ===== verification/Sha256.v ===== *)
(** * SHA-256 and hexadecimal

    The two standard-library functions the key of an idempotency receipt is
    computed with: crypto/sha256 (FIPS 180-4) over the bytes of a string, and
    encoding/hex. *)

From S2P Require Import Prelude.

Definition mask32 (z : Z) : Z := Z.land z 4294967295.
Definition add32 (a b : Z) : Z := mask32 (a + b).
Definition rotr (n x : Z) : Z := Z.lor (Z.shiftr x n) (mask32 (Z.shiftl x (32 - n))).

Definition Ch (x y z : Z) : Z := Z.lxor (Z.land x y) (Z.land (Z.lxor x 4294967295) z).
Definition Maj (x y z : Z) : Z := Z.lxor (Z.lxor (Z.land x y) (Z.land x z)) (Z.land y z).
Definition Sigma0 (x : Z) : Z := Z.lxor (Z.lxor (rotr 2 x) (rotr 13 x)) (rotr 22 x).
Definition Sigma1 (x : Z) : Z := Z.lxor (Z.lxor (rotr 6 x) (rotr 11 x)) (rotr 25 x).
Definition sigma0 (x : Z) : Z := Z.lxor (Z.lxor (rotr 7 x) (rotr 18 x)) (Z.shiftr x 3).
Definition sigma1 (x : Z) : Z := Z.lxor (Z.lxor (rotr 17 x) (rotr 19 x)) (Z.shiftr x 10).

(** The standard's constants, from their definition there: the first 32 bits of
    the fractional parts of the cube roots of the first 64 primes, and, for the
    starting value, of the square roots of the first 8. *)
Definition divides_none (ps : list Z) (n : Z) : bool := forallb (fun p => negb (n mod p =? 0)) ps.

(** The primes among [n], [n + 1], ..., [k] numbers in all, after the primes [ps]. *)
Fixpoint primes_from (k : nat) (n : Z) (ps : list Z) : list Z :=
  match k with
  | O => ps
  | S k' => primes_from k' (n + 1) (if divides_none ps n then ps ++ [n] else ps)
  end.

(** The cube root of [n] rounded down, found bit by bit below [2 ^ bits]. *)
Fixpoint cube_root (bits : nat) (acc n : Z) : Z :=
  match bits with
  | O => acc
  | S b => let up := acc + 2 ^ Z.of_nat b in cube_root b (if up ^ 3 <=? n then up else acc) n
  end.

Definition first_primes : list Z := take 64 (primes_from 310 2 []).

Definition round_constants : list Z :=
  Eval vm_compute in (fun p => mask32 (cube_root 36 0 (p * 2 ^ 96))) <$> first_primes.

(** Bytes as numbers below 256. *)
Fixpoint bytes_of (s : string) : list Z :=
  match s with
  | EmptyString => []
  | String c s' => Z.of_nat (nat_of_ascii c) :: bytes_of s'
  end.

(** [n] big-endian bytes of [z]. *)
Fixpoint be_bytes (n : nat) (z : Z) : list Z :=
  match n with
  | O => []
  | S n' => Z.land (Z.shiftr z (8 * Z.of_nat n')) 255 :: be_bytes n' z
  end.

Definition be_word (l : list Z) : Z := fold_left (fun acc b => acc * 256 + b) l 0.

(** The padding: 0x80, zeros to 56 modulo 64, the length in bits in 8 bytes. *)
Definition pad (msg : list Z) : list Z :=
  let n := Z.of_nat (length msg) in
  let zeros := (55 - n) mod 64 in
  msg ++ 128 :: replicate (Z.to_nat zeros) 0 ++ be_bytes 8 (8 * n).

Fixpoint chunks (fuel : nat) (k : nat) (l : list Z) : list (list Z) :=
  match fuel, l with
  | O, _ => []
  | _, [] => []
  | S fuel', _ => take k l :: chunks fuel' k (drop k l)
  end.

(** The message schedule, newest word first. *)
Fixpoint schedule (n : nat) (w : list Z) : list Z :=
  match n with
  | O => w
  | S n' =>
      let at_ i := nth i w 0 in
      schedule n' (add32 (add32 (sigma1 (at_ 1%nat)) (at_ 6%nat))
                         (add32 (sigma0 (at_ 14%nat)) (at_ 15%nat)) :: w)
  end.

Record regs := Regs { ra : Z; rb : Z; rc : Z; rd : Z; re : Z; rf : Z; rg : Z; rh : Z }.

Definition sha_round (s : regs) (kw : Z * Z) : regs :=
  let '(k, w) := kw in
  let t1 := add32 (add32 (add32 (rh s) (Sigma1 (re s))) (add32 (Ch (re s) (rf s) (rg s)) k)) w in
  let t2 := add32 (Sigma0 (ra s)) (Maj (ra s) (rb s) (rc s)) in
  Regs (add32 t1 t2) (ra s) (rb s) (rc s) (add32 (rd s) t1) (re s) (rf s) (rg s).

Definition compress (s : regs) (block : list Z) : regs :=
  let w := rev (schedule 48 (rev (be_word <$> chunks 16 4 block))) in
  let t := fold_left sha_round (zip round_constants w) s in
  Regs (add32 (ra s) (ra t)) (add32 (rb s) (rb t)) (add32 (rc s) (rc t)) (add32 (rd s) (rd t))
       (add32 (re s) (re t)) (add32 (rf s) (rf t)) (add32 (rg s) (rg t)) (add32 (rh s) (rh t)).

Definition root_bits (i : nat) : Z := mask32 (Z.sqrt (nth i first_primes 0 * 2 ^ 64)).

Definition sha256_start : regs :=
  Eval vm_compute in Regs (root_bits 0) (root_bits 1) (root_bits 2) (root_bits 3)
                          (root_bits 4) (root_bits 5) (root_bits 6) (root_bits 7).

(** [sha256.Sum256] of the bytes of a string, as bytes. *)
Definition sha256 (s : string) : list Z :=
  let p := pad (bytes_of s) in
  let r := fold_left compress (chunks (length p) 64 p) sha256_start in
  flat_map (be_bytes 4) [ra r; rb r; rc r; rd r; re r; rf r; rg r; rh r].

Definition hex_digit (z : Z) : ascii :=
  match String.get (Z.to_nat z) "0123456789abcdef" with Some c => c | None => "0"%char end.

(** [hex.EncodeToString]. *)
Fixpoint hex_encode (l : list Z) : string :=
  match l with
  | [] => EmptyString
  | b :: l' => String (hex_digit (Z.shiftr b 4)) (String (hex_digit (Z.land b 15)) (hex_encode l'))
  end.

Example sha256_abc :
  hex_encode (sha256 "abc") = "ba7816bf8f01cfea414140de5dae2223b00361a396177a9cb410ff61f20015ad".
Proof. vm_compute. reflexivity. Qed.

Example sha256_empty :
  hex_encode (sha256 "") = "e3b0c44298fc1c149afbf4c8996fb92427ae41e4649b934ca495991b7852b855".
Proof. vm_compute. reflexivity. Qed.

Example sha256_two_blocks :
  hex_encode (sha256 "abcdbcdecdefdefgefghfghighijhijkijkljklmklmnlmnomnopnopq")
  = "248d6a61d20638b8e5c026930c3e6039a33ce45964ff2167f6ecedd419db06c1".
Proof. vm_compute. reflexivity. Qed.

Lemma length_be_bytes (n : nat) (z : Z) : length (be_bytes n z) = n.
Proof. induction n; simpl; congruence. Qed.

Lemma length_sha256 (s : string) : length (sha256 s) = 32%nat.
Proof. unfold sha256. cbn [flat_map]. rewrite !length_app, !length_be_bytes. reflexivity. Qed.

Lemma hex_encode_length (l : list Z) : String.length (hex_encode l) = (2 * length l)%nat.
Proof. induction l; simpl; [done|]. lia. Qed.
