(* ===== verification/Base64.v ===== *)
(** * Base64

    The two encodings of encoding/base64 the program uses: [RawURLEncoding],
    unpadded over the alphabet of URLs, of cursors, cookies and wire values; and
    [StdEncoding], padded, of Basic credentials and key files.  Bytes as numbers,
    and the round trip of each encoding. *)

From S2P Require Import Prelude.

Definition byte_of (c : ascii) : Z := Z.of_nat (nat_of_ascii c).
Definition of_byte (z : Z) : ascii := ascii_of_nat (Z.to_nat z).

Definition url_alphabet : string := "ABCDEFGHIJKLMNOPQRSTUVWXYZabcdefghijklmnopqrstuvwxyz0123456789-_".
Definition std_alphabet : string := "ABCDEFGHIJKLMNOPQRSTUVWXYZabcdefghijklmnopqrstuvwxyz0123456789+/".

Fixpoint nth_byte (n : nat) (s : string) : ascii :=
  match s, n with
  | String c _, O => c
  | String _ s', S n' => nth_byte n' s'
  | EmptyString, _ => "A"%char
  end.
Fixpoint index_byte (c : ascii) (s : string) : option nat :=
  match s with
  | EmptyString => None
  | String d s' => if Ascii.eqb c d then Some O else S <$> index_byte c s'
  end.

Definition b64_char (al : string) (v : Z) : ascii := nth_byte (Z.to_nat v) al.
Definition b64_value (al : string) (c : ascii) : option Z := Z.of_nat <$> index_byte c al.

Definition pad_char : ascii := "="%char.
Definition padding (pad : bool) (n : nat) : string :=
  if pad then String.concat EmptyString (repeat (String pad_char EmptyString) n) else EmptyString.

(** [EncodeToString], under an alphabet, padded or not. *)
Fixpoint encode_with (al : string) (pad : bool) (s : string) : string :=
  match s with
  | EmptyString => EmptyString
  | String a EmptyString =>
      String (b64_char al (byte_of a / 4)) (String (b64_char al (byte_of a mod 4 * 16)) (padding pad 2))
  | String a (String b EmptyString) =>
      String (b64_char al (byte_of a / 4)) (String (b64_char al (byte_of a mod 4 * 16 + byte_of b / 16))
        (String (b64_char al (byte_of b mod 16 * 4)) (padding pad 1)))
  | String a (String b (String c s')) =>
      String (b64_char al (byte_of a / 4)) (String (b64_char al (byte_of a mod 4 * 16 + byte_of b / 16))
        (String (b64_char al (byte_of b mod 16 * 4 + byte_of c / 64)) (String (b64_char al (byte_of c mod 64))
          (encode_with al pad s'))))
  end.

Definition b64_encode : string -> string := encode_with url_alphabet false.
Definition std_encode : string -> string := encode_with std_alphabet true.

(** Both decoders pass over line breaks. *)
Fixpoint strip_breaks (s : string) : string :=
  match s with
  | EmptyString => EmptyString
  | String c s' =>
      if Ascii.eqb c (ascii_of_nat 10) || Ascii.eqb c (ascii_of_nat 13) then strip_breaks s'
      else String c (strip_breaks s')
  end.

(** The bytes of a group of two, three and four digits; the bits past the last
    whole byte are not looked at. *)
Definition bytes2 (x y : Z) (rest : string) : string := String (of_byte (x * 4 + y / 16)) rest.
Definition bytes3 (x y z : Z) (rest : string) : string :=
  bytes2 x y (String (of_byte (y mod 16 * 16 + z / 4)) rest).
Definition bytes4 (x y z w : Z) (rest : string) : string :=
  bytes3 x y z (String (of_byte (z mod 4 * 64 + w)) rest).

Fixpoint b64_groups (s : string) : option string :=
  match s with
  | EmptyString => Some EmptyString
  | String a (String b r) =>
      x ← b64_value url_alphabet a; y ← b64_value url_alphabet b;
      match r with
      | EmptyString => Some (bytes2 x y EmptyString)
      | String c r' =>
          z ← b64_value url_alphabet c;
          match r' with
          | EmptyString => Some (bytes3 x y z EmptyString)
          | String d r'' => w ← b64_value url_alphabet d; bytes4 x y z w <$> b64_groups r''
          end
      end
  | String _ EmptyString => None
  end.

(** [RawURLEncoding.DecodeString]. *)
Definition b64_decode (s : string) : option string := b64_groups (strip_breaks s).

(** Whole groups of four, of which the last may end in padding. *)
Fixpoint std_groups (s : string) : option string :=
  match s with
  | EmptyString => Some EmptyString
  | String a (String b (String c (String d r))) =>
      x ← b64_value std_alphabet a; y ← b64_value std_alphabet b;
      if Ascii.eqb d pad_char && String.eqb r EmptyString then
        if Ascii.eqb c pad_char then Some (bytes2 x y EmptyString)
        else z ← b64_value std_alphabet c; Some (bytes3 x y z EmptyString)
      else
        z ← b64_value std_alphabet c; w ← b64_value std_alphabet d;
        bytes4 x y z w <$> std_groups r
  | _ => None
  end.

(** [StdEncoding.DecodeString]. *)
Definition std_decode (s : string) : option string := std_groups (strip_breaks s).

(** ** The round trips *)

Lemma byte_range (c : ascii) : 0 <= byte_of c < 256.
Proof. unfold byte_of. pose proof (nat_ascii_bounded c). lia. Qed.

Lemma of_byte_of (c : ascii) : of_byte (byte_of c) = c.
Proof. unfold of_byte, byte_of. by rewrite Nat2Z.id, ascii_nat_embedding. Qed.

Lemma byte_of_of (z : Z) : 0 <= z < 256 -> byte_of (of_byte z) = z.
Proof. intros H. unfold of_byte, byte_of. rewrite nat_ascii_embedding by lia. lia. Qed.

(** A property of the 64 digits, checked on each. *)
Lemma digits_all (f : Z -> bool) (v : Z) :
  forallb (fun n => f (Z.of_nat n)) (seq 0 64) = true -> 0 <= v < 64 -> f v = true.
Proof.
  intros H Hv. rewrite forallb_forall in H. specialize (H (Z.to_nat v)).
  rewrite Z2Nat.id in H by lia. apply H, in_seq. lia.
Qed.

Definition digit_ok (al : string) (v : Z) : bool :=
  bool_decide (b64_value al (b64_char al v) = Some v) &&
  negb (Ascii.eqb (b64_char al v) (ascii_of_nat 10)) && negb (Ascii.eqb (b64_char al v) (ascii_of_nat 13)) &&
  negb (Ascii.eqb (b64_char al v) pad_char).
Definition is_alphabet (al : string) : bool := forallb (fun n => digit_ok al (Z.of_nat n)) (seq 0 64).

Lemma alphabet_digit (al : string) (v : Z) :
  is_alphabet al = true -> 0 <= v < 64 ->
  b64_value al (b64_char al v) = Some v /\ Ascii.eqb (b64_char al v) pad_char = false /\
  forall s, strip_breaks (String (b64_char al v) s) = String (b64_char al v) (strip_breaks s).
Proof.
  intros H Hv. pose proof (digits_all (digit_ok al) v H Hv) as E. unfold digit_ok in E. to_prop.
  repeat split; [done..|]. intros s. cbn [strip_breaks].
  match goal with H1 : Ascii.eqb _ (ascii_of_nat 10) = false, H2 : Ascii.eqb _ (ascii_of_nat 13) = false |- _ =>
    rewrite H1, H2 end. done.
Qed.

Lemma url_is_alphabet : is_alphabet url_alphabet = true.
Proof. vm_compute. reflexivity. Qed.
Lemma std_is_alphabet : is_alphabet std_alphabet = true.
Proof. vm_compute. reflexivity. Qed.

Lemma url_value_char (v : Z) : 0 <= v < 64 -> b64_value url_alphabet (b64_char url_alphabet v) = Some v.
Proof. intros H. exact (proj1 (alphabet_digit _ _ url_is_alphabet H)). Qed.
Lemma std_value_char (v : Z) : 0 <= v < 64 -> b64_value std_alphabet (b64_char std_alphabet v) = Some v.
Proof. intros H. exact (proj1 (alphabet_digit _ _ std_is_alphabet H)). Qed.
Lemma std_char_digit (v : Z) : 0 <= v < 64 -> Ascii.eqb (b64_char std_alphabet v) pad_char = false.
Proof. intros H. exact (proj1 (proj2 (alphabet_digit _ _ std_is_alphabet H))). Qed.
Lemma url_char_kept (v : Z) (s : string) :
  0 <= v < 64 -> strip_breaks (String (b64_char url_alphabet v) s) = String (b64_char url_alphabet v) (strip_breaks s).
Proof. intros H. exact (proj2 (proj2 (alphabet_digit _ _ url_is_alphabet H)) s). Qed.
Lemma std_char_kept (v : Z) (s : string) :
  0 <= v < 64 -> strip_breaks (String (b64_char std_alphabet v) s) = String (b64_char std_alphabet v) (strip_breaks s).
Proof. intros H. exact (proj2 (proj2 (alphabet_digit _ _ std_is_alphabet H)) s). Qed.

(** A string three bytes at a time. *)
Lemma string_triples (P : string -> Prop) :
  P EmptyString -> (forall a, P (String a EmptyString)) -> (forall a b, P (String a (String b EmptyString))) ->
  (forall a b c s, P s -> P (String a (String b (String c s)))) -> forall s, P s.
Proof.
  intros H0 H1 H2 H3 s. assert (forall n s, (String.length s < n)%nat -> P s) as H.
  { induction n as [|n IH]; intros s' Hl; [lia|].
    destruct s' as [|a [|b [|c s']]]; [done..|]. apply H3, IH. simpl in Hl. lia. }
  apply (H (S (String.length s))). lia.
Qed.

(** The digits of a byte string are below 64. *)
Ltac sextet := first
  [ split; [apply Z.div_pos; lia|apply Z.div_lt_upper_bound; lia]
  | Z.div_mod_to_equations; lia ].
Ltac ranges := repeat match goal with a : ascii |- _ =>
  lazymatch goal with H : 0 <= byte_of a < 256 |- _ => fail | _ => pose proof (byte_range a) end end.

Lemma bytes2_of (a : ascii) (w : Z) (rest : string) :
  0 <= w < 16 -> bytes2 (byte_of a / 4) (byte_of a mod 4 * 16 + w) rest = String a rest.
Proof.
  intros Hw. ranges. unfold bytes2.
  replace (byte_of a / 4 * 4 + (byte_of a mod 4 * 16 + w) / 16) with (byte_of a)
    by (Z.div_mod_to_equations; lia).
  by rewrite of_byte_of.
Qed.

Lemma bytes3_of (a b : ascii) (w : Z) (rest : string) :
  0 <= w < 4 ->
  bytes3 (byte_of a / 4) (byte_of a mod 4 * 16 + byte_of b / 16) (byte_of b mod 16 * 4 + w) rest
  = String a (String b rest).
Proof.
  intros Hw. ranges. unfold bytes3. rewrite bytes2_of by sextet.
  replace ((byte_of a mod 4 * 16 + byte_of b / 16) mod 16 * 16 + (byte_of b mod 16 * 4 + w) / 4)
    with (byte_of b) by (Z.div_mod_to_equations; lia).
  by rewrite of_byte_of.
Qed.

Lemma bytes4_of (a b c : ascii) (rest : string) :
  bytes4 (byte_of a / 4) (byte_of a mod 4 * 16 + byte_of b / 16) (byte_of b mod 16 * 4 + byte_of c / 64)
    (byte_of c mod 64) rest = String a (String b (String c rest)).
Proof.
  ranges. unfold bytes4. rewrite bytes3_of by sextet.
  replace ((byte_of b mod 16 * 4 + byte_of c / 64) mod 4 * 64 + byte_of c mod 64) with (byte_of c)
    by (Z.div_mod_to_equations; lia).
  by rewrite of_byte_of.
Qed.

Lemma bytes2_of0 (a : ascii) (rest : string) :
  bytes2 (byte_of a / 4) (byte_of a mod 4 * 16) rest = String a rest.
Proof. rewrite <-(Z.add_0_r (byte_of a mod 4 * 16)). apply bytes2_of. lia. Qed.
Lemma bytes3_of0 (a b : ascii) (rest : string) :
  bytes3 (byte_of a / 4) (byte_of a mod 4 * 16 + byte_of b / 16) (byte_of b mod 16 * 4) rest
  = String a (String b rest).
Proof. rewrite <-(Z.add_0_r (byte_of b mod 16 * 4)). apply bytes3_of. lia. Qed.

Lemma b64_roundtrip (s : string) : b64_decode (b64_encode s) = Some s.
Proof.
  unfold b64_decode, b64_encode. induction s as [|a|a b|a b c s IH] using string_triples; [done|..]; ranges;
    cbn [encode_with padding]; rewrite !url_char_kept by sextet; cbn [b64_groups strip_breaks];
    rewrite !url_value_char by sextet; cbn [mbind option_bind].
  - by rewrite bytes2_of0.
  - by rewrite bytes3_of0.
  - rewrite IH. cbn [fmap option_fmap option_map]. by rewrite bytes4_of.
Qed.

Lemma std_roundtrip (s : string) : std_decode (std_encode s) = Some s.
Proof.
  unfold std_decode, std_encode. induction s as [|a|a b|a b c s IH] using string_triples; [done|..]; ranges;
    cbn [encode_with]; rewrite !std_char_kept by sextet;
    [change (padding true 2) with "=="%string|change (padding true 1) with "="%string|];
    cbn [strip_breaks std_groups]; rewrite !std_value_char by sextet; cbn [mbind option_bind].
  - by rewrite bytes2_of0.
  - change (Ascii.eqb "=" (ascii_of_nat 10) || Ascii.eqb "=" (ascii_of_nat 13)) with false. cbn iota.
    rewrite std_char_digit by sextet. by rewrite bytes3_of0.
  - rewrite std_char_digit by sextet. cbn [andb]. rewrite IH. cbn [fmap option_fmap option_map].
    by rewrite bytes4_of.
Qed.

(** The length of an unpadded encoding: four digits for three bytes. *)
Lemma b64_length (s : string) :
  byte_len (b64_encode s) = (4 * byte_len s + 2) / 3.
Proof.
  unfold byte_len, b64_encode. induction s as [|a|a b|a b c s IH] using string_triples; [done..|].
  cbn [encode_with String.length]. Z.div_mod_to_equations; lia.
Qed.
