(* ===== verification/Keys.v ===== *)
(** * Bucket keys

    src/internal/pgo/caches.go, the key formats: which keys the components
    share the two buckets through, and how the caches read a Service back out
    of one. *)

From S2P Require Import Prelude Records Sha256.

Definition overridePrefix : string := "service.".
Definition jobPrefix : string := "job.".
Definition activePrefix : string := "active.".
Definition slotPrefix : string := "schedule.".
Definition receiptPrefix : string := "idem.".

Definition overrideKey (ns svc : string) : string := overridePrefix +:+ ns +:+ "." +:+ svc.
Definition jobKey (id : string) : string := jobPrefix +:+ id.
Definition activeKey (ns svc : string) : string := activePrefix +:+ ns +:+ "." +:+ svc.

(** The scope a receipt key is hashed from: each field as its byte length, a
    colon, and its bytes. *)
Definition scope_field (field : string) : string :=
  pretty (byte_len field) +:+ ":" +:+ field.

Definition receipt_scope (principal namespace service key : string) : string :=
  scope_field principal +:+ scope_field namespace +:+ scope_field service +:+ scope_field key.

(** [ReceiptKey]. *)
Definition ReceiptKey (principal namespace service key : string) : string :=
  receiptPrefix +:+
  String.substring 0 32 (hex_encode (sha256 (receipt_scope principal namespace service key))).

(** [t.Unix()]: whole seconds since the epoch, rounded toward minus infinity. *)
Definition unix (t : time) : Z := t / second.

(** [slotKey]. *)
Definition slotKey (ns svc : string) (slot : time) : string :=
  slotPrefix +:+ ns +:+ "." +:+ svc +:+ "." +:+ pretty (unix slot).

(** [splitServiceKey]. *)
Definition splitServiceKey (prefix key : string) : option (string * string) :=
  match cut_prefix prefix key with
  | None => None
  | Some rest =>
      match cut "." rest with
      | None => None
      | Some (ns, svc) =>
          if String.eqb ns EmptyString || String.eqb svc EmptyString || has_byte "." svc
          then None else Some (ns, svc)
      end
  end.

(** [SnapshotHash], of a policy whose JSON is [enc_policy]. *)
Definition SnapshotHash {V} `{Wire V} (p : Policy.Policy) : string :=
  hex_encode (sha256 (enc_policy p)).

(** [serviceRef]. *)
Abbreviation serviceRef := (string * string)%type.

(** ** Properties *)

(** [splitServiceKey] reads a namespace and a Service out of exactly the
    keys the prefix, the namespace, one dot and the Service make, neither part
    empty and neither holding a dot; anything else, a probe key or a key with
    a third part, is skipped rather than misread. *)
Theorem splitServiceKey_iff (prefix key ns svc : string) :
  splitServiceKey prefix key = Some (ns, svc) <->
  key = prefix +:+ ns +:+ "." +:+ svc /\
  ns <> EmptyString /\ svc <> EmptyString /\ has_byte "." ns = false /\ has_byte "." svc = false.
Proof.
  unfold splitServiceKey. split.
  - intros H. destruct (cut_prefix prefix key) as [rest|] eqn:E1; [|done].
    apply cut_prefix_Some in E1 as ->.
    destruct (cut "." rest) as [[a b]|] eqn:E2; [|done].
    apply cut_Some in E2 as [-> Ha].
    destruct (String.eqb_spec a ""), (String.eqb_spec b ""), (has_byte "." b) eqn:Hb;
      simpl in H; try done. by injection H as -> ->.
  - intros (-> & Hns & Hsvc & Dns & Dsvc).
    change ("." +:+ svc) with (String "." svc). rewrite cut_prefix_app, cut_app by done.
    by rewrite (proj2 (String.eqb_neq _ _) Hns), (proj2 (String.eqb_neq _ _) Hsvc), Dsvc.
Qed.

Lemma str_app_length_inj (a b x y : string) :
  String.length a = String.length x -> a +:+ b = x +:+ y -> a = x /\ b = y.
Proof.
  revert x. induction a as [|c a IH]; intros [|d x] Hl H; simpl in *; try done.
  injection Hl as Hl. injection H as -> H. destruct (IH _ Hl H) as [-> ->]. done.
Qed.

(** A field is recovered, and what follows it, from the concatenation. *)
Lemma scope_field_inj (a b x y : string) :
  scope_field a +:+ x = scope_field b +:+ y -> a = b /\ x = y.
Proof.
  unfold scope_field. rewrite !str_app_assoc.
  change (":" +:+ a +:+ x) with (String ":" (a +:+ x)).
  change (":" +:+ b +:+ y) with (String ":" (b +:+ y)). intros H.
  apply app_sep_inj in H as [Hlen H];
    [|apply (all_bytes_no_byte is_digit); [apply pretty_Z_digits, byte_len_nonneg|done]..].
  apply (inj pretty) in Hlen. unfold byte_len in Hlen.
  by apply str_app_length_inj in H; [|lia].
Qed.

(** The scope hashed into a receipt key determines the principal, the
    namespace, the Service and the client's key: no value can be read as part
    of the one beside it, so two different requests share a key only where
    the hash itself collides. *)
Theorem receipt_scope_inj (p n s k p' n' s' k' : string) :
  receipt_scope p n s k = receipt_scope p' n' s' k' -> p = p' /\ n = n' /\ s = s' /\ k = k'.
Proof.
  unfold receipt_scope. intros H.
  apply scope_field_inj in H as [-> H]. apply scope_field_inj in H as [-> H].
  apply scope_field_inj in H as [-> H].
  rewrite <-(str_app_nil_r (scope_field k)), <-(str_app_nil_r (scope_field k')) in H.
  by apply scope_field_inj in H as [-> _].
Qed.

Lemma receipt_scope_inj_witness :
  receipt_scope "a" "b" "c" "d" = receipt_scope "a" "b" "c" "d" /\
  ("a" = "a" /\ "b" = "b" /\ "c" = "c" /\ "d" = "d").
Proof.
  split; [reflexivity|].
  apply (receipt_scope_inj "a" "b" "c" "d" "a" "b" "c" "d"). reflexivity.
Defined.

Lemma substring_length_le (n m : nat) (s : string) :
  (n + m <= String.length s)%nat -> String.length (String.substring n m s) = m.
Proof.
  revert n m. induction s as [|c s IH]; intros [|n] [|m] H; simpl in *; try lia; try done.
  - rewrite IH; simpl; lia.
  - rewrite IH; lia.
  - rewrite IH; lia.
Qed.

(** A receipt key is always the prefix and 32 characters. *)
Lemma ReceiptKey_length (p n s k : string) : String.length (ReceiptKey p n s k) = 37%nat.
Proof.
  unfold ReceiptKey. rewrite str_length_app, substring_length_le; [done|].
  rewrite hex_encode_length, length_sha256. simpl. lia.
Qed.

(** The slot key of a Service decides the Service and the slot's start in
    Unix seconds, so two replicas contend on one key exactly when they fire the
    same slot of the same Service. *)
Theorem slotKey_inj (ns svc ns' svc' : string) (t t' : time) :
  has_byte "." ns = false -> has_byte "." ns' = false ->
  has_byte "." svc = false -> has_byte "." svc' = false ->
  slotKey ns svc t = slotKey ns' svc' t' <-> ns = ns' /\ svc = svc' /\ unix t = unix t'.
Proof.
  intros H1 H2 H3 H4. unfold slotKey. split; [|by intros (-> & -> & ->)].
  intros H. apply (inj (String.append slotPrefix)) in H.
  apply app_sep_inj in H as [-> H]; [|done..].
  apply app_sep_inj in H as [-> H]; [|done..].
  by apply (inj pretty) in H as ->.
Qed.

Lemma slotKey_inj_witness :
  (has_byte "." "shop" = false /\ has_byte "." "cart" = false) /\
  (slotKey "shop" "cart" 5 = slotKey "shop" "cart" 7
   <-> "shop" = "shop" /\ "cart" = "cart" /\ unix 5 = unix 7).
Proof.
  split; [split; reflexivity|].
  apply (slotKey_inj "shop" "cart" "shop" "cart" 5 7); reflexivity.
Defined.

Lemma jobKey_inj (a b : string) : jobKey a = jobKey b -> a = b.
Proof. unfold jobKey. intros H. by apply (inj (String.append jobPrefix)) in H. Qed.

Lemma activeKey_inj (ns svc ns' svc' : string) :
  has_byte "." ns = false -> has_byte "." ns' = false ->
  activeKey ns svc = activeKey ns' svc' -> ns = ns' /\ svc = svc'.
Proof.
  intros H1 H2 H. unfold activeKey in H. apply (inj (String.append activePrefix)) in H.
  by apply app_sep_inj in H.
Qed.

(** The prefixes are pairwise disjoint: a key of one kind is never one of another. *)
Lemma jobKey_not_activeKey (id ns svc : string) : jobKey id <> activeKey ns svc.
Proof. discriminate. Qed.

Lemma jobKey_not_receipt (id p n s k : string) : jobKey id <> ReceiptKey p n s k.
Proof. discriminate. Qed.

Lemma activeKey_not_receipt (ns svc p n s k : string) : activeKey ns svc <> ReceiptKey p n s k.
Proof. discriminate. Qed.
