(* ===== verification/Caches.v ===== *)
(** * The watched caches

    src/internal/pgo/caches.go: the four views a replica decides from, how an
    entry of a watch is folded into one, the guarded reads, and the paged
    Collection listing.  The mutex makes each method one step on the record
    [Caches]; [client.Generation()] is the argument [cur] of a guarded read. *)

From S2P Require Import Prelude Effects Ident Config Policy Records Sha256 Keys.

Record cachedOverride := { co_Revision : N; co_Stored : StoredOverride }.

Record cachedJob := {
  cj_Namespace : string;
  cj_Service : string;
  cj_State : State;
  cj_Revision : N;
  cj_Origin : Origin;
  cj_Attempt : Z;
  cj_ResolvedVersion : string;
  cj_CreatedAt : time;
  cj_Artifact : string;
  cj_FinishedAt : option time;
  cj_ExpiresAt : option time;
  cj_ClaimBy : time;
  cj_LeaseUntil : option time;
  cj_Deadline : option time
}.

Record cachedActive := { ca_ID : string; ca_Revision : N; ca_Created : time }.
Record cachedSlot := { cs_RetainUntil : time; cs_Revision : N }.

Definition terminal (s : State) : bool :=
  match s with
  | StateCompleted | StateFailed | StateCancelled | StateExpired => true
  | StateInitializing | StatePending | StateRunning => false
  | StateOther _ => false
  end.

(** The four caches; [cacheCount] is the length of the two arrays. *)
Inductive cacheKind := cacheOverrides | cacheJobs | cacheActive | cacheSlots.

#[export] Instance cacheKind_eq_dec : EqDecision cacheKind.
Proof. solve_decision. Defined.

Definition cacheKinds : list cacheKind := [cacheOverrides; cacheJobs; cacheActive; cacheSlots].

(** One delivery of a watch, [natskv.Entry]: [None] for the value of a deletion. *)
Record watch_entry (V : Type) := WatchEntry {
  we_Key : string;
  we_Value : option V;
  we_Revision : N;
  we_Created : time;
  we_Generation : N;
  we_Synced : bool
}.
Arguments WatchEntry {V} _ _ _ _ _ _.
Arguments we_Key {V} _.
Arguments we_Value {V} _.
Arguments we_Revision {V} _.
Arguments we_Created {V} _.
Arguments we_Generation {V} _.
Arguments we_Synced {V} _.

(** [Caches].  A channel with a buffer of one is whether the buffer is full; a
    subscriber's channel is named by a number. *)
Record Caches := {
  overrides : gmap string cachedOverride;
  jobs : gmap string cachedJob;
  active : gmap serviceRef cachedActive;
  byService : gmap serviceRef (gset string);
  slots : gmap string cachedSlot;
  gen : cacheKind -> N;
  synced : cacheKind -> bool;
  client : bool;
  jobPulse : bool;
  subscribers : gmap string (gmap N bool)
}.

Definition NewCaches : Caches :=
  {| overrides := ∅; jobs := ∅; active := ∅; byService := ∅; slots := ∅;
     gen := fun _ => 0%N; synced := fun _ => false; client := false; jobPulse := false;
     subscribers := ∅ |}.

(** ** Assignments to one field *)

Definition set_overrides (m : gmap string cachedOverride) (c : Caches) : Caches :=
  {| overrides := m; jobs := jobs c; active := active c; byService := byService c;
     slots := slots c; gen := gen c; synced := synced c; client := client c;
     jobPulse := jobPulse c; subscribers := subscribers c |}.
Definition set_jobs (m : gmap string cachedJob) (i : gmap serviceRef (gset string)) (c : Caches) :
    Caches :=
  {| overrides := overrides c; jobs := m; active := active c; byService := i;
     slots := slots c; gen := gen c; synced := synced c; client := client c;
     jobPulse := jobPulse c; subscribers := subscribers c |}.
Definition set_active (m : gmap serviceRef cachedActive) (c : Caches) : Caches :=
  {| overrides := overrides c; jobs := jobs c; active := m; byService := byService c;
     slots := slots c; gen := gen c; synced := synced c; client := client c;
     jobPulse := jobPulse c; subscribers := subscribers c |}.
Definition set_slots (m : gmap string cachedSlot) (c : Caches) : Caches :=
  {| overrides := overrides c; jobs := jobs c; active := active c; byService := byService c;
     slots := m; gen := gen c; synced := synced c; client := client c;
     jobPulse := jobPulse c; subscribers := subscribers c |}.
Definition set_barrier (g : cacheKind -> N) (s : cacheKind -> bool) (c : Caches) : Caches :=
  {| overrides := overrides c; jobs := jobs c; active := active c; byService := byService c;
     slots := slots c; gen := g; synced := s; client := client c;
     jobPulse := jobPulse c; subscribers := subscribers c |}.
Definition set_pulses (p : bool) (m : gmap string (gmap N bool)) (c : Caches) : Caches :=
  {| overrides := overrides c; jobs := jobs c; active := active c; byService := byService c;
     slots := slots c; gen := gen c; synced := synced c; client := client c;
     jobPulse := p; subscribers := m |}.

(** ** Subscriptions *)

(** [Subscribe], registering the channel [ch], and the function it returns. *)
Definition Subscribe (id : string) (ch : N) (c : Caches) : Caches :=
  set_pulses (jobPulse c)
    (<[id := <[ch := false]> (default ∅ (subscribers c !! id))]> (subscribers c)) c.

Definition Unsubscribe (id : string) (ch : N) (c : Caches) : Caches :=
  match subscribers c !! id with
  | None => c
  | Some byID =>
      let byID' := delete ch byID in
      set_pulses (jobPulse c)
        (if decide (byID' = ∅) then delete id (subscribers c)
         else <[id := byID']> (subscribers c)) c
  end.

(** [pulseSubscribers]: the non-blocking sends leave every buffer full. *)
Definition pulseSubscribers (key : string) (c : Caches) : Caches :=
  match cut_prefix jobPrefix key with
  | None => c
  | Some id =>
      match subscribers c !! id with
      | None => c
      | Some byID => set_pulses (jobPulse c) (<[id := (fun _ => true) <$> byID]> (subscribers c)) c
      end
  end.

(** ** Folding the entries of a watch *)

(** [startAttempt]. *)
Definition startAttempt (c : Caches) : Caches :=
  {| overrides := overrides c; jobs := jobs c; active := active c; byService := byService c;
     slots := slots c; gen := gen c; synced := fun _ => false; client := true;
     jobPulse := jobPulse c; subscribers := subscribers c |}.

Definition reset (kind : cacheKind) (c : Caches) : Caches :=
  match kind with
  | cacheOverrides => set_overrides ∅ c
  | cacheJobs => set_jobs ∅ ∅ c
  | cacheActive => set_active ∅ c
  | cacheSlots => set_slots ∅ c
  end.

Definition deleteJob (key : string) (c : Caches) : Caches :=
  match jobs c !! key with
  | None => c
  | Some job =>
      let ref := (cj_Namespace job, cj_Service job) in
      let keys := default ∅ (byService c !! ref) ∖ {[key]} in
      set_jobs (delete key (jobs c))
        (if decide (keys = ∅) then delete ref (byService c)
         else <[ref := keys]> (byService c)) c
  end.

Section apply.
  Context {V : Type} `{Wire V}.

(** [applyOverride]. *)
Definition applyOverride (e : watch_entry V) (c : Caches) : Caches :=
  match splitServiceKey overridePrefix (we_Key e) with
  | None => c
  | Some _ =>
      match we_Value e with
      | None => set_overrides (delete (we_Key e) (overrides c)) c
      | Some v =>
          match dec_override v with
          | None => set_overrides (delete (we_Key e) (overrides c)) c
          | Some stored =>
              set_overrides
                (<[we_Key e := {| co_Revision := we_Revision e; co_Stored := stored |}]>
                   (overrides c)) c
          end
      end
  end.

(** The part of a record the cache keeps. *)
Definition cached_of (rec : Job) (revision : N) : cachedJob :=
  {| cj_Namespace := j_Namespace rec; cj_Service := j_Service rec; cj_State := j_State rec;
     cj_Revision := revision; cj_Origin := j_Origin rec; cj_Attempt := j_Attempt rec;
     cj_ResolvedVersion := j_ResolvedVersion rec; cj_CreatedAt := j_CreatedAt rec;
     cj_Artifact :=
       match j_Artifact rec with None => EmptyString | Some a => ar_Object a end;
     cj_FinishedAt := j_FinishedAt rec; cj_ExpiresAt := j_ExpiresAt rec;
     cj_ClaimBy := j_ClaimBy rec; cj_LeaseUntil := j_LeaseUntil rec;
     cj_Deadline := j_Deadline rec |}.

(** The end of [applyJob]: one record put in the map and in its Service's index. *)
Definition recordJob (key : string) (job : cachedJob) (c : Caches) : Caches :=
  let c1 :=
    match jobs c !! key with
    | Some prev =>
        if negb (String.eqb (cj_Namespace prev) (cj_Namespace job))
           || negb (String.eqb (cj_Service prev) (cj_Service job))
        then deleteJob key c else c
    | None => c
    end in
  let ref := (cj_Namespace job, cj_Service job) in
  set_jobs (<[key := job]> (jobs c1))
    (<[ref := default ∅ (byService c1 !! ref) ∪ {[key]}]> (byService c1)) c1.

(** [applyJob]. *)
Definition applyJob (e : watch_entry V) (c : Caches) : Caches :=
  match cut_prefix jobPrefix (we_Key e) with
  | None => c
  | Some id =>
      if negb (ValidID id) then c
      else
        match we_Value e with
        | None => deleteJob (we_Key e) c
        | Some v =>
            match dec_job v with
            | None => deleteJob (we_Key e) c
            | Some rec =>
                recordJob (we_Key e) (cached_of rec (we_Revision e)) c
            end
        end
  end.

(** [applyActive]. *)
Definition applyActive (e : watch_entry V) (c : Caches) : Caches :=
  match splitServiceKey activePrefix (we_Key e) with
  | None => c
  | Some ref =>
      match we_Value e with
      | None => set_active (delete ref (active c)) c
      | Some v =>
          match dec_active v with
          | None => set_active (delete ref (active c)) c
          | Some a =>
              set_active
                (<[ref := {| ca_ID := av_ID a; ca_Revision := we_Revision e;
                             ca_Created := we_Created e |}]> (active c)) c
          end
      end
  end.

(** [applySlot]. *)
Definition applySlot (e : watch_entry V) (c : Caches) : Caches :=
  if negb (has_prefix slotPrefix (we_Key e)) then c
  else
    match we_Value e with
    | None => set_slots (delete (we_Key e) (slots c)) c
    | Some v =>
        match dec_slot v with
        | None => set_slots (delete (we_Key e) (slots c)) c
        | Some s =>
            set_slots
              (<[we_Key e := {| cs_RetainUntil := sv_RetainUntil s;
                                cs_Revision := we_Revision e |}]> (slots c)) c
        end
    end.

(** [apply]. *)
Definition apply (kind : cacheKind) (e : watch_entry V) (c : Caches) : Caches :=
  let c1 :=
    if (we_Generation e =? gen c kind)%N then c
    else reset kind
           (set_barrier (<[kind := we_Generation e]> (gen c)) (<[kind := false]> (synced c)) c) in
  if we_Synced e then set_barrier (gen c1) (<[kind := true]> (synced c1)) c1
  else
    match kind with
    | cacheOverrides => applyOverride e c1
    | cacheJobs =>
        let c2 := pulseSubscribers (we_Key e) (applyJob e c1) in
        set_pulses true (subscribers c2) c2
    | cacheActive => applyActive e c1
    | cacheSlots => applySlot e c1
    end.

(** [consume], of the entries a watch has delivered so far. *)
Fixpoint consume (kind : cacheKind) (l : list (watch_entry V)) (c : Caches) : Caches :=
  match l with
  | [] => c
  | e :: l' => consume kind l' (apply kind e c)
  end.
End apply.

(** ** The guarded reads *)

(** [Synced]. *)
Definition Synced (g : N) (c : Caches) : bool :=
  forallb (fun kind => synced c kind && (gen c kind =? g)%N) cacheKinds.

(** [syncedLocked]; [cur] is what [client.Generation()] answers. *)
Definition syncedLocked (cur g : N) (kinds : list cacheKind) (c : Caches) : bool :=
  if negb (client c) || negb (cur =? g)%N then false
  else forallb (fun kind => synced c kind && (gen c kind =? g)%N) kinds.

(** [overrideSnapshot]. *)
Definition overrideSnapshot (c : Caches) : gmap serviceRef cachedOverride :=
  list_to_map
    (omap (fun '(key, o) => (fun ref => (ref, o)) <$> splitServiceKey overridePrefix key)
       (map_to_list (overrides c))).

Definition job_ref (j : cachedJob) : serviceRef := (cj_Namespace j, cj_Service j).

(** [liveLocked]. *)
Definition liveLocked (ref : serviceRef) (c : Caches) : bool :=
  match active c !! ref with
  | Some _ => true
  | None =>
      existsb (fun '(_, j) => bool_decide (job_ref j = ref) && negb (terminal (cj_State j)))
        (map_to_list (jobs c))
  end.

(** [Live]. *)
Definition Live (cur g : N) (ns svc : string) (c : Caches) : bool * bool :=
  if negb (syncedLocked cur g [cacheActive; cacheJobs] c) then (false, false)
  else (liveLocked (ns, svc) c, true).

(** The set [cachedLive] counts. *)
Definition live_set (c : Caches) : gset serviceRef :=
  dom (active c) ∪
  list_to_set (omap (fun '(_, j) => if terminal (cj_State j) then None else Some (job_ref j))
    (map_to_list (jobs c))).

(** [cachedLive]. *)
Definition cachedLive (cur g : N) (c : Caches) : Z * bool :=
  if negb (syncedLocked cur g [cacheActive; cacheJobs] c) then (0, false)
  else (Z.of_nat (size (live_set c)), true).

(** [strings.Compare] and [time.Time.Compare]. *)
Definition str_compare (a b : string) : Z :=
  match String.compare a b with Lt => -1 | Eq => 0 | Gt => 1 end.
Definition time_compare (t u : time) : Z := if t <? u then -1 else if u <? t then 1 else 0.

(** [nonterminalJobs]; a candidate is its identifier and the cached record. *)
Definition candidate_le (a b : string * cachedJob) : Prop := str_compare a.1 b.1 <= 0.
#[export] Instance candidate_le_dec : RelDecision candidate_le.
Proof. intros a b. unfold candidate_le. apply _. Defined.

Definition nonterminalJobs (c : Caches) : list (string * cachedJob) :=
  merge_sort candidate_le
    (omap (fun '(key, j) =>
       if terminal (cj_State j) then None else (fun id => (id, j)) <$> cut_prefix jobPrefix key)
       (map_to_list (jobs c))).

Definition hasJob (id : string) (c : Caches) : bool :=
  bool_decide (is_Some (jobs c !! jobKey id)).

Definition Override (cur g : N) (ns svc : string) (c : Caches) :
    option PolicyOverride * N * bool :=
  if negb (syncedLocked cur g [cacheOverrides] c) then (None, 0%N, false)
  else match overrides c !! overrideKey ns svc with
       | None => (None, 0%N, true)
       | Some o => (so_Policy (co_Stored o), co_Revision o, true)
       end.

Definition activeID (ns svc : string) (c : Caches) : option string :=
  ca_ID <$> (active c !! (ns, svc)).

(** [jobEntries], [activeEntries] and [slotEntries]: a copy of one map. *)
Definition jobEntries (c : Caches) : gmap string cachedJob := jobs c.
Definition activeEntries (c : Caches) : gmap serviceRef cachedActive := active c.
Definition slotEntries (c : Caches) : gmap string cachedSlot := slots c.

(** ** The Collection listing *)

Record CollectionView := {
  vw_ID : string;
  vw_Origin : Origin;
  vw_State : State;
  vw_Attempt : Z;
  vw_ResolvedVersion : string;
  vw_CreatedAt : time;
  vw_FinishedAt : option time;
  vw_ExpiresAt : option time
}.

Definition MaxListCollections : Z := 100.

Record CollectionPosition := { pos_CreatedAt : time; pos_ID : string }.

(** [CollectionQuery]; [q_Origin] is [None] for the empty origin. *)
Record CollectionQuery := {
  q_States : list State;
  q_Since : time;
  q_Origin : option Origin;
  q_After : CollectionPosition;
  q_Limit : Z
}.

(** [admits]. *)
Definition admits (q : CollectionQuery) (j : cachedJob) : bool :=
  if (0 <? Z.of_nat (length (q_States q))) && negb (bool_decide (cj_State j ∈ q_States q)) then false
  else if negb (q_Since q =? zero_time) && before (cj_CreatedAt j) (q_Since q) then false
  else match q_Origin q with
       | None => true
       | Some o => bool_decide (o = cj_Origin j)
       end.

(** [compareListing]. *)
Definition compareListing (a b : CollectionPosition) : Z :=
  let cmp := time_compare (pos_CreatedAt b) (pos_CreatedAt a) in
  if negb (cmp =? 0) then cmp else str_compare (pos_ID b) (pos_ID a).

Definition view_pos (v : CollectionView) : CollectionPosition :=
  {| pos_CreatedAt := vw_CreatedAt v; pos_ID := vw_ID v |}.

Definition view_of (id : string) (j : cachedJob) : CollectionView :=
  {| vw_ID := id; vw_Origin := cj_Origin j; vw_State := cj_State j; vw_Attempt := cj_Attempt j;
     vw_ResolvedVersion := cj_ResolvedVersion j; vw_CreatedAt := cj_CreatedAt j;
     vw_FinishedAt := cj_FinishedAt j; vw_ExpiresAt := cj_ExpiresAt j |}.

Definition view_le (a b : CollectionView) : Prop := compareListing (view_pos a) (view_pos b) <= 0.
#[export] Instance view_le_dec : RelDecision view_le.
Proof. intros a b. unfold view_le. apply _. Defined.

(** The body of the listing's loop, of one key of the Service's index. *)
Definition list_entry (q : CollectionQuery) (c : Caches) (key : string) : option CollectionView :=
  match jobs c !! key with
  | None => None
  | Some j =>
      match cut_prefix jobPrefix key with
      | None => None
      | Some id =>
          if negb (admits q j) then None
          else if negb (String.eqb (pos_ID (q_After q)) EmptyString)
                  && (compareListing {| pos_CreatedAt := cj_CreatedAt j; pos_ID := id |} (q_After q)
                        <=? 0)
          then None
          else Some (view_of id j)
      end
  end.

(** [Collections]: the page, whether entries follow it, and whether the cache
    answered. *)
Definition Collections (cur g : N) (ns svc : string) (q : CollectionQuery) (c : Caches) :
    list CollectionView * bool * bool :=
  let limit :=
    if (q_Limit q <=? 0) || (MaxListCollections <? q_Limit q) then MaxListCollections
    else q_Limit q in
  if negb (syncedLocked cur g [cacheJobs] c) then ([], false, false)
  else
    let keys := default ∅ (byService c !! (ns, svc)) in
    let out := merge_sort view_le (omap (list_entry q c) (elements keys)) in
    if limit <? Z.of_nat (length out) then (take (Z.to_nat limit) out, true, true)
    else (out, false, true).

(** ** The order of the listing *)

Lemma str_compare_refl (a : string) : str_compare a a = 0.
Proof.
  unfold str_compare. assert (String.compare a a = Eq) as ->; [|done].
  induction a as [|x a IH]; [done|]. simpl. unfold Ascii.compare. by rewrite N.compare_refl.
Qed.

Lemma str_compare_le (a b : string) : str_compare a b <= 0 <-> String.le a b.
Proof.
  unfold str_compare, String.le, String.leb, Is_true.
  destruct (String.compare a b); split; (done || lia).
Qed.

Lemma str_compare_eq (a b : string) : str_compare a b = 0 <-> a = b.
Proof.
  split; [|intros ->; apply str_compare_refl]. unfold str_compare.
  destruct (String.compare a b) eqn:E; [|done..]. intros _. by apply String.compare_eq_iff.
Qed.

Lemma str_compare_sign (a b : string) : str_compare b a = - str_compare a b.
Proof.
  unfold str_compare. rewrite (String.compare_antisym b a). by destruct (String.compare a b).
Qed.

Lemma compareListing_le (a b : CollectionPosition) :
  compareListing a b <= 0 <->
  pos_CreatedAt b < pos_CreatedAt a \/
  (pos_CreatedAt a = pos_CreatedAt b /\ String.le (pos_ID b) (pos_ID a)).
Proof.
  rewrite <-str_compare_le. unfold compareListing, time_compare. cbv zeta.
  repeat (case_match; to_prop); try lia.
Qed.

Lemma compareListing_eq (a b : CollectionPosition) : compareListing a b = 0 <-> a = b.
Proof.
  destruct a as [t i], b as [u j].
  unfold compareListing, time_compare; simpl. split.
  - intros E. repeat (case_match; to_prop); try lia.
    assert (j = i) as -> by (by apply str_compare_eq). f_equal; lia.
  - injection 1 as -> ->. rewrite Z.ltb_irrefl. simpl. apply str_compare_refl.
Qed.

Lemma compareListing_sign (a b : CollectionPosition) :
  compareListing b a = - compareListing a b.
Proof.
  unfold compareListing, time_compare. cbv zeta. rewrite str_compare_sign.
  repeat (case_match; to_prop); lia.
Qed.

Lemma compareListing_trans (a b c : CollectionPosition) :
  compareListing a b <= 0 -> compareListing b c <= 0 -> compareListing a c <= 0.
Proof.
  rewrite !compareListing_le.
  intros [H|[H H']] [K|[K K']]; [left; lia..|right]. split; [lia|]. by trans (pos_ID b).
Qed.

Lemma compareListing_gt_trans (a b c : CollectionPosition) :
  0 < compareListing a b -> 0 < compareListing b c -> 0 < compareListing a c.
Proof.
  rewrite (compareListing_sign b a), (compareListing_sign c b), (compareListing_sign c a).
  intros Hab Hbc. pose proof (compareListing_trans c b a ltac:(lia) ltac:(lia)).
  destruct (decide (compareListing c a = 0)) as [E|]; [|lia].
  apply compareListing_eq in E as ->. rewrite (compareListing_sign b a) in Hbc. lia.
Qed.

#[export] Instance view_le_trans : Transitive view_le.
Proof. intros a b c. unfold view_le. apply compareListing_trans. Qed.
#[export] Instance view_le_total : Total view_le.
Proof. intros a b. unfold view_le. rewrite (compareListing_sign (view_pos a) (view_pos b)). lia. Qed.
#[export] Instance candidate_le_trans : Transitive candidate_le.
Proof. intros a b c. unfold candidate_le. rewrite !str_compare_le. by etrans. Qed.
#[export] Instance candidate_le_total : Total candidate_le.
Proof. intros a b. unfold candidate_le. rewrite (str_compare_sign a.1 b.1). lia. Qed.

(** [a] comes before [b] in the listing, and is not [b]. *)
Definition listed_before (a b : CollectionView) : Prop :=
  compareListing (view_pos a) (view_pos b) < 0.

(** A sort of entries with distinct identifiers is strict. *)
Lemma sorted_strict (l : list CollectionView) :
  StronglySorted view_le l -> NoDup (vw_ID <$> l) -> StronglySorted listed_before l.
Proof.
  induction 1 as [|x l Hs IH Hx]; [constructor|]. simpl. intros [Hnew Hd]%NoDup_cons.
  constructor; [by apply IH|]. rewrite Forall_forall in Hx |- *. intros y Hy.
  specialize (Hx y Hy). unfold view_le in Hx. unfold listed_before.
  destruct (decide (compareListing (view_pos x) (view_pos y) = 0)) as [E|]; [|lia].
  apply compareListing_eq in E. injection E as _ E. destruct Hnew. rewrite E.
  by apply list_elem_of_fmap_2.
Qed.

Lemma list_entry_Some (q : CollectionQuery) (c : Caches) (key : string) (v : CollectionView) :
  list_entry q c key = Some v <->
  exists id j, key = jobKey id /\ jobs c !! key = Some j /\ admits q j = true /\
    v = view_of id j /\
    (pos_ID (q_After q) = EmptyString \/ 0 < compareListing (view_pos v) (q_After q)).
Proof.
  unfold list_entry. split.
  - intros E. destruct (jobs c !! key) as [j|]; [|done].
    destruct (cut_prefix jobPrefix key) as [id|] eqn:Ek; [|done].
    apply cut_prefix_Some in Ek. destruct (admits q j) eqn:Ea; [|done]. simpl in E.
    destruct (String.eqb_spec (pos_ID (q_After q)) ""); simpl in E.
    + injection E as <-. exists id, j. unfold jobKey. by auto 10.
    + destruct (Z.leb_spec (compareListing {| pos_CreatedAt := cj_CreatedAt j; pos_ID := id |}
        (q_After q)) 0); [done|]. injection E as <-.
      exists id, j. unfold jobKey. by auto 10.
  - intros (id & j & -> & Hj & Ha & -> & Hp). rewrite Hj. unfold jobKey.
    rewrite cut_prefix_app, Ha. simpl.
    destruct (String.eqb_spec (pos_ID (q_After q)) ""); simpl; [done|].
    destruct Hp as [?|Hp]; [done|]. unfold view_pos in Hp. simpl in Hp.
    by destruct (Z.leb_spec (compareListing {| pos_CreatedAt := cj_CreatedAt j; pos_ID := id |}
      (q_After q)) 0); [lia|].
Qed.

(** ** The index follows the records *)

(** [byService] holds, for each Service, exactly the keys of its records, and
    no Service's set is kept once it is empty. *)
Definition index_ok (c : Caches) : Prop :=
  forall ref,
    (forall key, key ∈ default ∅ (byService c !! ref) <->
      exists j, jobs c !! key = Some j /\ job_ref j = ref) /\
    byService c !! ref <> Some ∅.

Lemma NewCaches_index : index_ok NewCaches.
Proof.
  intros ref. simpl. rewrite lookup_empty. split; [|done]. intros key. rewrite lookup_empty.
  set_solver.
Qed.

Lemma deleteJob_index (key : string) (c : Caches) : index_ok c -> index_ok (deleteJob key c).
Proof.
  intros Hc. unfold deleteJob. destruct (jobs c !! key) as [job|] eqn:Ej; [|done].
  intros ref. destruct (Hc ref) as [Hr Hne]. simpl.
  assert (job_ref job = ref \/ job_ref job <> ref) as [<-|Hneq] by (destruct (decide (job_ref job = ref)); auto).
  - change (cj_Namespace job, cj_Service job) with (job_ref job).
    set (keys := default ∅ (byService c !! job_ref job) ∖ {[key]}).
    assert (forall k, k ∈ keys <->
      exists j, delete key (jobs c) !! k = Some j /\ job_ref j = job_ref job) as Hk.
    { unfold keys. intros k. rewrite elem_of_difference, Hr, elem_of_singleton.
      setoid_rewrite lookup_delete_Some.
      split; [intros [(j & ? & ?) ?]|intros (j & [? ?] & ?)]; eauto 10. }
    destruct (decide (keys = ∅)) as [He|He].
    + rewrite lookup_delete_eq. split; [|done]. intros k. by rewrite <-Hk, He.
    + rewrite lookup_insert_eq. split; [done|]. congruence.
  - assert ((if decide (default ∅ (byService c !! job_ref job) ∖ {[key]} = ∅)
      then delete (job_ref job) (byService c)
      else <[job_ref job := default ∅ (byService c !! job_ref job) ∖ {[key]}]> (byService c)) !! ref
      = byService c !! ref) as Hl
      by (case_decide; [by rewrite lookup_delete_ne|by rewrite lookup_insert_ne]).
    change (cj_Namespace job, cj_Service job) with (job_ref job).
    rewrite Hl. split; [|done]. intros k. rewrite Hr. setoid_rewrite lookup_delete_Some.
    split; [intros (j & Hj & Hjr); exists j; repeat split; [|done..]; congruence|].
    intros (j & [? ?] & ?). eauto.
Qed.

(** Recording a record under a key that holds none, or one of the same Service. *)
Lemma insert_index (key : string) (job : cachedJob) (c : Caches) :
  index_ok c -> (forall prev, jobs c !! key = Some prev -> job_ref prev = job_ref job) ->
  index_ok (set_jobs (<[key := job]> (jobs c))
    (<[job_ref job := default ∅ (byService c !! job_ref job) ∪ {[key]}]> (byService c)) c).
Proof.
  intros Hc Hsame ref. destruct (Hc ref) as [Hr Hne]. simpl.
  destruct (decide (job_ref job = ref)) as [<-|Hneq].
  - rewrite lookup_insert_eq. simpl. split; [|intros [= E]; set_solver].
    intros k. rewrite elem_of_union, Hr, elem_of_singleton. setoid_rewrite lookup_insert_Some.
    destruct (decide (k = key)) as [->|Hk].
    + split; [|by auto]. intros _. eauto.
    + split; [intros [(j & ? & ?)|?]; [by eauto 10|done]|].
      intros (j & [[? ?]|[? ?]] & ?); [done|eauto].
  - rewrite lookup_insert_ne by done. split; [|done]. intros k. rewrite Hr.
    setoid_rewrite lookup_insert_Some. split.
    + intros (j & Hj & Hjr). exists j. split; [|done]. right. split; [|done]. intros ->.
      apply Hneq. rewrite <-Hjr. symmetry. by apply Hsame.
    + intros (j & [[? <-]|[? ?]] & ?); [done|eauto].
Qed.

Lemma deleteJob_jobs (key : string) (c : Caches) : jobs (deleteJob key c) = delete key (jobs c).
Proof.
  unfold deleteJob. destruct (jobs c !! key) eqn:E; [done|]. by rewrite delete_id.
Qed.

Lemma recordJob_index (key : string) (job : cachedJob) (c : Caches) :
  index_ok c -> index_ok (recordJob key job c).
Proof.
  intros Hc. unfold recordJob. cbv zeta. apply (insert_index key job).
  - destruct (jobs c !! key); [|done]. case_match; [by apply deleteJob_index|done].
  - destruct (jobs c !! key) as [prev|] eqn:Ep; [|congruence]. intros p.
    destruct (String.eqb_spec (cj_Namespace prev) (cj_Namespace job)) as [E1|];
      [destruct (String.eqb_spec (cj_Service prev) (cj_Service job)) as [E2|]|]; simpl.
    + rewrite Ep. intros [= <-]. unfold job_ref. by rewrite E1, E2.
    + rewrite deleteJob_jobs, lookup_delete_eq. done.
    + rewrite deleteJob_jobs, lookup_delete_eq. done.
Qed.

Lemma applyJob_index {V} `{Wire V} (e : watch_entry V) (c : Caches) :
  index_ok c -> index_ok (applyJob e c).
Proof.
  intros Hc. unfold applyJob. destruct (cut_prefix jobPrefix (we_Key e)) as [id|]; [|done].
  destruct (ValidID id); [|done]. cbn [negb].
  destruct (we_Value e) as [v|]; [|by apply deleteJob_index].
  destruct (dec_job v) as [rec|]; [by apply recordJob_index|by apply deleteJob_index].
Qed.

(** The index reads only these two fields. *)
Lemma index_ok_ext (c c' : Caches) :
  jobs c' = jobs c -> byService c' = byService c -> index_ok c -> index_ok c'.
Proof. unfold index_ok. by intros -> ->. Qed.

Lemma pulseSubscribers_fields (key : string) (c : Caches) :
  jobs (pulseSubscribers key c) = jobs c /\ byService (pulseSubscribers key c) = byService c /\
  gen (pulseSubscribers key c) = gen c /\ synced (pulseSubscribers key c) = synced c.
Proof. unfold pulseSubscribers. by repeat case_match. Qed.

Lemma apply_index {V} `{Wire V} (kind : cacheKind) (e : watch_entry V) (c : Caches) :
  index_ok c -> index_ok (apply kind e c).
Proof.
  intros Hc. unfold apply. cbv zeta.
  set (c1 := if (we_Generation e =? gen c kind)%N then c else _).
  assert (index_ok c1) as H1.
  { unfold c1. case_match; [done|].
    destruct kind; simpl; try by eapply index_ok_ext; [..|exact Hc].
    intros ref. by apply NewCaches_index. }
  case_match; [by eapply index_ok_ext; [..|exact H1]|]. destruct kind.
  - eapply index_ok_ext; [..|exact H1]; unfold applyOverride; by repeat case_match.
  - pose proof (pulseSubscribers_fields (we_Key e) (applyJob e c1)) as (E1 & E2 & _).
    eapply index_ok_ext; [exact E1|exact E2|]. by apply applyJob_index.
  - eapply index_ok_ext; [..|exact H1]; unfold applyActive; by repeat case_match.
  - eapply index_ok_ext; [..|exact H1]; unfold applySlot; by repeat case_match.
Qed.

(** What happens to the caches of a replica: an entry of one of the watches, a
    new attempt at the watches, a subscription taken or given up. *)
Inductive cache_event {V} :=
  | Delivered (kind : cacheKind) (e : watch_entry V)
  | Restarted
  | Subscribed (id : string) (ch : N)
  | Unsubscribed (id : string) (ch : N).
Arguments cache_event : clear implicits.

Definition on_event {V} `{Wire V} (c : Caches) (ev : cache_event V) : Caches :=
  match ev with
  | Delivered kind e => apply kind e c
  | Restarted => startAttempt c
  | Subscribed id ch => Subscribe id ch c
  | Unsubscribed id ch => Unsubscribe id ch c
  end.

Lemma on_event_index {V} `{Wire V} (c : Caches) (ev : cache_event V) :
  index_ok c -> index_ok (on_event c ev).
Proof.
  destruct ev; simpl; [apply apply_index|..]; intros Hc.
  - by eapply index_ok_ext; [..|exact Hc].
  - by eapply index_ok_ext; [..|exact Hc].
  - unfold Unsubscribe. case_match; [|done]. by eapply index_ok_ext; [..|exact Hc].
Qed.

Lemma foldl_index {V} `{Wire V} (l : list (cache_event V)) (c : Caches) :
  index_ok c -> index_ok (foldl on_event c l).
Proof. revert c. induction l as [|ev l IH]; intros c Hc; [done|]. by apply IH, on_event_index. Qed.

Lemma consume_foldl {V} `{Wire V} (kind : cacheKind) (l : list (watch_entry V)) (c : Caches) :
  consume kind l c = foldl on_event c (Delivered kind <$> l).
Proof. revert c. induction l as [|e l IH]; intros c; [done|]. apply IH. Qed.

(** Whatever the four watches of a replica deliver, interleaved in any
    order with each other, with new attempts and with subscriptions, the index
    names for each Service exactly the records the job cache holds for it:
    nothing of another Service, and no record missed, so a listing that walks
    the index lists what a walk of every record would. *)
Theorem index_exact {V} `{Wire V} (l : list (cache_event V)) (ref : serviceRef) :
  let c := foldl on_event NewCaches l in
  (forall key, key ∈ default ∅ (byService c !! ref) <->
    exists j, jobs c !! key = Some j /\ job_ref j = ref) /\
  byService c !! ref <> Some ∅.
Proof. exact (foldl_index l NewCaches NewCaches_index ref). Qed.

(** ** A new generation is a rebuild *)

(** What one watch fills: its cache, and the two slots of the barrier. *)
Definition same_view (kind : cacheKind) (c c' : Caches) : Prop :=
  gen c kind = gen c' kind /\ synced c kind = synced c' kind /\
  match kind with
  | cacheOverrides => overrides c = overrides c'
  | cacheJobs => jobs c = jobs c' /\ byService c = byService c'
  | cacheActive => active c = active c'
  | cacheSlots => slots c = slots c'
  end.

(** A fold of an entry reads and writes only the cache of its kind. *)
Definition contents (kind : cacheKind) (c : Caches) :=
  match kind with
  | cacheOverrides => set_overrides (overrides c) NewCaches
  | cacheJobs => set_jobs (jobs c) (byService c) NewCaches
  | cacheActive => set_active (active c) NewCaches
  | cacheSlots => set_slots (slots c) NewCaches
  end.

Lemma same_view_contents (kind : cacheKind) (c c' : Caches) :
  same_view kind c c' <->
  gen c kind = gen c' kind /\ synced c kind = synced c' kind /\ contents kind c = contents kind c'.
Proof.
  unfold same_view, contents. destruct kind; (split; [|intros (? & ? & [=])]); naive_solver congruence.
Qed.

Lemma deleteJob_view (key : string) (c c' : Caches) :
  same_view cacheJobs c c' -> same_view cacheJobs (deleteJob key c) (deleteJob key c').
Proof.
  intros (Hg & Hs & Hj & Hb). unfold deleteJob. rewrite Hj.
  destruct (jobs c' !! key) as [job|] eqn:E; [|by repeat split].
  repeat split; simpl; rewrite ?Hj, ?Hb; done.
Qed.

Lemma recordJob_view (key : string) (job : cachedJob) (c c' : Caches) :
  same_view cacheJobs c c' -> same_view cacheJobs (recordJob key job c) (recordJob key job c').
Proof.
  intros Hv. pose proof Hv as (Hg & Hs & Hj & Hb).
  pose proof (deleteJob_view key c c' Hv) as (Dg & Ds & Dj & Db).
  unfold recordJob. rewrite Hj. destruct (jobs c' !! key) as [prev|]; [case_match|];
    repeat split; simpl; congruence.
Qed.

Lemma applyJob_view {V} `{Wire V} (e : watch_entry V) (c c' : Caches) :
  same_view cacheJobs c c' -> same_view cacheJobs (applyJob e c) (applyJob e c').
Proof.
  intros Hv. unfold applyJob.
  destruct (cut_prefix jobPrefix (we_Key e)) as [id|]; [|done].
  destruct (ValidID id); [|done]. cbn [negb].
  destruct (we_Value e) as [v|]; [|by apply deleteJob_view].
  destruct (dec_job v) as [rec|]; [by apply recordJob_view|by apply deleteJob_view].
Qed.

(** The fold of a whole entry, from views that agree, or of an entry of a
    generation neither cache is at. *)
Lemma apply_view {V} `{Wire V} (kind : cacheKind) (e : watch_entry V) (c c' : Caches) :
  same_view kind c c' \/ (gen c kind <> we_Generation e /\ gen c' kind <> we_Generation e) ->
  same_view kind (apply kind e c) (apply kind e c').
Proof.
  intros Hv. unfold apply. cbv zeta.
  set (c1 := if (we_Generation e =? gen c kind)%N then c else _).
  set (c1' := if (we_Generation e =? gen c' kind)%N then c' else _).
  assert (same_view kind c1 c1') as H1.
  { unfold c1, c1'. destruct Hv as [Hv|[Hn Hn']].
    - pose proof Hv as (Hg & _ & _). rewrite Hg. case_match; [done|].
      destruct kind; repeat split; simpl; by rewrite !fn_lookup_insert.
    - destruct (N.eqb_spec (we_Generation e) (gen c kind)); [congruence|].
      destruct (N.eqb_spec (we_Generation e) (gen c' kind)); [congruence|].
      destruct kind; repeat split; simpl; by rewrite !fn_lookup_insert. }
  clearbody c1 c1'. clear Hv. case_match.
  { destruct H1 as (Hg & Hs & Hk).
    destruct kind; (split; [done|split; [simpl; by rewrite !fn_lookup_insert|done]]). }
  destruct kind.
  - destruct H1 as (Hg & Hs & Hk). unfold applyOverride. rewrite Hk.
    repeat case_match; by repeat split.
  - apply (applyJob_view e) in H1 as (Hg & Hs & Hj & Hb).
    pose proof (pulseSubscribers_fields (we_Key e) (applyJob e c1)) as (P1 & P2 & P3 & P4).
    pose proof (pulseSubscribers_fields (we_Key e) (applyJob e c1')) as (P1' & P2' & P3' & P4').
    repeat split; simpl; congruence.
  - destruct H1 as (Hg & Hs & Hk). unfold applyActive. rewrite Hk.
    repeat case_match; by repeat split.
  - destruct H1 as (Hg & Hs & Hk). unfold applySlot. rewrite Hk.
    repeat case_match; by repeat split.
Qed.

Lemma consume_view {V} `{Wire V} (kind : cacheKind) (l : list (watch_entry V)) (c c' : Caches) :
  same_view kind c c' -> same_view kind (consume kind l c) (consume kind l c').
Proof.
  revert c c'. induction l as [|e l IH]; intros c c' Hv; [done|].
  apply IH, apply_view. by left.
Qed.

(** The first entry of a new generation rebuilds its cache.  What the
    cache holds afterwards, what the index says and whether the replay is
    complete depend on the entries from that one on and on nothing delivered
    before it: no record of an older generation survives a reconnection. *)
Theorem new_generation_rebuilds {V} `{Wire V} (kind : cacheKind) (e : watch_entry V)
    (l : list (watch_entry V)) (c c' : Caches) :
  gen c kind <> we_Generation e -> gen c' kind <> we_Generation e ->
  same_view kind (consume kind (e :: l) c) (consume kind (e :: l) c').
Proof. intros H1 H2. simpl. apply consume_view, apply_view. by right. Qed.

(** ** Properties of the reads *)

(** Every view the listing can show, unsorted and unbounded. *)
Definition matching (ns svc : string) (q : CollectionQuery) (c : Caches) : list CollectionView :=
  merge_sort view_le (omap (list_entry q c) (elements (default ∅ (byService c !! (ns, svc))))).

Lemma omap_list_entry_NoDup (q : CollectionQuery) (c : Caches) (keys : list string) :
  NoDup keys -> NoDup (vw_ID <$> omap (list_entry q c) keys).
Proof.
  induction 1 as [|k keys Hk Hd IH]; [constructor|]. simpl.
  destruct (list_entry q c k) as [v|] eqn:E; [|done]. simpl. apply NoDup_cons. split; [|done].
  intros (v' & Hid & Hin)%list_elem_of_fmap.
  apply list_elem_of_omap in Hin as (k' & Hk' & E').
  apply list_entry_Some in E as (id & j & -> & _ & _ & -> & _).
  apply list_entry_Some in E' as (id' & j' & -> & _ & _ & -> & _).
  simpl in Hid. by subst.
Qed.

Lemma matching_sorted (ns svc : string) (q : CollectionQuery) (c : Caches) :
  StronglySorted listed_before (matching ns svc q c).
Proof.
  apply sorted_strict; [apply StronglySorted_merge_sort; apply _|].
  unfold matching. rewrite merge_sort_Permutation. apply omap_list_entry_NoDup, NoDup_elements.
Qed.

Lemma elem_of_matching (ns svc : string) (q : CollectionQuery) (c : Caches) (v : CollectionView) :
  index_ok c ->
  v ∈ matching ns svc q c <->
  exists id j, jobs c !! jobKey id = Some j /\ job_ref j = (ns, svc) /\ admits q j = true /\
    v = view_of id j /\
    (pos_ID (q_After q) = EmptyString \/ 0 < compareListing (view_pos v) (q_After q)).
Proof.
  intros Hi. unfold matching. rewrite merge_sort_Permutation, list_elem_of_omap.
  destruct (Hi (ns, svc)) as [Hk _].
  setoid_rewrite elem_of_elements. setoid_rewrite Hk. setoid_rewrite list_entry_Some. split.
  - intros (key & (j & Hj & Hr) & id & j' & -> & Hj' & Ha & Hv & Hp).
    assert (j' = j) as -> by congruence. eauto 10.
  - intros (id & j & Hj & Hr & Ha & Hv & Hp). exists (jobKey id). split; eauto 10.
Qed.

Definition page_limit (q : CollectionQuery) : Z :=
  if (q_Limit q <=? 0) || (MaxListCollections <? q_Limit q) then MaxListCollections else q_Limit q.

Lemma page_limit_bounds (q : CollectionQuery) : 1 <= page_limit q <= MaxListCollections.
Proof. unfold page_limit, MaxListCollections. case_match; to_prop; lia. Qed.

Lemma Collections_eq (cur g : N) (ns svc : string) (q : CollectionQuery) (c : Caches) :
  syncedLocked cur g [cacheJobs] c = true ->
  Collections cur g ns svc q c =
    (take (Z.to_nat (page_limit q)) (matching ns svc q c),
     page_limit q <? Z.of_nat (length (matching ns svc q c)), true).
Proof.
  intros Hs. unfold Collections. rewrite Hs. cbn [negb]. fold (page_limit q).
  fold (matching ns svc q c). destruct (Z.ltb_spec (page_limit q)
    (Z.of_nat (length (matching ns svc q c)))); [done|].
  rewrite take_ge; [done|]. pose proof (page_limit_bounds q). lia.
Qed.

(** A page of the listing.  When the job cache answers for the caller's
    generation, the entries that belong to the Service, pass the filters and
    lie behind the position form one list, strictly ordered newest first; the
    page is its first [limit] entries, never more than a hundred, and the flag
    says exactly whether any are left.  A cache that has not replayed, or a
    connection that has moved on, answers nothing. *)
Theorem Collections_page (cur g : N) (ns svc : string) (q : CollectionQuery) (c : Caches) :
  index_ok c ->
  if syncedLocked cur g [cacheJobs] c then
    exists all : list CollectionView,
      (forall v, v ∈ all <-> exists id j,
        jobs c !! jobKey id = Some j /\ job_ref j = (ns, svc) /\ admits q j = true /\
        v = view_of id j /\
        (pos_ID (q_After q) = EmptyString \/ 0 < compareListing (view_pos v) (q_After q))) /\
      StronglySorted listed_before all /\
      exists limit, (1 <= limit <= 100)%nat /\ (1 <= q_Limit q <= 100 -> Z.of_nat limit = q_Limit q) /\
        Collections cur g ns svc q c = (take limit all, bool_decide (limit < length all)%nat, true)
  else Collections cur g ns svc q c = ([], false, false).
Proof.
  intros Hi. destruct (syncedLocked cur g [cacheJobs] c) eqn:Hs; [|unfold Collections; by rewrite Hs].
  exists (matching ns svc q c). split; [by intros v; apply elem_of_matching|].
  split; [apply matching_sorted|]. exists (Z.to_nat (page_limit q)).
  pose proof (page_limit_bounds q) as Hb. unfold MaxListCollections in Hb. split; [lia|]. split.
  - intros Hq. unfold page_limit, MaxListCollections. case_match; to_prop; lia.
  - rewrite Collections_eq by done. do 2 f_equal.
    case_bool_decide; to_prop; [apply Z.ltb_lt|apply Z.ltb_ge]; lia.
Qed.

(** Only valid identifiers are recorded. *)
Definition keys_valid (c : Caches) : Prop :=
  forall id, is_Some (jobs c !! jobKey id) -> ValidID id = true.

Lemma deleteJob_keys (key : string) (c : Caches) : keys_valid c -> keys_valid (deleteJob key c).
Proof.
  intros Hc id. rewrite deleteJob_jobs. intros [j [_ Hj]%lookup_delete_Some]. by apply Hc.
Qed.

Lemma applyJob_keys {V} `{Wire V} (e : watch_entry V) (c : Caches) :
  keys_valid c -> keys_valid (applyJob e c).
Proof.
  intros Hc. unfold applyJob. destruct (cut_prefix jobPrefix (we_Key e)) as [id|] eqn:Ek; [|done].
  apply cut_prefix_Some in Ek. destruct (ValidID id) eqn:Hid; [|done]. cbn [negb].
  destruct (we_Value e) as [v|]; [|by apply deleteJob_keys].
  destruct (dec_job v) as [rec|]; [|by apply deleteJob_keys].
  intros id' [j Hj]. unfold recordJob in Hj. simpl in Hj.
  apply lookup_insert_Some in Hj as [[Hk _]|[_ Hj]].
  - rewrite Ek in Hk. apply jobKey_inj in Hk. by subst.
  - apply Hc. destruct (jobs c !! we_Key e); [|by eauto]. case_match; [|by eauto].
    rewrite deleteJob_jobs in Hj. apply lookup_delete_Some in Hj as [_ Hj]. by eauto.
Qed.

Lemma consume_keys {V} `{Wire V} (kind : cacheKind) (l : list (watch_entry V)) (c : Caches) :
  keys_valid c -> keys_valid (consume kind l c).
Proof.
  revert c. induction l as [|e l IH]; intros c Hc; [done|]. apply IH. clear IH.
  unfold apply. cbv zeta. set (c1 := if (we_Generation e =? gen c kind)%N then c else _).
  assert (keys_valid c1) as H1.
  { unfold c1. case_match; [done|]. destruct kind; try exact Hc.
    intros id [j Hj]. simpl in Hj. by rewrite lookup_empty in Hj. }
  clearbody c1. case_match; [exact H1|]. destruct kind.
  - unfold applyOverride. repeat case_match; exact H1.
  - intros id. simpl.
    rewrite (proj1 (pulseSubscribers_fields (we_Key e) (applyJob e c1))). by apply applyJob_keys.
  - unfold applyActive. repeat case_match; exact H1.
  - unfold applySlot. repeat case_match; exact H1.
Qed.

(** The query of the next page: the same, after the last entry of this one. *)
Definition after (v : CollectionView) (q : CollectionQuery) : CollectionQuery :=
  {| q_States := q_States q; q_Since := q_Since q; q_Origin := q_Origin q;
     q_After := view_pos v; q_Limit := q_Limit q |}.

(** A reader that follows positions until no entry is left. *)
Fixpoint read_pages (fuel : nat) (cur g : N) (ns svc : string) (q : CollectionQuery) (c : Caches) :
    list CollectionView :=
  match fuel with
  | O => []
  | S n =>
      let '(page, more, _) := Collections cur g ns svc q c in
      page ++
      (if more then
         match last page with
         | Some v => read_pages n cur g ns svc (after v q) c
         | None => []
         end
       else [])
  end.

#[export] Instance listed_before_trans : Transitive listed_before.
Proof.
  intros a b c H1 H2. unfold listed_before in *.
  assert (view_le a c) as Hle by (trans b; unfold view_le; lia). unfold view_le in Hle.
  destruct (decide (compareListing (view_pos a) (view_pos c) = 0)) as [E|]; [|lia].
  apply compareListing_eq in E. rewrite E, compareListing_sign in H1. lia.
Qed.

#[export] Instance listed_before_irrefl : Irreflexive listed_before.
Proof. intros a H. unfold listed_before in H. rewrite (proj2 (compareListing_eq _ _) eq_refl) in H. lia. Qed.

Lemma strict_NoDup (l : list CollectionView) : StronglySorted listed_before l -> NoDup l.
Proof.
  induction 1 as [|x l _ IH Hx]; constructor; [|done]. intros Hin.
  rewrite Forall_forall in Hx. by apply (irreflexivity listed_before x), Hx.
Qed.

(** A strictly sorted list is determined by its members. *)
Lemma strict_unique (l l' : list CollectionView) :
  StronglySorted listed_before l -> StronglySorted listed_before l' ->
  (forall v, v ∈ l <-> v ∈ l') -> l = l'.
Proof.
  intros Hl Hl' Hin. eapply (StronglySorted_unique_strong listed_before); [|done|done|].
  - intros x y _ _ H1 H2. exfalso. apply (irreflexivity listed_before x). by trans y.
  - apply NoDup_Permutation; [by apply strict_NoDup..|done].
Qed.

Lemma matching_after (ns svc : string) (q : CollectionQuery) (c : Caches)
    (l1 l2 : list CollectionView) (v : CollectionView) :
  index_ok c -> keys_valid c ->
  matching ns svc q c = l1 ++ v :: l2 -> matching ns svc (after v q) c = l2.
Proof.
  intros Hi Hk Hm. pose proof (matching_sorted ns svc q c) as Hs. rewrite Hm in Hs.
  pose proof (StronglySorted_app_1_r _ _ _ Hs) as Hs2. inversion Hs2 as [|? ? Hs3 Hv]; subst.
  rewrite Forall_forall in Hv.
  assert (v ∈ matching ns svc q c) as Hin by (rewrite Hm; set_solver).
  apply elem_of_matching in Hin as (id & j & Hj & _ & _ & Hvv & Hq); [|done].
  assert (vw_ID v <> EmptyString) as Hid.
  { rewrite Hvv. simpl. intros ->. specialize (Hk "" ltac:(by eexists)). done. }
  apply strict_unique; [apply matching_sorted|done|]. intros w.
  rewrite elem_of_matching by done. split.
  - intros (id' & j' & Hj' & Hr & Ha & Hw & [?|Hp]); [done|]. simpl in Hp.
    assert (w ∈ l1 ++ v :: l2) as Hin.
    { rewrite <-Hm. apply elem_of_matching; [done|]. exists id', j'. repeat split; [done..|].
      destruct Hq as [?|Hq]; [by left|right].
      exact (compareListing_gt_trans _ _ _ Hp Hq). }
    apply elem_of_app in Hin as [Hin|Hin].
    + pose proof (StronglySorted_app_1_elem_of _ _ _ w v Hs Hin ltac:(set_solver)) as Hb.
      unfold listed_before in Hb. lia.
    + apply elem_of_cons in Hin as [->|Hin]; [|done].
      rewrite (proj2 (compareListing_eq _ _) eq_refl) in Hp. lia.
  - intros Hw. specialize (Hv w Hw). unfold listed_before in Hv.
    assert (w ∈ matching ns svc q c) as Hwin by (rewrite Hm; set_solver).
    apply elem_of_matching in Hwin as (id' & j' & Hj' & Hr & Ha & Hww & Hp); [|done].
    exists id', j'. repeat split; [done..|]. right. simpl. rewrite compareListing_sign. lia.
Qed.

(** One page: all that is left, or a beginning of it whose last entry leads to
    the rest. *)
Lemma page_step (cur g : N) (ns svc : string) (q : CollectionQuery) (c : Caches) :
  index_ok c -> keys_valid c -> syncedLocked cur g [cacheJobs] c = true ->
  Collections cur g ns svc q c = (matching ns svc q c, false, true) \/
  exists page v rest, Collections cur g ns svc q c = (page, true, true) /\ last page = Some v /\
    matching ns svc q c = page ++ rest /\ matching ns svc (after v q) c = rest.
Proof.
  intros Hi Hk Hs. rewrite Collections_eq by done. pose proof (page_limit_bounds q) as Hb.
  set (k := Z.to_nat (page_limit q)). set (all := matching ns svc q c) in *.
  destruct (Z.ltb_spec (page_limit q) (Z.of_nat (length all))) as [Hlt|Hge].
  - right. assert (is_Some (all !! (k - 1)%nat)) as [v Hv] by (apply lookup_lt_is_Some; lia).
    assert (take k all = take (k - 1) all ++ [v]) as Htake.
    { rewrite <-(take_S_r all (k - 1) v Hv). f_equal. lia. }
    assert (all = take (k - 1) all ++ v :: drop k all) as Hall.
    { rewrite <-(take_drop k all) at 1. rewrite Htake, <-app_assoc. done. }
    exists (take k all), v, (drop k all). split; [done|]. rewrite Htake at 1. rewrite last_snoc.
    split; [done|]. split; [by rewrite take_drop|].
    apply (matching_after ns svc q c (take (k - 1) all)); [done..|exact Hall].
  - left. by rewrite take_ge by lia.
Qed.

(** A reader that starts at the head and follows each page's last entry
    reads the whole listing: every entry that was there, once, in order, and
    the loop ends, whatever limit it asked for.  Fuel is one page per entry,
    one more than is ever used. *)
Theorem read_pages_complete (cur g : N) (ns svc : string) (q : CollectionQuery) (c : Caches)
    (fuel : nat) :
  index_ok c -> keys_valid c -> syncedLocked cur g [cacheJobs] c = true ->
  (length (matching ns svc q c) < fuel)%nat ->
  read_pages fuel cur g ns svc q c = matching ns svc q c.
Proof.
  intros Hi Hk Hs. revert q. induction fuel as [|n IH]; intros q Hf; [lia|]. cbn [read_pages].
  destruct (page_step cur g ns svc q c Hi Hk Hs) as [->|(page & v & rest & -> & Hl & Hm & Hr)];
    [by rewrite app_nil_r|].
  rewrite Hl, Hm, IH, Hr; [done|]. rewrite Hm in Hf. rewrite Hr. rewrite length_app in Hf.
  destruct page; [done|]. simpl in Hf. lia.
Qed.

(** The count the ceiling is measured by is the number of Services that
    are live: a Service is counted exactly when it holds an active key or a
    record it can still leave, and once however many of those it has. *)
Theorem cachedLive_counts (cur g : N) (c : Caches) :
  (forall ref, ref ∈ live_set c <-> liveLocked ref c = true) /\
  cachedLive cur g c =
    if syncedLocked cur g [cacheActive; cacheJobs] c
    then (Z.of_nat (length (elements (live_set c))), true) else (0, false).
Proof.
  split; [|unfold cachedLive; by destruct (syncedLocked _ _ _ c)].
  intros ref. unfold live_set, liveLocked.
  rewrite elem_of_union, elem_of_dom, elem_of_list_to_set, list_elem_of_omap.
  destruct (active c !! ref) as [a|]; [by naive_solver|].
  rewrite existsb_exists. setoid_rewrite <-list_elem_of_In.
  split.
  - intros [[? ?]|([k j] & Hj & Hr)]; [done|]. exists (k, j). split; [done|].
    destruct (terminal (cj_State j)); [done|]. injection Hr as <-. by rewrite bool_decide_true.
  - intros ([k j] & Hj & [Hr%bool_decide_eq_true Ht]%andb_true_iff). right. exists (k, j).
    split; [done|]. destruct (terminal (cj_State j)); [done|]. by rewrite Hr.
Qed.

(** ** The theorems at a concrete input *)

Definition job_entry (id : string) (rev g : N) : watch_entry tagged :=
  WatchEntry (jobKey id) (Some (TJob sample_job)) rev 0 g false.
Definition synced_entry (g : N) : watch_entry tagged := WatchEntry EmptyString None 0 0 g true.

(** Two records of one Service under generation 1, the replay complete. *)
Definition demo_entries : list (watch_entry tagged) :=
  [job_entry "0123456789abcdefghjk" 3 1; job_entry "0123456789abcdefghjm" 4 1; synced_entry 1].

Definition demo_caches : Caches := consume cacheJobs demo_entries (startAttempt NewCaches).

Definition demo_query : CollectionQuery :=
  {| q_States := []; q_Since := zero_time; q_Origin := None;
     q_After := {| pos_CreatedAt := zero_time; pos_ID := "" |}; q_Limit := 1 |}.

Lemma demo_index : index_ok demo_caches.
Proof. unfold demo_caches. rewrite consume_foldl. by apply foldl_index, (on_event_index (V:=_) _ Restarted), NewCaches_index. Qed.

Lemma demo_keys : keys_valid demo_caches.
Proof. apply consume_keys. intros id [j Hj]. simpl in Hj. by rewrite lookup_empty in Hj. Qed.

Lemma new_generation_rebuilds_witness :
  (gen demo_caches cacheJobs <> 2%N /\ gen NewCaches cacheJobs <> 2%N) /\
  same_view cacheJobs (consume cacheJobs [job_entry "0123456789abcdefghjm" 9 2] demo_caches)
    (consume cacheJobs [job_entry "0123456789abcdefghjm" 9 2] NewCaches).
Proof.
  split; [split; by vm_compute|].
  apply (new_generation_rebuilds cacheJobs (job_entry "0123456789abcdefghjm" 9 2) []
    demo_caches NewCaches); by vm_compute.
Defined.

Lemma Collections_page_witness :
  index_ok demo_caches /\ syncedLocked 1 1 [cacheJobs] demo_caches = true /\
  (if syncedLocked 1 1 [cacheJobs] demo_caches then True
   else Collections 1 1 "shop" "cart" demo_query demo_caches = ([], false, false)).
Proof.
  split; [exact demo_index|]. split; [by vm_compute|].
  pose proof (Collections_page 1 1 "shop" "cart" demo_query demo_caches demo_index) as Hp.
  destruct (syncedLocked 1 1 [cacheJobs] demo_caches); [exact I|exact Hp].
Defined.

(** A page of one, then the other record, then the end. *)
Lemma read_pages_complete_witness :
  (index_ok demo_caches /\ keys_valid demo_caches /\
   syncedLocked 1 1 [cacheJobs] demo_caches = true /\
   (length (matching "shop" "cart" demo_query demo_caches) < 3)%nat) /\
  vw_ID <$> read_pages 3 1 1 "shop" "cart" demo_query demo_caches
    = ["0123456789abcdefghjm"; "0123456789abcdefghjk"].
Proof.
  split; [split; [exact demo_index|split; [exact demo_keys|split; by vm_compute]]|].
  rewrite (read_pages_complete 1 1 "shop" "cart" demo_query demo_caches 3 demo_index demo_keys);
    by vm_compute.
Defined.
