(* ===== verification/Seam.v ===== *)
(** * The NATS seam

    src/internal/natskv/client.go: the generation counter and the replay
    barrier behind [Synced], the backoff, and the goroutines of the watches,
    which re-open themselves, as a step relation.  What nats.go delivers, and
    when a subscription or the connection ends, are events; the views of the
    buckets are StoreViews.v. *)

From S2P Require Import Prelude Effects Records Keys Caches Sha256.

(** ** The wait between two attempts to re-open *)

Definition millisecond : duration := 1000000.
Definition callTimeout : duration := 5 * second.
Definition reopenFirst : duration := 50 * millisecond.
Definition reopenCap : duration := 30 * second.

(** [reopenBackoff]; its generator is an argument of [draw]. *)
Record reopenBackoff := { next : duration }.

(** [draw]; [Int64N n] draws below [n]. *)
Definition draw (Int64N : Z -> Z) (b : reopenBackoff) : duration * reopenBackoff :=
  let d := next b in
  (d /! 2 +! Int64N (d /! 2 +! 1), {| next := Z.min (d *! 2) reopenCap |}).

Definition reset_backoff : reopenBackoff := {| next := reopenFirst |}.

(** The waits of [n] attempts in a row; each has its own draw. *)
Fixpoint draws (Int64N : nat -> Z -> Z) (n : nat) (b : reopenBackoff) : list duration :=
  match n with
  | O => []
  | S n' => let '(d, b') := draw (Int64N O) b in d :: draws (fun k => Int64N (S k)) n' b'
  end.

(** ** The client *)

(** [watchState]: the marker a watch last delivered, and its generation. *)
Record watchState := { marker : bool; markerGen : N }.

Definition syncedUnder (g : N) (ws : watchState) : bool := marker ws && (markerGen ws =? g)%N.

(** The fields [c.mu] guards.  A watch is named by a number; [genMoved], the
    channel closed when the generation moves, is closed for whoever took it
    together with a generation that is no longer [gen]. *)
Record client := {
  gen : N;
  reopening : bool;
  reopenFailing : bool;
  watches : gmap N watchState
}.

Definition new_client : client :=
  {| gen := 0; reopening := false; reopenFailing := false; watches := ∅ |}.

Definition set_watches (m : gmap N watchState) (c : client) : client :=
  {| gen := gen c; reopening := reopening c; reopenFailing := reopenFailing c; watches := m |}.

(** [moveGeneration]. *)
Definition moveGeneration (c : client) : client :=
  {| gen := gen c + 1; reopening := true; reopenFailing := reopenFailing c; watches := watches c |}.

(** [reopenFailed], and whether it wrote its record. *)
Definition reopenFailed (c : client) : bool * client :=
  (negb (reopenFailing c),
   {| gen := gen c; reopening := reopening c; reopenFailing := true; watches := watches c |}).

(** [syncedLocked], which [Synced] takes the lock around. *)
Definition syncedLocked (g : N) (c : client) : bool :=
  if negb (g =? gen c)%N then false
  else forallb (fun '(_, ws) => syncedUnder g ws) (map_to_list (watches c)).

Definition Synced (g : N) (c : client) : bool := syncedLocked g c.

(** [setMarker]. *)
Definition setMarker (g : N) : watchState := {| marker := true; markerGen := g |}.

(** [markSynced], and whether this marker ended a re-open.  The watch state it
    writes is reached through the pointer, so a watch that is not in the map
    marks nothing [Synced] reads. *)
Definition markSynced (id : N) (g : N) (c : client) : bool * client :=
  let c1 := set_watches (alter (fun _ => setMarker g) id (watches c)) c in
  if negb (reopening c1) || negb (syncedLocked g c1) then (false, c1)
  else (true, {| gen := gen c1; reopening := false; reopenFailing := false; watches := watches c1 |}).

(** [addWatch] and [removeWatch]. *)
Definition addWatch (id : N) (c : client) : client :=
  set_watches (<[id := {| marker := false; markerGen := 0 |}]> (watches c)) c.
Definition removeWatch (id : N) (c : client) : client :=
  set_watches (delete id (watches c)) c.

(** [genCheck], the error a superseded generation gives; [View] compares the
    same two. *)
Definition genCheck (g : N) (c : client) : result unit :=
  if (g =? gen c)%N then Ok tt else Err ErrUnavailable.
Definition View (g : N) (c : client) : result N :=
  if (g =? gen c)%N then Ok g else Err ErrUnavailable.

(** ** What nats.go answers *)

Inductive js_sentinel :=
  | DeadlineExceeded | Canceled | NatsTimeout | AsyncPublishTimeout | ConnectionClosed
  | ConnectionDraining | NoResponders | NoStreamResponse | JSKeyNotFound | JSKeyDeleted
  | JSKeyExists | JSKeyRevisionMismatch | JSNoKeysFound | JSObjectNotFound | JSNoObjectsFound.

#[export] Instance js_sentinel_eq_dec : EqDecision js_sentinel.
Proof. solve_decision. Defined.

(** An error of nats.go is what [errors.Is] finds in it. *)
Definition js_error := js_sentinel -> bool.

Definition js_is (s : js_sentinel) : js_error := fun s' => bool_decide (s' = s).

(** [failure]. *)
Definition failure (e : js_error) : store_err :=
  if existsb e [DeadlineExceeded; Canceled; NatsTimeout; AsyncPublishTimeout; ConnectionClosed;
                ConnectionDraining; NoResponders; NoStreamResponse]
  then ErrUnavailable else ErrOther.

(** [jetstream.KeyValueEntry]; the value of a put may itself be nil. *)
Inductive kv_operation := KeyValuePut | KeyValueDelete | KeyValuePurge.

Record kv_entry (V : Type) := KVE {
  kve_Key : string;
  kve_Value : option V;
  kve_Revision : N;
  kve_Created : time;
  kve_Operation : kv_operation
}.
Arguments KVE {V} _ _ _ _ _.
Arguments kve_Key {V} _.
Arguments kve_Value {V} _.
Arguments kve_Revision {V} _.
Arguments kve_Created {V} _.
Arguments kve_Operation {V} _.

(** [entryFromKVE]. *)
Definition entryFromKVE {V} (k : kv_entry V) (g : N) : watch_entry V :=
  {| we_Key := kve_Key k;
     we_Value := match kve_Operation k with
                 | KeyValueDelete | KeyValuePurge => None
                 | KeyValuePut => kve_Value k
                 end;
     we_Revision := kve_Revision k; we_Created := kve_Created k;
     we_Generation := g; we_Synced := false |}.

(** What one receive from [w.Updates()] becomes: nil is the replay marker. *)
Definition delivered {V} (g : N) (u : option (kv_entry V)) : watch_entry V :=
  match u with
  | None => {| we_Key := EmptyString; we_Value := None; we_Revision := 0; we_Created := zero_time;
               we_Generation := g; we_Synced := true |}
  | Some k => entryFromKVE k g
  end.

(** [watchFilters]. *)
Definition watchFilters (prefix : string) : list string :=
  if String.eqb prefix EmptyString then [">"%string]
  else match cut_suffix "." prefix with
       | Some _ => [prefix +:+ ">"]
       | None => [prefix; prefix +:+ ".>"]
       end.

(** ** The watches

    [runWatch] is one goroutine per watch.  A step is what it does between two
    points where another goroutine, the server or its caller can act: each
    receive, send, lock section and wait.  [got] and [sent] record what the
    goroutine received from the watchers it opened, with the generation each was
    opened under, and what it put in the channel [Watch] returned. *)

Section watches.
  Context {V : Type}.

(** Where a watch stands: in [Watch] past its check, and between [genState] and
    [addWatch]; at the top of [consumeWatcher]'s loop, at its [select], at its send; stopped, its
    watcher cut; in [reopenWait]; at the top of the inner loop; in
    [openWatcher]; returned. *)
Inductive phase :=
  | Called
  | Starting (g : N)
  | Looping (g : N)
  | Selecting (g : N)
  | Sending (g : N) (u : option (kv_entry V))
  | Cut (g : N)
  | Waiting (d : duration)
  | Retrying
  | Opening (g : N)
  | Returned.

Record watch := {
  w_phase : phase;
  w_backoff : reopenBackoff;
  got : list (N * option (kv_entry V));
  sent : list (watch_entry V)
}.

Definition at_phase (p : phase) (w : watch) : watch :=
  {| w_phase := p; w_backoff := w_backoff w; got := got w; sent := sent w |}.

(** The client and the goroutines of its watches. *)
Record seam := { cl : client; goroutines : gmap N watch }.

Definition new_seam : seam := {| cl := new_client; goroutines := ∅ |}.

(** What can happen.  [Disconnected] is the callback of nats.go; the rest name
    a watch.  [WatchCalled] is [Watch] past its check under the view's
    generation, [GenTaken] a call of [genState]; [Received] a receive from the watcher, [Closed] the watcher's
    channel closed, with what [Connected] answers; [CtxDone] the caller's
    context ended, which the goroutine meets wherever it selects on it. *)
Inductive seam_event :=
  | Disconnected
  | WatchCalled (id : N) (view : N)
  | WatchOpened (id : N) (ok : bool)
  | Passed (id : N)
  | MoveSeen (id : N)
  | Received (id : N) (u : option (kv_entry V))
  | Closed (id : N) (connected : bool)
  | Sent (id : N)
  | Resumed (id : N) (draw : Z -> Z)
  | Waited (id : N)
  | GenTaken (id : N)
  | Reopened (id : N)
  | OpenFailed (id : N) (draw : Z -> Z)
  | CtxDone (id : N).

Definition set_watch (id : N) (w : watch) (s : seam) : seam :=
  {| cl := cl s; goroutines := <[id := w]> (goroutines s) |}.
Definition set_client (c : client) (s : seam) : seam :=
  {| cl := c; goroutines := goroutines s |}.

(** [reopenWait] draws from the watch's schedule before it waits. *)
Definition reopenWait (Int64N : Z -> Z) (w : watch) : watch :=
  let '(d, b) := draw Int64N (w_backoff w) in
  {| w_phase := Waiting d; w_backoff := b; got := got w; sent := sent w |}.

(** [consumeWatcher]'s receive: the marker is recorded before it is sent. *)
Definition receive (id : N) (g : N) (u : option (kv_entry V)) (w : watch) (s : seam) : seam :=
  let w' := {| w_phase := Sending g u; w_backoff := w_backoff w;
               got := got w ++ [(g, u)]; sent := sent w |} in
  match u with
  | None => set_client (markSynced id g (cl s)).2 (set_watch id w' s)
  | Some _ => set_watch id w' s
  end.

(** The return of [runWatch]: the channel closes and the watch is unregistered. *)
Definition finish_watch (id : N) (w : watch) (s : seam) : seam :=
  set_client (removeWatch id (cl s)) (set_watch id (at_phase Returned w) s).

Definition seam_step (e : seam_event) (s : seam) : option seam :=
  match e with
  | Disconnected => Some (set_client (moveGeneration (cl s)) s)
  | WatchCalled id view =>
      match goroutines s !! id, genCheck view (cl s) with
      | None, Ok _ =>
          Some (set_watch id {| w_phase := Called; w_backoff := reset_backoff;
                                got := []; sent := [] |} s)
      | _, _ => None
      end
  | WatchOpened id ok =>
      w ← goroutines s !! id;
      match w_phase w with
      | Starting g =>
          Some (if ok : bool then set_client (addWatch id (cl s)) (set_watch id (at_phase (Looping g) w) s)
                else set_watch id (at_phase Returned w) s)
      | _ => None
      end
  | Passed id =>
      w ← goroutines s !! id;
      match w_phase w with
      | Looping g =>
          Some (set_watch id (at_phase (if (g =? gen (cl s))%N then Selecting g else Cut g) w) s)
      | _ => None
      end
  | MoveSeen id =>
      w ← goroutines s !! id;
      match w_phase w with
      | Selecting g =>
          if (g =? gen (cl s))%N then None else Some (set_watch id (at_phase (Cut g) w) s)
      | _ => None
      end
  | Received id u =>
      w ← goroutines s !! id;
      match w_phase w with
      | Selecting g => Some (receive id g u w s)
      | _ => None
      end
  | Closed id connected =>
      w ← goroutines s !! id;
      match w_phase w with
      | Selecting g =>
          Some (set_client (if connected : bool then moveGeneration (cl s) else cl s)
                  (set_watch id (at_phase (Cut g) w) s))
      | _ => None
      end
  | Sent id =>
      w ← goroutines s !! id;
      match w_phase w with
      | Sending g u =>
          Some (set_watch id {| w_phase := Looping g; w_backoff := w_backoff w; got := got w;
                                sent := sent w ++ [delivered g u] |} s)
      | _ => None
      end
  | Resumed id Int64N =>
      w ← goroutines s !! id;
      match w_phase w with
      | Cut g =>
          ws ← watches (cl s) !! id;
          Some (set_watch id
                  (if syncedUnder g ws
                   then {| w_phase := Retrying; w_backoff := reset_backoff; got := got w; sent := sent w |}
                   else reopenWait Int64N w) s)
      | _ => None
      end
  | Waited id =>
      w ← goroutines s !! id;
      match w_phase w with
      | Waiting _ => Some (set_watch id (at_phase Retrying w) s)
      | _ => None
      end
  | GenTaken id =>
      w ← goroutines s !! id;
      match w_phase w with
      | Called => Some (set_watch id (at_phase (Starting (gen (cl s))) w) s)
      | Retrying => Some (set_watch id (at_phase (Opening (gen (cl s))) w) s)
      | _ => None
      end
  | Reopened id =>
      w ← goroutines s !! id;
      match w_phase w with
      | Opening g => Some (set_watch id (at_phase (Looping g) w) s)
      | _ => None
      end
  | OpenFailed id Int64N =>
      w ← goroutines s !! id;
      match w_phase w with
      | Opening _ =>
          Some (set_client (reopenFailed (cl s)).2 (set_watch id (reopenWait Int64N w) s))
      | _ => None
      end
  | CtxDone id =>
      w ← goroutines s !! id;
      match w_phase w with
      | Selecting _ | Sending _ _ | Waiting _ | Retrying => Some (finish_watch id w s)
      | _ => None
      end
  end.

(** The states the client and its watches can be in. *)
Inductive seam_reachable : seam -> Prop :=
  | seam_new : seam_reachable new_seam
  | seam_next e s s' : seam_reachable s -> seam_step e s = Some s' -> seam_reachable s'.

Fixpoint seam_run (l : list seam_event) (s : seam) : option seam :=
  match l with
  | [] => Some s
  | e :: l' => s' ← seam_step e s; seam_run l' s'
  end.

Lemma seam_run_reachable (l : list seam_event) (s s' : seam) :
  seam_reachable s -> seam_run l s = Some s' -> seam_reachable s'.
Proof.
  revert s. induction l as [|e l IH]; simpl; intros s Hr; [by intros [= <-]|].
  destruct (seam_step e s) as [s1|] eqn:E; [|done]. simpl. apply IH. by eapply seam_next.
Qed.
End watches.

Arguments phase : clear implicits.
Arguments watch : clear implicits.
Arguments seam : clear implicits.
Arguments seam_event : clear implicits.

(** ** The invariant of the watches *)

Section invariant.
  Context {V : Type}.
Implicit Types (w : watch V) (s : seam V).

Definition deliver (x : N * option (kv_entry V)) : watch_entry V := delivered x.1 x.2.

(** What a goroutine received and has not sent. *)
Definition pending (p : phase V) : list (watch_entry V) :=
  match p with Sending g u => [delivered g u] | _ => [] end.

(** No later receive can be tagged below this. *)
Definition floor (p : phase V) (cur : N) : N :=
  match p with
  | Starting g | Looping g | Selecting g | Sending g _ | Cut g | Opening g => g
  | Called | Waiting _ | Retrying | Returned => cur
  end.

Definition registered (p : phase V) : bool :=
  match p with Called | Starting _ | Returned => false | _ => true end.

Record watch_ok (cur : N) (ows : option watchState) (w : watch V) : Prop := {
  ok_sent : exists lost, sent w ++ pending (w_phase w) ++ lost = deliver <$> got w /\
    (w_phase w <> Returned -> lost = []);
  ok_sorted : StronglySorted N.le (fst <$> got w);
  ok_floor : Forall (fun x => (x.1 <= floor (w_phase w) cur)%N) (got w);
  ok_cur : (floor (w_phase w) cur <= cur)%N;
  ok_marker : forall ws, ows = Some ws -> marker ws = true -> (markerGen ws, None) ∈ got w;
  ok_registered : is_Some ows <-> registered (w_phase w) = true
}.

Definition seam_ok s : Prop :=
  forall id, match goroutines s !! id with
             | None => watches (cl s) !! id = None
             | Some w => watch_ok (gen (cl s)) (watches (cl s) !! id) w
             end.

Lemma watch_ok_mono (cur cur' : N) ows w :
  (cur <= cur')%N -> watch_ok cur ows w -> watch_ok cur' ows w.
Proof.
  intros Hle [H1 H2 H3 H4 H5 H6].
  assert (floor (w_phase w) cur <= floor (w_phase w) cur')%N by (destruct (w_phase w); simpl; lia).
  split; try done; [|by destruct (w_phase w); simpl in *; lia].
  eapply Forall_impl; [exact H3|]. simpl. lia.
Qed.

(** A step on one watch leaves the others as they are. *)
Lemma seam_ok_update s id w' c' :
  seam_ok s -> (gen (cl s) <= gen c')%N ->
  (forall id', id' <> id -> watches c' !! id' = watches (cl s) !! id') ->
  watch_ok (gen c') (watches c' !! id) w' ->
  seam_ok {| cl := c'; goroutines := <[id := w']> (goroutines s) |}.
Proof.
  intros Hs Hg Hw Hok id'. simpl. destruct (decide (id' = id)) as [->|Hne].
  - by rewrite lookup_insert_eq.
  - rewrite lookup_insert_ne by done. rewrite Hw by done. specialize (Hs id').
    destruct (goroutines s !! id'); [by eapply watch_ok_mono|done].
Qed.

(** Moving to another phase, with nothing in hand. *)
Lemma watch_ok_phase (cur cur' : N) ows ows' w (p : phase V) b :
  watch_ok cur ows w -> pending (w_phase w) = [] -> pending p = [] -> w_phase w <> Returned ->
  (cur <= cur')%N -> (floor (w_phase w) cur <= floor p cur' <= cur')%N ->
  (is_Some ows' <-> registered p = true) ->
  (forall ws, ows' = Some ws -> marker ws = true -> ows = Some ws) ->
  watch_ok cur' ows' {| w_phase := p; w_backoff := b; got := got w; sent := sent w |}.
Proof.
  intros [(lost & H1 & Hl) H2 H3 H4 H5 H6] Hp Hp' Hr Hc Hf Hreg Hws. split; simpl.
  - exists lost. rewrite Hp' . rewrite Hp in H1. split; [done|]. intros _. auto.
  - done.
  - eapply Forall_impl; [exact H3|]. simpl. lia.
  - lia.
  - intros ws Hw Hm. eapply H5; [by eapply Hws|done].
  - done.
Qed.

Lemma markSynced_gen (id g : N) c : gen (markSynced id g c).2 = gen c.
Proof. unfold markSynced. by case_match. Qed.

Lemma markSynced_watches (id g : N) c :
  watches (markSynced id g c).2 = alter (fun _ => setMarker g) id (watches c).
Proof. unfold markSynced. by case_match. Qed.

(** The watch of a step, its phase, and the state the step leaves. *)
Ltac on_watch H :=
  lazymatch type of H with
  | mbind _ (goroutines ?s !! ?id) = Some _ =>
      let w := fresh "w" in let Ew := fresh "Ew" in
      destruct (goroutines s !! id) as [w|] eqn:Ew; [|discriminate H]; cbn in H;
      let Ep := fresh "Ep" in destruct (w_phase w) eqn:Ep; try discriminate H
  end.

Lemma registered_lookup s id w :
  seam_ok s -> goroutines s !! id = Some w -> registered (w_phase w) = true ->
  exists ws, watches (cl s) !! id = Some ws.
Proof. intros Hs Ew Hr. specialize (Hs id). rewrite Ew in Hs. by apply (ok_registered _ _ _ Hs). Qed.

(** A phase change that keeps the watch's registration and the client's map. *)
Lemma seam_ok_phase s id w (p : phase V) b c' :
  seam_ok s -> goroutines s !! id = Some w ->
  pending (w_phase w) = [] -> pending p = [] -> w_phase w <> Returned ->
  (gen (cl s) <= gen c')%N -> watches c' = watches (cl s) ->
  (floor (w_phase w) (gen (cl s)) <= floor p (gen c') <= gen c')%N ->
  registered p = registered (w_phase w) ->
  seam_ok {| cl := c';
             goroutines := <[id := {| w_phase := p; w_backoff := b; got := got w; sent := sent w |}]>
                             (goroutines s) |}.
Proof.
  intros Hs Ew Hp Hp' Hr Hg Hw Hf Hreg. pose proof (Hs id) as Hid. rewrite Ew in Hid.
  apply seam_ok_update; [done..|by intros; rewrite Hw|]. rewrite Hw.
  eapply watch_ok_phase; [done..| |done]. rewrite Hreg. apply Hid.
Qed.

(** Returning loses at most the entry in hand. *)
Lemma finish_watch_ok s id w :
  seam_ok s -> goroutines s !! id = Some w -> w_phase w <> Returned -> seam_ok (finish_watch id w s).
Proof.
  intros Hs Ew Hr. pose proof (Hs id) as Hid. rewrite Ew in Hid.
  destruct Hid as [(lost & H1 & Hl) H2 H3 H4 H5 H6].
  apply seam_ok_update; simpl; [done..|by intros; rewrite lookup_delete_ne|].
  rewrite lookup_delete_eq. split; simpl; try done.
  - by exists (pending (w_phase w) ++ lost).
  - eapply Forall_impl; [exact H3|]. simpl. lia.
Qed.

(** A receive is tagged at or above everything received before it. *)
Lemma receive_ok s id w g u :
  seam_ok s -> goroutines s !! id = Some w -> w_phase w = Selecting g ->
  seam_ok (receive id g u w s).
Proof.
  intros Hs Ew Ep. pose proof (Hs id) as Hid. rewrite Ew in Hid.
  destruct Hid as [(lost & H1 & Hl) H2 H3 H4 H5 H6]. rewrite Ep in *. simpl in *.
  rewrite (Hl ltac:(done)) in H1. simpl in H1. rewrite app_nil_r in H1.
  assert (StronglySorted N.le (fst <$> got w ++ [(g, u)])) as Hsort.
  { rewrite fmap_app. apply StronglySorted_app_2; [|done|by repeat constructor].
    intros x1 x2 Hx1 Hx2. simpl in Hx2. apply list_elem_of_singleton in Hx2 as ->.
    apply list_elem_of_fmap in Hx1 as (y & -> & Hy).
    rewrite Forall_forall in H3. by apply H3. }
  assert (exists lost, sent w ++ [delivered g u] ++ lost = deliver <$> got w ++ [(g, u)] /\
            (Sending g u <> Returned -> lost = [])) as Hsent.
  { exists []. by rewrite fmap_app, <-H1. }
  destruct (registered_lookup s id w Hs Ew ltac:(by rewrite Ep)) as [ws Hws].
  unfold receive. destruct u as [k|]; apply seam_ok_update; try done.
  - split; simpl; try done; [by apply Forall_app; repeat constructor; simpl; try lia|].
    intros ws' Hw' Hm. apply elem_of_app. left. by apply H5.
  - by rewrite markSynced_gen.
  - intros id' Hne. rewrite markSynced_watches. by rewrite lookup_alter_ne.
  - rewrite markSynced_gen, markSynced_watches, lookup_alter, decide_True, Hws by done. split; simpl; try done.
    + by apply Forall_app; repeat constructor; simpl; try lia.
    + intros ws' [= <-] _. simpl. apply elem_of_app. right. by apply list_elem_of_here.
Qed.

Lemma seam_step_ok (e : seam_event V) s s' :
  seam_step e s = Some s' -> seam_ok s -> seam_ok s'.
Proof.
  intros H Hs. destruct e; simpl in H.
  - injection H as <-. intros id. simpl. specialize (Hs id).
    destruct (goroutines s !! id); [|done]. eapply watch_ok_mono; [|done]. simpl. lia.
  - destruct (goroutines s !! id) eqn:Ew; [done|].
    destruct (genCheck view (cl s)); [|done]. injection H as <-. pose proof (Hs id) as Hid.
    rewrite Ew in Hid. apply seam_ok_update; [done..|]. rewrite Hid. split; simpl; try done.
    + by exists [].
    + constructor.
  - on_watch H. pose proof (Hs id) as Hid. rewrite Ew in Hid.
    pose proof (ok_cur _ _ _ Hid) as Hc. pose proof (ok_registered _ _ _ Hid) as Hreg.
    rewrite Ep in Hc, Hreg. simpl in Hc, Hreg.
    assert (watches (cl s) !! id = None) as Hn
      by (destruct (watches (cl s) !! id); [by specialize (proj1 Hreg ltac:(by eexists))|done]).
    destruct ok; injection H as <-.
    + apply seam_ok_update; simpl; [done..|by intros; rewrite lookup_insert_ne|].
      rewrite lookup_insert_eq.
      eapply watch_ok_phase; rewrite ?Ep; simpl; [done..|lia|lia|done|by intros ws [= <-]].
    + apply seam_ok_phase; rewrite ?Ep; simpl; [done..|lia|done].
  - on_watch H. injection H as <-. pose proof (Hs id) as Hid. rewrite Ew in Hid.
    pose proof (ok_cur _ _ _ Hid) as Hc. rewrite Ep in Hc. simpl in Hc.
    apply seam_ok_phase; rewrite ?Ep; try done; case_match; simpl; try done; lia.
  - on_watch H. destruct (g =? gen (cl s))%N; [done|]. injection H as <-.
    pose proof (Hs id) as Hid. rewrite Ew in Hid.
    pose proof (ok_cur _ _ _ Hid) as Hc. rewrite Ep in Hc. simpl in Hc.
    apply seam_ok_phase; rewrite ?Ep; simpl; try done; lia.
  - on_watch H. injection H as <-. by apply receive_ok.
  - on_watch H. injection H as <-. pose proof (Hs id) as Hid. rewrite Ew in Hid.
    pose proof (ok_cur _ _ _ Hid) as Hc. rewrite Ep in Hc. simpl in Hc.
    apply seam_ok_phase; rewrite ?Ep; try done; destruct connected; simpl; try done; lia.
  - on_watch H. injection H as <-. pose proof (Hs id) as Hid. rewrite Ew in Hid.
    apply seam_ok_update; [done..|]. destruct Hid as [(lost & H1 & Hl) H2 H3 H4 H5 H6].
    rewrite Ep in *. simpl in *. split; simpl; try done. exists lost.
    split; [by rewrite <-app_assoc|intros _; by apply Hl].
  - on_watch H. destruct (watches (cl s) !! id) as [ws|] eqn:Hws; [|done]. injection H as <-.
    pose proof (Hs id) as Hid. rewrite Ew in Hid.
    pose proof (ok_cur _ _ _ Hid) as Hc. rewrite Ep in Hc. simpl in Hc.
    destruct (syncedUnder g ws); apply seam_ok_phase; rewrite ?Ep; simpl; try done; lia.
  - on_watch H. injection H as <-. apply seam_ok_phase; rewrite ?Ep; simpl; try done; lia.
  - on_watch H; injection H as <-; apply seam_ok_phase; rewrite ?Ep; simpl; try done; lia.
  - on_watch H. injection H as <-. pose proof (Hs id) as Hid. rewrite Ew in Hid.
    pose proof (ok_cur _ _ _ Hid) as Hc. rewrite Ep in Hc. simpl in Hc.
    apply seam_ok_phase; rewrite ?Ep; simpl; try done; lia.
  - on_watch H. injection H as <-. pose proof (Hs id) as Hid. rewrite Ew in Hid.
    pose proof (ok_cur _ _ _ Hid) as Hc. rewrite Ep in Hc. simpl in Hc.
    apply seam_ok_phase; rewrite ?Ep; simpl; try done; lia.
  - on_watch H; injection H as <-; (apply finish_watch_ok; [done..|by rewrite Ep]).
Qed.

Lemma seam_reachable_ok s : seam_reachable s -> seam_ok s.
Proof.
  induction 1 as [|e s s' _ IH H]; [|by eapply seam_step_ok].
  intros id. simpl. by rewrite !lookup_empty.
Qed.

End invariant.

(** ** The replay barrier *)

(** A list sorted by tag splits at its greatest tag. *)
Lemma sorted_split {A} (g : N) (l : list (N * A)) :
  StronglySorted N.le (fst <$> l) -> Forall (fun x => (x.1 <= g)%N) l ->
  exists older new, l = older ++ (pair g <$> new) /\ Forall (fun x => (x.1 < g)%N) older.
Proof.
  induction l as [|[t a] l IH]; intros Hs Hle; [by exists [], []|].
  apply StronglySorted_cons in Hs as [Hall Hs]. apply Forall_cons in Hle as [Ht Hle].
  destruct (IH Hs Hle) as (older & new & -> & Ho). simpl in *.
  destruct (decide (t = g)) as [->|Hne].
  - exists [], (a :: new). destruct older as [|[t' a'] older]; [done|].
    apply Forall_cons in Ho as [Ho _]. simpl in *. apply Forall_cons in Hall as [Hall _]. simpl in *. lia.
  - exists ((t, a) :: older), new. split; [done|]. constructor; [simpl; lia|done].
Qed.

(** A list split at its first marker. *)
Lemma first_None {A} (l : list (option A)) :
  None ∈ l -> exists l1 l2, l = l1 ++ None :: l2 /\ None ∉ l1.
Proof.
  induction l as [|[a|] l IH]; intros Hx; [by apply elem_of_nil in Hx| |].
  - destruct IH as (l1 & l2 & -> & Hl1); [by apply elem_of_cons in Hx as [?|?]|].
    exists (Some a :: l1), l2. split; [done|]. by rewrite not_elem_of_cons.
  - exists [], l. split; [done|]. apply not_elem_of_nil.
Qed.

(** Holding back the last entry leaves everything before another one in place. *)
Lemma prefix_held_back {A} (l p a b : list A) (x : A) :
  (length p <= 1)%nat -> l ++ p = a ++ x :: b -> a `prefix_of` l.
Proof.
  intros Hp Heq. destruct p as [|y [|]]; [|clear Hp|simpl in Hp; lia].
  - rewrite app_nil_r in Heq. subst. by eexists.
  - destruct b as [|z b _] using rev_ind.
    + apply app_inj_tail in Heq as [-> _]. done.
    + rewrite app_comm_cons, app_assoc in Heq. apply app_inj_tail in Heq as [-> _]. by eexists.
Qed.

Section barrier.
  Context {V : Type}.
Implicit Types (w : watch V) (s : seam V).

Lemma Synced_spec (g : N) (c : client) :
  Synced g c = true <->
  g = gen c /\ forall id ws, watches c !! id = Some ws -> syncedUnder g ws = true.
Proof.
  unfold Synced, syncedLocked. destruct (N.eqb_spec g (gen c)) as [->|Hne]; simpl; [|naive_solver].
  rewrite forallb_forall. split.
  - intros H. split; [done|]. intros id ws Hw.
    apply (H (id, ws)). by apply list_elem_of_In, elem_of_map_to_list.
  - intros [_ H] [id ws] Hin. apply (H id). by apply elem_of_map_to_list, list_elem_of_In.
Qed.

Lemma got_split s id w :
  seam_ok s -> goroutines s !! id = Some w ->
  exists older new, got w = older ++ (pair (gen (cl s)) <$> new) /\
    Forall (fun x => (x.1 < gen (cl s))%N) older.
Proof.
  intros Hs Ew. specialize (Hs id). rewrite Ew in Hs. destruct Hs as [_ Hsort Hle Hcur _ _].
  apply sorted_split; [done|]. eapply Forall_impl; [exact Hle|]. simpl. lia.
Qed.

(** C9: the replay barrier of the store connection.  When [Synced] answers true
    for a generation, that is the current one, and every watch the PGO runtime
    has open has received, from watchers opened under it, a whole initial
    replay and the marker that ends it; everything before that marker is
    already in the channel its reader consumes, every delivery tagged with an
    older generation lies before it, and nothing delivered later carries an
    older tag. *)
Theorem seam_barrier (s : seam V) (g id : N) (ws : watchState) :
  seam_reachable s -> Synced g (cl s) = true -> watches (cl s) !! id = Some ws ->
  g = gen (cl s) /\
  exists w older replay live,
    goroutines s !! id = Some w /\
    got w = older ++ (pair g <$> replay ++ None :: live) /\
    Forall (fun x => (x.1 < g)%N) older /\ None ∉ replay /\
    (deliver <$> older) ++ (delivered g <$> replay) `prefix_of` sent w.
Proof.
  intros Hr%seam_reachable_ok Hsy Hws. apply Synced_spec in Hsy as [-> Hall].
  split; [done|]. pose proof (Hr id) as Hid.
  destruct (goroutines s !! id) as [w|] eqn:Ew; [|congruence].
  pose proof (Hall _ _ Hws) as [Hm Hg%N.eqb_eq]%andb_true_iff.
  destruct (got_split s id w Hr Ew) as (older & new & Hgot & Ho).
  pose proof (ok_marker _ _ _ Hid ws Hws Hm) as Hin. rewrite Hg, Hgot in Hin.
  apply elem_of_app in Hin as [Hin|Hin].
  { rewrite Forall_forall in Ho. apply Ho in Hin. simpl in Hin. lia. }
  apply list_elem_of_fmap in Hin as (u & [= <-] & Hin).
  apply first_None in Hin as (replay & live & -> & Hn).
  exists w, older, replay, live. split; [done|]. split; [done|]. split; [done|]. split; [done|].
  pose proof (ok_sent _ _ _ Hid) as (lost & Hs & Hl).
  assert (lost = []) as ->.
  { apply Hl. intros Ep. pose proof (proj1 (ok_registered _ _ _ Hid) ltac:(by eexists)) as Hc.
    by rewrite Ep in Hc. }
  rewrite Hgot, !fmap_app, <-list_fmap_compose in Hs. simpl in Hs. rewrite app_nil_r in Hs.
  assert (deliver ∘ pair (gen (cl s)) = delivered (V:=V) (gen (cl s))) as Hd by done.
  rewrite Hd in Hs. clear Hd Hl.
  rewrite app_assoc in Hs. eapply prefix_held_back; [|exact Hs]. by destruct (w_phase w); simpl; try lia.
Qed.
End barrier.

(** ** What a cache holds once the barrier is open *)

Section composition.
  Context {V : Type} `{Wire V}.

Lemma consume_app (kind : cacheKind) (l1 l2 : list (watch_entry V)) (c : Caches) :
  consume kind (l1 ++ l2) c = consume kind l2 (consume kind l1 c).
Proof. revert c. induction l1 as [|e l1 IH]; intros c; [done|]. apply IH. Qed.

Lemma deleteJob_gen (key : string) (c : Caches) : Caches.gen (deleteJob key c) = Caches.gen c.
Proof. unfold deleteJob. by case_match. Qed.

Lemma applyJob_gen (e : watch_entry V) (c : Caches) : Caches.gen (applyJob e c) = Caches.gen c.
Proof.
  unfold applyJob, recordJob. repeat case_match; simpl; try done; by apply deleteJob_gen.
Qed.

Lemma pulseSubscribers_gen (key : string) (c : Caches) :
  Caches.gen (pulseSubscribers key c) = Caches.gen c.
Proof. unfold pulseSubscribers. by repeat case_match. Qed.

Lemma apply_gen (kind : cacheKind) (e : watch_entry V) (c : Caches) :
  Caches.gen (apply kind e c) kind = we_Generation e.
Proof.
  assert (forall c1, Caches.gen c1 kind = we_Generation e ->
    Caches.gen (if we_Synced e then set_barrier (Caches.gen c1) (<[kind := true]> (synced c1)) c1
     else match kind with
          | cacheOverrides => applyOverride e c1
          | cacheJobs => set_pulses true (subscribers (pulseSubscribers (we_Key e) (applyJob e c1)))
                           (pulseSubscribers (we_Key e) (applyJob e c1))
          | cacheActive => applyActive e c1
          | cacheSlots => applySlot e c1
          end) kind = we_Generation e) as Hfold.
  { intros c1 <-. case_match; [done|]. destruct kind.
    - unfold applyOverride. by repeat case_match.
    - simpl. by rewrite pulseSubscribers_gen, applyJob_gen.
    - unfold applyActive. by repeat case_match.
    - unfold applySlot. by repeat case_match. }
  unfold apply. apply Hfold. destruct (N.eqb_spec (we_Generation e) (Caches.gen c kind)); [done|].
  by destruct kind.
Qed.

(** The generation a cache stands at is that of the last entry it folded. *)
Lemma consume_gen (kind : cacheKind) (l : list (watch_entry V)) (c : Caches) :
  Caches.gen (consume kind l c) kind = default (Caches.gen c kind) (we_Generation <$> last l).
Proof.
  revert c. induction l as [|e l IH]; intros c; [done|]. simpl. rewrite IH.
  destruct l as [|e' l]; [apply apply_gen|]. change (last (e :: e' :: l)) with (last (e' :: l)).
  destruct (last (e' :: l)) eqn:El; [done|]. by apply last_None in El.
Qed.

(** The view of one kind after a list whose entries all carry at most [g], the
    cache standing at [g] in the end: the fold of those tagged [g]. *)
Lemma consume_current (kind : cacheKind) (g : N) (older : list (N * option (kv_entry V)))
    (l : list (watch_entry V)) (c c' : Caches) :
  (Caches.gen c kind <= g)%N -> same_view kind c c' ->
  Forall (fun x => (x.1 < g)%N) older -> Forall (fun e => we_Generation e = g) l -> l <> [] ->
  (older <> [] -> Caches.gen c' kind <> g) ->
  same_view kind (consume kind ((deliver <$> older) ++ l) c) (consume kind l c').
Proof.
  intros Hg Hv Ho Hl Hne Hc'. rewrite consume_app.
  destruct older as [|x older] using rev_ind; [by apply consume_view|]. clear IHolder.
  destruct l as [|e l]; [done|]. apply Forall_cons in Hl as [He Hl].
  apply new_generation_rebuilds.
  - rewrite consume_gen, fmap_app. cbn [fmap list_fmap]. rewrite last_snoc. simpl.
    apply Forall_app in Ho as [_ [Hx _]%Forall_cons].
    destruct x as [t [k|]]; simpl in *; unfold deliver; simpl; lia.
  - rewrite He. apply Hc'. by destruct older.
Qed.

Lemma apply_unmarked (kind : cacheKind) (e : watch_entry V) (c : Caches) :
  we_Synced e = false -> synced c kind = false -> synced (apply kind e c) kind = false.
Proof.
  intros He Hc. unfold apply. rewrite He.
  assert (synced (if (we_Generation e =? Caches.gen c kind)%N then c
     else reset kind (set_barrier (<[kind := we_Generation e]> (Caches.gen c))
                        (<[kind := false]> (synced c)) c)) kind = false) as Hc1
    by (case_match; [done|by destruct kind]).
  revert Hc1. generalize (if (we_Generation e =? Caches.gen c kind)%N then c
     else reset kind (set_barrier (<[kind := we_Generation e]> (Caches.gen c))
                        (<[kind := false]> (synced c)) c)).
  intros c1 Hc1. destruct kind; simpl.
  - unfold applyOverride. by repeat case_match.
  - unfold pulseSubscribers, applyJob, recordJob, deleteJob. repeat case_match; exact Hc1.
  - unfold applyActive. by repeat case_match.
  - unfold applySlot. by repeat case_match.
Qed.

(** The flag of a cache rises with a marker only. *)
Lemma consume_unmarked (kind : cacheKind) (l : list (watch_entry V)) (c : Caches) :
  Forall (fun e => we_Synced e = false) l -> synced c kind = false ->
  synced (consume kind l c) kind = false.
Proof.
  intros Hl. revert c. induction Hl as [|e l He Hl IH]; intros c Hc; [done|].
  by apply IH, apply_unmarked.
Qed.

Lemma tagged_gen (g : N) (l : list (option (kv_entry V))) :
  Forall (fun e => we_Generation e = g) (delivered g <$> l).
Proof. apply Forall_fmap, Forall_true. by intros [|]. Qed.

Lemma tagged_unmarked (g : N) (l : list (option (kv_entry V))) :
  None ∉ l -> Forall (fun e => we_Synced e = false) (delivered g <$> l).
Proof.
  intros Hn. apply Forall_fmap, Forall_forall. intros [k|] Hk; [done|by destruct Hn].
Qed.

(** A prefix reaches into the second part of a list, or lies in the first. *)
Lemma prefix_app_cases {A} (l a b : list A) :
  l `prefix_of` a ++ b -> l `prefix_of` a \/ exists b1, l = a ++ b1 /\ b1 `prefix_of` b.
Proof.
  revert l. induction a as [|x a IH]; intros l Hp; [right; by exists l|].
  destruct l as [|y l]; [left; apply prefix_nil|]. simpl in Hp.
  assert (y = x) as -> by by eapply prefix_cons_inv_1. apply prefix_cons_inv_2 in Hp.
  destruct (IH l Hp) as [?|(b1 & -> & Hb)]; [left; by apply prefix_cons|right; by exists b1].
Qed.

(** C10: from the server's watchers to the caches a replica decides from.  When
    a cache fed by a watch of the store connection is marked complete for the
    current generation, what it holds is the fold of the deliveries of the
    watchers opened under that generation and of nothing older: their whole
    initial replay, its marker, and a prefix of the later changes, each in the
    order the server delivered it. *)
Theorem replayed_cache (s : seam V) (id : N) (w : watch V) (kind : cacheKind)
    (read : list (watch_entry V)) :
  let c := consume kind read (startAttempt NewCaches) in
  seam_reachable s -> goroutines s !! id = Some w -> read `prefix_of` sent w ->
  synced c kind = true -> Caches.gen c kind = gen (cl s) ->
  exists older replay live folded,
    got w = older ++ (pair (gen (cl s)) <$> replay ++ None :: live) /\
    Forall (fun x => (x.1 < gen (cl s))%N) older /\ None ∉ replay /\ folded `prefix_of` live /\
    same_view kind c (consume kind (delivered (gen (cl s)) <$> replay ++ None :: folded) NewCaches).
Proof.
  intros c Hr%seam_reachable_ok Ew Hread Hsy Hg. set (g := gen (cl s)) in *.
  destruct (got_split s id w Hr Ew) as (older & new & Hgot & Ho). fold g in Hgot, Ho.
  pose proof (Hr id) as Hid. rewrite Ew in Hid. destruct (ok_sent _ _ _ Hid) as (lost & Hs & _).
  assert (read `prefix_of` (deliver <$> older) ++ (delivered g <$> new)) as Hp.
  { etrans; [exact Hread|]. rewrite Hgot, fmap_app, <-list_fmap_compose in Hs.
    eexists. symmetry. exact Hs. }
  assert (~ read `prefix_of` (deliver <$> older)) as Hnold.
  { intros Hold. subst c. rewrite consume_gen in Hg. destruct (last read) as [e|] eqn:El.
    - apply last_Some in El as [l' ->]. assert (e ∈ deliver <$> older) as Hin.
      { eapply elem_of_prefix; [|exact Hold]. apply elem_of_app. right. by apply list_elem_of_here. }
      apply list_elem_of_fmap in Hin as ([t u] & -> & Hin). rewrite Forall_forall in Ho.
      apply Ho in Hin. destruct u; unfold deliver in *; simpl in *; lia.
    - apply last_None in El as ->. by destruct kind. }
  destruct (prefix_app_cases _ _ _ Hp) as [|(b & Hb & [t Ht])]; [done|].
  apply fmap_app_inv in Ht as (new1 & rest & -> & -> & ->).
  assert (same_view kind c (consume kind (delivered g <$> new1) NewCaches)) as Hview.
  { subst c. rewrite Hb. apply (consume_current _ g); [destruct kind; simpl; lia|by destruct kind|done
      |apply tagged_gen| |].
    - intros ->%fmap_nil_inv. apply Hnold. by rewrite Hb, app_nil_r.
    - intros Hne. destruct older as [|x older]; [done|]. apply Forall_cons in Ho as [Hx _].
      destruct kind; simpl; lia. }
  assert (None ∈ new1) as Hin.
  { destruct (decide (Forall (fun u => is_Some u) new1)) as [Hall|Hnot].
    - exfalso. destruct Hview as (_ & Hv & _). rewrite Hsy, consume_unmarked in Hv; [done| |by destruct kind].
      apply tagged_unmarked. intros Hin. rewrite Forall_forall in Hall. by destruct (Hall _ Hin).
    - apply not_Forall_Exists, Exists_exists in Hnot as ([u|] & Hin & Hu); [|done|apply _].
      by destruct Hu. }
  apply first_None in Hin as (replay & folded & -> & Hn).
  exists older, replay, (folded ++ rest), folded. rewrite <-app_assoc in Hgot.
  split; [done|]. split; [done|]. split; [done|]. split; [by eexists|done].
Qed.
End composition.

(** ** The barrier opens again

    A run in which the connection is not cut: each watch has a rank, the steps
    it is from its marker at most when nothing holds it up, and every step of
    its own lowers it, but for what the server makes it go through. *)

(** The watch an event belongs to. *)
Definition event_watch {V} (e : seam_event V) : option N :=
  match e with
  | Disconnected => None
  | WatchCalled id _ | WatchOpened id _ | Passed id | MoveSeen id | Received id _ | Closed id _ | Sent id
  | Resumed id _ | Waited id | GenTaken id | Reopened id | OpenFailed id _ | CtxDone id => Some id
  end.

(** The generation stays where it is. *)
Definition stays_up {V} (e : seam_event V) : Prop :=
  match e with Disconnected | Closed _ true => False | _ => True end.

(** What an event of the server costs a watch: an entry is read, sent and looped
    past before the next, a re-open that fails is waited for and tried again,
    and a watcher that ends is re-opened from the start. *)
Definition cost {V} (e : seam_event V) : nat :=
  match e with Received _ (Some _) | OpenFailed _ _ => 3 | Closed _ _ => 6 | _ => 0 end.

Definition no_draw : Z -> Z := fun _ => 0.

Section resync.
  Context {V : Type}.
Implicit Types (w : watch V) (s : seam V).

Definition rank (cur : N) (p : phase V) : nat :=
  match p with
  | Called => 4
  | Starting g | Opening g => if (g =? cur)%N then 3 else 8
  | Looping g => if (g =? cur)%N then 2 else 7
  | Selecting g => if (g =? cur)%N then 1 else 9
  | Sending g _ => if (g =? cur)%N then 3 else 8
  | Cut _ => 6
  | Waiting _ => 5
  | Retrying => 4
  | Returned => 0
  end.
Definition rank_at (id : N) s : nat :=
  match goroutines s !! id with None => 5 | Some w => rank (gen (cl s)) (w_phase w) end.
(** A watch that has returned, or whose marker is of the current generation. *)
Definition settled (id : N) s : Prop :=
  (exists w, goroutines s !! id = Some w /\ w_phase w = Returned) \/
  (exists ws, watches (cl s) !! id = Some ws /\ syncedUnder (gen (cl s)) ws = true).

(** What a step was, from the equation that it could be taken. *)
Ltac step_cases H := unfold receive, finish_watch in H; repeat first
  [ match type of H with context [?o ≫= _] => destruct o eqn:?; simpl in H end | case_match | progress simplify_eq | progress simpl in *].

Lemma stays_up_gen (e : seam_event V) s s' : stays_up e -> seam_step e s = Some s' -> gen (cl s') = gen (cl s).
Proof.
  intros Hu H. destruct e; simpl in H, Hu; try done; destruct (goroutines s !! id) as [w|]; try done; simpl in H;
    try (destruct (w_phase w); try done); step_cases H; rewrite ?markSynced_gen; done.
Qed.

(** Another watch's event leaves a watch alone. *)
Lemma other_event (e : seam_event V) id s s' :
  event_watch e <> Some id -> seam_step e s = Some s' ->
  goroutines s' !! id = goroutines s !! id /\ watches (cl s') !! id = watches (cl s) !! id.
Proof.
  intros He H. destruct e as [|id'|id'|id'|id'|id' u|id'|id'|id'|id'|id'|id'|id'|id']; simpl in H, He;
    [by injection H as <-|..]; assert (id' <> id) as Hne by congruence;
    destruct (goroutines s !! id') as [w|]; try done; simpl in H;
    try (destruct (w_phase w); try done); step_cases H;
    rewrite ?markSynced_watches, ?lookup_insert_ne, ?lookup_delete_ne, ?lookup_alter_ne by done; done.
Qed.

(** A step of a watch's own brings it nearer its marker, or settles it. *)
Lemma own_event (e : seam_event V) id s s' :
  seam_ok s -> stays_up e -> event_watch e = Some id -> seam_step e s = Some s' ->
  settled id s' \/ (rank_at id s' + 1 <= rank_at id s + cost e)%nat.
Proof.
  intros Hs Hu He H. pose proof (stays_up_gen _ _ _ Hu H) as Hg. pose proof (Hs id) as Hid.
  destruct e as [|id'|id' ok|id'|id'|id' u|id' b|id'|id' dr|id'|id'|id'|id' dr|id']; simpl in H, He, Hu;
    try done; injection He as ->; unfold rank_at at 2; destruct (goroutines s !! id) as [w|] eqn:Ew; try done;
    simpl in H; try (destruct (w_phase w) eqn:Ep; try done).
  all: try (assert (Hs1 : registered (Selecting g) = true -> is_Some (watches (cl s) !! id))
              by (rewrite <-Ep; apply Hid)).
  all: try (step_cases H; left; left; eexists; simpl; by rewrite lookup_insert_eq).
  all: try (step_cases H; right; unfold rank_at; simpl; rewrite lookup_insert_eq; simpl;
            rewrite ?Ep, ?N.eqb_refl; simpl; repeat case_match; simplify_eq; try done; lia).
  injection H as <-. destruct (Hs1 eq_refl) as [ws Hws]. destruct u as [k|].
  { right. unfold rank_at, receive. simpl. rewrite lookup_insert_eq. simpl. case_match; lia. }
  destruct (N.eqb_spec g (gen (cl s))) as [->|Hne].
  - left. right. exists (setMarker (gen (cl s))). unfold receive. simpl.
    rewrite markSynced_watches, markSynced_gen, lookup_alter_eq, Hws. split; [done|].
    unfold syncedUnder. simpl. apply N.eqb_refl.
  - right. unfold rank_at, receive. simpl. rewrite lookup_insert_eq. simpl.
    rewrite markSynced_gen, (proj2 (N.eqb_neq _ _) Hne). lia.
Qed.

(** What is settled stays so while the connection does. *)
Lemma settled_step (e : seam_event V) id s s' :
  seam_ok s -> stays_up e -> seam_step e s = Some s' -> settled id s -> settled id s'.
Proof.
  intros Hs Hu H Hset. pose proof (stays_up_gen _ _ _ Hu H) as Hg.
  destruct (decide (event_watch e = Some id)) as [He|He].
  2: { destruct (other_event e id s s' He H) as [E1 E2].
       revert Hset. unfold settled. by rewrite E1, E2, Hg. }
  pose proof (Hs id) as Hid. destruct Hset as [(w & Ew & Ep)|(ws & Hws & Hsy)].
  { destruct e; simpl in H, He; try done; injection He as ->; rewrite Ew in H; simpl in H;
      rewrite ?Ep in H; simpl in H; repeat case_match; done. }
  destruct (goroutines s !! id) as [w|] eqn:Ew; [|congruence].
  unfold syncedUnder in Hsy. apply andb_true_iff in Hsy as [Hm Hgm%N.eqb_eq].
  pose proof (ok_marker _ _ _ Hid ws Hws Hm) as Hin. pose proof (ok_floor _ _ _ Hid) as Hfl.
  rewrite Forall_forall in Hfl. apply Hfl in Hin. simpl in Hin. rewrite Hgm in Hin.
  pose proof (ok_cur _ _ _ Hid) as Hc. pose proof (proj1 (ok_registered _ _ _ Hid) ltac:(by eexists)) as Hreg.
  assert (syncedUnder (gen (cl s)) ws = true) as Hsy by (unfold syncedUnder; rewrite Hm, Hgm; apply N.eqb_refl).
  destruct e as [|id'|id' ok|id'|id'|id' u|id' b|id'|id' dr|id'|id'|id'|id' dr|id']; simpl in H, He, Hu;
    try done; injection He as ->; rewrite Ew in H; simpl in H; try (destruct (w_phase w) eqn:Ep; try done).
  all: simpl in *.
  all: try (step_cases H; right; exists ws; simpl; split; congruence).
  all: try (step_cases H; left; eexists; simpl; by rewrite lookup_insert_eq).
  injection H as <-. assert (g = gen (cl s)) as -> by lia. right. unfold receive. destruct u as [k|].
  - exists ws. simpl. by rewrite Hws.
  - exists (setMarker (gen (cl s))). simpl.
    rewrite markSynced_watches, markSynced_gen, lookup_alter_eq, Hws. split; [done|].
    unfold syncedUnder. simpl. apply N.eqb_refl.
Qed.

(** A registered watch stays registered until its caller's context ends. *)
Lemma registered_step (e : seam_event V) id s s' :
  stays_up e -> e <> CtxDone id -> seam_step e s = Some s' ->
  is_Some (watches (cl s) !! id) -> is_Some (watches (cl s') !! id).
Proof.
  intros Hu Hc H Hw. destruct (decide (event_watch e = Some id)) as [He|He].
  2: { by rewrite (proj2 (other_event e id s s' He H)). }
  destruct e as [|id'|id' ok|id'|id'|id' u|id' b|id'|id' dr|id'|id'|id'|id' dr|id']; simpl in H, He, Hu;
    try done; injection He as ->; try done; destruct (goroutines s !! id) as [w|]; try done; simpl in H;
    try (destruct (w_phase w); try done); step_cases H; simpl;
    rewrite ?markSynced_watches, ?lookup_insert_eq, ?lookup_alter_eq, ?fmap_is_Some; done.
Qed.

(** A watch that is not settled has a step of its own that costs it nothing. *)
Lemma never_stuck id s ws :
  seam_ok s -> watches (cl s) !! id = Some ws ->
  exists (e : seam_event V) s', event_watch e = Some id /\ stays_up e /\ cost e = 0%nat /\ e <> CtxDone id /\
    seam_step e s = Some s'.
Proof.
  intros Hs Hws. pose proof (Hs id) as Hid. destruct (goroutines s !! id) as [w|] eqn:Ew; [|congruence].
  pose proof (proj1 (ok_registered _ _ _ Hid) ltac:(by eexists)) as Hreg.
  assert (forall e : seam_event V, event_watch e = Some id -> stays_up e -> cost e = 0%nat ->
    e <> CtxDone id -> is_Some (seam_step e s) ->
    exists (e : seam_event V) s', event_watch e = Some id /\ stays_up e /\ cost e = 0%nat /\ e <> CtxDone id /\
      seam_step e s = Some s') as Hby by (intros e ? ? ? ? [s' ?]; by exists e, s').
  destruct (w_phase w) eqn:Ep; try discriminate Hreg;
    [apply (Hby (Passed id))|apply (Hby (Received id None))|apply (Hby (Sent id))|apply (Hby (Resumed id no_draw))
    |apply (Hby (Waited id))|apply (Hby (GenTaken id))|apply (Hby (Reopened id))]; try done;
    simpl; rewrite Ew; simpl; rewrite Ep; simpl; rewrite ?Hws; by eexists.
Qed.

(** An endless run after the last cut: at each moment an event, or nothing.  The
    connection is not cut and no new watch is asked for; each watch that is not
    settled has another event of its own in time, which is the scheduler running its
    goroutine, its timer firing and the server answering it; and what the server
    makes a watch repeat before its marker ends. *)
Record recovers (tr : nat -> option (seam_event V)) (st : nat -> seam V) : Prop := {
  rec_step n : match tr n with Some e => seam_step e (st n) = Some (st (S n)) | None => st (S n) = st n end;
  rec_up n e : tr n = Some e -> stays_up e /\ (forall id view, e <> WatchCalled id view);
  rec_fair n id : is_Some (goroutines (st n) !! id) ->
    exists m, (n <= m)%nat /\ (settled id (st m) \/ exists e, tr m = Some e /\ event_watch e = Some id);
  rec_calm : exists N, forall n e id, (N <= n)%nat -> tr n = Some e -> event_watch e = Some id ->
    settled id (st n) \/ cost e = 0%nat
}.

Section run.
  Context (tr : nat -> option (seam_event V)) (st : nat -> seam V) (H : recovers tr st).

(** What every step keeps holds from a moment on. *)
Lemma run_keeps (P : seam V -> Prop) (n m : nat) :
  (forall k e, tr k = Some e -> seam_step e (st k) = Some (st (S k)) -> P (st k) -> P (st (S k))) ->
  (n <= m)%nat -> P (st n) -> P (st m).
Proof.
  intros HP Hle Hn. induction Hle as [|m Hle IH]; [done|]. pose proof (rec_step _ _ H m) as Hm.
  destruct (tr m) as [e|] eqn:E; [by eapply HP|by rewrite Hm].
Qed.

Lemma run_gen (n : nat) : gen (cl (st n)) = gen (cl (st 0%nat)).
Proof.
  apply (run_keeps (fun s => gen (cl s) = gen (cl (st 0%nat))) 0 n); [|lia|done].
  intros k e Hk E <-. eapply stays_up_gen; [|done]. by eapply rec_up.
Qed.

Hypothesis (H0 : seam_ok (st 0%nat)).

Lemma run_ok (n : nat) : seam_ok (st n).
Proof. apply (run_keeps seam_ok 0 n); [|lia|done]. intros. by eapply seam_step_ok. Qed.

Lemma run_settled (id : N) (n m : nat) : (n <= m)%nat -> settled id (st n) -> settled id (st m).
Proof.
  apply (run_keeps (settled id)). intros k e Hk E. eapply settled_step; [apply run_ok| |done].
  by eapply rec_up.
Qed.

(** The same watches run throughout. *)
Lemma run_watches (id : N) (n : nat) :
  is_Some (goroutines (st n) !! id) <-> is_Some (goroutines (st 0%nat) !! id).
Proof.
  apply (run_keeps (fun s => is_Some (goroutines s !! id) <-> is_Some (goroutines (st 0%nat) !! id)) 0 n);
    [|lia|done].
  intros k e Hk E <-. destruct (rec_up _ _ H k e Hk) as [_ Hnew].
  destruct (decide (event_watch e = Some id)) as [He|He].
  2: { by rewrite (proj1 (other_event e id _ _ He E)). }
  destruct e as [|id'|id' ok|id'|id'|id' u|id' b|id'|id' dr|id'|id'|id'|id' dr|id']; simpl in E, He;
    try done; try (by destruct (Hnew id' view)); injection He as ->;
    destruct (goroutines (st k) !! id) as [w|]; try done; simpl in E; try (destruct (w_phase w); try done);
    step_cases E; simpl; try (rewrite <-E); simpl; rewrite ?lookup_insert_eq; by split; eexists.
Qed.

Context (N0 : nat) (Hcalm : forall n e id, (N0 <= n)%nat -> tr n = Some e -> event_watch e = Some id ->
  settled id (st n) \/ cost e = 0%nat).

(** Once it is calm, no rank grows; a watch's own event lowers its rank. *)
Lemma run_rank_step (id : N) (n : nat) :
  (N0 <= n)%nat -> settled id (st (S n)) \/
  (rank_at id (st (S n)) + (match tr n with Some e => if decide (event_watch e = Some id) then 1 else 0
                            | None => 0 end) <= rank_at id (st n))%nat.
Proof.
  intros Hn. pose proof (rec_step _ _ H n) as Hs. destruct (tr n) as [e|] eqn:E; [|right; rewrite Hs; lia].
  destruct (rec_up _ _ H n e E) as [Hu _]. destruct (decide (event_watch e = Some id)) as [He|He].
  - destruct (own_event e id _ _ (run_ok n) Hu He Hs) as [?|Hr]; [by left|].
    destruct (Hcalm n e id Hn E He) as [Hset|Hc]; [|right; lia].
    left. eapply run_settled; [|done]. lia.
  - right. assert (rank_at id (st (S n)) = rank_at id (st n)) as ->; [|lia]. unfold rank_at.
    by rewrite (proj1 (other_event e id _ _ He Hs)), (stays_up_gen e _ _ Hu Hs).
Qed.

Lemma run_rank (id : N) (n m : nat) :
  (N0 <= n <= m)%nat -> settled id (st m) \/ (rank_at id (st m) <= rank_at id (st n))%nat.
Proof.
  intros [Hn Hle]. induction Hle as [|m Hle IH]; [right; lia|].
  destruct IH as [?|IH]; [left; eapply run_settled; [|done]; lia|].
  destruct (run_rank_step id m ltac:(lia)) as [?|Hr]; [by left|right]. lia.
Qed.

Lemma run_settles (id : N) (n : nat) :
  (N0 <= n)%nat -> is_Some (goroutines (st n) !! id) -> exists m, (n <= m)%nat /\ settled id (st m).
Proof.
  remember (rank_at id (st n)) as r eqn:Er. revert n Er.
  induction (lt_wf r) as [r _ IH]. intros n -> Hn Hid.
  destruct (rec_fair _ _ H n id Hid) as (m & Hm & [?|(e & E & He)]); [by exists m|].
  destruct (run_rank id n m ltac:(lia)) as [?|Hr1]; [by exists m|].
  pose proof (run_rank_step id m ltac:(lia)) as [?|Hr2]; [exists (S m); split; [lia|done]|].
  rewrite E, decide_True in Hr2 by done.
  destruct (IH (rank_at id (st (S m))) ltac:(lia) (S m) eq_refl ltac:(lia)) as (k & Hk & Hset).
  { apply run_watches. by apply run_watches in Hid. }
  exists k. split; [lia|done].
Qed.

(** So from some moment on all of a list of watches are settled. *)
Lemma run_all_settle (ids : list N) :
  Forall (fun id => is_Some (goroutines (st 0%nat) !! id)) ids ->
  exists n, forall m, (n <= m)%nat -> Forall (fun id => settled id (st m)) ids.
Proof.
  induction 1 as [|id ids Hid _ [n IH]]; [by exists O|].
  destruct (run_settles id N0 ltac:(lia)) as (k & _ & Hset). { by apply run_watches. }
  exists (n + k)%nat. intros m Hm. constructor; [|apply IH; lia]. eapply run_settled; [|done]. lia.
Qed.
End run.

Lemma seam_run_app (l1 l2 : list (seam_event V)) s :
  seam_run (l1 ++ l2) s = s1 ← seam_run l1 s; seam_run l2 s1.
Proof.
  revert s. induction l1 as [|e l1 IH]; intros s; [done|]. simpl.
  destruct (seam_step e s); [apply IH|done].
Qed.

(** An event of a connection that stays up and opens no further watch. *)
Definition up_event (e : seam_event V) : bool :=
  match e with Disconnected | Closed _ true | WatchCalled _ _ => false | _ => true end.

Lemma goroutine_stays (l : list (seam_event V)) s s' id :
  seam_run l s = Some s' -> is_Some (goroutines s !! id) -> is_Some (goroutines s' !! id).
Proof.
  revert s. induction l as [|e l IH]; simpl; intros s H Hid; [by injection H as <-|].
  destruct (seam_step e s) as [s1|] eqn:E; [|done]. apply (IH s1 H).
  destruct (decide (event_watch e = Some id)) as [He|He]; [|by rewrite (proj1 (other_event e id s s1 He E))].
  destruct e as [|id'|id' ok|id'|id'|id' u|id' b|id'|id' dr|id'|id'|id'|id' dr|id']; simpl in E, He;
    try done; injection He as ->; destruct (goroutines s !! id) as [w|]; try done; simpl in E;
    try (destruct (w_phase w); try done); step_cases E; simpl; rewrite ?lookup_insert_eq; by eexists.
Qed.

(** A run that settles every watch, and nothing after it. *)
Lemma run_then_rest (l : list (seam_event V)) s s' :
  seam_run l s = Some s' -> Forall (fun e => up_event e = true) l ->
  (forall id, is_Some (goroutines s' !! id) -> settled id s') ->
  recovers (fun n => l !! n) (fun n => default s (seam_run (take n l) s)).
Proof.
  intros Hl Hup Hset.
  assert (forall n, exists s1, seam_run (take n l) s = Some s1 /\ seam_run (drop n l) s1 = Some s') as Hat.
  { intros n. rewrite <-(take_drop n l), seam_run_app in Hl.
    destruct (seam_run (take n l) s) as [s1|]; [by exists s1|done]. }
  assert (forall n, (length l <= n)%nat -> default s (seam_run (take n l) s) = s') as Hend.
  { intros n Hn. by rewrite take_ge, Hl by done. }
  split.
  - intros n. destruct (l !! n) as [e|] eqn:E.
    + rewrite (take_S_r l n e E), seam_run_app. destruct (Hat n) as (s1 & -> & Hd). simpl.
      rewrite (drop_S l e n E) in Hd. simpl in Hd. by destruct (seam_step e s1).
    + apply lookup_ge_None in E. by rewrite !Hend by lia.
  - intros n e E. rewrite Forall_forall in Hup. apply list_elem_of_lookup_2, Hup in E.
    destruct e as [| | | | | |? []| | | | | | |]; by repeat split.
  - intros n id Hid. exists (n + length l)%nat. split; [lia|]. left. rewrite Hend by lia. apply Hset.
    destruct (Hat n) as (s1 & Hs1 & Hd). rewrite Hs1 in Hid. by eapply goroutine_stays.
  - exists (length l). intros n e id Hn E. apply lookup_lt_Some in E. lia.
Qed.

(** C11: the barrier opens again.  Take any endless run from any state the store
    connection can reach, whatever was cut and wherever each watch stands in
    its replay, its backoff or its re-opening, in which the connection is not
    cut again, no new watch is asked for, each watch whose marker is still out
    goes on having events of its own, and the server makes it repeat itself
    only so often.  Then a watch whose caller's context does not end stays
    registered, and from some moment on [Synced] answers true for the generation the
    connection has: no schedule of the goroutines, no wait and no marker of an
    older generation keeps it closed.  Nor can a watch come to be without an
    event of its own: a registered one always has a next step that is no failure. *)
Theorem barrier_reopens (tr : nat -> option (seam_event V)) (st : nat -> seam V) :
  seam_reachable (st 0%nat) -> recovers tr st ->
  (forall id n, is_Some (watches (cl (st 0%nat)) !! id) -> (forall k, tr k <> Some (CtxDone id)) ->
    is_Some (watches (cl (st n)) !! id)) /\
  (forall id n, is_Some (watches (cl (st n)) !! id) ->
    exists (e : seam_event V) s', event_watch e = Some id /\ stays_up e /\ cost e = 0%nat /\ e <> CtxDone id /\
      seam_step e (st n) = Some s') /\
  exists n, forall m, (n <= m)%nat -> Synced (gen (cl (st 0%nat))) (cl (st m)) = true.
Proof.
  intros Hr%seam_reachable_ok H. split; [|split].
  - intros id n Hw Hn. apply (run_keeps tr st H (fun s => is_Some (watches (cl s) !! id)) 0 n); [|lia|done].
    intros k e Hk E. apply (registered_step e); [by eapply rec_up|by intros ->; apply (Hn k)|done].
  - intros id n [ws Hws]. eapply never_stuck; [by eapply run_ok|done].
  - destruct (rec_calm _ _ H) as [N0 Hcalm].
    destruct (run_all_settle tr st H Hr N0 Hcalm (map_to_list (goroutines (st 0%nat))).*1) as [n Hn].
    { apply Forall_fmap, Forall_forall. intros [id w] Hin. apply elem_of_map_to_list in Hin. by exists w. }
    exists n. intros m Hm. specialize (Hn m Hm). rewrite Forall_forall in Hn.
    apply Synced_spec. rewrite (run_gen tr st H m). split; [done|]. intros id ws Hws.
    pose proof (run_ok tr st H Hr m id) as Hid. destruct (goroutines (st m) !! id) as [w|] eqn:Ew; [|congruence].
    destruct (proj1 (run_watches tr st H id m) ltac:(by eexists)) as [w0 Hw0].
    destruct (Hn id) as [(w1 & Ew1 & Ep)|(ws' & Hws' & Hsy)].
    + apply list_elem_of_fmap. exists (id, w0). split; [done|]. by apply elem_of_map_to_list.
    + pose proof (proj1 (ok_registered _ _ _ Hid) ltac:(by eexists)) as Hreg.
      rewrite Ew in Ew1. injection Ew1 as <-. by rewrite Ep in Hreg.
    + rewrite Hws in Hws'. injection Hws' as <-. by rewrite <-(run_gen tr st H m).
Qed.
End resync.

(** ** The backoff *)

(** The waits of a watch that keeps failing to re-open.  The n-th wait in a
    row since the last replay is drawn from the upper half of a schedule that
    starts at 50 milliseconds, doubles each time, and stays at 30 seconds once
    it is there: no wait is shorter than 25 milliseconds or longer than 30
    seconds, and the arithmetic never overflows. *)
Theorem draws_bounds (Int64N : nat -> Z -> Z) (n i : nat) (d : duration) :
  (forall k m, 0 < m -> 0 <= Int64N k m < m) ->
  draws Int64N n reset_backoff !! i = Some d ->
  let step := Z.min (reopenFirst * 2 ^ Z.of_nat i) reopenCap in
  step / 2 <= d <= step.
Proof.
  intros Hrng. assert (forall k b, 0 < next b <= reopenCap ->
    forall Int64N, (forall k m, 0 < m -> 0 <= Int64N k m < m) ->
    draws Int64N n b !! k = Some d ->
    Z.min (next b * 2 ^ Z.of_nat k) reopenCap / 2 <= d <= Z.min (next b * 2 ^ Z.of_nat k) reopenCap) as Hgen.
  2: { intros Hd. by apply (Hgen i reset_backoff ltac:(done) Int64N). }
  clear. induction n as [|n IH]; intros k b Hb rng Hrng Hd; [done|].
  change reopenCap with 30000000000 in *. simpl in Hd.
  assert (next b /! 2 = next b / 2) as E1 by (apply quot64_div; [unfold max_int64; lia|done]).
  assert (0 <= next b / 2 <= 15000000000) as Hh
    by (split; [apply Z.div_pos; lia|apply Z.div_le_upper_bound; lia]).
  pose proof (Z.mul_div_le (next b) 2 ltac:(done)).
  rewrite E1 in Hd. rewrite (wrap64_id (next b / 2 + 1)) in Hd by in64.
  pose proof (Hrng O (next b / 2 + 1) ltac:(lia)) as Hr0.
  destruct k as [|k]; simpl in Hd.
  - injection Hd as <-. change (2 ^ Z.of_nat 0) with 1. rewrite wrap64_id by in64.
    rewrite Z.min_l by lia. replace (next b * 1) with (next b) by lia. lia.
  - rewrite (wrap64_id (next b * 2)) in Hd by in64.
    specialize (IH k {| next := Z.min (next b * 2) 30000000000 |}). cbn [next] in IH.
    specialize (IH ltac:(lia) (fun k => rng (S k)) ltac:(intros; by apply Hrng) Hd).
    rewrite Nat2Z.inj_succ, Z.pow_succ_r by lia.
    assert (1 <= 2 ^ Z.of_nat k) by (apply (Z.pow_le_mono_r 2 0); lia).
    replace (Z.min (Z.min (next b * 2) 30000000000 * 2 ^ Z.of_nat k) 30000000000)
      with (Z.min (next b * (2 * 2 ^ Z.of_nat k)) 30000000000) in IH by nia. exact IH.
Qed.

(** ** The theorems at a concrete input *)

Definition demo_kve (id : string) (rev : N) : kv_entry tagged :=
  {| kve_Key := jobKey id; kve_Value := Some (TJob sample_job); kve_Revision := rev; kve_Created := 0;
     kve_Operation := KeyValuePut |}.

(** A watch cut by a disconnection in the middle of its first replay, re-opened
    under the next generation, replayed and then live. *)
Definition demo_events : list (seam_event tagged) :=
  let first := demo_kve "0123456789abcdefghjk" 3 in
  let second := demo_kve "0123456789abcdefghjm" 4 in
  [WatchCalled 1 0; GenTaken 1; WatchOpened 1 true; Passed 1; Received 1 (Some first); Sent 1;
   Disconnected; Passed 1; Resumed 1 no_draw; Waited 1; GenTaken 1; OpenFailed 1 no_draw; Waited 1;
   GenTaken 1; Reopened 1; Passed 1; Received 1 (Some first); Sent 1; Passed 1; Received 1 None; Sent 1;
   Passed 1; Received 1 (Some second); Sent 1].

Definition demo_seam : seam tagged := default new_seam (seam_run demo_events new_seam).
Definition demo_watch : watch tagged :=
  default {| w_phase := Called; w_backoff := reset_backoff; got := []; sent := [] |}
    (goroutines demo_seam !! 1%N).

Lemma demo_seam_reachable : seam_reachable demo_seam.
Proof.
  apply (seam_run_reachable demo_events new_seam); [constructor|]. unfold demo_seam.
  destruct (seam_run demo_events new_seam) eqn:E; [done|]. by vm_compute in E.
Qed.

Lemma seam_barrier_witness :
  (Synced 1 (cl demo_seam) = true /\ watches (cl demo_seam) !! 1%N = Some (setMarker 1)) /\
  exists w older replay live, goroutines demo_seam !! 1%N = Some w /\
    got w = older ++ (pair 1%N <$> replay ++ None :: live) /\
    (deliver <$> older) ++ (delivered 1 <$> replay) `prefix_of` sent w.
Proof.
  split; [split; vm_compute; reflexivity|].
  destruct (seam_barrier demo_seam 1 1 (setMarker 1) demo_seam_reachable ltac:(by vm_compute)
    ltac:(by vm_compute)) as (_ & w & older & replay & live & Hw & Hgot & _ & _ & Hp).
  exists w, older, replay, live. split; [exact Hw|]. split; [exact Hgot|exact Hp].
Defined.

Lemma replayed_cache_witness :
  let c := consume cacheJobs (sent demo_watch) (startAttempt NewCaches) in
  (synced c cacheJobs = true /\ Caches.gen c cacheJobs = gen (cl demo_seam)) /\
  exists older replay live folded,
    got demo_watch = older ++ (pair (gen (cl demo_seam)) <$> replay ++ None :: live) /\
    same_view cacheJobs c
      (consume cacheJobs (delivered (gen (cl demo_seam)) <$> replay ++ None :: folded) NewCaches).
Proof.
  split; [split; vm_compute; reflexivity|].
  destruct (replayed_cache demo_seam 1 demo_watch cacheJobs (sent demo_watch) demo_seam_reachable
    ltac:(by vm_compute) ltac:(done) ltac:(by vm_compute) ltac:(by vm_compute))
    as (older & replay & live & folded & Hgot & _ & _ & _ & Hv).
  exists older, replay, live, folded. split; [exact Hgot|exact Hv].
Defined.

(** A watch waiting in its backoff. *)
Definition demo_down : seam tagged :=
  default new_seam (seam_run (take 9 demo_events) new_seam).

(** It waits, re-opens with one failure on the way, and replays; then nothing
    happens any more. *)
Definition demo_back : nat -> option (seam_event tagged) := fun n => drop 9 demo_events !! n.
Definition demo_backs (n : nat) : seam tagged :=
  default demo_down (seam_run (take n (drop 9 demo_events)) demo_down).

Lemma demo_down_reachable : seam_reachable demo_down.
Proof.
  apply (seam_run_reachable (take 9 demo_events) new_seam); [constructor|]. unfold demo_down.
  destruct (seam_run (take 9 demo_events) new_seam) eqn:E; [done|]. by vm_compute in E.
Qed.

Lemma demo_recovers : recovers demo_back demo_backs.
Proof.
  destruct (seam_run (drop 9 demo_events) demo_down) as [s'|] eqn:E; [|by vm_compute in E].
  apply (run_then_rest (drop 9 demo_events) demo_down s' E).
  - apply (bool_decide_unpack (Forall (fun e => up_event e = true) (drop 9 demo_events))). vm_compute; exact I.
  - assert (s' = default demo_down (seam_run (drop 9 demo_events) demo_down)) as -> by by rewrite E. clear E.
    assert (map_Forall (fun id _ => id = 1%N)
      (goroutines (default demo_down (seam_run (drop 9 demo_events) demo_down)))) as Hone
      by (apply (bool_decide_unpack _); vm_compute; exact I).
    intros id [w Hw]. rewrite (Hone id w Hw).
    right. exists (setMarker 1). split; vm_compute; reflexivity.
Qed.

Lemma barrier_reopens_witness :
  Synced (gen (cl demo_down)) (cl demo_down) = false /\
  exists n, forall m, (n <= m)%nat -> Synced (gen (cl demo_down)) (cl (demo_backs m)) = true.
Proof.
  split; [vm_compute; reflexivity|].
  exact (proj2 (proj2 (barrier_reopens demo_back demo_backs demo_down_reachable demo_recovers))).
Defined.

Lemma draws_bounds_witness :
  draws (fun _ _ => 0) 11 reset_backoff !! 10%nat = Some 15000000000 /\
  Z.min (reopenFirst * 2 ^ Z.of_nat 10) reopenCap / 2 <= 15000000000.
Proof.
  split; [vm_compute; reflexivity|].
  apply (draws_bounds (fun _ _ => 0) 11 10 15000000000); [lia|vm_compute; reflexivity].
Defined.
