(* ===== verification/StoreViews.v ===== *)
(** * The views of the buckets

    src/internal/natskv/client.go: what [kvView] and [objView] do around one
    call to nats.go, and the read of an object chunk by chunk; statusFromStream
    and preflight.go's bucket contract.  The world [W] holds the client, the
    server and every other goroutine; each function of nats.go is an argument
    that answers and moves the world on. *)

From S2P Require Import Prelude Effects Records Keys Caches Sha256 Seam.

(** Go's [(T, error)] with an error of nats.go. *)
Inductive js_result (A : Type) :=
  | JsOk (a : A)
  | JsErr (e : js_error).
Arguments JsOk {A} a.
Arguments JsErr {A} e.

(** ** The bucket contract *)

Inductive storage_type := FileStorage | MemoryStorage | OtherStorage.
Inductive discard_policy := DiscardOld | DiscardNew | OtherDiscard.

(** The fields of [jetstream.StreamConfig] the seam reads. *)
Record StreamConfig := {
  sc_MaxAge : duration;
  sc_MaxMsgSize : Z;
  sc_MaxBytes : Z;
  sc_Storage : storage_type;
  sc_Discard : discard_policy
}.

Record Status := {
  st_TTL : duration;
  st_MaxValueSize : Z;
  st_MaxBytes : Z;
  st_Storage : string;
  st_Discard : string
}.

(** [statusFromStream]. *)
Definition statusFromStream (cfg : StreamConfig) : Status :=
  {| st_TTL := sc_MaxAge cfg; st_MaxValueSize := sc_MaxMsgSize cfg; st_MaxBytes := sc_MaxBytes cfg;
     st_Storage := match sc_Storage cfg with
                   | FileStorage => "file" | MemoryStorage => "memory" | OtherStorage => EmptyString end;
     st_Discard := match sc_Discard cfg with
                   | DiscardOld => "old" | DiscardNew => "new" | OtherDiscard => EmptyString end |}.

Definition maxRecordBytes : Z := Z.shiftl 512 10.
Definition minKVMaxBytes : Z := Z.shiftl 64 20.
Definition minObjectMaxBytes : Z := Z.shiftl 1 30.

(** [checkBucketContract]: the field of the bucket it refuses. *)
Inductive contract_fault := FaultTTL | FaultStorage | FaultDiscard | FaultMaxBytes | FaultMaxValueSize.

Definition checkBucketContract (st : Status) (minMaxBytes : Z) (checkValSize : bool) :
    option contract_fault :=
  if negb (st_TTL st =? 0) then Some FaultTTL
  else if negb (String.eqb (st_Storage st) "file") then Some FaultStorage
  else if negb (String.eqb (st_Discard st) "new") then Some FaultDiscard
  else if (0 <=? st_MaxBytes st) && (st_MaxBytes st <? minMaxBytes) then Some FaultMaxBytes
  else if checkValSize && (0 <=? st_MaxValueSize st) && (st_MaxValueSize st <? maxRecordBytes)
  then Some FaultMaxValueSize
  else None.

(** [strings.Contains]. *)
Fixpoint contains (sub s : string) : bool :=
  has_prefix sub s ||
  match s with
  | EmptyString => false
  | String _ s' => contains sub s'
  end.

(** ** The Object Store of nats.go *)

(** The fields of [jetstream.ObjectInfo] the seam reads. *)
Record js_object := {
  jo_Name : string;
  jo_NUID : string;
  jo_Size : Z;
  jo_ModTime : time;
  jo_Digest : string
}.

(** The fields [createChunkConsumer] sets that differ from one call to another;
    [cc_Start] is [OptStartSeq], [None] under [DeliverAllPolicy]. *)
Record ConsumerConfig := {
  cc_Name : string;
  cc_FilterSubject : string;
  cc_Start : option N;
  cc_InactiveThreshold : duration
}.

Definition artifactsBucket : string := "PROFGATE_ARTIFACTS".
Definition artifactsStream : string := "OBJ_" +:+ artifactsBucket.
Definition chunkConsumerName : string := "profgate-get-".
Definition chunkInactiveThreshold : duration := 5 * minute.

Definition chunkNextSubject (consumer : string) : string :=
  "$JS.API.CONSUMER.MSG.NEXT." +:+ artifactsStream +:+ "." +:+ consumer.

(** [newChunkConsumerName], of the eight random bytes it draws. *)
Definition newChunkConsumerName (b : list Z) : string :=
  chunkConsumerName +:+ hex_encode b.

(** [chunkConsumerConfig]. *)
Definition chunkConsumerConfig (name nuid : string) : ConsumerConfig :=
  {| cc_Name := name; cc_FilterSubject := "$O." +:+ artifactsBucket +:+ ".C." +:+ nuid;
     cc_Start := None; cc_InactiveThreshold := chunkInactiveThreshold |}.

(** The config [createChunkConsumer] sends. *)
Definition resume_config (name nuid : string) (after : N) : ConsumerConfig :=
  let cfg := chunkConsumerConfig name nuid in
  if (0 <? after)%N
  then {| cc_Name := cc_Name cfg; cc_FilterSubject := cc_FilterSubject cfg;
          cc_Start := Some (after + 1)%N; cc_InactiveThreshold := cc_InactiveThreshold cfg |}
  else cfg.

(** What a pull request is answered with: the status header, empty on a chunk,
    its data, and the stream sequence and the number of chunks left, absent
    when [Metadata] fails. *)
Record msg := {
  m_Status : string;
  m_Description : string;
  m_Data : string;
  m_Metadata : option (N * N)
}.

Inductive pull :=
  | Chunk (m : msg)
  | ConsumerGone
  | PullFailed (e : js_error).

(** [pullChunk], of what the subscription and the publish answer, and then of
    what [NextMsgWithContext] does. *)
Definition pullChunk (r : js_result (js_result msg)) : pull :=
  match r with
  | JsErr e => PullFailed e
  | JsOk (JsErr e) => if e NoResponders then ConsumerGone else PullFailed e
  | JsOk (JsOk m) =>
      if String.eqb (m_Status m) EmptyString then Chunk m
      else if String.eqb (m_Status m) "408" then PullFailed (js_is NatsTimeout)
      else if String.eqb (m_Status m) "409" && contains "Consumer Deleted" (m_Description m)
      then ConsumerGone
      else PullFailed (fun _ => false)
  end.

(** ** The views *)

Section views.
  Context {V W : Type}.
  Variable client_of : W -> client.
  Variable js_Get : string -> W -> js_result (kv_entry V) * W.
  Variable js_Create : string -> V -> W -> js_result N * W.
  Variable js_Update : string -> V -> N -> W -> js_result N * W.
  Variable js_Delete : string -> N -> W -> js_result unit * W.
  Variable js_Keys : W -> js_result (list string) * W.
  Variable js_KVStatus : W -> js_result (option StreamConfig) * W.
  Variable js_Put : string -> string -> W -> js_result unit * W.
  Variable js_GetInfo : string -> W -> js_result js_object * W.
  Variable js_CreateConsumer : ConsumerConfig -> W -> option js_error * W.
  Variable js_DeleteConsumer : string -> W -> W.
  Variable js_DeleteObject : string -> W -> js_result unit * W.
  Variable js_List : W -> js_result (list js_object) * W.
  Variable js_ObjStatus : W -> js_result (option StreamConfig) * W.
  Variable rand8 : W -> list Z * W.

(** The two checks a view makes around its call: [pre] keeps a superseded view
    off the server, [post] discards whatever it answered. *)
Definition guarded {A B} (g : N) (call : W -> A * W) (answer : A -> result B) (w : W) :
    result B * W :=
  match genCheck g (client_of w) with
  | Err e => (Err e, w)
  | Ok _ =>
      let '(r, w') := call w in
      match genCheck g (client_of w') with
      | Err e => (Err e, w')
      | Ok _ => (answer r, w')
      end
  end.

Definition kv_Get (g : N) (key : string) : W -> result (watch_entry V) * W :=
  guarded g (js_Get key) (fun r =>
    match r with
    | JsErr e => if e JSKeyNotFound || e JSKeyDeleted then Err ErrKeyNotFound else Err (failure e)
    | JsOk kve => Ok (entryFromKVE kve g)
    end).

Definition kv_Create (g : N) (key : string) (value : V) : W -> result N * W :=
  guarded g (js_Create key value) (fun r =>
    match r with
    | JsErr e => if e JSKeyExists then Err ErrKeyExists else Err (failure e)
    | JsOk rev => Ok rev
    end).

Definition kv_Update (g : N) (key : string) (value : V) (expected : N) : W -> result N * W :=
  guarded g (js_Update key value expected) (fun r =>
    match r with
    | JsErr e => if e JSKeyRevisionMismatch then Err ErrRevisionMismatch else Err (failure e)
    | JsOk rev => Ok rev
    end).

Definition kv_Delete (g : N) (key : string) (expected : N) : W -> result unit * W :=
  guarded g (js_Delete key expected) (fun r =>
    match r with
    | JsErr e => if e JSKeyRevisionMismatch then Err ErrRevisionMismatch else Err (failure e)
    | JsOk _ => Ok tt
    end).

Definition kv_Keys (g : N) (prefix : string) : W -> result (list string) * W :=
  guarded g js_Keys (fun r =>
    match r with
    | JsErr e => if e JSNoKeysFound then Ok [] else Err (failure e)
    | JsOk all => Ok (filter (fun k => has_prefix prefix k = true) all)
    end).

(** [Status] of either kind of view; [None] when the status nats.go returns is
    not of the type it documents. *)
Definition status_answer (r : js_result (option StreamConfig)) : result Status :=
  match r with
  | JsErr e => Err (failure e)
  | JsOk None => Err ErrOther
  | JsOk (Some cfg) => Ok (statusFromStream cfg)
  end.
Definition kv_Status (g : N) : W -> result Status * W := guarded g js_KVStatus status_answer.
Definition obj_Status (g : N) : W -> result Status * W := guarded g js_ObjStatus status_answer.

Definition obj_Put (g : N) (name body : string) : W -> result unit * W :=
  guarded g (js_Put name body) (fun r =>
    match r with
    | JsErr e => Err (failure e)
    | JsOk _ => Ok tt
    end).

Definition obj_Delete (g : N) (name : string) : W -> result unit * W :=
  guarded g (js_DeleteObject name) (fun r =>
    match r with
    | JsErr e => if e JSObjectNotFound then Ok tt else Err (failure e)
    | JsOk _ => Ok tt
    end).

Definition obj_List (g : N) : W -> result (list object_info) * W :=
  guarded g js_List (fun r =>
    match r with
    | JsErr e => if e JSNoObjectsFound then Ok [] else Err (failure e)
    | JsOk infos =>
        Ok ((fun i => {| oi_name := jo_Name i; oi_size := jo_Size i; oi_mod_time := jo_ModTime i |})
              <$> infos)
    end).

(** [createChunkConsumer]. *)
Definition createChunkConsumer (name nuid : string) (after : N) : W -> option js_error * W :=
  js_CreateConsumer (resume_config name nuid after).

(** The establishment of [objView.Get]: the metadata, and for an object with
    bytes a consumer over its chunks. *)
Definition establish (name : string) (w : W) : js_result (js_object * option string) * W :=
  let '(r, w1) := js_GetInfo name w in
  match r with
  | JsErr e => (JsErr e, w1)
  | JsOk info =>
      if 0 <? jo_Size info then
        let '(b, w2) := rand8 w1 in
        let consumer := newChunkConsumerName b in
        let '(err, w3) := createChunkConsumer consumer (jo_NUID info) 0 w2 in
        match err with
        | Some e => (JsErr e, w3)
        | None => (JsOk (info, Some consumer), w3)
        end
      else (JsOk (info, None), w1)
  end.

(** [objView.Get], what [openChunks] is called with: a generation that moved
    meanwhile also releases the consumer. *)
Definition obj_Get (g : N) (name : string) (w : W) : result (js_object * option string) * W :=
  match genCheck g (client_of w) with
  | Err e => (Err e, w)
  | Ok _ =>
      let '(r, w1) := establish name w in
      match genCheck g (client_of w1) with
      | Err e =>
          (Err e, match r with
                  | JsOk (_, Some consumer) => js_DeleteConsumer consumer w1
                  | _ => w1
                  end)
      | Ok _ =>
          (match r with
           | JsErr e => if e JSObjectNotFound then Err ErrObjectNotFound else Err (failure e)
           | JsOk x => Ok x
           end, w1)
      end
  end.

(** Every call a view offers. *)
Inductive view_call : Type -> Type :=
  | CallGet (key : string) : view_call (watch_entry V)
  | CallCreate (key : string) (value : V) : view_call N
  | CallUpdate (key : string) (value : V) (expected : N) : view_call N
  | CallDelete (key : string) (expected : N) : view_call unit
  | CallKeys (prefix : string) : view_call (list string)
  | CallKVStatus : view_call Status
  | CallPut (name body : string) : view_call unit
  | CallObjGet (name : string) : view_call (js_object * option string)
  | CallObjDelete (name : string) : view_call unit
  | CallList : view_call (list object_info)
  | CallObjStatus : view_call Status.

Definition view_run {B} (g : N) (c : view_call B) : W -> result B * W :=
  match c in view_call B return W -> result B * W with
  | CallGet key => kv_Get g key
  | CallCreate key value => kv_Create g key value
  | CallUpdate key value expected => kv_Update g key value expected
  | CallDelete key expected => kv_Delete g key expected
  | CallKeys prefix => kv_Keys g prefix
  | CallKVStatus => kv_Status g
  | CallPut name body => obj_Put g name body
  | CallObjGet name => obj_Get g name
  | CallObjDelete name => obj_Delete g name
  | CallList => obj_List g
  | CallObjStatus => obj_Status g
  end.

(** The sentinel a call can answer besides [ErrUnavailable] and an error that
    wraps none. *)
Definition own_error {B} (c : view_call B) : option store_err :=
  match c with
  | CallGet _ => Some ErrKeyNotFound
  | CallCreate _ _ => Some ErrKeyExists
  | CallUpdate _ _ _ | CallDelete _ _ => Some ErrRevisionMismatch
  | CallObjGet _ => Some ErrObjectNotFound
  | _ => None
  end.

Lemma genCheck_cases (g : N) (c : client) :
  (g = gen c /\ genCheck g c = Ok tt) \/ (g <> gen c /\ genCheck g c = Err ErrUnavailable).
Proof. unfold genCheck. destruct (N.eqb_spec g (gen c)); auto. Qed.

Lemma failure_class (e : js_error) : failure e = ErrUnavailable \/ failure e = ErrOther.
Proof. unfold failure. case_match; auto. Qed.

Lemma guarded_spec {A B} (g : N) (call : W -> A * W) (answer : A -> result B) w r w' :
  guarded g call answer w = (r, w') ->
  (gen (client_of w) <> g /\ r = Err ErrUnavailable /\ w' = w) \/
  (gen (client_of w) = g /\ w' = (call w).2 /\
   ((gen (client_of w') <> g /\ r = Err ErrUnavailable) \/
    (gen (client_of w') = g /\ r = answer (call w).1))).
Proof.
  unfold guarded. destruct (genCheck_cases g (client_of w)) as [[Eg ->]|[Eg ->]].
  - destruct (call w) as [a w1]. destruct (genCheck_cases g (client_of w1)) as [[Eg1 ->]|[Eg1 ->]];
      intros [= <- <-]; right; simpl; naive_solver.
  - intros [= <- <-]. left. naive_solver.
Qed.

(** An object of the listing and the object it is of; a status and the stream
    configuration it is of, its two words by what each stands for. *)
Definition of_object (i : js_object) (o : object_info) : Prop :=
  oi_name o = jo_Name i /\ oi_size o = jo_Size i /\ oi_mod_time o = jo_ModTime i.
Record of_stream (cfg : StreamConfig) (st : Status) : Prop := {
  os_TTL : st_TTL st = sc_MaxAge cfg;
  os_MaxValueSize : st_MaxValueSize st = sc_MaxMsgSize cfg;
  os_MaxBytes : st_MaxBytes st = sc_MaxBytes cfg;
  os_file : st_Storage st = "file"%string <-> sc_Storage cfg = FileStorage;
  os_memory : st_Storage st = "memory"%string <-> sc_Storage cfg = MemoryStorage;
  os_old : st_Discard st = "old"%string <-> sc_Discard cfg = DiscardOld;
  os_new : st_Discard st = "new"%string <-> sc_Discard cfg = DiscardNew
}.

Lemma statusFromStream_of (cfg : StreamConfig) : of_stream cfg (statusFromStream cfg).
Proof using. split; try done; unfold statusFromStream; simpl; by case_match. Qed.

(** The answer of nats.go a success stands for. *)
Definition server_said {B} (c : view_call B) : W -> B -> W -> Prop :=
  match c in view_call B return W -> B -> W -> Prop with
  | CallGet key => fun w e w' => exists k, js_Get key w = (JsOk k, w') /\ we_Key e = kve_Key k
      /\ we_Value e = we_Value (entryFromKVE k 0) /\ we_Revision e = kve_Revision k /\ we_Created e = kve_Created k
  | CallCreate key value => fun w rev w' => js_Create key value w = (JsOk rev, w')
  | CallUpdate key value expected => fun w rev w' => js_Update key value expected w = (JsOk rev, w')
  | CallDelete key expected => fun w _ w' => js_Delete key expected w = (JsOk tt, w')
  | CallKeys prefix => fun w keys w' =>
      exists r, js_Keys w = (r, w') /\
        match r with
        | JsOk all => forall k, k ∈ keys <-> k ∈ all /\ has_prefix prefix k = true
        | JsErr e => e JSNoKeysFound = true /\ keys = []
        end
  | CallPut name body => fun w _ w' => js_Put name body w = (JsOk tt, w')
  | CallObjDelete name => fun w _ w' =>
      exists r, js_DeleteObject name w = (r, w') /\
        match r with JsOk _ => True | JsErr e => e JSObjectNotFound = true end
  | CallObjGet name => fun w x w' => establish name w = (JsOk x, w')
  | CallKVStatus => fun w st w' => exists cfg, js_KVStatus w = (JsOk (Some cfg), w') /\ of_stream cfg st
  | CallObjStatus => fun w st w' => exists cfg, js_ObjStatus w = (JsOk (Some cfg), w') /\ of_stream cfg st
  | CallList => fun w l w' =>
      exists r, js_List w = (r, w') /\
        match r with
        | JsOk infos => Forall2 of_object infos l
        | JsErr e => e JSNoObjectsFound = true /\ l = []
        end
  end.

(** What [obj_Get] does, in the same words as the other calls. *)
Lemma obj_Get_spec (g : N) (name : string) w r w' :
  obj_Get g name w = (r, w') ->
  (gen (client_of w) <> g /\ r = Err ErrUnavailable /\ w' = w) \/
  (gen (client_of w) = g /\ r = Err ErrUnavailable) \/
  (gen (client_of w) = g /\ gen (client_of w') = g /\ w' = (establish name w).2 /\
   r = match (establish name w).1 with
       | JsErr e => if e JSObjectNotFound then Err ErrObjectNotFound else Err (failure e)
       | JsOk x => Ok x
       end).
Proof.
  unfold obj_Get. destruct (genCheck_cases g (client_of w)) as [[Eg ->]|[Eg ->]].
  2: { intros [= <- <-]. left. naive_solver. }
  destruct (establish name w) as [a w1].
  destruct (genCheck_cases g (client_of w1)) as [[Eg1 ->]|[Eg1 ->]]; intros [= <- <-];
    right; simpl; naive_solver.
Qed.

(** What is to be shown of one call. *)
Definition current_answer {B} (g : N) (own : option store_err) (said : B -> W -> Prop) (w w' : W)
    (r : result B) : Prop :=
  (gen (client_of w) <> g -> r = Err ErrUnavailable /\ w' = w) /\
  (r <> Err ErrUnavailable -> gen (client_of w) = g /\ gen (client_of w') = g) /\
  (forall a, r = Ok a -> said a w') /\
  (forall e, r = Err e -> e = ErrUnavailable \/ e = ErrOther \/ own = Some e).

Lemma guarded_current {A B} (g : N) (call : W -> A * W) (answer : A -> result B) own said w r w' :
  (forall x w1, call w = (x, w1) ->
    match answer x with
    | Ok a => said a w1
    | Err e => e = ErrUnavailable \/ e = ErrOther \/ own = Some e
    end) ->
  guarded g call answer w = (r, w') -> current_answer g own said w w' r.
Proof.
  intros Hans Hrun. unfold current_answer.
  apply guarded_spec in Hrun as [(Hg & -> & ->)|(Hg & Hw & [[? ->]|[Hg' ->]])]; [naive_solver..|].
  specialize (Hans (call w).1 (call w).2 (surjective_pairing _)). rewrite <-Hw in Hans.
  destruct (answer (call w).1); naive_solver.
Qed.

(** C33: what a view promises its callers.  Once the store generation has moved
    the view answers ErrUnavailable and the server is never asked; a call in
    flight while it moves answers ErrUnavailable whatever the server said; any
    other answer was given with the view's generation current when the call
    left and when its answer arrived.  An error is ErrUnavailable, the one
    sentinel the call documents, or an error that wraps none; a success stands
    for the server's own answer to the same call: the entry, the revision, every
    key under the prefix and no other, the object, each object listed in the
    order of the server with its name, size and time, the fields of the stream's
    own configuration; only where the server has nothing to list, or nothing to
    delete, does a success stand for an error of its own. *)
Theorem view_call_current {B} (g : N) (c : view_call B) (w w' : W) (r : result B) :
  view_run g c w = (r, w') ->
  (gen (client_of w) <> g -> r = Err ErrUnavailable /\ w' = w) /\
  (r <> Err ErrUnavailable -> gen (client_of w) = g /\ gen (client_of w') = g) /\
  (forall a, r = Ok a -> server_said c w a w') /\
  (forall e, r = Err e -> e = ErrUnavailable \/ e = ErrOther \/ own_error c = Some e).
Proof.
  intros Hrun. change (current_answer g (own_error c) (server_said c w) w w' r).
  destruct c; simpl in Hrun; try (eapply guarded_current; [|exact Hrun]; intros x w1 Hc; simpl).
  - destruct x as [k|e]; [by exists k|]. destruct (e JSKeyNotFound || e JSKeyDeleted); [auto|].
    destruct (failure_class e); auto.
  - destruct x as [k|e]; [done|]. destruct (e JSKeyExists); [auto|]. destruct (failure_class e); auto.
  - destruct x as [k|e]; [done|]. destruct (e JSKeyRevisionMismatch); [auto|].
    destruct (failure_class e); auto.
  - destruct x as [[]|e]; [done|]. destruct (e JSKeyRevisionMismatch); [auto|].
    destruct (failure_class e); auto.
  - destruct x as [all|e].
    + exists (JsOk all). split; [done|]. intros k. rewrite list_elem_of_filter. tauto.
    + destruct (e JSNoKeysFound) eqn:He; [by exists (JsErr e)|]. destruct (failure_class e); auto.
  - destruct x as [[cfg|]|e]; simpl; [exists cfg; split; [done|apply statusFromStream_of]|auto|].
    destruct (failure_class e); auto.
  - destruct x as [[]|e]; [done|]. destruct (failure_class e); auto.
  - apply obj_Get_spec in Hrun. unfold current_answer.
    destruct Hrun as [(Hg & -> & ->)|[(Hg & ->)|(Hg & Hg' & Hw & ->)]]; [naive_solver..|].
    simpl. destruct (establish name w) as [[x|e] w1]; simpl in *; subst; [naive_solver|].
    destruct (e JSObjectNotFound); [naive_solver|]. destruct (failure_class e); naive_solver.
  - destruct x as [[]|e]; [by exists (JsOk tt)|].
    destruct (e JSObjectNotFound) eqn:He; [by exists (JsErr e)|]. destruct (failure_class e); auto.
  - destruct x as [infos|e].
    + exists (JsOk infos). split; [done|]. by apply Forall2_fmap_r, Forall_Forall2_diag, Forall_true.
    + destruct (e JSNoObjectsFound) eqn:He; [by exists (JsErr e)|]. destruct (failure_class e); auto.
  - destruct x as [[cfg|]|e]; simpl; [exists cfg; split; [done|apply statusFromStream_of]|auto|].
    destruct (failure_class e); auto.
Qed.
End views.

(** ** Reading an object *)

Lemma filter_none {A} (P : A -> Prop) `{forall x, Decision (P x)} (l : list A) :
  Forall (fun x => ~ P x) l -> filter P l = [].
Proof. induction 1; [done|]. by rewrite filter_cons_False. Qed.

(** In a list sorted by key, the entries up to the [i]-th key are [i + 1]. *)
Lemma sorted_count {A} (l : list (N * A)) (i : nat) (q : N) (a : A) :
  StronglySorted N.lt (fst <$> l) -> l !! i = Some (q, a) ->
  length (filter (fun x => (x.1 <= q)%N) l) = S i.
Proof.
  revert i. induction l as [|[q0 a0] l IH]; intros i Hs Hi; [done|].
  apply StronglySorted_cons in Hs as [Hall0 Hs].
  assert (Forall (fun x => (q0 < x.1)%N) l) as Hall by (by apply (proj1 (Forall_fmap fst (N.lt q0) l))).
  destruct i as [|i]; simpl in Hi.
  - injection Hi as -> ->. rewrite filter_cons_True by (simpl; lia). simpl. f_equal.
    rewrite filter_none; [done|]. eapply Forall_impl; [exact Hall|]. simpl. lia.
  - rewrite Forall_forall in Hall. pose proof (Hall _ (list_elem_of_lookup_2 _ _ _ Hi)) as Hlt.
    simpl in Hlt. rewrite filter_cons_True by (simpl; lia). simpl. f_equal. by apply IH.
Qed.

Section pump.
  Context {W : Type} {cause : Type}.
  Variable js_CreateConsumer : ConsumerConfig -> W -> option js_error * W.
  Variable rand8 : W -> list Z * W.
  (** The subscription, the publish and the wait of [pullChunk], by the
      consumer; a write into the pipe; what ended the read's context. *)
  Variable request : string -> W -> js_result (js_result msg) * W.
  Variable pipe_write : string -> W -> bool * W.
  Variable ended : W -> option cause.
  Variable DecodeObjectDigest : string -> option (list Z).

Inductive pump_end :=
  | PumpDone
  | PumpCause (c : cause)
  | PumpChunk (n : nat) (e : store_err)
  | PumpPipe
  | PumpDigest.

(** What the pump returns and leaves: the consumer it ended on, the bytes that
    went through the pipe. *)
Record pumped := { p_consumer : string; p_end : pump_end; p_written : string; p_world : W }.

(** The pull of one chunk: a consumer the server removed is replaced, once. *)
Definition pull_resuming (consumer nuid : string) (last : N) (w : W) :
    (string * (msg + js_error)) * W :=
  let '(r, w1) := request consumer w in
  match pullChunk r with
  | Chunk m => ((consumer, inl m), w1)
  | PullFailed e => ((consumer, inr e), w1)
  | ConsumerGone =>
      let '(b, w2) := rand8 w1 in
      let next := newChunkConsumerName b in
      let '(err, w3) := createChunkConsumer js_CreateConsumer next nuid last w2 in
      match err with
      | Some e => ((consumer, inr e), w3)
      | None =>
          let '(r', w4) := request next w3 in
          match pullChunk r' with
          | Chunk m => ((next, inl m), w4)
          | PullFailed e => ((next, inr e), w4)
          | ConsumerGone => ((next, inr (js_is NoResponders)), w4)
          end
      end
  end.

(** [pumpChunks] from its [n]-th chunk on; [fuel] bounds the chunks of an
    object, and [None] is a read that is not over. *)
Fixpoint pumpChunks (fuel : nat) (info : js_object) (n : nat) (consumer : string) (last : N)
    (written : string) (w : W) : option pumped :=
  match fuel with
  | O => None
  | S fuel' =>
      match ended w with
      | Some c => Some {| p_consumer := consumer; p_end := PumpCause c; p_written := written; p_world := w |}
      | None =>
          let '((consumer', r), w1) := pull_resuming consumer (jo_NUID info) last w in
          match r with
          | inr e =>
              Some {| p_consumer := consumer';
                      p_end := match ended w1 with Some c => PumpCause c | None => PumpChunk n (failure e) end;
                      p_written := written; p_world := w1 |}
          | inl m =>
              let '(ok, w2) := pipe_write (m_Data m) w1 in
              if negb ok then
                Some {| p_consumer := consumer';
                        p_end := match ended w2 with Some c => PumpCause c | None => PumpPipe end;
                        p_written := written; p_world := w2 |}
              else
                let written' := written +:+ m_Data m in
                match m_Metadata m with
                | None => Some {| p_consumer := consumer'; p_end := PumpChunk n ErrOther;
                                  p_written := written'; p_world := w2 |}
                | Some (seq, pending) =>
                    if (0 <? pending)%N then pumpChunks fuel' info (S n) consumer' seq written' w2
                    else
                      Some {| p_consumer := consumer';
                              p_end := match DecodeObjectDigest (jo_Digest info) with
                                       | None => PumpDigest
                                       | Some want =>
                                           if bool_decide (sha256 written' = want) then PumpDone else PumpDigest
                                       end;
                              p_written := written'; p_world := w2 |}
                end
          end
      end
  end.

(** A read that reports success delivered the object's own bytes: what went
    through the pipe has the digest the object's metadata carries, whatever
    the server delivered on the way. *)
Theorem pump_verified (fuel : nat) (info : js_object) (consumer : string) (w : W) (r : pumped) :
  pumpChunks fuel info 1 consumer 0 EmptyString w = Some r -> p_end r = PumpDone ->
  DecodeObjectDigest (jo_Digest info) = Some (sha256 (p_written r)).
Proof.
  generalize 1%nat, 0%N, EmptyString. revert consumer w.
  induction fuel as [|fuel IH]; intros consumer w n last acc Hrun Hdone; [done|]. simpl in Hrun.
  destruct (ended w); [by injection Hrun as <-|].
  destruct (pull_resuming _ _ _ _) as [[c' [m|e]] w1].
  2: { injection Hrun as <-. simpl in Hdone. by case_match. }
  destruct (pipe_write (m_Data m) w1) as [[] w2]; simpl in Hrun.
  2: { injection Hrun as <-. simpl in Hdone. by case_match. }
  destruct (m_Metadata m) as [[seq pending]|]; [|by injection Hrun as <-].
  destruct (0 <? pending)%N; [by eapply IH|]. injection Hrun as <-. simpl in *.
  destruct (DecodeObjectDigest (jo_Digest info)); [|done]. by case_bool_decide; subst.
Qed.

(** *** A server that keeps the object

    [chunks] are the object's chunks with their stream sequences.  [at_chunk w c i]
    says consumer [c] stands before chunk [i], though the server may have removed
    it since; [fresh] says it was just created. *)
Section served.
  Variable info : js_object.
  Variable chunks : list (N * string).
  Variable at_chunk fresh : W -> string -> nat -> Prop.

Definition chunk_msg (i : nat) (q : N) (d : string) : msg :=
  {| m_Status := EmptyString; m_Description := EmptyString; m_Data := d;
     m_Metadata := Some (q, N.of_nat (length chunks - S i)) |}.

(** How many chunks lie at or before a sequence. *)
Definition received_until (last : N) : nat := length (filter (fun x => (x.1 <= last)%N) chunks).

  Hypothesis chunks_sorted : StronglySorted N.lt (fst <$> chunks).
  Hypothesis chunks_positive : Forall (fun x => (0 < x.1)%N) chunks.
  Hypothesis never_ended : forall w, ended w = None.
  Hypothesis pipe_open : forall d w, exists w', pipe_write d w = (true, w') /\
    forall c i, at_chunk w c i -> at_chunk w' c i.
  Hypothesis pull_next : forall w c i q d, at_chunk w c i -> chunks !! i = Some (q, d) ->
    exists w', (request c w = (JsOk (JsOk (chunk_msg i q d)), w') /\ at_chunk w' c (S i)) \/
               exists e, request c w = (JsOk (JsErr e), w') /\ e NoResponders = true.
  Hypothesis create_after : forall w name last,
    exists w', js_CreateConsumer (resume_config name (jo_NUID info) last) w = (None, w') /\
      fresh w' name (received_until last).
  Hypothesis fresh_serves : forall w c i q d, fresh w c i -> chunks !! i = Some (q, d) ->
    exists w', request c w = (JsOk (JsOk (chunk_msg i q d)), w') /\ at_chunk w' c (S i).

(** The bytes of the chunks, in the order of the stream. *)
Definition object_bytes (l : list (N * string)) : string := foldr (fun x s => x.2 +:+ s) EmptyString l.

Lemma pull_resuming_next w c i last q d :
  at_chunk w c i -> chunks !! i = Some (q, d) -> received_until last = i ->
  exists c' w', pull_resuming c (jo_NUID info) last w = ((c', inl (chunk_msg i q d)), w') /\
    at_chunk w' c' (S i).
Proof.
  intros Hat Hi Hl. unfold pull_resuming.
  destruct (pull_next w c i q d Hat Hi) as (w1 & [[-> Hat1]|(e & -> & He)]); simpl; [by exists c, w1|].
  rewrite He. destruct (rand8 w1) as [b w2]. unfold createChunkConsumer.
  destruct (create_after w2 (newChunkConsumerName b) last) as (w3 & -> & Hf). rewrite Hl in Hf.
  destruct (fresh_serves _ _ _ _ _ Hf Hi) as (w4 & -> & Hat4). simpl.
  by exists (newChunkConsumerName b), w4.
Qed.

(** Once chunk [i] has come, a new consumer starts at the chunk after it. *)
Lemma received_until_lookup (i : nat) (q : N) (d : string) :
  chunks !! i = Some (q, d) -> received_until q = S i.
Proof. intros Hi. by eapply sorted_count. Qed.

Lemma received_until_zero : received_until 0 = 0%nat.
Proof.
  unfold received_until. rewrite filter_none; [done|].
  eapply Forall_impl; [exact chunks_positive|]. simpl. lia.
Qed.

Lemma pump_from (fuel i n : nat) consumer last acc w :
  at_chunk w consumer i -> received_until last = i -> (i < length chunks)%nat ->
  (length chunks - i <= fuel)%nat ->
  exists r, pumpChunks fuel info n consumer last acc w = Some r /\
    p_written r = acc +:+ object_bytes (drop i chunks) /\
    p_end r = match DecodeObjectDigest (jo_Digest info) with
              | None => PumpDigest
              | Some want => if bool_decide (sha256 (p_written r) = want) then PumpDone else PumpDigest
              end.
Proof.
  revert i n consumer last acc w. induction fuel as [|fuel IH]; intros i n consumer last acc w Hat Hl Hi Hf;
    [lia|].
  destruct (chunks !! i) as [[q d]|] eqn:Eq; [|apply lookup_ge_None in Eq; lia].
  destruct (pull_resuming_next w consumer i last q d Hat Eq Hl) as (c' & w1 & Hp & Hat1).
  destruct (pipe_open d w1) as (w2 & Hw & Hkeep). simpl. rewrite never_ended, Hp. simpl.
  rewrite Hw. simpl. rewrite (drop_S _ _ _ Eq). simpl. rewrite <-str_app_assoc.
  destruct (decide (S i = length chunks)) as [Hlast|Hmore].
  - replace (length chunks - S i)%nat with 0%nat by lia. simpl.
    eexists. split; [reflexivity|]. simpl. rewrite drop_ge by lia. by rewrite str_app_nil_r.
  - replace (0 <? N.of_nat (length chunks - S i))%N with true by (symmetry; apply N.ltb_lt; lia).
    apply IH; [by apply Hkeep|by eapply received_until_lookup|lia|lia].
Qed.

(** A slow read is never cut short.  On a server that keeps the object and
    serves each consumer the chunks after its start in order, however often it
    removes a consumer that stood still too long between two chunks, the read
    ends, without error, after exactly the object's bytes: no chunk is lost
    and none is delivered twice across a resumption. *)
Theorem pump_complete (fuel : nat) (consumer : string) (w : W) :
  at_chunk w consumer 0 -> chunks <> [] -> (length chunks <= fuel)%nat ->
  DecodeObjectDigest (jo_Digest info) = Some (sha256 (object_bytes chunks)) ->
  exists r, pumpChunks fuel info 1 consumer 0 EmptyString w = Some r /\
    p_end r = PumpDone /\ p_written r = object_bytes chunks.
Proof.
  intros Hat Hne Hf Hd. assert (0 < length chunks)%nat by (destruct chunks; simpl; [done|lia]).
  destruct (pump_from fuel 0 1 consumer 0 EmptyString w Hat received_until_zero) as (r & Hr & Hw & He);
    [done|lia|].
  exists r. split; [done|]. change (p_written r = object_bytes chunks) in Hw.
  rewrite He, Hd, Hw. by rewrite bool_decide_eq_true_2.
Qed.
End served.
End pump.

(** ** The theorems at a concrete input *)

(** A server that lists two objects, and an update it accepted, the connection
    lost before its answer. *)
Definition demo_listed : list js_object :=
  [{| jo_Name := "a"; jo_NUID := "n1"; jo_Size := 5; jo_ModTime := 10; jo_Digest := "d1" |};
   {| jo_Name := "b"; jo_NUID := "n2"; jo_Size := 0; jo_ModTime := 20; jo_Digest := "d2" |}].
Definition demo_view {B} (v : N) (c : view_call (V:=N) B) (w : client) : result B * client :=
  view_run (V:=N) (fun w => w) (fun _ w => (JsErr (js_is JSKeyNotFound), w)) (fun _ _ w => (JsOk 1%N, w))
    (fun _ _ _ w => (JsOk 8%N, moveGeneration w)) (fun _ _ w => (JsOk tt, w)) (fun w => (JsOk [], w))
    (fun w => (JsOk None, w)) (fun _ _ w => (JsOk tt, w)) (fun _ w => (JsErr (js_is JSObjectNotFound), w))
    (fun _ w => (None, w)) (fun _ w => w) (fun _ w => (JsOk tt, w)) (fun w => (JsOk demo_listed, w))
    (fun w => (JsOk None, w)) (fun w => ([], w)) v c w.

Lemma view_call_current_witness :
  demo_view 0 (CallUpdate "job.x" 3%N 7%N) new_client = (Err ErrUnavailable, moveGeneration new_client) /\
  (exists l, demo_view 0 CallList new_client = (Ok l, new_client) /\ Forall2 of_object demo_listed l).
Proof.
  split; [reflexivity|].
  destruct (demo_view 0 CallList new_client) as [r w'] eqn:E.
  assert (w' = new_client /\ exists l, r = Ok l) as [-> [l ->]] by (injection E as <- <-; split; [reflexivity|by eexists]).
  exists l. split; [reflexivity|].
  destruct (view_call_current (V:=N) (fun w : client => w)
    (fun _ w => (JsErr (js_is JSKeyNotFound), w)) (fun _ _ w => (JsOk 1%N, w))
    (fun _ _ _ w => (JsOk 8%N, moveGeneration w)) (fun _ _ w => (JsOk tt, w)) (fun w => (JsOk [], w))
    (fun w => (JsOk None, w)) (fun _ _ w => (JsOk tt, w)) (fun _ w => (JsErr (js_is JSObjectNotFound), w))
    (fun _ w => (None, w)) (fun _ w => w) (fun _ w => (JsOk tt, w)) (fun w => (JsOk demo_listed, w))
    (fun w => (JsOk None, w)) (fun w => ([], w)) 0 CallList new_client new_client (Ok l) E) as (_ & _ & H & _).
  destruct (H l eq_refl) as (r & Hr & Hl). injection Hr as <-. exact Hl.
Defined.

(** A server whose consumer stands at a chunk and is removed once, after the
    first one. *)
Record demo_server := { dm_consumer : string; dm_at : nat; dm_removed : bool }.

Definition demo_chunks : list (N * string) := [(5%N, "ab"); (9%N, "cd"); (12%N, "e")].
Definition demo_object : js_object :=
  {| jo_Name := "a"; jo_NUID := "n1"; jo_Size := 5; jo_ModTime := 0; jo_Digest := "SHA-256=" |}.
Definition demo_digest (s : string) : option (list Z) := Some (sha256 "abcde").

Definition demo_request (c : string) (w : demo_server) : js_result (js_result msg) * demo_server :=
  if decide (c = dm_consumer w) then
    match dm_removed w, demo_chunks !! dm_at w with
    | false, Some (q, d) =>
        (JsOk (JsOk (chunk_msg demo_chunks (dm_at w) q d)),
         {| dm_consumer := c; dm_at := S (dm_at w); dm_removed := (dm_at w =? 0)%nat |})
    | _, _ => (JsOk (JsErr (js_is NoResponders)), w)
    end
  else (JsOk (JsErr (js_is NoResponders)), w).

Definition demo_create (cfg : ConsumerConfig) (w : demo_server) : option js_error * demo_server :=
  (None, {| dm_consumer := cc_Name cfg;
            dm_at := received_until demo_chunks (match cc_Start cfg with None => 0 | Some q => q - 1 end);
            dm_removed := false |}).

Definition demo_rand (w : demo_server) : list Z * demo_server := ([1; 2; 3; 4; 5; 6; 7; 8], w).

Definition demo_pump : option (pumped (W:=demo_server) (cause:=unit)) :=
  pumpChunks demo_create demo_rand demo_request (fun _ w => (true, w)) (fun _ => None) demo_digest
    3 demo_object 1 "profgate-get-a" 0 EmptyString
    {| dm_consumer := "profgate-get-a"; dm_at := 0; dm_removed := false |}.

Lemma pump_complete_witness :
  length demo_chunks = 3%nat /\
  exists r, demo_pump = Some r /\ p_end r = PumpDone /\ p_written r = object_bytes demo_chunks.
Proof.
  split; [reflexivity|].
  apply (pump_complete demo_create demo_rand demo_request (fun _ w => (true, w)) (fun _ => None) demo_digest
    demo_object demo_chunks
    (fun w c i => dm_consumer w = c /\ dm_at w = i)
    (fun w c i => dm_consumer w = c /\ dm_at w = i /\ dm_removed w = false)).
  - by repeat constructor.
  - by repeat constructor.
  - done.
  - intros d w. by exists w.
  - intros w c i q d [<- <-] Hi. unfold demo_request. rewrite decide_True by done.
    destruct (dm_removed w).
    + eexists. right. exists (js_is NoResponders). done.
    + rewrite Hi. eexists. left. split; [reflexivity|]. done.
  - intros w name last. eexists. split; [reflexivity|]. simpl. unfold resume_config. simpl.
    destruct (N.ltb_spec 0 last); simpl; split; try done; split; try done.
    + f_equal. lia.
    + f_equal. lia.
  - intros w c i q d (<- & <- & Hr) Hi. unfold demo_request. rewrite decide_True, Hr, Hi by done.
    eexists. split; [reflexivity|]. done.
  - done.
  - done.
  - simpl. lia.
  - reflexivity.
Defined.

Lemma pump_verified_witness :
  exists r, demo_pump = Some r /\ p_end r = PumpDone /\
    demo_digest (jo_Digest demo_object) = Some (sha256 (p_written r)).
Proof.
  destruct demo_pump as [r|] eqn:E; [|by vm_compute in E]. exists r. split; [done|].
  assert (p_end r = PumpDone) as Hd.
  { assert ((p_end <$> demo_pump) = Some PumpDone) as H by (vm_compute; reflexivity).
    rewrite E in H. by injection H. }
  split; [exact Hd|]. by eapply pump_verified.
Defined.
