(* ===== verification/Discovery.v ===== *)
(** * Discovery of targets

    src/internal/k8s/discovery.go, eligibility.go, confirm.go and catalog.go:
    which Pods of a Service may be profiled, why the others may not, and the
    re-check of one of them before a connection.

    The informer caches are an input: the Pods of a namespace by name, the
    EndpointSlices of a Service, the Services.  A label selector is client-go's
    ([labels.SelectorFromSet]), so what it matches is a parameter. *)

From S2P Require Import Prelude Keys Caches.

(** ** The objects, as far as they are read *)

(** One container port; an unset protocol is empty. *)
Record ContainerPort := { cp_Name : string; cp_Protocol : string; cp_ContainerPort : Z }.

(** [corev1.Pod]; [p_Terminating] is [DeletionTimestamp != nil]. *)
Record Pod := {
  p_Namespace : string;
  p_Name : string;
  p_UID : string;
  p_Labels : gmap string string;
  p_Terminating : bool;
  p_NodeName : string;
  p_Containers : list (list ContainerPort);
  p_Phase : string;
  p_Conditions : list (string * string);
  p_PodIPs : list string
}.

#[export] Instance ContainerPort_eq_dec : EqDecision ContainerPort.
Proof. solve_decision. Defined.
#[export] Instance Pod_eq_dec : EqDecision Pod.
Proof. solve_decision. Defined.

(** [corev1.ObjectReference]. *)
Record ObjectRef := { or_Kind : string; or_Namespace : string; or_Name : string; or_UID : string }.

Record Endpoint := {
  ep_TargetRef : option ObjectRef;
  ep_Ready : option bool;
  ep_Addresses : list string
}.

Record EndpointSlice := { es_AddressType : string; es_Endpoints : list Endpoint }.

(** [Target]; [Port] is an [int32]. *)
Record Target := {
  tg_Namespace : string;
  tg_Service : string;
  tg_Pod : string;
  tg_Node : string;
  tg_PodIP : string;
  tg_Port : Z;
  tg_Version : string;
  tg_UID : string
}.

(** [PortSelection]: a zero port and an empty name select the default. *)
Record PortSelection := { ps_Port : Z; ps_PortName : string }.

Definition podKind : string := "Pod".
Definition PodRunning : string := "Running".
Definition PodReady : string := "Ready".
Definition ConditionTrue : string := "True".
Definition ProtocolTCP : string := "TCP".
Definition IPv4 : string := "IPv4".
Definition IPv6 : string := "IPv6".

(** ** The vocabulary of exclusions *)

Inductive exclusion :=
  | PodTerminating | PodNotRunning | PodNotReady | EndpointMissing | EndpointNotReady
  | EndpointAddressMismatch | EndpointAddressConflict | PortNameNotDeclared
  | VersionMismatch | PodNameMismatch.
#[export] Instance exclusion_eq_dec : EqDecision exclusion.
Proof. solve_decision. Defined.

Definition exclusionReasons : list exclusion :=
  [PodTerminating; PodNotRunning; PodNotReady; EndpointMissing; EndpointNotReady;
   EndpointAddressMismatch; EndpointAddressConflict; PortNameNotDeclared;
   VersionMismatch; PodNameMismatch].

Record Explanation := {
  ex_Targets : list Target;
  ex_SelectorMatched : nat;
  ex_Excluded : list (exclusion * nat)
}.

(** ** The rules on a Pod *)

(** [podReady]: the first [Ready] condition decides. *)
Fixpoint podReady (conditions : list (string * string)) : bool :=
  match conditions with
  | [] => false
  | (t, s) :: rest => if String.eqb t PodReady then String.eqb s ConditionTrue else podReady rest
  end.

(** [hasPodIP]. *)
Definition hasPodIP (pod : Pod) (address : string) : bool :=
  existsb (fun ip => String.eqb ip address) (p_PodIPs pod).

(** [namedPort]: the first TCP port of that name, container by container. *)
Fixpoint named_in (ports : list ContainerPort) (name : string) : option Z :=
  match ports with
  | [] => None
  | p :: rest =>
      if negb (String.eqb (cp_Name p) name) then named_in rest name
      else if String.eqb (cp_Protocol p) EmptyString || String.eqb (cp_Protocol p) ProtocolTCP
      then Some (cp_ContainerPort p)
      else named_in rest name
  end.
Fixpoint namedPort (containers : list (list ContainerPort)) (name : string) : option Z :=
  match containers with
  | [] => None
  | ports :: rest =>
      match named_in ports name with Some p => Some p | None => namedPort rest name end
  end.

(** [addressFamily]: IPv4 when any slice is IPv4, otherwise IPv6 when any is. *)
Fixpoint address_family (family : string) (slices : list EndpointSlice) : string :=
  match slices with
  | [] => family
  | es :: rest =>
      if String.eqb (es_AddressType es) IPv4 then IPv4
      else if String.eqb (es_AddressType es) IPv6 then address_family IPv6 rest
      else address_family family rest
  end.
Definition addressFamily (slices : list EndpointSlice) : string := address_family EmptyString slices.

(** ** What endpoints say of a Pod *)

(** [endpointFacts]; [hasTarget] is whether [ef_target] is set. *)
Record endpointFacts := {
  ef_notReady : bool;
  ef_addressMismatch : bool;
  ef_address : string;
  ef_conflict : bool;
  ef_pod : string;
  ef_target : option Target
}.

Definition isTarget (f : endpointFacts) : bool :=
  bool_decide (is_Some (ef_target f)) && negb (ef_conflict f).

Definition conflicted (f : endpointFacts) : bool :=
  ef_conflict f && (bool_decide (is_Some (ef_target f))
                    || (negb (ef_notReady f) && negb (ef_addressMismatch f))).

(** [attribute]. *)
Definition attribute (pod : Pod) (facts : option endpointFacts) : exclusion :=
  if p_Terminating pod then PodTerminating
  else if negb (String.eqb (p_Phase pod) PodRunning) then PodNotRunning
  else if negb (podReady (p_Conditions pod)) then PodNotReady
  else
    match facts with
    | None => EndpointMissing
    | Some f =>
        if bool_decide (is_Some (ef_target f)) then EndpointAddressConflict
        else if ef_notReady f then EndpointNotReady
        else if ef_addressMismatch f then EndpointAddressMismatch
        else if ef_conflict f then EndpointAddressConflict
        else PortNameNotDeclared
    end.

Section resolve.
  (** The Service, and the gateway's configured pprof port and version label. *)
  Variables (ns svc : string) (opt_Port : Z) (opt_PortName versionLabel : string).
  Variable Matches : gmap string string -> bool.
  Variable sel : PortSelection.

(** [pprofPort]. *)
Definition pprofPort (pod : Pod) : option Z :=
  if negb (ps_Port sel =? 0) then Some (ps_Port sel)
  else if negb (String.eqb (ps_PortName sel) EmptyString)
       then namedPort (p_Containers pod) (ps_PortName sel)
  else if negb (opt_Port =? 0) then Some opt_Port
  else if negb (String.eqb opt_PortName EmptyString) then namedPort (p_Containers pod) opt_PortName
  else None.

(** The Pod a trusted endpoint names: the checks of the loop of [resolve] up to
    the selector's. *)
Definition trusted (lookup : string -> option Pod) (ep : Endpoint) : option Pod :=
  match ep_TargetRef ep with
  | None => None
  | Some ref =>
      if negb (String.eqb (or_Kind ref) podKind) || negb (String.eqb (or_Namespace ref) ns) then None
      else
        match lookup (or_Name ref) with
        | None => None
        | Some pod =>
            if negb (String.eqb (p_UID pod) (or_UID ref)) then None
            else if negb (Matches (p_Labels pod)) then None
            else Some pod
        end
  end.

(** The rest of the loop body, on the facts of that Pod. *)
Definition observe (pod : Pod) (ep : Endpoint) (f : endpointFacts) : endpointFacts :=
  if match ep_Ready ep with Some ready => negb ready | None => false end
  then {| ef_notReady := true; ef_addressMismatch := ef_addressMismatch f;
          ef_address := ef_address f; ef_conflict := ef_conflict f; ef_pod := ef_pod f;
          ef_target := ef_target f |}
  else if negb (String.eqb (p_Phase pod) PodRunning) || negb (podReady (p_Conditions pod))
          || p_Terminating pod
  then f
  else
    match ep_Addresses ep with
    | address :: _ =>
        if negb (hasPodIP pod address)
        then {| ef_notReady := ef_notReady f; ef_addressMismatch := true;
                ef_address := ef_address f; ef_conflict := ef_conflict f; ef_pod := ef_pod f;
                ef_target := ef_target f |}
        else
          let first := String.eqb (ef_address f) EmptyString in
          {| ef_notReady := ef_notReady f; ef_addressMismatch := ef_addressMismatch f;
             ef_address := if first then address else ef_address f;
             ef_conflict := ef_conflict f || (negb first && negb (String.eqb (ef_address f) address));
             ef_pod := ef_pod f;
             ef_target :=
               match pprofPort pod, ef_target f with
               | Some port, None =>
                   Some {| tg_Namespace := ns; tg_Service := svc; tg_Pod := p_Name pod;
                           tg_Node := p_NodeName pod; tg_PodIP := address; tg_Port := port;
                           tg_Version := default EmptyString (p_Labels pod !! versionLabel);
                           tg_UID := p_UID pod |}
               | _, t => t
               end |}
    | [] => {| ef_notReady := ef_notReady f; ef_addressMismatch := true;
               ef_address := ef_address f; ef_conflict := ef_conflict f; ef_pod := ef_pod f;
               ef_target := ef_target f |}
    end.

Definition no_facts (pod : Pod) : endpointFacts :=
  {| ef_notReady := false; ef_addressMismatch := false; ef_address := EmptyString;
     ef_conflict := false; ef_pod := p_Name pod; ef_target := None |}.

(** [seen] and [order]. *)
Definition seen_state := (gmap string endpointFacts * list string)%type.

Definition visit (lookup : string -> option Pod) (s : seen_state) (ep : Endpoint) : seen_state :=
  match trusted lookup ep with
  | None => s
  | Some pod =>
      match s.1 !! p_UID pod with
      | Some f => (<[p_UID pod := observe pod ep f]> s.1, s.2)
      | None => (<[p_UID pod := observe pod ep (no_facts pod)]> s.1, s.2 ++ [p_UID pod])
      end
  end.

(** The endpoints of the slices of the family read, in order. *)
Definition endpoints (slices : list EndpointSlice) : list Endpoint :=
  slices ≫= fun es =>
    if String.eqb (es_AddressType es) (addressFamily slices) then es_Endpoints es else [].

Definition target_of (seen : gmap string endpointFacts) (uid : string) : option Target :=
  f ← seen !! uid; if isTarget f then ef_target f else None.

(** [resolve]. *)
Definition resolve (slices : list EndpointSlice) (lookup : string -> option Pod) :
    list Target * gmap string endpointFacts :=
  let '(seen, order) := foldl (visit lookup) (∅, []) (endpoints slices) in
  (omap (target_of seen) order, seen).

(** [Targets], past [serviceSlices]. *)
Definition Targets (cache : gmap string Pod) (slices : list EndpointSlice) : list Target :=
  (resolve slices (fun name => cache !! name)).1.

(** [Explain], past [serviceSlices]; the lister's order is the map's. *)
Definition selected (cache : gmap string Pod) : list Pod :=
  filter (fun pod => Matches (p_Labels pod) = true) (map_to_list cache).*2.
Definition byName (pods : list Pod) : gmap string Pod :=
  foldl (fun m pod => <[p_Name pod := pod]> m) ∅ pods.
Definition counted (seen : gmap string endpointFacts) (reason : exclusion) (pod : Pod) : bool :=
  match seen !! p_UID pod with
  | Some f => if isTarget f then false else bool_decide (attribute pod (Some f) = reason)
  | None => bool_decide (attribute pod None = reason)
  end.
Definition excluded (seen : gmap string endpointFacts) (pods : list Pod) : list (exclusion * nat) :=
  omap (fun reason =>
    let n := length (filter (fun pod => counted seen reason pod = true) pods) in
    if (0 <? n)%nat then Some (reason, n) else None) exclusionReasons.
Definition Explain (cache : gmap string Pod) (slices : list EndpointSlice) : Explanation :=
  let pods := selected cache in
  let m := byName pods in
  let '(targets, seen) := resolve slices (fun name => m !! name) in
  {| ex_Targets := targets; ex_SelectorMatched := length pods;
     ex_Excluded := excluded seen pods |}.
End resolve.

(** ** What a pass over the endpoints establishes *)

Section resolve_spec.
  Variables (ns svc : string) (opt_Port : Z) (opt_PortName versionLabel : string).
  Variable Matches : gmap string string -> bool.
  Variable sel : PortSelection.
  Variable lookup : string -> option Pod.
(** An API server identifies a Pod by its UID, and a Pod holds no empty address. *)
Definition pods_ok : Prop :=
  (forall m n p q, lookup m = Some p -> lookup n = Some q -> p_UID p = p_UID q -> p = q) /\
  (forall m p, lookup m = Some p -> hasPodIP p EmptyString = false).

  Hypothesis Hpods : pods_ok.

  Abbreviation pprof := (pprofPort opt_Port opt_PortName sel).
  Abbreviation trusts := (trusted ns Matches lookup).
  Abbreviation observes := (observe ns svc opt_Port opt_PortName versionLabel sel).
  Abbreviation visits := (visit ns svc opt_Port opt_PortName versionLabel Matches sel lookup).

(** The endpoint vouches for the Pod at this address: rule by rule. *)
Definition vouches (pod : Pod) (ep : Endpoint) (a : string) : Prop :=
  trusts ep = Some pod /\ ep_Ready ep <> Some false /\ p_Phase pod = PodRunning /\
  podReady (p_Conditions pod) = true /\ p_Terminating pod = false /\
  head (ep_Addresses ep) = Some a /\ hasPodIP pod a = true.

Definition make_target (pod : Pod) (a : string) (port : Z) : Target :=
  {| tg_Namespace := ns; tg_Service := svc; tg_Pod := p_Name pod; tg_Node := p_NodeName pod;
     tg_PodIP := a; tg_Port := port; tg_Version := default EmptyString (p_Labels pod !! versionLabel);
     tg_UID := p_UID pod |}.

(** The address an endpoint of the Pod passes with. *)
Definition passing (pod : Pod) (ep : Endpoint) : option string :=
  if match ep_Ready ep with Some ready => negb ready | None => false end then None
  else if negb (String.eqb (p_Phase pod) PodRunning) || negb (podReady (p_Conditions pod))
          || p_Terminating pod then None
  else match ep_Addresses ep with a :: _ => if hasPodIP pod a then Some a else None | [] => None end.

Lemma vouches_passing (pod : Pod) (ep : Endpoint) (a : string) :
  vouches pod ep a <-> trusts ep = Some pod /\ passing pod ep = Some a.
Proof.
  unfold vouches, passing. destruct (ep_Ready ep) as [[]|]; simpl;
    [|split; [intros (_ & H & _); by destruct H|by intros [_ [=]]]|];
    (destruct (String.eqb_spec (p_Phase pod) PodRunning); simpl;
       [|split; [by intros (_ & _ & ? & _)|by intros [_ [=]]]];
     destruct (podReady _); simpl; [|split; [by intros (_ & _ & _ & ? & _)|by intros [_ [=]]]];
     destruct (p_Terminating pod); [split; [by intros (_ & _ & _ & _ & ? & _)|by intros [_ [=]]]|];
     destruct (ep_Addresses ep) as [|b l]; simpl; [split; [by intros (_ & _ & _ & _ & _ & [=] & _)|by intros [_ [=]]]|];
     destruct (hasPodIP pod b) eqn:Hb;
     (split; [intros (? & _ & _ & _ & _ & [= <-] & ?); split; congruence
             |intros [? [=]]; subst; auto 10])).
Qed.

(** The trusted endpoints of one Pod, in order. *)
Definition named (uid : string) (l : list Endpoint) : list (Pod * Endpoint) :=
  omap (fun ep => pod ← trusts ep; if String.eqb (p_UID pod) uid then Some (pod, ep) else None) l.

Definition gathered (l : list (Pod * Endpoint)) : option endpointFacts :=
  match l with
  | [] => None
  | (pod, _) :: _ => Some (foldl (fun f '(p, ep) => observes p ep f) (no_facts pod) l)
  end.

Lemma gathered_snoc l p ep :
  gathered (l ++ [(p, ep)]) =
    Some (observes p ep (default (no_facts p) (gathered l))).
Proof. destruct l as [|[q e] l]; [done|]. simpl. by rewrite foldl_app. Qed.

Lemma visit_spec (l : list Endpoint) :
  let s := foldl visits (∅, []) l in
  (forall uid, s.1 !! uid = gathered (named uid l)) /\
  NoDup s.2 /\ (forall uid, uid ∈ s.2 <-> is_Some (s.1 !! uid)).
Proof.
  induction l as [|ep l IH] using rev_ind; simpl.
  { split; [done|]. split; [constructor|]. intros uid. rewrite lookup_empty.
    split; [by intros ?%not_elem_of_nil|by intros [? ?]]. }
  rewrite foldl_app. cbn [foldl]. set (s := foldl visits (∅, []) l) in *.
  destruct IH as (Hs & Hnd & Hin). unfold visit.
  assert (forall uid, named uid (l ++ [ep]) = named uid l ++ named uid [ep]) as Hn
    by (intros uid; apply omap_app).
  setoid_rewrite Hn. unfold named at 2. simpl. destruct (trusts ep) as [pod|]; simpl.
  2: { setoid_rewrite app_nil_r. done. }
  destruct (s.1 !! p_UID pod) as [f|] eqn:Hf; simpl.
  - split; [|split; [done|]].
    + intros uid. destruct (String.eqb_spec (p_UID pod) uid) as [<-|Hne].
      * rewrite lookup_insert_eq, gathered_snoc, <-Hs, Hf. done.
      * by rewrite lookup_insert_ne, app_nil_r, Hs.
    + intros uid. rewrite Hin. destruct (String.eqb_spec (p_UID pod) uid) as [<-|Hne].
      * rewrite lookup_insert_eq, Hf. split; intros _; by eexists.
      * by rewrite lookup_insert_ne.
  - assert (p_UID pod ∉ s.2) as Hnew by (rewrite Hin, Hf; by intros [? ?]).
    split; [|split].
    + intros uid. destruct (String.eqb_spec (p_UID pod) uid) as [<-|Hne].
      * rewrite lookup_insert_eq, gathered_snoc, <-Hs, Hf. done.
      * by rewrite lookup_insert_ne, app_nil_r, Hs.
    + apply NoDup_app. split; [done|]. split; [|apply NoDup_singleton]. intros u Hu ->%list_elem_of_singleton. done.
    + intros uid. rewrite elem_of_app, Hin, list_elem_of_singleton.
      destruct (String.eqb_spec (p_UID pod) uid) as [<-|Hne].
      * rewrite lookup_insert_eq. split; [by eexists|by right].
      * rewrite lookup_insert_ne by done. split; [by intros [?| ->]|by left].
Qed.

(** The facts of one Pod, in terms of the endpoints that pass. *)
Definition facts_match (pod : Pod) (l : list Endpoint) (f : endpointFacts) : Prop :=
  let passes := omap (passing pod) l in
  ef_address f = default EmptyString (head passes) /\
  ef_conflict f = existsb (fun a => negb (String.eqb (ef_address f) a)) passes /\
  ef_target f =
    (a ← head passes; port ← pprof pod; Some (make_target pod a port)) /\
  (passes = [] -> l <> [] -> podReady (p_Conditions pod) = true -> p_Phase pod = PodRunning ->
     p_Terminating pod = false -> ef_notReady f = true \/ ef_addressMismatch f = true) /\
  (ef_notReady f = true -> exists ep, ep ∈ l /\ ep_Ready ep = Some false) /\
  (ef_addressMismatch f = true -> exists ep, ep ∈ l /\ ep_Ready ep <> Some false /\
     match head (ep_Addresses ep) with Some a => hasPodIP pod a = false | None => True end).

Lemma in_snoc (P : Endpoint -> Prop) (l : list Endpoint) e :
  (exists ep, ep ∈ l /\ P ep) \/ P e -> exists ep, ep ∈ l ++ [e] /\ P ep.
Proof using Type. clear. set_solver. Qed.

Lemma passing_held (pod : Pod) ep a : passing pod ep = Some a -> hasPodIP pod a = true.
Proof. unfold passing. repeat case_match; naive_solver. Qed.

Lemma observe_facts (pod : Pod) (l : list Endpoint) :
  hasPodIP pod EmptyString = false ->
  facts_match pod l (foldl (fun f ep => observes pod ep f) (no_facts pod) l).
Proof using Type.
  clear Hpods lookup. intros Hnil. induction l as [|ep l IH] using rev_ind; [done|].
  rewrite foldl_app. cbn [foldl]. set (f := foldl _ _ l) in *.
  assert (forall a, a ∈ omap (passing pod) l -> a <> EmptyString) as Hne.
  { intros a (e & _ & He)%list_elem_of_omap ->. apply passing_held in He. congruence. }
  unfold facts_match in *. rewrite omap_app. simpl.
  destruct IH as (Ha & Hc & Ht & Hm & Hn & Hx). set (passes := omap (passing pod) l) in *.
  assert (forall P : Endpoint -> Prop, (exists e, e ∈ l /\ P e) -> exists e, e ∈ l ++ [ep] /\ P e)
    as Hgrow by (intros P H; apply in_snoc; by left).
  unfold observe, passing. destruct (match ep_Ready ep with Some r => negb r | None => false end) eqn:Hr.
  { simpl. rewrite app_nil_r. split_and!; try done; [by left| |by auto].
    intros _. apply in_snoc. right. by destruct (ep_Ready ep) as [[]|]. }
  assert (ep_Ready ep <> Some false) as Hready by (intros He; by rewrite He in Hr).
  destruct (negb _ || negb _ || p_Terminating pod) eqn:Hpod.
  { simpl. rewrite app_nil_r. split_and!; try done; [|by auto..]. intros _ _ Hr' Hp Hd.
    by rewrite Hr', Hp, Hd in Hpod. }
  destruct (ep_Addresses ep) as [|a rest] eqn:Hadd; simpl.
  { rewrite app_nil_r. split_and!; try done; [by right|by auto|].
    intros _. apply in_snoc. right. by rewrite Hadd. }
  destruct (hasPodIP pod a) eqn:Hh; simpl.
  2: { rewrite app_nil_r. split_and!; try done; [by right|by auto|].
       intros _. apply in_snoc. right. by rewrite Hadd. }
  assert (a <> EmptyString) as Hae by (intros ->; congruence).
  destruct passes as [|b passes'] eqn:Hp; simpl in *.
  - rewrite Ha. simpl. rewrite String.eqb_refl. simpl. rewrite Hc, Ht. simpl.
    split; [done|]. split; [done|]. split; [|by auto]. by destruct (pprof pod).
  - rewrite Ha. simpl. destruct (String.eqb_spec b EmptyString) as [->|_].
    { by destruct (Hne EmptyString (list_elem_of_here _ _)). }
    simpl. split; [done|]. split; [|split; [|split; [done|by auto]]].
    + rewrite Hc, Ha. simpl. rewrite existsb_app. simpl. by rewrite orb_false_r, orb_assoc.
    + rewrite Ht. by destruct (pprof pod).
Qed.

(** Every entry under one UID is of one Pod. *)
Lemma trusted_lookup ep pod : trusts ep = Some pod -> exists n, lookup n = Some pod.
Proof. unfold trusted. repeat case_match; naive_solver. Qed.

(** The trusted endpoints of a Pod of the cache. *)
Definition trusting (pod : Pod) (l : list Endpoint) : list Endpoint :=
  filter (fun ep => trusts ep = Some pod) l.

Lemma named_one (l : list Endpoint) (pod : Pod) n :
  lookup n = Some pod -> named (p_UID pod) l = (fun ep => (pod, ep)) <$> trusting pod l.
Proof.
  intros Hn. induction l as [|ep l IH]; [done|].
  unfold trusting, named in *. rewrite filter_cons. simpl.
  destruct (trusts ep) as [q|] eqn:Hq; [|by rewrite decide_False].
  simpl. destruct (trusted_lookup _ _ Hq) as [m Hm].
  destruct (String.eqb_spec (p_UID q) (p_UID pod)) as [Hu|Hu].
  - pose proof (proj1 Hpods m n q pod Hm Hn Hu) as ->. rewrite decide_True by done.
    simpl. f_equal. exact IH.
  - rewrite decide_False; [done|]. naive_solver.
Qed.

Lemma gathered_trusting (l : list Endpoint) (pod : Pod) n :
  lookup n = Some pod ->
  gathered (named (p_UID pod) l) =
    match trusting pod l with
    | [] => None
    | E => Some (foldl (fun f ep => observes pod ep f) (no_facts pod) E)
    end.
Proof.
  intros Hn. rewrite (named_one _ _ n Hn).
  destruct (trusting pod l) as [|ep E]; [done|]. simpl. f_equal.
  generalize (observes pod ep (no_facts pod)). induction E as [|e E IH]; intros f; simpl; [done|]. apply IH.
Qed.
End resolve_spec.

(** ** The theorems *)

Section targets.
  Variables (ns svc : string) (opt_Port : Z) (opt_PortName versionLabel : string).
  Variable Matches : gmap string string -> bool.
  Variable sel : PortSelection.

(** A cache: Pods under their names, no two of one UID, none with an empty address. *)
Definition cache_sound (cache : gmap string Pod) : Prop :=
  (forall n p, cache !! n = Some p -> p_Name p = n) /\ pods_ok (fun n => cache !! n).

Abbreviation looked cache := (fun n : string => (cache : gmap string Pod) !! n).
Abbreviation resolves := (resolve ns svc opt_Port opt_PortName versionLabel Matches sel).
Abbreviation pprof := (pprofPort opt_Port opt_PortName sel).
Abbreviation trusts cache := (trusted ns Matches (looked cache)).

(** What the pass leaves of a Pod of the cache. *)
Lemma seen_facts (cache : gmap string Pod) (slices : list EndpointSlice) n pod :
  cache_sound cache -> cache !! n = Some pod ->
  let E := trusting ns Matches (looked cache) pod (endpoints slices) in
  match (resolves slices (looked cache)).2 !! p_UID pod with
  | None => E = []
  | Some f => E <> [] /\ facts_match ns svc opt_Port opt_PortName versionLabel sel pod E f
  end.
Proof.
  intros [_ Hc] Hn E. unfold resolve.
  pose proof (visit_spec ns svc opt_Port opt_PortName versionLabel Matches sel (looked cache)
    (endpoints slices)) as (Hs & _).
  destruct (foldl _ _ _) as [seen order] eqn:Hfold. simpl in *.
  rewrite Hs, (gathered_trusting _ _ _ _ _ _ _ _ Hc _ _ n Hn). fold E.
  destruct E as [|e E']; [done|]. split; [done|].
  apply (observe_facts ns svc opt_Port opt_PortName versionLabel sel pod (e :: E')).
  by apply (proj2 Hc n).
Qed.

Lemma resolve_targets (lookup : string -> option Pod) (slices : list EndpointSlice) (t : Target) :
  t ∈ (resolves slices lookup).1 <->
  exists uid f, (resolves slices lookup).2 !! uid = Some f /\ isTarget f = true /\ ef_target f = Some t.
Proof.
  unfold resolve.
  pose proof (visit_spec ns svc opt_Port opt_PortName versionLabel Matches sel lookup
    (endpoints slices)) as (_ & _ & Hin).
  destruct (foldl _ _ _) as [seen order] eqn:Hfold. simpl in *.
  rewrite list_elem_of_omap. unfold target_of. split.
  - intros (uid & _ & Ht). exists uid. destruct (seen !! uid) as [f|]; [|done]. simpl in Ht.
    exists f. by destruct (isTarget f).
  - intros (uid & f & Hf & Hi & Ht). exists uid. rewrite Hf. simpl. rewrite Hi. split; [|done].
    apply Hin. by rewrite Hf.
Qed.

(** A key of [seen] is the UID of a Pod some trusted endpoint names. *)
Lemma seen_named (cache : gmap string Pod) (slices : list EndpointSlice) uid f :
  (resolves slices (looked cache)).2 !! uid = Some f ->
  exists n pod, cache !! n = Some pod /\ p_UID pod = uid /\ Matches (p_Labels pod) = true.
Proof.
  unfold resolve.
  pose proof (visit_spec ns svc opt_Port opt_PortName versionLabel Matches sel (looked cache)
    (endpoints slices)) as (Hs & _).
  destruct (foldl _ _ _) as [seen order] eqn:Hfold. simpl in *. rewrite Hs. intros Hf.
  destruct (named _ _ _ uid _) as [|[pod ep] l] eqn:Hn; [done|].
  assert ((pod, ep) ∈ named ns Matches (looked cache) uid (endpoints slices)) as Hin
    by (rewrite Hn; apply list_elem_of_here).
  apply list_elem_of_omap in Hin as (e & _ & He).
  destruct (trusts cache e) as [p|] eqn:Ht; [|done]. simpl in He.
  destruct (String.eqb_spec (p_UID p) uid) as [Hu|]; [|done]. injection He as -> ->.
  unfold trusted in Ht. destruct (ep_TargetRef ep) as [ref|]; [|done]. case_match; [done|].
  destruct (cache !! or_Name ref) as [q|] eqn:Hq; [|done]. case_match; [done|].
  destruct (Matches (p_Labels q)) eqn:Hm; [|done]. injection Ht as ->. eauto.
Qed.

(** Facts that match a Pod make it a target exactly when its port resolves,
    some endpoint passes, and all that pass agree. *)
Lemma facts_target (pod : Pod) E f t :
  facts_match ns svc opt_Port opt_PortName versionLabel sel pod E f ->
  (isTarget f = true /\ ef_target f = Some t) <->
  exists a port, pprof pod = Some port /\ a ∈ omap (passing pod) E /\
    (forall b, b ∈ omap (passing pod) E -> b = a) /\
    t = make_target ns svc versionLabel pod a port.
Proof.
  intros (Ha & Hc & Ht & _). unfold isTarget. rewrite Ht, Hc, Ha.
  destruct (omap (passing pod) E) as [|a l]; simpl.
  { split; [by intros [_ ?]|by intros (? & ? & _ & ?%not_elem_of_nil & _)]. }
  destruct (pprof pod) as [port|]; simpl; [|split; [by intros [? _]|by intros (? & ? & [=] & _)]].
  rewrite String.eqb_refl. simpl. split.
  - intros [Hx%negb_true_iff Hy]. injection Hy as <-. exists a, port. split; [done|].
    split; [apply list_elem_of_here|]. split; [|done].
    intros b [->|Hb]%elem_of_cons; [done|].
    destruct (String.eqb_spec a b) as [->|Hne]; [done|]. exfalso.
    assert (existsb (fun x => negb (String.eqb a x)) l = true); [|congruence].
    apply existsb_exists. exists b. split; [by apply list_elem_of_In|].
    by destruct (String.eqb_spec a b).
  - intros (b & p & [= <-] & Hb & Hall & ->).
    assert (a = b) as <- by (apply Hall, list_elem_of_here). split; [|done].
    apply negb_true_iff. apply not_true_iff_false. rewrite existsb_exists.
    intros (x & Hx%list_elem_of_In & Hne). rewrite (Hall x) in Hne by (by apply list_elem_of_further).
    by rewrite String.eqb_refl in Hne.
Qed.

Lemma passes_vouch (cache : gmap string Pod) pod slices a :
  a ∈ omap (passing pod) (trusting ns Matches (looked cache) pod (endpoints slices)) <->
  exists ep, ep ∈ endpoints slices /\ vouches ns Matches (looked cache) pod ep a.
Proof.
  rewrite list_elem_of_omap. unfold trusting. setoid_rewrite vouches_passing.
  setoid_rewrite list_elem_of_filter. naive_solver.
Qed.

Lemma Targets_distinct (cache : gmap string Pod) (slices : list EndpointSlice) :
  cache_sound cache ->
  NoDup (tg_UID <$> Targets ns svc opt_Port opt_PortName versionLabel Matches sel cache slices).
Proof.
  intros Hc.
  unfold Targets, resolve.
  pose proof (visit_spec ns svc opt_Port opt_PortName versionLabel Matches sel (looked cache)
    (endpoints slices)) as (_ & Hnd & _).
  pose proof (fun uid f => seen_named cache slices uid f) as Hnamed.
  pose proof (fun n pod => seen_facts cache slices n pod Hc) as Hfacts. unfold resolve in *.
  destruct (foldl _ _ _) as [seen order]. simpl in *.
  assert (forall uid t, target_of seen uid = Some t -> tg_UID t = uid) as Huid.
  { intros uid t Ht. unfold target_of in Ht. destruct (seen !! uid) as [f|] eqn:Hf; [|done].
    simpl in Ht. destruct (isTarget f) eqn:Hi; [|done].
    destruct (Hnamed uid f Hf) as (n & pod & Hn & <- & _). pose proof (Hfacts n pod Hn) as Hs.
    rewrite Hf in Hs. destruct Hs as [_ Hm].
    destruct (proj1 (facts_target _ _ _ t Hm) (conj Hi Ht)) as (a & port & _ & _ & _ & ->). done. }
  clear -Hnd Huid. induction Hnd as [|uid order Hnot Hnd IH]; simpl; [constructor|].
  destruct (target_of seen uid) as [t|] eqn:Ht; [|done]. simpl. constructor; [|done].
  rewrite (Huid _ _ Ht). intros (t' & He & (u & Hu & Ht')%list_elem_of_omap)%list_elem_of_fmap.
  apply Huid in Ht'. congruence.
Qed.

(** A Service's targets are exactly the Pods its trusted endpoints vouch
    for and agree on: a Pod of the cache whose pprof port resolves, that some
    endpoint of the family read names under the Service's own selector and by
    its current UID, ready, running, not terminating, at an address the Pod
    holds, with no other such endpoint naming another address; and each Pod is
    a target once. *)
Theorem Targets_spec (cache : gmap string Pod) (slices : list EndpointSlice) :
  cache_sound cache ->
  (forall t, t ∈ Targets ns svc opt_Port opt_PortName versionLabel Matches sel cache slices <->
    exists n pod a port, cache !! n = Some pod /\ pprof pod = Some port /\
      (exists ep, ep ∈ endpoints slices /\ vouches ns Matches (looked cache) pod ep a) /\
      (forall ep b, ep ∈ endpoints slices -> vouches ns Matches (looked cache) pod ep b -> b = a) /\
      t = make_target ns svc versionLabel pod a port) /\
  NoDup (tg_UID <$> Targets ns svc opt_Port opt_PortName versionLabel Matches sel cache slices).
Proof.
  intros Hc. split; [|by apply Targets_distinct].
  - intros t. unfold Targets. rewrite resolve_targets. split.
    + intros (uid & f & Hf & Ht). destruct (seen_named _ _ _ _ Hf) as (n & pod & Hn & <- & _).
      pose proof (seen_facts cache slices n pod Hc Hn) as Hs. simpl in Hs. rewrite Hf in Hs.
      destruct Hs as [_ Hm]. apply (facts_target _ _ _ _ Hm) in Ht as (a & port & Hp & Ha & Hall & ->).
      exists n, pod, a, port. split; [done|]. split; [done|].
      split; [by apply passes_vouch|]. split; [|done]. intros ep b He Hv. apply Hall.
      apply passes_vouch. eauto.
    + intros (n & pod & a & port & Hn & Hp & Hv & Hall & ->).
      pose proof (seen_facts cache slices n pod Hc Hn) as Hs. simpl in Hs.
      apply passes_vouch in Hv. destruct ((resolves slices _).2 !! p_UID pod) as [f|] eqn:Hf.
      * exists (p_UID pod), f. split; [done|]. destruct Hs as [_ Hm].
        apply (facts_target _ _ _ _ Hm). exists a, port. split; [done|]. split; [done|].
        split; [|done]. intros b (ep & ? & ?)%passes_vouch. eauto.
      * rewrite Hs in Hv. by apply not_elem_of_nil in Hv.
Qed.

(** ** The report of the Pods that are not targets *)

(** The reason a Pod is counted under, if it is not a target. *)
Definition reason_of (seen : gmap string endpointFacts) (pod : Pod) : option exclusion :=
  match seen !! p_UID pod with
  | Some f => if isTarget f then None else Some (attribute pod (Some f))
  | None => Some (attribute pod None)
  end.

Lemma counted_reason seen reason pod :
  counted seen reason pod = true <-> reason_of seen pod = Some reason.
Proof.
  unfold counted, reason_of. destruct (seen !! p_UID pod) as [f|]; [destruct (isTarget f)|];
    rewrite ?bool_decide_eq_true; naive_solver.
Qed.

Lemma sum_list_app (l k : list nat) : sum_list (l ++ k) = (sum_list l + sum_list k)%nat.
Proof. induction l; simpl; lia. Qed.

(** A classification counts every classified element once. *)
Lemma count_classes {A R} `{EqDecision R} (g : A -> option R) (rs : list R) (l : list A) :
  NoDup rs -> (forall x r, x ∈ l -> g x = Some r -> r ∈ rs) ->
  sum_list ((fun r => length (filter (fun x => g x = Some r) l)) <$> rs) =
  length (filter (fun x => is_Some (g x)) l).
Proof.
  intros Hnd. induction l as [|x l IH]; intros Hin.
  { clear. induction rs; simpl; auto. }
  rewrite filter_cons. specialize (IH (fun y r Hy => Hin y r (list_elem_of_further _ _ _ Hy))).
  assert (sum_list ((fun r => length (filter (fun y => g y = Some r) (x :: l))) <$> rs) =
    sum_list ((fun r => length (filter (fun y => g y = Some r) l)) <$> rs) +
    (if decide (is_Some (g x)) then 1 else 0))%nat as ->.
  2: { rewrite IH. case_decide; simpl; lia. }
  destruct (g x) as [r|] eqn:Hx.
  - rewrite decide_True by (by eexists).
    assert (r ∈ rs) as Hr by (apply (Hin x); [apply list_elem_of_here|done]).
    apply list_elem_of_split in Hr as (l1 & l2 & ->).
    apply NoDup_app in Hnd as (_ & Hd1 & [Hd2 _]%NoDup_cons).
    assert (forall rs' : list R, r ∉ rs' ->
      (fun r => length (filter (fun y => g y = Some r) (x :: l))) <$> rs' =
      (fun r => length (filter (fun y => g y = Some r) l)) <$> rs') as Hsame.
    { intros rs' Hnot. apply list_fmap_ext. intros i r' Hr'%list_elem_of_lookup_2.
      rewrite filter_cons, Hx, decide_False; [done|]. intros [= ->]. done. }
    rewrite !fmap_app, !fmap_cons, !sum_list_app.
    rewrite (Hsame l1), (Hsame l2);
      [|done|intros H1; apply (Hd1 r H1); apply list_elem_of_here].
    rewrite filter_cons, Hx, decide_True by done. simpl. lia.
  - rewrite decide_False by (by intros [? ?]). rewrite Nat.add_0_r. f_equal.
    apply list_fmap_ext. intros i r _. by rewrite filter_cons, Hx, decide_False.
Qed.

(** [byName] of the selected Pods is the cache, less the Pods not selected. *)
Lemma byName_lookup (pods : list Pod) n pod :
  NoDup (p_Name <$> pods) ->
  byName pods !! n = Some pod <-> pod ∈ pods /\ p_Name pod = n.
Proof.
  unfold byName. induction pods as [|q pods IH] using rev_ind; intros Hnd; simpl.
  { rewrite lookup_empty. split; [done|by intros [?%not_elem_of_nil _]]. }
  rewrite foldl_app. simpl. rewrite fmap_app in Hnd. apply NoDup_app in Hnd as (Hnd & Hq & _).
  rewrite elem_of_app, list_elem_of_singleton.
  destruct (decide (p_Name q = n)) as [<-|Hne].
  - rewrite lookup_insert_eq. split; [intros [= ->]; auto|]. intros [[Hin| ->] Hn]; [|done].
    exfalso. apply (Hq (p_Name q)); [|apply list_elem_of_here].
    rewrite <-Hn. by apply list_elem_of_fmap_2.
  - rewrite lookup_insert_ne by done. rewrite IH by done. naive_solver.
Qed.

Lemma selected_in (cache : gmap string Pod) pod :
  cache_sound cache ->
  pod ∈ selected Matches cache <-> cache !! p_Name pod = Some pod /\ Matches (p_Labels pod) = true.
Proof.
  intros [Hname _]. unfold selected. rewrite list_elem_of_filter, list_elem_of_fmap.
  split.
  - intros [Hm ([n p] & -> & Hp%elem_of_map_to_list)]. simpl in *. by rewrite (Hname _ _ Hp).
  - intros [Hn Hm]. split; [done|]. exists (p_Name pod, pod).
    split; [done|]. by apply elem_of_map_to_list.
Qed.

Lemma selected_names (cache : gmap string Pod) :
  cache_sound cache -> NoDup (p_Name <$> selected Matches cache).
Proof.
  intros [Hname _]. unfold selected.
  assert (forall l : list (string * Pod), (forall n p, (n, p) ∈ l -> p_Name p = n) -> NoDup l.*1 ->
    NoDup (p_Name <$> filter (fun pod => Matches (p_Labels pod) = true) l.*2)) as Hgen.
  { induction l as [|[n p] l IH]; intros Hl Hnd; [constructor|]. simpl in *.
    apply NoDup_cons in Hnd as [Hnot Hnd].
    assert (forall m q, (m, q) ∈ l -> p_Name q = m) as Hl'
      by (intros m q Hq; apply Hl; by apply list_elem_of_further).
    rewrite filter_cons. case_decide; [|by apply IH]. simpl. constructor; [|by apply IH].
    rewrite (Hl n p (list_elem_of_here _ _)).
    intros (q & Hq & [_ ([m q'] & -> & Hin)%list_elem_of_fmap]%list_elem_of_filter)%list_elem_of_fmap.
    apply Hnot. apply list_elem_of_fmap. exists (m, q'). split; [|done]. simpl.
    rewrite Hq. by apply Hl'. }
  apply Hgen; [|apply NoDup_fst_map_to_list].
  intros n p Hp%elem_of_map_to_list. by apply Hname.
Qed.

Lemma trusted_selected (cache : gmap string Pod) ep :
  cache_sound cache ->
  trusted ns Matches (looked (byName (selected Matches cache))) ep = trusts cache ep.
Proof.
  intros Hc. unfold trusted. destruct (ep_TargetRef ep) as [ref|]; [|done]. case_match; [done|].
  destruct (byName (selected Matches cache) !! or_Name ref) as [p|] eqn:Hp.
  - apply byName_lookup in Hp as [Hp Hn]; [|by apply selected_names].
    apply selected_in in Hp as [Hp Hm]; [|done]. by rewrite <-Hn, Hp.
  - destruct (cache !! or_Name ref) as [q|] eqn:Hq; [|done]. case_match; [done|].
    destruct (Matches (p_Labels q)) eqn:Hm; [|done]. exfalso.
    pose proof (proj1 Hc _ _ Hq) as Hn.
    assert (byName (selected Matches cache) !! or_Name ref = Some q); [|congruence].
    apply byName_lookup; [by apply selected_names|]. split; [|done].
    apply selected_in; [done|]. by rewrite Hn.
Qed.

Lemma resolve_selected (cache : gmap string Pod) slices :
  cache_sound cache ->
  resolves slices (looked (byName (selected Matches cache))) = resolves slices (looked cache).
Proof.
  intros Hc. unfold resolve.
  assert (forall l s,
    foldl (visit ns svc opt_Port opt_PortName versionLabel Matches sel
      (looked (byName (selected Matches cache)))) s l =
    foldl (visit ns svc opt_Port opt_PortName versionLabel Matches sel (looked cache)) s l) as ->; [|done].
  induction l as [|ep l IH]; intros s; [done|]. simpl. rewrite IH. f_equal.
  unfold visit. by rewrite trusted_selected.
Qed.

Lemma excluded_total (seen : gmap string endpointFacts) (pods : list Pod) :
  sum_list (excluded seen pods).*2 = length (filter (fun pod => is_Some (reason_of seen pod)) pods).
Proof.
  rewrite <-(count_classes (reason_of seen) exclusionReasons).
  - unfold excluded. generalize exclusionReasons. induction l as [|r l IH]; [done|]. csimpl.
    assert (filter (fun pod => counted seen r pod = true) pods =
      filter (fun pod => reason_of seen pod = Some r) pods) as ->
      by (apply list_filter_iff; intros; apply counted_reason).
    destruct (Nat.ltb_spec 0 (length (filter (fun pod => reason_of seen pod = Some r) pods)));
      csimpl; rewrite IH; lia.
  - by apply (bool_decide_unpack _); vm_compute.
  - intros pod r _. unfold reason_of, exclusionReasons, attribute.
    repeat case_match; intros [= <-]; set_solver.
Qed.

(** The targets' UIDs are those of the selected Pods with no reason. *)
Lemma targets_uids (cache : gmap string Pod) slices uid :
  cache_sound cache ->
  let '(targets, seen) := resolves slices (looked cache) in
  uid ∈ tg_UID <$> targets <->
  uid ∈ p_UID <$> filter (fun pod => ~ is_Some (reason_of seen pod)) (selected Matches cache).
Proof.
  intros Hc. pose proof (resolve_targets (looked cache) slices) as Ht.
  pose proof (fun uid f => seen_named cache slices uid f) as Hnamed.
  pose proof (fun n pod => seen_facts cache slices n pod Hc) as Hfacts.
  destruct (resolves slices (looked cache)) as [targets seen]. simpl in *.
  rewrite !list_elem_of_fmap. split.
  - intros (t & -> & (u & f & Hf & Hi & Het)%Ht).
    destruct (Hnamed u f Hf) as (n & pod & Hn & <- & Hm). pose proof (Hfacts n pod Hn) as Hs.
    rewrite Hf in Hs. destruct Hs as [_ Hm2].
    destruct (proj1 (facts_target _ _ _ t Hm2) (conj Hi Het)) as (a & port & _ & _ & _ & ->).
    exists pod. split; [done|]. apply list_elem_of_filter. split.
    + unfold reason_of. rewrite Hf, Hi. by intros [? ?].
    + apply selected_in; [done|]. by rewrite (proj1 Hc _ _ Hn).
  - intros (pod & -> & [Hr [Hn _]%selected_in]%list_elem_of_filter); [|done].
    unfold reason_of in Hr. destruct (seen !! p_UID pod) as [f|] eqn:Hf; [|by destruct Hr].
    destruct (isTarget f) eqn:Hi; [|by destruct Hr].
    destruct (ef_target f) as [t|] eqn:Het; [|unfold isTarget in Hi; by rewrite Het in Hi].
    exists t. split; [|by apply Ht; exists (p_UID pod), f].
    pose proof (Hfacts _ _ Hn) as Hs. rewrite Hf in Hs. destruct Hs as [_ Hm2].
    by destruct (proj1 (facts_target _ _ _ t Hm2) (conj Hi Het)) as (a & port & _ & _ & _ & ->).
Qed.

(** The report accounts for every selected Pod: its targets are those the
    target list answers for the same caches, and the Pods the selector matched
    are the targets plus the Pods each listed reason counts, so no Pod is lost
    or counted twice. *)
Theorem Explain_accounts (cache : gmap string Pod) (slices : list EndpointSlice) :
  cache_sound cache ->
  let e := Explain ns svc opt_Port opt_PortName versionLabel Matches sel cache slices in
  ex_Targets e = Targets ns svc opt_Port opt_PortName versionLabel Matches sel cache slices /\
  ex_SelectorMatched e = (length (ex_Targets e) + sum_list (ex_Excluded e).*2)%nat.
Proof.
  intros Hc. unfold Explain. rewrite resolve_selected by done.
  pose proof (Targets_distinct cache slices Hc) as Hnd. unfold Targets in *.
  destruct (resolves slices (looked cache)) as [targets seen] eqn:Hr. simpl in *.
  split; [done|].
  set (pods := selected Matches cache). rewrite excluded_total.
  assert (length targets = length (filter (fun pod => ~ is_Some (reason_of seen pod)) pods)) as ->.
  2: { rewrite Nat.add_comm, <-length_app. apply Permutation_length. symmetry.
       apply filter_app_complement. }
  rewrite <-(length_fmap tg_UID targets), <-(length_fmap p_UID (filter _ pods)).
  apply Permutation_length, NoDup_Permutation; [done| |].
  - apply NoDup_fmap_2_strong.
    + intros p q [_ Hp]%list_elem_of_filter [_ Hq]%list_elem_of_filter.
      apply selected_in in Hp as [Hp _], Hq as [Hq _]; [|done..].
      exact (proj1 (proj2 Hc) _ _ p q Hp Hq).
    + apply NoDup_filter. by apply (NoDup_fmap_1 p_Name), selected_names.
  - intros uid. pose proof (targets_uids cache slices uid Hc) as Hu. rewrite Hr in Hu. exact Hu.
Qed.

(** What a reason says of a selected Pod. *)
Definition explains (cache : gmap string Pod) (slices : list EndpointSlice) (pod : Pod)
    (r : exclusion) : Prop :=
  let trusted_by ep := ep ∈ endpoints slices /\ trusts cache ep = Some pod in
  let vouched ep a := ep ∈ endpoints slices /\ vouches ns Matches (looked cache) pod ep a in
  match r with
  | PodTerminating => p_Terminating pod = true
  | PodNotRunning => p_Phase pod <> PodRunning
  | PodNotReady => podReady (p_Conditions pod) = false
  | EndpointMissing => forall ep, ~ trusted_by ep
  | EndpointNotReady => exists ep, trusted_by ep /\ ep_Ready ep = Some false
  | EndpointAddressMismatch => exists ep, trusted_by ep /\ ep_Ready ep <> Some false /\
      match head (ep_Addresses ep) with Some a => hasPodIP pod a = false | None => True end
  | EndpointAddressConflict => exists ep ep' a b, vouched ep a /\ vouched ep' b /\ a <> b
  | PortNameNotDeclared => pprof pod = None /\ exists ep a, vouched ep a
  | VersionMismatch | PodNameMismatch => False
  end.

Lemma trusting_in (cache : gmap string Pod) slices pod (P : Endpoint -> Prop) :
  (exists ep, ep ∈ trusting ns Matches (looked cache) pod (endpoints slices) /\ P ep) ->
  exists ep, (ep ∈ endpoints slices /\ trusts cache ep = Some pod) /\ P ep.
Proof. intros (ep & [Ht He]%list_elem_of_filter & HP). eauto. Qed.

Lemma conflict_addresses a (l : list string) (c : string) :
  c = default EmptyString (head (a :: l)) ->
  existsb (fun b => negb (String.eqb c b)) (a :: l) = true -> exists b, b ∈ l /\ b <> a.
Proof.
  simpl. intros ->. rewrite String.eqb_refl. simpl.
  intros (b & Hb%list_elem_of_In & Hne)%existsb_exists. exists b. split; [done|].
  by intros ->; rewrite String.eqb_refl in Hne.
Qed.

(** The reason the report counts a Pod under is true of it: a Pod counted
    under an address conflict has two endpoints vouching for it at different
    addresses, one counted under [port_name_not_declared] has an endpoint
    vouching for it and no pprof port, and so on for each; and the pass warns
    of a conflict for exactly the Pods reported under it. *)
Theorem reason_sound (cache : gmap string Pod) (slices : list EndpointSlice) (pod : Pod) (r : exclusion) :
  cache_sound cache -> pod ∈ selected Matches cache ->
  reason_of (resolves slices (looked cache)).2 pod = Some r ->
  explains cache slices pod r /\
  (p_Phase pod = PodRunning -> podReady (p_Conditions pod) = true -> p_Terminating pod = false ->
   forall f, (resolves slices (looked cache)).2 !! p_UID pod = Some f ->
     (conflicted f = true <-> r = EndpointAddressConflict)).
Proof.
  intros Hc Hpod Hr. apply selected_in in Hpod as [Hn _]; [|done].
  pose proof (seen_facts cache slices _ pod Hc Hn) as Hs. unfold reason_of in Hr.
  set (E := trusting ns Matches (looked cache) pod (endpoints slices)) in *.
  simpl in Hs. destruct ((resolves slices (looked cache)).2 !! p_UID pod) as [f|].
  2: { split; [|done]. unfold attribute in Hr. injection Hr as <-.
       destruct (p_Terminating pod) eqn:?; [done|]. destruct (String.eqb_spec (p_Phase pod) PodRunning);
         [|done]. destruct (podReady _) eqn:?; [|done]. simpl. intros ep [He Ht].
       assert (ep ∈ E) as Hin by (by apply list_elem_of_filter). rewrite Hs in Hin.
       by apply not_elem_of_nil in Hin. }
  destruct Hs as [HE (Ha & Hcf & Ht & Hm & Hnr & Hmis)].
  destruct (isTarget f) eqn:Hi; [done|]. injection Hr as <-.
  unfold attribute, isTarget, conflicted in *.
  destruct (p_Terminating pod) eqn:Hterm; [done|].
  destruct (String.eqb_spec (p_Phase pod) PodRunning) as [Hph|]; [|done].
  destruct (podReady (p_Conditions pod)) eqn:Hrd; [|done]. simpl.
  assert (ef_conflict f = true -> explains cache slices pod EndpointAddressConflict) as Hconf.
  { intros Hx. rewrite Hcf in Hx. destruct (omap (passing pod) E) as [|a l] eqn:Hp; [done|].
    destruct (conflict_addresses _ _ _ Ha Hx) as (b & Hb & Hne).
    assert (forall x, x ∈ a :: l -> exists ep, ep ∈ endpoints slices /\
      vouches ns Matches (looked cache) pod ep x) as Hv by (intros x; rewrite <-Hp; apply passes_vouch).
    destruct (Hv a) as (ep & ?); [apply list_elem_of_here|].
    destruct (Hv b) as (ep' & ?); [by apply list_elem_of_further|].
    exists ep, ep', a, b. auto. }
  destruct (decide (is_Some (ef_target f))) as [Htg|Htg];
    [rewrite bool_decide_true in * by done|rewrite bool_decide_false in * by done]; simpl in *.
  { apply negb_false_iff in Hi. split; [by apply Hconf|]. intros _ _ _ f' [= <-].
    by rewrite Hi, bool_decide_true. }
  destruct (ef_notReady f) eqn:Hnr'; simpl.
  { split; [by apply trusting_in, Hnr|]. intros _ _ _ f' [= <-]. rewrite bool_decide_false by done.
    rewrite Hnr'. simpl. rewrite andb_false_r. done. }
  destruct (ef_addressMismatch f) eqn:Hmis'; simpl.
  { split; [by apply trusting_in, Hmis|]. intros _ _ _ f' [= <-]. rewrite bool_decide_false by done.
    rewrite Hmis', Hnr'. simpl. rewrite andb_false_r. done. }
  assert (exists a l, omap (passing pod) E = a :: l) as (a & l & Hp).
  { destruct (omap (passing pod) E) as [|a l]; [|by eauto]. by destruct (Hm eq_refl HE eq_refl Hph eq_refl). }
  destruct (ef_conflict f) eqn:Hx; simpl.
  { split; [by apply Hconf|]. intros _ _ _ f' [= <-]. by rewrite Hx, Hnr', Hmis', orb_true_r. }
  split.
  - split.
    + rewrite Hp in Ht. simpl in Ht. destruct (pprof pod); [|done]. rewrite Ht in Htg. by destruct Htg.
    + destruct (proj1 (passes_vouch cache pod slices a)) as (ep & Hv).
      { fold E. rewrite Hp. apply list_elem_of_here. }
      by exists ep, a.
  - intros _ _ _ f' [= <-]. by rewrite Hx.
Qed.
End targets.

(** ** Confirmation and the catalogue *)

(** What the API server answered the read of a Pod with. *)
Inductive podRead :=
  | PodGot (pod : Pod)
  | PodAbsent
  | PodReadFailed (canceled : bool).

Inductive confirmError := ErrTargetChanged | ErrDiscoveryUnavailable | ErrCanceled.
#[export] Instance confirmError_eq_dec : EqDecision confirmError.
Proof. solve_decision. Defined.

(** [Confirm]; [callerCanceled] is whether the caller's context was cancelled. *)
Definition Confirm (callerCanceled : bool) (r : podRead) (t : Target) : option confirmError :=
  match r with
  | PodAbsent => Some ErrTargetChanged
  | PodReadFailed canceled =>
      if canceled || callerCanceled then Some ErrCanceled else Some ErrDiscoveryUnavailable
  | PodGot pod =>
      if negb (String.eqb (p_UID pod) (tg_UID t)) then Some ErrTargetChanged
      else if p_Terminating pod then Some ErrTargetChanged
      else if negb (String.eqb (p_Phase pod) PodRunning) then Some ErrTargetChanged
      else if negb (podReady (p_Conditions pod)) then Some ErrTargetChanged
      else if negb (hasPodIP pod (tg_PodIP t)) then Some ErrTargetChanged
      else None
  end.

(** A confirmation passes exactly when the read returned the very Pod that
    was selected, running, ready, not terminating and still holding the
    selected address; so the Pod a target was resolved from confirms it, and
    no failed read ever does. *)
Theorem Confirm_spec (callerCanceled : bool) (r : podRead) (t : Target) :
  (Confirm callerCanceled r t = None <->
   exists pod, r = PodGot pod /\ p_UID pod = tg_UID t /\ p_Terminating pod = false /\
     p_Phase pod = PodRunning /\ podReady (p_Conditions pod) = true /\ hasPodIP pod (tg_PodIP t) = true) /\
  (forall ns svc label Matches lookup pod ep a port,
     vouches ns Matches lookup pod ep a -> t = make_target ns svc label pod a port ->
     Confirm callerCanceled (PodGot pod) t = None) /\
  (Confirm callerCanceled r t = Some ErrDiscoveryUnavailable <->
   r = PodReadFailed false /\ callerCanceled = false).
Proof.
  assert (forall pod, Confirm callerCanceled (PodGot pod) t = None <->
    p_UID pod = tg_UID t /\ p_Terminating pod = false /\ p_Phase pod = PodRunning /\
    podReady (p_Conditions pod) = true /\ hasPodIP pod (tg_PodIP t) = true) as Hgot.
  { intros pod. simpl. destruct (String.eqb_spec (p_UID pod) (tg_UID t)); simpl; [|naive_solver].
    destruct (p_Terminating pod); [naive_solver|].
    destruct (String.eqb_spec (p_Phase pod) PodRunning); simpl; [|naive_solver].
    destruct (podReady _); simpl; [|naive_solver]. destruct (hasPodIP _ _); naive_solver. }
  split; [|split].
  - destruct r as [pod| |c]; [rewrite Hgot; naive_solver|naive_solver|].
    simpl. destruct (c || callerCanceled); naive_solver.
  - intros ns svc label Matches lookup pod ep a port (_ & _ & ? & ? & ? & _ & ?) ->. by apply Hgot.
  - destruct r as [pod| |c]; simpl; [repeat case_match; naive_solver|naive_solver|].
    destruct c, callerCanceled; naive_solver.
Qed.

(** A Service of the cache: its key and whether its selector is empty. *)
Record ServiceEntry := { se_Namespace : string; se_Name : string; se_Selectorless : bool }.

Definition catalog_compare (a b : serviceRef) : Z :=
  if str_compare a.1 b.1 =? 0 then str_compare a.2 b.2 else str_compare a.1 b.1.
Definition catalog_le (a b : serviceRef) : Prop := catalog_compare a b <= 0.
#[export] Instance catalog_le_dec : RelDecision catalog_le.
Proof. intros a b. unfold catalog_le. apply _. Defined.

(** [Catalog]: of one namespace, or of all for the empty name. *)
Definition Catalog (services : list ServiceEntry) (namespace : string) : list serviceRef :=
  merge_sort catalog_le (omap (fun s =>
    if negb (String.eqb namespace EmptyString) && negb (String.eqb (se_Namespace s) namespace) then None
    else if se_Selectorless s then None
    else Some (se_Namespace s, se_Name s)) services).

(** ** The theorems at a concrete input *)

Definition demo_pod : Pod :=
  {| p_Namespace := "shop"; p_Name := "cart-0"; p_UID := "u0"; p_Labels := ∅; p_Terminating := false;
     p_NodeName := "n0"; p_Containers := []; p_Phase := "Running";
     p_Conditions := [("Initialized", "True"); ("Ready", "True")]; p_PodIPs := ["10.0.0.1"] |}.
Definition demo_pods : gmap string Pod := {[ "cart-0" := demo_pod ]}.
Definition demo_slices : list EndpointSlice :=
  [{| es_AddressType := "IPv4"; es_Endpoints :=
        [{| ep_TargetRef := Some {| or_Kind := "Pod"; or_Namespace := "shop"; or_Name := "cart-0"; or_UID := "u0" |};
            ep_Ready := None; ep_Addresses := ["10.0.0.1"] |}] |}].
Definition demo_sel : PortSelection := {| ps_Port := 0; ps_PortName := "" |}.

Lemma demo_pods_sound : cache_sound demo_pods.
Proof.
  unfold demo_pods. split; [|split].
  - intros n p [<- <-]%lookup_singleton_Some. done.
  - intros m n p q [_ <-]%lookup_singleton_Some [_ <-]%lookup_singleton_Some. done.
  - intros m p [_ <-]%lookup_singleton_Some. done.
Qed.

Lemma Targets_spec_witness :
  cache_sound demo_pods /\
  length (Targets "shop" "cart" 6060 "" "version" (fun _ => true) demo_sel demo_pods demo_slices) = 1%nat /\
  NoDup (tg_UID <$> Targets "shop" "cart" 6060 "" "version" (fun _ => true) demo_sel demo_pods demo_slices).
Proof.
  pose proof demo_pods_sound as Hc. split; [exact Hc|]. split; [by vm_compute|].
  exact (proj2 (Targets_spec "shop" "cart" 6060 "" "version" (fun _ => true) demo_sel demo_pods demo_slices Hc)).
Defined.

Lemma Explain_accounts_witness :
  cache_sound demo_pods /\
  let e := Explain "shop" "cart" 0 "" "version" (fun _ => true) demo_sel demo_pods demo_slices in
  ex_Excluded e = [(PortNameNotDeclared, 1%nat)] /\
  ex_SelectorMatched e = (length (ex_Targets e) + sum_list (ex_Excluded e).*2)%nat.
Proof.
  pose proof demo_pods_sound as Hc. split; [exact Hc|]. split; [by vm_compute|].
  exact (proj2 (Explain_accounts "shop" "cart" 0 "" "version" (fun _ => true) demo_sel demo_pods demo_slices Hc)).
Defined.

Lemma reason_sound_witness :
  cache_sound demo_pods /\
  explains "shop" 0 "" (fun _ => true) demo_sel demo_pods demo_slices demo_pod PortNameNotDeclared.
Proof.
  pose proof demo_pods_sound as Hc. split; [exact Hc|].
  refine (proj1 (reason_sound "shop" "cart" 0 "" "version" (fun _ => true) demo_sel demo_pods demo_slices
    demo_pod PortNameNotDeclared Hc _ _)).
  - apply selected_in; [exact Hc|]. by split.
  - by vm_compute.
Defined.
