(* ===== verification/Routes.v ===== *)
(** * Routes, realms and the admission gate

    src/internal/httpapi/routes.go (the route table and its matcher), realm.go
    (what a realm admits), the route classifications of server.go, and
    src/internal/admit/gate.go.  [IsDNS1123Label] of k8s.io/apimachinery is an
    argument: whether it finds no fault in a segment. *)

From S2P Require Import Prelude Effects Ident.

(** ** The route table *)

Inductive routeKind :=
  | kindTargets | kindProfile | kindPGOPolicy | kindCollections | kindCollection
  | kindCollectionProfile | kindCollectionCancel | kindCollectionLatest | kindCollectionLatestProfile
  | kindNamespaces | kindServices | kindCatalog | kindWhoami | kindLimits | kindAuth
  | kindAuthLogin | kindAuthCallback | kindAuthLogout | kindOpenAPI | kindConsole.

#[export] Instance routeKind_eq_dec : EqDecision routeKind.
Proof. solve_decision. Defined.

Definition isAuthRoute (k : routeKind) : bool :=
  match k with kindAuthLogin | kindAuthCallback | kindAuthLogout => true | _ => false end.

Definition isPGO (k : routeKind) : bool :=
  match k with
  | kindPGOPolicy | kindCollections | kindCollection | kindCollectionProfile | kindCollectionCancel
  | kindCollectionLatest | kindCollectionLatestProfile => true
  | _ => false
  end.

Definition isPGOWrite (k : routeKind) : bool :=
  match k with kindCollections | kindCollectionCancel => true | _ => false end.

Definition isCollectionScoped (k : routeKind) : bool :=
  match k with kindCollection | kindCollectionProfile | kindCollectionCancel => true | _ => false end.

Definition isListing (k : routeKind) : bool :=
  match k with
  | kindNamespaces | kindServices | kindCatalog | kindWhoami | kindLimits => true
  | _ => false
  end.

Record declaration := { Template : string; Kind : routeKind; Methods : list string }.
#[export] Instance declaration_eq_dec : EqDecision declaration.
Proof. solve_decision. Defined.

Definition MethodGet : string := "GET".
Definition MethodHead : string := "HEAD".
Definition MethodPost : string := "POST".
Definition MethodPut : string := "PUT".
Definition MethodDelete : string := "DELETE".

Definition declare (template : string) (kind : routeKind) (methods : list string) : declaration :=
  {| Template := template; Kind := kind; Methods := methods |}.

Definition routeTable : list declaration :=
  let svc := "/v1/namespaces/{namespace}/services/{service}" in
  [declare (svc +:+ "/targets") kindTargets [MethodGet];
   declare (svc +:+ "/profiles/{profile}") kindProfile [MethodGet];
   declare (svc +:+ "/pgo") kindPGOPolicy [MethodGet; MethodPut; MethodDelete];
   declare (svc +:+ "/collections") kindCollections [MethodGet; MethodPost];
   declare (svc +:+ "/collections/latest") kindCollectionLatest [MethodGet];
   declare (svc +:+ "/collections/latest/profile") kindCollectionLatestProfile [MethodGet];
   declare "/v1/collections/{id}" kindCollection [MethodGet];
   declare "/v1/collections/{id}/profile" kindCollectionProfile [MethodGet];
   declare "/v1/collections/{id}/cancel" kindCollectionCancel [MethodPost];
   declare "/v1/namespaces" kindNamespaces [MethodGet];
   declare "/v1/namespaces/{namespace}/services" kindServices [MethodGet];
   declare "/v1/catalog" kindCatalog [MethodGet];
   declare "/v1/whoami" kindWhoami [MethodGet];
   declare "/v1/limits" kindLimits [MethodGet];
   declare "/v1/auth" kindAuth [MethodGet];
   declare "/v1/openapi.json" kindOpenAPI [MethodGet];
   declare "/auth/login" kindAuthLogin [MethodGet];
   declare "/auth/callback" kindAuthCallback [MethodGet];
   declare "/auth/logout" kindAuthLogout [MethodGet];
   declare "/ui/" kindConsole [MethodGet; MethodHead];
   declare "/ui/{file}" kindConsole [MethodGet; MethodHead];
   declare "/" kindConsole [MethodGet; MethodHead]].

Record route := {
  rt_kind : routeKind;
  rt_namespace : string;
  rt_service : string;
  rt_profile : string;
  rt_collection : string
}.

Definition empty_route (k : routeKind) : route :=
  {| rt_kind := k; rt_namespace := EmptyString; rt_service := EmptyString; rt_profile := EmptyString;
     rt_collection := EmptyString |}.

Definition paramNamespace : string := "namespace".
Definition paramService : string := "service".
Definition paramProfile : string := "profile".
Definition paramID : string := "id".
Definition paramFile : string := "file".

(** [strings.TrimSuffix]. *)
Definition trim_suffix (suf s : string) : string := default s (cut_suffix suf s).

Section routes.
  Variable IsDNS1123Label : string -> bool.

(** [capture]; the console's remainder is checked and not stored. *)
Definition capture (rt : route) (name value : string) : option route :=
  if String.eqb value EmptyString then None
  else if String.eqb name paramNamespace then
    if IsDNS1123Label value
    then Some {| rt_kind := rt_kind rt; rt_namespace := value; rt_service := rt_service rt;
                 rt_profile := rt_profile rt; rt_collection := rt_collection rt |}
    else None
  else if String.eqb name paramService then
    if IsDNS1123Label value
    then Some {| rt_kind := rt_kind rt; rt_namespace := rt_namespace rt; rt_service := value;
                 rt_profile := rt_profile rt; rt_collection := rt_collection rt |}
    else None
  else if String.eqb name paramProfile then
    Some {| rt_kind := rt_kind rt; rt_namespace := rt_namespace rt; rt_service := rt_service rt;
            rt_profile := value; rt_collection := rt_collection rt |}
  else if String.eqb name paramID then
    if ValidID value
    then Some {| rt_kind := rt_kind rt; rt_namespace := rt_namespace rt; rt_service := rt_service rt;
                 rt_profile := rt_profile rt; rt_collection := value |}
    else None
  else if String.eqb name paramFile then Some rt
  else None.

(** The name a template part captures under. *)
Definition param_of (part : string) : option string :=
  match cut_prefix "{" part with
  | None => None
  | Some rest => Some (trim_suffix "}" rest)
  end.

(** The loop of [bind], from one part of the template on. *)
Fixpoint bind_parts (template segments : list string) (rt : route) : option route :=
  match template, segments with
  | [], [] => Some rt
  | [], _ :: _ => None
  | _ :: _, [] => None
  | part :: template', segment :: segments' =>
      match param_of part with
      | None => if String.eqb segment part then bind_parts template' segments' rt else None
      | Some name =>
          if String.eqb name paramFile then capture rt name (join_with "/" segments)
          else
            match capture rt name segment with
            | None => None
            | Some rt' => bind_parts template' segments' rt'
            end
      end
  end.

Definition bind (d : declaration) (path : string) : option route :=
  bind_parts (split_at "/" (Template d)) (split_at "/" path) (empty_route (Kind d)).

(** [match]: the first declaration, in table order, that binds. *)
Fixpoint match_in (table : list declaration) (path : string) : option (route * declaration) :=
  match table with
  | [] => None
  | d :: table' =>
      match bind d path with
      | Some rt => Some (rt, d)
      | None => match_in table' path
      end
  end.

Definition match_path (path : string) : option (route * declaration) := match_in routeTable path.

(** ** Realms *)

Record RealmPGO := { pgo_Read : bool; pgo_Collect : bool; pgo_Configure : bool }.
Record Realm := {
  Namespaces : list string;
  Services : list string;
  Profiles : list string;
  PGO : RealmPGO
}.

Definition wildcard : string := "*".

Definition listAllows (l : list string) (value : string) : bool :=
  bool_decide (wildcard ∈ l) || bool_decide (value ∈ l).

Definition pgoAllows (p : RealmPGO) (kind : routeKind) (method : string) : bool :=
  match kind with
  | kindPGOPolicy => if String.eqb method MethodGet then pgo_Read p else pgo_Configure p
  | kindCollections => if String.eqb method MethodGet then pgo_Read p else pgo_Collect p
  | kindCollection | kindCollectionProfile | kindCollectionLatest | kindCollectionLatestProfile =>
      pgo_Read p
  | kindCollectionCancel => pgo_Collect p
  | kindTargets | kindProfile | kindNamespaces | kindServices | kindCatalog | kindWhoami | kindLimits
  | kindAuth | kindAuthLogin | kindAuthCallback | kindAuthLogout | kindOpenAPI | kindConsole => true
  end.

Definition realmAllows (r : Realm) (rt : route) (method : string) : bool :=
  if isListing (rt_kind rt)
  then negb (bool_decide (rt_kind rt = kindServices)) || listAllows (Namespaces r) (rt_namespace rt)
  else if negb (listAllows (Namespaces r) (rt_namespace rt)) || negb (listAllows (Services r) (rt_service rt))
  then false
  else if bool_decide (rt_kind rt = kindProfile) && negb (listAllows (Profiles r) (rt_profile rt)) then false
  else if isPGO (rt_kind rt) && negb (pgoAllows (PGO r) (rt_kind rt) method) then false
  else true.

(** [filterCatalog]. *)
Definition filterCatalog (realm : Realm) (refs : list (string * string)) : list (string * string) :=
  filter (fun ref => listAllows (Namespaces realm) ref.1 && listAllows (Services realm) ref.2 = true) refs.

(** ** What a path means *)

(** The segment a parameter of a route stands for. *)
Definition field_of (rt : route) (name : string) : string :=
  if String.eqb name paramNamespace then rt_namespace rt
  else if String.eqb name paramService then rt_service rt
  else if String.eqb name paramProfile then rt_profile rt
  else rt_collection rt.

(** The grammar of a parameter. *)
Definition segment_ok (name value : string) : bool :=
  negb (String.eqb value EmptyString) &&
  (if String.eqb name paramNamespace || String.eqb name paramService then IsDNS1123Label value
   else if String.eqb name paramID then ValidID value
   else true).

(** The template with a route's segments put in; [file] is the console's
    remainder. *)
Definition render_part (rt : route) (file part : string) : string :=
  match param_of part with
  | None => part
  | Some name => if String.eqb name paramFile then file else field_of rt name
  end.
Definition render (d : declaration) (rt : route) (file : string) : string :=
  join_with "/" (render_part rt file <$> split_at "/" (Template d)).

Definition params_of (d : declaration) : list string := omap param_of (split_at "/" (Template d)).

(** A route of a declaration: its own kind, each parameter in its grammar and
    without a separator (the remainder may hold some), every other field empty. *)
Definition route_of (d : declaration) (rt : route) (file : string) : Prop :=
  rt_kind rt = Kind d /\
  (forall name, name ∈ [paramNamespace; paramService; paramProfile; paramID] ->
     if decide (name ∈ params_of d)
     then segment_ok name (field_of rt name) = true /\ has_byte "/" (field_of rt name) = false
     else field_of rt name = EmptyString) /\
  (paramFile ∈ params_of d -> file <> EmptyString).

(** ** The matcher *)

Lemma split_at_nonempty (c : ascii) (s : string) : split_at c s <> [].
Proof. destruct s; simpl; [done|]. by repeat case_match. Qed.

Lemma split_at_parts (c : ascii) (s : string) : Forall (fun w => has_byte c w = false) (split_at c s).
Proof.
  induction s as [|d s IH]; simpl; [by repeat constructor|]. case_decide as Hd; [by constructor|].
  destruct (split_at c s) as [|w ws]; [by repeat constructor; simpl; rewrite decide_False|].
  apply Forall_cons in IH as [Hw Hws]. constructor; [|done]. simpl. by rewrite decide_False.
Qed.

(** A template is a list of literals and parameters; the segments it binds are
    the literals, and for each parameter a segment of its grammar. *)
Inductive binds : list string -> list string -> route -> route -> Prop :=
  | binds_nil rt : binds [] [] rt rt
  | binds_literal part template segments rt rt' :
      param_of part = None -> binds template segments rt rt' ->
      binds (part :: template) (part :: segments) rt rt'
  | binds_param part name template segment segments rt rt1 rt' :
      param_of part = Some name -> name <> paramFile -> capture rt name segment = Some rt1 ->
      binds template segments rt1 rt' ->
      binds (part :: template) (segment :: segments) rt rt'
  | binds_file part template segment segments rt rt' :
      param_of part = Some paramFile -> capture rt paramFile (join_with "/" (segment :: segments)) = Some rt' ->
      binds (part :: template) (segment :: segments) rt rt'.

Lemma bind_parts_iff (template segments : list string) (rt rt' : route) :
  bind_parts template segments rt = Some rt' <-> binds template segments rt rt'.
Proof.
  split.
  - revert segments rt. induction template as [|part template IH]; intros [|segment segments] rt; simpl;
      try done; [intros [= ->]; constructor|].
    destruct (param_of part) as [name|] eqn:Ep.
    + destruct (String.eqb_spec name paramFile) as [->|Hn]; [by eapply binds_file|].
      destruct (capture rt name segment) eqn:Ec; [|done]. intros H. eapply binds_param; eauto.
    + destruct (String.eqb_spec segment part) as [->|]; [|done]. intros H. by apply binds_literal; [|apply IH].
  - induction 1 as [rt|part template segments rt rt' Ep _ IH|part name template segment segments rt rt1 rt' Ep Hn Hc _ IH
      |part template segment segments rt rt' Ep Hc]; simpl; [done|..].
    + rewrite Ep. by rewrite String.eqb_refl.
    + rewrite Ep, (proj2 (String.eqb_neq _ _) Hn), Hc. done.
    + rewrite Ep. done.
Qed.

Definition stored_params : list string := [paramNamespace; paramService; paramProfile; paramID].

(** What [capture] stores. *)
Definition assign (rt : route) (name value : string) : route :=
  {| rt_kind := rt_kind rt;
     rt_namespace := if String.eqb name paramNamespace then value else rt_namespace rt;
     rt_service := if String.eqb name paramService then value else rt_service rt;
     rt_profile := if String.eqb name paramProfile then value else rt_profile rt;
     rt_collection := if String.eqb name paramID then value else rt_collection rt |}.

Lemma capture_eq (rt : route) (name value : string) :
  name ∈ paramFile :: stored_params ->
  capture rt name value = if segment_ok name value then Some (assign rt name value) else None.
Proof.
  intros Hn. unfold capture, segment_ok, assign. destruct rt as [k a b c e].
  destruct (String.eqb value EmptyString); [done|].
  repeat (apply elem_of_cons in Hn as [->|Hn]; [simpl; by try case_match|]).
  by apply elem_of_nil in Hn.
Qed.

Lemma capture_Some (rt rt' : route) (name value : string) :
  capture rt name value = Some rt' ->
  name ∈ paramFile :: stored_params /\ segment_ok name value = true /\ rt' = assign rt name value.
Proof.
  intros Hc. assert (name ∈ paramFile :: stored_params) as Hn.
  { unfold capture in Hc. unfold stored_params. destruct (String.eqb value EmptyString); [done|].
    destruct (String.eqb_spec name paramNamespace) as [->|_]; [by set_solver|].
    destruct (String.eqb_spec name paramService) as [->|_]; [by set_solver|].
    destruct (String.eqb_spec name paramProfile) as [->|_]; [by set_solver|].
    destruct (String.eqb_spec name paramID) as [->|_]; [by set_solver|].
    destruct (String.eqb_spec name paramFile) as [->|_]; [by set_solver|done]. }
  rewrite capture_eq in Hc by done. destruct (segment_ok name value); [|done]. by injection Hc as <-.
Qed.

Lemma field_of_assign (rt : route) (name value n : string) :
  n ∈ stored_params ->
  field_of (assign rt name value) n = if String.eqb name n then value else field_of rt n.
Proof.
  intros Hn. unfold field_of, assign. simpl.
  repeat (apply elem_of_cons in Hn as [->|Hn]; [simpl; by case_match|]). by apply elem_of_nil in Hn.
Qed.

(** Two routes with the same kind and fields are one. *)
Lemma route_ext (a b : route) :
  rt_kind a = rt_kind b -> (forall n, n ∈ stored_params -> field_of a n = field_of b n) -> a = b.
Proof.
  intros Hk Hf. pose proof (Hf paramNamespace ltac:(set_solver)) as H1.
  pose proof (Hf paramService ltac:(set_solver)) as H2.
  pose proof (Hf paramProfile ltac:(set_solver)) as H3.
  pose proof (Hf paramID ltac:(set_solver)) as H4.
  destruct a, b. unfold field_of in *. simpl in *. by subst.
Qed.

(** The remainder is the last part of a template, if any. *)
Fixpoint file_last (template : list string) : bool :=
  match template with
  | [] => true
  | part :: template' =>
      (negb (bool_decide (param_of part = Some paramFile)) || bool_decide (template' = []))
      && file_last template'
  end.

Lemma join_with_cons (c : ascii) (a : string) (l : list string) :
  l <> [] -> join_with c (a :: l) = a +:+ String c (join_with c l).
Proof. by destruct l. Qed.

(** What a binding says of the route, the segments and the template. *)
Record bound (template segments : list string) (rt0 rt : route) : Prop := {
  bd_kind : rt_kind rt = rt_kind rt0;
  bd_kept : forall n, n ∈ stored_params -> n ∉ omap param_of template -> field_of rt n = field_of rt0 n;
  bd_taken : forall n, n ∈ stored_params -> n ∈ omap param_of template ->
    segment_ok n (field_of rt n) = true /\ field_of rt n ∈ segments;
  bd_empty : segments = [] <-> template = [];
  bd_joined : exists file, (paramFile ∈ omap param_of template -> file <> EmptyString) /\
    join_with "/" segments = join_with "/" (render_part rt file <$> template)
}.

Lemma segment_ok_nonempty (name value : string) : segment_ok name value = true -> value <> EmptyString.
Proof. unfold segment_ok. by intros [?%negb_true_iff%String.eqb_neq _]%andb_true_iff. Qed.

(** One more part in front. *)
Lemma joined_cons (part segment : string) (template segments : list string) (rt : route) (file : string) :
  (segments = [] <-> template = []) -> render_part rt file part = segment ->
  join_with "/" segments = join_with "/" (render_part rt file <$> template) ->
  join_with "/" (segment :: segments) = join_with "/" (render_part rt file <$> part :: template).
Proof.
  intros He <- Hj. destruct template as [|p template].
  - by rewrite (proj2 He eq_refl).
  - rewrite join_with_cons by (by intros ?%He). by rewrite Hj.
Qed.

Lemma binds_bound (template segments : list string) (rt0 rt : route) :
  binds template segments rt0 rt -> NoDup (omap param_of template) -> file_last template = true ->
  bound template segments rt0 rt.
Proof.
  induction 1 as [rt|part template segments rt rt' Ep _ IH
    |part name template segment segments rt rt1 rt' Ep Hn Hc _ IH
    |part template segment segments rt rt' Ep Hc]; intros Hnd Hl; simpl in *.
  - split; simpl; try done; [by intros n _ ?%elem_of_nil|].
    exists EmptyString. split; [by intros ?%elem_of_nil|done].
  - rewrite Ep in Hnd. apply andb_true_iff in Hl as [_ Hl].
    destruct (IH Hnd Hl) as [H1 H2 H3 H4 (file & Hf & Hj)].
    split; simpl; rewrite ?Ep; try done.
    + intros n Hn Hin. destruct (H3 n Hn Hin). split; [done|by right].
    + exists file. split; [done|]. apply joined_cons; [done| |done]. unfold render_part. by rewrite Ep.
  - rewrite Ep in Hnd. apply NoDup_cons in Hnd as [Hnew Hnd]. apply andb_true_iff in Hl as [_ Hl].
    destruct (IH Hnd Hl) as [H1 H2 H3 H4 (file & Hf & Hj)].
    apply capture_Some in Hc as (Hin & Hok & ->).
    assert (name ∈ stored_params) as Hst by (by apply elem_of_cons in Hin as [?|?]).
    assert (field_of rt' name = segment) as Hseg.
    { rewrite (H2 name Hst Hnew), field_of_assign by done. by rewrite String.eqb_refl. }
    split; simpl; rewrite ?Ep; try done.
    + intros n Hn' Hni. apply not_elem_of_cons in Hni as [Hne Hni].
      rewrite (H2 n Hn' Hni), field_of_assign by done. by rewrite (proj2 (String.eqb_neq _ _)).
    + intros n Hn' [->|Hi]%elem_of_cons; [rewrite Hseg; split; [done|by left]|].
      destruct (H3 n Hn' Hi). split; [done|by right].
    + exists file. split; [intros [?|?]%elem_of_cons; [done|auto]|].
      apply joined_cons; [done| |done]. unfold render_part. rewrite Ep.
      by rewrite (proj2 (String.eqb_neq _ _) Hn).
  - apply capture_Some in Hc as (_ & Hok & ->). apply andb_true_iff in Hl as [Hl _].
    rewrite bool_decide_eq_true_2 in Hl by done. simpl in Hl. apply bool_decide_eq_true in Hl as ->.
    assert (forall n, n ∈ stored_params -> n <> paramFile) as Hne by (intros n; unfold stored_params; set_solver).
    split; simpl; rewrite ?Ep; try done.
    + intros n Hn [->|?%elem_of_nil]%elem_of_cons; [by destruct (Hne paramFile)|done].
    + exists (join_with "/" (segment :: segments)). split; [intros _; by eapply segment_ok_nonempty|].
      unfold render_part. by rewrite Ep.
Qed.

Lemma split_at_cons_app (c : ascii) (a b : string) :
  split_at c (a +:+ String c b) = split_at c a ++ split_at c b.
Proof.
  induction a as [|d a IH]; simpl; [by rewrite decide_True|]. case_decide; [by rewrite IH|].
  rewrite IH. pose proof (split_at_nonempty c a). by destruct (split_at c a).
Qed.

Lemma split_at_join (c : ascii) (l : list string) :
  l <> [] -> split_at c (join_with c l) = mjoin (split_at c <$> l).
Proof.
  induction l as [|a l IH]; [done|]. intros _. destruct l as [|b l].
  - simpl. by rewrite app_nil_r.
  - rewrite join_with_cons by done. rewrite split_at_cons_app, IH by done. done.
Qed.

(** The segments of a rendered path. *)
Definition segments_of (rt : route) (file : string) (template : list string) : list string :=
  mjoin (split_at "/" <$> (render_part rt file <$> template)).

Lemma render_binds (template : list string) (rt0 rt : route) (file : string) :
  Forall (fun part => has_byte "/" part = false) template -> file_last template = true ->
  NoDup (omap param_of template) -> omap param_of template ⊆ paramFile :: stored_params ->
  (paramFile ∈ omap param_of template -> file <> EmptyString) ->
  rt_kind rt = rt_kind rt0 ->
  (forall n, n ∈ stored_params -> n ∉ omap param_of template -> field_of rt n = field_of rt0 n) ->
  (forall n, n ∈ stored_params -> n ∈ omap param_of template ->
     segment_ok n (field_of rt n) = true /\ has_byte "/" (field_of rt n) = false) ->
  binds template (segments_of rt file template) rt0 rt.
Proof.
  unfold segments_of. revert rt0. induction template as [|part template IH];
    intros rt0 Hns Hl Hnd Hsub Hfile Hk Hkept Htaken.
  - replace rt0 with rt; [constructor|]. apply route_ext; [done|].
    intros n Hn. apply Hkept; [done|]. apply not_elem_of_nil.
  - apply Forall_cons in Hns as [Hpart Hns]. simpl in Hl. apply andb_true_iff in Hl as [Hlast Hl].
    simpl in *. unfold render_part at 1. destruct (param_of part) as [name|] eqn:Ep.
    2: { rewrite split_at_no_sep by done. simpl. apply binds_literal; [done|]. by apply IH. }
    apply NoDup_cons in Hnd as [Hnew Hnd].
    destruct (String.eqb_spec name paramFile) as [->|Hn].
    + rewrite bool_decide_eq_true_2 in Hlast by done. simpl in Hlast. apply bool_decide_eq_true in Hlast as ->.
      simpl. rewrite app_nil_r. pose proof (split_at_nonempty "/" file) as Hne.
      pose proof (join_split "/" file) as Hj. destruct (split_at "/" file) as [|w ws]; [done|].
      apply binds_file; [done|]. rewrite Hj, capture_eq by set_solver. unfold segment_ok.
      rewrite (proj2 (String.eqb_neq file _)) by (apply Hfile; set_solver). simpl. f_equal.
      symmetry. apply route_ext; [done|]. intros n Hn. rewrite field_of_assign by done.
      rewrite (proj2 (String.eqb_neq _ _)) by (unfold stored_params in Hn; set_solver).
      apply Hkept; [done|]. unfold stored_params in Hn. set_solver.
    + assert (name ∈ stored_params) as Hst
        by (destruct (proj1 (elem_of_cons _ _ _) (Hsub name ltac:(left))); done).
      destruct (Htaken name Hst ltac:(left)) as [Hok Hnos].
      rewrite split_at_no_sep by done. simpl.
      eapply binds_param; [done|done|by rewrite capture_eq, Hok by set_solver|].
      apply IH; [done..| | |done| |].
      * intros n Hin. apply Hsub. by right.
      * intros Hin. apply Hfile. by right.
      * intros n Hin Hni. rewrite field_of_assign by done.
        destruct (String.eqb_spec name n) as [->|Hne]; [done|]. apply Hkept; [done|].
        by intros [->|?]%elem_of_cons.
      * intros n Hin Hnt. apply Htaken; [done|by right].
Qed.

(** ** No path is two routes *)

(** Two templates no list of segments binds both of. *)
Fixpoint clash (t1 t2 : list string) : bool :=
  match t1, t2 with
  | [], [] => false
  | [], _ :: _ | _ :: _, [] => true
  | p1 :: t1', p2 :: t2' =>
      match param_of p1, param_of p2 with
      | None, None => negb (String.eqb p1 p2) || clash t1' t2'
      | Some n, None =>
          if String.eqb n paramFile then String.eqb p2 EmptyString && bool_decide (t2' = [])
          else String.eqb p2 EmptyString || clash t1' t2'
      | None, Some n =>
          if String.eqb n paramFile then String.eqb p1 EmptyString && bool_decide (t1' = [])
          else String.eqb p1 EmptyString || clash t1' t2'
      | Some n1, Some n2 =>
          if String.eqb n1 paramFile || String.eqb n2 paramFile then false else clash t1' t2'
      end
  end.

Lemma capture_empty (rt : route) (name : string) : capture rt name EmptyString = None.
Proof. done. Qed.

Lemma binds_nil_inv (template : list string) (a b : route) : binds template [] a b -> template = [].
Proof. by inversion 1. Qed.

Lemma clash_sound (t1 t2 segments : list string) (a a' b b' : route) :
  clash t1 t2 = true -> binds t1 segments a a' -> binds t2 segments b b' -> False.
Proof.
  intros Hc H1. revert t2 b b' Hc.
  induction H1 as [rt|part template segments rt rt' Ep H1 IH
    |part name template segment segments rt rt1 rt' Ep Hn Hcap H1 IH
    |part template segment segments rt rt' Ep Hcap]; intros t2 b b' Hc H2.
  - apply binds_nil_inv in H2 as ->. done.
  - inversion H2 as [|? ? ? ? ? Ep2 H2'|? name2 ? ? ? ? ? ? Ep2 Hn2 Hc2 H2'|? ? ? ? ? ? Ep2 Hc2]; subst;
      simpl in Hc; rewrite ?Ep, ?Ep2 in Hc.
    + rewrite String.eqb_refl in Hc. simpl in Hc. by eapply IH.
    + rewrite (proj2 (String.eqb_neq _ _) Hn2) in Hc.
      destruct (String.eqb_spec part EmptyString) as [->|]; [done|]. by eapply IH.
    + rewrite String.eqb_refl in Hc. apply andb_true_iff in Hc as [->%String.eqb_eq ->%bool_decide_eq_true].
      inversion H1; subst. done.
  - inversion H2 as [|? ? ? ? ? Ep2 H2'|? name2 ? ? ? ? ? ? Ep2 Hn2 Hc2 H2'|? ? ? ? ? ? Ep2 Hc2]; subst;
      simpl in Hc; rewrite ?Ep, ?Ep2 in Hc; rewrite ?(proj2 (String.eqb_neq _ _) Hn) in Hc.
    + destruct (String.eqb_spec segment EmptyString) as [->|]; [done|]. by eapply IH.
    + rewrite (proj2 (String.eqb_neq _ _) Hn2) in Hc. simpl in Hc.
      by eapply IH.
    + done.
  - inversion H2 as [|? ? ? ? ? Ep2 H2'|? name2 ? ? ? ? ? ? Ep2 Hn2 Hc2 H2'|? ? ? ? ? ? Ep2 Hc2]; subst;
      simpl in Hc; rewrite ?Ep, ?Ep2 in Hc; simpl in Hc; try done.
    apply andb_true_iff in Hc as [->%String.eqb_eq ->%bool_decide_eq_true].
    inversion H2'; subst. done.
Qed.

Definition template_parts (d : declaration) : list string := split_at "/" (Template d).

(** The table, checked: distinct declarations clash, the parameters of each are
    distinct and known, and a remainder comes last. *)
Lemma table_clash : Forall (fun d => Forall (fun d' =>
  d = d' \/ clash (template_parts d) (template_parts d') = true) routeTable) routeTable.
Proof.
  assert (forallb (fun d => forallb (fun d' => bool_decide (d = d') || clash (template_parts d) (template_parts d'))
    routeTable) routeTable = true) as H by (vm_compute; reflexivity).
  apply Forall_forall. intros d Hd. apply Forall_forall. intros d' Hd'.
  rewrite forallb_forall in H. specialize (H d ltac:(by apply list_elem_of_In)). cbv beta in H.
  rewrite forallb_forall in H. specialize (H d' ltac:(by apply list_elem_of_In)).
  apply orb_true_iff in H as [?%bool_decide_eq_true|?]; auto.
Qed.

Lemma table_templates : Forall (fun d => NoDup (params_of d) /\ params_of d ⊆ paramFile :: stored_params /\
  file_last (template_parts d) = true) routeTable.
Proof.
  assert (forallb (fun d => bool_decide (NoDup (params_of d)) &&
    forallb (fun n => bool_decide (n ∈ paramFile :: stored_params)) (params_of d) &&
    file_last (template_parts d)) routeTable = true) as H by (vm_compute; reflexivity).
  apply Forall_forall. intros d Hd. rewrite forallb_forall in H.
  specialize (H d ltac:(by apply list_elem_of_In)).
  apply andb_true_iff in H as [[H1%bool_decide_eq_true H2]%andb_true_iff H3]. split; [done|]. split; [|done].
  intros n Hn. rewrite forallb_forall in H2. eapply bool_decide_eq_true. apply H2. by apply list_elem_of_In.
Qed.

Lemma match_in_Some (table : list declaration) (path : string) (rt : route) (d : declaration) :
  match_in table path = Some (rt, d) -> d ∈ table /\ bind d path = Some rt.
Proof.
  induction table as [|d' table IH]; [done|]. simpl. destruct (bind d' path) eqn:Eb.
  - intros [= <- <-]. split; [by left|done].
  - intros H. destruct (IH H). split; [by right|done].
Qed.

Lemma match_in_unique (table : list declaration) (path : string) (rt : route) (d : declaration) :
  (forall d', d' ∈ table -> d' = d \/ clash (template_parts d') (template_parts d) = true) ->
  d ∈ table -> bind d path = Some rt -> match_in table path = Some (rt, d).
Proof.
  intros Hc Hin Hb. induction table as [|d' table IH]; [by apply elem_of_nil in Hin|]. simpl.
  destruct (bind d' path) as [rt'|] eqn:Eb.
  - destruct (Hc d' ltac:(by left)) as [->|Hcl]; [congruence|]. exfalso.
    apply bind_parts_iff in Eb, Hb. by eapply clash_sound.
  - apply IH; [intros; apply Hc; by right|]. apply elem_of_cons in Hin as [->|?]; [congruence|done].
Qed.

(** C34: the router means exactly the route table.  A path resolves to a
    declaration and the segments it captured if and only if it is that
    declaration's template with those segments in place, each of its
    parameter's grammar; so every path has at most one meaning, whatever the
    order of the table, and no captured segment holds a separator. *)
Theorem match_path_iff (path : string) (rt : route) (d : declaration) :
  match_path path = Some (rt, d) <->
  d ∈ routeTable /\ exists file, route_of d rt file /\ path = render d rt file.
Proof.
  unfold match_path. split.
  - intros Hm. apply match_in_Some in Hm as [Hd Hb]. split; [done|].
    pose proof (proj1 (Forall_forall _ _) table_templates d Hd) as (Hnd & _ & Hl).
    apply bind_parts_iff, binds_bound in Hb as [H1 H2 H3 H4 (file & Hf & Hj)]; [|done|done].
    exists file. rewrite join_split in Hj. split; [|exact Hj]. split; [done|]. split; [|done].
    intros n Hn. destruct (decide (n ∈ params_of d)) as [Hin|Hni].
    + destruct (H3 n Hn Hin) as [Hok Hseg]. split; [done|].
      pose proof (split_at_parts "/" path) as Hp. rewrite Forall_forall in Hp. by apply Hp.
    + rewrite (H2 n Hn Hni). unfold field_of. simpl. by repeat case_match.
  - intros (Hd & file & (Hk & Hf & Hfile) & ->).
    pose proof (proj1 (Forall_forall _ _) table_templates d Hd) as (Hnd & Hsub & Hl).
    apply match_in_unique; [|done|].
    + intros d' Hd'. pose proof (proj1 (Forall_forall _ _) table_clash d' Hd') as Hc.
      rewrite Forall_forall in Hc. by apply Hc.
    + apply bind_parts_iff. unfold render. rewrite split_at_join.
      2: { intros He%fmap_nil_inv. by apply (split_at_nonempty "/" (Template d)). }
      apply render_binds; try done.
      * apply split_at_parts.
      * intros n Hn Hni. specialize (Hf n Hn). rewrite decide_False in Hf by done. rewrite Hf.
        unfold field_of. simpl. by repeat case_match.
      * intros n Hn Hin. specialize (Hf n Hn). by rewrite decide_True in Hf by done.
Qed.
End routes.

(** ** What a realm admits *)

(** The route of one Service-scoped kind, as the matcher fills it. *)
Definition service_route (k : routeKind) (ns svc : string) : route :=
  {| rt_kind := k; rt_namespace := ns; rt_service := svc; rt_profile := EmptyString;
     rt_collection := EmptyString |}.

Lemma listAllows_iff (l : list string) (v : string) :
  listAllows l v = true <-> wildcard ∈ l \/ v ∈ l.
Proof. unfold listAllows. by rewrite orb_true_iff, !bool_decide_eq_true. Qed.

(** A caller sees what it can reach and reaches what it sees.  The catalog a
    realm filters shows a Service exactly when the cache holds it and the realm
    admits its targets route; a realm that denies a Service's namespace or name
    admits no route naming it, profile, policy or Collection, whatever the
    method; and a PGO route past the lists is admitted by the one flag its
    method needs. *)
Theorem realm_consistent (realm : Realm) (refs : list (string * string)) (ns svc : string) :
  ((ns, svc) ∈ filterCatalog realm refs <->
   (ns, svc) ∈ refs /\ realmAllows realm (service_route kindTargets ns svc) MethodGet = true) /\
  (realmAllows realm (service_route kindTargets ns svc) MethodGet = false ->
   forall rt method, rt_namespace rt = ns -> rt_service rt = svc -> isListing (rt_kind rt) = false ->
     realmAllows realm rt method = false) /\
  (realmAllows realm (service_route kindTargets ns svc) MethodGet = true ->
   forall k method, isPGO k = true ->
     realmAllows realm (service_route k ns svc) method = pgoAllows (PGO realm) k method).
Proof.
  assert (forall rt method, isListing (rt_kind rt) = false ->
    realmAllows realm rt method =
    listAllows (Namespaces realm) (rt_namespace rt) && listAllows (Services realm) (rt_service rt)
    && (negb (bool_decide (rt_kind rt = kindProfile)) || listAllows (Profiles realm) (rt_profile rt))
    && (negb (isPGO (rt_kind rt)) || pgoAllows (PGO realm) (rt_kind rt) method)) as Heq.
  { intros rt method Hl. unfold realmAllows. rewrite Hl.
    destruct (listAllows (Namespaces realm) (rt_namespace rt)), (listAllows (Services realm) (rt_service rt)),
      (bool_decide (rt_kind rt = kindProfile)), (listAllows (Profiles realm) (rt_profile rt)),
      (isPGO (rt_kind rt)), (pgoAllows (PGO realm) (rt_kind rt) method); done. }
  pose proof (Heq (service_route kindTargets ns svc) MethodGet eq_refl) as Ht. simpl in Ht.
  rewrite !andb_true_r in Ht. split; [|split].
  - unfold filterCatalog. rewrite list_elem_of_filter, Ht. simpl. tauto.
  - intros Hno rt method <- <- Hl. rewrite (Heq rt method Hl). rewrite Ht in Hno.
    apply andb_false_iff in Hno as [->| ->]; [done|]. by rewrite andb_false_r.
  - intros Hyes k method Hk. rewrite Heq by (by destruct k). simpl.
    rewrite <-Ht, Hyes, Hk. destruct k; done.
Qed.

(** ** The admission gate *)

(** [Gate]: the channel's capacity and how many slots it holds, and for each
    acquisition whether its [sync.Once] has run. *)
Record Gate := { capacity : nat; slots : nat; onces : gmap nat bool }.

Definition New (n : nat) : Gate := {| capacity := n; slots := 0; onces := ∅ |}.

(** [TryAcquire]; a release func is the number of its acquisition. *)
Definition TryAcquire (g : Gate) : option nat * Gate :=
  if (slots g <? capacity g)%nat
  then let id := size (onces g) in
       (Some id, {| capacity := capacity g; slots := S (slots g); onces := <[id := false]> (onces g) |})
  else (None, g).

(** The func [releaser] returns. *)
Definition release (id : nat) (g : Gate) : Gate :=
  match onces g !! id with
  | Some false => {| capacity := capacity g; slots := slots g - 1; onces := <[id := true]> (onces g) |}
  | _ => g
  end.

Inductive gate_event := Acquire | Release (id : nat).

Definition gate_step (g : Gate) (e : gate_event) : Gate :=
  match e with Acquire => (TryAcquire g).2 | Release id => release id g end.

(** The acquisitions whose release has not run. *)
Definition holders (g : Gate) : gmap nat bool := filter (fun x => x.2 = false) (onces g).

Definition gate_ok (n : nat) (g : Gate) : Prop :=
  capacity g = n /\ slots g = size (holders g) /\ (slots g <= n)%nat /\
  forall id, is_Some (onces g !! id) <-> (id < size (onces g))%nat.

Lemma gate_step_ok (n : nat) (g : Gate) (e : gate_event) : gate_ok n g -> gate_ok n (gate_step g e).
Proof.
  intros (Hc & Hs & Hn & Hids). destruct e as [|id]; simpl.
  - unfold TryAcquire. destruct (Nat.ltb_spec (slots g) (capacity g)) as [Hlt|]; [|done]. simpl.
    assert (onces g !! size (onces g) = None) as Hfresh.
    { apply eq_None_not_Some. rewrite Hids. lia. }
    repeat split; simpl; [done| |lia|..].
    + unfold holders. simpl. rewrite map_filter_insert_True, map_size_insert_None; [by rewrite Hs| |done].
      by apply map_lookup_filter_None_2; left.
    + rewrite map_size_insert_None by done. intros Hid. destruct (decide (id = size (onces g))) as [->|Hne]; [lia|].
      rewrite lookup_insert_ne in Hid by done. apply Hids in Hid. lia.
    + rewrite map_size_insert_None by done. intros Hid.
      destruct (decide (id = size (onces g))) as [->|Hne]; [rewrite lookup_insert_eq; by eexists|].
      rewrite lookup_insert_ne by done. apply Hids. lia.
  - unfold release. destruct (onces g !! id) as [[|]|] eqn:Eo; [done| |done].
    assert (holders g !! id = Some false) as Hh by (by apply map_lookup_filter_Some_2).
    assert (holders {| capacity := capacity g; slots := slots g - 1; onces := <[id:=true]> (onces g) |}
            = delete id (holders g)) as Hd.
    { unfold holders. simpl. by rewrite map_filter_insert_False, map_filter_delete by done. }
    repeat split; simpl; [done| |lia|..].
    + rewrite Hd, map_size_delete_Some by (by eexists). lia.
    + intros Hid. rewrite map_size_insert_Some by (by eexists). apply Hids.
      destruct (decide (id0 = id)) as [->|]; [by eexists|by rewrite lookup_insert_ne in Hid].
    + rewrite map_size_insert_Some by (by eexists). intros Hid%Hids.
      destruct (decide (id0 = id)) as [->|]; [rewrite lookup_insert_eq; by eexists|by rewrite lookup_insert_ne].
Qed.

Lemma gate_reachable_ok (n : nat) (l : list gate_event) : gate_ok n (foldl gate_step (New n) l).
Proof.
  assert (gate_ok n (New n)) as H0.
  { split; [done|]. split; [done|]. split; [simpl; lia|]. intros id. simpl.
    rewrite lookup_empty, map_size_empty. split; [by intros []|lia]. }
  revert H0. generalize (New n). induction l as [|e l IH]; intros g H0; [done|].
  by apply IH, gate_step_ok.
Qed.

(** The admission gate bounds how many profiles run at once.  Whatever the
    order in which requests take slots and give them back, and however often a
    holder calls its release, the slots taken are exactly the acquisitions not
    yet released and never more than the capacity; a request is refused only
    when that many are held, and a second release gives back nothing another
    holder owns. *)
Theorem gate_bounds (n : nat) (l : list gate_event) (id : nat) :
  let g := foldl gate_step (New n) l in
  slots g = size (holders g) /\ (slots g <= n)%nat /\
  ((TryAcquire g).1 = None <-> slots g = n) /\
  (holders g !! id = None -> release id g = g) /\
  (is_Some (holders g !! id) -> slots (release id g) = (slots g - 1)%nat /\
     holders (release id g) = delete id (holders g)).
Proof.
  intros g. destruct (gate_reachable_ok n l) as (Hc & Hs & Hn & _). fold g in Hc, Hs, Hn.
  split; [done|]. split; [done|]. split; [|split].
  - unfold TryAcquire. rewrite Hc. destruct (Nat.ltb_spec (slots g) n); simpl; split; try done; lia.
  - intros Hno. unfold release. destruct (onces g !! id) as [[|]|] eqn:Eo; [done| |done].
    assert (holders g !! id = Some false) as Hh by (by apply map_lookup_filter_Some_2). congruence.
  - intros [b Hb]. apply map_lookup_filter_Some in Hb as [Ho Hf]. simpl in Hf. subst b.
    unfold release. rewrite Ho. simpl. split; [done|]. unfold holders. simpl.
    by rewrite map_filter_insert_False, map_filter_delete by done.
Qed.
