(* ===== verification/Query.v ===== *)
(** * Query parameters and target selection

    The reading of a query string (what the code uses of net/url), the
    parameter grammars of src/internal/httpapi/profile.go and server.go, the
    port allowlist of src/internal/config/config.go, and the choice of a target.
    [IsDNS1123Subdomain] and [IsValidPortName] of k8s.io/apimachinery are
    arguments. *)

From S2P Require Import Prelude Effects Config Discovery Routes.

(** ** Query strings *)

(** [url.QueryUnescape]: a plus is a space, [%xy] a byte; [None] for a malformed
    escape. *)
Fixpoint QueryUnescape (s : string) : option string :=
  match s with
  | EmptyString => Some EmptyString
  | String c s' =>
      if Ascii.eqb c "%" then
        match s' with
        | String h (String l rest) =>
            match hex_value h, hex_value l with
            | Some a, Some b => String (ascii_of_nat (16 * a + b)) <$> QueryUnescape rest
            | _, _ => None
            end
        | _ => None
        end
      else String (if Ascii.eqb c "+" then " "%char else c) <$> QueryUnescape s'
  end.

(** [strings.Cut] with what it returns when the separator is absent. *)
Definition cut_pair (c : ascii) (s : string) : string * string :=
  match cut c s with Some p => p | None => (s, EmptyString) end.

(** [url.Values]. *)
Abbreviation Values := (gmap string (list string)).

(** One pair of [url.ParseQuery]; the flag is that its error is set. *)
Definition parse_pair (st : Values * bool) (pair : string) : Values * bool :=
  let '(m, bad) := st in
  if has_byte ";" pair then (m, true)
  else if String.eqb pair EmptyString then (m, bad)
  else
    let '(key, value) := cut_pair "=" pair in
    match QueryUnescape key with
    | None => (m, true)
    | Some k =>
        match QueryUnescape value with
        | None => (m, true)
        | Some v => (<[k := default [] (m !! k) ++ [v]]> m, bad)
        end
    end.

(** [url.ParseQuery]: [None] when it returns an error. *)
Definition ParseQuery (rawQuery : string) : option Values :=
  let '(m, bad) := foldl parse_pair (∅, false) (split_at "&" rawQuery) in
  if bad : bool then None else Some m.

(** [slices.Sorted(maps.Keys(values))]. *)
Definition sorted_names (values : Values) : list string :=
  merge_sort String.le (elements (dom values)).

(** [strings.FieldsFunc] on [&] and [;], the empty fields left out. *)
Definition fields_on (s : string) : list string :=
  filter (fun w => w <> EmptyString) (mjoin (split_at ";" <$> split_at "&" s)).

Definition accessTokenParam : string := "access_token".

(** [hasAccessToken]. *)
Definition hasAccessToken (rawQuery : string) : bool :=
  existsb (fun pair =>
    let key := (cut_pair "=" pair).1 in
    String.eqb (default key (QueryUnescape key)) accessTokenParam) (fields_on rawQuery).

(** ** Refusals

    [requestError] as the parameters produce it: the code and the details. *)

Inductive detail :=
  | unknown_parameter | repeated_parameter | empty_parameter | malformed_parameter
  | parameter_not_applicable | mutually_exclusive | not_admitted.

Record paramError := { pe_code : string; pe_details : list (detail * string) }.

Definition invalidParameter (items : list (detail * string)) : paramError :=
  {| pe_code := "invalid_parameter"; pe_details := items |}.

Definition malformedParameter (name : string) : paramError := invalidParameter [(malformed_parameter, name)].
Definition unknownParameter (name : string) : paramError := invalidParameter [(unknown_parameter, name)].
Definition exclusiveSelection : paramError :=
  invalidParameter [(mutually_exclusive, "port"%string); (mutually_exclusive, "portName"%string)].

(** [singleValue]: the one value, or why there is none. *)
Definition singleValue (name : string) (values : list string) : string + paramError :=
  match values with
  | [v] => if String.eqb v EmptyString then inr (invalidParameter [(empty_parameter, name)]) else inl v
  | [] => inr (invalidParameter [(empty_parameter, name)])
  | _ => inr (invalidParameter [(repeated_parameter, name)])
  end.

(** [noParameters], of a route that takes none and got a query string. *)
Definition noParameters (rawQuery : string) : paramError :=
  match ParseQuery rawQuery with
  | None => malformedParameter EmptyString
  | Some values =>
      match sorted_names values with
      | [] => malformedParameter EmptyString
      | name :: _ => unknownParameter name
      end
  end.

(** ** Numbers *)

Definition maxSeconds : Z := 86400.
Definition maxPort : Z := 65535.

Definition parse_bounded (top : Z) (s : string) : option Z :=
  if negb (all_bytes is_digit s) then None
  else match atoi s with
       | None => None
       | Some n => if (n <? 1) || (top <? n) then None else Some n
       end.
Definition parseSeconds (s : string) : option Z := parse_bounded maxSeconds s.
Definition parsePort (s : string) : option Z := parse_bounded maxPort s.

(** ** The port selection *)

Inductive selectionKind := SelectionPort | SelectionPortName.
#[export] Instance selectionKind_eq_dec : EqDecision selectionKind.
Proof. solve_decision. Defined.

Record Selection := { sel_Kind : selectionKind; sel_Value : string }.
Record PprofConfig := {
  pp_Port : Z;
  pp_PortName : string;
  pp_AllowedSelections : list Selection
}.

Definition AnySelection : string := "*".

Definition admits_selection (k : selectionKind) (v : string) (l : list Selection) : bool :=
  existsb (fun s => bool_decide (sel_Kind s = k)
    && (String.eqb (sel_Value s) AnySelection || String.eqb (sel_Value s) v)) l.

Definition AllowsPort (p : PprofConfig) (n : Z) : bool :=
  if negb (pp_Port p =? 0) && (n =? pp_Port p) then true
  else admits_selection SelectionPort (pretty n) (pp_AllowedSelections p).

Definition AllowsPortName (p : PprofConfig) (name : string) : bool :=
  if negb (String.eqb (pp_PortName p) EmptyString) && String.eqb name (pp_PortName p) then true
  else admits_selection SelectionPortName name (pp_AllowedSelections p).

(** [portParams]. *)
Record portParams := { pp_sel : PortSelection; pp_sent : string }.
Definition no_selection : PortSelection := {| ps_Port := 0; ps_PortName := EmptyString |}.
Definition no_port : portParams := {| pp_sel := no_selection; pp_sent := EmptyString |}.

(** [allowPort]. *)
Definition allowPort (pprof : PprofConfig) (port : portParams) : option paramError :=
  let sel := pp_sel port in
  if negb (ps_Port sel =? 0) && negb (AllowsPort pprof (ps_Port sel))
  then Some {| pe_code := "port_not_allowed"; pe_details := [(not_admitted, "port"%string)] |}
  else if negb (String.eqb (ps_PortName sel) EmptyString) && negb (AllowsPortName pprof (ps_PortName sel))
  then Some {| pe_code := "port_not_allowed"; pe_details := [(not_admitted, "portName"%string)] |}
  else None.

Section params.
  Variables IsDNS1123Subdomain IsValidPortName : string -> bool.

(** The value of one of the two port parameters, empty when absent. *)
Definition port_value (name : string) (values : Values) : string + paramError :=
  match values !! name with
  | None => inl EmptyString
  | Some vs => singleValue name vs
  end.

(** [parsePortParams]: the selection, and the values without its parameters. *)
Definition parsePortParams (values : Values) : (portParams * Values) + paramError :=
  match port_value "port" values with
  | inr e => inr e
  | inl port =>
      match port_value "portName" (delete "port"%string values) with
      | inr e => inr e
      | inl name =>
          let rest := delete "portName"%string (delete "port"%string values) in
          if negb (String.eqb port EmptyString) && negb (String.eqb name EmptyString) then inr exclusiveSelection
          else if negb (String.eqb port EmptyString) then
            match parsePort port with
            | None => inr (malformedParameter "port")
            | Some n =>
                inl ({| pp_sel := {| ps_Port := n; ps_PortName := EmptyString |}; pp_sent := port |}, rest)
            end
          else if negb (String.eqb name EmptyString) then
            if IsValidPortName name
            then inl ({| pp_sel := {| ps_Port := 0; ps_PortName := name |}; pp_sent := name |}, rest)
            else inr (malformedParameter "portName")
          else inl (no_port, rest)
      end
  end.

(** ** The profile route *)

Record profileSpec := { sp_name : string; sp_path : string; sp_takesSeconds : bool; sp_default : Z }.

Definition timed (name path : string) (d : Z) : profileSpec :=
  {| sp_name := name; sp_path := path; sp_takesSeconds := true; sp_default := d |}.
Definition snapshot_spec (name path : string) : profileSpec :=
  {| sp_name := name; sp_path := path; sp_takesSeconds := false; sp_default := 0 |}.

Definition profileSpecs : list profileSpec :=
  [timed "cpu" "/debug/pprof/profile" 30; timed "trace" "/debug/pprof/trace" 1;
   snapshot_spec "heap" "/debug/pprof/heap"; snapshot_spec "allocs" "/debug/pprof/allocs";
   snapshot_spec "goroutine" "/debug/pprof/goroutine"; snapshot_spec "mutex" "/debug/pprof/mutex";
   snapshot_spec "block" "/debug/pprof/block"; snapshot_spec "threadcreate" "/debug/pprof/threadcreate"].

Definition lookupProfile (name : string) : option profileSpec :=
  List.find (fun spec => String.eqb (sp_name spec) name) profileSpecs.

(** [LimitsConfig], the two durations. *)
Record LimitsConfig := { CPUSeconds : Z; TraceSeconds : Z }.

Record profileParams := {
  pr_seconds : Z;
  pr_pod : string;
  pr_version : string;
  pr_port : portParams
}.

(** One parameter of [parseProfileParams]' loop, read into the seconds asked
    for and the filters. *)
Definition profile_param (spec : profileSpec) (values : Values) (st : Z * profileParams) (name : string) :
    (Z * profileParams) + paramError :=
  let '(seconds, p) := st in
  match singleValue name (default [] (values !! name)) with
  | inr e => inr e
  | inl value =>
      if String.eqb name "seconds" then
        if negb (sp_takesSeconds spec)
        then inr (invalidParameter [(parameter_not_applicable, "seconds"%string)])
        else match parseSeconds value with
             | None => inr (malformedParameter "seconds")
             | Some n => inl (n, p)
             end
      else if String.eqb name "pod" then
        if IsDNS1123Subdomain value
        then inl (seconds, {| pr_seconds := pr_seconds p; pr_pod := value; pr_version := pr_version p;
                              pr_port := pr_port p |})
        else inr (malformedParameter "pod")
      else if String.eqb name "version" then
        inl (seconds, {| pr_seconds := pr_seconds p; pr_pod := pr_pod p; pr_version := value;
                         pr_port := pr_port p |})
      else if String.eqb name "strategy" then
        if String.eqb value "random" then inl st else inr (malformedParameter "strategy")
      else inr (unknownParameter name)
  end.

(** A loop that stops at the first error. *)
Fixpoint fold_params {A} (step : A -> string -> A + paramError) (names : list string) (st : A) :
    A + paramError :=
  match names with
  | [] => inl st
  | name :: names' =>
      match step st name with
      | inr e => inr e
      | inl st' => fold_params step names' st'
      end
  end.

(** The configured ceiling on the duration of a profile. *)
Definition duration_limit (spec : profileSpec) (limits : LimitsConfig) : Z :=
  if String.eqb (sp_name spec) "trace" then TraceSeconds limits else CPUSeconds limits.

(** [parseProfileParams]. *)
Definition parseProfileParams (values : Values) (spec : profileSpec) (limits : LimitsConfig) :
    profileParams + paramError :=
  match parsePortParams values with
  | inr e => inr e
  | inl (port, rest) =>
      let p0 := {| pr_seconds := 0; pr_pod := EmptyString; pr_version := EmptyString; pr_port := port |} in
      match fold_params (profile_param spec rest) (sorted_names rest) (0, p0) with
      | inr e => inr e
      | inl (seconds, p) =>
          if negb (sp_takesSeconds spec) then inl p
          else
            let effective := if 0 <? seconds then seconds else sp_default spec in
            if duration_limit spec limits <? effective
            then inr {| pe_code := "seconds_exceeds_limit"; pe_details := [] |}
            else inl {| pr_seconds := effective; pr_pod := pr_pod p; pr_version := pr_version p;
                        pr_port := pr_port p |}
      end
  end.

(** ** The targets route *)

Record targetsParams := {
  tp_port : portParams;
  tp_version : string;
  tp_pod : string;
  tp_explain : bool
}.

(** One parameter of [parseTargetsParams]' loop; the state is the parameters,
    and the values of [port] and [portName]. *)
Definition targets_param (values : Values) (st : targetsParams * string * string) (name : string) :
    (targetsParams * string * string) + paramError :=
  let '(p, port, portName) := st in
  match singleValue name (default [] (values !! name)) with
  | inr e => inr e
  | inl value =>
      if String.eqb name "explain" then
        if String.eqb value "true"
        then inl ({| tp_port := tp_port p; tp_version := tp_version p; tp_pod := tp_pod p;
                     tp_explain := true |}, port, portName)
        else if String.eqb value "false" then inl st else inr (malformedParameter "explain")
      else if String.eqb name "pod" then
        if IsDNS1123Subdomain value
        then inl ({| tp_port := tp_port p; tp_version := tp_version p; tp_pod := value;
                     tp_explain := tp_explain p |}, port, portName)
        else inr (malformedParameter "pod")
      else if String.eqb name "port" then
        match parsePort value with
        | None => inr (malformedParameter "port")
        | Some _ => inl (p, value, portName)
        end
      else if String.eqb name "portName" then
        if IsValidPortName value then inl (p, port, value) else inr (malformedParameter "portName")
      else if String.eqb name "version" then
        inl ({| tp_port := tp_port p; tp_version := value; tp_pod := tp_pod p; tp_explain := tp_explain p |},
             port, portName)
      else inr (unknownParameter name)
  end.

(** [targetsPortSelection]. *)
Definition targetsPortSelection (values : Values) : portParams :=
  match parsePortParams (filter (fun x => x.1 = "port"%string \/ x.1 = "portName"%string) values) with
  | inl (port, _) => port
  | inr _ => no_port
  end.

(** [parseTargetsParams]: the selection is returned beside any error, for the
    audit record. *)
Definition parseTargetsParams (values : Values) : portParams * (targetsParams + paramError) :=
  let sel := targetsPortSelection values in
  let p0 := {| tp_port := sel; tp_version := EmptyString; tp_pod := EmptyString; tp_explain := false |} in
  (sel,
   match fold_params (targets_param values) (sorted_names values) (p0, EmptyString, EmptyString) with
   | inr e => inr e
   | inl (p, port, portName) =>
       if negb (String.eqb port EmptyString) && negb (String.eqb portName EmptyString)
       then inr exclusiveSelection else inl p
   end).
End params.

(** ** Filters and the choice of a target *)

Inductive selectError := PodNotFound | NoTargets.

(** [selectTarget]; [choose] is [IntN]. *)
Definition selectTarget (targets : list Target) (params : profileParams) (choose : nat -> nat) :
    Target + selectError :=
  let remaining :=
    if String.eqb (pr_version params) EmptyString then targets
    else filter (fun t => tg_Version t = pr_version params) targets in
  if negb (String.eqb (pr_pod params) EmptyString) then
    match List.find (fun t => String.eqb (tg_Pod t) (pr_pod params)) remaining with
    | Some t => inl t
    | None => inr PodNotFound
    end
  else
    match remaining with
    | [] => inr NoTargets
    | t :: _ => inl (nth (choose (length remaining)) remaining t)
    end.

(** [filterTargets], and how many each filter dropped. *)
Definition filterTargets (targets : list Target) (params : targetsParams) : list Target * (nat * nat) :=
  let kept :=
    if String.eqb (tp_version params) EmptyString then targets
    else filter (fun t => tg_Version t = tp_version params) targets in
  let final :=
    if String.eqb (tp_pod params) EmptyString then kept
    else filter (fun t => tg_Pod t = tp_pod params) kept in
  (final, ((length targets - length kept)%nat, (length kept - length final)%nat)).

(** [mergeExclusions], of the seam's counts and the two filters'. *)
Definition count_of (counts : list (exclusion * nat)) (r : exclusion) : nat :=
  sum_list (filter (fun x => x.1 = r) counts).*2.
Definition mergeExclusions (seam : list (exclusion * nat)) (dropped : nat * nat) : list (exclusion * nat) :=
  let counts := seam ++ [(VersionMismatch, dropped.1); (PodNameMismatch, dropped.2)] in
  omap (fun r => let n := count_of counts r in if (0 <? n)%nat then Some (r, n) else None) exclusionReasons.

(** ** The token in the URL *)

Lemma parse_pair_keys (m m' : Values) (bad bad' : bool) (pair k : string) :
  parse_pair (m, bad) pair = (m', bad') -> is_Some (m' !! k) ->
  is_Some (m !! k) \/
  (has_byte ";" pair = false /\ pair <> EmptyString /\ QueryUnescape (cut_pair "=" pair).1 = Some k).
Proof.
  unfold parse_pair. destruct (has_byte ";" pair); [intros [= <- <-]; auto|].
  destruct (String.eqb_spec pair EmptyString) as [->|Hne]; [intros [= <- <-]; auto|].
  destruct (cut_pair "=" pair) as [key value]. simpl.
  destruct (QueryUnescape key) as [k'|]; [|intros [= <- <-]; auto].
  destruct (QueryUnescape value); intros [= <- <-]; [|auto].
  destruct (decide (k' = k)) as [->|Hk]; [auto|]. rewrite lookup_insert_ne by done. auto.
Qed.

Lemma parse_keys (pairs : list string) (m m' : Values) (bad bad' : bool) (k : string) :
  foldl parse_pair (m, bad) pairs = (m', bad') -> is_Some (m' !! k) ->
  is_Some (m !! k) \/
  exists pair, pair ∈ pairs /\ has_byte ";" pair = false /\ pair <> EmptyString /\
    QueryUnescape (cut_pair "=" pair).1 = Some k.
Proof.
  revert m bad. induction pairs as [|pair pairs IH]; intros m bad; [intros [= <- <-]; auto|].
  cbn [foldl]. destruct (parse_pair (m, bad) pair) as [m1 bad1] eqn:E. intros Hf Hk.
  destruct (IH _ _ Hf Hk) as [Hk1|(p & Hp & Hr)]; [|right; exists p; split; [by right|done]].
  destruct (parse_pair_keys _ _ _ _ _ _ E Hk1) as [?|?]; [by left|]. right. exists pair. split; [by left|done].
Qed.

(** A credential in the URL reaches nothing.  A query string the gateway
    lets past its placement check names no parameter [access_token], however
    its name is escaped, whatever separates it and whatever its value holds: the
    parameters the query parses to, when it parses at all, hold none of that
    name. *)
Theorem access_token_never_parsed (rawQuery : string) (values : Values) :
  hasAccessToken rawQuery = false -> ParseQuery rawQuery = Some values ->
  values !! accessTokenParam = None.
Proof.
  intros Hno Hp. apply eq_None_not_Some. intros Hk. unfold ParseQuery in Hp.
  destruct (foldl parse_pair (∅, false) (split_at "&" rawQuery)) as [m bad] eqn:E.
  destruct bad; [done|]. injection Hp as <-.
  destruct (parse_keys _ _ _ _ _ _ E Hk) as [Hk0|(pair & Hin & Hsemi & Hne & Hu)].
  { rewrite lookup_empty in Hk0. by destruct Hk0. }
  unfold hasAccessToken in Hno. apply not_true_iff_false in Hno. apply Hno.
  apply existsb_exists. exists pair. split; [|by rewrite Hu].
  apply list_elem_of_In. unfold fields_on. apply list_elem_of_filter. split; [done|].
  apply list_elem_of_join. exists (split_at ";" pair). split; [|by apply list_elem_of_fmap_2].
  rewrite split_at_no_sep by done. by left.
Qed.

(** ** Numbers in a query *)

Lemma atoi_digits (s : string) :
  all_bytes is_digit s = true ->
  atoi s = if String.eqb s EmptyString then None
           else match digits_value 0 s with
                | None => None
                | Some n => if (min_int64 <=? n) && (n <=? max_int64) then Some n else None
                end.
Proof.
  intros Hd. destruct s as [|c s]; [done|]. simpl in Hd. apply andb_true_iff in Hd as [Hc _].
  unfold atoi. destruct c as [[] [] [] [] [] [] [] []]; try discriminate Hc; reflexivity.
Qed.

Lemma parse_bounded_Some (top : Z) (s : string) (n : Z) :
  parse_bounded top s = Some n -> 1 <= n <= top /\ all_bytes is_digit s = true /\ digits_value 0 s = Some n.
Proof.
  unfold parse_bounded. destruct (all_bytes is_digit s) eqn:Hd; [|done]. simpl. rewrite atoi_digits by done.
  destruct (String.eqb s EmptyString); [done|]. destruct (digits_value 0 s) as [m|]; [|done].
  destruct ((min_int64 <=? m) && (m <=? max_int64)); [|done].
  destruct (Z.ltb_spec m 1), (Z.ltb_spec top m); simpl; try done. intros [= <-]. by repeat split; try lia.
Qed.

(** ** Parameters in name order *)

Section params_spec.
  Variable IsDNS1123Subdomain : string -> bool.
  Variables (spec : profileSpec) (values : Values).

(** The value of a parameter that passed [singleValue]. *)
Definition value_of (name : string) : string :=
  match values !! name with Some [v] => v | _ => EmptyString end.

(** Why one parameter of a profile request is refused, whatever the others are. *)
Definition profile_fault (name : string) : option paramError :=
  match singleValue name (default [] (values !! name)) with
  | inr e => Some e
  | inl v =>
      if String.eqb name "seconds" then
        if negb (sp_takesSeconds spec) then Some (invalidParameter [(parameter_not_applicable, "seconds"%string)])
        else match parseSeconds v with None => Some (malformedParameter "seconds") | Some _ => None end
      else if String.eqb name "pod" then
        if IsDNS1123Subdomain v then None else Some (malformedParameter "pod")
      else if String.eqb name "version" then None
      else if String.eqb name "strategy" then
        if String.eqb v "random" then None else Some (malformedParameter "strategy")
      else Some (unknownParameter name)
  end.

(** The parameters read after a list of names, none at fault. *)
Definition profile_read (names : list string) (st : Z * profileParams) : Z * profileParams :=
  (if decide ("seconds"%string ∈ names) then default 0 (parseSeconds (value_of "seconds")) else st.1,
   {| pr_seconds := pr_seconds st.2;
      pr_pod := if decide ("pod"%string ∈ names) then value_of "pod" else pr_pod st.2;
      pr_version := if decide ("version"%string ∈ names) then value_of "version" else pr_version st.2;
      pr_port := pr_port st.2 |}).

Lemma singleValue_value (name v : string) :
  singleValue name (default [] (values !! name)) = inl v -> value_of name = v /\ v <> EmptyString.
Proof.
  unfold singleValue, value_of. destruct (values !! name) as [[|w [|]]|]; simpl; try done.
  destruct (String.eqb_spec w EmptyString); [done|]. by intros [= <-].
Qed.

Lemma profile_param_eq (st : Z * profileParams) (name : string) :
  profile_param IsDNS1123Subdomain spec values st name =
  match profile_fault name with Some e => inr e | None => inl (profile_read [name] st) end.
Proof.
  unfold profile_param, profile_fault, profile_read. destruct st as [seconds p].
  destruct (singleValue name (default [] (values !! name))) as [v|e] eqn:Es; [|done].
  apply singleValue_value in Es as [Hv Hne].
  assert (forall (A : Type) (a : string) (x y : A),
    (if decide (a ∈ [name]) then x else y) = (if String.eqb name a then x else y)) as Hdec.
  { intros A a x y. case_decide as Ha; destruct (String.eqb_spec name a); set_solver. }
  rewrite !Hdec.
  destruct (String.eqb_spec name "seconds") as [->|].
  { rewrite Hv. simpl. destruct (sp_takesSeconds spec); [|done]. simpl.
    destruct (parseSeconds v); [|done]. by destruct p. }
  destruct (String.eqb_spec name "pod") as [->|].
  { rewrite Hv. simpl. by destruct (IsDNS1123Subdomain v). }
  destruct (String.eqb_spec name "version") as [->|]; [by rewrite Hv|].
  destruct (String.eqb_spec name "strategy") as [->|]; [|done].
  destruct (String.eqb v "random"); [|done]. by destruct p.
Qed.

Lemma fold_profile (names : list string) (st : Z * profileParams) :
  NoDup names ->
  fold_params (profile_param IsDNS1123Subdomain spec values) names st =
  match omap profile_fault names with
  | e :: _ => inr e
  | [] => inl (profile_read names st)
  end.
Proof.
  intros Hnd. revert st. induction Hnd as [|name names Hn Hnd IH]; intros st.
  - simpl. unfold profile_read. simpl. destruct st as [s [a b c d]]. done.
  - simpl. rewrite profile_param_eq. destruct (profile_fault name) as [e|]; [done|]. rewrite IH.
    change (list_omap string paramError profile_fault names) with (omap profile_fault names).
    destruct (omap profile_fault names); [|done]. f_equal. unfold profile_read. simpl.
    assert (forall (A : Type) (a : string) (x y : A),
      (if decide (a ∈ names) then x else if decide (a ∈ [name]) then x else y)
      = (if decide (a ∈ name :: names) then x else y)) as Hdec.
    { intros A a x y. repeat case_decide; set_solver. }
    by rewrite !Hdec.
Qed.
End params_spec.

Lemma sorted_names_elem (values : Values) (name : string) :
  name ∈ sorted_names values <-> is_Some (values !! name).
Proof.
  unfold sorted_names. rewrite (elem_of_Permutation_proper name _ _ (merge_sort_Permutation String.le _)).
  by rewrite elem_of_elements, elem_of_dom.
Qed.

Lemma sorted_names_NoDup (values : Values) : NoDup (sorted_names values).
Proof.
  unfold sorted_names. rewrite (merge_sort_Permutation String.le _). apply NoDup_elements.
Qed.

Lemma parseProfileParams_eq (IsDNS1123Subdomain IsValidPortName : string -> bool) (values : Values)
    (spec : profileSpec) (limits : LimitsConfig) :
  parseProfileParams IsDNS1123Subdomain IsValidPortName values spec limits =
  match parsePortParams IsValidPortName values with
  | inr e => inr e
  | inl (port, rest) =>
      match omap (profile_fault IsDNS1123Subdomain spec rest) (sorted_names rest) with
      | e :: _ => inr e
      | [] =>
          let asked := default 0 (parseSeconds (value_of rest "seconds")) in
          let p seconds :=
            {| pr_seconds := seconds; pr_pod := value_of rest "pod"; pr_version := value_of rest "version";
               pr_port := port |} in
          if negb (sp_takesSeconds spec) then inl (p 0)
          else
            let effective := if 0 <? asked then asked else sp_default spec in
            if duration_limit spec limits <? effective
            then inr {| pe_code := "seconds_exceeds_limit"; pe_details := [] |}
            else inl (p effective)
      end
  end.
Proof.
  unfold parseProfileParams. destruct (parsePortParams IsValidPortName values) as [[port rest]|e]; [|done].
  rewrite fold_profile by apply sorted_names_NoDup.
  destruct (omap (profile_fault IsDNS1123Subdomain spec rest) (sorted_names rest)); [|done].
  assert (forall name, (if decide (name ∈ sorted_names rest) then value_of rest name else EmptyString)
    = value_of rest name) as Hv.
  { intros name. case_decide as Hn; [done|]. unfold value_of. rewrite sorted_names_elem in Hn.
    destruct (rest !! name); [|done]. by destruct Hn. }
  assert ((if decide ("seconds"%string ∈ sorted_names rest)
           then default 0 (parseSeconds (value_of rest "seconds")) else 0)
          = default 0 (parseSeconds (value_of rest "seconds"))) as Hs.
  { case_decide as Hn; [done|]. specialize (Hv "seconds"%string). rewrite decide_False in Hv by done.
    by rewrite <-Hv. }
  unfold profile_read. cbn [fst snd pr_seconds pr_pod pr_version pr_port]. by rewrite !Hv, Hs.
Qed.

(** A profile request is read the same way however its query is spelled.
    Past the port selection, the parameters are independent: the answer is
    the fault of the least name at fault, whatever the order and the number
    of the others; with none at fault, each field is its own parameter's value;
    and the duration is the one asked for or else the profile's default, refused
    when it is above the ceiling configured for that profile. *)
Theorem parseProfileParams_spec (IsDNS1123Subdomain IsValidPortName : string -> bool) (values : Values)
    (spec : profileSpec) (limits : LimitsConfig) :
  parseProfileParams IsDNS1123Subdomain IsValidPortName values spec limits =
  match parsePortParams IsValidPortName values with
  | inr e => inr e
  | inl (port, rest) =>
      match omap (profile_fault IsDNS1123Subdomain spec rest) (sorted_names rest) with
      | e :: _ => inr e
      | [] =>
          let asked := default 0 (parseSeconds (value_of rest "seconds")) in
          let p seconds :=
            {| pr_seconds := seconds; pr_pod := value_of rest "pod"; pr_version := value_of rest "version";
               pr_port := port |} in
          if negb (sp_takesSeconds spec) then inl (p 0)
          else
            let effective := if 0 <? asked then asked else sp_default spec in
            if duration_limit spec limits <? effective
            then inr {| pe_code := "seconds_exceeds_limit"; pe_details := [] |}
            else inl (p effective)
      end
  end.
Proof. apply parseProfileParams_eq. Qed.

(** The duration a profile runs for is bounded.  An accepted request for a
    profile that takes one runs for at least one second and for no longer than
    the ceiling configured for it; a profile that takes none runs for none. *)
Theorem profile_seconds_bounds (IsDNS1123Subdomain IsValidPortName : string -> bool) (values : Values)
    (spec : profileSpec) (limits : LimitsConfig) (p : profileParams) :
  spec ∈ profileSpecs ->
  parseProfileParams IsDNS1123Subdomain IsValidPortName values spec limits = inl p ->
  if sp_takesSeconds spec then 1 <= pr_seconds p <= duration_limit spec limits else pr_seconds p = 0.
Proof.
  intros Hspec. rewrite parseProfileParams_eq.
  destruct (parsePortParams IsValidPortName values) as [[port rest]|e]; [|done].
  destruct (omap _ _); [|done]. simpl.
  assert (sp_takesSeconds spec = true -> 1 <= sp_default spec) as Hd.
  { clear -Hspec. unfold profileSpecs in Hspec.
    repeat (apply elem_of_cons in Hspec as [->|Hspec]; [simpl; by try lia|]). by apply elem_of_nil in Hspec. }
  destruct (sp_takesSeconds spec); simpl; [|by intros [= <-]]. specialize (Hd eq_refl).
  set (asked := default 0 (parseSeconds (value_of rest "seconds"))).
  destruct (Z.ltb_spec (duration_limit spec limits) (if 0 <? asked then asked else sp_default spec)); [done|].
  intros [= <-]. simpl. split; [|done]. destruct (Z.ltb_spec 0 asked); lia.
Qed.

(** ** The choice of a target *)

(** A profile is taken from a target the filters keep.  The target chosen
    is one of those discovery answered, of the version asked for and of the
    name asked for when one was; a request is refused exactly when none is,
    with a fault naming the Pod when a Pod was named. *)
Theorem selectTarget_spec (targets : list Target) (params : profileParams) (choose : nat -> nat) :
  (forall n, (0 < n)%nat -> (choose n < n)%nat) ->
  let fits t := (pr_version params <> EmptyString -> tg_Version t = pr_version params) /\
                (pr_pod params <> EmptyString -> tg_Pod t = pr_pod params) in
  match selectTarget targets params choose with
  | inl t => t ∈ targets /\ fits t
  | inr e => (forall t, t ∈ targets -> ~ fits t) /\ (e = PodNotFound <-> pr_pod params <> EmptyString)
  end.
Proof.
  intros Hc fits. unfold selectTarget.
  set (remaining := if String.eqb (pr_version params) EmptyString then targets
                    else filter (fun t => tg_Version t = pr_version params) targets).
  assert (forall t, t ∈ remaining <-> t ∈ targets /\ (pr_version params <> EmptyString -> tg_Version t = pr_version params))
    as Hr.
  { intros t. unfold remaining. destruct (String.eqb_spec (pr_version params) EmptyString) as [->|Hne].
    - naive_solver.
    - rewrite list_elem_of_filter. naive_solver. }
  clearbody remaining. unfold fits. destruct (String.eqb_spec (pr_pod params) EmptyString) as [Hp|Hp]; simpl.
  - destruct remaining as [|t l] eqn:El.
    + split; [|done]. intros t Ht [Hv _]. by apply (elem_of_nil t), Hr.
    + assert (nth (choose (length (t :: l))) (t :: l) t ∈ t :: l) as Hn.
      { apply list_elem_of_In, nth_In, Hc. simpl. lia. }
      apply Hr in Hn as [Hn Hv]. split; [done|]. by split.
  - destruct (List.find (fun t => String.eqb (tg_Pod t) (pr_pod params)) remaining) as [t|] eqn:Ef.
    + apply List.find_some in Ef as [Hin%list_elem_of_In He%String.eqb_eq]. apply Hr in Hin as [Hin Hv].
      split; [done|]. by split.
    + split; [|done]. intros t Ht [Hv Hpod].
      pose proof (List.find_none _ _ Ef t) as Hno. simpl in Hno.
      rewrite Hpod, String.eqb_refl in Hno by done. discriminate Hno. apply list_elem_of_In, Hr. by split.
Qed.

(** ** The explain body *)

Lemma count_of_app (a b : list (exclusion * nat)) (r : exclusion) :
  count_of (a ++ b) r = (count_of a r + count_of b r)%nat.
Proof. unfold count_of. by rewrite filter_app, fmap_app, sum_list_with_app. Qed.

Lemma sum_list_cons (n : nat) (l : list nat) : sum_list (n :: l) = (n + sum_list l)%nat.
Proof. done. Qed.

Lemma sum_indicator (r : exclusion) (n : nat) (l : list exclusion) :
  NoDup l -> sum_list ((fun r' => if decide (r = r') then n else 0%nat) <$> l)
    = if decide (r ∈ l) then n else 0%nat.
Proof.
  induction 1 as [|x l Hx Hnd IH].
  - by rewrite decide_False by apply not_elem_of_nil.
  - rewrite fmap_cons, sum_list_cons, IH. destruct (decide (r = x)) as [->|Hne].
    + rewrite decide_False, decide_True by (done || by left). apply Nat.add_0_r.
    + destruct (decide (r ∈ l)) as [Hin|Hni].
      * rewrite decide_True by by right. done.
      * rewrite decide_False; [done|]. rewrite not_elem_of_cons. done.
Qed.

Lemma sum_fmap_plus {A} (f g : A -> nat) (l : list A) :
  sum_list ((fun x => (f x + g x)%nat) <$> l) = (sum_list (f <$> l) + sum_list (g <$> l))%nat.
Proof. induction l as [|x l IH]; [done|]. rewrite !fmap_cons, !sum_list_cons, IH. lia. Qed.

Lemma count_of_one (r : exclusion) (n : nat) (counts : list (exclusion * nat)) (r' : exclusion) :
  count_of ((r, n) :: counts) r' = ((if decide (r = r') then n else 0) + count_of counts r')%nat.
Proof.
  unfold count_of. destruct (decide (r = r')) as [->|Hne].
  - by rewrite filter_cons_True.
  - by rewrite filter_cons_False.
Qed.

Lemma exclusionReasons_all (r : exclusion) : r ∈ exclusionReasons.
Proof. destruct r; vm_compute; repeat constructor. Qed.

(** The counts by reason add up to the counts. *)
Lemma sum_counts (counts : list (exclusion * nat)) :
  sum_list (count_of counts <$> exclusionReasons) = sum_list counts.*2.
Proof.
  induction counts as [|[r n] counts IH]; [done|].
  assert (count_of ((r, n) :: counts) <$> exclusionReasons
    = (fun r' => ((if decide (r = r') then n else 0) + count_of counts r')%nat) <$> exclusionReasons) as ->.
  { apply list_fmap_ext. intros _ x _. apply count_of_one. }
  rewrite sum_fmap_plus, IH, sum_indicator, decide_True by (apply exclusionReasons_all || by apply (bool_decide_unpack _)).
  done.
Qed.

Lemma sum_nonzero (f : exclusion -> nat) (l : list exclusion) :
  sum_list (omap (fun r => if (0 <? f r)%nat then Some (r, f r) else None) l).*2 = sum_list (f <$> l).
Proof.
  induction l as [|r l IH]; [done|]. rewrite fmap_cons, sum_list_cons, <-IH. simpl.
  destruct (Nat.ltb_spec 0 (f r)); [done|]. by replace (f r) with 0%nat by lia.
Qed.

(** The explain body accounts for every Pod the selector matched.  Over a
    report of discovery, the Pods matched are the targets shown after the
    version and name filters plus the counts listed, each reason once, in the
    order of the vocabulary and never with a zero: a filter moves a target to
    the counts and loses none. *)
Theorem explain_body_accounts (e : Explanation) (params : targetsParams) :
  ex_SelectorMatched e = (length (ex_Targets e) + sum_list (ex_Excluded e).*2)%nat ->
  let '(shown, dropped) := filterTargets (ex_Targets e) params in
  let merged := mergeExclusions (ex_Excluded e) dropped in
  ex_SelectorMatched e = (length shown + sum_list merged.*2)%nat /\
  merged.*1 `sublist_of` exclusionReasons /\ Forall (fun x => (0 < x.2)%nat) merged.
Proof.
  intros He. unfold filterTargets. simpl.
  set (kept := if String.eqb (tp_version params) EmptyString then _ else _).
  set (final := if String.eqb (tp_pod params) EmptyString then _ else _).
  assert (length kept <= length (ex_Targets e))%nat as H1.
  { unfold kept. case_match; [done|]. apply length_filter. }
  assert (length final <= length kept)%nat as H2.
  { unfold final. case_match; [done|]. apply length_filter. }
  unfold mergeExclusions. set (counts := ex_Excluded e ++ _).
  split; [|split].
  - rewrite sum_nonzero, sum_counts. unfold counts. rewrite fmap_app, sum_list_with_app. simpl. lia.
  - generalize exclusionReasons. induction l as [|r l IH]; simpl; [constructor|].
    destruct (0 <? count_of counts r)%nat; [apply sublist_skip, IH|apply sublist_cons, IH].
  - apply Forall_forall. intros [r n] Hin. apply list_elem_of_omap in Hin as (r' & _ & Hr).
    destruct (Nat.ltb_spec 0 (count_of counts r')); [|done]. injection Hr as <- <-. done.
Qed.

(** ** The theorems at a concrete input *)

Definition any_name (s : string) : bool := negb (String.eqb s EmptyString).
Definition demo_limits : LimitsConfig := {| CPUSeconds := 60; TraceSeconds := 5 |}.
Definition cpu_spec : profileSpec := timed "cpu" "/debug/pprof/profile" 30.
Definition demo_values : Values := {[ "seconds"%string := ["45"%string]; "pod"%string := ["cart-0"%string] ]}.
Definition demo_params : profileParams :=
  {| pr_seconds := 45; pr_pod := "cart-0"; pr_version := ""; pr_port := no_port |}.

Lemma access_token_never_parsed_witness :
  (hasAccessToken "a=1&access%5Ftokens=x" = false /\ hasAccessToken "a=1;access%5Ftoken=x" = true) /\
  exists values, ParseQuery "a=1&access%5Ftokens=x" = Some values /\ values !! accessTokenParam = None.
Proof.
  split; [split; vm_compute; reflexivity|].
  destruct (ParseQuery "a=1&access%5Ftokens=x") as [values|] eqn:E; [|by vm_compute in E].
  exists values. split; [done|]. by apply (access_token_never_parsed "a=1&access%5Ftokens=x"); [vm_compute|].
Defined.

Lemma profile_seconds_bounds_witness :
  parseProfileParams any_name any_name demo_values cpu_spec demo_limits = inl demo_params /\
  1 <= pr_seconds demo_params <= duration_limit cpu_spec demo_limits.
Proof.
  assert (parseProfileParams any_name any_name demo_values cpu_spec demo_limits = inl demo_params) as H
    by (vm_compute; reflexivity).
  split; [exact H|]. apply (profile_seconds_bounds any_name any_name demo_values cpu_spec demo_limits); [|exact H].
  by left.
Defined.

Definition query_target (pod version : string) : Target :=
  {| tg_Namespace := "shop"; tg_Service := "cart"; tg_Pod := pod; tg_Node := "n1"; tg_PodIP := "10.0.0.1";
     tg_Port := 6060; tg_Version := version; tg_UID := pod |}.

Lemma selectTarget_spec_witness :
  selectTarget [query_target "cart-1" "v1"; query_target "cart-0" "v2"] demo_params (fun _ => O)
    = inl (query_target "cart-0" "v2") /\
  query_target "cart-0" "v2" ∈ [query_target "cart-1" "v1"; query_target "cart-0" "v2"].
Proof.
  split; [reflexivity|].
  exact (proj1 (selectTarget_spec [query_target "cart-1" "v1"; query_target "cart-0" "v2"] demo_params
    (fun _ => O) (fun n Hn => Hn))).
Defined.

Definition demo_report : Explanation :=
  {| ex_Targets := [query_target "cart-1" "v1"; query_target "cart-0" "v2"]; ex_SelectorMatched := 5;
     ex_Excluded := [(PodNotReady, 3%nat)] |}.

Lemma explain_body_accounts_witness :
  ex_SelectorMatched demo_report = 5%nat /\
  let '(shown, dropped) := filterTargets (ex_Targets demo_report)
    {| tp_port := no_port; tp_version := "v2"; tp_pod := ""; tp_explain := true |} in
  ex_SelectorMatched demo_report
    = (length shown + sum_list (mergeExclusions (ex_Excluded demo_report) dropped).*2)%nat.
Proof.
  split; [reflexivity|].
  exact (proj1 (explain_body_accounts demo_report
    {| tp_port := no_port; tp_version := "v2"; tp_pod := ""; tp_explain := true |} eq_refl)).
Defined.
