(* ===== verification/Listing.v ===== *)
(** * The listing routes

    src/internal/httpapi/listing.go, targets.go and authinfo.go: the bodies of
    the five listing routes, of the targets route and of the authentication
    discovery route, from the caches' answers and one configuration snapshot. *)

From S2P Require Import Prelude Effects Keys Caches Config Discovery Routes Query.

(** ** The lists *)

(** [servicesOf], [catalogOf], [namespacesOf], of a filtered catalog. *)
Definition servicesOf (refs : list serviceRef) : list string := merge_sort String.le refs.*2.
Definition catalogOf (refs : list serviceRef) : list serviceRef := refs.

(** [slices.Compact]: runs of equal elements become one. *)
Fixpoint compact (l : list string) : list string :=
  match l with
  | [] => []
  | x :: l' =>
      match compact l' with
      | [] => [x]
      | y :: t => if decide (x = y) then y :: t else x :: y :: t
      end
  end.
Definition namespacesOf (refs : list serviceRef) : list string := compact (merge_sort String.le refs.*1).

(** [admittedCatalog], of what [Catalog] answers. *)
Definition admittedCatalog (realm : Realm) (refs : list serviceRef) : list serviceRef :=
  filterCatalog realm refs.

(** ** Views of the configuration *)

Record realmView := { rv_Name : string; rv_Realm : Realm }.
Record whoamiBody := { wb_Principal : string; wb_Realm : realmView; wb_Mode : string; wb_Logout : string }.

Definition ModeDisabled : string := "disabled".
Definition ModeBasic : string := "basic".
Definition ModeOIDC : string := "oidc".
Definition logoutPath : string := "/auth/logout".

(** The fields of the authentication configuration the views read; an absent
    block is [None]. *)
Record CLIConfig := { cli_ClientID : string; cli_Scopes : list string; cli_PKCE : bool }.
Record OIDCConfig := {
  oidc_Issuer : string;
  oidc_TokenType : string;
  oidc_Browser : bool;
  oidc_CLI : option CLIConfig
}.
Record AuthConfig := { auth_Mode : string; auth_OIDC : option OIDCConfig }.

(** [whoamiView]. *)
Definition whoamiView (auth : AuthConfig) (principal realmName : string) (realm : Realm) : whoamiBody :=
  {| wb_Principal := principal; wb_Realm := {| rv_Name := realmName; rv_Realm := realm |};
     wb_Mode := auth_Mode auth;
     wb_Logout :=
       match auth_OIDC auth with
       | Some o => if String.eqb (auth_Mode auth) ModeOIDC && oidc_Browser o then logoutPath else EmptyString
       | None => EmptyString
       end |}.

(** [limitsView]; [lb_Port] and [lb_PortName] are the port default. *)
Record limitsBody := {
  lb_CPUSeconds : Z;
  lb_TraceSeconds : Z;
  lb_Profiles : list string;
  lb_Port : Z;
  lb_PortName : string;
  lb_AllowedSelections : list Selection;
  lb_PGOEnabled : bool
}.

(** [Profiles] of src/internal/config/config.go. *)
Definition profileNames : list string :=
  ["cpu"; "trace"; "heap"; "allocs"; "goroutine"; "mutex"; "block"; "threadcreate"].
Definition IsProfile (name : string) : bool := bool_decide (name ∈ profileNames).

Definition limitsView (limits : LimitsConfig) (pprof : PprofConfig) (pgoEnabled : bool) : limitsBody :=
  {| lb_CPUSeconds := CPUSeconds limits; lb_TraceSeconds := TraceSeconds limits;
     lb_Profiles := profileNames;
     lb_Port := if negb (pp_Port pprof =? 0) then pp_Port pprof else 0;
     lb_PortName := if negb (pp_Port pprof =? 0) then EmptyString else pp_PortName pprof;
     lb_AllowedSelections := pp_AllowedSelections pprof; lb_PGOEnabled := pgoEnabled |}.

(** [authInfoView]. *)
Record authInfoCLI := {
  ai_Issuer : string;
  ai_ClientID : string;
  ai_TokenType : string;
  ai_Scopes : list string;
  ai_PKCE : bool
}.
Definition authInfoView (auth : AuthConfig) : string * option authInfoCLI :=
  (auth_Mode auth,
   if negb (String.eqb (auth_Mode auth) ModeOIDC) then None
   else
     match auth_OIDC auth with
     | None => None
     | Some o =>
         match oidc_CLI o with
         | None => None
         | Some cli =>
             Some {| ai_Issuer := oidc_Issuer o; ai_ClientID := cli_ClientID cli;
                     ai_TokenType := oidc_TokenType o; ai_Scopes := cli_Scopes cli;
                     ai_PKCE := cli_PKCE cli |}
         end
     end).

(** ** The targets body *)

Record targetView := { tv_Pod : string; tv_Node : string; tv_Version : string }.
Definition target_view (t : Target) : targetView :=
  {| tv_Pod := tg_Pod t; tv_Node := tg_Node t; tv_Version := tg_Version t |}.
Definition view_pod_le (a b : targetView) : Prop := String.le (tv_Pod a) (tv_Pod b).
#[export] Instance view_pod_le_dec : RelDecision view_pod_le.
Proof. intros a b. unfold view_pod_le. apply _. Defined.

(** [targetViews]. *)
Definition targetViews (targets : list Target) : list targetView :=
  merge_sort view_pod_le (target_view <$> targets).

(** ** Properties *)

Lemma compact_elem (x : string) (l : list string) : x ∈ compact l <-> x ∈ l.
Proof.
  induction l as [|y l IH]; [done|]. simpl. destruct (compact l) as [|z t] eqn:E.
  - by rewrite !elem_of_cons, <-IH.
  - case_decide as Hd; [subst|]; rewrite !elem_of_cons, <-IH, !elem_of_cons; naive_solver.
Qed.

Lemma compact_head (l : list string) :
  match compact l with [] => l = [] | y :: _ => head l = Some y end.
Proof.
  induction l as [|x l IH]; [done|]. simpl. destruct (compact l) as [|y t]; [done|].
  case_decide as Hd; [by subst|done].
Qed.

Lemma compact_sorted (l : list string) :
  StronglySorted String.le l -> StronglySorted String.le (compact l).
Proof.
  induction l as [|x l IH]; [done|]. intros [Hall Hs]%StronglySorted_cons. specialize (IH Hs).
  simpl. destruct (compact l) as [|y t] eqn:E; [by repeat constructor|].
  case_decide; [done|]. apply StronglySorted_cons. split; [|done].
  apply Forall_forall. intros z Hz. rewrite <-E, compact_elem in Hz.
  rewrite Forall_forall in Hall. by apply Hall.
Qed.

Lemma compact_NoDup (l : list string) : StronglySorted String.le l -> NoDup (compact l).
Proof.
  induction l as [|x l IH]; [constructor|]. intros [Hall Hs]%StronglySorted_cons. specialize (IH Hs).
  simpl. pose proof (compact_sorted l Hs) as Hcs. destruct (compact l) as [|y t] eqn:E.
  { apply NoDup_singleton. }
  case_decide as Hne; [done|]. apply NoDup_cons. split; [|done]. intros Hin.
  apply elem_of_cons in Hin as [->|Hin]; [done|]. apply StronglySorted_cons in Hcs as [Ht _].
  rewrite Forall_forall in Ht. pose proof (Ht x Hin) as H1. rewrite Forall_forall in Hall.
  assert (y ∈ l) as Hy by (apply compact_elem; rewrite E; by left).
  apply Hne. by apply (anti_symm String.le); [apply Hall|].
Qed.

(** The lists a caller is answered.  The namespaces listed are exactly those
    of the Services its realm admits, each once and in order; the Services of
    a namespace and the catalog list exactly those Services; nothing else of
    the cluster shows. *)
Theorem listings_exact (realm : Realm) (refs : list serviceRef) :
  let admitted := admittedCatalog realm refs in
  (forall ns svc, (ns, svc) ∈ catalogOf admitted <->
     (ns, svc) ∈ refs /\ listAllows (Namespaces realm) ns = true /\ listAllows (Services realm) svc = true) /\
  (forall ns, ns ∈ namespacesOf admitted <-> exists svc, (ns, svc) ∈ catalogOf admitted) /\
  (forall svc, svc ∈ servicesOf admitted <-> exists ns, (ns, svc) ∈ catalogOf admitted) /\
  StronglySorted String.le (namespacesOf admitted) /\ NoDup (namespacesOf admitted) /\
  StronglySorted String.le (servicesOf admitted).
Proof.
  intros admitted. unfold catalogOf, namespacesOf, servicesOf.
  assert (forall l : list string, StronglySorted String.le (merge_sort String.le l)) as Hsort.
  { intros l. apply Sorted_StronglySorted; [intros a b c; by apply transitivity|]. apply Sorted_merge_sort, _. }
  assert (forall (x : string) l, x ∈ merge_sort String.le l <-> x ∈ l) as Hms.
  { intros x l. apply elem_of_Permutation_proper, merge_sort_Permutation. }
  split; [|split; [|split; [|split; [|split]]]].
  - intros ns svc. unfold admitted, admittedCatalog, filterCatalog. rewrite list_elem_of_filter. simpl.
    rewrite andb_true_iff. tauto.
  - intros ns. rewrite compact_elem, Hms, list_elem_of_fmap. split.
    + intros ([n v] & -> & Hin). by exists v.
    + intros [v Hin]. by exists (ns, v).
  - intros svc. rewrite Hms, list_elem_of_fmap. split.
    + intros ([n v] & -> & Hin). by exists n.
    + intros [n Hin]. by exists (n, svc).
  - apply compact_sorted, Hsort.
  - apply compact_NoDup, Hsort.
  - apply Hsort.
Qed.
