(* ===== verification/Timestamp.v ===== *)
(** * Timestamps

    What the Collection listing uses of Go's time package: the calendar, an
    instant written as RFC 3339 in UTC with its fraction, and the reading of one
    ([time.Parse] with the layouts RFC3339 and RFC3339Nano, which accept the
    same strings). *)

From S2P Require Import Prelude.

(** ** The calendar

    Days are counted from January 1, 1970; years are proleptic Gregorian. *)

Definition isLeap (y : Z) : bool := (y mod 4 =? 0) && (negb (y mod 100 =? 0) || (y mod 400 =? 0)).

(** The day of January 1. *)
Definition year_start (y : Z) : Z :=
  365 * (y - 1970) + ((y - 1) / 4 - (y - 1) / 100 + (y - 1) / 400) - 477.

Definition month_lengths (y : Z) : list Z :=
  [31; if isLeap y then 29 else 28; 31; 30; 31; 30; 31; 31; 30; 31; 30; 31].

(** [daysIn]. *)
Definition daysIn (m y : Z) : Z := nth (Z.to_nat (m - 1)) (month_lengths y) 0.

Fixpoint sum_first (n : nat) (l : list Z) : Z :=
  match n, l with
  | S n', x :: l' => x + sum_first n' l'
  | _, _ => 0
  end.

Definition date_days (y m d : Z) : Z :=
  year_start y + sum_first (Z.to_nat (m - 1)) (month_lengths y) + (d - 1).

(** The year of a day: a first guess from the mean length of a year. *)
Definition year_of (days : Z) : Z :=
  let g := 1 + (days + 719162) * 400 / 146097 in
  if days <? year_start g then g - 1
  else if year_start (g + 1) <=? days then g + 1
  else g.

Fixpoint month_day (lengths : list Z) (m n : Z) : Z * Z :=
  match lengths with
  | [] => (m, n + 1)
  | len :: lengths' => if n <? len then (m, n + 1) else month_day lengths' (m + 1) (n - len)
  end.

Definition civil (days : Z) : Z * Z * Z :=
  let y := year_of days in
  let '(m, d) := month_day (month_lengths y) 1 (days - year_start y) in
  (y, m, d).

(** ** Writing an instant *)

Definition digit (n : Z) : ascii := ascii_of_nat (48 + Z.to_nat n).
Definition two (n : Z) : string := String (digit (n / 10)) (String (digit (n mod 10)) EmptyString).
Definition four (n : Z) : string := two (n / 100) +:+ two (n mod 100).

(** A year with at least four digits. *)
Definition format_year (y : Z) : string :=
  if y <? 0 then String "-" (if - y <? 10000 then four (- y) else pretty (- y))
  else if y <? 10000 then four y else pretty y.

(** The digits of a number below [10 ^ n]. *)
Fixpoint digits_of (n : nat) (z : Z) : list Z :=
  match n with
  | O => []
  | S n' => z / 10 ^ Z.of_nat n' :: digits_of n' (z mod 10 ^ Z.of_nat n')
  end.

(** Without its last zeros. *)
Fixpoint trim_zeros (l : list Z) : list Z :=
  match l with
  | [] => []
  | x :: l' => match trim_zeros l' with [] => if x =? 0 then [] else [x] | t => x :: t end
  end.

Fixpoint string_of_digits (l : list Z) : string :=
  match l with [] => EmptyString | x :: l' => String (digit x) (string_of_digits l') end.

Definition format_fraction (ns : Z) : string :=
  match trim_zeros (digits_of 9 ns) with [] => EmptyString | l => String "." (string_of_digits l) end.

(** [t.UTC().Format(time.RFC3339Nano)]. *)
Definition format_rfc3339 (t : time) : string :=
  let s := t / second in
  let '(y, m, d) := civil (s / 86400) in
  let r := s mod 86400 in
  format_year y +:+ "-" +:+ two m +:+ "-" +:+ two d +:+ "T" +:+ two (r / 3600) +:+ ":"
    +:+ two (r / 60 mod 60) +:+ ":" +:+ two (r mod 60) +:+ format_fraction (t mod second) +:+ "Z".

(** ** Reading one *)

Definition digit_value (c : ascii) : option Z :=
  if is_digit c then Some (Z.of_nat (nat_of_ascii c) - 48) else None.

(** [getnum]; one digit is enough unless [fixed]. *)
Definition getnum (fixed : bool) (s : string) : option (Z * string) :=
  match s with
  | String a s' =>
      match digit_value a with
      | None => None
      | Some x =>
          match s' with
          | String b s'' =>
              match digit_value b with
              | Some y => Some (10 * x + y, s'')
              | None => if fixed then None else Some (x, s')
              end
          | EmptyString => if fixed then None else Some (x, s')
          end
      end
  | EmptyString => None
  end.

(** Four digits. *)
Definition get_year (s : string) : option (Z * string) :=
  match getnum true s with
  | None => None
  | Some (a, s') => match getnum true s' with None => None | Some (b, s'') => Some (100 * a + b, s'') end
  end.

Definition skip (c : ascii) (s : string) : option string := cut_prefix (String c EmptyString) s.

(** The longest run of digits. *)
Fixpoint span_digits (s : string) : list Z * string :=
  match s with
  | EmptyString => ([], EmptyString)
  | String c s' =>
      match digit_value c with
      | None => ([], s)
      | Some x => let '(l, r) := span_digits s' in (x :: l, r)
      end
  end.

(** The fraction a run of digits stands for, in units of [10 ^ -n]; the digits
    past the [n]-th are dropped. *)
Fixpoint fraction_value (n : nat) (l : list Z) : Z :=
  match n, l with
  | S n', x :: l' => x * 10 ^ Z.of_nat n' + fraction_value n' l'
  | _, _ => 0
  end.

(** An optional fraction, after a period or a comma. *)
Definition get_fraction (s : string) : Z * string :=
  match s with
  | String c s' =>
      if Ascii.eqb c "." || Ascii.eqb c "," then
        match span_digits s' with
        | ([], _) => (0, s)
        | (l, r) => (fraction_value 9 l, r)
        end
      else (0, s)
  | EmptyString => (0, s)
  end.

(** The offset, in seconds; nothing may follow it. *)
Definition get_zone (s : string) : option Z :=
  match s with
  | String "Z" EmptyString => Some 0
  | String sign (String a (String b (String ":" (String c (String d EmptyString))))) =>
      match getnum true (String a (String b EmptyString)), getnum true (String c (String d EmptyString)) with
      | Some (hh, _), Some (mm, _) =>
          if (24 <? hh) || (60 <? mm) then None
          else if Ascii.eqb sign "+" then Some ((hh * 60 + mm) * 60)
          else if Ascii.eqb sign "-" then Some (- ((hh * 60 + mm) * 60))
          else None
      | _, _ => None
      end
  | _ => None
  end.

(** [time.Parse(time.RFC3339Nano, s)]. *)
Definition parse_rfc3339 (s : string) : option time :=
  '(y, s) ← get_year s;
  s ← skip "-" s;
  '(m, s) ← getnum true s;
  s ← skip "-" s;
  '(d, s) ← getnum true s;
  s ← skip "T" s;
  '(h, s) ← getnum false s;
  s ← skip ":" s;
  '(mi, s) ← getnum true s;
  s ← skip ":" s;
  '(se, s) ← getnum true s;
  let '(ns, s) := get_fraction s in
  off ← get_zone s;
  if (m <? 1) || (12 <? m) || (23 <? h) || (59 <? mi) || (59 <? se) || (d <? 1) || (daysIn m y <? d) then None
  else Some ((date_days y m d * 86400 + h * 3600 + mi * 60 + se - off) * second + ns).

Example parse_leap : parse_rfc3339 "2024-02-29T23:59:59.5Z" = Some 1709251199500000000.
Proof. reflexivity. Qed.
Example parse_offset : parse_rfc3339 "1970-01-01T01:00:00+01:00" = Some 0.
Proof. reflexivity. Qed.
Example parse_no_day : parse_rfc3339 "2023-02-29T00:00:00Z" = None.
Proof. reflexivity. Qed.
Example format_epoch : format_rfc3339 1709251199500000000 = "2024-02-29T23:59:59.5Z".
Proof. reflexivity. Qed.
Example format_before_epoch : format_rfc3339 (-1) = "1969-12-31T23:59:59.999999999Z".
Proof. reflexivity. Qed.

(** ** The calendar is consistent *)

Lemma year_start_next (y : Z) : year_start (y + 1) = year_start y + (if isLeap y then 366 else 365).
Proof.
  unfold year_start, isLeap.
  destruct (Z.eqb_spec (y mod 4) 0), (Z.eqb_spec (y mod 100) 0), (Z.eqb_spec (y mod 400) 0); simpl;
    Z.div_mod_to_equations; lia.
Qed.

Lemma year_of_spec (days : Z) : year_start (year_of days) <= days < year_start (year_of days + 1).
Proof.
  unfold year_of. set (g := 1 + (days + 719162) * 400 / 146097).
  assert (year_start (g - 1) <= days < year_start (g + 2)) as H.
  { unfold year_start, g. Z.div_mod_to_equations. lia. }
  destruct (Z.ltb_spec days (year_start g)).
  { replace (g - 1 + 1) with g by lia. lia. }
  destruct (Z.leb_spec (year_start (g + 1)) days); [|lia].
  replace (g + 1 + 1) with (g + 2) by lia. lia.
Qed.

Lemma month_day_spec (lengths : list Z) (m n m' d : Z) :
  Forall (fun x => 0 < x) lengths -> 0 <= n < sum_first (length lengths) lengths -> 0 < m ->
  month_day lengths m n = (m', d) ->
  m <= m' < m + Z.of_nat (length lengths) /\ 1 <= d <= nth (Z.to_nat (m' - m)) lengths 0 /\
  sum_first (Z.to_nat (m' - m)) lengths + (d - 1) = n.
Proof.
  revert m n. induction lengths as [|len lengths IH]; intros m n Hpos Hn Hm Hmd; simpl in *; [lia|].
  apply Forall_cons in Hpos as [Hlen Hpos]. destruct (Z.ltb_spec n len).
  - injection Hmd as <- <-. replace (m - m) with 0 by lia. simpl. lia.
  - destruct (IH (m + 1) (n - len) Hpos ltac:(lia) ltac:(lia) Hmd) as (H1 & H2 & H3).
    replace (Z.to_nat (m' - m)) with (S (Z.to_nat (m' - (m + 1)))) by lia. simpl. lia.
Qed.

Lemma month_lengths_sum (y : Z) :
  sum_first (length (month_lengths y)) (month_lengths y) = if isLeap y then 366 else 365.
Proof. unfold month_lengths. by destruct (isLeap y). Qed.

(** A day is the day of its date, and its date is one the calendar holds. *)
Lemma civil_spec (days y m d : Z) :
  civil days = (y, m, d) ->
  y = year_of days /\ 1 <= m <= 12 /\ 1 <= d <= daysIn m y /\ date_days y m d = days.
Proof.
  unfold civil. destruct (month_day (month_lengths (year_of days)) 1 (days - year_start (year_of days)))
    as [m' d'] eqn:E. intros [= <- <- <-].
  pose proof (year_of_spec days) as Hy. rewrite year_start_next in Hy.
  apply month_day_spec in E as (H1 & H2 & H3); [| |rewrite month_lengths_sum; lia|lia].
  - unfold daysIn, date_days. change (length (month_lengths (year_of days))) with 12%nat in H1. lia.
  - unfold month_lengths. repeat constructor; by case_match.
Qed.

Lemma daysIn_max (m y : Z) : daysIn m y <= 31.
Proof.
  unfold daysIn, month_lengths. destruct (Z.to_nat (m - 1)) as [|[|[|[|[|[|[|[|[|[|[|[|]]]]]]]]]]]]; simpl;
    try lia; [by case_match|by destruct n].
Qed.

(** ** Reading what was written *)

(** What holds of the ten digits, checked one by one. *)
Lemma on_digits (f : Z -> bool) (n : Z) :
  forallb (fun k => f (Z.of_nat k)) (seq 0 10) = true -> 0 <= n < 10 -> f n = true.
Proof.
  rewrite forallb_forall. intros Hf Hn. rewrite <-(Z2Nat.id n) by lia. apply Hf, in_seq. lia.
Qed.

Lemma digit_value_digit (n : Z) : 0 <= n < 10 -> digit_value (digit n) = Some n.
Proof.
  intros Hn. pose proof (on_digits (fun k => bool_decide (digit_value (digit k) = Some k)) n
    ltac:(by vm_compute) Hn) as H. by apply bool_decide_eq_true in H.
Qed.

Lemma getnum_two (fixed : bool) (n : Z) (rest : string) :
  0 <= n < 100 -> getnum fixed (two n +:+ rest) = Some (n, rest).
Proof.
  intros H. unfold two, getnum. cbn [String.append].
  rewrite digit_value_digit by (split; [apply Z.div_pos; lia|apply Z.div_lt_upper_bound; lia]).
  rewrite digit_value_digit by (apply Z.mod_pos_bound; lia).
  do 2 f_equal. pose proof (Z.div_mod n 10 ltac:(done)). lia.
Qed.

Lemma get_year_four (y : Z) (rest : string) :
  0 <= y < 10000 -> get_year (four y +:+ rest) = Some (y, rest).
Proof.
  intros H. unfold get_year, four. rewrite str_app_assoc.
  rewrite getnum_two by (split; [apply Z.div_pos; lia|apply Z.div_lt_upper_bound; lia]).
  rewrite getnum_two by (apply Z.mod_pos_bound; lia).
  do 2 f_equal. pose proof (Z.div_mod y 100 ltac:(done)). lia.
Qed.

Lemma fraction_digits (n : nat) (z : Z) :
  0 <= z < 10 ^ Z.of_nat n -> fraction_value n (digits_of n z) = z.
Proof.
  revert z. induction n as [|n IH]; intros z Hz; [simpl in *; lia|].
  cbn [digits_of fraction_value]. pose proof (Z.pow_pos_nonneg 10 (Z.of_nat n) ltac:(lia) ltac:(lia)).
  rewrite IH by by apply Z.mod_pos_bound.
  pose proof (Z.div_mod z (10 ^ Z.of_nat n) ltac:(lia)). lia.
Qed.

Lemma digits_of_range (n : nat) (z : Z) :
  0 <= z < 10 ^ Z.of_nat n -> Forall (fun x => 0 <= x < 10) (digits_of n z).
Proof.
  revert z. induction n as [|n IH]; intros z Hz; [constructor|]. cbn [digits_of].
  pose proof (Z.pow_pos_nonneg 10 (Z.of_nat n) ltac:(lia) ltac:(lia)). constructor.
  - split; [apply Z.div_pos; lia|]. apply Z.div_lt_upper_bound; [done|].
    rewrite Nat2Z.inj_succ, Z.pow_succ_r in Hz by lia. lia.
  - apply IH. by apply Z.mod_pos_bound.
Qed.

Lemma fraction_trim (n : nat) (l : list Z) : fraction_value n (trim_zeros l) = fraction_value n l.
Proof.
  revert n. induction l as [|x l IH]; intros n; [done|]. simpl.
  destruct n as [|n]; [destruct (trim_zeros l); [by case_match|done]|].
  simpl. rewrite <-(IH n). destruct (trim_zeros l) as [|y t]; [|done].
  destruct (Z.eqb_spec x 0) as [->|]; [by destruct n|done].
Qed.

Lemma trim_zeros_range (l : list Z) :
  Forall (fun x => 0 <= x < 10) l -> Forall (fun x => 0 <= x < 10) (trim_zeros l).
Proof.
  induction 1 as [|x l Hx _ IH]; simpl; [constructor|]. destruct (trim_zeros l); [case_match|]; by constructor.
Qed.

Lemma span_digits_string (l : list Z) (c : ascii) (rest : string) :
  Forall (fun x => 0 <= x < 10) l -> digit_value c = None ->
  span_digits (string_of_digits l +:+ String c rest) = (l, String c rest).
Proof.
  intros Hl Hc. induction Hl as [|x l Hx _ IH]; cbn [string_of_digits String.append span_digits];
    [by rewrite Hc|]. by rewrite digit_value_digit, IH.
Qed.

Lemma get_fraction_format (ns : Z) :
  0 <= ns < second -> get_fraction (format_fraction ns +:+ "Z") = (ns, "Z"%string).
Proof.
  intros Hns. unfold format_fraction, second in *.
  assert (0 <= ns < 10 ^ Z.of_nat 9) as Hr by done.
  pose proof (fraction_trim 9 (digits_of 9 ns)) as Hf. rewrite fraction_digits in Hf by done.
  pose proof (trim_zeros_range _ (digits_of_range 9 ns Hr)) as Hd.
  destruct (trim_zeros (digits_of 9 ns)) as [|x l] eqn:E; [simpl in Hf; by subst|].
  rewrite <-Hf. cbn [String.append]. unfold get_fraction. simpl Ascii.eqb. cbv iota. simpl orb. cbv iota.
  rewrite span_digits_string by done. done.
Qed.

Lemma pretty_N_go_length (x : N) (s : string) : (String.length s <= String.length (pretty_N_go x s))%nat.
Proof.
  revert s. induction (N.lt_wf_0 x) as [x _ IH]; intros s.
  assert (x = 0 \/ 0 < x)%N as [->|?] by lia; [done|].
  rewrite pretty_N_go_step by done. etrans; [|apply IH; by apply N.div_lt]. simpl. lia.
Qed.

Lemma pretty_N_go_long (k : nat) (x : N) (s : string) :
  (10 ^ N.of_nat k <= x)%N -> (k + 1 + String.length s <= String.length (pretty_N_go x s))%nat.
Proof.
  revert x s. induction k as [|k IH]; intros x s Hx.
  - simpl in Hx. rewrite pretty_N_go_step by lia. etrans; [|apply pretty_N_go_length]. simpl. lia.
  - rewrite Nat2N.inj_succ, N.pow_succ_r' in Hx.
    pose proof (N.pow_nonzero 10 (N.of_nat k) ltac:(done)).
    rewrite pretty_N_go_step by lia. etrans; [|apply IH].
    + simpl. lia.
    + apply N.div_le_lower_bound; [done|lia].
Qed.

(** A year past 9999 is at least five digits long. *)
Lemma long_year (y : Z) : 10000 <= y ->
  exists a b c d e rest, pretty y = String a (String b (String c (String d (String e rest)))) /\
    is_digit e = true.
Proof.
  intros Hy. pose proof (pretty_Z_digits y ltac:(lia)) as Hd.
  assert (5 <= String.length (pretty y))%nat as Hl.
  { destruct y as [|p|p]; [lia| |lia]. change (pretty (Z.pos p)) with (pretty (N.pos p)).
    unfold pretty, pretty_N. case_decide; [done|].
    pose proof (pretty_N_go_long 4 (N.pos p) EmptyString ltac:(change (10000 <= N.pos p)%N; lia)) as H4.
    change (5 <= String.length (pretty_N_go (N.pos p) EmptyString))%nat in H4. exact H4. }
  destruct (pretty y) as [|a [|b [|c [|d [|e rest]]]]]; simpl in Hl; try lia.
  simpl in Hd. repeat (apply andb_true_iff in Hd as [? Hd]). by eexists a, b, c, d, e, rest.
Qed.

Lemma skip_app (c : ascii) (s : string) : skip c (String c s) = Some s.
Proof. unfold skip. simpl. by rewrite decide_True. Qed.

Lemma skip_other (c d : ascii) (s : string) : c <> d -> skip c (String d s) = None.
Proof. intros H. unfold skip. simpl. by rewrite decide_False. Qed.

Lemma getnum_rest (a b : ascii) (s : string) (n : Z) (r : string) :
  getnum true (String a (String b s)) = Some (n, r) -> r = s.
Proof. unfold getnum. destruct (digit_value a); [|done]. destruct (digit_value b); [|done]. by intros [= _ <-]. Qed.

(** An instant written in the listing's cursor is read back as the same
    instant, to the nanosecond, exactly when its year in UTC has four digits;
    past that range the string written is one the gateway refuses to read. *)
Lemma rfc3339_roundtrip (t : time) :
  parse_rfc3339 (format_rfc3339 t) =
  if (0 <=? year_of (t / second / 86400)) && (year_of (t / second / 86400) <=? 9999) then Some t else None.
Proof.
  unfold format_rfc3339. destruct (civil (t / second / 86400)) as [[y m] d] eqn:E.
  apply civil_spec in E as (<- & Hm & Hd & Hdays). pose proof (daysIn_max m y).
  pose proof (Z.mod_pos_bound (t / second) 86400 ltac:(done)) as Hr.
  set (r := t / second mod 86400) in *.
  destruct (Z.leb_spec 0 y) as [H0|H0]; [|unfold format_year; by rewrite (proj2 (Z.ltb_lt y 0) H0)].
  destruct (Z.leb_spec y 9999) as [H9|H9]; cbn [andb].
  - unfold format_year. rewrite (proj2 (Z.ltb_ge y 0) H0), (proj2 (Z.ltb_lt y 10000)) by lia.
    unfold parse_rfc3339. rewrite get_year_four by lia. cbn [mbind option_bind String.append].
    rewrite skip_app. cbn [mbind option_bind]. rewrite getnum_two by lia. cbn [mbind option_bind String.append].
    rewrite skip_app. cbn [mbind option_bind]. rewrite getnum_two by lia. cbn [mbind option_bind String.append].
    rewrite skip_app. cbn [mbind option_bind].
    assert (0 <= r / 3600 < 24) as Hh by (split; [apply Z.div_pos; lia|apply Z.div_lt_upper_bound; lia]).
    rewrite getnum_two by lia. cbn [mbind option_bind String.append]. rewrite skip_app. cbn [mbind option_bind].
    pose proof (Z.mod_pos_bound (r / 60) 60 ltac:(done)) as Hmi. pose proof (Z.mod_pos_bound r 60 ltac:(done)) as Hse.
    rewrite getnum_two by lia. cbn [mbind option_bind String.append]. rewrite skip_app. cbn [mbind option_bind].
    rewrite getnum_two by lia. cbn [mbind option_bind String.append].
    rewrite get_fraction_format by (apply Z.mod_pos_bound; done). cbn [mbind option_bind get_zone].
    rewrite (proj2 (Z.ltb_ge m 1)), (proj2 (Z.ltb_ge 12 m)), (proj2 (Z.ltb_ge 23 _)), (proj2 (Z.ltb_ge 59 _)),
      (proj2 (Z.ltb_ge 59 _)), (proj2 (Z.ltb_ge d 1)), (proj2 (Z.ltb_ge _ d)) by lia.
    cbn [orb]. f_equal. rewrite Hdays.
    assert (r / 3600 * 3600 + r / 60 mod 60 * 60 + r mod 60 = r) as Hrr by (Z.div_mod_to_equations; lia).
    pose proof (Z.div_mod (t / second) 86400 ltac:(done)) as H1.
    pose proof (Z.div_mod t second ltac:(done)) as H2. unfold r in *. lia.
  - unfold format_year. rewrite (proj2 (Z.ltb_ge y 0) H0), (proj2 (Z.ltb_ge y 10000)) by lia.
    destruct (long_year y ltac:(lia)) as (a & b & c & e & f & rest & -> & Hf).
    unfold parse_rfc3339, get_year. cbn [String.append].
    destruct (getnum true (String a _)) as [[n1 s1]|] eqn:E1; [|done]. apply getnum_rest in E1 as ->.
    destruct (getnum true (String c _)) as [[n2 s2]|] eqn:E2; [|done]. apply getnum_rest in E2 as ->.
    cbn [mbind option_bind]. rewrite skip_other; [done|]. by intros <-.
Qed.
