(* ===== verification/Cursor.v ===== *)
(** * The Collection listing's query and cursor

    src/internal/httpapi/pgo_collections.go: the parameters of GET
    .../collections, the cursor that continues a listing, and the page a
    request is answered; the wait parameter of the Collection read.
    [time.ParseDuration] is an argument. *)

From S2P Require Import Prelude Effects Ident Config Policy Records Keys Caches Discovery Routes.
From S2P Require Import Query Timestamp Base64.

(** ** States and origins by name *)

(** [pgo.State(name)]. *)
Definition state_of (s : string) : State :=
  if String.eqb s "initializing" then StateInitializing
  else if String.eqb s "pending" then StatePending
  else if String.eqb s "running" then StateRunning
  else if String.eqb s "completed" then StateCompleted
  else if String.eqb s "failed" then StateFailed
  else if String.eqb s "cancelled" then StateCancelled
  else if String.eqb s "expired" then StateExpired
  else StateOther s.

(** [collectionState]. *)
Definition collectionState (s : State) : bool := match s with StateOther _ => false | _ => true end.

Definition origin_of (s : string) : option Origin :=
  if String.eqb s "schedule" then Some OriginSchedule
  else if String.eqb s "api" then Some OriginAPI
  else None.
Definition origin_name (o : option Origin) : string :=
  match o with
  | None => EmptyString
  | Some OriginSchedule => "schedule"
  | Some OriginAPI => "api"
  | Some (OriginOther s) => s
  end.

(** [slices.Sorted] of the keys of a set of names. *)
Definition sorted_set (names : list string) : list string := merge_sort String.le (remove_dups names).

(** ** The cursor *)

Record listFilters := { f_States : list State; f_Since : time; f_Origin : option Origin }.

#[export] Instance listFilters_eq_dec : EqDecision listFilters.
Proof. solve_decision. Defined.

(** [equal]. *)
Definition filters_equal (f g : listFilters) : bool :=
  bool_decide (f_States f = f_States g) && (f_Since f =? f_Since g) && bool_decide (f_Origin f = f_Origin g).

Definition filtersOf (q : CollectionQuery) : listFilters :=
  {| f_States := q_States q; f_Since := q_Since q; f_Origin := q_Origin q |}.

Definition newline : ascii := ascii_of_nat 10.
Definition cursorVersion : ascii := "1".
Definition cursorFields : nat := 5.

(** [encodeCursor]. *)
Definition encodeCursor (pos : CollectionPosition) (f : listFilters) : string :=
  b64_encode (String cursorVersion (join_with newline
    [format_rfc3339 (pos_CreatedAt pos); pos_ID pos; join_with "," (state_name <$> f_States f);
     if f_Since f =? zero_time then EmptyString else format_rfc3339 (f_Since f); origin_name (f_Origin f)])).

(** The state set of a cursor. *)
Definition cursor_states (field : string) : option (list State) :=
  if String.eqb field EmptyString then Some []
  else
    let names := split_at "," field in
    if forallb (fun n => collectionState (state_of n)) names
    then Some (state_of <$> sorted_set names) else None.

(** [decodeCursor]. *)
Definition decodeCursor (token : string) : option (CollectionPosition * listFilters) :=
  match b64_decode token with
  | Some (String v payload) =>
      if negb (Ascii.eqb v cursorVersion) then None
      else
        match split_at newline payload with
        | [created; id; states; since; origin] =>
            createdAt ← parse_rfc3339 created;
            if negb (ValidID id) then None
            else
              sts ← cursor_states states;
              snc ← (if String.eqb since EmptyString then Some zero_time else parse_rfc3339 since);
              org ← (if String.eqb origin EmptyString then Some None else Some <$> origin_of origin);
              Some ({| pos_CreatedAt := createdAt; pos_ID := id |},
                    {| f_States := sts; f_Since := snc; f_Origin := org |})
        | _ => None
        end
  | _ => None
  end.

(** ** The query of the listing *)

Definition cursorParam : string := "cursor".
Definition limitParam : string := "limit".
Definition originParam : string := "origin".
Definition sinceParam : string := "since".
Definition stateParam : string := "state".

(** [parseStates]. *)
Fixpoint state_names (values : list string) : list string + paramError :=
  match values with
  | [] => inl []
  | v :: values' =>
      match singleValue stateParam [v] with
      | inr e => inr e
      | inl _ =>
          if negb (collectionState (state_of v)) then inr (malformedParameter stateParam)
          else match state_names values' with inr e => inr e | inl l => inl (v :: l) end
      end
  end.
Definition parseStates (values : list string) : list State + paramError :=
  match state_names values with
  | inr e => inr e
  | inl names => inl (state_of <$> sorted_set names)
  end.

(** What the loop of [parseCollectionList] fills. *)
Record listState := {
  ls_query : CollectionQuery;
  ls_cursor : option (CollectionPosition * listFilters)
}.

Definition no_position : CollectionPosition := {| pos_CreatedAt := zero_time; pos_ID := EmptyString |}.
Definition list_start : listState :=
  {| ls_query := {| q_States := []; q_Since := zero_time; q_Origin := None; q_After := no_position;
                    q_Limit := 0 |};
     ls_cursor := None |}.

Definition set_query (f : CollectionQuery -> CollectionQuery) (st : listState) : listState :=
  {| ls_query := f (ls_query st); ls_cursor := ls_cursor st |}.
Definition with_states (l : list State) (q : CollectionQuery) : CollectionQuery :=
  {| q_States := l; q_Since := q_Since q; q_Origin := q_Origin q; q_After := q_After q; q_Limit := q_Limit q |}.
Definition with_since (t : time) (q : CollectionQuery) : CollectionQuery :=
  {| q_States := q_States q; q_Since := t; q_Origin := q_Origin q; q_After := q_After q; q_Limit := q_Limit q |}.
Definition with_origin (o : Origin) (q : CollectionQuery) : CollectionQuery :=
  {| q_States := q_States q; q_Since := q_Since q; q_Origin := Some o; q_After := q_After q;
     q_Limit := q_Limit q |}.
Definition with_limit (n : Z) (q : CollectionQuery) : CollectionQuery :=
  {| q_States := q_States q; q_Since := q_Since q; q_Origin := q_Origin q; q_After := q_After q; q_Limit := n |}.
Definition with_after (p : CollectionPosition) (q : CollectionQuery) : CollectionQuery :=
  {| q_States := q_States q; q_Since := q_Since q; q_Origin := q_Origin q; q_After := p; q_Limit := q_Limit q |}.

(** One parameter: how it changes what the loop fills, or its fault. *)
Definition list_read (name : string) (vs : list string) : (listState -> listState) + paramError :=
  if String.eqb name stateParam then
    match parseStates vs with
    | inr e => inr e
    | inl states => inl (set_query (with_states states))
    end
  else
    match singleValue name vs with
    | inr e => inr e
    | inl v =>
        if String.eqb name cursorParam then
          match decodeCursor v with
          | None => inr (malformedParameter cursorParam)
          | Some c => inl (fun st => {| ls_query := ls_query st; ls_cursor := Some c |})
          end
        else if String.eqb name limitParam then
          match atoi v with
          | None => inr (malformedParameter limitParam)
          | Some n =>
              if (n <? 1) || (MaxListCollections <? n) then inr (malformedParameter limitParam)
              else inl (set_query (with_limit n))
          end
        else if String.eqb name originParam then
          match origin_of v with
          | None => inr (malformedParameter originParam)
          | Some o => inl (set_query (with_origin o))
          end
        else if String.eqb name sinceParam then
          match parse_rfc3339 v with
          | None => inr (malformedParameter sinceParam)
          | Some t => inl (set_query (with_since t))
          end
        else inr (unknownParameter name)
    end.

Definition list_param (values : Values) (st : listState) (name : string) : listState + paramError :=
  match list_read name (default [] (values !! name)) with
  | inr e => inr e
  | inl f => inl (f st)
  end.

(** [parseCollectionList], past [url.ParseQuery]. *)
Definition parse_list (values : Values) : CollectionQuery + paramError :=
  match fold_params (list_param values) (sorted_names values) list_start with
  | inr e => inr e
  | inl st =>
      match ls_cursor st with
      | None => inl (ls_query st)
      | Some (position, minted) =>
          if negb (filters_equal minted (filtersOf (ls_query st))) then inr (malformedParameter cursorParam)
          else inl (with_after position (ls_query st))
      end
  end.

(** [parseCollectionList]. *)
Definition parseCollectionList (rawQuery : string) : CollectionQuery + paramError :=
  if String.eqb rawQuery EmptyString then inl (ls_query list_start)
  else
    match ParseQuery rawQuery with
    | None => inr (malformedParameter EmptyString)
    | Some values => parse_list values
    end.

(** [serveCollectionList]: the page and the token that continues it; [None] when
    the cache cannot answer. *)
Definition serveCollectionList (cur g : N) (ns svc : string) (query : CollectionQuery) (c : Caches) :
    option (list CollectionView * string) :=
  let '(views, more, ok) := Collections cur g ns svc query c in
  if negb ok then None
  else
    Some (views,
          if more : bool then
            match last views with
            | Some v => encodeCursor (view_pos v) (filtersOf query)
            | None => EmptyString
            end
          else EmptyString).

(** ** The wait of a Collection read *)

Definition waitParam : string := "wait".
Definition minWait : duration := second.
Definition maxWait : duration := 60 * second.

Definition wait_param (ParseDuration : string -> option Z) (values : Values) (st : Z) (name : string) :
    Z + paramError :=
  match singleValue name (default [] (values !! name)) with
  | inr e => inr e
  | inl v =>
      if negb (String.eqb name waitParam) then inr (unknownParameter name)
      else
        match ParseDuration v with
        | None => inr (malformedParameter waitParam)
        | Some d => if (d <? minWait) || (maxWait <? d) then inr (malformedParameter waitParam) else inl d
        end
  end.

(** [parseWait]. *)
Definition parseWait (ParseDuration : string -> option Z) (rawQuery : string) : Z + paramError :=
  if String.eqb rawQuery EmptyString then inl 0
  else
    match ParseQuery rawQuery with
    | None => inr (malformedParameter EmptyString)
    | Some values => fold_params (wait_param ParseDuration values) (sorted_names values) 0
    end.

(** ** The fields of a cursor *)

Lemma state_name_of (s : string) : state_name (state_of s) = s.
Proof.
  unfold state_of.
  repeat (case_match eqn:E; [apply String.eqb_eq in E as ->; done|clear E]). done.
Qed.

Lemma state_of_valid (s : string) :
  collectionState (state_of s) = true ->
  s <> EmptyString /\ has_byte "," s = false /\ has_byte newline s = false.
Proof.
  unfold state_of.
  repeat (case_match eqn:E; [apply String.eqb_eq in E as ->; done|clear E]). done.
Qed.

Lemma sorted_set_elem (l : list string) (x : string) : x ∈ sorted_set l <-> x ∈ l.
Proof.
  unfold sorted_set. rewrite (elem_of_Permutation_proper x _ _ (merge_sort_Permutation String.le _)).
  apply elem_of_remove_dups.
Qed.

Lemma sorted_set_NoDup (l : list string) : NoDup (sorted_set l).
Proof. unfold sorted_set. rewrite (merge_sort_Permutation String.le _). apply NoDup_remove_dups. Qed.

Lemma sorted_set_sorted (l : list string) : StronglySorted String.le (sorted_set l).
Proof.
  apply Sorted_StronglySorted; [intros a b c; by apply transitivity|]. apply Sorted_merge_sort, _.
Qed.

(** Sorting a sorted set changes nothing. *)
Lemma sorted_set_idem (l : list string) : sorted_set (sorted_set l) = sorted_set l.
Proof.
  apply (StronglySorted_unique String.le); [apply sorted_set_sorted..|].
  apply NoDup_Permutation; [apply sorted_set_NoDup..|]. intros x. apply sorted_set_elem.
Qed.

Lemma digit_plain (n : Z) : 0 <= n < 10 -> Ascii.eqb (digit n) newline = false.
Proof.
  intros Hn. apply negb_true_iff. by apply (on_digits (fun k => negb (Ascii.eqb (digit k) newline))); [vm_compute|].
Qed.

Lemma has_byte_cons (c d : ascii) (s : string) :
  Ascii.eqb d c = false -> has_byte c s = false -> has_byte c (String d s) = false.
Proof. intros Hd%Ascii.eqb_neq Hs. simpl. by rewrite decide_False. Qed.

Lemma has_byte_join (c sep : ascii) (l : list string) :
  Ascii.eqb sep c = false -> Forall (fun s => has_byte c s = false) l -> has_byte c (join_with sep l) = false.
Proof.
  intros Hsep. induction 1 as [|s l Hs Hl IH]; [done|]. destruct l as [|t l]; [done|].
  rewrite join_with_cons by done. rewrite has_byte_app, Hs. by apply has_byte_cons.
Qed.

Lemma two_plain (n : Z) : 0 <= n < 100 -> has_byte newline (two n) = false.
Proof.
  intros H. unfold two. apply has_byte_cons; [apply digit_plain; sextet|].
  apply has_byte_cons; [apply digit_plain; Z.div_mod_to_equations; lia|done].
Qed.

Lemma digits_plain (l : list Z) :
  Forall (fun x => 0 <= x < 10) l -> has_byte newline (string_of_digits l) = false.
Proof. induction 1 as [|x l Hx _ IH]; [done|]. by apply has_byte_cons; [apply digit_plain|]. Qed.

Lemma fraction_plain (ns : Z) : 0 <= ns < second -> has_byte newline (format_fraction ns) = false.
Proof.
  intros Hns. unfold format_fraction.
  pose proof (trim_zeros_range _ (digits_of_range 9 ns Hns)) as Hd.
  destruct (trim_zeros (digits_of 9 ns)) as [|x l]; [done|].
  apply has_byte_cons; [done|]. by apply digits_plain.
Qed.

(** The years the cursor can carry. *)
Definition writable (t : time) : bool :=
  (0 <=? year_of (t / second / 86400)) && (year_of (t / second / 86400) <=? 9999).

Lemma format_plain (t : time) : writable t = true -> has_byte newline (format_rfc3339 t) = false.
Proof.
  unfold writable, format_rfc3339. destruct (civil (t / second / 86400)) as [[y m] d] eqn:E.
  apply civil_spec in E as (<- & Hm & Hd & _). pose proof (daysIn_max m y).
  intros [H0%Z.leb_le H9%Z.leb_le]%andb_true_iff.
  pose proof (Z.mod_pos_bound (t / second) 86400 ltac:(done)) as Hr. set (r := t / second mod 86400) in *.
  unfold format_year. rewrite (proj2 (Z.ltb_ge y 0) H0), (proj2 (Z.ltb_lt y 10000)) by lia.
  unfold four. rewrite !has_byte_app.
  rewrite (two_plain (y / 100)) by sextet. rewrite (two_plain (y mod 100)) by sextet.
  rewrite (two_plain m), (two_plain d) by lia. rewrite (two_plain (r / 3600)) by sextet.
  rewrite (two_plain (r / 60 mod 60)), (two_plain (r mod 60)) by sextet.
  by rewrite fraction_plain by (apply Z.mod_pos_bound; done).
Qed.

Lemma idAlphabet_plain (c : ascii) : isIDChar c = true -> Ascii.eqb c newline = false.
Proof. destruct c as [[] [] [] [] [] [] [] []]; vm_compute; done. Qed.

Lemma ValidID_plain (s : string) : ValidID s = true -> has_byte newline s = false.
Proof. intros [_ H]%ValidID_iff. by apply (all_bytes_no_byte isIDChar). Qed.

(** Names the loop of a state filter can have collected. *)
Definition valid_names (names : list string) : Prop :=
  forallb (fun n => collectionState (state_of n)) names = true.

Lemma valid_names_Forall (names : list string) :
  valid_names names <-> Forall (fun n => collectionState (state_of n) = true) names.
Proof. unfold valid_names. rewrite forallb_forall, Forall_forall. setoid_rewrite list_elem_of_In. done. Qed.

Lemma sorted_set_valid (names : list string) : valid_names names -> valid_names (sorted_set names).
Proof.
  rewrite !valid_names_Forall, !Forall_forall. intros H n Hn. apply H. by apply sorted_set_elem.
Qed.

Lemma names_of_states (names : list string) : state_name <$> (state_of <$> names) = names.
Proof. rewrite <-list_fmap_compose. rewrite <-(list_fmap_id names) at 2. apply list_fmap_ext. intros _ n _. apply state_name_of. Qed.

Lemma join_nonempty (c : ascii) (w : string) (ws : list string) :
  w <> EmptyString -> join_with c (w :: ws) <> EmptyString.
Proof. intros Hw. destruct w; [done|]. by destruct ws. Qed.

(** The states of a cursor are read back as the set they are. *)
Lemma cursor_states_join (names : list string) :
  valid_names names ->
  cursor_states (join_with "," (state_name <$> (state_of <$> sorted_set names)))
  = Some (state_of <$> sorted_set names).
Proof.
  intros Hv%sorted_set_valid. rewrite names_of_states. unfold cursor_states.
  pose proof (proj1 (valid_names_Forall _) Hv) as Hf.
  destruct (sorted_set names) as [|n l] eqn:E; [done|].
  assert (n <> EmptyString) as Hn by (inversion Hf; subst; by apply state_of_valid).
  destruct (String.eqb_spec (join_with "," (n :: l)) EmptyString) as [He|_];
    [by apply join_nonempty in He|].
  rewrite split_join; [|done|].
  - unfold valid_names in Hv. rewrite Hv, <-E, sorted_set_idem. done.
  - eapply Forall_impl; [exact Hf|]. intros x Hx. by apply state_of_valid.
Qed.

Lemma cursor_states_plain (names : list string) :
  valid_names names ->
  has_byte newline (join_with "," (state_name <$> (state_of <$> sorted_set names))) = false.
Proof.
  intros Hv%sorted_set_valid. rewrite names_of_states. apply has_byte_join; [done|].
  apply valid_names_Forall in Hv. eapply Forall_impl; [exact Hv|]. intros x Hx. by apply state_of_valid.
Qed.

Definition origin_known (o : option Origin) : bool := match o with Some (OriginOther _) => false | _ => true end.

(** What [decodeCursor] makes of five fields that hold no line break. *)
Lemma decode_fields (created id states since origin : string) :
  Forall (fun w => has_byte newline w = false) [created; id; states; since; origin] ->
  decodeCursor (b64_encode (String cursorVersion (join_with newline [created; id; states; since; origin])))
  = (createdAt ← parse_rfc3339 created;
     if negb (ValidID id) then None
     else
       sts ← cursor_states states;
       snc ← (if String.eqb since EmptyString then Some zero_time else parse_rfc3339 since);
       org ← (if String.eqb origin EmptyString then Some None else Some <$> origin_of origin);
       Some ({| pos_CreatedAt := createdAt; pos_ID := id |},
             {| f_States := sts; f_Since := snc; f_Origin := org |})).
Proof. intros H. unfold decodeCursor. rewrite b64_roundtrip, split_join by done. done. Qed.

Lemma format_nonempty (t : time) : writable t = true -> format_rfc3339 t <> EmptyString.
Proof.
  intros Hw He. pose proof (rfc3339_roundtrip t) as Hr. unfold writable in Hw. rewrite Hw, He in Hr. done.
Qed.

(** The cursor of filters the parser can have read, at a position a record can
    have, is read back as it was. *)
Lemma cursor_read_back (pos : CollectionPosition) (names : list string) (since : time) (o : option Origin) :
  ValidID (pos_ID pos) = true -> writable (pos_CreatedAt pos) = true -> valid_names names ->
  (since = zero_time \/ writable since = true) -> origin_known o = true ->
  let f := {| f_States := state_of <$> sorted_set names; f_Since := since; f_Origin := o |} in
  decodeCursor (encodeCursor pos f) = Some (pos, f).
Proof.
  intros Hid Hw Hv Hs Ho f. unfold encodeCursor, f. cbn [f_States f_Since f_Origin].
  pose proof (rfc3339_roundtrip (pos_CreatedAt pos)) as Hr. pose proof Hw as Hw'.
  unfold writable in Hw'. rewrite Hw' in Hr. clear Hw'.
  assert (has_byte newline (if since =? zero_time then EmptyString else format_rfc3339 since) = false /\
    (if String.eqb (if since =? zero_time then EmptyString else format_rfc3339 since) EmptyString
     then Some zero_time
     else parse_rfc3339 (if since =? zero_time then EmptyString else format_rfc3339 since)) = Some since)
    as [Hsp Hsr].
  { destruct (Z.eqb_spec since zero_time) as [->|Hne]; [done|]. destruct Hs as [?|Hs]; [done|].
    split; [by apply format_plain|].
    destruct (String.eqb_spec (format_rfc3339 since) EmptyString) as [He|_]; [by apply format_nonempty in He|].
    rewrite rfc3339_roundtrip. unfold writable in Hs. by rewrite Hs. }
  rewrite decode_fields.
  - rewrite Hr. cbn [mbind option_bind]. rewrite Hid. cbn [negb]. rewrite cursor_states_join by done.
    cbn [mbind option_bind]. rewrite Hsr. cbn [mbind option_bind]. destruct pos as [ct id].
    by destruct o as [[| |]|].
  - repeat constructor; [by apply format_plain|by apply ValidID_plain|by apply cursor_states_plain|done|].
    by destruct o as [[| |]|].
Qed.

(** ** Parameters in name order *)

Lemma list_read_fault_or (values : Values) (name : string) (st : listState) :
  list_param values st name =
  match list_read name (default [] (values !! name)) with inr e => inr e | inl f => inl (f st) end.
Proof. done. Qed.

Section list_spec.
  Variable values : Values.

Definition read_of (name : string) : (listState -> listState) + paramError :=
  list_read name (default [] (values !! name)).

(** Why one parameter of a listing is refused, whatever the others are. *)
Definition list_fault (name : string) : option paramError :=
  match read_of name with inr e => Some e | inl _ => None end.

(** What a parameter not at fault does to a query. *)
Definition apply_read (name : string) (st : listState) : listState :=
  match read_of name with inr _ => st | inl f => f st end.

(** Each parameter fills its own field. *)
Definition fill (names : list string) (st : listState) : listState := foldl (fun s n => apply_read n s) st names.

Lemma fill_cons (n : string) (names : list string) (st : listState) :
  fill (n :: names) st = fill names (apply_read n st).
Proof. done. Qed.

Lemma fill_app (l1 l2 : list string) (st : listState) : fill (l1 ++ l2) st = fill l2 (fill l1 st).
Proof. apply foldl_app. Qed.

Lemma fold_list (names : list string) (st : listState) :
  fold_params (list_param values) names st =
  match omap list_fault names with e :: _ => inr e | [] => inl (fill names st) end.
Proof.
  revert st. induction names as [|n names IH]; intros st; [done|].
  cbn [fold_params]. rewrite list_read_fault_or. change (list_read n _) with (read_of n).
  cbn [omap list_omap]. unfold list_fault at 1. unfold fill. cbn [foldl]. unfold apply_read at 2.
  destruct (read_of n) as [f|e]; [|done]. rewrite IH. done.
Qed.
End list_spec.

(** Reading anything but a cursor changes the query, and reads nothing else. *)
Lemma read_other (name : string) (vs : list string) (f : listState -> listState) :
  name <> cursorParam -> list_read name vs = inl f -> exists g, forall st, f st = set_query g st.
Proof.
  intros Hn. unfold list_read. destruct (String.eqb name stateParam).
  { destruct (parseStates vs); [|done]. intros [= <-]. by eexists. }
  destruct (singleValue name vs); [|done]. destruct (String.eqb_spec name cursorParam); [done|].
  repeat case_match; intros; simplify_eq; by eexists.
Qed.

Lemma read_cursor (tok : string) (c : CollectionPosition * listFilters) :
  decodeCursor tok = Some c ->
  list_read cursorParam [tok] = inl (fun st => {| ls_query := ls_query st; ls_cursor := Some c |}).
Proof.
  intros Hd. unfold list_read. simpl String.eqb. cbv iota. unfold singleValue.
  destruct (String.eqb_spec tok EmptyString) as [->|_]; [done|]. by rewrite Hd.
Qed.

Lemma fill_other (values : Values) (names : list string) :
  cursorParam ∉ names -> exists g, forall st, fill values names st = set_query g st.
Proof.
  induction names as [|n names IH]; intros Hn.
  - exists id. by intros [].
  - destruct IH as [g Hg]; [set_solver|].
    destruct (read_of values n) as [f|e] eqn:E.
    + destruct (read_other n (default [] (values !! n)) f) as [h Hh]; [set_solver|exact E|]. exists (fun q => g (h q)). intros st.
      rewrite fill_cons. unfold apply_read. rewrite E, Hh. apply Hg.
    + exists g. intros st. rewrite fill_cons. unfold apply_read. rewrite E. apply Hg.
Qed.

Lemma read_of_insert (values : Values) (name : string) (vs : list string) (n : string) :
  n <> name -> read_of (<[name := vs]> values) n = read_of values n.
Proof. intros H. unfold read_of. by rewrite lookup_insert_ne. Qed.

Lemma fill_insert (values : Values) (name : string) (vs : list string) (names : list string) (st : listState) :
  name ∉ names -> fill (<[name := vs]> values) names st = fill values names st.
Proof.
  revert st. induction names as [|n names IH]; intros st Hn; [done|]. rewrite !fill_cons.
  unfold apply_read. rewrite read_of_insert by set_solver. apply IH. set_solver.
Qed.

Lemma faults_insert (values : Values) (name : string) (vs : list string) (names : list string) :
  name ∉ names -> omap (list_fault (<[name := vs]> values)) names = omap (list_fault values) names.
Proof.
  intros Hn. apply list_omap_ext, Forall_Forall2_diag, Forall_forall. intros n Hin. unfold list_fault.
  rewrite read_of_insert; [done|]. by intros ->.
Qed.

(** One more parameter takes its place in the order of names. *)
Lemma sorted_names_insert (values : Values) (name : string) (vs : list string) :
  values !! name = None ->
  exists l1 l2, sorted_names (<[name := vs]> values) = l1 ++ name :: l2 /\ sorted_names values = l1 ++ l2 /\
    name ∉ l1 /\ name ∉ l2.
Proof.
  intros Hn. assert (name ∈ sorted_names (<[name := vs]> values)) as Hin
    by (apply sorted_names_elem; rewrite lookup_insert_eq; by eexists).
  apply list_elem_of_split in Hin as (l1 & l2 & Hl). exists l1, l2. split; [exact Hl|].
  pose proof (sorted_names_NoDup (<[name := vs]> values)) as Hnd. rewrite Hl in Hnd.
  apply NoDup_app in Hnd as (H1 & H12 & H2). apply NoDup_cons in H2 as [H2n H2].
  assert (name ∉ l1) as H1n by (intros Hin; exact (H12 name Hin ltac:(left))).
  split; [|done]. apply (StronglySorted_unique String.le).
  - apply Sorted_StronglySorted; [intros a b c; by apply transitivity|]. apply Sorted_merge_sort, _.
  - assert (StronglySorted String.le (l1 ++ name :: l2)) as Hs.
    { rewrite <-Hl. apply Sorted_StronglySorted; [intros a b c; by apply transitivity|].
      apply Sorted_merge_sort, _. }
    clear -Hs. induction l1 as [|x l1 IH]; simpl in *; inversion Hs as [|? ? Hs' Hx]; subst; [done|].
    constructor; [by apply IH|]. apply Forall_app in Hx as [Ha Hb]. inversion Hb. by apply Forall_app.
  - apply NoDup_Permutation; [apply sorted_names_NoDup| |].
    + apply NoDup_app. repeat split; [done| |done]. intros x Hx Hx2. apply (H12 x Hx). by right.
    + intros x. rewrite sorted_names_elem. transitivity (x ∈ l1 ++ name :: l2 /\ x <> name).
      * rewrite <-Hl, sorted_names_elem. split.
        -- intros Hx. assert (x <> name) by (intros ->; rewrite Hn in Hx; by destruct Hx).
           by rewrite lookup_insert_ne.
        -- intros [Hx Hne]. by rewrite lookup_insert_ne in Hx.
      * set_solver.
Qed.

(** A request with a token is the request without it, continued from the place
    the token names, when the token was minted under the same filters. *)
Lemma parse_list_cursor (values : Values) (q : CollectionQuery) (tok : string) (pos : CollectionPosition)
    (f : listFilters) :
  values !! cursorParam = None -> parse_list values = inl q -> decodeCursor tok = Some (pos, f) ->
  parse_list (<[cursorParam := [tok]]> values)
  = if filters_equal f (filtersOf q) then inl (with_after pos q) else inr (malformedParameter cursorParam).
Proof.
  intros Hn Hp Hd. destruct (sorted_names_insert values cursorParam [tok] Hn) as (l1 & l2 & Hl' & Hl & H1 & H2).
  unfold parse_list in *. rewrite fold_list in *. rewrite Hl in Hp. rewrite Hl'.
  assert (read_of (<[cursorParam := [tok]]> values) cursorParam
    = inl (fun st => {| ls_query := ls_query st; ls_cursor := Some (pos, f) |})) as Hr.
  { unfold read_of. rewrite lookup_insert_eq. by apply read_cursor. }
  rewrite omap_app in *. cbn [omap list_omap]. unfold list_fault at 2. rewrite Hr.
  change (list_omap ?A ?B ?g ?l) with (omap (M:=list) g l). rewrite !faults_insert by done.
  destruct (omap (list_fault values) l1 ++ omap (list_fault values) l2); [|done].
  rewrite fill_app in *. rewrite fill_cons.
  destruct (fill_other values l1 H1) as [g1 Hg1]. destruct (fill_other values l2 H2) as [g2 Hg2].
  rewrite Hg1, Hg2 in Hp. cbn in Hp. injection Hp as <-.
  rewrite !fill_insert, Hg1, Hg2 by done. unfold apply_read. rewrite Hr. cbn.
  by destruct (filters_equal f _).
Qed.

(** A query the parser can have read: a set of states of the record, an origin
    it knows, and no position yet. *)
Definition parsed (q : CollectionQuery) : Prop :=
  (exists names, valid_names names /\ q_States q = state_of <$> sorted_set names) /\
  origin_known (q_Origin q) = true /\ q_After q = no_position.

Lemma state_names_valid (vs names : list string) : state_names vs = inl names -> valid_names names.
Proof.
  revert names. induction vs as [|v vs IH]; intros names; cbn [state_names]; [by intros [= <-]|].
  destruct (singleValue stateParam [v]); [|done]. destruct (collectionState (state_of v)) eqn:Hv; [|done].
  cbn [negb]. destruct (state_names vs) as [l|]; [|done]. intros [= <-]. unfold valid_names. simpl.
  rewrite Hv. by apply IH.
Qed.

Lemma origin_of_known (s : string) (o : Origin) : origin_of s = Some o -> origin_known (Some o) = true.
Proof. unfold origin_of. repeat case_match; naive_solver. Qed.

Lemma read_parsed (name : string) (vs : list string) (f : listState -> listState) (st : listState) :
  list_read name vs = inl f -> parsed (ls_query st) -> parsed (ls_query (f st)).
Proof.
  unfold list_read. intros Hf (Hs & Ho & Ha). destruct (String.eqb name stateParam).
  { unfold parseStates in Hf. destruct (state_names vs) as [names|] eqn:E; [|done]. simplify_eq.
    split; [|done]. exists names. split; [by apply (state_names_valid vs)|done]. }
  destruct (singleValue name vs); [|done].
  repeat case_match; simplify_eq; repeat split; try done. by eapply origin_of_known.
Qed.

Lemma fill_parsed (values : Values) (names : list string) (st : listState) :
  parsed (ls_query st) -> parsed (ls_query (fill values names st)).
Proof.
  revert st. induction names as [|n names IH]; intros st Hst; [done|]. rewrite fill_cons. apply IH.
  unfold apply_read. destruct (read_of values n) eqn:E; [|done]. by eapply read_parsed.
Qed.

Lemma parse_list_parsed (values : Values) (q : CollectionQuery) :
  values !! cursorParam = None -> parse_list values = inl q -> parsed q.
Proof.
  intros Hn. unfold parse_list. rewrite fold_list. destruct (omap _ _); [|done].
  assert (parsed (ls_query list_start)) as H0 by (split; [by exists []|done]).
  pose proof (fill_parsed values (sorted_names values) _ H0) as Hq.
  assert (cursorParam ∉ sorted_names values) as Hc.
  { rewrite sorted_names_elem, Hn. by intros [? ?]. }
  destruct (fill_other values _ Hc) as [g Hg]. rewrite Hg in Hq |- *. cbn. by intros [= <-].
Qed.

(** The token minted for a position under the filters of a request is read back
    as that position and those filters. *)
Lemma cursor_of_query (values : Values) (q q' : CollectionQuery) (pos : CollectionPosition) :
  values !! cursorParam = None -> parse_list values = inl q -> filtersOf q' = filtersOf q ->
  ValidID (pos_ID pos) = true -> writable (pos_CreatedAt pos) = true ->
  (q_Since q = zero_time \/ writable (q_Since q) = true) ->
  decodeCursor (encodeCursor pos (filtersOf q')) = Some (pos, filtersOf q).
Proof.
  intros Hn Hp -> Hid Hw Hs. destruct (parse_list_parsed values q Hn Hp) as ((names & Hv & Hst) & Ho & _).
  unfold filtersOf. rewrite Hst. by apply cursor_read_back.
Qed.

Lemma filters_equal_eq (f g : listFilters) : filters_equal f g = true -> f = g.
Proof.
  unfold filters_equal. intros [[H1%bool_decide_eq_true H2%Z.eqb_eq]%andb_true_iff H3%bool_decide_eq_true]%andb_true_iff.
  destruct f, g. simpl in *. by subst.
Qed.

Lemma filters_equal_refl (f : listFilters) : filters_equal f f = true.
Proof. unfold filters_equal. by rewrite !bool_decide_true, Z.eqb_refl. Qed.

Lemma encode_nonempty (pos : CollectionPosition) (f : listFilters) : encodeCursor pos f <> EmptyString.
Proof. unfold encodeCursor. destruct (join_with newline _) as [|a [|b s]]; done. Qed.

(** ** A client that reads every page *)

(** Ask, and ask again with the token of the answer, until an answer carries
    none. *)
Fixpoint follow (fuel : nat) (cur g : N) (ns svc : string) (values : Values) (c : Caches) :
    option (list CollectionView) :=
  match fuel with
  | O => None
  | S n =>
      match parse_list values with
      | inr _ => None
      | inl q =>
          match serveCollectionList cur g ns svc q c with
          | None => None
          | Some (page, next) =>
              if String.eqb next EmptyString then Some page
              else rest ← follow n cur g ns svc (<[cursorParam := [next]]> values) c; Some (page ++ rest)
          end
      end
  end.

Lemma matching_view (ns svc : string) (q : CollectionQuery) (c : Caches) (v : CollectionView) :
  index_ok c -> keys_valid c -> v ∈ matching ns svc q c -> ValidID (vw_ID v) = true.
Proof.
  intros Hi Hk Hv. apply elem_of_matching in Hv as (id & j & Hj & _ & _ & -> & _); [|done].
  apply (Hk id). by eexists.
Qed.

Lemma filtersOf_after (pos : CollectionPosition) (q : CollectionQuery) : filtersOf (with_after pos q) = filtersOf q.
Proof. done. Qed.

(** The loop from any of its requests. *)
Lemma follow_pages (cur g : N) (ns svc : string) (values : Values) (q : CollectionQuery) (c : Caches) :
  index_ok c -> keys_valid c -> syncedLocked cur g [cacheJobs] c = true ->
  values !! cursorParam = None -> parse_list values = inl q ->
  (q_Since q = zero_time \/ writable (q_Since q) = true) ->
  forall fuel values' q', parse_list values' = inl q' -> filtersOf q' = filtersOf q ->
  (forall tok pos, decodeCursor tok = Some (pos, filtersOf q) ->
     parse_list (<[cursorParam := [tok]]> values') = inl (with_after pos q')) ->
  (forall tok tok', <[cursorParam := [tok]]> (<[cursorParam := [tok']]> values') = <[cursorParam := [tok]]> values') ->
  Forall (fun v => writable (vw_CreatedAt v) = true) (matching ns svc q' c) ->
  (length (matching ns svc q' c) < fuel)%nat ->
  follow fuel cur g ns svc values' c = Some (matching ns svc q' c).
Proof.
  intros Hi Hk Hs Hn Hp Hsince fuel. induction fuel as [|n IH]; intros values' q' Hp' Hf Hstep Hins Hw Hlt; [lia|].
  cbn [follow]. rewrite Hp'. unfold serveCollectionList.
  destruct (page_step cur g ns svc q' c Hi Hk Hs) as [->|(page & v & rest & -> & Hl & Hm & Hr)]; [done|].
  cbn [negb]. rewrite Hl. rewrite (proj2 (String.eqb_neq _ _) (encode_nonempty _ _)).
  assert (v ∈ matching ns svc q' c) as Hv.
  { rewrite Hm. apply elem_of_app. left. by apply last_Some_elem_of. }
  assert (decodeCursor (encodeCursor (view_pos v) (filtersOf q')) = Some (view_pos v, filtersOf q)) as Hd.
  { apply (cursor_of_query values); try done; [by eapply matching_view|].
    rewrite Forall_forall in Hw. by apply Hw. }
  rewrite (IH _ (with_after (view_pos v) q')).
  - cbn [mbind option_bind]. rewrite Hm. change (with_after (view_pos v) q') with (after v q'). by rewrite Hr.
  - by apply Hstep.
  - by rewrite filtersOf_after.
  - intros tok pos Htok. rewrite Hins. by apply Hstep.
  - intros tok tok'. by rewrite !Hins.
  - change (with_after (view_pos v) q') with (after v q'). rewrite Hr. rewrite Hm in Hw.
    by apply Forall_app in Hw as [_ ?].
  - change (with_after (view_pos v) q') with (after v q'). rewrite Hr. rewrite Hm, length_app in Hlt.
    destruct page; [done|]. simpl in Hlt. lia.
Qed.

(** C31: a listing's token is a place, not a session.  The token minted for a
    record under the filters of an accepted request continues that request
    at exactly that record, on every replica alike, and under other filters
    it is refused; this holds as long as the times in it have a year of four
    digits. *)
Theorem cursor_continues (values values' : Values) (q q' : CollectionQuery) (pos : CollectionPosition) :
  values !! cursorParam = None -> parse_list values = inl q ->
  values' !! cursorParam = None -> parse_list values' = inl q' ->
  ValidID (pos_ID pos) = true -> writable (pos_CreatedAt pos) = true ->
  (q_Since q = zero_time \/ writable (q_Since q) = true) ->
  parse_list (<[cursorParam := [encodeCursor pos (filtersOf q)]]> values')
  = if decide (filtersOf q = filtersOf q') then inl (with_after pos q')
    else inr (malformedParameter cursorParam).
Proof.
  intros Hn Hp Hn' Hp' Hid Hw Hs.
  rewrite (parse_list_cursor values' q' _ pos (filtersOf q) Hn' Hp').
  - case_decide as Hd; [by rewrite Hd, filters_equal_refl|].
    destruct (filters_equal (filtersOf q) (filtersOf q')) eqn:E; [|done]. by apply filters_equal_eq in E.
  - by apply (cursor_of_query values).
Qed.

(** C30: a client that follows the tokens reads the whole listing.  On caches that
    are synced and stay as they are, whose records were all created in a year
    of four digits, starting from a request that parses, names no position and
    has no [since] or one whose instant is, in UTC, in such a year, and sending
    each answer's token beside the same parameters, it is never refused, it
    stops, and what it has read is every record of the Service the filters
    admit, each once, newest first.  Without that condition on [since] the token
    of the first page can be refused: [minted_cursor_refused]. *)
Theorem paged_listing_complete (cur g : N) (ns svc : string) (values : Values) (q : CollectionQuery)
    (c : Caches) :
  index_ok c -> keys_valid c -> syncedLocked cur g [cacheJobs] c = true ->
  values !! cursorParam = None -> parse_list values = inl q ->
  (q_Since q = zero_time \/ writable (q_Since q) = true) ->
  (forall key j, jobs c !! key = Some j -> writable (cj_CreatedAt j) = true) ->
  exists l, StronglySorted listed_before l /\
    (forall v, v ∈ l <-> exists id j, jobs c !! jobKey id = Some j /\ job_ref j = (ns, svc) /\
       admits q j = true /\ v = view_of id j) /\
    forall fuel, (length l < fuel)%nat -> follow fuel cur g ns svc values c = Some l.
Proof.
  intros Hi Hk Hs Hn Hp Hsince Hw. destruct (parse_list_parsed values q Hn Hp) as (_ & _ & Ha).
  assert (forall v, v ∈ matching ns svc q c <-> exists id j, jobs c !! jobKey id = Some j /\
    job_ref j = (ns, svc) /\ admits q j = true /\ v = view_of id j) as Hm.
  { intros v. rewrite elem_of_matching, Ha by done. split; [naive_solver|].
    intros (id & j & ? & ? & ? & ?). exists id, j. repeat split; try done. by left. }
  exists (matching ns svc q c). split; [apply matching_sorted|]. split; [exact Hm|].
  intros fuel Hlt. apply (follow_pages cur g ns svc values q c) with (q' := q); try done.
  - intros tok pos Hd. rewrite (parse_list_cursor values q tok pos _ Hn Hp Hd). by rewrite filters_equal_refl.
  - intros tok tok'. apply insert_insert_eq.
  - apply Forall_forall. intros v (id & j & Hj & _ & _ & ->)%Hm. by apply (Hw _ _ Hj).
Qed.

Lemma read_bad_cursor (tok : string) :
  tok <> EmptyString -> decodeCursor tok = None ->
  list_read cursorParam [tok] = inr (malformedParameter cursorParam).
Proof.
  intros Hne Hd. unfold list_read. simpl String.eqb. cbv iota. unfold singleValue.
  destruct (String.eqb_spec tok EmptyString); [done|]. by rewrite Hd.
Qed.

(** A token that cannot be read is the request's only fault. *)
Lemma parse_list_bad_cursor (values : Values) (q : CollectionQuery) (tok : string) :
  values !! cursorParam = None -> parse_list values = inl q -> tok <> EmptyString -> decodeCursor tok = None ->
  parse_list (<[cursorParam := [tok]]> values) = inr (malformedParameter cursorParam).
Proof.
  intros Hn Hp Hne Hd. destruct (sorted_names_insert values cursorParam [tok] Hn) as (l1 & l2 & Hl' & Hl & H1 & H2).
  unfold parse_list in *. rewrite fold_list in *. rewrite Hl in Hp. rewrite Hl'.
  rewrite omap_app in *. rewrite faults_insert by done.
  destruct (omap (list_fault values) l1); [|done]. cbn [app omap list_omap]. unfold list_fault at 1, read_of.
  rewrite lookup_insert_eq. change (default [] (Some [tok])) with [tok].
  by rewrite read_bad_cursor.
Qed.

(** The filters of a request for what was created after half past midnight, one
    hour east of Greenwich, on the first day of the year 0000. *)
Definition early : CollectionQuery :=
  {| q_States := []; q_Since := -62167221000 * second; q_Origin := None; q_After := no_position; q_Limit := 0 |}.

(** A token can be refused by the gateway that minted it.  A [since]
    whose offset puts the instant before the first year of the era, as
    0000-01-01T00:30:00+01:00, is accepted, and the listing is answered; but
    the token of its first page, written in UTC, carries a year the reader
    does not accept, and the client that follows it is told the cursor is
    malformed. *)
Theorem minted_cursor_refused :
  let values : Values := {[ sinceParam := ["0000-01-01T00:30:00+01:00"%string] ]} in
  exists q, parse_list values = inl q /\
  forall pos, ValidID (pos_ID pos) = true -> writable (pos_CreatedAt pos) = true ->
    parse_list (<[cursorParam := [encodeCursor pos (filtersOf q)]]> values)
    = inr (malformedParameter cursorParam).
Proof.
  intros values. exists early. assert (parse_list values = inl early) as Hp by (vm_compute; reflexivity).
  split; [exact Hp|]. intros pos Hid Hw. apply (parse_list_bad_cursor values early);
    [by vm_compute|exact Hp|apply encode_nonempty|]. unfold encodeCursor. rewrite decode_fields.
  - rewrite rfc3339_roundtrip. unfold writable in Hw. rewrite Hw. cbn [mbind option_bind]. rewrite Hid.
    by vm_compute.
  - repeat constructor; [by apply format_plain|by apply ValidID_plain|..]; by vm_compute.
Qed.

(** ** The theorems at a concrete input *)

(** Two records a page apart. *)
Definition demo_values : Values := {[ limitParam := ["1"%string]; stateParam := ["pending"; "completed"]%string ]}.
Definition demo_parsed : CollectionQuery :=
  match parse_list {[ limitParam := ["1"%string] ]} with inl q => q | inr _ => early end.
Definition demo_pos : CollectionPosition := {| pos_CreatedAt := 0; pos_ID := "0123456789abcdefghjk" |}.

Lemma demo_writable (key : string) (j : cachedJob) :
  jobs demo_caches !! key = Some j -> writable (cj_CreatedAt j) = true.
Proof.
  assert (map_Forall (fun _ j => writable (cj_CreatedAt j) = true) (jobs demo_caches)) as H
    by (apply (bool_decide_eq_true_1 _); by vm_compute).
  apply H.
Qed.

Lemma cursor_continues_witness :
  ValidID (pos_ID demo_pos) = true /\
  exists q q', parse_list demo_values = inl q /\ parse_list {[ limitParam := ["7"%string] ]} = inl q' /\
    parse_list (<[cursorParam := [encodeCursor demo_pos (filtersOf q)]]> {[ limitParam := ["7"%string] ]})
    = inr (malformedParameter cursorParam).
Proof.
  split; [by vm_compute|].
  destruct (parse_list demo_values) as [q|] eqn:E; [|exfalso; by vm_compute in E].
  destruct (parse_list {[ limitParam := ["7"%string] ]}) as [q'|] eqn:E'; [|exfalso; by vm_compute in E'].
  exists q, q'. split; [done|]. split; [done|].
  rewrite (cursor_continues demo_values _ q q' demo_pos); [|by vm_compute|done|by vm_compute|done|by vm_compute..|].
  - vm_compute in E, E'. injection E as <-. injection E' as <-. by rewrite decide_False.
  - vm_compute in E. injection E as <-. by left.
Defined.

Lemma paged_listing_complete_witness :
  syncedLocked 1 1 [cacheJobs] demo_caches = true /\
  option_map (map vw_ID) (follow 3 1 1 "shop" "cart" {[ limitParam := ["1"%string] ]} demo_caches)
  = Some ["0123456789abcdefghjm"; "0123456789abcdefghjk"]%string /\
  exists l, forall fuel, (length l < fuel)%nat ->
    follow fuel 1 1 "shop" "cart" {[ limitParam := ["1"%string] ]} demo_caches = Some l.
Proof.
  split; [by vm_compute|]. split; [by vm_compute|].
  destruct (paged_listing_complete 1 1 "shop" "cart" {[ limitParam := ["1"%string] ]} demo_parsed demo_caches
    demo_index demo_keys) as (l & _ & _ & H); [by vm_compute..|by left|exact demo_writable|].
  exists l. exact H.
Defined.

Lemma minted_cursor_refused_witness :
  let values : Values := {[ sinceParam := ["0000-01-01T00:30:00+01:00"%string] ]} in
  exists q, parse_list values = inl q /\
    parse_list (<[cursorParam := [encodeCursor demo_pos (filtersOf q)]]> values)
    = inr (malformedParameter cursorParam).
Proof.
  destruct minted_cursor_refused as (q & Hq & H). exists q. split; [exact Hq|]. apply H; by vm_compute.
Defined.
