(* ===== verification/Lifecycle.v ===== *)
(** * The lifecycle of a Collection record

    The abstract specification the components that write [job.<id>] share: the
    states a Collection goes through and what each transition may change.  No
    file states it in one place; it is what the publisher (publisher.go), the
    worker (worker.go), the sweeper (sweeper.go), the session (runtime.go) and
    the cancel route (httpapi/pgo_collections.go) have to agree on for any
    interleaving of their conditional writes to leave a record one of them
    understands.

    [lawful K p] is the judgement each component proves of its programs: given
    the writes [K] the bucket has taken so far, every write of [p] creates an
    initial record, replaces a record the bucket took at the expected revision
    by a transition of it, or deletes one nobody needs; and it never panics.  System.v runs lawful
    programs against one bucket, interleaved. *)

From S2P Require Import Prelude Effects Ident Config Policy Records Keys Caches.

(** ** Transitions *)

Inductive allowed : State -> State -> Prop :=
  | al_publish : allowed StateInitializing StatePending
  | al_not_published : allowed StateInitializing StateFailed
  | al_claim : allowed StatePending StateRunning
  | al_not_claimed : allowed StatePending StateFailed
  | al_cancel_pending : allowed StatePending StateCancelled
  | al_run : allowed StateRunning StateRunning
  | al_complete : allowed StateRunning StateCompleted
  | al_fail : allowed StateRunning StateFailed
  | al_cancel_running : allowed StateRunning StateCancelled
  | al_expire : allowed StateCompleted StateExpired.

(** What a Collection is, fixed when it is created. *)
Definition same_identity (a b : Job) : Prop :=
  j_ID b = j_ID a /\ j_Namespace b = j_Namespace a /\ j_Service b = j_Service a /\
  j_Origin b = j_Origin a /\ j_Slot b = j_Slot a /\ j_ConfigRevision b = j_ConfigRevision a /\
  j_Policy b = j_Policy a /\ j_ClaimBy b = j_ClaimBy a /\
  j_IdempotencyKey b = j_IdempotencyKey a /\ j_SnapshotHash b = j_SnapshotHash a /\
  j_CreatedBy b = j_CreatedBy a /\ j_CreatedAt b = j_CreatedAt a.

(** One transition: the state graph; the identity; the attempt and its owner,
    which only a claim changes, raising the attempt by one; the start and the
    deadline, set once; a lease for as long as it runs; the end, stamped by
    whatever ends it; and a publication and an expiry that change nothing but
    the state. *)
Record transition (a b : Job) : Prop := {
  tr_allowed : allowed (j_State a) (j_State b);
  tr_identity : same_identity a b;
  tr_attempt : (j_Attempt b = j_Attempt a /\ j_Owner b = j_Owner a) \/
    (j_State b = StateRunning /\ j_Attempt b = j_Attempt a +! 1 /\ is_Some (j_Owner b));
  tr_started : is_Some (j_StartedAt a) ->
    j_StartedAt b = j_StartedAt a /\ j_Deadline b = j_Deadline a;
  tr_pending : j_State b = StatePending -> b = set_state StatePending a;
  tr_running : j_State b = StateRunning ->
    is_Some (j_LeaseUntil b) /\ (is_Some (j_Owner a) \/ is_Some (j_Owner b)) /\
    j_FinishedAt b = j_FinishedAt a /\ j_Artifact b = j_Artifact a /\
    (j_StartedAt a = None -> is_Some (j_StartedAt b) /\ is_Some (j_Deadline b));
  tr_ended : terminal (j_State b) = true -> is_Some (j_FinishedAt b) \/ j_State b = StateExpired;
  tr_unkept : j_State b = StateFailed \/ j_State b = StateCancelled ->
    j_Artifact a = None -> j_Artifact b = None;
  tr_completed : j_State b = StateCompleted -> is_Some (j_Artifact b) /\ is_Some (j_ExpiresAt b);
  tr_expired : j_State b = StateExpired -> b = set_state StateExpired a
}.

(** What a publication creates. *)
Record initial (r : Job) : Prop := {
  in_state : j_State r = StateInitializing;
  in_attempt : j_Attempt r = 0;
  in_owner : j_Owner r = None;
  in_started : j_StartedAt r = None;
  in_deadline : j_Deadline r = None;
  in_finished : j_FinishedAt r = None;
  in_artifact : j_Artifact r = None
}.

(** A record that may be deleted: one its creator has not published, or one
    whose end has been recorded and whose artifact is not the record's to keep. *)
Definition deletable (s : State) : Prop :=
  s = StateInitializing \/ s = StateExpired \/ s = StateFailed \/ s = StateCancelled.

(** A state nothing leaves but the expiry of a completed Collection. *)
Lemma terminal_final (a b : Job) :
  transition a b -> terminal (j_State a) = true ->
  j_State a = StateCompleted /\ j_State b = StateExpired.
Proof. intros H Ht. destruct (tr_allowed _ _ H); try done. Qed.

Lemma transition_completed (a b : Job) :
  transition a b -> j_State a = StateCompleted -> b = set_state StateExpired a.
Proof.
  intros H Ha. pose proof (tr_allowed _ _ H) as Hal. rewrite Ha in Hal. apply (tr_expired _ _ H).
  by inversion Hal.
Qed.

(** ** Well-formed records

    What the fields of a record hold in each state.  The fields are pointers in
    the code, and the components dereference those the state promises. *)
Definition well_formed (r : Job) : Prop :=
  match j_State r with
  | StateInitializing | StatePending =>
      j_Owner r = None /\ j_StartedAt r = None /\ j_FinishedAt r = None /\ j_Artifact r = None
  | StateRunning =>
      is_Some (j_Owner r) /\ is_Some (j_LeaseUntil r) /\ is_Some (j_StartedAt r) /\
      is_Some (j_Deadline r) /\ j_FinishedAt r = None /\ j_Artifact r = None
  | StateCompleted | StateExpired =>
      is_Some (j_StartedAt r) /\ is_Some (j_FinishedAt r) /\ is_Some (j_Artifact r) /\
      is_Some (j_ExpiresAt r)
  | StateFailed | StateCancelled => is_Some (j_FinishedAt r) /\ j_Artifact r = None
  | StateOther _ => False
  end.

Lemma initial_well_formed (r : Job) : initial r -> well_formed r.
Proof. intros H. unfold well_formed. by rewrite (in_state _ H), (in_owner _ H), (in_started _ H),
  (in_finished _ H), (in_artifact _ H). Qed.

Lemma transition_well_formed (a b : Job) : transition a b -> well_formed a -> well_formed b.
Proof.
  intros H. pose proof (tr_allowed _ _ H) as Hal. unfold well_formed.
  destruct (j_State b) eqn:Eb; try (by inversion Hal).
  - rewrite (tr_pending _ _ H Eb). by inversion Hal.
  - destruct (tr_running _ _ H Eb) as (Hl & Ho & -> & -> & Hn).
    assert (is_Some (j_Owner b)) as Hown.
    { destruct Ho as [Ho|Ho]; [|done]. destruct (tr_attempt _ _ H) as [[_ ->]|(_ & _ & ?)]; done. }
    inversion Hal as [| |E| | |E| | | |]; intros Hw; [naive_solver|].
    destruct Hw as (_ & _ & Hs & Hd & Hf & Ha). destruct (tr_started _ _ H Hs) as [-> ->]. done.
  - destruct (tr_completed _ _ H Eb) as [Ha He]. destruct (tr_ended _ _ H) as [Hf|?];
      [by rewrite Eb| |congruence]. inversion Hal as [| | | | | |E| | |]. intros (_ & _ & Hs & _).
    by destruct (tr_started _ _ H Hs) as [-> _].
  - destruct (tr_ended _ _ H) as [Hf|?]; [by rewrite Eb| |congruence].
    pose proof (tr_unkept _ _ H (or_introl Eb)) as Ha. inversion Hal; naive_solver.
  - destruct (tr_ended _ _ H) as [Hf|?]; [by rewrite Eb| |congruence].
    pose proof (tr_unkept _ _ H (or_intror Eb)) as Ha. inversion Hal; naive_solver.
  - rewrite (tr_expired _ _ H Eb). by inversion Hal.
Qed.


(** ** Writes the bucket has taken *)

Section lawful.
  Context {V St : Type} `{HW : Wire V} `{HC : Has St Caches}.
  Abbreviation prog := (Effects.prog V St).
  Abbreviation op := (Effects.op V St).

(** [K key rev v]: PROFGATE_JOBS took the value [v] at [key] with revision [rev]. *)
Definition log := string -> N -> V -> Prop.

Definition log_le (K K' : log) : Prop := forall k r v, K k r v -> K' k r v.

(** What is true of every log the components leave: a value at [job.<id>] is
    a well-formed record of that Collection; a revision names one value; and a
    Collection completes at most once. *)
Record log_ok (K : log) : Prop := {
  log_job : forall id r v, K (jobKey id) r v -> exists rec, dec_job v = Some rec /\ j_ID rec = id;
  log_rev : forall k r v v', K k r v -> K k r v' -> v = v';
  log_completed : forall id r r' v v' rec rec',
    K (jobKey id) r v -> K (jobKey id) r' v' ->
    dec_job v = Some rec -> dec_job v' = Some rec' ->
    j_State rec = StateCompleted -> j_State rec' = StateCompleted -> rec' = rec;
  log_wf : forall id r v rec, K (jobKey id) r v -> dec_job v = Some rec -> well_formed rec
}.

(** The job cache holds what watches delivered, values the bucket took, and the
    slot cache only slot keys. *)
Definition cache_ok (K : log) (c : Caches) : Prop :=
  (forall key j, jobs c !! key = Some j ->
    exists id v rec, key = jobKey id /\ K key (cj_Revision j) v /\ dec_job v = Some rec /\
      j = cached_of rec (cj_Revision j)) /\
  (forall key, is_Some (slots c !! key) -> has_prefix slotPrefix key = true).

(** What an answer can be, the bucket having taken [K].  An error says
    nothing: the write may have been taken.  A listing is of one prefix, which
    [kvView.Keys] of natskv/client.go filters by. *)
Definition answer_ok (K : log) {R : Type} (o : op R) : R -> Prop :=
  match o in Effects.op _ _ R return R -> Prop with
  | KvGet BJobs k => fun r => match r with Ok e => K k (e_revision e) (e_value e) | Err _ => True end
  | KvCreate BJobs k v => fun r => match r with Ok rev => K k rev v | Err _ => True end
  | KvUpdate BJobs k v _ => fun r => match r with Ok rev => K k rev v | Err _ => True end
  | KvKeys _ prefix => fun r =>
      match r with Ok keys => Forall (fun k => has_prefix prefix k = true) keys | Err _ => True end
  | Atomic f => fun r => exists st, cache_ok K (the st) /\ (f st).1 = r
  | _ => fun _ => True
  end.

(** What a call must satisfy. *)
Definition call_ok (K : log) {R : Type} (o : op R) : Prop :=
  match o with
  | KvCreate BJobs k v =>
      forall id, k = jobKey id -> exists rec, dec_job v = Some rec /\ j_ID rec = id /\ initial rec
  | KvUpdate BJobs k v expected =>
      exists id v0 old new, k = jobKey id /\ K k expected v0 /\ dec_job v0 = Some old /\
        dec_job v = Some new /\ j_ID new = id /\ transition old new
  | KvDelete BJobs k expected =>
      forall id, k = jobKey id ->
        exists v rec, K k expected v /\ dec_job v = Some rec /\ deletable (j_State rec)
  | Atomic f => forall K' st, cache_ok K' (the st) -> cache_ok K' (the (f st).2)
  | PanicOp => False
  | _ => True
  end.

(** Whatever is written meanwhile, every call of [p] is in order, and its
    result satisfies [Q]. *)
Fixpoint lawful (K : log) {A} (p : prog A) (Q : log -> A -> Prop) : Prop :=
  match p with
  | Ret a => Q K a
  | Vis o k =>
      call_ok K o /\
      forall K' r, log_le K K' -> log_ok K' -> answer_ok K' o r -> lawful K' (k r) Q
  end.

#[export] Instance log_le_preorder : PreOrder log_le.
Proof. split; unfold log_le; [by intros K|intros K1 K2 K3; eauto]. Qed.

Lemma call_ok_mono (K K' : log) {R} (o : op R) : log_le K K' -> call_ok K o -> call_ok K' o.
Proof.
  intros HK. destruct o; try done; destruct b; simpl; try done.
  - intros (id & v0 & old & new & ? & ? & ?). exists id, v0, old, new. eauto.
  - intros Hd id Hk. destruct (Hd id Hk) as (v & rec & ? & ?). eauto.
Qed.

Lemma lawful_mono (K K' : log) {A} (p : prog A) (Q Q' : log -> A -> Prop) :
  log_le K K' -> lawful K p Q -> (forall K2 K2' a, log_le K2 K2' -> Q K2 a -> Q' K2' a) ->
  lawful K' p Q'.
Proof.
  intros HK Hp HQ. revert K K' HK Hp. induction p as [a|R o k IH]; simpl; intros K K' HK Hp.
  - eauto.
  - destruct Hp as [Hc Hk]. split; [by eapply call_ok_mono|]. intros K2 r H2 Hok Ha.
    apply (IH r K2 K2); [done|]. apply Hk; [by trans K'|done..].
Qed.

(** The log only grows. *)
Lemma lawful_grows (K : log) {A} (p : prog A) (Q : log -> A -> Prop) :
  lawful K p Q -> lawful K p (fun K' a => log_le K K' /\ Q K' a).
Proof.
  intros Hp. assert (forall K1, log_le K K1 -> lawful K1 p Q ->
    lawful K1 p (fun K' a => log_le K K' /\ Q K' a)) as Hgen; [|by apply Hgen].
  clear Hp. induction p as [a|R o k IH]; simpl; intros K1 HK Hp; [done|].
  destruct Hp as [Hc Hk]. split; [done|]. intros K' r H1 H2 H3. apply IH; [by trans K1|by apply Hk].
Qed.

(** A weaker postcondition. *)
Lemma lawful_weaken (K : log) {A} (p : prog A) (Q Q' : log -> A -> Prop) :
  lawful K p Q -> (forall K' a, log_le K K' -> Q K' a -> Q' K' a) -> lawful K p Q'.
Proof.
  intros Hp%lawful_grows HQ. revert Hp.
  assert (forall K1, lawful K1 p (fun K' a => log_le K K' /\ Q K' a) -> lawful K1 p Q') as Hgen;
    [|apply Hgen].
  induction p as [a|R o k IH]; simpl; intros K1 Hp; [destruct Hp; by apply HQ|].
  destruct Hp as [Hc Hk]. split; [done|]. intros K' r H1 H2 H3. apply IH. by apply Hk.
Qed.

Lemma lawful_bind (K : log) {A B} (p : prog A) (f : A -> prog B) (Q : log -> B -> Prop) :
  lawful K p (fun K' a => lawful K' (f a) Q) -> lawful K (p ≫= f) Q.
Proof.
  revert K. induction p as [a|R o k IH]; intros K; [done|].
  change ((Vis o k) ≫= f) with (Vis o (fun r => k r ≫= f)). simpl. intros [Hc Hk].
  split; [done|]. intros K' r H1 H2 H3. apply IH. by apply Hk.
Qed.

(** The rule for a call and what follows it. *)
Lemma lawful_call (K : log) {R B} (o : op R) (f : R -> prog B) (Q : log -> B -> Prop) :
  call_ok K o ->
  (forall K' r, log_le K K' -> log_ok K' -> answer_ok K' o r -> lawful K' (f r) Q) ->
  lawful K (call o ≫= f) Q.
Proof. intros Hc Hk. split; [done|]. exact Hk. Qed.

(** A program of [unit] whose calls are all in order. *)
Definition orderly (K : log) {A} (p : prog A) : Prop := lawful K p (fun _ _ => True).

Lemma orderly_mono (K K' : log) {A} (p : prog A) : log_le K K' -> orderly K p -> orderly K' p.
Proof. intros HK Hp. by apply (lawful_mono K K' p _ _ HK Hp). Qed.

Lemma orderly_ret (K : log) {A} (a : A) : orderly K (mret a).
Proof. done. Qed.

Lemma orderly_bind (K : log) {A B} (p : prog A) (f : A -> prog B) :
  orderly K p -> (forall K' a, log_le K K' -> orderly K' (f a)) -> orderly K (p ≫= f).
Proof.
  intros Hp Hf. apply lawful_bind.
  assert (forall K1 (q : prog A), log_le K K1 -> orderly K1 q ->
    lawful K1 q (fun K' a => lawful K' (f a) (fun _ _ => True))) as Hgen.
  { intros K1 q. revert K1. induction q as [a|R o k IH]; intros K1 HK Hq; [by apply Hf|].
    destruct Hq as [Hc Hk]. split; [done|]. intros K' r H1 H2 H3.
    apply IH; [by trans K1|by apply Hk]. }
  by apply Hgen.
Qed.

(** A call that writes nothing to the jobs bucket, and then whatever follows. *)
Definition harmless {R} (o : op R) : Prop :=
  match o with
  | KvCreate BJobs _ _ | KvUpdate BJobs _ _ _ | KvDelete BJobs _ _ | Atomic _ | PanicOp => False
  | _ => True
  end.

Lemma lawful_harmless (K : log) {R B} (o : op R) (f : R -> prog B) (Q : log -> B -> Prop) :
  harmless o ->
  (forall K' r, log_le K K' -> log_ok K' -> answer_ok K' o r -> lawful K' (f r) Q) ->
  lawful K (call o ≫= f) Q.
Proof. intros Ho Hf. apply lawful_call; [|exact Hf]. destruct o; try done; by destruct b. Qed.

Lemma orderly_last (K : log) {R} (o : op R) : harmless o -> orderly K (call o).
Proof. intros Ho. split; [|done]. destruct o; try done; by destruct b. Qed.

Lemma orderly_for_each (K : log) {A} (l : list A) (body : A -> prog unit) :
  (forall K' x, log_le K K' -> x ∈ l -> orderly K' (body x)) -> orderly K (for_each l body).
Proof.
  revert K. induction l as [|x l IH]; intros K Hb; [done|]. cbn [for_each].
  change (orderly K (body x ≫= fun _ => for_each l body)). apply orderly_bind.
  - apply Hb; [done|]. apply list_elem_of_here.
  - intros K' [] HK. apply IH. intros K2 y H2 Hy. apply Hb; [by trans K'|].
    by apply list_elem_of_further.
Qed.

(** Reading a part of memory. *)
Lemma lawful_reading (K : log) {A R B} `{Has St A} (g : A -> R) (f : R -> prog B)
    (Q : log -> B -> Prop) :
  (forall K' st, log_le K K' -> log_ok K' -> cache_ok K' (the st) -> lawful K' (f (g (the st))) Q) ->
  lawful K (reading g ≫= f) Q.
Proof.
  intros Hf. apply lawful_call; [by intros K' st|].
  intros K' r HK Hok (st & Hst & <-). by apply Hf.
Qed.

(** A critical section on a part of memory that is not the caches. *)
Lemma locked_lawful (K : log) {A R B} `{HA : Has St A} `{HAP : !Apart St A Caches}
    (g : A -> R * A) (f : R -> prog B) (Q : log -> B -> Prop) :
  (forall K' r, log_le K K' -> log_ok K' -> lawful K' (f r) Q) ->
  lawful K (locked g ≫= f) Q.
Proof.
  intros Hf. apply lawful_call; [|intros K' r HK Hok _; by apply Hf].
  intros K' st Hst. simpl. destruct (g (the st)) as [r p]. simpl. by rewrite apart.
Qed.

Lemma locked_orderly (K : log) {A R} `{HA : Has St A} `{HAP : !Apart St A Caches}
    (g : A -> R * A) : orderly K (locked g).
Proof.
  split; [|done]. intros K' st Hst. simpl. destruct (g (the st)) as [r p]. simpl. by rewrite apart.
Qed.
End lawful.
