(* ===== verification/Runtime.v ===== *)
(** * The runtime: reads, conditional writes, and the session

    src/internal/pgo/runtime.go: the fresh reads every component makes past the
    caches, the release of an active key, and the operations of [Session], the
    generation-bound view a request works from.  Each is a program over the
    calls of Effects.v, so whatever the store answers is covered. *)

From S2P Require Import Prelude Effects Ident Config Policy Records Keys Caches Lifecycle.

Definition APIClaimGrace : duration := 1 * hour.

(** An error that wraps none of natskv's sentinels. *)
Abbreviation failed := (Err ErrOther).

Section runtime.
  Context {V St : Type} `{Wire V} `{Has St Caches}.
  Abbreviation prog := (Effects.prog V St).

(** [logTransition]. *)
Definition logTransition (rec : Job) : prog unit :=
  call (Emit (LogTransition (j_ID rec) (j_Namespace rec) (j_Service rec)
    (state_name (j_State rec)) (j_Attempt rec) (j_Reason rec))).

(** [readJob]: [Ok None] is a record that no longer exists. *)
Definition readJob (id : string) : prog (result (option Job)) :=
  r ← call (KvGet BJobs (jobKey id));
  mret match r with
       | Err ErrKeyNotFound => Ok None
       | Err e => Err e
       | Ok e => match dec_job (e_value e) with
                 | None => failed
                 | Some rec => Ok (Some rec)
                 end
       end.

(** [readReceipt]: [Ok None] is a key with no receipt. *)
Definition readReceipt (key : string) : prog (result (option (Receipt * N))) :=
  r ← call (KvGet BJobs key);
  mret match r with
       | Err ErrKeyNotFound => Ok None
       | Err e => Err e
       | Ok e => match dec_receipt (e_value e) with
                 | None => failed
                 | Some rc => Ok (Some (rc, e_revision e))
                 end
       end.

(** [releaseActive]: the key is deleted at the revision it was read at, and
    only while it names this Collection. *)
Definition releaseActive (rec : Job) : prog unit :=
  r ← call (KvGet BJobs (activeKey (j_Namespace rec) (j_Service rec)));
  match r with
  | Err _ => mret tt
  | Ok e =>
      match dec_active (e_value e) with
      | None => mret tt
      | Some v =>
          if negb (String.eqb (av_ID v) (j_ID rec)) then mret tt
          else
            _ ← call (KvDelete BJobs (activeKey (j_Namespace rec) (j_Service rec)) (e_revision e));
            mret tt
      end
  end.

(** ** The session *)

(** [Runtime.Session]: [bound] is whether [Bind] has run.  The answer is the
    generation the session is bound to. *)
Definition Session (bound : bool) : prog (result N) :=
  if negb bound then mret (Err ErrUnavailable)
  else
    gen ← call Generation;
    connected ← call Connected;
    if negb connected then mret (Err ErrUnavailable)
    else
      watched ← call (WatchSynced gen);
      if negb watched then mret (Err ErrUnavailable)
      else
        replayed ← reading (Synced gen);
        if negb replayed then mret (Err ErrUnavailable)
        else
          v ← call (View gen);
          mret match v with Err e => Err e | Ok _ => Ok gen end.

(** [StoredRecord], less the bytes a reader is served. *)
Record StoredRecord := { st_Record : Job; st_Value : V; st_Revision : N }.

(** [Session.ReadRecord]. *)
Definition ReadRecord (id : string) : prog (result StoredRecord) :=
  r ← call (KvGet BJobs (jobKey id));
  mret match r with
       | Err e => Err e
       | Ok e => match dec_job (e_value e) with
                 | None => failed
                 | Some rec => Ok {| st_Record := rec; st_Value := e_value e;
                                     st_Revision := e_revision e |}
                 end
       end.

(** [Session.WriteRecord]. *)
Definition WriteRecord (rec : Job) (revision : N) : prog (result unit) :=
  match MarshalBounded (enc_job rec) with
  | SerializeFailed | RecordTooLarge => mret failed
  | Marshalled value =>
      r ← call (KvUpdate BJobs (jobKey (j_ID rec)) value revision);
      mret match r with Err e => Err e | Ok _ => Ok tt end
  end.

(** [Session.ReadReceipt]. *)
Definition ReadReceipt (key : string) : prog (result (Receipt * N)) :=
  r ← readReceipt key;
  mret match r with
       | Err e => Err e
       | Ok None => Err ErrKeyNotFound
       | Ok (Some p) => Ok p
       end.

(** [Session.DeleteReceipt]. *)
Definition DeleteReceipt (key : string) (revision : N) : prog (result unit) :=
  call (KvDelete BJobs key revision).

(** [Session.ReadOverride]. *)
Definition ReadOverride (ns svc : string) : prog (result (StoredOverride * N)) :=
  r ← call (KvGet BConfig (overrideKey ns svc));
  mret match r with
       | Err e => Err e
       | Ok e => match dec_override (e_value e) with
                 | None => failed
                 | Some o => Ok (o, e_revision e)
                 end
       end.

(** [Session.CreateOverride]. *)
Definition CreateOverride (ns svc : string) (stored : StoredOverride) : prog (result N) :=
  match MarshalBounded (enc_override stored) with
  | SerializeFailed | RecordTooLarge => mret failed
  | Marshalled value => call (KvCreate BConfig (overrideKey ns svc) value)
  end.

(** [Session.UpdateOverride]. *)
Definition UpdateOverride (ns svc : string) (stored : StoredOverride) (revision : N) :
    prog (result N) :=
  match MarshalBounded (enc_override stored) with
  | SerializeFailed | RecordTooLarge => mret failed
  | Marshalled value => call (KvUpdate BConfig (overrideKey ns svc) value revision)
  end.

(** [Session.DeleteOverride]. *)
Definition DeleteOverride (ns svc : string) (revision : N) : prog (result unit) :=
  call (KvDelete BConfig (overrideKey ns svc) revision).

(** [Session.CachedOverride]; [gen] is the session's generation. *)
Definition CachedOverride (gen : N) (ns svc : string) : prog (result (option PolicyOverride * N)) :=
  cur ← call Generation;
  r ← reading (Override cur gen ns svc);
  mret (let '(o, revision, ok) := r in if negb ok then Err ErrUnavailable else Ok (o, revision)).

(** [Session.Collections]. *)
Definition SessionCollections (gen : N) (ns svc : string) (q : CollectionQuery) :
    prog (result (list CollectionView * bool)) :=
  cur ← call Generation;
  r ← reading (Collections cur gen ns svc q);
  mret (let '(views, more, ok) := r in if negb ok then Err ErrUnavailable else Ok (views, more)).

(** [Session.Live]. *)
Definition SessionLive (gen : N) (ns svc : string) : prog (result bool) :=
  cur ← call Generation;
  r ← reading (Live cur gen ns svc);
  mret (let '(live, ok) := r in if negb ok then Err ErrUnavailable else Ok live).

(** [Session.Effective]: the overrides onto the defaults, in order. *)
Fixpoint layer (p : Policy) (l : list (option PolicyOverride)) : Policy :=
  match l with
  | [] => p
  | o :: l' => layer (Effective p o) l'
  end.
Definition SessionEffective (defaults : Policy) (lim : PGOLimits) (l : list (option PolicyOverride)) :
    Policy * list Violation :=
  let p := layer defaults l in (p, Validate p lim).

(** [Session.RecordTransition]. *)
Definition RecordTransition (rec : Job) : prog unit :=
  _ ← logTransition rec;
  call (Emit (Metric "collection" (state_name (j_State rec)))).

(** [Session.ExpireGoneArtifact]. *)
Definition ExpireGoneArtifact (stored : StoredRecord) : prog bool :=
  let rec := set_state StateExpired (st_Record stored) in
  r ← WriteRecord rec (st_Revision stored);
  match r with
  | Err e =>
      if bool_decide (e = ErrRevisionMismatch) then mret false
      else _ ← call (Emit (Metric "store_failure" "expire")); mret false
  | Ok _ => _ ← RecordTransition rec; mret true
  end.

(** The zero [CollectionQuery]. *)
Definition zero_query : CollectionQuery :=
  {| q_States := []; q_Since := zero_time; q_Origin := None;
     q_After := {| pos_CreatedAt := zero_time; pos_ID := EmptyString |}; q_Limit := 0 |}.

Definition artifact_object (rec : Job) : string :=
  match j_Artifact rec with None => EmptyString | Some a => ar_Object a end.

(** The loop of [Session.LatestCompleted] over the candidates.  The reader it
    returns open is the object the last call got. *)
Fixpoint latest_from (candidates : list CollectionView) : prog (result StoredRecord) :=
  match candidates with
  | [] => mret (Err ErrKeyNotFound)
  | v :: rest =>
      if negb (bool_decide (vw_State v = StateCompleted)) then latest_from rest
      else
        r ← ReadRecord (vw_ID v);
        match r with
        | Err ErrKeyNotFound => latest_from rest
        | Err e => mret (Err e)
        | Ok stored =>
            if negb (bool_decide (j_State (st_Record stored) = StateCompleted)) then latest_from rest
            else
              let object := artifact_object (st_Record stored) in
              if String.eqb object EmptyString
              then _ ← ExpireGoneArtifact stored; latest_from rest
              else
                body ← call (ObjGet object);
                match body with
                | Ok _ => mret (Ok stored)
                | Err ErrObjectNotFound => _ ← ExpireGoneArtifact stored; latest_from rest
                | Err e => mret (Err e)
                end
        end
  end.

(** [Session.LatestCompleted]. *)
Definition LatestCompleted (gen : N) (ns svc : string) : prog (result StoredRecord) :=
  cur ← call Generation;
  r ← reading (Collections cur gen ns svc zero_query);
  let '(candidates, _, ok) := r in
  if negb ok then mret (Err ErrUnavailable) else latest_from candidates.
End runtime.
Arguments StoredRecord : clear implicits.

(** ** Which of these calls write, and what they learn *)

Section runtime_lawful.
  Context {V St : Type} `{HW : Wire V} `{HL : !WireLaws V} `{HC : Has St Caches}.
  Abbreviation prog := (Effects.prog V St).

(** [rec] is what the bucket took at [job.<id>] with revision [rev]. *)
Definition taken (K : log (V:=V)) (id : string) (rev : N) (rec : Job) : Prop :=
  exists v, K (jobKey id) rev v /\ dec_job v = Some rec.

Lemma taken_mono (K K' : log (V:=V)) id rev rec : log_le K K' -> taken K id rev rec -> taken K' id rev rec.
Proof. intros HK (v & ? & ?). exists v. eauto. Qed.

(** An update of a record the bucket took by a transition of it. *)
Lemma update_call_ok (K : log (V:=V)) (id : string) (rev : N) (old new : Job) (v : V) :
  taken K id rev old -> enc_job new = Some v -> transition old new -> j_ID new = id ->
  call_ok (St:=St) K (KvUpdate BJobs (jobKey id) v rev).
Proof.
  intros (v0 & HK & Hd) Hv Ht Hid. exists id, v0, old, new.
  eauto 10 using dec_enc_job.
Qed.

Lemma key_not_job (k id : string) : has_prefix jobPrefix k = false -> k <> jobKey id.
Proof. intros Hk ->. unfold jobKey, has_prefix in Hk. by rewrite cut_prefix_app in Hk. Qed.

(** A write whose key is not a record's. *)
Lemma create_other (K : log (V:=V)) (k : string) (v : V) :
  has_prefix jobPrefix k = false -> call_ok (St:=St) K (KvCreate BJobs k v).
Proof. intros Hk id ->. by destruct (key_not_job _ id Hk). Qed.
Lemma delete_other (K : log (V:=V)) (k : string) (rev : N) :
  has_prefix jobPrefix k = false -> call_ok (St:=St) K (KvDelete BJobs k rev).
Proof. intros Hk id ->. by destruct (key_not_job _ id Hk). Qed.

Lemma readJob_lawful (K : log (V:=V)) (id : string) {B} (f : result (option Job) -> prog B)
    (Q : log -> B -> Prop) :
  (forall K' r, log_le K K' -> log_ok K' -> lawful K' (f r) Q) -> lawful K (readJob id ≫= f) Q.
Proof.
  intros Hf. unfold readJob. apply lawful_call; [done|]. intros K' r HK Hok _.
  exact (Hf K' _ HK Hok).
Qed.

Lemma readReceipt_lawful (K : log (V:=V)) (key : string) {B}
    (f : result (option (Receipt * N)) -> prog B) (Q : log -> B -> Prop) :
  (forall K' r, log_le K K' -> log_ok K' -> lawful K' (f r) Q) ->
  lawful K (readReceipt key ≫= f) Q.
Proof.
  intros Hf. unfold readReceipt. apply lawful_call; [done|]. intros K' r HK Hok _.
  exact (Hf K' _ HK Hok).
Qed.

Lemma activeKey_not_job (ns svc : string) : has_prefix jobPrefix (activeKey ns svc) = false.
Proof. reflexivity. Qed.

Lemma logTransition_lawful (K : log (V:=V)) (rec : Job) {B} (f : unit -> prog B)
    (Q : log -> B -> Prop) :
  (forall K', log_le K K' -> log_ok K' -> lawful K' (f tt) Q) ->
  lawful K (logTransition rec ≫= f) Q.
Proof.
  intros Hf. apply lawful_harmless; [done|]. intros K' [] HK Hok _. by apply Hf.
Qed.

Lemma releaseActive_lawful (K : log (V:=V)) (rec : Job) (Q : log -> unit -> Prop) :
  (forall K', log_le K K' -> Q K' tt) -> lawful K (releaseActive (St:=St) rec) Q.
Proof.
  intros Hf. unfold releaseActive. apply lawful_harmless; [done|].
  intros K' r HK _ _. destruct r as [e|]; [|by apply Hf].
  destruct (dec_active (e_value e)) as [v|]; [|by apply Hf].
  case_match; [by apply Hf|]. split; [apply delete_other, activeKey_not_job|].
  intros K2 d H2 _ _. apply Hf. by trans K'.
Qed.

Lemma ReadRecord_lawful (K : log (V:=V)) (id : string) {B} (f : result (StoredRecord V) -> prog B)
    (Q : log -> B -> Prop) :
  (forall K' r, log_le K K' -> log_ok K' ->
    (forall s, r = Ok s -> taken K' id (st_Revision s) (st_Record s) /\ j_ID (st_Record s) = id) ->
    lawful K' (f r) Q) ->
  lawful K (ReadRecord id ≫= f) Q.
Proof.
  intros Hf. unfold ReadRecord. apply lawful_call; [done|]. intros K' r HK Hok Ha.
  apply (Hf K' _ HK Hok). intros s Hs. destruct r as [e|]; [|done].
  destruct (dec_job (e_value e)) as [rec|] eqn:Hd; [|done]. injection Hs as <-. simpl in *.
  destruct (log_job _ Hok _ _ _ Ha) as (rec' & Hd' & Hid). assert (rec' = rec) as -> by congruence.
  split; [by exists (e_value e)|done].
Qed.

Lemma WriteRecord_lawful (K : log (V:=V)) (old new : Job) (rev : N) {B} (f : result unit -> prog B)
    (Q : log -> B -> Prop) :
  taken K (j_ID new) rev old -> transition old new ->
  (forall K' r, log_le K K' -> log_ok K' -> lawful K' (f r) Q) ->
  log_ok K -> lawful K (WriteRecord new rev ≫= f) Q.
Proof.
  intros Hk Ht Hf Hok. unfold WriteRecord.
  destruct (MarshalBounded (enc_job new)) as [v| |] eqn:Hm; [|by apply Hf..].
  apply MarshalBounded_Some in Hm as [Hm _]. apply lawful_call; [by eapply update_call_ok|].
  intros K' r HK Hok' _. by apply (Hf K').
Qed.

Lemma expire_transition (rec : Job) :
  j_State rec = StateCompleted ->
  transition rec (set_state StateExpired rec).
Proof.
  intros Hs. split; simpl; try done; try (rewrite Hs; constructor); auto.
Qed.
End runtime_lawful.

(** ** [LatestCompleted] *)

Section latest.
  Context {V St : Type} `{HW : Wire V} `{HC : Has St Caches}.
  Abbreviation history := (list (Effects.event V St)).

(** Why the walk passed a candidate over, in the calls it made. *)
Definition gone_from (h : history) (id : string) : Prop :=
  Ev (KvGet BJobs (jobKey id)) (Err ErrKeyNotFound) ∈ h \/
  exists e rec, Ev (KvGet BJobs (jobKey id)) (Ok e) ∈ h /\ dec_job (e_value e) = Some rec /\
    (j_State rec <> StateCompleted \/ artifact_object rec = EmptyString \/
     Ev (ObjGet (artifact_object rec)) (Err ErrObjectNotFound) ∈ h).

Lemma gone_from_mono (h h' : history) (id : string) : h ⊆ h' -> gone_from h id -> gone_from h' id.
Proof. unfold gone_from. intros Hs [?|(e & rec & ? & ? & ?)]; [left; auto|right]. naive_solver. Qed.

(** The walk started with the candidates [pre] passed over. *)
Definition latest_post (h0 : history) (l : list CollectionView) (r : result (StoredRecord V))
    (h : history) : Prop :=
  match r with
  | Err ErrKeyNotFound =>
      (forall v, v ∈ l -> vw_State v = StateCompleted -> gone_from h (vw_ID v)) \/
      exists object, Ev (ObjGet object) (Err ErrKeyNotFound) ∈ h
  | Err _ => True
  | Ok s =>
      j_State (st_Record s) = StateCompleted /\
      (exists h1, h = Ev (ObjGet (artifact_object (st_Record s))) (Ok tt) :: h1) /\
      exists pre v post, l = pre ++ v :: post /\ vw_State v = StateCompleted /\
        (exists e, Ev (KvGet BJobs (jobKey (vw_ID v))) (Ok e) ∈ h /\
          dec_job (e_value e) = Some (st_Record s) /\ st_Revision s = e_revision e) /\
        forall u, u ∈ pre -> vw_State u = StateCompleted -> gone_from h (vw_ID u)
  end.

(** The flip makes calls and returns; what they are is not this lemma's. *)
Lemma WriteRecord_grows (rec : Job) (rev : N) {B} (f : result unit -> Effects.prog V St B)
    (h : history) (Q : B -> history -> Prop) :
  (forall r h', h ⊆ h' -> wp any_op (f r) h' Q) -> wp any_op (WriteRecord rec rev ≫= f) h Q.
Proof.
  intros Hf. unfold WriteRecord. destruct (MarshalBounded (enc_job rec)); [|by apply Hf..].
  split; [done|]. intros r. apply Hf. set_solver.
Qed.

Lemma ExpireGoneArtifact_grows (s : StoredRecord V) {B} (f : bool -> Effects.prog V St B)
    (h : history) (Q : B -> history -> Prop) :
  (forall b h', h ⊆ h' -> wp any_op (f b) h' Q) -> wp any_op (ExpireGoneArtifact s ≫= f) h Q.
Proof.
  intros Hf. unfold ExpireGoneArtifact. apply wp_bind, WriteRecord_grows. intros r h' Hs.
  destruct r as [|e].
  - split; [done|]. intros []. split; [done|]. intros []. apply Hf. set_solver.
  - case_match; [by apply Hf|]. split; [done|]. intros []. apply Hf. set_solver.
Qed.

(** The walk after one more candidate has been passed over. *)
Lemma latest_post_cons (h0 : history) v l r h :
  (vw_State v = StateCompleted -> gone_from h (vw_ID v)) ->
  latest_post h0 l r h -> latest_post h0 (v :: l) r h.
Proof.
  intros Hv. destruct r as [s|[]]; simpl; try done.
  - intros (Hs & Hh & pre & w & post & -> & Hw & He & Hpre). split; [done|]. split; [done|].
    exists (v :: pre), w, post. repeat split; [done..|]. intros u [->|Hu]%elem_of_cons; auto.
  - intros [Hl|?]; [left|by right]. intros u [->|Hu]%elem_of_cons; auto.
Qed.

Lemma latest_from_wp (l : list CollectionView) (h : history) :
  wp any_op (latest_from (St:=St) l) h (fun r h' => h ⊆ h' /\ latest_post h l r h').
Proof.
  revert h. induction l as [|v l IH]; intros h.
  { simpl. split; [done|]. left. intros v Hv. by apply not_elem_of_nil in Hv. }
  assert (forall h1, h ⊆ h1 -> (vw_State v = StateCompleted -> gone_from h1 (vw_ID v)) ->
    wp any_op (latest_from l) h1 (fun r h' => h ⊆ h' /\ latest_post h (v :: l) r h')) as Hnext.
  { intros h1 Hs Hg. eapply wp_mono; [apply IH|]. intros r h' [Hs' Hp]. split; [by etrans|].
    apply latest_post_cons; [|exact Hp]. intros Hv. eapply gone_from_mono; [exact Hs'|auto]. }
  cbn [latest_from]. case_bool_decide as Hc; [|apply Hnext; [done|congruence]].
  cbn [negb]. split; [done|]. intros r. cbn beta.
  set (h1 := Ev (KvGet BJobs (jobKey (vw_ID v))) r :: h).
  assert (h ⊆ h1) as Hs1 by set_solver.
  assert (Ev (KvGet BJobs (jobKey (vw_ID v))) r ∈ h1) as Hin1 by set_solver.
  destruct r as [e|[]]; cbn; try by split.
  2:{ apply Hnext; [done|]. intros _. by left. }
  destruct (dec_job (e_value e)) as [rec|] eqn:Hd; cbn; [|by split].
  case_bool_decide as Hst; cbn [negb].
  2:{ apply Hnext; [done|]. intros _. right. exists e, rec. auto. }
  destruct (String.eqb_spec (artifact_object rec) "") as [Ho|Ho].
  { apply ExpireGoneArtifact_grows. intros _ h2 Hs2. apply Hnext; [by etrans|].
    intros _. right. exists e, rec. auto. }
  split; [done|]. intros body. set (h2 := Ev (ObjGet (artifact_object rec)) body :: h1).
  assert (h1 ⊆ h2) as Hs2 by set_solver.
  assert (Ev (ObjGet (artifact_object rec)) body ∈ h2) as Hin2 by set_solver.
  destruct body as [[]|[]]; cbn; try (split; [by etrans|exact I]).
  - split; [by etrans|]. split; [done|]. split; [by eexists|]. exists [], v, l.
    split; [done|]. split; [done|]. split; [|by intros u Hu%not_elem_of_nil].
    exists e. simpl. auto.
  - split; [by etrans|]. right. eauto.
  - apply ExpireGoneArtifact_grows. intros _ h3 Hs3. apply Hnext; [set_solver|].
    intros _. right. exists e, rec. split; [auto|]. auto.
Qed.
End latest.

(** What [LatestCompleted] answers is what it confirmed.  On success the
    record was read fresh as completed, its artifact is the object the last
    call opened, and every candidate the cache called completed ahead of it was
    read and found gone, no longer completed, or without its object.  "Not
    found" is answered only when that holds of every candidate (or when the
    store answered a read of an object that way), and a store that cannot be
    read is reported instead. *)
Theorem LatestCompleted_confirmed {V St} `{Wire V} `{Has St Caches} (gen : N) (ns svc : string)
    (r : result (StoredRecord V)) (h : list (event V St)) :
  exec (LatestCompleted gen ns svc) [] h r ->
  exists candidates ok, (ok = false -> r = Err ErrUnavailable) /\
    (ok = true -> latest_post [] candidates r h).
Proof.
  intros Hex. destruct Hex as [cur Hex]. destruct Hex as [[[candidates more] ok] Hex].
  exists candidates, ok. destruct ok; cbn in Hex; [split; [done|intros _]|].
  - set (h0 := [_; _]) in Hex.
    destruct (wp_exec _ _ _ _ _ _ (latest_from_wp candidates h0) Hex) as [[_ Hp] _].
    destruct r as [s|[]]; exact Hp.
  - destruct Hex as [<- _]. by split.
Qed.

(** ** A completed Collection the walk cannot see

    The candidates are one page of the unfiltered listing, so a hundred newer
    Collections that did not complete hide a completed one. *)

Definition listed_job (id : string) (s : State) (createdAt : time) : string * cachedJob :=
  (jobKey id, {| cj_Namespace := "shop"; cj_Service := "cart"; cj_State := s; cj_Revision := 1;
     cj_Origin := OriginAPI; cj_Attempt := 1; cj_ResolvedVersion := "v1"; cj_CreatedAt := createdAt;
     cj_Artifact := ""; cj_FinishedAt := Some createdAt; cj_ExpiresAt := None; cj_ClaimBy := 0;
     cj_LeaseUntil := None; cj_Deadline := None |}).

Fixpoint record_all (l : list (string * cachedJob)) (c : Caches) : Caches :=
  match l with
  | [] => c
  | (key, j) :: l' => record_all l' (recordJob key j c)
  end.

(** The oldest Collection completed; the hundred since then failed. *)
Definition crowded : Caches :=
  record_all
    (listed_job "00000000000000000000" StateCompleted 0
     :: ((fun n => listed_job ("1000000000000000" +:+ pretty (1000 + n)%nat) StateFailed (Z.of_nat n))
         <$> seq 1 100))
    (set_barrier (fun _ => 1%N) (fun _ => true) (startAttempt NewCaches)).

Lemma record_all_index (l : list (string * cachedJob)) (c : Caches) :
  index_ok c -> index_ok (record_all l c).
Proof.
  revert c. induction l as [|[key j] l IH]; intros c Hc; [done|]. by apply IH, recordJob_index.
Qed.

(** C40: the walk can miss the Collection it is asked for.  There is a cache,
    its index in order, in which the Service has a completed Collection (the
    listing filtered to completed ones shows it), and whose candidates make
    [LatestCompleted] answer "not found" without reading anything. *)
Theorem LatestCompleted_misses_older :
  exists c : Caches,
    index_ok c /\
    vw_ID <$> (Collections 1 1 "shop" "cart"
      {| q_States := [StateCompleted]; q_Since := zero_time; q_Origin := None;
         q_After := {| pos_CreatedAt := zero_time; pos_ID := "" |}; q_Limit := 1 |} c).1.1
      = ["00000000000000000000"] /\
    latest_from (V:=tagged) (St:=Caches) (Collections 1 1 "shop" "cart" zero_query c).1.1
      = mret (Err ErrKeyNotFound).
Proof.
  exists crowded. split; [|split; by vm_compute].
  apply record_all_index. eapply index_ok_ext; [..|exact NewCaches_index]; done.
Qed.

Lemma LatestCompleted_confirmed_witness :
  exists h, exec (LatestCompleted (V:=tagged) (St:=Caches) 1 "shop" "cart") [] h
      (Ok {| st_Record := completed_job; st_Value := TJob completed_job; st_Revision := 9 |}) /\
    exists candidates ok, (ok = true -> latest_post [] candidates
      (Ok {| st_Record := completed_job; st_Value := TJob completed_job; st_Revision := 9 |}) h).
Proof.
  eexists. split.
  - exists 1%N, ([view_of "0123456789abcdefghjk" (cached_of completed_job 9)], false, true),
      (Ok (Entry (TJob completed_job) 9 0)), (Ok tt). split; reflexivity.
  - edestruct (LatestCompleted_confirmed (V:=tagged) (St:=Caches) 1 "shop" "cart"
      (Ok {| st_Record := completed_job; st_Value := TJob completed_job; st_Revision := 9 |}))
      as (cands & ok & _ & Hp); [|exists cands, ok; exact Hp].
    exists 1%N, ([view_of "0123456789abcdefghjk" (cached_of completed_job 9)], false, true),
      (Ok (Entry (TJob completed_job) 9 0)), (Ok tt). split; reflexivity.
Defined.

(** ** The session's writes are transitions *)

Section session_lawful.
  Context {V St : Type} `{HW : Wire V} `{HL : !WireLaws V} `{HC : Has St Caches}.

Lemma ExpireGoneArtifact_orderly (K : log) (s : StoredRecord V) {B}
    (f : bool -> Effects.prog V St B) :
  taken K (j_ID (st_Record s)) (st_Revision s) (st_Record s) ->
  j_State (st_Record s) = StateCompleted -> log_ok K ->
  (forall K' b, log_le K K' -> log_ok K' -> orderly K' (f b)) ->
  orderly K (ExpireGoneArtifact s ≫= f).
Proof.
  intros Ht Hs Hok Hf. unfold ExpireGoneArtifact. apply lawful_bind.
  apply (WriteRecord_lawful K (st_Record s)); [exact Ht|by apply expire_transition| |exact Hok].
  intros K' r HK Hok'. destruct r as [u|e].
  - apply lawful_bind. apply lawful_bind, lawful_harmless; [done|]. intros K2 [] H2 Hok2 _.
    split; [done|]. intros K3 [] H3 Hok3 _. apply Hf; [|done]. trans K'; [done|]. by trans K2.
  - case_match; [by apply Hf|]. split; [done|]. intros K2 [] H2 Hok2 _. apply Hf; [|done].
    by trans K'.
Qed.
End session_lawful.
