(* ===== verification/Publisher.v ===== *)
(** * The publisher

    src/internal/pgo/publisher.go: the reservation counter of the
    live-Collection ceiling, the writes of one publication, and the release
    rule.  A [Reservation] is a heap object, so the state keeps the objects by
    address beside [held], the list of those not yet given back. *)

From S2P Require Import Prelude Effects Ident Config Policy Records Sha256 Keys Caches.
From S2P Require Import Lifecycle Runtime.

(** ** Reservations *)

Record Reservation := { rs_ref : serviceRef; rs_id : string; rs_done : bool }.

Record PubState := {
  reservations : gmap N Reservation;
  held : list N;
  next_reservation : N
}.

Definition NewPublisher : PubState :=
  {| reservations := ∅; held := []; next_reservation := 0 |}.

Inductive reserve_result :=
  | Reserved (r : N)
  | CapacityExhausted
  | CachesMoved.

(** The critical section of [Reserve]; [live] is what [cachedLive] answers in it. *)
Definition reserve (maxLive : Z) (live : Z * bool) (ref : serviceRef) (p : PubState) :
    reserve_result * PubState :=
  let '(n, ok) := live in
  if negb ok then (CachesMoved, p)
  else if maxLive <=? n +! Z.of_nat (length (held p)) then (CapacityExhausted, p)
  else
    let r := next_reservation p in
    (Reserved r,
     {| reservations := <[r := {| rs_ref := ref; rs_id := EmptyString; rs_done := false |}]>
          (reservations p);
        held := held p ++ [r]; next_reservation := r + 1 |}).

(** [Track]. *)
Definition track (r : N) (id : string) (p : PubState) : PubState :=
  match reservations p !! r with
  | None => p
  | Some res =>
      {| reservations := <[r := {| rs_ref := rs_ref res; rs_id := id; rs_done := rs_done res |}]>
           (reservations p);
         held := held p; next_reservation := next_reservation p |}
  end.

(** The loop of [releaseLocked]: the first entry that is this reservation. *)
Fixpoint remove_held (r : N) (l : list N) : list N :=
  match l with
  | [] => []
  | x :: l' => if (x =? r)%N then l' else x :: remove_held r l'
  end.

(** [releaseLocked]. *)
Definition releaseLocked (r : N) (p : PubState) : PubState :=
  match reservations p !! r with
  | None => p
  | Some res =>
      if rs_done res then p
      else
        {| reservations := <[r := {| rs_ref := rs_ref res; rs_id := rs_id res; rs_done := true |}]>
             (reservations p);
           held := remove_held r (held p); next_reservation := next_reservation p |}
  end.

(** The snapshot [ReleaseResolved] takes: the reservations a publication has bound. *)
Definition pending_reservations (p : PubState) : list (N * string * serviceRef) :=
  omap (fun r =>
    match reservations p !! r with
    | None => None
    | Some res =>
        if String.eqb (rs_id res) EmptyString then None else Some (r, rs_id res, rs_ref res)
    end) (held p).

(** ** Publication *)

(** [PublishInput]. *)
Record PublishInput := {
  in_Namespace : string;
  in_Service : string;
  in_Origin : Origin;
  in_Slot : time;
  in_ClaimBy : time;
  in_ConfigRevision : N;
  in_Policy : Policy;
  in_CreatedBy : string;
  in_IdempotencyKey : string
}.

Inductive Outcome := OutcomeWon | OutcomeBusy.

(** What [Publish] returns beside the identifier. *)
Inductive published :=
  | Published (o : Outcome)
  | PublishFailed (e : store_err).

(** [t.UTC().Format(time.RFC3339)]: the civil date of the days since the epoch
    and the time of day, in digits. *)
Definition civil (days : Z) : Z * Z * Z :=
  let z := days + 719468 in
  let era := z / 146097 in
  let doe := z mod 146097 in
  let yoe := (doe - doe / 1460 + doe / 36524 - doe / 146096) / 365 in
  let doy := doe - (365 * yoe + yoe / 4 - yoe / 100) in
  let mp := (5 * doy + 2) / 153 in
  let m := if mp <? 10 then mp + 3 else mp - 9 in
  (yoe + era * 400 + (if m <=? 2 then 1 else 0), m, doy - (153 * mp + 2) / 5 + 1).

Fixpoint zeros (n : nat) : string :=
  match n with O => EmptyString | S n' => String "0" (zeros n') end.

(** At least [width] digits. *)
Definition padded (width : nat) (z : Z) : string :=
  let s := pretty (Z.abs z) in
  (if z <? 0 then "-" else EmptyString) +:+ zeros (width - String.length s) +:+ s.

Definition rfc3339 (t : time) : string :=
  let secs := unix t in
  let '(y, m, d) := civil (secs / 86400) in
  let s := secs mod 86400 in
  padded 4 y +:+ "-" +:+ padded 2 m +:+ "-" +:+ padded 2 d +:+ "T" +:+
  padded 2 (s / 3600) +:+ ":" +:+ padded 2 (s / 60 mod 60) +:+ ":" +:+ padded 2 (s mod 60) +:+ "Z".

Example rfc3339_epoch : rfc3339 0 = "1970-01-01T00:00:00Z".
Proof. reflexivity. Qed.
Example rfc3339_leap : rfc3339 (1709210096 * second) = "2024-02-29T12:34:56Z".
Proof. vm_compute. reflexivity. Qed.

Section publisher.
  Context {V St : Type} `{HW : Wire V} `{HC : Has St Caches} `{HP : Has St PubState}.
  Abbreviation prog := (Effects.prog V St).
  (** [pgo.limits.maxLiveCollections]. *)
  Variable maxLive : Z.

(** [Reserve]: the cached count and the append, under the publisher's mutex. *)
Definition Reserve (gen : N) (ns svc : string) : prog reserve_result :=
  cur ← call Generation;
  call (Atomic (fun st =>
    let '(r, p) := reserve maxLive (cachedLive cur gen (the st)) (ns, svc) (the st) in
    (r, put p st))).

Definition Track (r : N) (id : string) : prog unit := locked (fun p => (tt, track r id p)).
Definition Release (r : N) : prog unit := locked (fun p => (tt, releaseLocked r p)).

(** [Reserved]. *)
Definition ReservedCount : prog Z := reading (fun p => Z.of_nat (length (held p))).

(** [record]. *)
Definition record (id : string) (now : time) (i : PublishInput) : Job :=
  {| j_ID := id; j_Namespace := in_Namespace i; j_Service := in_Service i;
     j_Origin := in_Origin i;
     j_Slot := if in_Slot i =? zero_time then EmptyString else rfc3339 (in_Slot i);
     j_ConfigRevision := in_ConfigRevision i; j_Policy := in_Policy i;
     j_State := StateInitializing; j_Attempt := 0; j_Owner := None; j_ClaimBy := in_ClaimBy i;
     j_LeaseUntil := None; j_Deadline := None; j_Reason := EmptyString;
     j_ResolvedVersion := EmptyString;
     j_Progress := {| pr_Round := 0; pr_Rounds := 0; pr_SamplesOK := 0; pr_SamplesFailed := 0 |};
     j_Manifest := None; j_Artifact := None; j_IdempotencyKey := in_IdempotencyKey i;
     j_SnapshotHash := SnapshotHash (V:=V) (in_Policy i); j_CreatedBy := in_CreatedBy i;
     j_CreatedAt := now; j_StartedAt := None; j_FinishedAt := None; j_ExpiresAt := None |}.

(** [createActive]. *)
Definition createActive (id : string) (now : time) (i : PublishInput) : prog (result N) :=
  match enc_active {| av_ID := id; av_CreatedAt := now |} with
  | None => mret failed
  | Some value => call (KvCreate BJobs (activeKey (in_Namespace i) (in_Service i)) value)
  end.

(** [discardLostRecord]. *)
Definition discardLostRecord (res : N) (id : string) (rev : N) : prog unit :=
  r ← call (KvDelete BJobs (jobKey id) rev);
  if err_is r ErrUnavailable then Track res id else Release res.

Definition receipt_key (i : PublishInput) : string :=
  ReceiptKey (in_CreatedBy i) (in_Namespace i) (in_Service i) (in_IdempotencyKey i).

(** The second half of [createReceipt]: the key exists. *)
Definition replaceReceipt (id : string) (i : PublishInput) (value : V) : prog (result unit) :=
  let key := receipt_key i in
  r ← readReceipt key;
  match r with
  | Err _ | Ok None => mret (Err ErrKeyExists)
  | Ok (Some (existing, rev)) =>
      if String.eqb (rc_ID existing) id then mret (Ok tt)
      else
        j ← readJob (rc_ID existing);
        match j with
        | Err _ | Ok (Some _) => mret (Err ErrKeyExists)
        | Ok None =>
            d ← call (KvDelete BJobs key rev);
            match d with
            | Err e => mret (Err e)
            | Ok _ =>
                c ← call (KvCreate BJobs key value);
                mret match c with Err e => Err e | Ok _ => Ok tt end
            end
        end
  end.

(** [createReceipt]. *)
Definition createReceipt (id : string) (now : time) (hash : string) (i : PublishInput) :
    prog (result unit) :=
  match enc_receipt {| rc_ID := id; rc_SnapshotHash := hash; rc_CreatedAt := now |} with
  | None => mret failed
  | Some value =>
      let key := receipt_key i in
      first ← call (KvCreate BJobs key value);
      r ← (if err_is first ErrUnavailable then call (KvCreate BJobs key value) else mret first);
      if negb (err_is r ErrKeyExists)
      then mret match r with Err e => Err e | Ok _ => Ok tt end
      else replaceReceipt id i value
  end.

(** [withdraw]. *)
Definition withdraw (id : string) (rev activeRev : N) (i : PublishInput) : prog unit :=
  _ ← call (KvDelete BJobs (jobKey id) rev);
  _ ← call (KvDelete BJobs (activeKey (in_Namespace i) (in_Service i)) activeRev);
  mret tt.

(** The end of [Publish]: the update to pending. *)
Definition publishPending (rec : Job) (rev : N) : prog (string * published) :=
  let rec' := set_state StatePending rec in
  match MarshalBounded (enc_job rec') with
  | SerializeFailed | RecordTooLarge => mret (j_ID rec, PublishFailed ErrOther)
  | Marshalled pending =>
      u ← call (KvUpdate BJobs (jobKey (j_ID rec)) pending rev);
      match u with
      | Err e => mret (j_ID rec, PublishFailed e)
      | Ok _ => _ ← logTransition rec'; mret (j_ID rec, Published OutcomeWon)
      end
  end.

(** The part of [Publish] that follows the record's create. *)
Definition continuePublish (res : N) (rec : Job) (rev : N) (now : time) (i : PublishInput) :
    prog (string * published) :=
  let id := j_ID rec in
  a ← createActive id now i;
  if err_is a ErrKeyExists then
    _ ← discardLostRecord res id rev;
    mret (id, Published OutcomeBusy)
  else
    _ ← Track res id;
    match a with
    | Err e => mret (id, PublishFailed e)
    | Ok activeRev =>
        if negb (String.eqb (in_IdempotencyKey i) EmptyString) then
          rr ← createReceipt id now (j_SnapshotHash rec) i;
          match rr with
          | Err e => _ ← withdraw id rev activeRev i; mret (id, PublishFailed e)
          | Ok _ => publishPending rec rev
          end
        else publishPending rec rev
    end.

(** [Publish], of the identifier [newID] drew. *)
Definition publishAs (id : string) (res : N) (i : PublishInput) : prog (string * published) :=
  now ← call Now;
  let rec := record id now i in
  match MarshalBounded (enc_job rec) with
  | SerializeFailed | RecordTooLarge => _ ← Release res; mret (id, PublishFailed ErrOther)
  | Marshalled value =>
      c ← call (KvCreate BJobs (jobKey id) value);
      match c with
      | Err e =>
          if bool_decide (e = ErrUnavailable)
          then _ ← Track res id; mret (id, PublishFailed e)
          else _ ← Release res; mret (id, PublishFailed e)
      | Ok rev => _ ← logTransition rec; continuePublish res rec rev now i
      end
  end.

Definition Publish (res : N) (i : PublishInput) : prog (string * published) :=
  id ← newID; publishAs id res i.

(** ** The release rule *)

(** [resolved]. *)
Definition resolved (id : string) (ref : serviceRef) : prog bool :=
  cached ← reading (hasJob id);
  if (cached : bool) then mret true
  else
    active ← reading (activeID ref.1 ref.2);
    if bool_decide (active = Some id) then mret true
    else
      j ← readJob id;
      match j with
      | Err _ => mret false
      | Ok rec =>
          if (match rec with None => false | Some rec => negb (terminal (j_State rec)) end)
          then mret false
          else
            e ← call (KvGet BJobs (activeKey ref.1 ref.2));
            mret match e with
                 | Err ErrKeyNotFound => true
                 | Err _ => false
                 | Ok e => match dec_active (e_value e) with
                           | None => false
                           | Some v => negb (String.eqb (av_ID v) id)
                           end
                 end
      end.

(** [ReleaseResolved]. *)
Definition ReleaseResolved : prog unit :=
  pending ← reading pending_reservations;
  for_each pending (fun t : N * string * serviceRef =>
    let '(r, id, ref) := t in
    over ← resolved id ref;
    if (over : bool) then Release r else mret tt).
End publisher.

(** ** The order of a publication's writes *)

Section order.
  Context {V St : Type} `{HW : Wire V} `{HL : !WireLaws V} `{HC : Has St Caches}
    `{HP : Has St PubState}.
  Abbreviation history := (list (event V St)).
  Variables (id : string) (i : PublishInput).

(** The bucket acknowledged the creation of [v] at [k] with revision [rev]. *)
Definition created (h : history) (k : string) (v : V) (rev : N) : Prop :=
  Ev (KvCreate BJobs k v) (Ok rev) ∈ h.

Definition record_created (h : history) (rev : N) : Prop :=
  exists v rec, created h (jobKey id) v rev /\ dec_job v = Some rec /\ j_ID rec = id /\ initial rec.

Definition active_created (h : history) (rev : N) : Prop :=
  exists v a, created h (activeKey (in_Namespace i) (in_Service i)) v rev /\
    dec_active v = Some a /\ av_ID a = id.

(** The receipt of the request names this Collection: its creation was
    acknowledged, or a read of the key found it there. *)
Definition receipt_bound (h : history) : Prop :=
  exists v rc, dec_receipt v = Some rc /\ rc_ID rc = id /\
    ((exists rev, created h (receipt_key i) v rev) \/
     (exists e, Ev (KvGet BJobs (receipt_key i)) (Ok e) ∈ h /\ e_value e = v)).

(** A receipt that binds nothing: it was read at this revision, and a read of
    the record it names answered that there is none. *)
Definition receipt_stale (h : history) (rev : N) : Prop :=
  exists e rc, Ev (KvGet BJobs (receipt_key i)) (Ok e) ∈ h /\ e_revision e = rev /\
    dec_receipt (e_value e) = Some rc /\ rc_ID rc <> id /\
    Ev (KvGet BJobs (jobKey (rc_ID rc))) (Err ErrKeyNotFound) ∈ h.

(** What each write of a publication follows. *)
Definition publish_call (h : history) (R : Type) (o : op V St R) : Prop :=
  match o with
  | KvCreate b k v =>
      b = BJobs /\
      (k = jobKey id \/
       (k = activeKey (in_Namespace i) (in_Service i) /\ exists rev, record_created h rev) \/
       (k = receipt_key i /\ in_IdempotencyKey i <> EmptyString /\ exists rev, active_created h rev))
  | KvUpdate b k v expected =>
      b = BJobs /\ k = jobKey id /\ record_created h expected /\
      (exists rev, active_created h rev) /\
      (in_IdempotencyKey i <> EmptyString -> receipt_bound h) /\
      exists rec, dec_job v = Some rec /\ j_State rec = StatePending
  | KvDelete b k expected =>
      b = BJobs /\
      ((k = jobKey id /\ record_created h expected) \/
       (k = activeKey (in_Namespace i) (in_Service i) /\ active_created h expected) \/
       (k = receipt_key i /\ receipt_stale h expected))
  | ObjPut _ _ | ObjDelete _ => False
  | _ => True
  end.

Lemma record_created_mono (h h' : history) rev :
  h ⊆ h' -> record_created h rev -> record_created h' rev.
Proof. unfold record_created, created. intros Hs (v & rec & ? & ?). exists v, rec. auto. Qed.
Lemma active_created_mono (h h' : history) rev :
  h ⊆ h' -> active_created h rev -> active_created h' rev.
Proof. unfold active_created, created. intros Hs (v & a & ? & ?). exists v, a. auto. Qed.
Lemma receipt_bound_mono (h h' : history) : h ⊆ h' -> receipt_bound h -> receipt_bound h'.
Proof.
  unfold receipt_bound, created. intros Hs (v & rc & ? & ? & [[rev ?]|(e & ? & ?)]);
    exists v, rc; eauto 10.
Qed.

Lemma sub_here (h : history) {R} (o : op V St R) (r : R) : Ev o r ∈ Ev o r :: h.
Proof. apply list_elem_of_here. Qed.

(** The tail of [createReceipt], a stale receipt included. *)
Lemma replaceReceipt_wp (value : V) (rc : Receipt) (h : history) (rev : N) :
  in_IdempotencyKey i <> EmptyString -> active_created h rev ->
  dec_receipt value = Some rc -> rc_ID rc = id ->
  wp publish_call (replaceReceipt id i value) h
    (fun r h' => h ⊆ h' /\ (r = Ok tt -> receipt_bound h')).
Proof.
  intros Hkey Ha Hd Hid. unfold replaceReceipt, readReceipt. split; [done|]. intros g.
  set (h1 := Ev (KvGet BJobs (receipt_key i)) g :: h). assert (h ⊆ h1) as S1 by set_solver.
  destruct g as [e|[]]; cbn; try (by split).
  destruct (dec_receipt (e_value e)) as [ex|] eqn:Hex; cbn; [|by split].
  destruct (String.eqb_spec (rc_ID ex) id) as [Heq|Hne]; cbn.
  { split; [done|]. intros _. exists (e_value e), ex. split; [done|]. split; [done|]. right.
    exists e. split; [apply sub_here|done]. }
  split; [done|]. intros j. set (h2 := Ev (KvGet BJobs (jobKey (rc_ID ex))) j :: h1).
  assert (h1 ⊆ h2) as S2 by set_solver.
  destruct j as [je|[]]; cbn; try (split; [by etrans|done]).
  - by destruct (dec_job (e_value je)); cbn; (split; [by etrans|]).
  - split.
    { split; [done|]. right; right. split; [done|]. exists e, ex. repeat split; try done.
      - apply S2, sub_here.
      - apply sub_here. }
    intros d. set (h3 := Ev (KvDelete BJobs (receipt_key i) (e_revision e)) d :: h2).
    assert (h2 ⊆ h3) as S3 by set_solver.
    assert (h ⊆ h3) as S13 by (trans h1; [done|]; by trans h2).
    destruct d as [[]|err]; cbn; [|split; [done|done]]. split.
    { split; [done|]. right; right. split; [done|]. split; [done|]. exists rev.
      by eapply active_created_mono. }
    intros c. set (h4 := Ev (KvCreate BJobs (receipt_key i) value) c :: h3).
    assert (h3 ⊆ h4) as S4 by set_solver. destruct c as [rv|]; cbn; (split; [by trans h3|]); [|done].
    intros _. exists value, rc. split; [done|]. split; [done|]. left. exists rv. apply sub_here.
Qed.

Lemma createReceipt_wp (now : time) (hash : string) (h : history) (rev : N) :
  in_IdempotencyKey i <> EmptyString -> active_created h rev ->
  wp publish_call (createReceipt id now hash i) h
    (fun r h' => h ⊆ h' /\ (r = Ok tt -> receipt_bound h')).
Proof.
  intros Hkey Ha. unfold createReceipt.
  destruct (enc_receipt _) as [value|] eqn:Henc; [|by split].
  apply dec_enc_receipt in Henc.
  assert (forall h', active_created h' rev -> publish_call h' _ (KvCreate BJobs (receipt_key i) value))
    as Hcall by (intros h' H'; split; [done|]; right; right; eauto).
  assert (forall h1 (r : result N), h ⊆ h1 -> (forall rv, r = Ok rv -> receipt_bound h1) ->
    wp publish_call (if negb (err_is r ErrKeyExists)
      then mret match r with Err e => Err e | Ok _ => Ok tt end else replaceReceipt id i value) h1
      (fun r h' => h ⊆ h' /\ (r = Ok tt -> receipt_bound h'))) as Hend.
  { intros h1 r S1 Hb. destruct (negb (err_is r ErrKeyExists)).
    { destruct r; cbn; (split; [done|]); [by eauto|done]. }
    eapply wp_mono; [eapply replaceReceipt_wp; eauto using active_created_mono|].
    intros ? h' [? ?]. split; [by etrans|done]. }
  assert (forall h' rv, created h' (receipt_key i) value rv -> receipt_bound h') as Hbound
    by (intros h' rv Hc; eexists value, _; eauto 10).
  apply wp_call; [by apply Hcall|]. intros first.
  set (h1 := Ev (KvCreate BJobs (receipt_key i) value) first :: h).
  assert (h ⊆ h1) as S1 by set_solver. destruct (err_is first ErrUnavailable) eqn:Hu.
  - apply wp_call; [apply Hcall; by eapply active_created_mono|]. intros r. apply Hend; [set_solver|].
    intros rv ->. eapply Hbound, sub_here.
  - apply (Hend h1 first); [done|]. intros rv ->. eapply Hbound, sub_here.
Qed.

Lemma publishPending_wp (rec : Job) (rev arev : N) (h : history) :
  j_ID rec = id -> record_created h rev -> active_created h arev ->
  (in_IdempotencyKey i <> EmptyString -> receipt_bound h) ->
  wp publish_call (publishPending (St:=St) rec rev) h
    (fun r h' => r.2 = Published OutcomeWon -> exists v rv,
      Ev (KvUpdate BJobs (jobKey id) v rev) (Ok rv) ∈ h').
Proof.
  intros Hid Hr Ha Hb. unfold publishPending.
  destruct (MarshalBounded _) as [v| |] eqn:Hm; [|done..].
  apply MarshalBounded_Some in Hm as [Hm%dec_enc_job _]. rewrite Hid. apply wp_call.
  - split; [done|]. split; [done|]. split; [done|]. split; [by eauto|]. split; [done|]. by eauto.
  - intros [rv|e]; [|done]. split; [done|]. intros [] _. exists v, rv.
    apply list_elem_of_further, sub_here.
Qed.

Lemma continuePublish_wp (res : N) (rec : Job) (rev : N) (now : time) (h : history) :
  j_ID rec = id -> record_created h rev ->
  wp publish_call (continuePublish res rec rev now i) h
    (fun r h' => r.2 = Published OutcomeWon -> exists v rv,
      Ev (KvUpdate BJobs (jobKey id) v rev) (Ok rv) ∈ h').
Proof.
  intros Hid Hr. unfold continuePublish, createActive. rewrite Hid.
  destruct (enc_active _) as [value|] eqn:Henc; [|by split].
  apply dec_enc_active in Henc. apply wp_call; [split; [done|]; right; left; by eauto|].
  intros a. set (h1 := Ev _ a :: h). assert (h ⊆ h1) as S1 by set_solver.
  destruct (err_is a ErrKeyExists) eqn:Hlost.
  - apply wp_call.
    { split; [done|]. left. split; [done|]. by eapply record_created_mono. }
    intros d. by destruct (err_is d ErrUnavailable); split.
  - apply wp_call; [done|]. intros []. set (h2 := Ev _ tt :: h1).
    assert (h1 ⊆ h2) as S2 by set_solver. assert (h ⊆ h2) as S12 by (by etrans).
    destruct a as [arev|e]; [|done].
    assert (active_created h2 arev) as Ha.
    { exists value, {| av_ID := id; av_CreatedAt := now |}. split; [|done].
      apply list_elem_of_further, sub_here. }
    destruct (String.eqb_spec (in_IdempotencyKey i) "") as [Hk|Hk]; cbn [negb].
    + by apply (publishPending_wp rec rev arev); [|eapply record_created_mono| |].
    + apply wp_bind. eapply wp_mono; [by apply (createReceipt_wp now _ h2 arev)|].
      intros r h3 [S3 Hb]. destruct r as [[]|e].
      * by apply (publishPending_wp rec rev arev);
          [|eapply record_created_mono; [|done]; by trans h2|eapply active_created_mono|auto].
      * apply wp_call; [|intros d; apply wp_call; [|done]].
        -- split; [done|]. left. split; [done|]. eapply record_created_mono; [|done]. by trans h2.
        -- split; [done|]. right; left. split; [done|]. eapply active_created_mono; [|done].
           set_solver.
Qed.

Lemma record_initial (now : time) : initial (record (V:=V) id now i).
Proof. by constructor. Qed.

(** C13: the order of a publication's writes.  Whatever every call answers,
    [Publish] creates no active key before the bucket has acknowledged the
    record it names, no receipt before the active key, and makes the record
    claimable only after both and, when the request carried a key, only once
    the receipt names this Collection.  It deletes only what it created, at the
    revision it was created at, or a receipt it read at that revision whose
    record a fresh read found gone.  "Won" is answered only after the update to
    pending was acknowledged. *)
Theorem Publish_order (res : N) (h : history) (r : string * published) :
  exec (publishAs id res i) [] h r ->
  calls_ok publish_call [] h /\
  (r.2 = Published OutcomeWon -> exists v rev rv,
    record_created h rev /\ Ev (KvUpdate BJobs (jobKey id) v rev) (Ok rv) ∈ h).
Proof.
  intros Hex. apply and_comm. revert Hex. set (Q := fun (r : string * published) h =>
    r.2 = Published OutcomeWon -> exists v rev rv,
      record_created h rev /\ Ev (KvUpdate BJobs (jobKey id) v rev) (Ok rv) ∈ h).
  apply (wp_exec publish_call (publishAs id res i) [] Q). unfold publishAs. apply wp_call; [done|]. intros now.
  destruct (MarshalBounded _) as [v| |] eqn:Hm; [|by split..].
  apply MarshalBounded_Some in Hm as [Hm%dec_enc_job _].
  apply wp_call; [split; [done|by left]|]. intros [rev|e].
  - set (h1 := Ev _ (Ok rev) :: _).
    assert (record_created h1 rev) as Hr.
    { exists v, (record id now i). split; [apply sub_here|]. split; [done|]. split; [done|].
      apply record_initial. }
    apply wp_call; [done|]. intros [].
    set (h2 := Ev _ tt :: h1).
    assert (record_created h2 rev) as Hr' by (apply (record_created_mono h1); [set_solver|done]).
    eapply wp_mono; [by apply wp_grows, (continuePublish_wp res (record id now i) rev now)|].
    intros r' h' [Hs HQ] Hwon. destruct (HQ Hwon) as (v' & rv & Hu). exists v', rev, rv.
    split; [by eapply record_created_mono|done].
  - case_bool_decide; by split.
Qed.
End order.

(** ** A publication is lawful *)

Section publish_lawful.
  Context {V St : Type} `{HW : Wire V} `{HL : !WireLaws V} `{HC : Has St Caches}
    `{HP : Has St PubState} `{HA : !Apart St PubState Caches}.
  Abbreviation log := (Lifecycle.log (V:=V)).

Lemma Track_lawful (K : log) (r : N) (id : string) {B} (f : unit -> Effects.prog V St B)
    (Q : log -> B -> Prop) :
  (forall K' x, log_le K K' -> log_ok K' -> lawful K' (f x) Q) -> lawful K (Track r id ≫= f) Q.
Proof. apply (locked_lawful K (A:=PubState)). Qed.

Lemma Release_lawful (K : log) (r : N) {B} (f : unit -> Effects.prog V St B)
    (Q : log -> B -> Prop) :
  (forall K' x, log_le K K' -> log_ok K' -> lawful K' (f x) Q) -> lawful K (Release r ≫= f) Q.
Proof. apply (locked_lawful K (A:=PubState)). Qed.

Lemma delete_initial (K : log) (id : string) (rev : N) (rec : Job) :
  taken K id rev rec -> initial rec ->
  call_ok (St:=St) K (KvDelete BJobs (jobKey id) rev).
Proof.
  intros (v & HK & Hd) Hi id' Hid. apply jobKey_inj in Hid as <-. exists v, rec.
  split; [done|]. split; [done|]. left. apply in_state, Hi.
Qed.

Lemma receipt_key_not_job (i : PublishInput) : has_prefix jobPrefix (receipt_key i) = false.
Proof. reflexivity. Qed.

Lemma replaceReceipt_lawful (K : log) (id : string) (i : PublishInput) (v : V) :
  orderly K (replaceReceipt (St:=St) id i v).
Proof.
  unfold replaceReceipt. apply readReceipt_lawful. intros K1 r H1 _.
  destruct r as [[[ex rev]|]|e]; [|done..]. case_match; [done|].
  apply readJob_lawful. intros K2 j H2 _. destruct j as [[rec|]|]; [done| |done].
  apply lawful_call; [apply delete_other, receipt_key_not_job|]. intros K3 d H3 _ _.
  destruct d; [|done]. apply lawful_call; [apply create_other, receipt_key_not_job|].
  by intros K4 [].
Qed.

Lemma createReceipt_lawful (K : log) (id : string) (now : time) (hash : string) (i : PublishInput) :
  orderly K (createReceipt (St:=St) id now hash i).
Proof.
  unfold createReceipt. destruct (enc_receipt _) as [v|]; [|done].
  assert (forall K, call_ok (St:=St) K (KvCreate BJobs (receipt_key i) v)) as Hc
    by (intros K'; apply create_other, receipt_key_not_job).
  assert (forall K (r : result N), orderly K (if negb (err_is r ErrKeyExists)
    then mret match r with Err e => Err e | Ok _ => Ok tt end
    else replaceReceipt (St:=St) id i v)) as Hend.
  { intros K' r. case_match; [done|]. apply replaceReceipt_lawful. }
  apply lawful_call; [apply Hc|]. intros K1 first H1 _ _. destruct (err_is first ErrUnavailable).
  - apply lawful_call; [apply Hc|]. intros K2 r H2 _ _. apply Hend.
  - apply (Hend K1 first).
Qed.

Lemma publishPending_lawful (K : log) (rec : Job) (rev : N) :
  taken K (j_ID rec) rev rec -> initial rec -> orderly K (publishPending (St:=St) rec rev).
Proof.
  intros Ht Hi. unfold publishPending. destruct (MarshalBounded _) as [v| |] eqn:Hm; [|done..].
  apply MarshalBounded_Some in Hm as [Hm _]. apply lawful_call.
  - eapply update_call_ok; [exact Ht|exact Hm| |done].
    split; simpl; try done; [rewrite (in_state _ Hi); constructor|by left].
  - intros K' [rv|e] HK Hok _; [|done]. apply logTransition_lawful. done.
Qed.

Lemma continuePublish_lawful (K : log) (res : N) (rec : Job) (rev : N) (now : time)
    (i : PublishInput) :
  taken K (j_ID rec) rev rec -> initial rec ->
  orderly K (continuePublish (St:=St) res rec rev now i).
Proof.
  intros Ht Hi. unfold continuePublish.
  assert (forall K2 (a : result N), log_le K K2 ->
    orderly K2 (if err_is a ErrKeyExists then
      _ ← discardLostRecord (V:=V) (St:=St) res (j_ID rec) rev;
      mret (j_ID rec, Published OutcomeBusy)
    else
      _ ← Track res (j_ID rec);
      match a with
      | Err e => mret (j_ID rec, PublishFailed e)
      | Ok activeRev =>
          if negb (String.eqb (in_IdempotencyKey i) EmptyString) then
            rr ← createReceipt (j_ID rec) now (j_SnapshotHash rec) i;
            match rr with
            | Err e => _ ← withdraw (j_ID rec) rev activeRev i; mret (j_ID rec, PublishFailed e)
            | Ok _ => publishPending rec rev
            end
          else publishPending rec rev
      end)) as Hrest.
  { intros K2 a H2. pose proof (taken_mono K K2 _ _ _ H2 Ht) as Ht2. case_match.
    - apply lawful_call; [by eapply delete_initial|]. intros K3 d _ _ _.
      by destruct (err_is d ErrUnavailable); [apply Track_lawful|apply Release_lawful].
    - apply Track_lawful. intros K3 [] H3 _. pose proof (taken_mono K2 K3 _ _ _ H3 Ht2) as Ht3.
      destruct a as [arev|]; [|done]. case_match; [|by apply publishPending_lawful].
      apply orderly_bind; [apply createReceipt_lawful|]. intros K4 rr H4.
      pose proof (taken_mono K3 K4 _ _ _ H4 Ht3) as Ht4.
      destruct rr; [by apply publishPending_lawful|].
      apply lawful_call; [by eapply delete_initial|]. intros K5 d H5 _ _.
      apply lawful_call; [apply delete_other, activeKey_not_job|]. done. }
  unfold createActive. destruct (enc_active _) as [v|].
  - apply lawful_call; [apply create_other, activeKey_not_job|]. intros K2 a H2 _ _. by apply Hrest.
  - by apply (Hrest K failed).
Qed.

Lemma Publish_lawful (K : log) (res : N) (i : PublishInput) : orderly K (Publish (St:=St) res i).
Proof.
  unfold Publish. apply orderly_bind.
  { apply lawful_harmless; done. }
  intros K1 id _. unfold publishAs. apply lawful_harmless; [done|]. intros K2 now _ _ _.
  destruct (MarshalBounded _) as [v| |] eqn:Hm; [|by apply Release_lawful..].
  apply MarshalBounded_Some in Hm as [Hm%dec_enc_job _]. apply lawful_call.
  { intros id' <-%jobKey_inj. exists (record (V:=V) id now i).
    split; [done|]. split; [done|apply record_initial]. }
  intros K3 c H3 _ Hc. destruct c as [rev|e].
  - apply logTransition_lawful. intros K4 H4 _.
    apply (continuePublish_lawful K4 res (record (V:=V) id now i)); [|apply record_initial].
    exists v. split; [by apply H4|done].
  - case_bool_decide; [by apply Track_lawful|by apply Release_lawful].
Qed.

Lemma Reserve_lawful (K : log) (maxLive : Z) (gen : N) (ns svc : string) {B}
    (f : reserve_result -> Effects.prog V St B) (Q : log -> B -> Prop) :
  (forall K' r, log_le K K' -> log_ok K' -> lawful K' (f r) Q) ->
  lawful K (Reserve maxLive gen ns svc ≫= f) Q.
Proof.
  intros Hf. unfold Reserve. apply lawful_call; [done|]. intros K1 cur H1 _ _.
  split; [|intros K2 r H2 Hok _; apply Hf; [by trans K1|done]].
  intros K' st Hst. simpl. destruct (reserve _ _ _ _) as [r p]. simpl. by rewrite apart.
Qed.

Lemma ReleaseResolved_lawful (K : log) : orderly K (ReleaseResolved (V:=V) (St:=St)).
Proof.
  unfold ReleaseResolved. apply lawful_reading. intros K1 st H1 _ _.
  apply orderly_for_each. intros K2 [[r id] ref] H2 _. apply orderly_bind.
  - unfold resolved. apply lawful_reading. intros K3 st3 H3 _ _. case_match; [done|].
    apply lawful_reading. intros K4 st4 H4 _ _. case_match; [done|].
    apply readJob_lawful. intros K5 j H5 _. destruct j as [rec|]; [|done].
    case_match; [done|]. apply lawful_harmless; done.
  - intros K3 [] H3; [|done]. apply (locked_orderly K3 (A:=PubState)).
Qed.
End publish_lawful.

(** ** The reservation accounting *)

(** What the reservation list satisfies between critical sections. *)
Record pub_ok (maxLive : Z) (p : PubState) : Prop := {
  pk_nodup : NoDup (held p);
  pk_held : forall r, r ∈ held p ->
    exists res, reservations p !! r = Some res /\ rs_done res = false;
  pk_bound : Z.of_nat (length (held p)) <= Z.max 0 maxLive;
  pk_next : forall r, is_Some (reservations p !! r) -> (r < next_reservation p)%N
}.

Lemma remove_held_spec (r x : N) (l : list N) :
  NoDup l -> x ∈ remove_held r l <-> x ∈ l /\ x <> r.
Proof.
  induction 1 as [|y l Hy Hd IH]; simpl; [set_solver|].
  destruct (N.eqb_spec y r) as [->|Hn]; [|rewrite !elem_of_cons, IH; naive_solver].
  rewrite elem_of_cons. split; [intros Hx|by intros [[->|?] ?]].
  split; [by right|]. by intros ->.
Qed.

Lemma remove_held_NoDup (r : N) (l : list N) : NoDup l -> NoDup (remove_held r l).
Proof.
  induction 1 as [|y l Hy Hd IH]; simpl; [constructor|]. destruct (y =? r)%N; [done|].
  constructor; [|done]. by intros [? ?]%remove_held_spec.
Qed.

Lemma remove_held_length (r : N) (l : list N) :
  r ∈ l -> S (length (remove_held r l)) = length l.
Proof.
  induction l as [|y l IH]; [by intros ?%not_elem_of_nil|]. simpl.
  destruct (N.eqb_spec y r) as [->|Hn]; [done|]. rewrite elem_of_cons. intros [?|?]; [by subst|].
  simpl. by rewrite IH.
Qed.

Lemma remove_held_absent (r : N) (l : list N) : r ∉ l -> remove_held r l = l.
Proof.
  induction l as [|y l IH]; [done|]. simpl. rewrite not_elem_of_cons. intros [Hn Hl].
  destruct (N.eqb_spec y r); [by subst|]. by rewrite IH.
Qed.

(** The live-Collection ceiling.  A reservation is granted exactly while
    the cached live count and the reservations already held stay below the
    ceiling, it is a new one, and with it the two together are still within
    the ceiling; a refusal changes nothing, and a cache that has moved on is
    reported rather than counted. *)
Theorem reserve_ceiling (maxLive n : Z) (ok : bool) (ref : serviceRef) (p p' : PubState)
    (res : reserve_result) :
  pub_ok maxLive p -> 0 <= n -> in_int64 (n + Z.of_nat (length (held p))) ->
  reserve maxLive (n, ok) ref p = (res, p') ->
  pub_ok maxLive p' /\
  match res with
  | Reserved r =>
      ok = true /\ r ∉ held p /\ held p' = held p ++ [r] /\
      n + Z.of_nat (length (held p')) <= maxLive /\
      reservations p' !! r = Some {| rs_ref := ref; rs_id := ""; rs_done := false |}
  | CapacityExhausted => ok = true /\ p' = p /\ maxLive <= n + Z.of_nat (length (held p))
  | CachesMoved => ok = false /\ p' = p
  end.
Proof.
  intros Hp Hn Hin H. unfold reserve in H. destruct ok; simpl in H; [|by injection H as <- <-].
  rewrite wrap64_id in H by exact Hin.
  destruct (Z.leb_spec maxLive (n + Z.of_nat (length (held p)))) as [Hle|Hlt];
    injection H as <- <-; [done|].
  destruct Hp as [Hd Hh Hb Hx].
  assert (next_reservation p ∉ held p) as Hnew.
  { intros (res' & Hres & _)%Hh. specialize (Hx (next_reservation p) ltac:(by eexists)). lia. }
  assert (forall r, is_Some (reservations p !! r) -> r <> next_reservation p) as Hne.
  { intros r Hr%Hx ->. lia. }
  split; [|repeat split; simpl; [done|rewrite length_app; simpl; lia|by rewrite lookup_insert_eq]].
  split; simpl.
  - apply NoDup_app. split; [done|]. split; [|apply NoDup_singleton].
    by intros x Hx' ->%list_elem_of_singleton.
  - intros r. rewrite elem_of_app, list_elem_of_singleton. intros [Hr| ->].
    + destruct (Hh r Hr) as (res' & Hres & Hdn). exists res'. split; [|done].
      rewrite lookup_insert_ne; [done|]. symmetry. apply Hne. by eexists.
    + rewrite lookup_insert_eq. eauto.
  - rewrite length_app. simpl. lia.
  - intros r [res' Hr]. apply lookup_insert_Some in Hr as [[<- _]|[_ Hr]]; [lia|].
    specialize (Hx r ltac:(by eexists)). lia.
Qed.

(** A reservation is given back once.  Releasing a held reservation takes
    exactly it off the list; releasing it again, or one already given back,
    changes nothing, so the count cannot be driven below what is held. *)
Theorem release_once (maxLive : Z) (r : N) (p : PubState) :
  pub_ok maxLive p ->
  let p' := releaseLocked r p in
  pub_ok maxLive p' /\
  (forall x, x ∈ held p' <-> x ∈ held p /\ x <> r) /\
  Z.of_nat (length (held p')) = Z.of_nat (length (held p)) - (if decide (r ∈ held p) then 1 else 0) /\
  releaseLocked r p' = p'.
Proof.
  intros Hp p'. pose proof Hp as [Hd Hh Hb Hx]. unfold p', releaseLocked.
  destruct (reservations p !! r) as [res|] eqn:Hr.
  2:{ assert (r ∉ held p) as Hn by (intros (? & ? & ?)%Hh; congruence).
      rewrite decide_False by done. rewrite Hr. split; [done|]. split; [|split; [lia|done]].
      intros x. split; [|by intros [? ?]]. intros Hxx. split; [done|]. by intros ->. }
  destruct (rs_done res) eqn:Hdone.
  { assert (r ∉ held p) as Hn by (intros (? & ? & ?)%Hh; congruence).
    rewrite decide_False by done. rewrite Hr, Hdone. split; [done|]. split; [|split; [lia|done]].
    intros x. split; [|by intros [? ?]]. intros Hxx. split; [done|]. by intros ->. }
  simpl. rewrite lookup_insert_eq. simpl. split; [|split; [|split; [|done]]].
  - split; simpl.
    + by apply remove_held_NoDup.
    + intros x [Hxx Hne]%remove_held_spec; [|done]. destruct (Hh x Hxx) as (rx & ? & ?).
      exists rx. by rewrite lookup_insert_ne.
    + destruct (decide (r ∈ held p)) as [Hin|Hn]; [|by rewrite remove_held_absent].
      pose proof (remove_held_length r _ Hin). lia.
    + intros x [rx Hxx]. apply Hx. apply lookup_insert_Some in Hxx as [[<- _]|[_ ?]]; by eexists.
  - intros x. by apply remove_held_spec.
  - case_decide as Hin; [|rewrite remove_held_absent by done; lia].
    pose proof (remove_held_length r _ Hin). lia.
Qed.

Section accounting.
  Context {V St : Type} `{HW : Wire V} `{HC : Has St Caches} `{HP : Has St PubState}
    `{HPL : !HasLaws St PubState}.
  Abbreviation history := (list (event V St)).
  Variables (maxLive : Z) (r : N) (id : string) (i : PublishInput).

(** What the other goroutines may do meanwhile: take and give back their own
    reservations, and, once this one is bound to a Collection, apply the
    release rule to it. *)
Definition others (st st' : St) : Prop :=
  (pub_ok maxLive (the st) -> pub_ok maxLive (the st')) /\
  match reservations (the st) !! r with
  | None => True
  | Some res =>
      exists res', reservations (the st') !! r = Some res' /\ rs_id res' = rs_id res /\
        (rs_id res = EmptyString -> res' = res /\ (r ∈ held (the st) <-> r ∈ held (the st')))
  end.

(** The reservation as [Reserve] handed it out. *)
Definition fresh_reservation (st : St) : Prop :=
  pub_ok maxLive (the st) /\ r ∈ held (the st) /\
  exists ref, reservations (the st) !! r = Some {| rs_ref := ref; rs_id := EmptyString; rs_done := false |}.

Definition bound_to (st : St) : Prop :=
  exists res, reservations (the st) !! r = Some res /\ rs_id res = id.

Definition given_back (st : St) : Prop :=
  r ∉ held (the st) /\ exists res, reservations (the st) !! r = Some res /\ rs_done res = true.

(** Why nothing of the publication can exist: its record's creation was never
    asked for, or definitely refused; or the active key was another's and the
    deletion of the record came back with an answer. *)
Definition nothing_left (h : history) : Prop :=
  (forall a, (jobKey id, a) ∈ creates h -> exists e, a = Err e /\ e <> ErrUnavailable) \/
  ((exists v, Ev (KvCreate BJobs (activeKey (in_Namespace i) (in_Service i)) v) (Err ErrKeyExists) ∈ h) /\
   exists rev d, Ev (KvDelete BJobs (jobKey id) rev) d ∈ h /\ err_is d ErrUnavailable = false).

Definition accounted (out : string * published) (h : history) (st : St) : Prop :=
  bound_to st \/ (given_back st /\ nothing_left h /\ out.2 <> Published OutcomeWon).

Lemma fresh_others (st st1 : St) : fresh_reservation st -> others st st1 -> fresh_reservation st1.
Proof.
  intros (Hp & Hh & ref & Hr) [Hpk Ho]. rewrite Hr in Ho. destruct Ho as (res' & Hr' & _ & Hs).
  destruct (Hs eq_refl) as [-> Hiff]. split; [auto|]. split; [by apply Hiff|by exists ref].
Qed.

Lemma swp_track {B} (f : unit -> prog V St B) (h : history) (st : St) Q :
  fresh_reservation st ->
  (forall st', bound_to st' -> swp others (f tt) (Ev (Atomic (fun st =>
      let '(x, a) := (tt, track r id (the st)) in (x, put a st))) tt :: h) st' Q) ->
  swp others (Track r id ≫= f) h st Q.
Proof.
  intros Hf Hk. apply swp_call. intros [] st2 (st1 & Ho & Heq).
  pose proof (fresh_others _ _ Hf Ho) as (_ & _ & ref & Hr). injection Heq as <-. apply Hk.
  exists {| rs_ref := ref; rs_id := id; rs_done := false |}. rewrite the_put. unfold track.
  rewrite Hr. simpl. by rewrite lookup_insert_eq.
Qed.

Lemma swp_release {B} (f : unit -> prog V St B) (h : history) (st : St) Q :
  fresh_reservation st ->
  (forall st', given_back st' -> swp others (f tt) (Ev (Atomic (fun st =>
      let '(x, a) := (tt, releaseLocked r (the st)) in (x, put a st))) tt :: h) st' Q) ->
  swp others (Release r ≫= f) h st Q.
Proof.
  intros Hf Hk. apply swp_call. intros [] st2 (st1 & Ho & Heq).
  pose proof (fresh_others _ _ Hf Ho) as (Hp & Hh & ref & Hr). injection Heq as <-.
  apply Hk. split; rewrite the_put; unfold releaseLocked; rewrite Hr; simpl.
  - intros Hx%remove_held_spec; [|by apply pk_nodup in Hp]. by destruct Hx.
  - rewrite lookup_insert_eq. by eexists.
Qed.

Lemma replaceReceipt_quiet (v : V) : quiet (replaceReceipt (St:=St) id i v).
Proof.
  unfold replaceReceipt, readReceipt, readJob. intros g. cbn.
  destruct g as [e|[]]; cbn; try done. destruct (dec_receipt (e_value e)) as [rc|]; cbn; [|done].
  case_match; [done|]. intros j. destruct j as [je|[]]; cbn; try done.
  - by destruct (dec_job (e_value je)).
  - intros [|]; cbn; [|done]. by intros [].
Qed.

Lemma createReceipt_quiet (now : time) (hash : string) :
  quiet (createReceipt (V:=V) (St:=St) id now hash i).
Proof.
  unfold createReceipt. destruct (enc_receipt _) as [v|]; [|done].
  assert (forall x : result N, quiet (if negb (err_is x ErrKeyExists)
    then mret match x with Err e => Err e | Ok _ => Ok tt end
    else replaceReceipt (St:=St) id i v)) as Hend.
  { intros x. case_match; [by destruct x|]. apply replaceReceipt_quiet. }
  apply quiet_call; [done|]. intros first. destruct (err_is first ErrUnavailable).
  - apply quiet_call; [done|]. intros x. apply Hend.
  - apply (Hend first).
Qed.

Lemma publishPending_quiet (rec : Job) (rev : N) : quiet (publishPending (V:=V) (St:=St) rec rev).
Proof.
  unfold publishPending. destruct (MarshalBounded _); [|done..]. intros [x|e]; cbn; [|done].
  by intros [].
Qed.

Lemma continuePublish_swp (rec : Job) (rev : N) (now : time) (h : history) (st : St) :
  j_ID rec = id -> fresh_reservation st ->
  swp others (continuePublish r rec rev now i) h st accounted.
Proof.
  intros Hid Hf. unfold continuePublish. rewrite Hid.
  assert (forall h1 (a : result N),
    (err_is a ErrKeyExists = true ->
      exists v, Ev (KvCreate BJobs (activeKey (in_Namespace i) (in_Service i)) v) (Err ErrKeyExists) ∈ h1) ->
    swp others (if err_is a ErrKeyExists then
      _ ← discardLostRecord (V:=V) (St:=St) r id rev; mret (id, Published OutcomeBusy)
    else
      _ ← Track r id;
      match a with
      | Err e => mret (id, PublishFailed e)
      | Ok activeRev =>
          if negb (String.eqb (in_IdempotencyKey i) EmptyString) then
            rr ← createReceipt id now (j_SnapshotHash rec) i;
            match rr with
            | Err e => _ ← withdraw id rev activeRev i; mret (id, PublishFailed e)
            | Ok _ => publishPending rec rev
            end
          else publishPending rec rev
      end) h1 st accounted) as Hrest.
  { intros h1 a Ha. destruct (err_is a ErrKeyExists).
    - destruct (Ha eq_refl) as [v Hv]. unfold discardLostRecord. apply swp_call.
      intros d st1 ->. destruct (err_is d ErrUnavailable) eqn:Hd.
      + apply swp_track; [done|]. intros st2 Hb. by left.
      + apply swp_release; [done|]. intros st2 Hg. right. split; [done|].
        split; [|done]. right. split.
        * exists v. by do 2 apply list_elem_of_further.
        * exists rev, d. split; [|done]. apply list_elem_of_further, list_elem_of_here.
    - apply swp_track; [done|]. intros st2 Hb. apply swp_quiet; [|by left].
      destruct a as [arev|]; [|done]. case_match; [|apply publishPending_quiet].
      apply quiet_bind; [apply createReceipt_quiet|]. intros [[]|e]; [apply publishPending_quiet|].
      unfold withdraw. intros d d2. done. }
  unfold createActive. destruct (enc_active _) as [v|].
  - apply swp_call. intros a st1 ->. apply Hrest. intros Ha. exists v.
    destruct a as [|[]]; try done. apply list_elem_of_here.
  - by apply (Hrest h failed).
Qed.

(** C14: a publication accounts for its reservation on every path.  However the
    store answers and whatever the other goroutines do, when [Publish] returns
    the reservation is bound to the Collection, so that only the release rule
    gives it back, or it has been given back, and then nothing of the
    publication can exist: no record was asked for, or the bucket definitely
    refused it, or the active key was another's and the deletion of the record
    came back with an answer.  A publication that won is always bound. *)
Theorem Publish_accounts (st st' : St) (h : history) (out : string * published) :
  fresh_reservation st ->
  sexec others (publishAs id r i) [] st h st' out ->
  bound_to st' \/ (given_back st' /\ nothing_left h /\ out.2 <> Published OutcomeWon).
Proof.
  intros Hf. apply (swp_sexec others (publishAs id r i) [] st accounted). unfold publishAs. apply swp_call. intros now st1 ->.
  assert (forall h1 e, (forall a, (jobKey id, a) ∈ creates h1 ->
      exists e, a = Err e /\ e <> ErrUnavailable) ->
    swp others (_ ← Release r; mret (id, PublishFailed e)) h1 st accounted) as Hrel.
  { intros h1 e Hn. apply swp_release; [done|]. intros st3 Hg. right.
    split; [done|]. split; [|done]. by left. }
  assert (forall a, (jobKey id, a) ∈ creates [Ev (V:=V) (St:=St) Now now] ->
    exists e, a = Err e /\ e <> ErrUnavailable) as Hnone by (by intros a ?%not_elem_of_nil).
  destruct (MarshalBounded _) as [v| |]; [|by apply Hrel..].
  apply swp_call. intros c st2 ->. destruct c as [rev|e].
  - apply swp_call. intros [] st3 ->. by apply continuePublish_swp.
  - case_bool_decide as He.
    + apply swp_track; [done|]. intros st2 Hb. by left.
    + apply Hrel. intros a Hin. apply list_elem_of_singleton in Hin. injection Hin as ->. eauto.
Qed.
End accounting.

(** ** The theorems at a concrete input *)

Abbreviation memory := (Caches * PubState)%type.

Definition demo_input : PublishInput :=
  {| in_Namespace := "shop"; in_Service := "cart"; in_Origin := OriginAPI; in_Slot := zero_time;
     in_ClaimBy := 4000 * second; in_ConfigRevision := 7; in_Policy := default_policy;
     in_CreatedBy := "alice"; in_IdempotencyKey := "k1" |}.

Definition demo_id : string := "0123456789abcdefghjk".

(** The store acknowledges every write, at revision 5 or 6; the connection is
    at generation 1 and up. *)
Definition ack {St : Type} (R : Type) (o : op tagged St R) (st : St) : option (R * St) :=
  match o in op _ _ R return option (R * St) with
  | KvCreate _ _ _ => Some (Ok 5%N, st)
  | KvUpdate _ _ _ _ => Some (Ok 6%N, st)
  | KvDelete _ _ _ => Some (Ok tt, st)
  | KvGet _ _ => Some (Err ErrKeyNotFound, st)
  | KvKeys _ _ => Some (Ok [], st)
  | ObjDelete _ => Some (Ok tt, st)
  | ObjList => Some (Ok [], st)
  | Generation => Some (1%N, st)
  | Connected => Some (true, st)
  | WatchSynced _ => Some (true, st)
  | View _ => Some (Ok tt, st)
  | Atomic f => Some (f st)
  | Now => Some (400 * second, st)
  | Rand n => Some (replicate n Byte.x05, st)
  | Emit _ => Some (tt, st)
  | _ => None
  end.

Lemma reserve_ceiling_witness :
  pub_ok 2 NewPublisher /\
  (exists p', reserve 2 (1, true) ("shop", "cart") NewPublisher = (Reserved 0, p') /\ pub_ok 2 p').
Proof.
  assert (pub_ok 2 NewPublisher) as Hok.
  { split; simpl; [constructor|by intros r ?%not_elem_of_nil|lia|].
    intros r [? Hr]. by rewrite lookup_empty in Hr. }
  split; [exact Hok|]. eexists. split; [reflexivity|].
  eapply (reserve_ceiling 2 1 true ("shop", "cart") NewPublisher); [exact Hok|lia|by vm_compute|].
  reflexivity.
Defined.

(** One reservation held, of a ceiling of two. *)
Definition one_held : PubState := (reserve 2 (0, true) ("shop", "cart") NewPublisher).2.

Lemma one_held_ok : pub_ok 2 one_held.
Proof.
  split; simpl.
  - apply NoDup_singleton.
  - intros r ->%list_elem_of_singleton. by eexists.
  - lia.
  - intros r [res Hr]. apply lookup_insert_Some in Hr as [[<- _]|[_ Hr]]; [lia|].
    by rewrite lookup_empty in Hr.
Qed.

Lemma release_once_witness : pub_ok 2 one_held /\ held (releaseLocked 0 one_held) = [].
Proof.
  split; [exact one_held_ok|].
  pose proof (release_once 2 0 one_held one_held_ok) as (_ & _ & Hlen & _).
  destruct (held (releaseLocked 0 one_held)) as [|x l] eqn:E; [reflexivity|].
  exfalso. revert E. by vm_compute.
Defined.

(** A keyed publication every write of which is acknowledged. *)
Lemma Publish_order_witness :
  exists h, exec (V:=tagged) (St:=memory) (publishAs demo_id 0 demo_input) [] h
      (demo_id, Published OutcomeWon) /\
    calls_ok (publish_call demo_id demo_input) [] h.
Proof.
  destruct (run_value_exec ack (publishAs demo_id 0 demo_input) (NewCaches, one_held)
    (demo_id, Published OutcomeWon)) as [h Hex]; [by vm_compute|].
  exists h. split; [exact Hex|].
  exact (proj1 (Publish_order demo_id demo_input 0 h _ Hex)).
Defined.

Lemma Publish_accounts_witness :
  fresh_reservation 2 0 (NewCaches, one_held) /\
  exists h st', sexec (V:=tagged) (others 2 0) (publishAs demo_id 0 demo_input) []
      (NewCaches, one_held) h st' (demo_id, Published OutcomeWon) /\
    (bound_to 0 demo_id st' \/ given_back 0 st').
Proof.
  assert (fresh_reservation 2 0 (NewCaches, one_held)) as Hf.
  { split; [exact one_held_ok|]. split; [by apply list_elem_of_singleton|].
    by exists ("shop", "cart"). }
  split; [exact Hf|].
  destruct (run ack (publishAs demo_id 0 demo_input) [] (NewCaches, one_held))
    as [[[out h] st']|] eqn:Hrun.
  2:{ exfalso. revert Hrun. by vm_compute. }
  assert (out = (demo_id, Published OutcomeWon)) as ->.
  { enough (run_value ack (publishAs demo_id 0 demo_input) (NewCaches, one_held) = Some out) as Hv.
    { revert Hv. vm_compute. by intros [= <-]. }
    unfold run_value. by rewrite Hrun. }
  exists h, st'.
  assert (sexec (V:=tagged) (others 2 0) (publishAs demo_id 0 demo_input) []
    (NewCaches, one_held) h st' (demo_id, Published OutcomeWon)) as Hex.
  { refine (run_sexec (others 2 0) ack _ _ _ _ _ _ _ _ Hrun).
    - intros st. split; [done|]. destruct (reservations _ !! _); [|done]. eauto.
    - intros R o st r st1. destruct o; simpl; intros [=]; by subst. }
  split; [exact Hex|].
  destruct (Publish_accounts 2 0 demo_id demo_input (NewCaches, one_held) st' h _ Hf Hex)
    as [?|(? & _)]; [by left|by right].
Defined.
