(* ===== verification/Scheduler.v ===== *)
(** * The scheduler

    src/internal/pgo/scheduler.go: the slot a moment falls in, how far into it
    a Service fires, the pass over every Service with a stored override, and
    the one write a replica wins a slot with. *)

From S2P Require Import Prelude Effects Ident Config Policy Records Sha256 Keys Caches.
From S2P Require Import Lifecycle Runtime Publisher.

Definition schedulerTick : duration := 10 * second.
Definition slotRetentionMargin : duration := 24 * hour.
Definition createdBySchedule : string := "schedule".

(** [now.UnixNano()], an [int64]. *)
Definition unix_nano (t : time) : Z := wrap64 t.

(** [slotFor]. *)
Definition slotFor (now : time) (every : duration) : time :=
  let period := every in
  if period <=? 0 then now
  else
    let n := unix_nano now in
    let rem := Z.rem n period in
    let rem := if rem <? 0 then rem +! period else rem in
    n -! rem.

(** [hashInput]. *)
Definition hashInput (ns svc : string) (slot : time) : string :=
  ns +:+ "/" +:+ svc +:+ "/" +:+ pretty (unix slot).

(** hash/fnv's 64-bit FNV-1a. *)
Definition fnv_step (h : Z) (c : ascii) : Z :=
  wrapu64 (Z.lxor h (Z.of_N (N_of_ascii c)) * 1099511628211).

Fixpoint fnv_fold (h : Z) (s : string) : Z :=
  match s with
  | EmptyString => h
  | String c s' => fnv_fold (fnv_step h c) s'
  end.

Definition fnv64a (s : string) : Z := fnv_fold 14695981039346656037 s.

Example fnv64a_empty : fnv64a "" = 0xcbf29ce484222325.
Proof. reflexivity. Qed.
Example fnv64a_a : fnv64a "a" = 0xaf63dc4c8601ec8c.
Proof. reflexivity. Qed.
Example fnv64a_foobar : fnv64a "foobar" = 0x85944171f73967e8.
Proof. reflexivity. Qed.

(** [offset]. *)
Definition offset (ns svc : string) (slot : time) (jitter : duration) : duration :=
  if jitter <=? 0 then 0 else wrap64 (fnv64a (hashInput ns svc slot) mod wrapu64 jitter).

(** [loggedViolations]; [Run] is the only goroutine that touches it. *)
Record SchedState := { loggedViolations : gmap serviceRef N }.

(** [sortedRefs], of a map's keys. *)
Definition ref_le (a b : serviceRef) : Prop :=
  let c := str_compare a.1 b.1 in
  if negb (c =? 0) then c <= 0 else str_compare a.2 b.2 <= 0.
#[export] Instance ref_le_dec : RelDecision ref_le.
Proof. intros a b. unfold ref_le. cbv zeta. destruct (negb _); apply _. Defined.

Definition sortedRefs {A} (m : gmap serviceRef A) : list serviceRef :=
  merge_sort ref_le (map_to_list m).*1.

(** [forgetStaleViolations]. *)
Definition forgetStaleViolations {A} (overrides : gmap serviceRef A) (s : SchedState) : SchedState :=
  {| loggedViolations :=
       filter (fun kv => is_Some (overrides !! kv.1)) (loggedViolations s) |}.

(** The guard and the assignment of [logViolations]. *)
Definition violations_to_log (ref : serviceRef) (revision : N) (s : SchedState) : bool * SchedState :=
  if bool_decide (loggedViolations s !! ref = Some revision) then (false, s)
  else (true, {| loggedViolations := <[ref := revision]> (loggedViolations s) |}).

Section scheduler.
  Context {V St : Type} `{HW : Wire V} `{HC : Has St Caches} `{HP : Has St PubState}
    `{HS : Has St SchedState}.
  Abbreviation prog := (Effects.prog V St).
  (** The scheduler's fields that never change. *)
  Variables (defaults : Policy) (limits : PGOLimits).

Definition ScheduleSlot (label : string) : prog unit :=
  call (Emit (Metric "schedule_slot" label)).

(** [logViolations]. *)
Definition logViolations (ref : serviceRef) (revision : N) (l : list Violation) : prog unit :=
  first ← locked (violations_to_log ref revision);
  if (first : bool)
  then for_each l (fun v => call (Emit (LogViolation ref.1 ref.2 revision (v_Field v))))
  else mret tt.

(** [createSlot]. *)
Definition createSlot (ref : serviceRef) (slot : time) (every : duration) (res : N) : prog bool :=
  match enc_slot {| sv_RetainUntil := slot + (every +! slotRetentionMargin) |} with
  | None => _ ← Release res; mret false
  | Some value =>
      c ← call (KvCreate BJobs (slotKey ref.1 ref.2 slot) value);
      match c with
      | Ok _ => mret true
      | Err ErrKeyExists => _ ← Release res; _ ← ScheduleSlot "lost"; mret false
      | Err _ => _ ← Release res; mret false
      end
  end.

(** What [consider] publishes. *)
Definition scheduled_input (ref : serviceRef) (stored : cachedOverride) (policy : Policy)
    (slot now : time) : PublishInput :=
  {| in_Namespace := ref.1; in_Service := ref.2; in_Origin := OriginSchedule; in_Slot := slot;
     in_ClaimBy := now + Every (PSchedule policy); in_ConfigRevision := co_Revision stored;
     in_Policy := policy; in_CreatedBy := createdBySchedule; in_IdempotencyKey := EmptyString |}.

(** [consider]. *)
Definition consider (gen : N) (ref : serviceRef) (stored : cachedOverride) (now : time) : prog unit :=
  let policy := Effective defaults (so_Policy (co_Stored stored)) in
  if negb (Enabled policy) then mret tt
  else
    let violations := Validate policy limits in
    if (0 <? Z.of_nat (length violations)) then logViolations ref (co_Revision stored) violations
    else
      let every := Every (PSchedule policy) in
      let slot := slotFor now every in
      if before now (slot + offset ref.1 ref.2 slot (Jitter (PSchedule policy))) then mret tt
      else
        cur ← call Generation;
        l ← reading (Live cur gen ref.1 ref.2);
        let '(live, ok) := (l : bool * bool) in
        if negb ok then mret tt
        else if live then ScheduleSlot "busy"
        else
          r ← Reserve (MaxLiveCollections limits) gen ref.1 ref.2;
          match r with
          | CapacityExhausted => ScheduleSlot "capacity"
          | CachesMoved => mret tt
          | Reserved res =>
              won ← createSlot ref slot every res;
              if negb won then mret tt
              else
                p ← Publish res (scheduled_input ref stored policy slot now);
                match p.2 with
                | PublishFailed _ => mret tt
                | Published OutcomeBusy => ScheduleSlot "busy"
                | Published OutcomeWon => ScheduleSlot "won"
                end
          end.

(** [tick]. *)
Definition tick : prog unit :=
  gen ← call Generation;
  watched ← call (WatchSynced gen);
  if negb watched then mret tt
  else
    replayed ← reading (Synced gen);
    if negb replayed then mret tt
    else
      v ← call (View gen);
      match v with
      | Err _ => mret tt
      | Ok _ =>
          _ ← ReleaseResolved;
          now ← call Now;
          overrides ← reading overrideSnapshot;
          _ ← locked (fun s => (tt, forgetStaleViolations overrides s));
          for_each (sortedRefs overrides) (fun ref =>
            match overrides !! ref with
            | None => mret tt
            | Some stored => consider gen ref stored now
            end)
      end.
End scheduler.

(** ** Slots *)

Lemma slotFor_in_range (now : time) (every : duration) :
  in_int64 now -> in_int64 every -> 0 < every -> in_int64 (now - now mod every) ->
  slotFor now every = now - now mod every.
Proof.
  intros Hn He Hp Hs. unfold slotFor, unix_nano. cbv zeta.
  destruct (Z.leb_spec every 0); [lia|]. rewrite (wrap64_id now) by done.
  pose proof (Z.mod_pos_bound now every Hp) as Hm.
  destruct (Z.ltb_spec (Z.rem now every) 0) as [Hneg|Hpos].
  - assert (now mod every = Z.rem now every + every) as E.
    { symmetry. apply Z.mod_unique with (q := Z.quot now every - 1).
      - left. pose proof (Z.rem_bound_abs now every ltac:(lia)). lia.
      - pose proof (Z.quot_rem now every ltac:(lia)). rewrite Z.mul_sub_distr_l. lia. }
    rewrite (wrap64_id (Z.rem now every + every)) by in64.
    rewrite <-E. by apply wrap64_id.
  - assert (now mod every = Z.rem now every) as E.
    { symmetry. apply Z.mod_unique with (q := Z.quot now every).
      - left. pose proof (Z.rem_bound_abs now every ltac:(lia)). lia.
      - apply Z.quot_rem. lia. }
    rewrite <-E. by apply wrap64_id.
Qed.

Lemma slotFor_around (now : time) (every : duration) :
  in_int64 now -> in_int64 every -> 0 < every -> in_int64 (now - now mod every) ->
  slotFor now every <= now < slotFor now every + every.
Proof.
  intros. rewrite slotFor_in_range by done. pose proof (Z.mod_pos_bound now every). lia.
Qed.

(** The slot a moment falls in.  For any moment an [int64] of nanoseconds
    holds, the slot starts at or before it, within one period of it, on a
    multiple of the period since the epoch; and it is the same for every other
    moment up to the next multiple, so replicas whose clocks differ agree on it
    unless a boundary lies between them. *)
Theorem slotFor_spec (now : time) (every : duration) :
  in_int64 now -> in_int64 every -> 0 < every -> in_int64 (now - now mod every) ->
  let slot := slotFor now every in
  slot <= now < slot + every /\ slot mod every = 0 /\
  forall t, slot <= t < slot + every -> in_int64 t -> slotFor t every = slot.
Proof.
  intros Hn He Hp Hs slot. unfold slot. rewrite (slotFor_in_range now every) by done.
  pose proof (Z.mod_pos_bound now every Hp) as Hm.
  pose proof (Z.div_mod now every ltac:(lia)) as Hd.
  split; [lia|]. split.
  { replace (now - now mod every) with (every * (now / every)) by lia. by rewrite Z.mul_comm, Z.mod_mul by lia. }
  intros t Ht Hin.
  assert (t mod every = t - (now - now mod every)) as E.
  { symmetry. apply Z.mod_unique with (q := now / every); [left; lia|]. lia. }
  rewrite slotFor_in_range by (unfold in_int64 in *; rewrite ?E; lia). lia.
Qed.

Lemma slotFor_spec_witness :
  (in_int64 (1709210096 * second) /\ in_int64 (6 * hour) /\ 0 < 6 * hour /\
   in_int64 (1709210096 * second - (1709210096 * second) mod (6 * hour))) /\
  slotFor (1709210096 * second) (6 * hour) <= 1709210096 * second
    < slotFor (1709210096 * second) (6 * hour) + 6 * hour.
Proof.
  split; [by vm_compute|].
  refine (proj1 (slotFor_spec (1709210096 * second) (6 * hour) _ _ _ _)); by vm_compute.
Defined.

Lemma fnv_fold_range (s : string) (h : Z) : 0 <= h < 2 ^ 64 -> 0 <= fnv_fold h s < 2 ^ 64.
Proof.
  revert h. induction s as [|c s IH]; intros h Hh; [done|]. apply IH, wrapu64_range.
Qed.

(** A Service fires inside its slot.  The jitter offset lies in the jitter
    window, and under a policy [Validate] accepts it leaves at least half of
    the slot, so in every slot there is a stretch in which a tick finds the
    Service due, and a moment at which it is due belongs to no other slot. *)
Theorem offset_within (ns svc : string) (slot : time) (p : Policy) (lim : PGOLimits) :
  limits_tags lim = true -> Validate p lim = [] ->
  let o := offset ns svc slot (Jitter (PSchedule p)) in
  0 <= o /\ (0 < Jitter (PSchedule p) -> o < Jitter (PSchedule p)) /\
  2 * o <= Every (PSchedule p).
Proof.
  intros Hl (He & Hj & _)%Validate_within o. unfold o, offset.
  unfold every_within, jitter_within in *. apply limits_tags_spec in Hl.
  assert (0 < Every (PSchedule p) <= 86400000000000) as Hin by (unfold hour, minute, second in *; lia).
  assert (Every (PSchedule p) /! 2 = Every (PSchedule p) / 2) as Hq.
  { apply quot64_div; unfold max_int64; lia. }
  rewrite Hq in Hj. pose proof (Z.mul_div_le (Every (PSchedule p)) 2 ltac:(lia)) as Hdiv.
  destruct (Z.leb_spec (Jitter (PSchedule p)) 0) as [|Hpos]; [lia|].
  assert (0 < Jitter (PSchedule p) < 2 ^ 63) as Hr
    by lia.
  assert (wrapu64 (Jitter (PSchedule p)) = Jitter (PSchedule p)) as ->
    by (apply Z.mod_small; lia).
  pose proof (Z.mod_pos_bound (fnv64a (hashInput ns svc slot)) (Jitter (PSchedule p)) ltac:(lia)).
  rewrite wrap64_id by (unfold in_int64, min_int64, max_int64; lia). lia.
Qed.

Lemma offset_within_witness :
  (limits_tags small_limits = true /\ Validate default_policy small_limits = []) /\
  2 * offset "shop" "cart" 0 (Jitter (PSchedule default_policy)) <= 6 * hour.
Proof.
  split; [split; by vm_compute|].
  refine (proj2 (proj2 (offset_within "shop" "cart" 0 default_policy small_limits _ _)));
    by vm_compute.
Defined.

(** ** A slot key outlives every replica's use of it *)

(** A slot is not fired twice by way of its key's retention.  Under a
    policy [Validate] accepts, the value written with the key keeps it until at
    least a day after the slot's end; so at any time the sweeper of a replica
    may delete it, no clock that still falls in the slot is within that day of
    the sweeper's, and no replica can find the key gone and win the slot
    again. *)
Theorem slot_outlived (now : time) (p : Policy) (lim : PGOLimits) (sweep t : time) :
  limits_tags lim = true -> Validate p lim = [] -> in_int64 now -> in_int64 t ->
  in_int64 (now - now mod Every (PSchedule p)) -> in_int64 (t - t mod Every (PSchedule p)) ->
  let every := Every (PSchedule p) in
  let slot := slotFor now every in
  slot + (every +! slotRetentionMargin) < sweep ->
  slotFor t every = slot ->
  t + slotRetentionMargin < sweep.
Proof.
  intros Hl (He & _)%Validate_within Hn Ht Hs Hs' every slot Hsw Heq.
  apply limits_tags_spec in Hl. unfold every_within in He.
  fold every in He. unfold hour, minute, second in *.
  assert (in_int64 every) as Hev by in64.
  pose proof (slotFor_around t every Ht Hev ltac:(lia) Hs') as Hb. rewrite Heq in Hb.
  unfold slotRetentionMargin, hour, minute, second in *.
  rewrite wrap64_id in Hsw by in64. lia.
Qed.

Lemma slot_outlived_witness :
  (limits_tags small_limits = true /\ Validate default_policy small_limits = [] /\
   slotFor (100 * hour) (6 * hour) + (6 * hour +! slotRetentionMargin) < 140 * hour /\
   slotFor (101 * hour) (6 * hour) = slotFor (100 * hour) (6 * hour)) /\
  101 * hour + slotRetentionMargin < 140 * hour.
Proof.
  split; [repeat split; by vm_compute|].
  apply (slot_outlived (100 * hour) default_policy small_limits (140 * hour) (101 * hour));
    by vm_compute.
Defined.

(** ** A pass is lawful *)

Section scheduler_lawful.
  Context {V St : Type} `{HW : Wire V} `{HL : !WireLaws V} `{HC : Has St Caches}
    `{HP : Has St PubState} `{HA : !Apart St PubState Caches}
    `{HS : Has St SchedState} `{HB : !Apart St SchedState Caches}.
  Variables (defaults : Policy) (limits : PGOLimits).
  Abbreviation log := (Lifecycle.log (V:=V)).

Lemma slotKey_not_job (ns svc : string) (slot : time) :
  has_prefix jobPrefix (slotKey ns svc slot) = false.
Proof. reflexivity. Qed.

Lemma createSlot_lawful (K : log) (ref : serviceRef) (slot : time) (every : duration) (res : N) :
  orderly K (createSlot (St:=St) ref slot every res).
Proof.
  unfold createSlot. destruct (enc_slot _) as [v|]; [|by apply Release_lawful].
  apply lawful_call; [apply create_other, slotKey_not_job|]. intros K1 c _ _ _.
  destruct c as [rv|e]; [done|].
  destruct e; apply Release_lawful; intros K2 [] _ _; first [done|by apply lawful_harmless].
Qed.

Lemma consider_lawful (K : log) (gen : N) (ref : serviceRef) (stored : cachedOverride) (now : time) :
  orderly K (consider (St:=St) defaults limits gen ref stored now).
Proof.
  unfold consider. cbv zeta. case_match; [done|]. case_match.
  { unfold logViolations. apply (locked_lawful K (A:=SchedState)). intros K1 [] _ _; [|done].
    apply orderly_for_each. intros K2 v _ _. by apply orderly_last. }
  case_match; [done|]. apply lawful_harmless; [done|]. intros K1 cur _ _ _.
  apply lawful_reading. intros K2 st _ _ _. destruct (Live _ _ _ _ _) as [live ok].
  case_match; [done|]. case_match; [by apply orderly_last|].
  apply Reserve_lawful. intros K3 [res| |] _ _; [|by apply orderly_last|done].
  apply orderly_bind; [apply createSlot_lawful|]. intros K4 [] _; [|done].
  apply orderly_bind; [apply Publish_lawful|]. intros K5 [id []] _; [|done].
  destruct o; by apply orderly_last.
Qed.

Lemma tick_lawful (K : log) : orderly K (tick (V:=V) (St:=St) defaults limits).
Proof.
  unfold tick. apply lawful_harmless; [done|]. intros K1 gen _ _ _.
  apply lawful_harmless; [done|]. intros K2 watched _ _ _. case_match; [done|].
  apply lawful_reading. intros K3 st _ _ _. case_match; [done|].
  apply lawful_harmless; [done|]. intros K4 v _ _ _. destruct v; [|done].
  apply orderly_bind; [apply ReleaseResolved_lawful|]. intros K5 [] _.
  apply lawful_harmless; [done|]. intros K6 now _ _ _.
  apply lawful_reading. intros K7 st7 _ _ _.
  apply (locked_lawful K7 (A:=SchedState)). intros K8 [] _ _.
  apply orderly_for_each. intros K9 ref _ _. destruct (overrideSnapshot _ !! ref); [|done].
  apply consider_lawful.
Qed.
End scheduler_lawful.

(** ** What a pass writes *)

Section one_service.
  Context {V St : Type} `{HW : Wire V} `{HL : !WireLaws V} `{HC : Has St Caches}
    `{HP : Has St PubState} `{HS : Has St SchedState}.
  Abbreviation history := (list (event V St)).
  Variables (defaults : Policy) (limits : PGOLimits).
  Variables (gen : N) (ref : serviceRef) (stored : cachedOverride) (now : time).

(** The Service is to be sampled in the slot [now] falls in, and is due. *)
Definition due_slot : Prop :=
  let p := Effective defaults (so_Policy (co_Stored stored)) in
  Enabled p = true /\ Validate p limits = [] /\
  slotFor now (Every (PSchedule p))
    + offset ref.1 ref.2 (slotFor now (Every (PSchedule p))) (Jitter (PSchedule p)) <= now.

Definition now_slot : time :=
  slotFor now (Every (PSchedule (Effective defaults (so_Policy (co_Stored stored))))).

(** The slot key was created by this pass. *)
Definition slot_won (h : history) : Prop :=
  exists rev, (slotKey ref.1 ref.2 now_slot, Ok rev) ∈ creates h.

(** What each write follows: the slot key first, of the slot [now] falls in
    and only for a Service that is due in it; everything else after it was won. *)
Definition consider_call (h : history) (R : Type) (o : op V St R) : Prop :=
  match o with
  | KvCreate b k v =>
      due_slot /\
      (slot_won h \/
       (k = slotKey ref.1 ref.2 now_slot /\ creates h = [] /\ exists s, dec_slot v = Some s /\
        sv_RetainUntil s = now_slot +
          (Every (PSchedule (Effective defaults (so_Policy (co_Stored stored)))) +! slotRetentionMargin)))
  | KvUpdate _ _ _ _ | KvDelete _ _ _ => due_slot /\ slot_won h
  | _ => True
  end.

Lemma after_slot {A} (p : Effects.prog V St A) (h : history) :
  due_slot -> slot_won h -> wp consider_call p h (fun _ _ => True).
Proof.
  intros Hd. revert h. induction p as [a|R o k IH]; intros h Hw; [done|].
  split; [destruct o; simpl; auto|]. intros r. apply IH. destruct Hw as [rev Hrev]. exists rev.
  unfold creates. simpl. case_match; [by apply list_elem_of_further|done].
Qed.

(** What is neither a create, an update nor a delete is unconstrained. *)
Lemma quiet_call_ok {A} (p : Effects.prog V St A) (h : history) :
  writeless p -> wp consider_call p h (fun _ _ => True).
Proof.
  revert h. induction p as [a|R o k IH]; intros h Hp; [done|]. destruct Hp as [Ho Hk].
  split; [by destruct o|]. intros r. by apply IH.
Qed.

(** What one pass does for one Service.  It writes only when the effective
    policy is enabled, within the ceilings and due, that is past the Service's
    offset in the slot the moment falls in; the first thing it creates is that
    slot's key, kept until a day past the slot's end, and nothing else is
    written unless the bucket acknowledged that key to this replica. *)
Theorem consider_order (h : history) (u : unit) :
  exec (consider defaults limits gen ref stored now) [] h u -> calls_ok consider_call [] h.
Proof.
  intros Hex. refine (proj2 (wp_exec consider_call _ [] (fun _ _ => True) h u _ Hex)). clear Hex.
  unfold consider. cbv zeta.
  set (policy := Effective defaults (so_Policy (co_Stored stored))).
  destruct (Enabled policy) eqn:Hen; [|done]. cbn [negb].
  destruct (Validate policy limits) as [|v l] eqn:Hv; [cbn [length Z.of_nat Z.ltb Z.compare]|].
  2:{ apply quiet_call_ok. split; [done|]. intros []; [|done]. by apply writeless_for_each. }
  unfold before. destruct (Z.ltb_spec now (slotFor now (Every (PSchedule policy)) +
    offset ref.1 ref.2 (slotFor now (Every (PSchedule policy))) (Jitter (PSchedule policy))))
    as [|Hdue]; [done|].
  assert (due_slot) as Hd by done.
  apply wp_call; [done|]. intros cur. apply wp_call; [done|]. intros [live ok].
  destruct ok; [|done]. cbn [negb]. destruct live; [by split|].
  apply wp_call; [done|]. intros cur2. apply wp_call; [done|]. intros [res| |]; [|by split|done].
  unfold createSlot. destruct (enc_slot _) as [v|] eqn:Henc; [|by split].
  apply dec_enc_slot in Henc. apply wp_call.
  { split; [done|]. right. split; [done|]. split; [done|]. by eexists. }
  intros c. destruct c as [rv|e].
  - apply after_slot; [done|]. exists rv. apply list_elem_of_here.
  - destruct e; by repeat split.
Qed.
End one_service.

(** A pass that wins its slot and publishes. *)
Definition demo_stored : cachedOverride :=
  {| co_Revision := 7;
     co_Stored := {| so_Policy := Some {| o_Enabled := Some true; o_Schedule := None;
                       o_Sampling := None; o_Target := None; o_Artifact := None |};
                     so_UpdatedBy := "alice"; so_UpdatedAt := 0 |} |}.

Definition demo_world : Caches * PubState * SchedState :=
  (set_barrier (fun _ => 1%N) (fun _ => true) (startAttempt NewCaches), NewPublisher,
   {| loggedViolations := ∅ |}).

Lemma consider_order_witness :
  exists h, exec (V:=tagged) (St:=Caches * PubState * SchedState)
      (consider default_policy small_limits 1 ("shop", "cart") demo_stored (1709210096 * second)) [] h tt /\
    calls_ok (consider_call default_policy small_limits ("shop", "cart") demo_stored
      (1709210096 * second)) [] h.
Proof.
  destruct (run_value_exec ack
    (consider default_policy small_limits 1 ("shop", "cart") demo_stored (1709210096 * second))
    demo_world tt) as [h Hex]; [by vm_compute|].
  exists h. split; [exact Hex|].
  exact (consider_order default_policy small_limits 1 ("shop", "cart") demo_stored
    (1709210096 * second) h tt Hex).
Defined.
