(* ===== verification/Worker.v ===== *)
(** * The worker

    src/internal/pgo/worker.go, the scan: which records a pass reads fresh, what
    it does with each, and the claim, which takes one of this replica's slots,
    writes the lease and registers the Collection for the drain.  The owner
    loop a claim starts is Owner.v. *)

From S2P Require Import Prelude Effects Ident Config Policy Records Keys Caches Lifecycle.
From S2P Require Import Runtime Publisher.

Definition skewMargin : duration := 5 * second.
Definition publishGrace : duration := minute.

(** [inFlight]: what the drain waits on.  [fl_cancels] counts the calls of the
    function that cancels the work; a closed channel is a flag. *)
Record inFlight := {
  fl_id : string;
  fl_cutoff : time;
  fl_cancelled : bool;
  fl_cancels : Z;
  fl_cancelledCh : bool;
  fl_done : bool
}.

(** The fields [Worker.mu] protects, and the entries by address. *)
Record WorkerState := {
  w_active : Z;
  w_stopped : bool;
  w_draining : bool;
  w_claims : Z;
  w_inFlight : gmap string N;
  w_entries : gmap N inFlight;
  w_next : N
}.

Definition NewWorker : WorkerState :=
  {| w_active := 0; w_stopped := false; w_draining := false; w_claims := 0; w_inFlight := ∅;
     w_entries := ∅; w_next := 0 |}.

(** The fields of [Worker] that never change. *)
Record WorkerConfig := {
  wc_limits : PGOLimits;
  wc_leaseTTL : duration;
  wc_maxAttempts : Z;
  wc_maxActive : Z;
  wc_owner : Owner
}.

Definition NewWorkerConfig (cfg : PGOConfig) (owner : Owner) : WorkerConfig :=
  {| wc_limits := pgo_Limits cfg; wc_leaseTTL := pgo_LeaseTTL cfg;
     wc_maxAttempts := pgo_MaxAttempts cfg;
     wc_maxActive := MaxActiveCollections (pgo_Limits cfg); wc_owner := owner |}.

(** ** Critical sections *)

Definition with_active (n : Z) (w : WorkerState) : WorkerState :=
  {| w_active := n; w_stopped := w_stopped w; w_draining := w_draining w; w_claims := w_claims w;
     w_inFlight := w_inFlight w; w_entries := w_entries w; w_next := w_next w |}.
Definition with_claims (n : Z) (w : WorkerState) : WorkerState :=
  {| w_active := w_active w; w_stopped := w_stopped w; w_draining := w_draining w; w_claims := n;
     w_inFlight := w_inFlight w; w_entries := w_entries w; w_next := w_next w |}.

(** [reserveLocalSlot]. *)
Definition reserveLocalSlot (maxActive : Z) (w : WorkerState) : bool * WorkerState :=
  if w_stopped w || (maxActive <=? w_active w) then (false, w)
  else (true, with_claims (w_claims w + 1) (with_active (w_active w +! 1) w)).

(** [releaseLocalSlot], and [claims.Done]. *)
Definition releaseLocalSlot (w : WorkerState) : unit * WorkerState :=
  (tt, with_active (w_active w -! 1) w).
Definition claimDone (w : WorkerState) : unit * WorkerState :=
  (tt, with_claims (w_claims w - 1) w).

(** [newInFlight]. *)
Definition newInFlight (id : string) (lease : time) : inFlight :=
  {| fl_id := id; fl_cutoff := lease - skewMargin; fl_cancelled := false; fl_cancels := 0;
     fl_cancelledCh := false; fl_done := false |}.

(** The registration in [startOwner]; the answer is the entry's address. *)
Definition register (id : string) (lease : time) (w : WorkerState) : N * WorkerState :=
  (w_next w,
   {| w_active := w_active w; w_stopped := w_stopped w; w_draining := w_draining w;
      w_claims := w_claims w; w_inFlight := <[id := w_next w]> (w_inFlight w);
      w_entries := <[w_next w := newInFlight id lease]> (w_entries w); w_next := w_next w + 1 |}).

(** The owner goroutine's exit: it removes only the entry it registered. *)
Definition unregister (id : string) (fl : N) (w : WorkerState) : unit * WorkerState :=
  (tt, {| w_active := w_active w; w_stopped := w_stopped w; w_draining := w_draining w;
          w_claims := w_claims w;
          w_inFlight := if bool_decide (w_inFlight w !! id = Some fl) then delete id (w_inFlight w)
                        else w_inFlight w;
          w_entries := w_entries w; w_next := w_next w |}).

(** [stopWork]. *)
Definition stopWork (w : WorkerState) : unit * WorkerState :=
  if w_stopped w then (tt, w)
  else (tt, {| w_active := w_active w; w_stopped := true; w_draining := true;
               w_claims := w_claims w; w_inFlight := w_inFlight w; w_entries := w_entries w;
               w_next := w_next w |}).

(** ** Deciding *)

(** [due]. *)
Definition due (c : cachedJob) (now : time) (slotFree : bool) : bool :=
  match cj_State c with
  | StateInitializing => before (cj_CreatedAt c + (publishGrace + skewMargin)) now
  | StatePending => slotFree || before (cj_ClaimBy c + skewMargin) now
  | StateRunning =>
      (match cj_LeaseUntil c with Some l => before (l + skewMargin) now | None => false end)
      || (match cj_Deadline c with Some d => before (d + skewMargin) now | None => false end)
  | StateCompleted | StateFailed | StateCancelled | StateExpired => false
  | StateOther _ => false
  end.

(** [claimable]. *)
Definition claimable (rec : Job) (now : time) : bool :=
  match j_State rec with
  | StatePending => true
  | StateRunning =>
      match j_LeaseUntil rec with Some l => before (l + skewMargin) now | None => false end
  | StateInitializing | StateCompleted | StateFailed | StateCancelled | StateExpired => false
  | StateOther _ => false
  end.

(** The switch of [visit]. *)
Inductive action := ActTerminate (reason : string) | ActClaim | ActNothing.

Definition visit_action (rec : Job) (now : time) : action :=
  if bool_decide (j_State rec = StateInitializing)
     && before (j_CreatedAt rec + (publishGrace + skewMargin)) now
  then ActTerminate ReasonNotPublished
  else if bool_decide (j_State rec = StatePending) && before (j_ClaimBy rec + skewMargin) now
  then ActTerminate ReasonNotClaimed
  else if bool_decide (j_State rec = StateRunning)
     && match j_Deadline rec with Some d => before (d + skewMargin) now | None => false end
  then ActTerminate ReasonDeadlineExceeded
  else if claimable rec now then ActClaim
  else ActNothing.

(** The record a claim writes; [None] is [Deadline]'s division by zero. *)
Definition claimed (cfg : WorkerConfig) (rec : Job) (now : time) : option Job :=
  let build startedAt deadline :=
    {| j_ID := j_ID rec; j_Namespace := j_Namespace rec; j_Service := j_Service rec;
       j_Origin := j_Origin rec; j_Slot := j_Slot rec; j_ConfigRevision := j_ConfigRevision rec;
       j_Policy := j_Policy rec; j_State := StateRunning; j_Attempt := j_Attempt rec +! 1;
       j_Owner := Some (wc_owner cfg); j_ClaimBy := j_ClaimBy rec;
       j_LeaseUntil := Some (now + wc_leaseTTL cfg); j_Deadline := deadline;
       j_Reason := j_Reason rec; j_ResolvedVersion := j_ResolvedVersion rec;
       j_Progress := j_Progress rec; j_Manifest := j_Manifest rec; j_Artifact := j_Artifact rec;
       j_IdempotencyKey := j_IdempotencyKey rec; j_SnapshotHash := j_SnapshotHash rec;
       j_CreatedBy := j_CreatedBy rec; j_CreatedAt := j_CreatedAt rec; j_StartedAt := startedAt;
       j_FinishedAt := j_FinishedAt rec; j_ExpiresAt := j_ExpiresAt rec |} in
  match j_StartedAt rec with
  | Some s => Some (build (Some s) (j_Deadline rec))
  | None => (fun d => build (Some now) (Some d)) <$> Deadline now (j_Policy rec) (wc_limits cfg)
  end.

(** What a claim hands the owner loop: the record as written, its revision, and
    the entry the drain waits on. *)
Record started := { sd_Record : Job; sd_Revision : N; sd_Entry : N }.

Section worker.
  Context {V St : Type} `{HW : Wire V} `{HC : Has St Caches} `{HK : Has St WorkerState}.
  Abbreviation prog := (Effects.prog V St).
  Variable cfg : WorkerConfig.

(** [terminate]. *)
Definition terminate (rec : Job) (rev : N) (reason : string) : prog unit :=
  now ← call Now;
  let rec' := set_ended StateFailed reason now rec in
  match MarshalBounded (enc_job rec') with
  | SerializeFailed | RecordTooLarge => mret tt
  | Marshalled value =>
      u ← call (KvUpdate BJobs (jobKey (j_ID rec')) value rev);
      match u with
      | Err _ => mret tt
      | Ok _ =>
          _ ← logTransition rec';
          _ ← call (Emit (Metric "collection" (state_name StateFailed)));
          releaseActive rec'
      end
  end.

(** [claim] from the reservation on. *)
Definition claim_reserved (rec : Job) (rev : N) : prog (option started) :=
  if wc_maxAttempts cfg <=? j_Attempt rec then
    _ ← locked releaseLocalSlot;
    _ ← terminate rec rev ReasonAttemptsExhausted;
    mret None
  else
    now ← call Now;
    match claimed cfg rec now with
    | None => panic
    | Some rec' =>
        match MarshalBounded (enc_job rec') with
        | SerializeFailed | RecordTooLarge => _ ← locked releaseLocalSlot; mret None
        | Marshalled value =>
            u ← call (KvUpdate BJobs (jobKey (j_ID rec')) value rev);
            match u with
            | Err _ => _ ← locked releaseLocalSlot; mret None
            | Ok newRev =>
                _ ← logTransition rec';
                _ ← call (Emit (Gauge "collections_active" 1));
                match j_LeaseUntil rec' with
                | None => panic
                | Some lease =>
                    fl ← locked (register (j_ID rec') lease);
                    mret (Some {| sd_Record := rec'; sd_Revision := newRev; sd_Entry := fl |})
                end
            end
        end
    end.

(** [claim]; the answer is the owner loop it starts, if it starts one.  The
    deferred [claims.Done] runs on every return past the reservation. *)
Definition claim (rec : Job) (rev : N) : prog (option started) :=
  if (0 <? Z.of_nat (length (Validate (j_Policy rec) (wc_limits cfg)))) then
    _ ← terminate rec rev ReasonLimitExceeded; mret None
  else
    got ← locked (reserveLocalSlot (wc_maxActive cfg));
    if negb got then mret None
    else
      r ← claim_reserved rec rev;
      _ ← locked claimDone;
      mret r.

(** [visit]. *)
Definition visit (id : string) : prog (option started) :=
  g ← call (KvGet BJobs (jobKey id));
  match g with
  | Err _ => mret None
  | Ok e =>
      match dec_job (e_value e) with
      | None => mret None
      | Some rec =>
          now ← call Now;
          match visit_action rec now with
          | ActTerminate reason => _ ← terminate rec (e_revision e) reason; mret None
          | ActClaim => claim rec (e_revision e)
          | ActNothing => mret None
          end
      end
  end.

(** The loop of [scan], the owners it starts collected. *)
Fixpoint visit_due (l : list (string * cachedJob)) (now : time) (slotFree : bool) :
    prog (list started) :=
  match l with
  | [] => mret []
  | (id, job) :: l' =>
      if negb (due job now slotFree) then visit_due l' now slotFree
      else
        s ← visit id;
        rest ← visit_due l' now slotFree;
        mret (match s with None => rest | Some o => o :: rest end)
  end.

(** [scan]. *)
Definition scan : prog (list started) :=
  gen ← call Generation;
  watched ← call (WatchSynced gen);
  if negb watched then mret []
  else
    replayed ← reading (Synced gen);
    if negb replayed then mret []
    else
      v ← call (View gen);
      match v with
      | Err _ => mret []
      | Ok _ =>
          now ← call Now;
          slotFree ← reading (fun w => w_active w <? wc_maxActive cfg);
          candidates ← reading nonterminalJobs;
          visit_due candidates now slotFree
      end.
End worker.

(** ** Deciding: the filter and the fresh read agree *)

(** The cached filter never hides work.  If the pass skips a record whose
    cached copy is current, the fresh visit would have done nothing with it, or
    it was pending and this replica had no free slot; and what it does not skip
    is a record some slot-free visit could act on.  A cached lease older than
    the store's can only make the filter admit more. *)
Theorem due_complete (rec : Job) (rev : N) (now : time) (slotFree : bool) :
  due (cached_of rec rev) now slotFree = false ->
  visit_action rec now = ActNothing \/
  (slotFree = false /\ j_State rec = StatePending /\ visit_action rec now = ActClaim).
Proof.
  unfold due, visit_action, claimable. simpl.
  destruct (j_State rec) eqn:Hs; intros Hd; rewrite ?Hs;
    repeat (rewrite bool_decide_false by done); repeat (rewrite bool_decide_true by done);
    cbn [andb]; auto.
  - rewrite Hd. auto.
  - apply orb_false_iff in Hd as [-> ->]. auto.
  - apply orb_false_iff in Hd as [-> ->]. auto.
Qed.

Lemma due_complete_witness :
  due (cached_of sample_job 3) (401 * second) false = false /\
  (visit_action sample_job (401 * second) = ActNothing \/
   (false = false /\ j_State sample_job = StatePending /\
    visit_action sample_job (401 * second) = ActClaim)).
Proof. split; [reflexivity|]. apply (due_complete sample_job 3). reflexivity. Defined.

(** The sweep of a state a Collection never leaves.  [visit] ends a record
    only in three cases, each a bound the record itself carries passed by more
    than the clock skew, and claims only one that is pending or whose lease has
    lapsed by more than the skew; a terminal record, and one in a state this
    version does not know, it leaves alone. *)
Theorem visit_action_spec (rec : Job) (now : time) :
  match visit_action rec now with
  | ActTerminate reason =>
      (j_State rec = StateInitializing /\ reason = ReasonNotPublished /\
       j_CreatedAt rec + publishGrace + skewMargin < now) \/
      (j_State rec = StatePending /\ reason = ReasonNotClaimed /\ j_ClaimBy rec + skewMargin < now) \/
      (j_State rec = StateRunning /\ reason = ReasonDeadlineExceeded /\
       exists d, j_Deadline rec = Some d /\ d + skewMargin < now)
  | ActClaim =>
      (j_State rec = StatePending /\ now <= j_ClaimBy rec + skewMargin) \/
      (j_State rec = StateRunning /\ (exists l, j_LeaseUntil rec = Some l /\ l + skewMargin < now) /\
       forall d, j_Deadline rec = Some d -> now <= d + skewMargin)
  | ActNothing =>
      terminal (j_State rec) = true \/ (exists s, j_State rec = StateOther s) \/
      (j_State rec = StateInitializing /\ now <= j_CreatedAt rec + publishGrace + skewMargin) \/
      (j_State rec = StateRunning /\
       (forall l, j_LeaseUntil rec = Some l -> now <= l + skewMargin) /\
       forall d, j_Deadline rec = Some d -> now <= d + skewMargin)
  end.
Proof.
  unfold visit_action, claimable, before.
  destruct (j_State rec) eqn:Hs;
    repeat (rewrite bool_decide_false by done); repeat (rewrite bool_decide_true by done);
    cbn [andb]; auto.
  - destruct (Z.ltb_spec (j_CreatedAt rec + (publishGrace + skewMargin)) now); [left|do 2 right; left];
      repeat split; lia.
  - destruct (Z.ltb_spec (j_ClaimBy rec + skewMargin) now); [right; left|left]; repeat split; lia.
  - destruct (j_Deadline rec) as [d|] eqn:Hd.
    + destruct (Z.ltb_spec (d + skewMargin) now); [do 2 right; eauto 10|].
      destruct (j_LeaseUntil rec) as [l|] eqn:Hl.
      * destruct (Z.ltb_spec (l + skewMargin) now).
        -- right. split; [done|]. split; [by eauto|]. by intros ? [= <-].
        -- do 3 right. split; [done|]. by split; intros ? [= <-].
      * do 3 right. split; [done|]. by split; [|intros ? [= <-]].
    + destruct (j_LeaseUntil rec) as [l|] eqn:Hl; [|by do 3 right].
      destruct (Z.ltb_spec (l + skewMargin) now).
      * right. split; [done|]. by split; [eauto|].
      * do 3 right. split; [done|]. by split; [intros ? [= <-]|].
  - right; left. by eexists.
Qed.

(** ** The scan is lawful *)

Lemma fail_transition (rec : Job) (reason : string) (now : time) :
  allowed (j_State rec) StateFailed -> transition rec (set_ended StateFailed reason now rec).
Proof. intros Ha. split; simpl; try done; auto. Qed.

Lemma claimed_transition (cfg : WorkerConfig) (rec rec' : Job) (now : time) :
  (j_State rec = StatePending \/ j_State rec = StateRunning) -> claimed cfg rec now = Some rec' ->
  transition rec rec' /\ j_ID rec' = j_ID rec /\ j_State rec' = StateRunning /\
  j_LeaseUntil rec' = Some (now + wc_leaseTTL cfg) /\ j_Attempt rec' = j_Attempt rec +! 1.
Proof.
  intros Hs Hc. unfold claimed in Hc. cbv zeta in Hc.
  assert (allowed (j_State rec) StateRunning) as Ha by (destruct Hs as [-> | ->]; constructor).
  destruct (j_StartedAt rec) as [s|] eqn:Hst; [|destruct (Deadline _ _ _) as [d|]; [|done]];
    injection Hc as <-; simpl; (split; [|done]); split; simpl; try done; eauto 10;
    rewrite Hst; [naive_solver|by intros []].
Qed.

(** The record a claim of a well-formed one writes has a deadline. *)
Lemma claimed_deadline (cfg : WorkerConfig) (rec rec' : Job) (now : time) :
  (j_State rec = StatePending \/ j_State rec = StateRunning) -> well_formed rec ->
  claimed cfg rec now = Some rec' -> is_Some (j_Deadline rec').
Proof.
  intros Hs Hw Hc. destruct (claimed_transition cfg rec rec' now Hs Hc) as (Ht & _ & Hr & _).
  pose proof (transition_well_formed _ _ Ht Hw) as Hw'. unfold well_formed in Hw'.
  rewrite Hr in Hw'. naive_solver.
Qed.

(** A record this replica's ceilings admit can be claimed: the deadline formula
    has something to divide by. *)
Lemma claimed_defined (cfg : WorkerConfig) (rec : Job) (now : time) :
  Validate (j_Policy rec) (wc_limits cfg) = [] -> is_Some (claimed cfg rec now).
Proof.
  intros Hv%Validate_within. unfold claimed. cbv zeta. destruct (j_StartedAt rec); [by eexists|].
  apply fmap_is_Some. unfold Deadline.
  destruct Hv as (_ & _ & _ & _ & _ & _ & Hp & _). unfold parallel_within in Hp.
  case_match; [lia|]. by eexists.
Qed.

Lemma visit_action_allowed (rec : Job) (now : time) (reason : string) :
  visit_action rec now = ActTerminate reason -> allowed (j_State rec) StateFailed.
Proof.
  intros H. pose proof (visit_action_spec rec now) as Hs. rewrite H in Hs.
  destruct Hs as [(-> & _)|[(-> & _)|(-> & _)]]; constructor.
Qed.

Section worker_lawful.
  Context {V St : Type} `{HW : Wire V} `{HL : !WireLaws V} `{HC : Has St Caches}
    `{HK : Has St WorkerState} `{HA : !Apart St WorkerState Caches}.
  Variable cfg : WorkerConfig.
  Abbreviation log := (Lifecycle.log (V:=V)).

Lemma terminate_lawful (K : log) (rec : Job) (rev : N) (reason : string) {B}
    (f : unit -> Effects.prog V St B) (Q : log -> B -> Prop) :
  taken K (j_ID rec) rev rec -> allowed (j_State rec) StateFailed ->
  (forall K', log_le K K' -> lawful K' (f tt) Q) ->
  lawful K (terminate rec rev reason ≫= f) Q.
Proof.
  intros Ht Ha Hf. unfold terminate. apply lawful_bind. apply lawful_harmless; [done|].
  intros K1 now H1 _ _. destruct (MarshalBounded _) as [v| |] eqn:Hm; [|by apply Hf..].
  apply MarshalBounded_Some in Hm as [Hm _]. apply lawful_call.
  { eapply update_call_ok; [by eapply taken_mono|exact Hm|by apply fail_transition|done]. }
  intros K2 u H2 _ _. assert (log_le K K2) as H02 by (by trans K1).
  destruct u; [|by apply Hf]. apply lawful_harmless; [done|]. intros K3 [] H3 _ _.
  apply lawful_harmless; [done|]. intros K4 [] H4 _ _.
  apply releaseActive_lawful. intros K5 H5. apply Hf. trans K2; [done|]. trans K3; [done|].
  by trans K4.
Qed.

(** The owner a claim starts holds a running record the bucket took, at the
    revision the claim's own update returned. *)
Definition start_sound (K : log) (s : option started) : Prop :=
  forall o, s = Some o ->
    taken K (j_ID (sd_Record o)) (sd_Revision o) (sd_Record o) /\
    j_State (sd_Record o) = StateRunning /\ is_Some (j_LeaseUntil (sd_Record o)) /\
    is_Some (j_Deadline (sd_Record o)).

Lemma claim_reserved_lawful (K : log) (rec : Job) (rev : N) {B}
    (f : option started -> Effects.prog V St B) (Q : log -> B -> Prop) :
  taken K (j_ID rec) rev rec -> (j_State rec = StatePending \/ j_State rec = StateRunning) ->
  well_formed rec -> Validate (j_Policy rec) (wc_limits cfg) = [] ->
  (forall K' s, log_le K K' -> start_sound K' s -> lawful K' (f s) Q) ->
  lawful K (claim_reserved cfg rec rev ≫= f) Q.
Proof.
  intros Ht Hs Hwf Hval Hf. unfold claim_reserved. apply lawful_bind. case_match.
  { apply (locked_lawful K (A:=WorkerState)). intros K1 [] H1 _.
    apply terminate_lawful; [by eapply taken_mono|destruct Hs as [-> | ->]; constructor|].
    intros K2 H2. apply Hf; [by trans K1|done]. }
  apply lawful_harmless; [done|]. intros K1 now H1 _ _.
  assert (forall K', log_le K K' -> lawful K' (_ ← locked (V:=V) (St:=St) releaseLocalSlot; mret None)
    (fun K2 a => lawful K2 (f a) Q)) as Hrel.
  { intros K' HK'. apply (locked_lawful K' (A:=WorkerState)). intros K2 [] H2 _.
    apply Hf; [by trans K'|done]. }
  destruct (claimed_defined cfg rec now Hval) as [rec' Hc]. rewrite Hc.
  destruct (claimed_transition cfg rec rec' now Hs Hc) as (Htr & Hid & Hrun & Hlease & _).
  destruct (MarshalBounded _) as [v| |] eqn:Hm; [|by apply Hrel..].
  apply MarshalBounded_Some in Hm as [Hm _]. apply lawful_call.
  { rewrite Hid. eapply update_call_ok; [by eapply taken_mono|exact Hm|exact Htr|done]. }
  intros K2 u H2 _ Hu. assert (log_le K K2) as H02 by (by trans K1).
  destruct u as [newRev|]; [|by apply Hrel].
  apply logTransition_lawful. intros K3 H3 _. apply lawful_harmless; [done|].
  intros K4 [] H4 _ _. rewrite Hlease. apply (locked_lawful K4 (A:=WorkerState)).
  intros K5 fl H5 _. assert (log_le K2 K5) as H25 by (trans K3; [done|]; by trans K4).
  apply Hf; [by trans K2|]. intros o [= <-]. simpl. split; [|rewrite Hlease; by eauto using claimed_deadline].
  exists v. split; [by apply H25|by apply dec_enc_job].
Qed.

Lemma visit_lawful (K : log) (id : string) {B}
    (f : option started -> Effects.prog V St B) (Q : log -> B -> Prop) :
  (forall K' s, log_le K K' -> start_sound K' s -> lawful K' (f s) Q) ->
  lawful K (visit cfg id ≫= f) Q.
Proof.
  intros Hf. unfold visit. apply lawful_bind, lawful_call; [done|]. intros K1 g H1 Hok Ha.
  destruct g as [e|]; [|by apply Hf]. destruct (dec_job (e_value e)) as [rec|] eqn:Hd; [|by apply Hf].
  assert (taken K1 (j_ID rec) (e_revision e) rec) as Ht.
  { destruct (log_job _ Hok _ _ _ Ha) as (rec' & Hd' & <-). assert (rec' = rec) as -> by congruence.
    by exists (e_value e). }
  pose proof (log_wf _ Hok _ _ _ _ Ha Hd) as Hwf. apply lawful_harmless; [done|]. intros K2 now H2 _ _.
  assert (log_le K K2) as H02 by (by trans K1).
  destruct (visit_action rec now) as [reason| |] eqn:Hact; [| |by apply Hf].
  - apply terminate_lawful; [by apply (taken_mono K1 K2)|by eapply visit_action_allowed|].
    intros K3 H3. apply Hf; [by trans K2|done].
  - assert (j_State rec = StatePending \/ j_State rec = StateRunning) as Hs.
    { pose proof (visit_action_spec rec now) as Hsp. rewrite Hact in Hsp.
      destruct Hsp as [(? & _)|(? & _)]; auto. }
    unfold claim. destruct (Z.ltb_spec 0 (Z.of_nat (length (Validate (j_Policy rec) (wc_limits cfg)))))
      as [Hlen|Hlen].
    + apply terminate_lawful; [by apply (taken_mono K1 K2)|destruct Hs as [-> | ->]; constructor|].
      intros K3 H3. apply Hf; [by trans K2|done].
    + apply (locked_lawful K2 (A:=WorkerState)). intros K3 [] H3 _; cbn [negb].
      * apply claim_reserved_lawful; [apply (taken_mono K1 K3); [by trans K2|done]|done|done| |].
        { destruct (Validate _ _); [done|]. simpl in Hlen. lia. }
        intros K4 s H4 Hsound. apply (locked_lawful K4 (A:=WorkerState)). intros K5 [] H5 _.
        apply Hf; [trans K2; [done|]; trans K3; [done|]; by trans K4|].
        intros o Ho. destruct (Hsound o Ho) as (? & ?). split; [by apply (taken_mono K4 K5)|done].
      * apply Hf; [by trans K2|done].
Qed.

Lemma visit_due_lawful (K : log) (l : list (string * cachedJob)) (now : time) (slotFree : bool) :
  lawful K (visit_due cfg l now slotFree)
    (fun K' started => forall o, o ∈ started -> start_sound K' (Some o)).
Proof.
  revert K. induction l as [|[id job] l IH]; intros K.
  { intros o Ho. by apply not_elem_of_nil in Ho. }
  cbn [visit_due]. case_match; [done|]. apply visit_lawful. intros K1 s H1 Hs.
  apply lawful_bind. eapply lawful_weaken; [apply IH|]. simpl. intros K2 rest H2 Hrest o Ho.
  destruct s as [o'|]; [|by apply Hrest]. apply elem_of_cons in Ho as [->|Ho]; [|by apply Hrest].
  intros o2 [= <-]. destruct (Hs o' eq_refl) as (? & ?). split; [by apply (taken_mono K1 K2)|done].
Qed.

Lemma scan_lawful (K : log) :
  lawful K (scan cfg) (fun K' started => forall o, o ∈ started -> start_sound K' (Some o)).
Proof.
  assert (forall K' : log, lawful K' (mret [] : Effects.prog V St (list started))
    (fun K' started => forall o, o ∈ started -> start_sound K' (Some o))) as Hnil
    by (intros K' o Ho; by apply not_elem_of_nil in Ho).
  unfold scan. apply lawful_harmless; [done|]. intros K1 gen _ _ _.
  apply lawful_harmless; [done|]. intros K2 watched _ _ _. case_match; [by apply Hnil|].
  apply lawful_reading. intros K3 st _ _ _. case_match; [by apply Hnil|].
  apply lawful_harmless; [done|]. intros K4 v _ _ _. destruct v; [|by apply Hnil].
  apply lawful_harmless; [done|]. intros K5 now _ _ _.
  apply lawful_reading. intros K6 st6 _ _ _. apply lawful_reading. intros K7 st7 _ _ _.
  apply visit_due_lawful.
Qed.
End worker_lawful.

(** ** The slot accounting of a claim *)

Section slots.
  Context {V St : Type} `{HW : Wire V} `{HC : Has St Caches} `{HK : Has St WorkerState}
    `{HKL : !HasLaws St WorkerState}.
  Variable cfg : WorkerConfig.

(** The worker's own fields stand still between this goroutine's sections. *)
Definition still (st st' : St) : Prop := the (A:=WorkerState) st' = the st.

(** The worker after a claim that started an owner, or did not. *)
Definition slot_post (w : WorkerState) (s : option started) (st' : St) : Prop :=
  match s with
  | None => the st' = w
  | Some o =>
      w_stopped w = false /\ w_active w < wc_maxActive cfg /\
      w_active (the st') = w_active w + 1 /\ w_claims (the st') = w_claims w /\
      w_stopped (the st') = false /\
      w_inFlight (the st') !! j_ID (sd_Record o) = Some (sd_Entry o) /\
      exists lease, j_LeaseUntil (sd_Record o) = Some lease /\
        w_entries (the st') !! sd_Entry o = Some (newInFlight (j_ID (sd_Record o)) lease)
  end.

Lemma swp_locked {A} (g : WorkerState -> A * WorkerState) {B} (f : A -> Effects.prog V St B)
    h st Q :
  (forall st', the st' = (g (the st)).2 ->
    forall e, swp still (f (g (the st)).1) (e :: h) st' Q) ->
  swp still (locked g ≫= f) h st Q.
Proof.
  intros Hf. apply swp_call. intros r st2 (st1 & Hst & Heq). unfold still in Hst.
  destruct (g (the st1)) as [a w] eqn:Hg. rewrite Hst in Hg. injection Heq as <- <-.
  rewrite Hg in Hf. apply Hf. simpl. apply the_put.
Qed.

Lemma terminate_quiet (rec : Job) (rev : N) (reason : string) :
  quiet (terminate (V:=V) (St:=St) rec rev reason).
Proof.
  unfold terminate. intros now. cbn. destruct (MarshalBounded _); [|done..].
  intros [rv|]; [|done]. intros [] []. unfold releaseActive. intros g. cbn.
  destruct g as [e|]; [|done]. destruct (dec_active _); [|done]. case_match; [done|]. by intros d.
Qed.

Lemma with_active_back (w : WorkerState) :
  in_int64 (w_active w) -> in_int64 (w_active w + 1) ->
  with_claims (w_claims w + 1 - 1) (with_active (w_active w +! 1 -! 1) w) = w.
Proof.
  intros H1 H2. rewrite (wrap64_id (_ + 1)) by done.
  replace (w_active w + 1 - 1) with (w_active w) by lia. rewrite wrap64_id by done.
  replace (w_claims w + 1 - 1) with (w_claims w) by lia. by destruct w.
Qed.

(** A claim accounts for its slot on every path.  Whatever the store
    answers, a claim that starts no owner leaves the worker as it was: the
    slot it took is back, and nothing is registered; one that does holds
    exactly one more slot, was not past the replica's ceiling or its drain, and
    has registered the owner's entry, at the cutoff of the lease it wrote, for
    the drain to find.  The window [Drain] waits for is closed either way. *)
Theorem claim_slots (rec : Job) (rev : N) (st st' : St) h h' (s : option started) :
  in_int64 (wc_maxActive cfg) -> in_int64 (w_active (the st)) ->
  sexec still (claim cfg rec rev) h st h' st' s -> slot_post (the st) s st'.
Proof.
  intros Hmax Hact. cut (swp still (claim cfg rec rev) h st (fun s _ st' => slot_post (the st) s st')).
  { intros Hwp Hex. by apply (swp_sexec _ _ _ _ _ _ _ _ Hwp Hex). }
  set (w := the (A:=WorkerState) st) in *.
  unfold claim. case_match.
  { apply swp_bind, swp_quiet; [apply terminate_quiet|]. done. }
  apply swp_locked. fold w. unfold reserveLocalSlot.
  destruct (w_stopped w) eqn:Hstop; [by intros st1 Hst1 e|].
  destruct (Z.leb_spec (wc_maxActive cfg) (w_active w)) as [|Hlt]; [by intros st1 Hst1 e|].
  cbn [orb fst snd negb]. intros st1 Hst1 e1.
  assert (in_int64 (w_active w + 1)) as Hact1 by in64.
  assert (forall (st2 : St) (h2 : list (event V St)), the st2 = the st1 ->
    swp still (_ ← locked releaseLocalSlot; mret None : Effects.prog V St (option started)) h2 st2
      (fun s h3 st3 => swp still (_ ← locked claimDone; mret s : Effects.prog V St (option started))
        h3 st3 (fun s _ st' => slot_post w s st'))) as Hback.
  { intros st2 h2 Hst2. apply swp_locked. intros st3 Hst3 e3. apply swp_locked.
    intros st4 Hst4 e4. unfold slot_post. simpl. rewrite Hst4, Hst3, Hst2, Hst1.
    exact (with_active_back w Hact Hact1). }
  apply swp_bind. unfold claim_reserved. case_match.
  { apply swp_locked. intros st2 Hst2 e2. apply swp_bind, swp_quiet; [apply terminate_quiet|].
    intros _ h3 _. apply swp_locked. intros st4 Hst4 e4. unfold slot_post. simpl.
    rewrite Hst4, Hst2, Hst1. exact (with_active_back w Hact Hact1). }
  apply swp_call. intros now st2 ->. destruct (claimed cfg rec now) as [rec'|] eqn:Hc.
  2:{ by intros []. }
  destruct (MarshalBounded _) as [v| |]; [|by apply Hback..].
  apply swp_call. intros u st2 ->. destruct u as [newRev|]; [|by apply Hback].
  apply swp_call. intros [] st2 ->. apply swp_call. intros [] st2 ->.
  destruct (j_LeaseUntil rec') as [lease|] eqn:Hlease; [|by intros []].
  apply swp_locked. intros st2 Hst2 e2. apply swp_locked. intros st3 Hst3 e3.
  unfold slot_post. simpl. rewrite Hst3, Hst2, Hst1. simpl.
  rewrite (wrap64_id (_ + 1)) by done. rewrite !lookup_insert_eq.
  repeat split; try done; [lia|]. by eexists.
Qed.
End slots.

(** ** What a claim writes *)

Section one_claim.
  Context {V St : Type} `{HW : Wire V} `{HL : !WireLaws V} `{HC : Has St Caches}
    `{HK : Has St WorkerState}.
  Variables (cfg : WorkerConfig) (rec : Job) (rev : N).

(** Each update is of this record at the revision it was read at, and is the
    claim, of a record within this replica's ceilings and with an attempt left,
    or the failure that says which of the two it lacked. *)
Definition claim_call (h : list (event V St)) (R : Type) (o : op V St R) : Prop :=
  match o with
  | KvUpdate b k v expected =>
      b = BJobs /\ k = jobKey (j_ID rec) /\ expected = rev /\ exists new now,
        dec_job v = Some new /\ Ev Now now ∈ h /\
        ((Validate (j_Policy rec) (wc_limits cfg) = [] /\ j_Attempt rec < wc_maxAttempts cfg /\
          claimed cfg rec now = Some new) \/
         (Validate (j_Policy rec) (wc_limits cfg) = [] /\ wc_maxAttempts cfg <= j_Attempt rec /\
          new = set_ended StateFailed ReasonAttemptsExhausted now rec) \/
         (Validate (j_Policy rec) (wc_limits cfg) <> [] /\
          new = set_ended StateFailed ReasonLimitExceeded now rec))
  | KvDelete b k expected =>
      b = BJobs /\ k = activeKey (j_Namespace rec) (j_Service rec) /\
      exists e a, Ev (KvGet b k) (Ok e) ∈ h /\ e_revision e = expected /\
        dec_active (e_value e) = Some a /\ av_ID a = j_ID rec
  | KvCreate _ _ _ | ObjPut _ _ | ObjDelete _ => False
  | _ => True
  end.

Lemma releaseActive_wp (r : Job) (h : list (event V St)) :
  j_Namespace r = j_Namespace rec -> j_Service r = j_Service rec -> j_ID r = j_ID rec ->
  wp claim_call (releaseActive r) h (fun _ _ => True).
Proof.
  intros Hns Hsvc Hid. unfold releaseActive. rewrite Hns, Hsvc, Hid.
  apply wp_call; [done|]. intros [e|]; [|done].
  destruct (dec_active (e_value e)) as [a|] eqn:Hd; [|done].
  destruct (String.eqb_spec (av_ID a) (j_ID rec)) as [Ha|]; [|done]. cbn [negb].
  apply wp_call; [|done]. split; [done|]. split; [done|]. exists e, a.
  split; [apply list_elem_of_here|done].
Qed.

Lemma terminate_wp (reason : string) (h : list (event V St)) :
  (forall now, Validate (j_Policy rec) (wc_limits cfg) = [] /\ wc_maxAttempts cfg <= j_Attempt rec /\
      set_ended StateFailed reason now rec = set_ended StateFailed ReasonAttemptsExhausted now rec \/
    (Validate (j_Policy rec) (wc_limits cfg) <> [] /\
      set_ended StateFailed reason now rec = set_ended StateFailed ReasonLimitExceeded now rec)) ->
  wp claim_call (terminate rec rev reason) h (fun _ _ => True).
Proof.
  intros Hr. unfold terminate. apply wp_call; [done|]. intros now.
  destruct (MarshalBounded _) as [v| |] eqn:Hm; [|done..].
  apply MarshalBounded_Some in Hm as [Hm%dec_enc_job _]. apply wp_call.
  - split; [done|]. split; [done|]. split; [done|]. eexists _, now. split; [done|].
    split; [apply list_elem_of_here|]. right. destruct (Hr now); auto.
  - intros [rv|]; [|done]. do 2 (split; [done|]; intros []). by apply releaseActive_wp.
Qed.

(** The owner a claim starts follows an acknowledged update. *)
Definition claim_post (s : option started) (h : list (event V St)) : Prop :=
  forall o, s = Some o -> exists v now,
    Ev (KvUpdate BJobs (jobKey (j_ID rec)) v rev) (Ok (sd_Revision o)) ∈ h /\
    dec_job v = Some (sd_Record o) /\ claimed cfg rec now = Some (sd_Record o).

(** What a claim writes, and what work it starts.  Every update it makes
    is of the record it was given at the revision that was read, and is either
    the claim, only of a record this replica's ceilings admit and whose
    attempts are not exhausted, or the failure naming which of the two it
    lacked; the active key is deleted only at a revision a read found it naming
    this Collection.  An owner starts only on an update the bucket
    acknowledged, with the record that update wrote and its new revision. *)
Theorem claim_writes (h : list (event V St)) (s : option started) :
  exec (claim cfg rec rev) [] h s ->
  calls_ok claim_call [] h /\
  forall o, s = Some o -> exists v now,
    Ev (KvUpdate BJobs (jobKey (j_ID rec)) v rev) (Ok (sd_Revision o)) ∈ h /\
    dec_job v = Some (sd_Record o) /\ claimed cfg rec now = Some (sd_Record o).
Proof.
  intros Hex. apply and_comm.
  refine (wp_exec claim_call _ [] claim_post h s _ Hex). clear Hex.
  unfold claim. destruct (Validate _ _) as [|vi l] eqn:Hv; cbn [length Z.of_nat Z.ltb Z.compare].
  2:{ apply wp_bind. eapply wp_mono; [apply terminate_wp; intros now; right; by rewrite Hv|done]. }
  apply wp_call; [done|]. intros []; [|done]. cbn [negb]. apply wp_bind.
  apply (wp_mono _ _ _ claim_post).
  2:{ intros s' h' Hs. split; [done|]. intros []. intros o Ho.
      destruct (Hs o Ho) as (v & now & ? & ? & ?). exists v, now.
      split; [by apply list_elem_of_further|done]. }
  unfold claim_reserved. destruct (Z.leb_spec (wc_maxAttempts cfg) (j_Attempt rec)).
  { split; [done|]. intros []. apply wp_bind. eapply wp_mono; [apply terminate_wp|done].
    intros now. by left. }
  apply wp_call; [done|]. intros now. destruct (claimed cfg rec now) as [rec'|] eqn:Hc; [|by split].
  assert (j_ID rec' = j_ID rec) as Hid.
  { unfold claimed in Hc. destruct (j_StartedAt rec); [by injection Hc as <-|].
    destruct (Deadline _ _ _); [by injection Hc as <-|done]. }
  destruct (MarshalBounded _) as [v| |] eqn:Hm; [|by split..].
  apply MarshalBounded_Some in Hm as [Hm%dec_enc_job _]. rewrite Hid. apply wp_call.
  { split; [done|]. split; [done|]. split; [done|]. exists rec', now. split; [done|].
    split; [apply list_elem_of_here|]. by left. }
  intros [newRev|]; [|by split]. do 2 (split; [done|]; intros []).
  destruct (j_LeaseUntil rec') as [lease|]; [|by split].
  split; [done|]. intros fl. intros o [= <-]. exists v, now. simpl. split; [|done].
  do 3 apply list_elem_of_further. apply list_elem_of_here.
Qed.
End one_claim.

(** ** The theorems at a concrete input *)

Definition demo_config : WorkerConfig :=
  {| wc_limits := small_limits; wc_leaseTTL := minute; wc_maxAttempts := 3; wc_maxActive := 2;
     wc_owner := {| ow_Instance := "gw-0"; ow_Pod := "gw-0" |} |}.

Abbreviation worker_memory := (Caches * WorkerState)%type.

Lemma claim_slots_witness :
  (in_int64 (wc_maxActive demo_config) /\ in_int64 (w_active NewWorker)) /\
  exists h st' s, sexec (V:=tagged) still (claim demo_config sample_job 3) []
      (NewCaches, NewWorker) h st' s /\ slot_post demo_config NewWorker s st' /\ s <> None.
Proof.
  split; [split; by vm_compute|].
  destruct (run_test_run ack (claim demo_config sample_job 3) (NewCaches, NewWorker)
    (fun s => match s with Some _ => true | None => false end)) as (s & h & st' & Hrun & Hs);
    [vm_compute; reflexivity|].
  exists h, st', s.
  assert (sexec (V:=tagged) (still (St:=worker_memory)) (claim demo_config sample_job 3) []
    (NewCaches, NewWorker) h st' s) as Hex.
  { refine (run_sexec still ack _ _ _ _ _ _ _ _ Hrun); [done|].
    intros R o st r st1. destruct o; simpl; intros [=]; by subst. }
  split; [exact Hex|]. split; [|by destruct s].
  refine (claim_slots demo_config sample_job 3 (NewCaches, NewWorker) st' [] h s _ _ Hex);
    by vm_compute.
Defined.

Lemma claim_writes_witness :
  exists h s, exec (V:=tagged) (St:=worker_memory) (claim demo_config sample_job 3) [] h s /\
    calls_ok (claim_call demo_config sample_job 3) [] h.
Proof.
  destruct (run_test_run ack (claim (V:=tagged) (St:=worker_memory) demo_config sample_job 3)
    (NewCaches, NewWorker) (fun s => match s with Some _ => true | None => false end))
    as (s & h & st' & Hrun & Hs); [vm_compute; reflexivity|].
  apply run_exec in Hrun. exists h, s. split; [exact Hrun|].
  exact (proj1 (claim_writes demo_config sample_job 3 h s Hrun)).
Defined.
