(* ===== verification/Owner.v ===== *)
(** * The owner loop

    src/internal/pgo/worker.go, from the claim on: the entry the drain and the
    cutoff timer share with the owner, the renewal of the lease, the one final
    update, and the loop itself as a step on the owner's local state, one event
    of its select at a time. *)

From S2P Require Import Prelude Effects Ident Config Policy Records Keys Caches Lifecycle.
From S2P Require Import Runtime Publisher Worker.

Definition renewCallTimeout : duration := 5 * second.

(** ** The entry *)

Definition fl_with (cutoff : time) (cancelled : bool) (cancels : Z) (ch : bool) (fl : inFlight) :
    inFlight :=
  {| fl_id := fl_id fl; fl_cutoff := cutoff; fl_cancelled := cancelled; fl_cancels := cancels;
     fl_cancelledCh := ch; fl_done := fl_done fl |}.

(** [install]. *)
Definition install (cutoff : time) (fl : inFlight) : bool * inFlight :=
  if fl_cancelled fl then (false, fl)
  else (true, fl_with cutoff (fl_cancelled fl) (fl_cancels fl) (fl_cancelledCh fl) fl).

(** [cancel]: the work is cancelled, then the channel closed. *)
Definition cancel (now : time) (fl : inFlight) : bool * inFlight :=
  if fl_cancelled fl || before now (fl_cutoff fl) then (false, fl)
  else (true, fl_with (fl_cutoff fl) true (fl_cancels fl + 1) true fl).

(** [abort]. *)
Definition abort (fl : inFlight) : bool * inFlight :=
  if fl_cancelled fl then (false, fl)
  else (true, fl_with (fl_cutoff fl) true (fl_cancels fl + 1) true fl).

(** [state]. *)
Definition fl_state (fl : inFlight) : time * bool := (fl_cutoff fl, fl_cancelled fl).

(** A method of an entry, on the entry at its address. *)
Definition on_entry {R} (a : N) (d : R) (f : inFlight -> R * inFlight) (w : WorkerState) :
    R * WorkerState :=
  match w_entries w !! a with
  | None => (d, w)
  | Some fl =>
      let '(r, fl') := f fl in
      (r, {| w_active := w_active w; w_stopped := w_stopped w; w_draining := w_draining w;
             w_claims := w_claims w; w_inFlight := w_inFlight w;
             w_entries := <[a := fl']> (w_entries w); w_next := w_next w |})
  end.

(** ** The work's result *)

Record workResult := {
  wr_Reason : string;
  wr_Object : string;
  wr_Bytes : Z;
  wr_Manifest : option Manifest;
  wr_ResolvedVersion : string;
  wr_Progress : Progress
}.

(** The record [finish] proposes. *)
Definition finished (entry : Job) (res : workResult) (now : time) : Job :=
  let ok := String.eqb (wr_Reason res) EmptyString in
  {| j_ID := j_ID entry; j_Namespace := j_Namespace entry; j_Service := j_Service entry;
     j_Origin := j_Origin entry; j_Slot := j_Slot entry;
     j_ConfigRevision := j_ConfigRevision entry; j_Policy := j_Policy entry;
     j_State := if ok then StateCompleted else StateFailed;
     j_Attempt := j_Attempt entry; j_Owner := j_Owner entry; j_ClaimBy := j_ClaimBy entry;
     j_LeaseUntil := j_LeaseUntil entry; j_Deadline := j_Deadline entry;
     j_Reason := if ok then j_Reason entry else wr_Reason res;
     j_ResolvedVersion :=
       if String.eqb (wr_ResolvedVersion res) EmptyString then j_ResolvedVersion entry
       else wr_ResolvedVersion res;
     j_Progress := wr_Progress res; j_Manifest := wr_Manifest res;
     j_Artifact :=
       if ok then Some {| ar_Object := wr_Object res; ar_Bytes := wr_Bytes res |}
       else j_Artifact entry;
     j_IdempotencyKey := j_IdempotencyKey entry; j_SnapshotHash := j_SnapshotHash entry;
     j_CreatedBy := j_CreatedBy entry; j_CreatedAt := j_CreatedAt entry;
     j_StartedAt := j_StartedAt entry; j_FinishedAt := Some now;
     j_ExpiresAt :=
       if ok then Some (now + Retention (PArtifact (j_Policy entry))) else j_ExpiresAt entry |}.

(** What a renewal returns. *)
Inductive renewal :=
  | Renewed (rev : N) (lease : time)
  | LeaseLapsed
  | RenewFailed (e : store_err).

(** ** The loop's local state *)

Record OwnerState := {
  os_entry : Job;
  os_rev : N;
  os_committed : time;
  os_deadline : time;
  os_current : Progress;
  os_aborted : bool;
  os_fl : N
}.

(** One case of the loop's select. *)
Inductive owner_event :=
  | EvProgress (p : Progress)
  | EvResult (res : workResult)
  | EvTick.

Definition os_renewed (rev : N) (lease : time) (s : OwnerState) : OwnerState :=
  {| os_entry := set_lease lease (os_current s) (os_entry s); os_rev := rev; os_committed := lease;
     os_deadline := os_deadline s; os_current := os_current s; os_aborted := os_aborted s;
     os_fl := os_fl s |}.
Definition os_abort (s : OwnerState) : OwnerState :=
  {| os_entry := os_entry s; os_rev := os_rev s; os_committed := os_committed s;
     os_deadline := os_deadline s; os_current := os_current s; os_aborted := true;
     os_fl := os_fl s |}.
Definition os_progress (p : Progress) (s : OwnerState) : OwnerState :=
  {| os_entry := os_entry s; os_rev := os_rev s; os_committed := os_committed s;
     os_deadline := os_deadline s; os_current := p; os_aborted := os_aborted s;
     os_fl := os_fl s |}.

Section owner.
  Context {V St : Type} `{HW : Wire V} `{HC : Has St Caches} `{HK : Has St WorkerState}.
  Abbreviation prog := (Effects.prog V St).
  Variable cfg : WorkerConfig.

(** [discardArtifact]. *)
Definition discardArtifact (res : workResult) : prog unit :=
  if String.eqb (wr_Object res) EmptyString then mret tt
  else _ ← call (ObjDelete (wr_Object res)); mret tt.

(** [logLostRecord]: it reads and logs. *)
Definition logLostRecord (entry : Job) : prog unit :=
  _ ← call (KvGet BJobs (jobKey (j_ID entry))); mret tt.

(** [renew]; the update runs under a deadline of [callDeadline]. *)
Definition renew (entry : Job) (rev : N) (current : Progress) (committed : time) : prog renewal :=
  now ← call Now;
  let callDeadline := Z.min renewCallTimeout (time_sub committed now -! skewMargin) in
  if callDeadline <=? 0 then mret LeaseLapsed
  else
    let lease := now + wc_leaseTTL cfg in
    match MarshalBounded (enc_job (set_lease lease current entry)) with
    | SerializeFailed | RecordTooLarge => mret (RenewFailed ErrOther)
    | Marshalled value =>
        u ← call (KvUpdate BJobs (jobKey (j_ID entry)) value rev);
        mret match u with Err e => RenewFailed e | Ok newRev => Renewed newRev lease end
    end.

(** The end of [finish]: the update and what follows it. *)
Definition commit_final (id : string) (rev : N) (res : workResult) (proposed : Job) (value : V)
    (now : time) : prog unit :=
  u ← call (KvUpdate BJobs (jobKey id) value rev);
  match u with
  | Err _ => discardArtifact res
  | Ok _ =>
      _ ← logTransition proposed;
      _ ← call (Emit (Metric "collection" (state_name (j_State proposed))));
      _ ← match j_StartedAt proposed with
          | Some started =>
              if bool_decide (j_State proposed = StateCompleted)
              then call (Emit (Timing "collection_duration" (time_sub now started)))
              else mret tt
          | None => mret tt
          end;
      releaseActive proposed
  end.

(** [finish]. *)
Definition finish (fl : N) (entry : Job) (rev : N) (deadline : time) (res : workResult) : prog unit :=
  now ← call Now;
  st ← locked (on_entry fl (zero_time, true) (fun f => (fl_state f, f)));
  let '(cutoff, cancelled) := (st : time * bool) in
  if cancelled || negb (before now cutoff) || negb (before now (deadline - skewMargin))
  then discardArtifact res
  else
    let proposed := finished entry res now in
    match MarshalBounded (enc_job proposed) with
    | Marshalled value => commit_final (j_ID entry) rev res proposed value now
    | SerializeFailed => mret tt
    | RecordTooLarge =>
        _ ← discardArtifact res;
        let small := terminalTooLarge proposed now in
        match MarshalBounded (enc_job small) with
        | Marshalled value => commit_final (j_ID entry) rev res small value now
        | SerializeFailed | RecordTooLarge => mret tt
        end
    end.

(** [abort] of this owner's entry. *)
Definition abortEntry (fl : N) : prog unit :=
  _ ← locked (on_entry fl false abort); mret tt.

(** [stopping]. *)
Definition stopping : prog bool := reading w_draining.

(** One turn of [ownerLoop]; [None] is its return. *)
Definition ownerStep (e : owner_event) (s : OwnerState) : prog (option OwnerState) :=
  match e with
  | EvProgress p => mret (Some (os_progress p s))
  | EvResult res =>
      if os_aborted s then _ ← discardArtifact res; mret None
      else _ ← finish (os_fl s) (os_entry s) (os_rev s) (os_deadline s) res; mret None
  | EvTick =>
      if os_aborted s then mret (Some s)
      else
        stop ← stopping;
        if (stop : bool) then mret (Some s)
        else
          r ← renew (os_entry s) (os_rev s) (os_current s) (os_committed s);
          match r with
          | Renewed newRev lease =>
              ok ← locked (on_entry (os_fl s) false (install (lease - skewMargin)));
              if negb ok then _ ← abortEntry (os_fl s); mret (Some (os_abort s))
              else mret (Some (os_renewed newRev lease s))
          | RenewFailed ErrRevisionMismatch =>
              _ ← abortEntry (os_fl s); _ ← logLostRecord (os_entry s); mret (Some (os_abort s))
          | LeaseLapsed => _ ← abortEntry (os_fl s); mret (Some (os_abort s))
          | RenewFailed _ => mret (Some s)
          end
  end.

(** The loop over the events it is given, until it returns. *)
Fixpoint ownerEvents (l : list owner_event) (s : OwnerState) : prog (option OwnerState) :=
  match l with
  | [] => mret (Some s)
  | e :: l' =>
      r ← ownerStep e s;
      match r with None => mret None | Some s' => ownerEvents l' s' end
  end.

(** The state [ownerLoop] starts from; a record without a lease or a deadline
    is dereferenced. *)
Definition ownerStart (o : started) : prog OwnerState :=
  match j_LeaseUntil (sd_Record o), j_Deadline (sd_Record o) with
  | Some committed, Some deadline =>
      mret {| os_entry := sd_Record o; os_rev := sd_Revision o; os_committed := committed;
              os_deadline := deadline; os_current := j_Progress (sd_Record o);
              os_aborted := false; os_fl := sd_Entry o |}
  | _, _ => panic
  end.

Definition ownerLoop (o : started) (l : list owner_event) : prog (option OwnerState) :=
  s ← ownerStart o; ownerEvents l s.

(** The goroutine of [startOwner] after the loop: its deferred steps. *)
Definition ownerExit (o : started) : prog unit :=
  _ ← locked (unregister (j_ID (sd_Record o)) (sd_Entry o));
  _ ← call (Emit (Gauge "collections_active" (-1)));
  _ ← locked releaseLocalSlot;
  locked (on_entry (sd_Entry o) tt (fun fl =>
    (tt, {| fl_id := fl_id fl; fl_cutoff := fl_cutoff fl; fl_cancelled := fl_cancelled fl;
            fl_cancels := fl_cancels fl; fl_cancelledCh := fl_cancelledCh fl; fl_done := true |}))).

(** [runCutoff] when its timer fires at [now]: whether it is over. *)
Definition cutoffFires (fl : N) (now : time) : prog bool :=
  locked (on_entry fl true (cancel now)).
End owner.

(** ** The entry is a protocol *)

(** One call of a method, and the entry after it. *)
Inductive entry_call : inFlight -> inFlight -> Prop :=
  | ec_install c fl : entry_call fl (install c fl).2
  | ec_cancel now fl : entry_call fl (cancel now fl).2
  | ec_abort fl : entry_call fl (abort fl).2.

(** Any calls, of any goroutines, in any order: [mu] orders them. *)
Definition entry_calls := rtc entry_call.

Definition entry_inv (fl : inFlight) : Prop :=
  fl_cancels fl = (if fl_cancelled fl then 1 else 0) /\ fl_cancelledCh fl = fl_cancelled fl.

Lemma entry_call_inv (fl fl' : inFlight) : entry_call fl fl' -> entry_inv fl -> entry_inv fl'.
Proof.
  unfold entry_inv. intros [c f|now f|f] [H1 H2]; unfold install, cancel, abort;
    destruct (fl_cancelled f) eqn:Hc; simpl; rewrite ?Hc; try done.
  - destruct (before now (fl_cutoff f)); simpl; rewrite ?Hc; [done|]. split; [lia|done].
  - split; [lia|done].
Qed.

Lemma entry_call_frozen (fl fl' : inFlight) :
  entry_call fl fl' -> fl_cancelled fl = true -> fl' = fl.
Proof. by intros [c f|now f|f] Hc; unfold install, cancel, abort; rewrite Hc. Qed.

(** The entry's protocol.  From a new entry, after any calls in any order,
    the work has been cancelled at most once, the channel is closed exactly
    when it has been, and never twice; from the moment it is cancelled nothing
    changes the entry again, so a renewal installed after that is refused and
    the cutoff the drain reads stays; and a timer cancels only at or past the
    cutoff then in force. *)
Theorem entry_protocol (id : string) (lease : time) (fl fl' : inFlight) :
  entry_calls (newInFlight id lease) fl -> entry_calls fl fl' ->
  0 <= fl_cancels fl <= 1 /\
  (fl_cancelledCh fl = true <-> fl_cancels fl = 1) /\
  (fl_cancelled fl = true -> fl' = fl /\ forall c, (install c fl).1 = false) /\
  (forall now, (cancel now fl).1 = true -> fl_cutoff fl <= now /\ fl_cancelled fl = false).
Proof.
  intros H1 H2.
  assert (entry_inv fl) as [Hi Hch].
  { assert (entry_inv (newInFlight id lease)) as H0 by done. revert H0. clear H2.
    induction H1; eauto using entry_call_inv. }
  split; [destruct (fl_cancelled fl); lia|]. split.
  { rewrite Hch, Hi. by destruct (fl_cancelled fl). }
  split.
  - intros Hc. split; [|intros c; unfold install; by rewrite Hc]. clear H1 Hi Hch.
    induction H2 as [|x y z Hxy _ IH]; [done|]. pose proof (entry_call_frozen _ _ Hxy Hc) as ->.
    auto.
  - intros now. unfold cancel, before. destruct (fl_cancelled fl); [done|].
    destruct (Z.ltb_spec now (fl_cutoff fl)); [done|]. by split.
Qed.

Lemma entry_protocol_witness :
  entry_calls (newInFlight "a" (60 * second)) (cancel (58 * second) (newInFlight "a" (60 * second))).2 /\
  fl_cancels (cancel (58 * second) (newInFlight "a" (60 * second))).2 <= 1.
Proof.
  assert (entry_calls (newInFlight "a" (60 * second))
    (cancel (58 * second) (newInFlight "a" (60 * second))).2) as H
    by (eapply rtc_once; constructor).
  split; [exact H|].
  pose proof (entry_protocol "a" (60 * second) _ _ H (rtc_refl _ _)) as [Hb _].
  destruct Hb as [_ Hb]. exact Hb.
Defined.

(** ** An owner that has stopped writes nothing *)

Section stopped.
  Context {V St : Type} `{HW : Wire V} `{HC : Has St Caches} `{HK : Has St WorkerState}.
  Variable cfg : WorkerConfig.

(** The one thing left to do is to delete the object its work wrote. *)
Definition stopped_call (l : list owner_event) (h : list (event V St)) (R : Type) (o : op V St R) :
    Prop :=
  match o with
  | KvCreate _ _ _ | KvUpdate _ _ _ _ | KvDelete _ _ _ | ObjPut _ _ => False
  | ObjDelete name => exists res, EvResult res ∈ l /\ wr_Object res = name /\ name <> EmptyString
  | _ => True
  end.

(** An aborted owner is harmless.  Once the lease has lapsed, the record
    has moved or the work was cancelled under a renewal, whatever the loop is
    handed it writes to no bucket: it neither renews nor finishes, and the only
    store call left to it deletes the object its own late result names.  The
    first result ends it. *)
Theorem aborted_owner_writes_nothing (s : OwnerState) (l : list owner_event)
    (h : list (event V St)) (r : option OwnerState) :
  os_aborted s = true -> exec (ownerEvents cfg l s) [] h r ->
  calls_ok (stopped_call l) [] h /\
  match r with None => exists res, EvResult res ∈ l | Some s' => os_aborted s' = true end.
Proof.
  intros Ha Hex. apply and_comm.
  assert (forall l0 h0 s, os_aborted s = true -> (forall e, e ∈ l0 -> e ∈ l) ->
    wp (stopped_call l) (ownerEvents (V:=V) (St:=St) cfg l0 s) h0 (fun r _ =>
      match r with None => exists res, EvResult res ∈ l | Some s' => os_aborted s' = true end)) as Hwp.
  { clear s Ha h r Hex. induction l0 as [|e l0 IH]; intros h0 s Ha Hin; [done|].
    assert (forall e, e ∈ l0 -> e ∈ l) as Hin' by (intros x Hx; by apply Hin, list_elem_of_further).
    cbn [ownerEvents]. destruct e as [p|res|]; unfold ownerStep; rewrite ?Ha.
    - by apply IH.
    - assert (EvResult res ∈ l) as Hres by apply Hin, list_elem_of_here.
      unfold discardArtifact. destruct (String.eqb_spec (wr_Object res) ""); [by exists res|].
      split; [by exists res|]. intros d. by exists res.
    - by apply IH. }
  refine (wp_exec _ _ _ (fun r _ => match r with
    | None => exists res, EvResult res ∈ l | Some s' => os_aborted s' = true end) _ _ _ Hex).
  by apply Hwp.
Qed.
End stopped.

Definition demo_owner : OwnerState :=
  {| os_entry := sample_job; os_rev := 3; os_committed := 60 * second; os_deadline := 900 * second;
     os_current := j_Progress sample_job; os_aborted := true; os_fl := 0 |}.

Definition demo_result (object reason : string) : workResult :=
  {| wr_Reason := reason; wr_Object := object; wr_Bytes := 10; wr_Manifest := Some sample_manifest;
     wr_ResolvedVersion := "v1"; wr_Progress := j_Progress sample_job |}.

Lemma aborted_owner_writes_nothing_witness :
  exists h, exec (V:=tagged) (St:=worker_memory)
      (ownerEvents demo_config [EvTick; EvResult (demo_result "o-1.pprof" "")] demo_owner) [] h None /\
    calls_ok (stopped_call [EvTick; EvResult (demo_result "o-1.pprof" "")]) [] h.
Proof.
  assert (exec (V:=tagged) (St:=worker_memory)
    (ownerEvents demo_config [EvTick; EvResult (demo_result "o-1.pprof" "")] demo_owner) []
    [Ev (ObjDelete "o-1.pprof") (Ok tt)] None) as Hex by (exists (Ok tt); by split).
  eexists. split; [exact Hex|].
  exact (proj1 (aborted_owner_writes_nothing demo_config demo_owner _ _ None eq_refl Hex)).
Defined.

(** ** The owner's writes are transitions *)

Lemma renew_transition (entry : Job) (lease : time) (p : Progress) :
  j_State entry = StateRunning -> well_formed entry -> transition entry (set_lease lease p entry).
Proof.
  intros Hs Hw. unfold well_formed in Hw. rewrite Hs in Hw. destruct Hw as (Ho & _ & [? Hst] & _).
  split; simpl; rewrite ?Hs, ?Hst; try done; try constructor; eauto; naive_solver.
Qed.

Lemma finish_transition (entry : Job) (res : workResult) (now : time) :
  j_State entry = StateRunning -> transition entry (finished entry res now).
Proof.
  intros Hs. unfold finished. destruct (String.eqb (wr_Reason res) "");
    split; simpl; rewrite ?Hs; try done; try constructor; eauto; by intros [].
Qed.

Lemma too_large_transition (entry : Job) (res : workResult) (now : time) :
  j_State entry = StateRunning ->
  transition entry (terminalTooLarge (finished entry res now) now).
Proof.
  intros Hs. unfold terminalTooLarge.
  split; simpl; rewrite ?Hs; try done; try constructor; eauto; by intros [].
Qed.

Section owner_lawful.
  Context {V St : Type} `{HW : Wire V} `{HL : !WireLaws V} `{HC : Has St Caches}
    `{HK : Has St WorkerState} `{HA : !Apart St WorkerState Caches}.
  Variable cfg : WorkerConfig.
  Abbreviation log := (Lifecycle.log (V:=V)).

(** The owner holds the running record the bucket last took from it. *)
Definition owner_ok (K : log) (s : OwnerState) : Prop :=
  os_aborted s = true \/
  (taken K (j_ID (os_entry s)) (os_rev s) (os_entry s) /\ j_State (os_entry s) = StateRunning).

Lemma owner_ok_mono (K K' : log) (s : OwnerState) : log_le K K' -> owner_ok K s -> owner_ok K' s.
Proof. intros HK' [?|[? ?]]; [by left|right]. split; [by eapply taken_mono|done]. Qed.

Lemma discardArtifact_lawful (K : log) (res : workResult) (Q : log -> unit -> Prop) :
  (forall K', log_le K K' -> Q K' tt) -> lawful K (discardArtifact (V:=V) (St:=St) res) Q.
Proof.
  intros HQ. unfold discardArtifact. case_match; [by apply HQ|].
  apply lawful_harmless; [done|]. intros K' r HK' _ _. by apply HQ.
Qed.

Lemma commit_final_lawful (K : log) (entry proposed : Job) (rev : N) (res : workResult) (v : V)
    (now : time) :
  taken K (j_ID entry) rev entry -> transition entry proposed -> enc_job proposed = Some v ->
  orderly K (commit_final (St:=St) (j_ID entry) rev res proposed v now).
Proof.
  intros Ht Htr Hv. unfold commit_final. apply lawful_call.
  { eapply update_call_ok; [exact Ht|exact Hv|exact Htr|]. apply (tr_identity _ _ Htr). }
  intros K1 u H1 _ _. destruct u; [|by apply discardArtifact_lawful].
  apply logTransition_lawful. intros K2 H2 _. apply lawful_harmless; [done|]. intros K3 [] H3 _ _.
  apply orderly_bind.
  - destruct (j_StartedAt proposed); [|done]. case_match; [by apply orderly_last|done].
  - intros K4 [] H4. by apply releaseActive_lawful.
Qed.

Lemma finish_lawful (K : log) (fl : N) (entry : Job) (rev : N) (deadline : time) (res : workResult) :
  taken K (j_ID entry) rev entry -> j_State entry = StateRunning ->
  orderly K (finish (St:=St) fl entry rev deadline res).
Proof.
  intros Ht Hs. unfold finish. apply lawful_harmless; [done|]. intros K1 now H1 _ _.
  apply (locked_lawful K1 (A:=WorkerState)). intros K2 [cutoff cancelled] H2 _.
  assert (taken K2 (j_ID entry) rev entry) as Ht2 by (apply (taken_mono K K2); [by trans K1|done]).
  case_match; [by apply discardArtifact_lawful|].
  destruct (MarshalBounded _) as [v| |] eqn:Hm; [|done|].
  - apply MarshalBounded_Some in Hm as [Hm _].
    apply commit_final_lawful; [done|by apply finish_transition|done].
  - apply lawful_bind, discardArtifact_lawful. intros K3 H3.
    destruct (MarshalBounded (enc_job (terminalTooLarge _ _))) as [v| |] eqn:Hm2; [|done..].
    apply MarshalBounded_Some in Hm2 as [Hm2 _].
    apply commit_final_lawful; [by apply (taken_mono K2 K3)|by apply too_large_transition|done].
Qed.

Lemma abortEntry_lawful (K : log) (fl : N) (Q : log -> unit -> Prop) :
  (forall K', log_le K K' -> Q K' tt) -> lawful K (abortEntry (V:=V) (St:=St) fl) Q.
Proof.
  intros HQ. unfold abortEntry. apply (locked_lawful K (A:=WorkerState)). intros K' b HK' _.
  by apply HQ.
Qed.

Lemma ownerStep_lawful (K : log) (e : owner_event) (s : OwnerState) :
  owner_ok K s ->
  lawful K (ownerStep (St:=St) cfg e s) (fun K' r => forall s', r = Some s' -> owner_ok K' s').
Proof.
  assert (forall K' s0, lawful K' (mret (Some (os_abort s0)) : Effects.prog V St _)
    (fun K' r => forall s', r = Some s' -> owner_ok K' s')) as Habort
    by (intros K' s0 s' [= <-]; by left).
  intros Hs. destruct e as [p|res|]; unfold ownerStep.
  - intros s' [= <-]. exact Hs.
  - destruct (os_aborted s) eqn:Ha.
    + apply lawful_bind, discardArtifact_lawful. by intros K' _ s'.
    + destruct Hs as [?|[Ht Hr]]; [congruence|]. apply lawful_bind.
      eapply lawful_weaken; [by apply finish_lawful|]. by intros K' [] _ _ s'.
  - destruct (os_aborted s) eqn:Ha; [intros s' [= <-]; by left|].
    destruct Hs as [?|[Ht Hr]]; [congruence|].
    apply lawful_reading. intros K1 st H1 _ _. case_match.
    { intros s' [= <-]. right. split; [by apply (taken_mono K K1)|done]. }
    unfold renew. apply lawful_bind, lawful_harmless; [done|]. intros K2 now H2 Hok2 _.
    assert (taken K2 (j_ID (os_entry s)) (os_rev s) (os_entry s)) as Ht2
      by (apply (taken_mono K K2); [by trans K1|done]).
    case_match; [apply lawful_bind, abortEntry_lawful; by intros K3 _|].
    destruct (MarshalBounded _) as [v| |] eqn:Hm; [|intros s' [= <-]; by right..].
    apply MarshalBounded_Some in Hm as [Hm _]. apply lawful_call.
    { eapply update_call_ok; [exact Ht2|exact Hm|apply renew_transition; [done|]|done].
      destruct Ht2 as (v0 & Hv0 & Hd0). by eapply (log_wf _ Hok2). }
    intros K3 u H3 _ Hu. destruct u as [newRev|err].
    + apply (locked_lawful K3 (A:=WorkerState)). intros K4 ok H4 _.
      case_match; [apply lawful_bind, abortEntry_lawful; by intros K5 _|].
      intros s' [= <-]. right. simpl. split; [|done]. exists v.
      split; [by apply H4|by apply dec_enc_job].
    + destruct err; try (intros s' [= <-]; right; split; [by apply (taken_mono K2 K3)|done]).
      apply lawful_bind, abortEntry_lawful. intros K4 H4. apply lawful_bind.
      apply lawful_harmless; [done|]. intros K5 g _ _ _. apply Habort.
Qed.

Lemma ownerEvents_lawful (K : log) (l : list owner_event) (s : OwnerState) :
  owner_ok K s -> orderly K (ownerEvents (St:=St) cfg l s).
Proof.
  revert K s. induction l as [|e l IH]; intros K s Hs; [done|]. cbn [ownerEvents].
  apply lawful_bind. eapply lawful_weaken; [by apply ownerStep_lawful|]. simpl.
  intros K' r HK' Hr. destruct r as [s'|]; [|done]. by apply IH, Hr.
Qed.

Lemma ownerLoop_lawful (K : log) (o : started) (l : list owner_event) :
  start_sound K (Some o) -> orderly K (ownerLoop (St:=St) cfg o l).
Proof.
  intros Ho. destruct (Ho o eq_refl) as (Ht & Hr & [lease Hl] & [deadline Hd]).
  unfold ownerLoop, ownerStart. rewrite Hl, Hd.
  apply ownerEvents_lawful. right. by split.
Qed.
End owner_lawful.

(** ** The final update *)

Section final.
  Context {V St : Type} `{HW : Wire V} `{HL : !WireLaws V} `{HC : Has St Caches}
    `{HK : Has St WorkerState}.
  Variables (fl : N) (entry : Job) (rev : N) (deadline : time) (res : workResult).
  Abbreviation history := (list (event V St)).

(** The read of the entry's cutoff and cancellation. *)
Definition read_entry : op V St (time * bool) :=
  Atomic (fun st =>
    let '(r, a) := on_entry fl (zero_time, true) (fun f => (fl_state f, f)) (the st) in (r, put a st)).

Definition object_dropped (h : history) : Prop :=
  wr_Object res = EmptyString \/ exists a, Ev (ObjDelete (wr_Object res)) a ∈ h.

(** The gate was open when it was read. *)
Definition gate_open (h : history) (now : time) : Prop :=
  Ev Now now ∈ h /\ now < deadline - skewMargin /\
  exists cutoff, Ev read_entry (cutoff, false) ∈ h /\ now < cutoff.

(** The two records the final update can write. *)
Definition final_record (h : history) (now : time) (v : V) : Prop :=
  dec_job v = Some (finished entry res now) \/
  (dec_job v = Some (terminalTooLarge (finished entry res now) now) /\ object_dropped h).

Definition finish_call (h : history) (R : Type) (o : op V St R) : Prop :=
  match o with
  | KvUpdate b k v expected =>
      b = BJobs /\ k = jobKey (j_ID entry) /\ expected = rev /\
      exists now, gate_open h now /\ final_record h now v
  | KvDelete b k expected =>
      b = BJobs /\ k = activeKey (j_Namespace entry) (j_Service entry) /\
      (exists v rv, Ev (KvUpdate BJobs (jobKey (j_ID entry)) v rev) (Ok rv) ∈ h) /\
      exists e a, Ev (KvGet b k) (Ok e) ∈ h /\ e_revision e = expected /\
        dec_active (e_value e) = Some a /\ av_ID a = j_ID entry
  | KvCreate _ _ _ | ObjPut _ _ => False
  | ObjDelete name => name = wr_Object res
  | _ => True
  end.

(** Where the object the work wrote is, at the end. *)
Definition object_accounted (h : history) : Prop :=
  object_dropped h \/
  (exists v rv now, Ev (KvUpdate BJobs (jobKey (j_ID entry)) v rev) (Ok rv) ∈ h /\
    dec_job v = Some (finished entry res now) /\
    j_Artifact (finished entry res now) = Some {| ar_Object := wr_Object res; ar_Bytes := wr_Bytes res |}) \/
  exists now, enc_job (finished entry res now) = None.

Lemma discard_wp (h : history) :
  wp finish_call (discardArtifact res) h (fun _ h' => object_dropped h').
Proof.
  unfold discardArtifact. destruct (String.eqb_spec (wr_Object res) "") as [E|].
  - by left.
  - split; [done|]. intros a. right. exists a. apply list_elem_of_here.
Qed.

Lemma commit_final_wp (proposed : Job) (v : V) (now : time) (h : history) :
  j_ID proposed = j_ID entry -> j_Namespace proposed = j_Namespace entry ->
  j_Service proposed = j_Service entry ->
  gate_open h now -> final_record h now v -> dec_job v = Some proposed ->
  (proposed = finished entry res now \/ object_dropped h) ->
  (wr_Object res <> EmptyString -> wr_Reason res = EmptyString) ->
  wp finish_call (commit_final (j_ID entry) rev res proposed v now) h
    (fun _ h' => object_accounted h').
Proof.
  intros Hid Hns Hsvc Hg Hf Hd Hp Hr. unfold commit_final. apply wp_call.
  { split; [done|]. split; [done|]. split; [done|]. by exists now. }
  intros u. set (h1 := Ev _ u :: h). destruct u as [rv|e].
  2:{ eapply wp_mono; [apply discard_wp|]. intros [] h' ?. by left. }
  assert (Ev (KvUpdate BJobs (jobKey (j_ID entry)) v rev) (Ok rv) ∈ h1) as Hin
    by apply list_elem_of_here.
  assert (forall h', h1 ⊆ h' -> object_accounted h') as Hacc.
  { intros h' Hs. destruct Hp as [->|Hp].
    - destruct (decide (wr_Object res = "")) as [E|E]; [left; by left|].
      right; left. exists v, rv, now. split; [by apply Hs|]. split; [done|].
      unfold finished. simpl. by rewrite (Hr E).
    - left. destruct Hp as [?|[a Ha]]; [by left|right]. exists a. apply Hs.
      by apply list_elem_of_further. }
  split; [done|]. intros []. split; [done|]. intros []. cbn beta.
  set (h3 := Ev (Emit (Metric _ _)) tt :: _).
  assert (h1 ⊆ h3) as S3 by set_solver.
  assert (forall h4, h3 ⊆ h4 ->
    wp finish_call (releaseActive proposed) h4 (fun _ h' => object_accounted h')) as Hrel.
  { intros h4 S4. unfold releaseActive. rewrite Hns, Hsvc, Hid. apply wp_call; [done|].
    intros g. assert (h1 ⊆ Ev (KvGet BJobs (activeKey (j_Namespace entry) (j_Service entry))) g :: h4)
      as S5 by set_solver.
    destruct g as [e|]; [|by apply Hacc].
    destruct (dec_active (e_value e)) as [a|] eqn:Ha; [|by apply Hacc].
    destruct (String.eqb_spec (av_ID a) (j_ID entry)); [|by apply Hacc]. cbn [negb].
    apply wp_call; [|intros d; apply Hacc; set_solver].
    split; [done|]. split; [done|]. split; [exists v, rv; by apply S5|].
    exists e, a. split; [apply list_elem_of_here|done]. }
  destruct (j_StartedAt proposed); [case_bool_decide|]; [|by apply (Hrel h3)..].
  split; [done|]. intros []. apply Hrel. set_solver.
Qed.

(** The final update.  [finish] updates the record only at the revision
    the owner holds, while the clock it read is still before the cutoff the
    entry held then, with the work not cancelled, and more than the clock skew
    before the deadline; the active key goes only after that update was
    acknowledged, at a revision a read found it naming this Collection.  And
    the object the work wrote is never forgotten: a committed record names it,
    or its deletion was asked for, or no record could be serialized at all. *)
Theorem finish_gated (h : history) (u : unit) :
  (wr_Object res <> EmptyString -> wr_Reason res = EmptyString) ->
  exec (finish fl entry rev deadline res) [] h u ->
  calls_ok finish_call [] h /\ object_accounted h.
Proof.
  intros Hr Hex. apply and_comm.
  refine (wp_exec _ _ _ (fun _ h => object_accounted h) _ _ _ Hex). clear Hex.
  unfold finish. apply wp_call; [done|]. intros now. apply wp_call; [done|].
  intros [cutoff cancelled].
  change (Atomic _) with read_entry. set (h2 := Ev read_entry _ :: _).
  destruct (cancelled || negb (before now cutoff) || negb (before now (deadline - skewMargin)))
    eqn:Hgate.
  { eapply wp_mono; [apply discard_wp|]. intros [] h' ?. by left. }
  unfold before in Hgate. rewrite !orb_false_iff, !negb_false_iff, !Z.ltb_lt in Hgate.
  destruct Hgate as [[-> H2] H3].
  assert (gate_open h2 now) as Hg.
  { split; [apply list_elem_of_further, list_elem_of_here|]. split; [done|]. exists cutoff.
    split; [apply list_elem_of_here|done]. }
  destruct (MarshalBounded _) as [v| |] eqn:Hm.
  - apply MarshalBounded_Some in Hm as [Hm%dec_enc_job _].
    apply commit_final_wp; try done; by left.
  - right; right. exists now. unfold MarshalBounded in Hm. repeat case_match; done.
  - apply wp_bind. eapply wp_mono; [apply wp_grows, discard_wp|]. intros [] h3 [S3 Hdrop].
    destruct (MarshalBounded (enc_job (terminalTooLarge _ _))) as [v| |] eqn:Hm2; [|by left..].
    apply MarshalBounded_Some in Hm2 as [Hm2%dec_enc_job _].
    apply commit_final_wp; try done; [|by right|by right].
    destruct Hg as (? & ? & c & ? & ?). split; [by apply S3|]. split; [done|]. exists c.
    split; [by apply S3|done].
Qed.
End final.

(** ** One owner at a time *)

(** The owner alone installs its cutoffs: between its own steps the entry's
    cutoff stands, though the timer may cancel the work. *)
Definition cutoff_stands {St} `{Has St WorkerState} (fl : N) (st st' : St) : Prop :=
  forall f, w_entries (the st) !! fl = Some f ->
    exists f', w_entries (the st') !! fl = Some f' /\ fl_cutoff f' = fl_cutoff f.

(** C12: two replicas never both act on one lease.  Let the two clocks differ
    by at most the skew the code assumes.  From the moment a replica's clock
    lets it take over a running record, because its lease or its deadline has
    passed by more than the skew, the owner that last committed that lease
    can no longer write its final update: whatever its store calls answer, a
    [finish] that reads its clock from then on makes no update at all. *)
Theorem owner_ends_before_takeover {V St} `{Wire V} `{Has St Caches} `{Has St WorkerState}
    (owner claimer : Z -> time) (t : Z) (rec entry : Job) (lease deadline : time) (fl : N)
    (f : inFlight) (rev : N) (res : workResult) (st st' : St) (h : list (event V St)) (u : unit) :
  (forall t, Z.abs (owner t - claimer t) <= skewMargin) ->
  (forall t t', t <= t' -> owner t <= owner t') ->
  j_State rec = StateRunning -> j_LeaseUntil rec = Some lease -> j_Deadline rec = Some deadline ->
  visit_action rec (claimer t) <> ActNothing ->
  w_entries (the st) !! fl = Some f -> fl_cutoff f = fl_cutoff (newInFlight (j_ID rec) lease) ->
  sexec (cutoff_stands fl) (finish fl entry rev deadline res) [] st h st' u ->
  (forall n, n ∈ now_reads h -> exists t', t <= t' /\ n = owner t') ->
  updates h = [].
Proof.
  intros Hskew Hmono Hs Hl Hd Hact Hf Hcut Hex. revert Hex.
  apply (swp_sexec _ _ _ _ (fun _ h _ => (forall n, n ∈ now_reads h ->
    exists t', t <= t' /\ n = owner t') -> updates h = [])).
  unfold finish. apply swp_call. intros now st1 ->. apply swp_call.
  intros [cutoff cancelled] st2 (st3 & Hst & Heq). destruct (Hst f Hf) as (f' & Hf' & Hc').
  unfold on_entry in Heq. rewrite Hf' in Heq. injection Heq as <- <- _.
  destruct (fl_cancelled f' || negb (before now (fl_cutoff f'))
    || negb (before now (deadline - skewMargin))) eqn:Hgate.
  { unfold discardArtifact. case_match; [done|]. by intros a st4 _. }
  apply swp_any. intros _ h' st4 Hsub Hlate. exfalso.
  destruct (Hlate now) as (t' & Ht & ->).
  { apply (now_reads_sub _ _ Hsub). apply list_elem_of_singleton. done. }
  unfold before in Hgate. rewrite !orb_false_iff, !negb_false_iff, !Z.ltb_lt in Hgate.
  destruct Hgate as [[_ Hlt] Hdl]. rewrite Hc', Hcut in Hlt. simpl in Hlt.
  specialize (Hskew t). specialize (Hmono t t' Ht).
  pose proof (visit_action_spec rec (claimer t)) as Hsp. unfold skewMargin, second in *.
  destruct (visit_action rec (claimer t)) as [reason| |]; [| |done].
  - destruct Hsp as [(? & _)|[(? & _)|(_ & _ & d & Hd' & Hpast)]]; [congruence..|].
    assert (d = deadline) as -> by congruence. lia.
  - destruct Hsp as [(? & _)|(_ & (l & Hl' & Hpast) & _)]; [congruence|].
    assert (l = lease) as -> by congruence. lia.
Qed.

(** ** The theorems at a concrete input *)

Definition running_job : Job := set_state StateRunning completed_job.

(** One entry, of a lease until second 500. *)
Definition one_owner : WorkerState :=
  (register (j_ID running_job) (500 * second) NewWorker).2.

Lemma finish_gated_witness :
  (wr_Object (demo_result "o-1.pprof" "") <> EmptyString ->
   wr_Reason (demo_result "o-1.pprof" "") = EmptyString) /\
  exists h, exec (V:=tagged) (St:=worker_memory)
      (finish 0 running_job 6 (900 * second) (demo_result "o-1.pprof" "")) [] h tt /\
    object_accounted running_job 6 (demo_result "o-1.pprof" "") h.
Proof.
  split; [done|].
  destruct (run_test_run (V:=tagged) (St:=worker_memory) ack
    (finish 0 running_job 6 (900 * second) (demo_result "o-1.pprof" "")) (NewCaches, one_owner)
    (fun _ => true)) as (u & h & st' & Hrun & _); [vm_compute; reflexivity|].
  destruct u. apply run_exec in Hrun. exists h. split; [exact Hrun|].
  refine (proj2 (finish_gated 0 running_job 6 (900 * second) (demo_result "o-1.pprof" "") h tt _ Hrun)).
  done.
Defined.

Lemma owner_ends_before_takeover_witness :
  visit_action running_job (1000 * second) <> ActNothing /\
  exists h st', sexec (V:=tagged) (St:=worker_memory) (cutoff_stands 0)
      (finish 0 running_job 6 (900 * second) (demo_result "" "no_samples")) [] (NewCaches, one_owner)
      h st' tt /\ updates h = [].
Proof.
  split; [by vm_compute|].
  assert (sexec (V:=tagged) (St:=worker_memory) (cutoff_stands 0)
    (finish 0 running_job 6 (900 * second) (demo_result "" "no_samples")) [] (NewCaches, one_owner)
    [Ev (read_entry 0) (495 * second, false); Ev Now (1000 * second)] (NewCaches, one_owner) tt) as Hex.
  { exists (1000 * second), (NewCaches, one_owner). split; [done|].
    exists (495 * second, false), (NewCaches, one_owner). split; [|by split].
    exists (NewCaches, one_owner). split; [intros f Hf; by exists f|]. by vm_compute. }
  eexists _, _. split; [exact Hex|].
  refine (owner_ends_before_takeover (fun t => t) (fun t => t) (1000 * second) running_job running_job
    (500 * second) (900 * second) 0 (newInFlight (j_ID running_job) (500 * second)) 6 _ _ _ _ _
    _ _ _ _ _ _ _ _ Hex _).
  - intros t. unfold skewMargin, second. lia.
  - done.
  - reflexivity.
  - reflexivity.
  - reflexivity.
  - by vm_compute.
  - reflexivity.
  - reflexivity.
  - intros n Hn%list_elem_of_singleton. exists n. subst. done.
Defined.
