(* ===== verification/Rounds.v ===== *)
(** * The sampling rounds

    src/internal/pgo/rounds.go: the work an owner runs for one attempt.  Each
    round resolves the Service's Pods again, samples some of them, and merges
    what comes back; the merged profile is stored under the attempt's name.

    A run is a function of what the world answers: the listings, the shuffle,
    the answers of each sampled Pod in the order the round's loop received
    them, and the store's answer to the one write.  The pprof library
    (github.com/google/pprof) and the gzip stream are parameters: what they
    decode, merge and encode is theirs. *)

From S2P Require Import Prelude Ident Config Policy Records Discovery Effects Keys Caches.
From S2P Require Import Lifecycle Runtime Publisher Worker Owner.

Definition ReasonTargetChanged : string := "target_changed".
Definition ReasonDiscoveryUnavailable : string := "discovery_unavailable".
Definition ReasonSampleTooLarge : string := "sample_too_large".
Definition ReasonSampleMalformed : string := "sample_malformed".
Definition ReasonParseFailed : string := "parse_failed".
Definition ReasonIncompatibleProfile : string := "incompatible_profile".

(** [gzipMagic]. *)
Definition gzipMagic : string := String (ascii_of_nat 31) (String (ascii_of_nat 139) EmptyString).

(** ** Targets *)

(** [filterTargets]. *)
Definition filterTargets (l : list Target) (keep : Target -> bool) : list Target :=
  filter (fun t => keep t = true) l.

(** [distinctVersions] and [dedupeByUID]: the first of each, in order. *)
Fixpoint first_of {K A} `{Countable K} (key : A -> K) (seen : gset K) (l : list A) : list A :=
  match l with
  | [] => []
  | x :: l' =>
      if bool_decide (key x ∈ seen) then first_of key seen l'
      else x :: first_of key ({[key x]} ∪ seen) l'
  end.
Definition distinctVersions (l : list Target) : list string := tg_Version <$> first_of tg_Version ∅ l.
Definition dedupeByUID (l : list Target) : list Target := first_of tg_UID ∅ l.

(** [ResolveVersion] (runtime.go): the version, and the reason there is none. *)
Definition ResolveVersion (targets : list Target) (pin : string) : string * string :=
  let eligible := filterTargets targets (fun t => negb (String.eqb (tg_Version t) EmptyString)) in
  let eligible :=
    if String.eqb pin EmptyString then eligible
    else filterTargets eligible (fun t => String.eqb (tg_Version t) pin) in
  match distinctVersions eligible with
  | [] => (EmptyString, ReasonVersionMissing)
  | [v] => (v, EmptyString)
  | _ => (EmptyString, ReasonVersionConflict)
  end.

(** ** One sample *)

(** [sampleSink.Write] of the chunks of a body: what is kept, and whether a
    chunk was refused.  The copy stops at the first refusal. *)
Fixpoint sink_write (limit : Z) (buf : string) (chunks : list string) : string * bool :=
  match chunks with
  | [] => (buf, false)
  | b :: rest =>
      if limit <? byte_len buf + byte_len b then (buf, true) else sink_write limit (buf +:+ b) rest
  end.

(** A gzip stream as [io.ReadAll] sees it: the bytes it yields, and whether it
    ends in an error. *)
Record gzipStream := { gz_Bytes : string; gz_Failed : bool }.

Section rounds.
  Context {Profile : Type}.
  (** github.com/google/pprof: [ParseData], [Merge] of two, [Compact], [Write]
      and [WriteUncompressed]; [None] is an error. *)
  Variable decode : string -> option Profile.
  Variable merge : Profile -> Profile -> option Profile.
  Variable Compact : Profile -> Profile.
  Variable write writeUncompressed : Profile -> option string.
  (** [gzip.NewReader]. *)
  Variable gunzip : string -> option gzipStream.
  Variable limits : PGOLimits.
  Variables (versionLabel gateway : string).

(** [decodeSample]: the profile, or the reason there is none. *)
Definition decodeSample (body : string) : Profile + string :=
  let plain :=
    if has_prefix gzipMagic body then
      match gunzip body with
      | None => inr ReasonSampleMalformed
      | Some z =>
          let limit := MaxSampleBytes limits in
          let read := String.substring 0 (Z.to_nat (limit + 1)) (gz_Bytes z) in
          if limit <? byte_len read then inr ReasonSampleTooLarge
          else if gz_Failed z then inr ReasonSampleMalformed
          else if has_prefix gzipMagic read then inr ReasonSampleMalformed
          else inl read
      end
    else inl body in
  match plain with
  | inr reason => inr reason
  | inl body => match decode body with None => inr ReasonParseFailed | Some p => inl p end
  end.

(** What the world answers one sampling: the clock, the confirmation, the
    proxy's outcome code, and the chunks of the body it wrote. *)
Record sampleAnswer := {
  sa_Now : time;
  sa_Confirm : option confirmError;
  sa_Code : string;
  sa_Chunks : list string
}.

(** [sampleOutcome]. *)
Record sampleOutcome := { so_sample : Sample; so_profile : option Profile }.

Definition mkSample (round : Z) (t : Target) (now : time) (result : string) (bytes : Z) : Sample :=
  {| sm_Round := round; sm_Pod := tg_Pod t; sm_PodUID := tg_UID t; sm_Node := tg_Node t;
     sm_StartedAt := now; sm_Result := result; sm_Reason := EmptyString; sm_Bytes := bytes |}.

(** [sample]. *)
Definition sample (round : Z) (t : Target) (a : sampleAnswer) : sampleOutcome :=
  let failed reason := {| so_sample := mkSample round t (sa_Now a) reason 0; so_profile := None |} in
  match sa_Confirm a with
  | Some ErrTargetChanged => failed ReasonTargetChanged
  | Some _ => failed ReasonDiscoveryUnavailable
  | None =>
      let '(body, overflowed) := sink_write (MaxSampleBytes limits) EmptyString (sa_Chunks a) in
      if overflowed then failed ReasonSampleTooLarge
      else if negb (String.eqb (sa_Code a) "ok") then failed (sa_Code a)
      else
        match decodeSample body with
        | inr reason => failed reason
        | inl p =>
            {| so_sample := mkSample round t (sa_Now a) sampleResultOK (byte_len body);
               so_profile := Some p |}
        end
  end.

(** ** The run *)

Record runState := {
  rs_man : Manifest;
  rs_progress : Progress;
  rs_merged : option Profile;
  rs_resolved : string
}.

Definition man_with (resolved : string) (truncated : bool) (samples : list Sample) (m : Manifest) :
    Manifest :=
  {| mf_Collection := mf_Collection m; mf_Namespace := mf_Namespace m; mf_Service := mf_Service m;
     mf_Profile := mf_Profile m; mf_ConfigRevision := mf_ConfigRevision m;
     mf_ResolvedVersion := resolved; mf_VersionLabel := mf_VersionLabel m;
     mf_Sampling := mf_Sampling m; mf_Attempt := mf_Attempt m; mf_Truncated := truncated;
     mf_Gateway := mf_Gateway m; mf_Samples := samples |}.

(** [runState.fail]. *)
Definition fail (s : runState) (reason : string) : workResult :=
  {| wr_Reason := reason; wr_Object := EmptyString; wr_Bytes := 0; wr_Manifest := Some (rs_man s);
     wr_ResolvedVersion := rs_resolved s; wr_Progress := rs_progress s |}.

(** [expired]. *)
Definition expired (ctxErr : bool) (now : time) (rec : Job) : string :=
  if ctxErr then ReasonDeadlineExceeded
  else match j_Deadline rec with
       | Some d => if negb (before now d) then ReasonDeadlineExceeded else EmptyString
       | None => EmptyString
       end.

(** [targetsFor]: the round's targets, the reason there are none, and the state
    with the version resolved in round 0. *)
Definition targetsFor (round : Z) (listing : option (list Target))
    (shuffle : list Target -> list Target) (rec : Job) (s : runState) :
    list Target * string * runState :=
  match listing with
  | None => ([], ReasonNoTargets, s)
  | Some targets =>
      let '(resolved, reason) :=
        if round =? 0 then ResolveVersion targets (Version (PTarget (j_Policy rec)))
        else (rs_resolved s, EmptyString) in
      if negb (String.eqb reason EmptyString) then ([], reason, s)
      else
        let man := if round =? 0
          then man_with resolved (mf_Truncated (rs_man s)) (mf_Samples (rs_man s)) (rs_man s)
          else rs_man s in
        let s := {| rs_man := man; rs_progress := rs_progress s; rs_merged := rs_merged s;
                    rs_resolved := resolved |} in
        let targets := dedupeByUID
          (filterTargets targets (fun t => String.eqb (tg_Version t) resolved)) in
        if bool_decide (targets = []) then ([], ReasonNoTargets, s)
        else
          let targets := shuffle targets in
          let want := Resolve (SReplicas (PSampling (j_Policy rec))) (MaxTargetsPerRound limits) in
          if want <? Z.of_nat (length targets)
          then (take (Z.to_nat want) targets, EmptyString,
                {| rs_man := man_with (mf_ResolvedVersion man) true (mf_Samples man) man;
                   rs_progress := rs_progress s; rs_merged := rs_merged s; rs_resolved := resolved |})
          else (targets, EmptyString, s)
  end.

(** [serializedSize]. *)
Definition serializedSize (p : Profile) : option Z := byte_len <$> writeUncompressed p.

(** [absorb]: the state, the successes of the round, and the reason to fail. *)
Definition absorb (out : sampleOutcome) (s : runState) (ok : Z) : runState * Z * string :=
  let '(smp, merged) :=
    match so_profile out with
    | None => (so_sample out, rs_merged s)
    | Some p =>
        match rs_merged s with
        | None => (so_sample out, Some p)
        | Some m =>
            match merge m p with
            | None =>
                let s0 := so_sample out in
                ({| sm_Round := sm_Round s0; sm_Pod := sm_Pod s0; sm_PodUID := sm_PodUID s0;
                    sm_Node := sm_Node s0; sm_StartedAt := sm_StartedAt s0;
                    sm_Result := ReasonIncompatibleProfile; sm_Reason := sm_Reason s0;
                    sm_Bytes := 0 |}, Some m)
            | Some next => (so_sample out, Some next)
            end
        end
    end in
  let good := sample_ok smp in
  let p := rs_progress s in
  let s' :=
    {| rs_man := man_with (mf_ResolvedVersion (rs_man s)) (mf_Truncated (rs_man s))
                   (mf_Samples (rs_man s) ++ [smp]) (rs_man s);
       rs_progress :=
         {| pr_Round := pr_Round p; pr_Rounds := pr_Rounds p;
            pr_SamplesOK := if good then pr_SamplesOK p + 1 else pr_SamplesOK p;
            pr_SamplesFailed := if good then pr_SamplesFailed p else pr_SamplesFailed p + 1 |};
       rs_merged := merged; rs_resolved := rs_resolved s |} in
  let reason :=
    match merged with
    | Some m =>
        if good then
          match serializedSize m with
          | None => ReasonSerializeFailed
          | Some size => if MaxMergedBytes limits <? size then ReasonMergedTooLarge else EmptyString
          end
        else EmptyString
    | None => EmptyString
    end in
  (s', if good then ok + 1 else ok, reason).

(** The loop of [runRound] over the results channel. *)
Fixpoint drain (outs : list sampleOutcome) (s : runState) (ok : Z) (failure : string) :
    runState * Z * string :=
  match outs with
  | [] => (s, ok, failure)
  | out :: rest =>
      if negb (String.eqb failure EmptyString) then drain rest s ok failure
      else let '(s', ok', failure') := absorb out s ok in drain rest s' ok' failure'
  end.

(** [runRound], of the outcomes in the order they arrived. *)
Definition runRound (outs : list sampleOutcome) (s : runState) : runState * string :=
  let '(s', ok, failure) := drain outs s 0 EmptyString in
  if negb (String.eqb failure EmptyString) then (s', failure)
  else if ok =? 0 then (s', ReasonNoSamples)
  else (s', EmptyString).

(** What the world answers one round; [rn_Arrived] is the targets whose samples
    the loop received, in that order, with each one's answers. *)
Record roundIn := {
  rn_CtxErr : bool;
  rn_Now : time;
  rn_Listing : option (list Target);
  rn_Shuffle : list Target -> list Target;
  rn_Arrived : list (Target * sampleAnswer);
  rn_Slept : bool
}.

(** The body of the loop of [run]: [inr] ends the attempt. *)
Definition one_round (rec : Job) (round : Z) (w : roundIn) (s : runState) : runState + workResult :=
  let p := rs_progress s in
  let s := {| rs_man := rs_man s;
              rs_progress := {| pr_Round := round; pr_Rounds := pr_Rounds p;
                                pr_SamplesOK := pr_SamplesOK p; pr_SamplesFailed := pr_SamplesFailed p |};
              rs_merged := rs_merged s; rs_resolved := rs_resolved s |} in
  let reason := expired (rn_CtxErr w) (rn_Now w) rec in
  if negb (String.eqb reason EmptyString) then inr (fail s reason)
  else
    let '(targets, reason, s) := targetsFor round (rn_Listing w) (rn_Shuffle w) rec s in
    if negb (String.eqb reason EmptyString) then inr (fail s reason)
    else
      let '(s, reason) := runRound ((fun '(t, a) => sample round t a) <$> rn_Arrived w) s in
      if negb (String.eqb reason EmptyString) then inr (fail s reason)
      else if (round <? Rounds (PSampling (j_Policy rec)) - 1) && negb (rn_Slept w)
      then inr (fail s ReasonDeadlineExceeded)
      else inl s.

Fixpoint round_loop (rec : Job) (world : Z -> roundIn) (rounds : list Z) (s : runState) :
    runState + workResult :=
  match rounds with
  | [] => inl s
  | round :: rest =>
      match one_round rec round (world round) s with
      | inr res => inr res
      | inl s' => round_loop rec world rest s'
      end
  end.

(** [finish]; [put] is the store's answer to the write of the object. *)
Definition finish_work (put : string -> string -> bool) (rec : Job) (s : runState) : workResult :=
  match rs_merged s with
  | None => fail s ReasonNoSamples
  | Some merged =>
      let merged := Compact merged in
      match serializedSize merged with
      | None => fail s ReasonSerializeFailed
      | Some size =>
          if MaxMergedBytes limits <? size then fail s ReasonMergedTooLarge
          else
            match write merged with
            | None => fail s ReasonSerializeFailed
            | Some body =>
                let object := artifactName (j_ID rec) (j_Attempt rec) in
                if negb (put object body) then fail s ReasonArtifactStoreFailed
                else {| wr_Reason := EmptyString; wr_Object := object; wr_Bytes := byte_len body;
                        wr_Manifest := Some (rs_man s); wr_ResolvedVersion := rs_resolved s;
                        wr_Progress := rs_progress s |}
            end
      end
  end.

(** The state [run] starts from. *)
Definition run_start (rec : Job) : runState :=
  {| rs_man :=
       {| mf_Collection := j_ID rec; mf_Namespace := j_Namespace rec; mf_Service := j_Service rec;
          mf_Profile := "cpu"; mf_ConfigRevision := j_ConfigRevision rec;
          mf_ResolvedVersion := EmptyString; mf_VersionLabel := versionLabel;
          mf_Sampling := PSampling (j_Policy rec); mf_Attempt := j_Attempt rec;
          mf_Truncated := false; mf_Gateway := gateway; mf_Samples := [] |};
     rs_progress := {| pr_Round := 0; pr_Rounds := Rounds (PSampling (j_Policy rec));
                       pr_SamplesOK := 0; pr_SamplesFailed := 0 |};
     rs_merged := None; rs_resolved := EmptyString |}.

(** [run]. *)
Definition run_work (world : Z -> roundIn) (put : string -> string -> bool) (rec : Job) : workResult :=
  match round_loop rec world (seqZ 0 (Rounds (PSampling (j_Policy rec)))) (run_start rec) with
  | inr res => res
  | inl s => finish_work put rec s
  end.
End rounds.

(** ** Targets and versions *)

Lemma first_of_spec {K A} `{Countable K} (key : A -> K) (l : list A) (seen : gset K) :
  NoDup (key <$> first_of key seen l) /\
  (forall x, x ∈ first_of key seen l -> x ∈ l /\ key x ∉ seen) /\
  (forall x, x ∈ l -> key x ∈ seen \/ exists y, y ∈ first_of key seen l /\ key y = key x).
Proof.
  revert seen. induction l as [|x l IH]; intros seen; simpl.
  { split; [constructor|]. split; intros y ?%not_elem_of_nil; done. }
  case_bool_decide as Hx.
  - destruct (IH seen) as (H1 & H2 & H3). split; [done|]. split.
    + intros y Hy. destruct (H2 y Hy). split; [by apply list_elem_of_further|done].
    + intros y [->|Hy]%elem_of_cons; [by left|auto].
  - destruct (IH ({[key x]} ∪ seen)) as (H1 & H2 & H3). split; [|split].
    + simpl. constructor; [|done]. intros (y & Hy & Hin)%list_elem_of_fmap.
      destruct (H2 y Hin) as [_ Hn]. apply Hn. rewrite <-Hy. set_solver.
    + intros y [->|Hy]%elem_of_cons; [split; [apply list_elem_of_here|done]|].
      destruct (H2 y Hy). split; [by apply list_elem_of_further|set_solver].
    + intros y [->|Hy]%elem_of_cons.
      { right. exists x. split; [apply list_elem_of_here|done]. }
      destruct (H3 y Hy) as [Hin|(z & Hz & Hk)].
      * apply elem_of_union in Hin as [->%elem_of_singleton|Hin]; [|by left].
        right. exists x. split; [apply list_elem_of_here|done].
      * right. exists z. split; [by apply list_elem_of_further|done].
Qed.

(** The targets a version rule considers. *)
Definition eligible (pin : string) (targets : list Target) (v : string) : Prop :=
  v <> EmptyString /\ (pin = EmptyString \/ v = pin) /\ exists t, t ∈ targets /\ tg_Version t = v.

Lemma distinctVersions_in (l : list Target) v :
  v ∈ distinctVersions l <-> exists t, t ∈ l /\ tg_Version t = v.
Proof.
  unfold distinctVersions. destruct (first_of_spec tg_Version l ∅) as (_ & H2 & H3).
  rewrite list_elem_of_fmap. split.
  - intros (t & -> & Ht). exists t. by destruct (H2 t Ht).
  - intros (t & Ht & <-). destruct (H3 t Ht) as [?%not_elem_of_empty|(y & Hy & He)]; [done|]. eauto.
Qed.

(** Round 0 resolves a version exactly when the targets carrying one,
    narrowed to the policy's pin, all carry it; it reports a missing version
    exactly when there is no such target, and a conflict exactly when two
    disagree, which a pin rules out. *)
Theorem ResolveVersion_spec (targets : list Target) (pin : string) :
  let '(v, reason) := ResolveVersion targets pin in
  (reason = EmptyString <->
     eligible pin targets v /\ forall w, eligible pin targets w -> w = v) /\
  (reason = ReasonVersionMissing <-> forall w, ~ eligible pin targets w) /\
  (reason = ReasonVersionConflict <->
     exists w x, eligible pin targets w /\ eligible pin targets x /\ w <> x) /\
  (reason = ReasonVersionConflict -> pin = EmptyString).
Proof.
  unfold ResolveVersion, filterTargets. set (e := if String.eqb pin EmptyString then _ else _).
  assert (forall w, w ∈ distinctVersions e <-> eligible pin targets w) as He.
  { intros w. rewrite distinctVersions_in. unfold eligible, e.
    destruct (String.eqb_spec pin EmptyString) as [Hp|Hp].
    - setoid_rewrite list_elem_of_filter. setoid_rewrite negb_true_iff.
      setoid_rewrite String.eqb_neq. naive_solver.
    - setoid_rewrite list_elem_of_filter. setoid_rewrite list_elem_of_filter.
      setoid_rewrite negb_true_iff. setoid_rewrite String.eqb_neq. setoid_rewrite String.eqb_eq.
      naive_solver. }
  assert (NoDup (distinctVersions e)) as Hnd
    by (unfold distinctVersions; apply (first_of_spec tg_Version e ∅)).
  assert (forall w, w ∈ distinctVersions e -> pin = EmptyString \/ w = pin) as Hpin
    by (intros w Hw%He; apply Hw).
  destruct (distinctVersions e) as [|v [|w l]]; setoid_rewrite <-He.
  - split_and!; try done.
    + split; [done|]. by intros [?%not_elem_of_nil _].
    + split; [by intros _ w ?%not_elem_of_nil|done].
    + split; [done|]. by intros (w & x & ?%not_elem_of_nil & _).
  - assert (v ∈ [v]) by apply list_elem_of_here. split_and!; try done.
    + split; [|done]. intros _. split; [done|]. by intros w ->%list_elem_of_singleton.
    + split; [done|]. intros Hn. by destruct (Hn v).
    + split; [done|]. by intros (w & x & ->%list_elem_of_singleton & ->%list_elem_of_singleton & ?).
  - assert (v ∈ v :: w :: l) as Hv by apply list_elem_of_here.
    assert (w ∈ v :: w :: l) as Hw by (apply list_elem_of_further, list_elem_of_here).
    assert (v <> w) as Hne.
    { intros ->. apply NoDup_cons in Hnd as [Hn _]. apply Hn, list_elem_of_here. }
    split_and!; try done.
    + split; [done|]. intros [_ Hall].
      rewrite (Hall v Hv), (Hall w Hw) in Hne. done.
    + split; [done|]. intros Hn. by destruct (Hn v).
    + split; [|done]. intros _. by exists v, w.
    + intros _. destruct (Hpin v Hv) as [?|Hv']; [done|]. destruct (Hpin w Hw) as [?|Hw']; [done|].
      congruence.
Qed.

Section rounds_spec.
  Context {Profile : Type}.
  Variable decode : string -> option Profile.
  Variable merge : Profile -> Profile -> option Profile.
  Variable Compact : Profile -> Profile.
  Variable write writeUncompressed : Profile -> option string.
  Variable gunzip : string -> option gzipStream.
  Variable limits : PGOLimits.
  Variables (versionLabel gateway : string).
  Abbreviation runState := (@runState Profile).

(** The Pods a round samples are Pods of its listing, each once, all of the
    version the attempt resolved in round 0, at least one and at most as many
    as the policy asks for within the limit; and the manifest is marked
    truncated when some round left such a Pod out. *)
Theorem targetsFor_spec (round : Z) (targets ts : list Target) (shuffle : list Target -> list Target)
    (rec : Job) (s s' : runState) :
  (forall l, shuffle l ≡ₚ l) ->
  let want := Resolve (SReplicas (PSampling (j_Policy rec))) (MaxTargetsPerRound limits) in
  1 <= want ->
  targetsFor limits round (Some targets) shuffle rec s = (ts, EmptyString, s') ->
  let kept := dedupeByUID (filterTargets targets (fun t => String.eqb (tg_Version t) (rs_resolved s'))) in
  1 <= Z.of_nat (length ts) <= want /\ NoDup (tg_UID <$> ts) /\
  (forall t, t ∈ ts -> t ∈ targets /\ tg_Version t = rs_resolved s') /\
  (if round =? 0 then ResolveVersion targets (Version (PTarget (j_Policy rec))) = (rs_resolved s', EmptyString)
   else rs_resolved s' = rs_resolved s) /\
  mf_Truncated (rs_man s') = (mf_Truncated (rs_man s) || (want <? Z.of_nat (length kept))).
Proof.
  intros Hsh want Hw Ht. unfold targetsFor in Ht.
  destruct (if round =? 0 then ResolveVersion targets (Version (PTarget (j_Policy rec)))
    else (rs_resolved s, EmptyString)) as [v reason] eqn:Hv.
  destruct (String.eqb_spec reason EmptyString) as [->|]; simpl in Ht; [|by injection Ht as <- -> <-].
  set (K := dedupeByUID (filterTargets targets (fun t => String.eqb (tg_Version t) v))) in *.
  destruct (first_of_spec tg_UID (filterTargets targets (fun t => String.eqb (tg_Version t) v)) ∅)
    as (Hnd & Hsub & _). fold (dedupeByUID) in Hnd, Hsub.
  assert (forall t, t ∈ K -> t ∈ targets /\ tg_Version t = v) as Hin.
  { intros t Htk. destruct (Hsub t Htk) as [Hf _]. unfold filterTargets in Hf.
    apply list_elem_of_filter in Hf as [He ?]. by apply String.eqb_eq in He. }
  assert (forall l t, t ∈ take l (shuffle K) -> t ∈ targets /\ tg_Version t = v) as Htake.
  { intros l t Hl. apply Hin. rewrite <-Hsh. eapply elem_of_take in Hl as (i & Hi & _).
    by eapply list_elem_of_lookup_2. }
  assert (NoDup (tg_UID <$> shuffle K)) as Hnd' by (rewrite Hsh; exact Hnd).
  case_bool_decide as Hnil; [done|]. fold want in Ht.
  assert (0 < length (shuffle K))%nat as Hpos by (rewrite Hsh; destruct K; [done|simpl; lia]).
  assert (length (shuffle K) = length K) as Hlen by (by rewrite Hsh).
  assert (if round =? 0 then ResolveVersion targets (Version (PTarget (j_Policy rec))) = (v, EmptyString)
    else v = rs_resolved s) as Hres by (destruct (round =? 0); [done|congruence]).
  destruct (Z.ltb_spec want (Z.of_nat (length (shuffle K)))) as [Hlt|Hge];
    injection Ht as <- <-; simpl.
  - split; [rewrite length_take; lia|]. split.
    { rewrite fmap_take. eapply sublist_NoDup; [exact Hnd'|apply sublist_take]. }
    split; [intros t; apply Htake|]. split; [exact Hres|].
    fold K. destruct (Z.ltb_spec want (Z.of_nat (length K))); [by rewrite orb_true_r|lia].
  - split; [lia|]. split; [exact Hnd'|]. split.
    { intros t Hl. apply Hin. by rewrite <-Hsh. }
    split; [exact Hres|]. fold K.
    destruct (Z.ltb_spec want (Z.of_nat (length K))); [lia|]. rewrite orb_false_r. by destruct (round =? 0).
Qed.

(** ** What an attempt accounts for *)

(** Profiles merged one at a time, in order. *)
Inductive merged_of : list Profile -> option Profile -> Prop :=
  | merged_none : merged_of [] None
  | merged_first p : merged_of [p] (Some p)
  | merged_next ps m p m' :
      merged_of ps (Some m) -> merge m p = Some m' -> merged_of (ps ++ [p]) (Some m').

Definition ok_count (l : list Sample) : Z := Z.of_nat (length (List.filter sample_ok l)).

Lemma ok_count_snoc l x : ok_count (l ++ [x]) = ok_count l + (if sample_ok x then 1 else 0).
Proof. unfold ok_count. rewrite List.filter_app, length_app. simpl. destruct (sample_ok x); simpl; lia. Qed.

(** The state accounts for what it has absorbed. *)
Record accounted (s : runState) : Prop := {
  acc_merged : exists ps, merged_of ps (rs_merged s) /\
    Z.of_nat (length ps) = ok_count (mf_Samples (rs_man s));
  acc_ok : pr_SamplesOK (rs_progress s) = ok_count (mf_Samples (rs_man s));
  acc_all : pr_SamplesOK (rs_progress s) + pr_SamplesFailed (rs_progress s) =
    Z.of_nat (length (mf_Samples (rs_man s)));
  acc_version : mf_ResolvedVersion (rs_man s) = rs_resolved s
}.

(** An outcome carries a profile exactly when its sample is a success. *)
Definition consistent (o : @sampleOutcome Profile) : Prop :=
  sample_ok (so_sample o) = true <-> is_Some (so_profile o).

Lemma failed_consistent smp :
  sm_Result smp <> sampleResultOK -> consistent {| so_sample := smp; so_profile := None |}.
Proof.
  intros Hr. unfold consistent, sample_ok. simpl. rewrite String.eqb_eq.
  split; [done|by intros [? ?]].
Qed.

Lemma sample_consistent round t a : consistent (sample decode gunzip limits round t a).
Proof.
  unfold sample. destruct (sa_Confirm a) as [[]|]; [by apply failed_consistent..|].
  destruct (sink_write _ _ _) as [body over]. destruct over; [by apply failed_consistent|].
  destruct (String.eqb_spec (sa_Code a) "ok") as [|Hc]; [|by apply failed_consistent]. simpl.
  unfold decodeSample. repeat case_match; simplify_eq; try (by apply failed_consistent).
  all: by split.
Qed.

Lemma sample_round round t a : sm_Round (so_sample (sample decode gunzip limits round t a)) = round.
Proof. unfold sample. repeat case_match; done. Qed.

(** One absorption: one more sample, of the outcome's round, the account kept,
    and a success counted. *)
Lemma absorb_accounted out (s s' : runState) ok ok' reason :
  consistent out -> accounted s -> absorb merge writeUncompressed limits out s ok = (s', ok', reason) ->
  accounted s' /\ exists smp, sm_Round smp = sm_Round (so_sample out) /\
    mf_Samples (rs_man s') = mf_Samples (rs_man s) ++ [smp] /\
    ok' = ok + (if sample_ok smp then 1 else 0).
Proof.
  intros Hcons [(ps & Hps & Hlen) Hok Hall Hver]. unfold absorb.
  set (pick := match so_profile out with None => (so_sample out, rs_merged s) | Some _ => _ end).
  assert (let '(smp, merged) := pick in sm_Round smp = sm_Round (so_sample out) /\
    exists ps', merged_of ps' merged /\
      Z.of_nat (length ps') = Z.of_nat (length ps) + (if sample_ok smp then 1 else 0)) as Hpick.
  { unfold pick, consistent in *. destruct (so_profile out) as [p|].
    - assert (sample_ok (so_sample out) = true) as Hg by (apply Hcons; by eexists).
      destruct (rs_merged s) as [m|].
      + destruct (merge m p) as [next|] eqn:Hm.
        * split; [done|]. exists (ps ++ [p]). split; [by eapply merged_next|].
          rewrite length_app, Hg. simpl. lia.
        * split; [done|]. exists ps. split; [done|]. simpl. lia.
      + split; [done|]. exists [p]. split; [constructor|]. rewrite Hg.
        inversion Hps; subst; [simpl; lia]. 
    - split; [done|]. exists ps. split; [done|].
      destruct (sample_ok (so_sample out)); [|lia]. by destruct (proj1 Hcons eq_refl). }
  destruct pick as [smp merged]. destruct Hpick as (Hr & ps' & Hps' & Hlen').
  intros Hx. injection Hx as <- <- _. split.
  - split; simpl.
    + exists ps'. split; [done|]. rewrite ok_count_snoc. lia.
    + rewrite ok_count_snoc. destruct (sample_ok smp); lia.
    + rewrite length_app. simpl. destruct (sample_ok smp); lia.
    + done.
  - exists smp. split; [done|]. split; [done|]. destruct (sample_ok smp); lia.
Qed.

Lemma drain_accounted round outs (s s' : runState) ok ok' failure reason :
  Forall (fun o => consistent o /\ sm_Round (so_sample o) = round) outs -> accounted s ->
  drain merge writeUncompressed limits outs s ok failure = (s', ok', reason) ->
  accounted s' /\ exists l, mf_Samples (rs_man s') = mf_Samples (rs_man s) ++ l /\
    Forall (fun x => sm_Round x = round) l /\ ok' = ok + ok_count l.
Proof.
  intros Ho. revert s ok failure. induction Ho as [|out outs [Hc Hr] Ho IH]; simpl; intros s ok failure Hs Hd.
  { injection Hd as <- <- <-. split; [done|]. exists []. rewrite app_nil_r. split; [done|].
    split; [constructor|]. unfold ok_count. simpl. lia. }
  destruct (negb (String.eqb failure EmptyString)); [by eapply IH|].
  destruct (absorb _ _ _ _ _ _) as [[s1 ok1] f1] eqn:Ha.
  destruct (absorb_accounted _ _ _ _ _ _ Hc Hs Ha) as [Hs1 (smp & Hsmp & Hl & ->)].
  destruct (IH s1 _ _ Hs1 Hd) as [Hs' (l & Hl' & Hf & ->)]. split; [done|].
  exists (smp :: l). split; [by rewrite Hl', Hl, <-app_assoc|]. split; [constructor; [congruence|done]|].
  unfold ok_count. simpl. destruct (sample_ok smp); simpl; lia.
Qed.

(** A result that stands for no object. *)
Definition failed_result (res : workResult) : Prop :=
  wr_Reason res <> EmptyString /\ wr_Object res = EmptyString.

(** The manifest a result carries accounts for its counts. *)
Definition result_accounts (res : workResult) : Prop :=
  exists m, wr_Manifest res = Some m /\ mf_ResolvedVersion m = wr_ResolvedVersion res /\
    pr_SamplesOK (wr_Progress res) = ok_count (mf_Samples m) /\
    pr_SamplesOK (wr_Progress res) + pr_SamplesFailed (wr_Progress res) = Z.of_nat (length (mf_Samples m)).

Lemma fail_result s reason :
  accounted s -> reason <> EmptyString -> failed_result (fail s reason) /\ result_accounts (fail s reason).
Proof. intros [_ ? ? ?] Hr. split; [by split|]. by exists (rs_man s). Qed.

Lemma targetsFor_accounted round listing shuffle rec s ts reason s' :
  accounted s -> targetsFor limits round listing shuffle rec s = (ts, reason, s') ->
  accounted s' /\ mf_Samples (rs_man s') = mf_Samples (rs_man s).
Proof.
  intros Hs Ht. unfold targetsFor in Ht. destruct listing as [l|]; [|by injection Ht as _ _ <-].
  destruct (if round =? 0 then _ else _) as [v r] eqn:Hv.
  destruct (negb (String.eqb r EmptyString)); [by injection Ht as _ _ <-|].
  destruct Hs as [(ps & ? & ?) ? ? ?].
  destruct (Z.eqb_spec round 0) as [->|]; [|injection Hv as <- <-];
    (case_bool_decide; [|case_match]); injection Ht as _ _ <-; (split; [|done]); split; simpl; eauto.
Qed.

Definition round_covered (round : Z) (l : list Sample) : Prop :=
  exists x, x ∈ l /\ sm_Round x = round /\ sample_ok x = true.

Lemma one_round_accounted rec round w (s : runState) :
  accounted s ->
  match one_round decode merge writeUncompressed gunzip limits rec round w s with
  | inr res => failed_result res /\ result_accounts res
  | inl s' => accounted s' /\ round_covered round (mf_Samples (rs_man s')) /\
      mf_Samples (rs_man s) ⊆ mf_Samples (rs_man s')
  end.
Proof.
  intros Hs. unfold one_round. set (s1 := {| rs_man := rs_man s |}).
  assert (accounted s1) as Hs1 by (destruct Hs; by split).
  destruct (String.eqb_spec (expired (rn_CtxErr w) (rn_Now w) rec) EmptyString) as [_|He];
    simpl; [|by apply fail_result].
  destruct (targetsFor _ _ _ _ _ s1) as [[ts reason] s2] eqn:Ht.
  destruct (targetsFor_accounted _ _ _ _ _ _ _ _ Hs1 Ht) as [Hs2 Hm2].
  destruct (String.eqb_spec reason EmptyString) as [_|He]; simpl; [|by apply fail_result].
  unfold runRound. destruct (drain _ _ _ _ s2 0 EmptyString) as [[s3 ok] failure] eqn:Hd.
  assert (Forall (fun o => consistent o /\ sm_Round (so_sample o) = round)
    ((fun '(t, a) => sample decode gunzip limits round t a) <$> rn_Arrived w)) as Ho.
  { apply Forall_fmap, Forall_true. intros [t a]. split; [apply sample_consistent|apply sample_round]. }
  destruct (drain_accounted _ _ _ _ _ _ _ _ Ho Hs2 Hd) as [Hs3 (l & Hl & Hf & Hok)].
  destruct (String.eqb_spec failure EmptyString) as [_|He]; simpl.
  2: { destruct (String.eqb_spec failure EmptyString); [done|]. by apply fail_result. }
  destruct (Z.eqb_spec ok 0) as [H0|H0]; simpl; [by apply fail_result|].
  destruct ((_ <? _) && _); [by apply fail_result|]. split; [done|]. rewrite Hl, Hm2. split.
  - unfold ok_count in Hok. destruct (List.filter sample_ok l) as [|x l'] eqn:Hx; [simpl in Hok; lia|].
    assert (In x (List.filter sample_ok l)) as Hin by (rewrite Hx; by left).
    apply filter_In in Hin as [Hin Hg]. exists x. rewrite elem_of_app.
    apply list_elem_of_In in Hin. split; [by right|]. split; [|done].
    rewrite Forall_forall in Hf. by apply Hf.
  - set_solver.
Qed.

Lemma round_loop_accounted rec world rounds (s : runState) :
  accounted s ->
  match round_loop decode merge writeUncompressed gunzip limits rec world rounds s with
  | inr res => failed_result res /\ result_accounts res
  | inl s' => accounted s' /\ (forall r, r ∈ rounds -> round_covered r (mf_Samples (rs_man s'))) /\
      mf_Samples (rs_man s) ⊆ mf_Samples (rs_man s')
  end.
Proof.
  revert s. induction rounds as [|r rounds IH]; intros s Hs; simpl.
  { split; [done|]. split; [by intros r ?%not_elem_of_nil|done]. }
  pose proof (one_round_accounted rec r (world r) s Hs) as H1.
  destruct (one_round _ _ _ _ _ _ _ _ s) as [s1|res]; [|done].
  destruct H1 as (Hs1 & (x & Hx & Hxr) & Hsub). pose proof (IH s1 Hs1) as H2.
  destruct (round_loop _ _ _ _ _ _ _ _ s1) as [s2|res]; [|done].
  destruct H2 as (Hs2 & Hc & Hsub2). split; [done|]. split; [|by trans (mf_Samples (rs_man s1))].
  intros r' [->|Hr']%elem_of_cons; [|by apply Hc]. exists x. split; [by apply Hsub2|done].
Qed.

(** An attempt's result always accounts for itself: its manifest names the
    version it resolved, and its counts are those of the samples the manifest
    lists; it names an object exactly when it gives no reason to fail; and when
    it does, every round of the policy has a success, the object is the
    attempt's own, and its body is the encoding of the compacted merge of
    exactly the successful samples' profiles, within [maxMergedBytes] before
    compression. *)
Theorem run_accounts (world : Z -> roundIn) (put : string -> string -> bool) (rec : Job) :
  let res := run_work decode merge Compact write writeUncompressed gunzip limits versionLabel gateway
               world put rec in
  result_accounts res /\
  (failed_result res \/
   wr_Reason res = EmptyString /\ wr_Object res = artifactName (j_ID rec) (j_Attempt rec) /\
   exists m ps p body, wr_Manifest res = Some m /\
     (forall r, 0 <= r < Rounds (PSampling (j_Policy rec)) -> round_covered r (mf_Samples m)) /\
     merged_of ps (Some p) /\ Z.of_nat (length ps) = ok_count (mf_Samples m) /\
     write (Compact p) = Some body /\ put (wr_Object res) body = true /\
     wr_Bytes res = byte_len body /\
     exists plain, writeUncompressed (Compact p) = Some plain /\ byte_len plain <= MaxMergedBytes limits).
Proof.
  assert (accounted (run_start (Profile:=Profile) versionLabel gateway rec)) as H0.
  { split; simpl; try done. exists []. split; [constructor|done]. }
  simpl. unfold run_work.
  pose proof (round_loop_accounted rec world (seqZ 0 (Rounds (PSampling (j_Policy rec)))) _ H0) as Hl.
  destruct (round_loop _ _ _ _ _ _ _ _ _) as [s|res].
  2: { destruct Hl as [Hf Ha]. split; [done|by left]. }
  destruct Hl as (Hs & Hcov & _). pose proof Hs as [(ps & Hps & Hlen) Hok Hall Hver].
  assert (forall reason, reason <> EmptyString -> result_accounts (fail s reason) /\
    (failed_result (fail s reason) \/ False)) as Hfail.
  { intros reason Hr. destruct (fail_result s reason Hs Hr). auto. }
  unfold finish_work. destruct (rs_merged s) as [merged|] eqn:Hm.
  2: { destruct (Hfail ReasonNoSamples) as [? [?|[]]]; [done|]. auto. }
  unfold serializedSize. destruct (writeUncompressed (Compact merged)) as [plain|] eqn:Hp; simpl.
  2: { destruct (Hfail ReasonSerializeFailed) as [? [?|[]]]; [done|]. auto. }
  destruct (Z.ltb_spec (MaxMergedBytes limits) (byte_len plain)) as [|Hle].
  { destruct (Hfail ReasonMergedTooLarge) as [? [?|[]]]; [done|]. auto. }
  destruct (write (Compact merged)) as [body|] eqn:Hw.
  2: { destruct (Hfail ReasonSerializeFailed) as [? [?|[]]]; [done|]. auto. }
  destruct (put _ body) eqn:Hput; simpl.
  2: { destruct (Hfail ReasonArtifactStoreFailed) as [? [?|[]]]; [done|]. auto. }
  split; [by exists (rs_man s)|]. right. split; [done|]. split; [done|].
  exists (rs_man s), ps, merged, body. split; [done|]. split.
  { intros r Hr. apply Hcov. apply elem_of_seqZ. lia. }
  split; [done|]. split; [done|]. split; [done|]. split; [done|]. split; [done|]. eauto.
Qed.
End rounds_spec.

(** ** The theorems at a concrete input *)

Definition demo_target (pod uid version : string) : Target :=
  {| tg_Namespace := "shop"; tg_Service := "cart"; tg_Pod := pod; tg_Node := "n0"; tg_PodIP := "10.0.0.1";
     tg_Port := 6060; tg_Version := version; tg_UID := uid |}.

Lemma targetsFor_spec_witness :
  exists s', targetsFor (Profile:=unit) small_limits 0
      (Some [demo_target "cart-0" "u0" "v1"; demo_target "cart-1" "u1" ""; demo_target "cart-0" "u0" "v1"])
      id sample_job (run_start "version" "gw-0" sample_job) =
    ([demo_target "cart-0" "u0" "v1"], EmptyString, s') /\
  rs_resolved s' = "v1" /\ NoDup (tg_UID <$> [demo_target "cart-0" "u0" "v1"]).
Proof.
  eexists. split; [reflexivity|]. split; [reflexivity|].
  refine (proj1 (proj2 (targetsFor_spec (Profile:=unit) small_limits 0
    [demo_target "cart-0" "u0" "v1"; demo_target "cart-1" "u1" ""; demo_target "cart-0" "u0" "v1"] _
    id sample_job (run_start "version" "gw-0" sample_job) _ _ _ _))); [done| |reflexivity].
  by vm_compute.
Defined.
