(* ===== verification/Sweeper.v ===== *)
(** * The sweeper

    src/internal/pgo/sweeper.go: one pass over what Collections leave behind.
    Everything it removes is named by a cache or a listing, and confirmed or
    made conditional before it goes. *)

From S2P Require Import Prelude Effects Ident Config Policy Records Keys Caches Lifecycle.
From S2P Require Import Runtime Publisher Scheduler Worker.

Definition sweeperTick : duration := 60 * second.
Definition receiptReconcileEvery : N := 60.
Definition orphanAge : duration := 10 * minute.
Definition probeKeyPrefix : string := "probe.".
Definition probeObjectPrefix : string := "probe-".

(** [sweeps], the passes completed behind the barrier, a [uint64]. *)
Record SweepState := { sweeps : N }.

(** [slices.Sorted(maps.Keys(m))], and [slices.Sort] of a listing. *)
Definition str_le (a b : string) : Prop := str_compare a b <= 0.
#[export] Instance str_le_dec : RelDecision str_le.
Proof. intros a b. unfold str_le. apply _. Defined.

Definition sortedKeys {A} (m : gmap string A) : list string := merge_sort str_le (map_to_list m).*1.

(** [sortedObjects]. *)
Definition object_le (a b : object_info) : Prop := str_compare (oi_name a) (oi_name b) <= 0.
#[export] Instance object_le_dec : RelDecision object_le.
Proof. intros a b. unfold object_le. apply _. Defined.

Definition sortedObjects (objects : list object_info) : list object_info :=
  merge_sort object_le objects.

Lemma sortedObjects_in o objects : o ∈ sortedObjects objects -> o ∈ objects.
Proof. unfold sortedObjects. by rewrite merge_sort_Permutation. Qed.

(** [objectNames]. *)
Definition objectNames (objects : list object_info) : gset string :=
  list_to_set (oi_name <$> objects).

(** [namedArtifacts]. *)
Definition namedArtifacts (jobs : gmap string cachedJob) : gset string :=
  list_to_set (omap (fun '(_, j) =>
    if bool_decide (cj_State j = StateCompleted) && negb (String.eqb (cj_Artifact j) EmptyString)
    then Some (cj_Artifact j) else None) (map_to_list jobs)).

(** [retirable]. *)
Definition retirable (s : State) : bool :=
  match s with
  | StateExpired | StateFailed | StateCancelled => true
  | StateInitializing | StatePending | StateRunning | StateCompleted => false
  | StateOther _ => false
  end.

Section sweeper.
  Context {V St : Type} `{HW : Wire V} `{HC : Has St Caches} `{HS : Has St SweepState}.
  Abbreviation prog := (Effects.prog V St).
  (** [pgo.jobRetention]. *)
  Variable jobRetention : duration.

Definition SweeperDelete (kind : string) : prog unit := call (Emit (Metric "sweeper_delete" kind)).

(** [dropArtifact]. *)
Definition dropArtifact (object : string) : prog bool :=
  if String.eqb object EmptyString then mret true
  else
    d ← call (ObjDelete object);
    match d with
    | Err _ => mret false
    | Ok _ => _ ← SweeperDelete "artifact"; mret true
    end.

(** [objectGone]. *)
Definition objectGone (object : string) : prog bool :=
  r ← call (ObjGet object);
  mret (err_is r ErrObjectNotFound).

(** [flipExpired]. *)
Definition flipExpired (key : string) (job : cachedJob) : prog unit :=
  g ← call (KvGet BJobs key);
  match g with
  | Err _ => mret tt
  | Ok e =>
      match dec_job (e_value e) with
      | None => mret tt
      | Some rec =>
          if negb (bool_decide (j_State rec = StateCompleted)) then mret tt
          else
            let rec' := set_state StateExpired rec in
            match MarshalBounded (enc_job rec') with
            | SerializeFailed | RecordTooLarge => mret tt
            | Marshalled value =>
                u ← call (KvUpdate BJobs key value (cj_Revision job));
                match u with
                | Err ErrRevisionMismatch => mret tt
                | Err _ => call (Emit (Metric "store_failure" "expire"))
                | Ok _ =>
                    _ ← logTransition rec';
                    call (Emit (Metric "collection" (state_name StateExpired)))
                end
            end
      end
  end.

(** The loop body of [expire]. *)
Definition expire_one (stored : gset string) (listed : bool) (now : time) (key : string)
    (job : cachedJob) : prog unit :=
  if negb (bool_decide (cj_State job = StateCompleted)) then mret tt
  else if (match cj_ExpiresAt job with Some x => before (x + skewMargin) now | None => false end)
  then
    dropped ← dropArtifact (cj_Artifact job);
    if negb dropped then mret tt else flipExpired key job
  else if listed && negb (String.eqb (cj_Artifact job) EmptyString)
          && negb (bool_decide (cj_Artifact job ∈ stored))
  then
    gone ← objectGone (cj_Artifact job);
    if negb gone then mret tt else flipExpired key job
  else mret tt.

(** [expire]. *)
Definition expire (jobs : gmap string cachedJob) (objects : list object_info) (listed : bool)
    (now : time) : prog unit :=
  for_each (sortedKeys jobs) (fun key =>
    match jobs !! key with
    | None => mret tt
    | Some job => expire_one (objectNames objects) listed now key job
    end).

(** [dropReceipt]. *)
Definition dropReceipt (rec : Job) : prog unit :=
  let key := ReceiptKey (j_CreatedBy rec) (j_Namespace rec) (j_Service rec) (j_IdempotencyKey rec) in
  r ← readReceipt key;
  match r with
  | Err _ | Ok None => mret tt
  | Ok (Some (receipt, rev)) =>
      if negb (String.eqb (rc_ID receipt) (j_ID rec)) then mret tt
      else _ ← call (KvDelete BJobs key rev); mret tt
  end.

(** The loop body of [retire]. *)
Definition retire_one (now : time) (key : string) (job : cachedJob) : prog unit :=
  if negb (retirable (cj_State job)) then mret tt
  else
    match cj_FinishedAt job with
    | None => mret tt
    | Some finishedAt =>
        if negb (before (finishedAt + (jobRetention +! skewMargin)) now) then mret tt
        else
          match cut_prefix jobPrefix key with
          | None => mret tt
          | Some id =>
              r ← readJob id;
              d ← call (KvDelete BJobs key (cj_Revision job));
              match d with
              | Err _ => mret tt
              | Ok _ =>
                  _ ← SweeperDelete "record";
                  match r with
                  | Ok (Some rec) =>
                      if negb (String.eqb (j_IdempotencyKey rec) EmptyString) then dropReceipt rec
                      else mret tt
                  | Ok None | Err _ => mret tt
                  end
              end
          end
    end.

(** [retire]. *)
Definition retire (jobs : gmap string cachedJob) (now : time) : prog unit :=
  for_each (sortedKeys jobs) (fun key =>
    match jobs !! key with None => mret tt | Some job => retire_one now key job end).

(** The loop body of [sweepSlots]. *)
Definition sweep_slot (now : time) (key : string) (slot : cachedSlot) : prog unit :=
  if negb (before (cs_RetainUntil slot + skewMargin) now) then mret tt
  else
    d ← call (KvDelete BJobs key (cs_Revision slot));
    match d with Err _ => mret tt | Ok _ => SweeperDelete "slot" end.

(** [sweepSlots]. *)
Definition sweepSlots (now : time) : prog unit :=
  slots ← reading slotEntries;
  for_each (sortedKeys slots) (fun key =>
    match (slots : gmap string cachedSlot) !! key with
    | None => mret tt
    | Some slot => sweep_slot now key slot
    end).

(** The loop body of [sweepOrphans]. *)
Definition sweep_orphan (named : gset string) (now : time) (o : object_info) : prog unit :=
  if bool_decide (oi_name o ∈ named) then mret tt
  else if negb (before (oi_mod_time o + (orphanAge + skewMargin)) now) then mret tt
  else
    match collectionOf (oi_name o) with
    | None => mret tt
    | Some id =>
        r ← readJob id;
        match r with
        | Err _ => mret tt
        | Ok rec =>
            if (match rec with
                | None => false
                | Some rec =>
                    negb (terminal (j_State rec))
                    || (match j_Artifact rec with
                        | None => false
                        | Some a => String.eqb (ar_Object a) (oi_name o)
                        end)
                end) then mret tt
            else
              d ← call (ObjDelete (oi_name o));
              match d with Err _ => mret tt | Ok _ => SweeperDelete "orphan" end
        end
    end.

(** [sweepOrphans]. *)
Definition sweepOrphans (jobs : gmap string cachedJob) (objects : list object_info) (now : time) :
    prog unit :=
  for_each (sortedObjects objects) (sweep_orphan (namedArtifacts jobs) now).

(** The loop body of [sweepActive]. *)
Definition sweep_active (ref : serviceRef) (a : cachedActive) : prog unit :=
  r ← readJob (ca_ID a);
  match r with
  | Err _ => mret tt
  | Ok rec =>
      if (match rec with None => false | Some rec => negb (terminal (j_State rec)) end) then mret tt
      else
        d ← call (KvDelete BJobs (activeKey ref.1 ref.2) (ca_Revision a));
        match d with Err _ => mret tt | Ok _ => SweeperDelete "active" end
  end.

(** [sweepActive]. *)
Definition sweepActive : prog unit :=
  active ← reading activeEntries;
  for_each (sortedRefs active) (fun ref =>
    match (active : gmap serviceRef cachedActive) !! ref with
    | None => mret tt
    | Some a => sweep_active ref a
    end).

(** The loops of [sweepProbes]: the keys of one bucket, and the objects. *)
Definition sweep_probe_key (b : bucket) (now : time) (key : string) : prog unit :=
  g ← call (KvGet b key);
  match g with
  | Err _ => mret tt
  | Ok e =>
      if negb (before (e_created e + (orphanAge + skewMargin)) now) then mret tt
      else
        d ← call (KvDelete b key (e_revision e));
        match d with Err _ => mret tt | Ok _ => SweeperDelete "probe" end
  end.

Definition sweep_probe_bucket (now : time) (b : bucket) : prog unit :=
  r ← call (KvKeys b probeKeyPrefix);
  match r with
  | Err _ => call (Emit (Metric "store_failure" "probe_list"))
  | Ok keys => for_each (merge_sort str_le keys) (sweep_probe_key b now)
  end.

Definition sweep_probe_object (now : time) (o : object_info) : prog unit :=
  if negb (has_prefix probeObjectPrefix (oi_name o)) then mret tt
  else if negb (before (oi_mod_time o + (orphanAge + skewMargin)) now) then mret tt
  else
    d ← call (ObjDelete (oi_name o));
    match d with Err _ => mret tt | Ok _ => SweeperDelete "probe" end.

(** [sweepProbes]. *)
Definition sweepProbes (objects : list object_info) (listed : bool) (now : time) : prog unit :=
  _ ← for_each [BConfig; BJobs] (sweep_probe_bucket now);
  if negb listed then mret tt
  else for_each (sortedObjects objects) (sweep_probe_object now).

(** The loop body of [reconcileReceipts]. *)
Definition reconcile_receipt (now : time) (key : string) : prog unit :=
  r ← readReceipt key;
  match r with
  | Err _ | Ok None => mret tt
  | Ok (Some (receipt, rev)) =>
      if negb (before (rc_CreatedAt receipt + (jobRetention +! skewMargin)) now) then mret tt
      else
        j ← readJob (rc_ID receipt);
        match j with
        | Err _ | Ok (Some _) => mret tt
        | Ok None => _ ← call (KvDelete BJobs key rev); mret tt
        end
  end.

(** [reconcileReceipts]. *)
Definition reconcileReceipts (now : time) : prog unit :=
  r ← call (KvKeys BJobs receiptPrefix);
  match r with
  | Err _ => mret tt
  | Ok keys => for_each (merge_sort str_le keys) (reconcile_receipt now)
  end.

(** [sweep]. *)
Definition sweep : prog unit :=
  gen ← call Generation;
  watched ← call (WatchSynced gen);
  if negb watched then mret tt
  else
    replayed ← reading (Synced gen);
    if negb replayed then mret tt
    else
      v ← call (View gen);
      match v with
      | Err _ => mret tt
      | Ok _ =>
          n ← locked (fun s => let n := ((sweeps s + 1) mod 2 ^ 64)%N in (n, {| sweeps := n |}));
          now ← call Now;
          jobs ← reading jobEntries;
          l ← call ObjList;
          let listed := match l with Ok _ => true | Err _ => false end in
          let objects := match l with Ok objects => objects | Err _ => [] end in
          _ ← expire jobs objects listed now;
          _ ← retire jobs now;
          _ ← sweepSlots now;
          _ ← (if listed then sweepOrphans jobs objects now else mret tt);
          _ ← sweepActive;
          _ ← sweepProbes objects listed now;
          if (n mod receiptReconcileEvery =? 0)%N then reconcileReceipts now else mret tt
      end.
End sweeper.

(** ** A pass is lawful *)

Section sweeper_lawful.
  Context {V St : Type} `{HW : Wire V} `{HL : !WireLaws V} `{HC : Has St Caches}
    `{HS : Has St SweepState} `{HA : !Apart St SweepState Caches}.
  Variable jobRetention : duration.
  Abbreviation log := (Lifecycle.log (V:=V)).
  Abbreviation prog := (Effects.prog V St).

(** What the cached copy of a record says of the log. *)
Definition cached_taken (K : log) (key : string) (j : cachedJob) : Prop :=
  exists id v rec, key = jobKey id /\ K key (cj_Revision j) v /\ dec_job v = Some rec /\
    j = cached_of rec (cj_Revision j).

Lemma cached_taken_mono (K K' : log) key j : log_le K K' -> cached_taken K key j -> cached_taken K' key j.
Proof. intros HK (id & v & rec & ? & Hv & ?). exists id, v, rec. split; [done|]. split; [by apply HK|done]. Qed.

Lemma dropArtifact_lawful (K : log) (object : string) {B} (f : bool -> prog B) :
  (forall K' b, log_le K K' -> orderly K' (f b)) -> orderly K (dropArtifact object ≫= f).
Proof.
  intros Hf. unfold dropArtifact. case_match; [by apply Hf|]. apply lawful_bind.
  apply lawful_harmless; [done|]. intros K1 d H1 _ _. destruct d; [|by apply Hf].
  apply lawful_harmless; [done|]. intros K2 [] H2 _ _. apply Hf. by trans K1.
Qed.

(** The flip: the body is of a completed record read fresh, the revision that
    of a completed record the cache was delivered, and a Collection completes
    once, so the two are one. *)
Lemma flipExpired_lawful (K : log) (key : string) (job : cachedJob) :
  cached_taken K key job -> cj_State job = StateCompleted ->
  orderly K (flipExpired (St:=St) key job).
Proof.
  intros Hc Hs. unfold flipExpired. apply lawful_call; [done|]. intros K1 g H1 Hok Hg.
  destruct g as [e|]; [|done]. destruct (dec_job (e_value e)) as [rec|] eqn:Hd; [|done].
  case_bool_decide as Hrec; [|done]. cbn [negb].
  destruct (MarshalBounded _) as [v| |] eqn:Hm; [|done..].
  apply MarshalBounded_Some in Hm as [Hm _].
  destruct (cached_taken_mono K K1 _ _ H1 Hc) as (id & v0 & rec0 & -> & HK & Hd0 & Hj).
  assert (j_State rec0 = StateCompleted) as Hs0 by (by rewrite Hj in Hs).
  pose proof (log_completed _ Hok id _ _ _ _ rec0 rec HK Hg Hd0 Hd Hs0 Hrec) as ->.
  destruct (log_job _ Hok _ _ _ HK) as (rec1 & Hd1 & Hid).
  assert (rec1 = rec0) as -> by congruence.
  apply lawful_call.
  { eapply update_call_ok; [by exists v0|exact Hm|by apply expire_transition|done]. }
  intros K2 u H2 _ _. destruct u as [rv|err].
  - apply logTransition_lawful. intros K3 H3 _. by apply orderly_last.
  - destruct err; first [done|by apply orderly_last].
Qed.

Lemma cached_key (K : log) (c : Caches) key j :
  cache_ok K c -> jobs c !! key = Some j -> cached_taken K key j.
Proof. intros [Hj _] Hk. by apply Hj. Qed.

Lemma expire_lawful (K : log) (c : Caches) (objects : list object_info) (listed : bool) (now : time) :
  cache_ok K c -> orderly K (expire (St:=St) (jobs c) objects listed now).
Proof.
  intros Hc. unfold expire. apply orderly_for_each. intros K1 key H1 _.
  destruct (jobs c !! key) as [job|] eqn:Hj; [|done].
  pose proof (cached_key K c key job Hc Hj) as Ht.
  assert (forall K2, log_le K1 K2 -> cached_taken K2 key job) as Ht2
    by (intros K2 H2; apply (cached_taken_mono K); [by trans K1|done]).
  unfold expire_one. case_bool_decide as Hs; [|done]. cbn [negb].
  destruct (match cj_ExpiresAt job with Some x => before (x + skewMargin) now | None => false end).
  - apply dropArtifact_lawful. intros K2 [] H2; [|done]. apply flipExpired_lawful; auto.
  - case_match; [|done]. unfold objectGone. apply lawful_harmless; [done|]. intros K2 r H2 _ _.
    cbn. case_match; [done|]. apply flipExpired_lawful; auto.
Qed.

Lemma ReceiptKey_not_job (p n s k : string) : has_prefix jobPrefix (ReceiptKey p n s k) = false.
Proof. reflexivity. Qed.

Lemma retire_lawful (K : log) (c : Caches) (now : time) :
  cache_ok K c -> orderly K (retire (St:=St) jobRetention (jobs c) now).
Proof.
  intros Hc. unfold retire. apply orderly_for_each. intros K1 key H1 _.
  destruct (jobs c !! key) as [job|] eqn:Hj; [|done].
  pose proof (cached_key K c key job Hc Hj) as Ht.
  unfold retire_one. destruct (retirable (cj_State job)) eqn:Hr; [|done]. cbn [negb].
  destruct (cj_FinishedAt job) as [f|]; [|done]. case_match; [done|].
  destruct (cut_prefix jobPrefix key) as [id|]; [|done].
  apply readJob_lawful. intros K2 r H2 _. apply lawful_call.
  { intros id' ->. destruct Ht as (id0 & v & rec & _ & HK & Hd & Hjob). exists v, rec.
    split; [by apply H2, H1|]. split; [done|]. rewrite Hjob in Hr. simpl in Hr.
    unfold deletable. destruct (j_State rec); try done; auto. }
  intros K3 d H3 _ _. destruct d; [|done]. apply lawful_harmless; [done|]. intros K4 [] H4 _ _.
  destruct r as [[rec|]|]; [|done..]. case_match; [|done]. unfold dropReceipt.
  apply readReceipt_lawful. intros K5 r5 H5 _. destruct r5 as [[[rc rev]|]|]; [|done..].
  case_match; [done|]. split; [apply delete_other, ReceiptKey_not_job|done].
Qed.

Lemma prefixed_not_job (p key : string) :
  has_prefix p key = true -> (forall rest, has_prefix jobPrefix (p +:+ rest) = false) ->
  has_prefix jobPrefix key = false.
Proof. intros [rest ->]%has_prefix_iff H. apply H. Qed.

Lemma sweepSlots_lawful (K : log) (now : time) : orderly K (sweepSlots (V:=V) (St:=St) now).
Proof.
  unfold sweepSlots. apply lawful_reading. intros K1 st H1 _ [_ Hslots].
  apply orderly_for_each. intros K2 key H2 _. unfold slotEntries.
  destruct (slots (the st) !! key) as [slot|] eqn:Hs; [|done]. unfold sweep_slot.
  case_match; [done|]. apply lawful_call.
  { apply delete_other, (prefixed_not_job slotPrefix); [apply Hslots; by eexists|done]. }
  intros K3 d _ _ _. destruct d; [by apply orderly_last|done].
Qed.

Lemma sweepOrphans_lawful (K : log) js objects (now : time) :
  orderly K (sweepOrphans (V:=V) (St:=St) js objects now).
Proof.
  unfold sweepOrphans. apply orderly_for_each. intros K1 o _ _. unfold sweep_orphan.
  case_match; [done|]. case_match; [done|]. destruct (collectionOf (oi_name o)); [|done].
  apply readJob_lawful. intros K2 r _ _. destruct r as [rec|]; [|done]. case_match; [done|].
  apply lawful_harmless; [done|]. intros K3 d _ _ _. destruct d; [by apply orderly_last|done].
Qed.

Lemma sweepActive_lawful (K : log) : orderly K (sweepActive (V:=V) (St:=St)).
Proof.
  unfold sweepActive. apply lawful_reading. intros K1 st _ _ _. apply orderly_for_each.
  intros K2 ref _ _. destruct (activeEntries (the st) !! ref); [|done]. unfold sweep_active.
  apply readJob_lawful. intros K3 r _ _. destruct r as [rec|]; [|done]. case_match; [done|].
  apply lawful_call; [apply delete_other, activeKey_not_job|]. intros K4 d _ _ _.
  destruct d; [by apply orderly_last|done].
Qed.

Lemma sweepProbes_lawful (K : log) objects listed (now : time) :
  orderly K (sweepProbes (V:=V) (St:=St) objects listed now).
Proof.
  unfold sweepProbes. apply orderly_bind.
  - apply orderly_for_each. intros K1 b _ _. unfold sweep_probe_bucket.
    apply lawful_harmless; [done|]. intros K2 r _ _ Hr. destruct r as [keys|]; [|by apply orderly_last].
    apply orderly_for_each. intros K3 key _ Hkey. unfold sweep_probe_key.
    apply lawful_harmless; [done|]. intros K4 g _ _ _. destruct g as [e|]; [|done].
    case_match; [done|]. apply lawful_call.
    { destruct b; [done|]. apply delete_other, (prefixed_not_job probeKeyPrefix); [|done].
      simpl in Hr. rewrite Forall_forall in Hr. apply Hr.
      by rewrite merge_sort_Permutation in Hkey. }
    intros K5 d _ _ _. destruct d; [by apply orderly_last|done].
  - intros K1 [] _. case_match; [done|]. apply orderly_for_each. intros K2 o _ _.
    unfold sweep_probe_object. case_match; [done|]. case_match; [done|].
    apply lawful_harmless; [done|]. intros K3 d _ _ _. destruct d; [by apply orderly_last|done].
Qed.

Lemma reconcileReceipts_lawful (K : log) (now : time) :
  orderly K (reconcileReceipts (V:=V) (St:=St) jobRetention now).
Proof.
  unfold reconcileReceipts. apply lawful_harmless; [done|]. intros K1 r _ _ Hr.
  destruct r as [keys|]; [|done]. apply orderly_for_each. intros K2 key _ Hkey.
  unfold reconcile_receipt. apply readReceipt_lawful. intros K3 g _ _.
  destruct g as [[[rc rev]|]|]; [|done..]. case_match; [done|].
  apply readJob_lawful. intros K4 j _ _. destruct j as [[]|]; [done| |done].
  split; [|done]. apply delete_other, (prefixed_not_job receiptPrefix); [|done].
  simpl in Hr. rewrite Forall_forall in Hr. apply Hr. by rewrite merge_sort_Permutation in Hkey.
Qed.

Lemma sweep_lawful (K : log) : orderly K (sweep (V:=V) (St:=St) jobRetention).
Proof.
  unfold sweep. apply lawful_harmless; [done|]. intros K1 gen _ _ _.
  apply lawful_harmless; [done|]. intros K2 watched _ _ _. case_match; [done|].
  apply lawful_reading. intros K3 st _ _ _. case_match; [done|].
  apply lawful_harmless; [done|]. intros K4 v _ _ _. destruct v; [|done].
  apply (locked_lawful K4 (A:=SweepState)). intros K5 n _ _.
  apply lawful_harmless; [done|]. intros K6 now _ _ _.
  apply lawful_reading. intros K7 st7 _ _ Hc.
  apply lawful_harmless; [done|]. intros K8 l H8 _ _.
  assert (forall K', log_le K7 K' -> cache_ok K' (the st7)) as Hc'.
  { intros K' HK. destruct Hc as [Hj Hsl]. split; [|done]. intros key j Hkey.
    destruct (Hj key j Hkey) as (id & w & rec & ? & ? & ?). exists id, w, rec. eauto. }
  apply orderly_bind; [by apply expire_lawful, Hc'|]. intros K9 [] H9.
  apply orderly_bind; [apply retire_lawful, Hc'; by trans K8|]. intros K10 [] _.
  apply orderly_bind; [apply sweepSlots_lawful|]. intros K11 [] _.
  apply orderly_bind; [case_match; [|done]; apply sweepOrphans_lawful|]. intros K12 [] _.
  apply orderly_bind; [apply sweepActive_lawful|]. intros K13 [] _.
  apply orderly_bind; [apply sweepProbes_lawful|]. intros K14 [] _.
  case_match; [apply reconcileReceipts_lawful|done].
Qed.
End sweeper_lawful.

(** ** What a pass removes *)

Section one_pass.
  Context {V St : Type} `{HW : Wire V} `{HL : !WireLaws V} `{HC : Has St Caches}
    `{HS : Has St SweepState}.
  Variable jobRetention : duration.
  Abbreviation history := (list (event V St)).
  Abbreviation prog := (Effects.prog V St).

(** What the pass read of its memory. *)
Definition read_of {R} (g : Caches -> R) : op V St R := Atomic (fun st => (g (the st), st)).

Definition saw_job (h : history) (key : string) (job : cachedJob) : Prop :=
  exists js, Ev (read_of jobEntries) js ∈ h /\ js !! key = Some job.

(** The clock the pass read is past [bound]. *)
Definition past (h : history) (bound : time) : Prop := exists now, Ev Now now ∈ h /\ bound < now.

(** A fresh read found the record absent, or terminal. *)
Definition read_over (h : history) (id : string) (P : Job -> Prop) : Prop :=
  Ev (KvGet BJobs (jobKey id)) (Err ErrKeyNotFound) ∈ h \/
  exists e rec, Ev (KvGet BJobs (jobKey id)) (Ok e) ∈ h /\ dec_job (e_value e) = Some rec /\
    terminal (j_State rec) = true /\ P rec.

(** The object is not in the store, or the record names none. *)
Definition object_gone (h : history) (object : string) : Prop :=
  object = EmptyString \/ Ev (ObjDelete object) (Ok tt) ∈ h \/
  Ev (ObjGet object) (Err ErrObjectNotFound) ∈ h.

Definition names_object (object : string) (rec : Job) : Prop :=
  exists a, j_Artifact rec = Some a /\ ar_Object a = object.

(** A receipt read at this revision. *)
Definition read_receipt (h : history) (key : string) (rev : N) (rc : Receipt) : Prop :=
  exists e, Ev (KvGet BJobs key) (Ok e) ∈ h /\ e_revision e = rev /\ dec_receipt (e_value e) = Some rc.

(** Each removal and the grounds for it. *)
Definition sweep_call (h : history) (R : Type) (o : op V St R) : Prop :=
  match o with
  | ObjDelete name =>
      (** the artifact of a completed record whose retention has run out *)
      (exists key job x, saw_job h key job /\ cj_State job = StateCompleted /\
        cj_Artifact job = name /\ cj_ExpiresAt job = Some x /\ past h (x + skewMargin)) \/
      (** an old object whose Collection is gone, or has ended and names another *)
      (exists objs o id, Ev ObjList (Ok objs) ∈ h /\ o ∈ objs /\ oi_name o = name /\
        past h (oi_mod_time o + (orphanAge + skewMargin)) /\ collectionOf name = Some id /\
        read_over h id (fun rec => ~ names_object name rec)) \/
      (** an old preflight probe *)
      (exists objs o, Ev ObjList (Ok objs) ∈ h /\ o ∈ objs /\ oi_name o = name /\
        has_prefix probeObjectPrefix name = true /\
        past h (oi_mod_time o + (orphanAge + skewMargin)))
  | KvUpdate b key v expected =>
      b = BJobs /\ exists job e rec, saw_job h key job /\ cj_State job = StateCompleted /\
        expected = cj_Revision job /\ Ev (KvGet BJobs key) (Ok e) ∈ h /\
        dec_job (e_value e) = Some rec /\ j_State rec = StateCompleted /\
        dec_job v = Some (set_state StateExpired rec) /\ object_gone h (cj_Artifact job)
  | KvDelete b key expected =>
      (** a record that has ended and outlived its retention *)
      (b = BJobs /\ exists job f, saw_job h key job /\ retirable (cj_State job) = true /\
        expected = cj_Revision job /\ cj_FinishedAt job = Some f /\
        past h (f + (jobRetention +! skewMargin))) \/
      (** the receipt of a record this pass deleted, or of one a read found gone *)
      (b = BJobs /\ exists rc, read_receipt h key expected rc /\
        ((exists k0 e rec rev, Ev (KvGet BJobs k0) (Ok e) ∈ h /\ dec_job (e_value e) = Some rec /\
            Ev (KvDelete BJobs k0 rev) (Ok tt) ∈ h /\ rc_ID rc = j_ID rec) \/
         (Ev (KvGet BJobs (jobKey (rc_ID rc))) (Err ErrKeyNotFound) ∈ h /\
          past h (rc_CreatedAt rc + (jobRetention +! skewMargin))))) \/
      (** a slot past the retention its own value carries *)
      (b = BJobs /\ exists ss slot, Ev (read_of slotEntries) ss ∈ h /\ ss !! key = Some slot /\
        expected = cs_Revision slot /\ past h (cs_RetainUntil slot + skewMargin)) \/
      (** the active key of a Collection that is gone or has ended *)
      (b = BJobs /\ exists acts ref a, Ev (read_of activeEntries) acts ∈ h /\ acts !! ref = Some a /\
        key = activeKey ref.1 ref.2 /\ expected = ca_Revision a /\ read_over h (ca_ID a) (fun _ => True)) \/
      (** an old preflight probe *)
      (exists keys e, Ev (KvKeys b probeKeyPrefix) (Ok keys) ∈ h /\ key ∈ keys /\
        Ev (KvGet b key) (Ok e) ∈ h /\ expected = e_revision e /\
        past h (e_created e + (orphanAge + skewMargin)))
  | KvCreate _ _ _ | ObjPut _ _ => False
  | _ => True
  end.

Abbreviation safe p h := (wp sweep_call p h (fun _ _ => True)).

Lemma in_sub (h h' : history) e : h ⊆ h' -> e ∈ h -> e ∈ h'.
Proof. auto. Qed.
Lemma past_mono (h h' : history) t : h ⊆ h' -> past h t -> past h' t.
Proof. intros Hs (now & ? & ?). exists now. auto. Qed.
Lemma saw_mono (h h' : history) key job : h ⊆ h' -> saw_job h key job -> saw_job h' key job.
Proof. intros Hs (js & ? & ?). exists js. auto. Qed.

Lemma readJob_wp (id : string) {B} (f : result (option Job) -> prog B) (h : history) Q :
  (forall r ev, let h' := ev :: h in
    (r = Ok None -> Ev (KvGet BJobs (jobKey id)) (Err ErrKeyNotFound) ∈ h') ->
    (forall rec, r = Ok (Some rec) -> exists e, Ev (KvGet BJobs (jobKey id)) (Ok e) ∈ h' /\
      dec_job (e_value e) = Some rec) -> wp sweep_call (f r) h' Q) ->
  wp sweep_call (readJob id ≫= f) h Q.
Proof.
  intros Hf. unfold readJob. split; [done|]. intros r.
  apply (Hf _ (Ev (KvGet BJobs (jobKey id)) r)).
  - destruct r as [e|[]]; try done; [by destruct (dec_job _)|]. intros _. apply list_elem_of_here.
  - intros rec Hr. destruct r as [e|[]]; try done. exists e. split; [apply list_elem_of_here|].
    destruct (dec_job (e_value e)); [|done]. by injection Hr as ->.
Qed.

Lemma readReceipt_wp (key : string) {B} (f : result (option (Receipt * N)) -> prog B) (h : history) Q :
  (forall r ev, let h' := ev :: h in
    (forall rc rev, r = Ok (Some (rc, rev)) -> read_receipt h' key rev rc) ->
    wp sweep_call (f r) h' Q) ->
  wp sweep_call (readReceipt key ≫= f) h Q.
Proof.
  intros Hf. unfold readReceipt. split; [done|]. intros r.
  apply (Hf _ (Ev (KvGet BJobs key) r)). intros rc rev Hr.
  destruct r as [e|[]]; try done. exists e. split; [apply list_elem_of_here|].
  destruct (dec_receipt (e_value e)); [|done]. by injection Hr as -> ->.
Qed.

(** A call, and a report that follows its success. *)
Lemma safe_then_report (o : op V St (result unit)) (kind : string) (h : history) :
  sweep_call h _ o ->
  safe (d ← call o; match d with Err _ => mret tt | Ok _ => SweeperDelete (V:=V) (St:=St) kind end) h.
Proof. intros Ho. apply wp_call; [done|]. intros [[]|]; [by split|done]. Qed.

Lemma flip_safe (key : string) (job : cachedJob) (h : history) :
  saw_job h key job -> cj_State job = StateCompleted -> object_gone h (cj_Artifact job) ->
  safe (flipExpired (St:=St) key job) h.
Proof.
  intros Hsaw Hs Hg. unfold flipExpired. apply wp_call; [done|]. intros g.
  destruct g as [e|]; [|done]. destruct (dec_job (e_value e)) as [rec|] eqn:Hd; [|done].
  case_bool_decide as Hrec; [|done]. cbn [negb].
  destruct (MarshalBounded _) as [v| |] eqn:Hm; [|done..].
  apply MarshalBounded_Some in Hm as [Hm%dec_enc_job _].
  set (h1 := Ev _ (Ok e) :: h). assert (h ⊆ h1) as Hsub by set_solver. apply wp_call.
  - split; [done|]. exists job, e, rec. split; [by eapply saw_mono|]. split; [done|].
    split; [done|]. split; [apply list_elem_of_here|]. split; [done|]. split; [done|].
    split; [done|]. destruct Hg as [?|[?|?]]; [by left|right; left; auto|right; right; auto].
  - intros [rv|err]; [by split|]. destruct err; by split.
Qed.

Lemma expire_safe js objects listed now (h : history) :
  Ev (read_of jobEntries) js ∈ h -> Ev Now now ∈ h -> safe (expire (St:=St) js objects listed now) h.
Proof.
  intros Hjs Hnow. unfold expire. apply wp_mono with (fun _ h' => h ⊆ h'); [|done].
  apply wp_for_each; [done|]. intros key h1 _ Hs1.
  destruct (js !! key) as [job|] eqn:Hj; [|done].
  apply wp_mono with (fun _ h' => h1 ⊆ h' /\ True); [|by intros ? ? [? _]; etrans].
  apply wp_grows.
  assert (forall h2, h1 ⊆ h2 -> saw_job h2 key job) as Hsaw by (intros h2 H2; exists js; auto).
  unfold expire_one. case_bool_decide as Hst; [|done]. cbn [negb].
  destruct (match cj_ExpiresAt job with Some x => before (x + skewMargin) now | None => false end)
    eqn:Hx.
  - destruct (cj_ExpiresAt job) as [x|] eqn:Hex; [|done]. unfold before in Hx. to_prop.
    unfold dropArtifact. destruct (String.eqb_spec (cj_Artifact job) "") as [Ha|Ha].
    { apply flip_safe; [by apply Hsaw|done|by left]. }
    apply wp_call.
    { left. exists key, job, x. split; [by apply Hsaw|]. split; [done|]. split; [done|].
      split; [done|]. exists now. auto. }
    intros [[]|]; [|done]. split; [done|]. intros []. apply flip_safe; [apply Hsaw; set_solver|done|].
    right; left. apply list_elem_of_further, list_elem_of_here.
  - destruct (_ && _ && _); [|done]. unfold objectGone. apply wp_call; [done|]. intros r. cbn beta.
    change (wp sweep_call (if negb (err_is r ErrObjectNotFound) then mret tt else flipExpired key job)
      (Ev (ObjGet (cj_Artifact job)) r :: h1) (fun _ _ => True)).
    destruct (err_is r ErrObjectNotFound) eqn:Hr; [|done]. cbn [negb].
    apply flip_safe; [apply Hsaw; set_solver|done|]. right; right.
    destruct r as [|[]]; try done. apply list_elem_of_here.
Qed.

Lemma retire_safe js now (h : history) :
  Ev (read_of jobEntries) js ∈ h -> Ev Now now ∈ h -> safe (retire (St:=St) jobRetention js now) h.
Proof.
  intros Hjs Hnow. unfold retire. apply wp_mono with (fun _ h' => h ⊆ h'); [|done].
  apply wp_for_each; [done|]. intros key h1 _ Hs1.
  destruct (js !! key) as [job|] eqn:Hj; [|done].
  apply wp_mono with (fun _ h' => h1 ⊆ h' /\ True); [|by intros ? ? [? _]; etrans].
  apply wp_grows. unfold retire_one. destruct (retirable (cj_State job)) eqn:Hr; [|done].
  cbn [negb]. destruct (cj_FinishedAt job) as [f|] eqn:Hf; [|done].
  destruct (before (f + (jobRetention +! skewMargin)) now) eqn:Hb; [|done]. cbn [negb].
  unfold before in Hb. to_prop.
  destruct (cut_prefix jobPrefix key) as [id|] eqn:Hk; [|done]. apply cut_prefix_Some in Hk.
  apply readJob_wp. intros r ev h2 _ Hrec. assert (h1 ⊆ h2) as S2 by set_solver. apply wp_call.
  { left. split; [done|]. exists job, f. split; [exists js; auto|]. split; [done|].
    split; [done|]. split; [done|]. exists now. auto. }
  intros d. set (h3 := Ev _ d :: h2). destruct d as [[]|]; [|done]. split; [done|]. intros [].
  destruct r as [[rec|]|]; [|done..]. case_match; [|done]. unfold dropReceipt.
  apply readReceipt_wp. intros rr ev2 h5 Hrr. destruct rr as [[[rc rev]|]|]; [|done..].
  destruct (String.eqb_spec (rc_ID rc) (j_ID rec)) as [Hid|]; [|done]. cbn [negb].
  split; [|done]. right; left. split; [done|]. exists rc. split; [by apply Hrr|]. left.
  destruct (Hrec rec eq_refl) as (e & He & Hd). exists key, e, rec, (cj_Revision job).
  rewrite Hk in *. split; [set_solver|]. split; [done|]. split; [set_solver|done].
Qed.

(** A loop whose body is safe from every longer history. *)
Lemma safe_for_each {A} (xs : list A) (body : A -> prog unit) (h : history) :
  (forall x h', x ∈ xs -> h ⊆ h' -> safe (body x) h') -> wp sweep_call (for_each xs body) h (fun _ h' => h ⊆ h').
Proof.
  intros Hb. apply wp_for_each; [done|]. intros x h1 Hx Hs.
  apply wp_mono with (fun _ h' => h1 ⊆ h' /\ True); [|by intros ? ? [? _]; etrans].
  apply wp_grows. auto.
Qed.

Lemma safe_cons (p : prog unit) (e : event V St) (h : history) :
  wp sweep_call p (e :: h) (fun _ h' => e :: h ⊆ h') -> wp sweep_call p (e :: h) (fun _ h' => h ⊆ h').
Proof.
  intros Hp. apply (wp_mono _ _ _ _ _ Hp). intros _ h' Hs x Hx. by apply Hs, list_elem_of_further.
Qed.

Lemma sweepSlots_safe now (h : history) :
  Ev Now now ∈ h -> wp sweep_call (sweepSlots (V:=V) (St:=St) now) h (fun _ h' => h ⊆ h').
Proof.
  intros Hnow. unfold sweepSlots, reading. apply wp_call; [done|]. intros ss.
  apply safe_cons, safe_for_each. intros key h1 _ H1. destruct (ss !! key) as [slot|] eqn:Hs; [|done].
  unfold sweep_slot. destruct (before _ now) eqn:Hb; [|done]. cbn [negb]. unfold before in Hb. to_prop.
  apply safe_then_report. right; right; left. split; [done|]. exists ss, slot.
  split; [apply H1; set_solver|]. split; [done|]. split; [done|]. exists now. split; [|done].
  apply H1. set_solver.
Qed.

Lemma sweepOrphans_safe js objects now (h : history) :
  Ev Now now ∈ h -> Ev ObjList (Ok objects) ∈ h ->
  wp sweep_call (sweepOrphans (V:=V) (St:=St) js objects now) h (fun _ h' => h ⊆ h').
Proof.
  intros Hnow Hl. apply safe_for_each. intros o h1 Ho H1. unfold sweep_orphan. case_match; [done|].
  destruct (before _ now) eqn:Hb; [|done]. cbn [negb]. unfold before in Hb. to_prop.
  destruct (collectionOf (oi_name o)) as [id|] eqn:Hid; [|done].
  apply readJob_wp. intros r ev h2 Hnone Hsome. assert (h1 ⊆ h2) as S2 by set_solver.
  destruct r as [rec|]; [|done].
  assert (forall P : Job -> Prop, (forall j, rec = Some j -> terminal (j_State j) = true /\ P j) ->
    read_over h2 id P) as Hover.
  { intros P HP. destruct rec as [j|]; [|by left; auto]. right.
    destruct (Hsome j eq_refl) as (e & ? & ?). exists e, j. by destruct (HP j eq_refl). }
  destruct (match rec with None => false | Some j => _ end) eqn:Hk; [done|].
  apply safe_then_report. right; left. exists objects, o, id. split; [auto|].
  split; [by apply sortedObjects_in|]. split; [done|].
  split; [exists now; auto|]. split; [done|]. apply Hover. intros j ->.
  apply orb_false_iff in Hk as [Ht%negb_false_iff Ha]. split; [done|]. intros (a & Ha1 & Ha2).
  rewrite Ha1, Ha2, String.eqb_refl in Ha. done.
Qed.

Lemma sweepActive_safe (h : history) :
  wp sweep_call (sweepActive (V:=V) (St:=St)) h (fun _ h' => h ⊆ h').
Proof.
  unfold sweepActive, reading. apply wp_call; [done|]. intros acts.
  apply safe_cons, safe_for_each. intros ref h1 _ H1. destruct (acts !! ref) as [a|] eqn:Ha; [|done].
  unfold sweep_active. apply readJob_wp. intros r ev h2 Hnone Hsome.
  assert (h1 ⊆ h2) as S2 by set_solver. destruct r as [rec|]; [|done].
  destruct (match rec with None => false | Some j => _ end) eqn:Hk; [done|].
  apply safe_then_report. right; right; right; left. split; [done|]. exists acts, ref, a.
  split; [apply S2, H1; set_solver|]. split; [done|]. split; [done|]. split; [done|].
  destruct rec as [j|]; [|by left; auto]. right. destruct (Hsome j eq_refl) as (e & ? & ?).
  exists e, j. apply negb_false_iff in Hk. done.
Qed.

Lemma sweepProbes_safe objects listed now (h : history) :
  Ev Now now ∈ h -> (listed = true -> Ev ObjList (Ok objects) ∈ h) ->
  wp sweep_call (sweepProbes (V:=V) (St:=St) objects listed now) h (fun _ h' => h ⊆ h').
Proof.
  intros Hnow Hl. unfold sweepProbes. apply wp_bind.
  eapply wp_mono with (fun _ h' => h ⊆ h').
  - apply safe_for_each. intros b h1 _ H1. unfold sweep_probe_bucket. apply wp_call; [done|].
    intros [keys|]; [|by split]. eapply wp_mono; [|done]. apply safe_for_each. intros key h2 Hkey H2.
    unfold sweep_probe_key. apply wp_call; [done|]. intros [e|]; [|done].
    destruct (before _ now) eqn:Hb; [|done]. cbn [negb]. unfold before in Hb. to_prop.
    apply safe_then_report. right; right; right; right. exists keys, e.
    assert (Ev (KvKeys b probeKeyPrefix) (Ok keys) ∈ h2) by (apply H2; set_solver).
    split; [set_solver|]. split; [by rewrite merge_sort_Permutation in Hkey|].
    split; [set_solver|]. split; [done|]. exists now. split; [|done].
    apply list_elem_of_further, H2, list_elem_of_further, H1, Hnow.
  - intros [] h1 H1. destruct listed; [|done]. cbn [negb].
    apply (wp_mono _ _ _ (fun _ h' => h1 ⊆ h')); [|intros _ h' ?; by trans h1].
    apply safe_for_each. intros o h2 Ho H2. unfold sweep_probe_object.
    destruct (has_prefix _ _) eqn:Hp; [|done]. cbn [negb].
    destruct (before _ now) eqn:Hb; [|done]. cbn [negb]. unfold before in Hb. to_prop.
    apply safe_then_report. right; right. exists objects, o. split; [auto|].
    split; [by apply sortedObjects_in|]. split; [done|]. split; [done|].
    exists now. auto.
Qed.

Lemma reconcileReceipts_safe now (h : history) :
  Ev Now now ∈ h -> safe (reconcileReceipts (V:=V) (St:=St) jobRetention now) h.
Proof.
  intros Hnow. unfold reconcileReceipts. apply wp_call; [done|]. intros [keys|]; [|done].
  eapply wp_mono; [|done]. apply safe_for_each. intros key h1 _ H1. unfold reconcile_receipt.
  apply readReceipt_wp. intros r ev h2 Hr. destruct r as [[[rc rev]|]|]; [|done..].
  destruct (before _ now) eqn:Hb; [|done]. cbn [negb]. unfold before in Hb. to_prop.
  apply readJob_wp. intros j ev' h3 Hnone _. destruct j as [[]|]; [done| |done].
  split; [|done]. right; left. split; [done|]. exists rc.
  destruct (Hr rc rev eq_refl) as (e & ? & ? & ?).
  split; [exists e; split; [by apply list_elem_of_further|done]|].
  right. split; [auto|]. exists now. split; [|done].
  apply list_elem_of_further, list_elem_of_further, H1, list_elem_of_further, Hnow.
Qed.

(** The barrier: the watches are up at the connection's generation, the caches
    hold a complete replay of it, and the view answers. *)
Definition ready (h : history) : Prop :=
  exists gen, Ev Generation gen ∈ h /\ Ev (WatchSynced gen) true ∈ h /\
    Ev (read_of (Caches.Synced gen)) true ∈ h /\ Ev (View gen) (Ok tt) ∈ h.

(** What a pass asks before the barrier. *)
Definition asks (e : event V St) : Prop :=
  match e with
  | Ev o _ => match o with Generation | WatchSynced _ | View _ | Atomic _ => True | _ => False end
  end.

Lemma sweep_body_safe n now js (l : result (list object_info)) (h : history) :
  Ev Now now ∈ h -> Ev (read_of jobEntries) js ∈ h -> Ev ObjList l ∈ h ->
  let listed := match l with Ok _ => true | Err _ => false end in
  let objects := match l with Ok objects => objects | Err _ => [] end in
  safe (_ ← (expire js objects listed now : prog unit); _ ← (retire jobRetention js now : prog unit);
        _ ← (sweepSlots now : prog unit);
        _ ← (if listed then sweepOrphans js objects now else mret tt : prog unit);
        _ ← (sweepActive : prog unit); _ ← (sweepProbes objects listed now : prog unit);
        if (n mod receiptReconcileEvery =? 0)%N then reconcileReceipts jobRetention now else mret tt) h.
Proof.
  intros Hnow Hjs Hl listed objects.
  assert (forall (p q : prog unit) h0, h ⊆ h0 -> wp sweep_call p h0 (fun _ h' => h0 ⊆ h') ->
    (forall h', h ⊆ h' -> safe q h') -> safe (p ≫= fun _ => q) h0) as Hseq.
  { intros p q h0 H0 Hp Hq. apply wp_bind, (wp_mono _ _ _ _ _ Hp). intros [] h' H'. apply Hq.
    by trans h0. }
  assert (forall (p : prog unit) h0, safe p h0 -> wp sweep_call p h0 (fun _ h' => h0 ⊆ h')) as Hgrow.
  { intros p h0 Hp. eapply wp_mono; [by apply wp_grows|]. by intros ? ? [? _]. }
  assert (forall e h', e ∈ h -> h ⊆ h' -> e ∈ h') as Hin by auto.
  apply Hseq; [done|by apply Hgrow, expire_safe|]. intros h1 H1.
  apply Hseq; [done|apply Hgrow, retire_safe; eauto|]. intros h2 H2.
  apply Hseq; [done|apply sweepSlots_safe; eauto|]. intros h3 H3.
  apply Hseq; [done| |].
  { unfold listed, objects in *. destruct l; [apply sweepOrphans_safe; eauto|by intros ?]. }
  intros h4 H4. apply Hseq; [done|apply sweepActive_safe|]. intros h5 H5.
  apply Hseq; [done| |].
  { apply sweepProbes_safe; [eauto|]. unfold listed, objects in *. destruct l; [eauto|done]. }
  intros h6 H6. case_match; [apply reconcileReceipts_safe; eauto|done].
Qed.

(** C15: a pass touches nothing unless the watches are up and the caches hold a
    complete replay of the connection it runs under; and whatever it then
    removes it removes on the grounds the design gives: an artifact when its
    Collection's retention has run out by the clock read in the pass, an orphan
    object when a fresh read found its Collection gone or ended without it, a
    record when it ended and outlived its retention, a receipt when its record
    was deleted or read as gone, a slot, an active key or a probe each on its
    own; and the only update it makes is the expiry of a completed record whose
    object was found gone or was deleted first. *)
Theorem sweep_safe (h : history) (u : unit) :
  exec (sweep (V:=V) (St:=St) jobRetention) [] h u ->
  calls_ok sweep_call [] h /\ (ready h \/ Forall asks h).
Proof.
  intros Hex.
  assert (wp sweep_call (sweep (V:=V) (St:=St) jobRetention) []
    (fun _ h' => ready h' \/ Forall asks h')) as Hwp.
  { unfold sweep. apply wp_call; [done|]. intros gen. apply wp_call; [done|]. intros [];
      [|right; by repeat constructor]. cbn [negb].
    apply wp_call; [done|]. intros []; [|right; by repeat constructor]. cbn [negb].
    apply wp_call; [done|]. intros [[]|]; [|right; by repeat constructor].
    apply wp_call; [done|]. intros n. apply wp_call; [done|]. intros now.
    apply wp_call; [done|]. intros js. apply wp_call; [done|]. intros l.
    eapply wp_mono; [apply wp_grows, sweep_body_safe; set_solver|].
    intros _ h' [Hs _]. left. exists gen. split_and!; apply Hs; set_solver. }
  destruct (wp_exec _ _ _ _ _ _ Hwp Hex) as [? ?]. done.
Qed.
End one_pass.

(** A record that failed at second 0, and a slot no longer kept. *)
Definition sweep_memory : Caches * SweepState :=
  (set_barrier (fun _ => 1%N) (fun _ => true)
     (apply cacheJobs (WatchEntry (jobKey demo_id)
        (Some (TJob (set_ended StateFailed EmptyString 0 sample_job))) 3 0 1 false) NewCaches),
   {| sweeps := 59 |}).

Lemma sweep_safe_witness :
  exists h, exec (V:=tagged) (St:=Caches * SweepState) (sweep (100 * second)) [] h tt /\
    calls_ok (sweep_call (100 * second)) [] h /\ (ready h \/ Forall asks h).
Proof.
  destruct (run_test_run (V:=tagged) (St:=Caches * SweepState) ack (sweep (100 * second))
    sweep_memory (fun _ => true)) as (u & h & st' & Hrun & _); [vm_compute; reflexivity|].
  destruct u. apply run_exec in Hrun. exists h. split; [exact Hrun|].
  exact (sweep_safe (100 * second) h tt Hrun).
Defined.
