(* ===== verification/Api.v ===== *)
(** * The PGO routes of the API

    src/internal/httpapi/pgo_collections.go and pgo_policy.go: the handlers
    that create, cancel and download a Collection, and the conditional writes
    of a policy override.  A handler is a program; what it answers is a value,
    the bytes of the response are not modelled.  Reading the body and resolving
    the Service's targets happen outside the store, so their results are
    arguments. *)

From S2P Require Import Prelude Effects Ident Config TokenBucket Policy Records Keys Caches.
From S2P Require Import Discovery Lifecycle Runtime Publisher Scheduler Worker Owner Rounds Sweeper.

(** ** Errors *)

(** [requestError], less its texts; [re_audit] is the code the audit record
    carries when it is not the answer's own. *)
Record requestError := { re_status : Z; re_code : string; re_audit : string }.
#[export] Instance requestError_eq_dec : EqDecision requestError.
Proof. solve_decision. Defined.

Definition refusal (status : Z) (code : string) : requestError :=
  {| re_status := status; re_code := code; re_audit := code |}.

Definition invalidParameter : requestError := refusal 400 "invalid_parameter".
Definition limitExceeded : requestError := refusal 400 "limit_exceeded".
Definition errConfigAPIDisabled : requestError := refusal 403 "config_api_disabled".
Definition errCollectionNotFound : requestError := refusal 404 "collection_not_found".
Definition errOverrideNotFound : requestError := refusal 404 "pgo_override_not_found".
Definition errCollectionNotCompleted : requestError := refusal 409 "collection_not_completed".
Definition errCollectionInitializing : requestError := refusal 409 "collection_initializing".
Definition errCollectionTerminal : requestError := refusal 409 "collection_terminal".
Definition errIdempotencyMismatch : requestError := refusal 409 "idempotency_mismatch".
Definition errArtifactGone : requestError := refusal 410 "artifact_gone".
Definition errPreconditionFailed : requestError := refusal 412 "precondition_failed".
Definition errPreconditionRequired : requestError := refusal 428 "precondition_required".
Definition errCollectionInProgress : requestError := refusal 429 "collection_in_progress".
Definition errRateLimited : requestError := refusal 429 "rate_limited".
Definition errCapacityExhausted : requestError := refusal 429 "capacity_exhausted".
Definition errPGOUnavailable : requestError := refusal 503 "pgo_unavailable".
Definition errCASContended : requestError :=
  {| re_status := 503; re_code := "pgo_unavailable"; re_audit := "cas_contended" |}.

(** [versionRefusal]. *)
Definition versionRefusal (reason : string) : requestError :=
  if String.eqb reason ReasonVersionMissing then refusal 409 "version_missing"
  else refusal 409 "version_conflict".

(** [storeError]. *)
Definition storeError (e : store_err) : requestError :=
  match e with ErrKeyNotFound => errCollectionNotFound | _ => errPGOUnavailable end.

(** ** Headers *)

(** [echoable]: 1 to 128 bytes of [[A-Za-z0-9._-]]. *)
Definition requestIDMaxBytes : Z := 128.
Definition in_bytes (lo hi c : ascii) : bool :=
  (nat_of_ascii lo <=? nat_of_ascii c)%nat && (nat_of_ascii c <=? nat_of_ascii hi)%nat.
Definition echo_byte (c : ascii) : bool :=
  in_bytes "a" "z" c || in_bytes "A" "Z" c || in_bytes "0" "9" c
  || Ascii.eqb c "." || Ascii.eqb c "_" || Ascii.eqb c "-".
Definition echoable (value : string) : bool :=
  if String.eqb value EmptyString || (requestIDMaxBytes <? byte_len value) then false
  else all_bytes echo_byte value.

(** [idempotencyKey], of the values of the header. *)
Definition idempotencyKey (values : list string) : string + requestError :=
  match values with
  | [] => inl EmptyString
  | [v] => if negb (echoable v) then inr invalidParameter else inl v
  | _ => inr invalidParameter
  end.

(** [etagOf]: a quoted decimal. *)
Definition quote : ascii := ascii_of_nat 34.
Definition etagOf (revision : N) : string := String quote (pretty revision +:+ String quote EmptyString).

(** [strconv.ParseUint] of decimal digits, in 64 bits. *)
Fixpoint decimal (acc : N) (s : string) : N :=
  match s with
  | EmptyString => acc
  | String c s' => decimal (10 * acc + (N_of_ascii c - 48))%N s'
  end.

(** What [ifMatchRE] matches: digits between two quotes. *)
Definition quoted_digits (header : string) : option string :=
  match header with
  | EmptyString => None
  | String q rest =>
      if negb (Ascii.eqb q quote) then None
      else
        match cut_suffix (String quote EmptyString) rest with
        | Some digits =>
            if negb (String.eqb digits EmptyString) && all_bytes is_digit digits then Some digits else None
        | None => None
        end
  end.

(** [parseIfMatch]: the revision and whether there is one. *)
Definition parseIfMatch (header : string) : (N * bool) + requestError :=
  if String.eqb header EmptyString then inl (0%N, false)
  else
    match quoted_digits header with
    | None => inr invalidParameter
    | Some digits =>
        let n := decimal 0 digits in
        if (n <? 2 ^ 64)%N then inl (n, true) else inr invalidParameter
    end.

(** ** Answers *)

Inductive answer (A : Type) :=
  | Served (a : A)
  | Refused (e : requestError)
  | NoAnswer.
Arguments Served {A} a.
Arguments Refused {A} e.
Arguments NoAnswer {A}.

Definition cancelAttempts : nat := 5.
Definition receiptReads : nat := 2.

(** [receiptLookup]. *)
Inductive receiptLookup :=
  | LookupNothing
  | LookupMismatch
  | LookupBound (rec : Job).

(** What a create answers with: a new Collection, or one its key stands for. *)
Inductive created :=
  | Accepted (id : string)
  | Replayed (id : string) (state : State).

Section api.
  Context {V St : Type} `{HW : Wire V} `{HC : Has St Caches} `{HP : Has St PubState}
    `{HB : Has St TokenBucket}.
  Abbreviation prog := (Effects.prog V St).

(** [readCollection]. *)
Definition readCollection (id : string) : prog (StoredRecord V + requestError) :=
  r ← ReadRecord id;
  mret match r with
       | Ok s => inl s
       | Err ErrKeyNotFound => inr errCollectionNotFound
       | Err _ => inr errPGOUnavailable
       end.

(** The loop of [serveCollectionCancel], from a record just read: [left] reads
    remain. *)
Fixpoint cancelLoop (left : nat) (id : string) (stored : StoredRecord V) : prog (answer Job) :=
  let rec := st_Record stored in
  match j_State rec with
  | StateInitializing => mret (Refused errCollectionInitializing)
  | StateCompleted | StateFailed | StateCancelled | StateExpired | StateOther _ =>
      mret (Refused errCollectionTerminal)
  | StatePending | StateRunning =>
      now ← call Now;
      let rec' := set_ended StateCancelled ReasonCancelledByAPI now rec in
      w ← WriteRecord rec' (st_Revision stored);
      match w with
      | Ok _ =>
          _ ← RecordTransition rec';
          _ ← releaseActive rec';
          mret (Served rec')
      | Err ErrRevisionMismatch =>
          match left with
          | O => mret (Refused errCASContended)
          | S left' =>
              r ← readCollection id;
              match r with
              | inr e => mret (Refused e)
              | inl next => cancelLoop left' id next
              end
          end
      | Err e => mret (Refused (storeError e))
      end
  end.

(** [serveCollectionCancel], of a request with no body. *)
Definition serveCollectionCancel (id : string) (stored : StoredRecord V) : prog (answer Job) :=
  cancelLoop (cancelAttempts - 1) id stored.

(** [serveCollectionDownload], up to the first byte: the object it streams. *)
Definition serveCollectionDownload (stored : StoredRecord V) : prog (answer string) :=
  let rec := st_Record stored in
  match j_State rec with
  | StateCompleted =>
      let object := artifact_object rec in
      if String.eqb object EmptyString
      then _ ← ExpireGoneArtifact stored; mret (Refused errArtifactGone)
      else
        body ← call (ObjGet object);
        match body with
        | Ok _ => mret (Served object)
        | Err ErrObjectNotFound => _ ← ExpireGoneArtifact stored; mret (Refused errArtifactGone)
        | Err e => mret (Refused (storeError e))
        end
  | StateExpired => mret (Refused errArtifactGone)
  | StateInitializing | StatePending | StateRunning | StateFailed | StateCancelled | StateOther _ =>
      mret (Refused errCollectionNotCompleted)
  end.

(** ** Waiting for a Collection to move *)

(** [terminalState]: a state a newer version writes is not finished. *)
Definition terminalState (s : State) : bool :=
  match s with
  | StateCompleted | StateFailed | StateCancelled | StateExpired => true
  | StateInitializing | StatePending | StateRunning => false
  | StateOther _ => false
  end.

(** One case of the select of [waitForCollection]. *)
Inductive waitEvent := WaitPulse | WaitDeadline | WaitDrain | WaitMoved | WaitGone.

(** A receive from the subscriber's channel empties its buffer. *)
Definition receivePulse (id : string) (ch : N) (c : Caches) : Caches :=
  match subscribers c !! id with
  | None => c
  | Some byID => set_pulses (jobPulse c) (<[id := <[ch := false]> byID]> (subscribers c)) c
  end.

(** The loop of [waitForCollection], of the events its select meets; [None] is
    a request still held open. *)
Fixpoint waitLoop (id : string) (ch : N) (baseline : State) (deadline : bool) (events : list waitEvent) :
    prog (option (answer (StoredRecord V))) :=
  r ← readCollection id;
  match r with
  | inr e => mret (Some (Refused e))
  | inl stored =>
      if deadline || negb (bool_decide (j_State (st_Record stored) = baseline))
         || terminalState (j_State (st_Record stored))
      then mret (Some (Served stored))
      else
        match events with
        | [] => mret None
        | WaitPulse :: events' =>
            _ ← locked (fun c => (tt, receivePulse id ch c));
            waitLoop id ch baseline false events'
        | WaitDeadline :: events' => waitLoop id ch baseline true events'
        | WaitDrain :: _ => mret (Some (Served stored))
        | WaitMoved :: _ => mret (Some (Refused errPGOUnavailable))
        | WaitGone :: _ => mret (Some NoAnswer)
        end
  end.

(** [waitForCollection]: registered before the first read. *)
Definition waitForCollection (ch : N) (stored : StoredRecord V) (events : list waitEvent) :
    prog (option (answer (StoredRecord V))) :=
  let id := j_ID (st_Record stored) in
  _ ← locked (fun c => (tt, Subscribe id ch c));
  _ ← call Now;
  a ← waitLoop id ch (j_State (st_Record stored)) false events;
  match a with
  | None => mret None
  | Some a => _ ← locked (fun c => (tt, Unsubscribe id ch c)); mret (Some a)
  end.

(** [serveCollectionRead]. *)
Definition serveCollectionRead (ch : N) (stored : StoredRecord V) (wait : duration)
    (events : list waitEvent) : prog (option (answer (StoredRecord V))) :=
  if wait <=? 0 then mret (Some (Served stored)) else waitForCollection ch stored events.

(** [servePGOCollection] for the three routes of one Collection, past the
    parameters: [allows] is the realm's answer for the record's own Service. *)
Inductive collectionRoute :=
  | RouteRead (wait : duration) (ch : N) (events : list waitEvent)
  | RouteProfile
  | RouteCancel.

Inductive servedCollection :=
  | ServedRecord (stored : StoredRecord V)
  | ServedObject (object : string)
  | ServedCancel (rec : Job).

Definition answer_map {A B} (f : A -> B) (a : answer A) : answer B :=
  match a with Served x => Served (f x) | Refused e => Refused e | NoAnswer => NoAnswer end.

Definition servePGOCollection (route : collectionRoute) (id : string)
    (allows : string -> string -> bool) : prog (option (answer servedCollection)) :=
  r ← readCollection id;
  match r with
  | inr e => mret (Some (Refused e))
  | inl stored =>
      if negb (allows (j_Namespace (st_Record stored)) (j_Service (st_Record stored)))
      then mret (Some (Refused errCollectionNotFound))
      else
        match route with
        | RouteRead wait ch events =>
            a ← serveCollectionRead ch stored wait events;
            mret (answer_map ServedRecord <$> a)
        | RouteProfile =>
            a ← serveCollectionDownload stored; mret (Some (answer_map ServedObject a))
        | RouteCancel =>
            a ← serveCollectionCancel id stored; mret (Some (answer_map ServedCancel a))
        end
  end.

(** ** Creating a Collection *)

(** [Session.TakeToken]. *)
Definition TakeToken : prog bool :=
  now ← call Now; locked (Take now).

(** [lookupReceipt]; [reads] reads remain. *)
Fixpoint lookupReceipt (reads : nat) (receiptKey hash : string) (clearStale : bool) :
    prog (receiptLookup + requestError) :=
  match reads with
  | O => mret (inl LookupNothing)
  | S reads' =>
      r ← ReadReceipt receiptKey;
      match r with
      | Err ErrKeyNotFound => mret (inl LookupNothing)
      | Err _ => mret (inr errPGOUnavailable)
      | Ok (receipt, revision) =>
          s ← ReadRecord (rc_ID receipt);
          match s with
          | Err e =>
              if negb (bool_decide (e = ErrKeyNotFound)) then mret (inr errPGOUnavailable)
              else if negb clearStale then mret (inl LookupNothing)
              else
                d ← DeleteReceipt receiptKey revision;
                match d with
                | Ok _ => mret (inl LookupNothing)
                | Err _ => lookupReceipt reads' receiptKey hash clearStale
                end
          | Ok stored =>
              let rec := st_Record stored in
              if negb (bool_decide (j_State rec = StateFailed))
                 || negb (String.eqb (j_Reason rec) ReasonNotPublished)
              then
                if negb (String.eqb (rc_SnapshotHash receipt) hash) then mret (inl LookupMismatch)
                else mret (inl (LookupBound rec))
              else if negb clearStale then mret (inl LookupNothing)
              else
                d ← DeleteReceipt receiptKey revision;
                match d with
                | Ok _ => mret (inl LookupNothing)
                | Err _ => lookupReceipt reads' receiptKey hash clearStale
                end
          end
      end
  end.

(** [answerFromReceipt]. *)
Definition answerFromReceipt (bound : receiptLookup) : option (answer created) :=
  match bound with
  | LookupMismatch => Some (Refused errIdempotencyMismatch)
  | LookupBound rec => Some (Served (Replayed (j_ID rec) (j_State rec)))
  | LookupNothing => None
  end.

(** [refuseLoser]. *)
Definition refuseLoser (receiptKey hash key : string) : prog (answer created) :=
  if String.eqb key EmptyString then mret (Refused errCollectionInProgress)
  else
    l ← lookupReceipt receiptReads receiptKey hash false;
    match l with
    | inr e => mret (Refused e)
    | inl bound =>
        match answerFromReceipt bound with
        | Some a => mret a
        | None => mret (Refused errCollectionInProgress)
        end
    end.

(** The configured policy and limits, the session's generation, the Service and
    the caller. *)
Variables (defaults : Policy) (limits : PGOLimits) (gen : N) (ns svc principal : string).

(** The part of [serveCollectionCreate] after the receipt has nothing to
    answer: [clientGone] is whether the request's context has ended once the
    publication returns. *)
Definition create_new (targets : list Target + requestError) (clientGone : bool) (snapshot : Policy)
    (violations : list Violation) (configRevision : N) (key receiptKey hash : string) :
    prog (answer created) :=
  if negb (bool_decide (violations = [])) then mret (Refused limitExceeded)
  else
    token ← TakeToken;
    if negb (token : bool) then mret (Refused errRateLimited)
    else
      match targets with
      | inr e => mret (Refused e)
      | inl targets =>
          let reason := (ResolveVersion targets (Version (PTarget snapshot))).2 in
          if negb (String.eqb reason EmptyString) then mret (Refused (versionRefusal reason))
          else
            l ← SessionLive gen ns svc;
            match l with
            | Err _ => mret (Refused errPGOUnavailable)
            | Ok true => mret (Refused errCollectionInProgress)
            | Ok false =>
                r ← Reserve (MaxLiveCollections limits) gen ns svc;
                match r with
                | CapacityExhausted => mret (Refused errCapacityExhausted)
                | CachesMoved => mret (Refused errPGOUnavailable)
                | Reserved res =>
                    now ← call Now;
                    p ← Publish res
                      {| in_Namespace := ns; in_Service := svc; in_Origin := OriginAPI;
                         in_Slot := zero_time; in_ClaimBy := now + APIClaimGrace;
                         in_ConfigRevision := configRevision; in_Policy := snapshot;
                         in_CreatedBy := principal; in_IdempotencyKey := key |};
                    if clientGone then mret NoAnswer
                    else
                      match p with
                      | (_, PublishFailed _) => mret (Refused errPGOUnavailable)
                      | (_, Published OutcomeBusy) => refuseLoser receiptKey hash key
                      | (id, Published OutcomeWon) => mret (Served (Accepted id))
                      end
                end
            end
      end.

(** [serveCollectionCreate]: [keys] are the values of the header, [body] what
    [decodeBody] read. *)
Definition serveCollectionCreate (keys : list string) (body : PolicyOverride + requestError)
    (targets : list Target + requestError) (clientGone : bool) : prog (answer created) :=
  match idempotencyKey keys with
  | inr e => mret (Refused e)
  | inl key =>
      match body with
      | inr e => mret (Refused e)
      | inl body =>
          if bool_decide (is_Some (o_Enabled body)) || bool_decide (is_Some (o_Schedule body))
          then mret (Refused invalidParameter)
          else
            o ← CachedOverride gen ns svc;
            match o with
            | Err _ => mret (Refused errPGOUnavailable)
            | Ok (stored, configRevision) =>
                let '(snapshot, violations) := SessionEffective defaults limits [stored; Some body] in
                if String.eqb key EmptyString
                then create_new targets clientGone snapshot violations configRevision key EmptyString
                       EmptyString
                else
                  let receiptKey := ReceiptKey principal ns svc key in
                  let hash := SnapshotHash (V:=V) snapshot in
                  l ← lookupReceipt receiptReads receiptKey hash true;
                  match l with
                  | inr e => mret (Refused e)
                  | inl bound =>
                      match answerFromReceipt bound with
                      | Some a => mret a
                      | None => create_new targets clientGone snapshot violations configRevision key
                                  receiptKey hash
                      end
                  end
            end
      end
  end.

(** ** The policy routes *)

(** What a policy write answers with: its revision, and whether it created. *)
Record policyWritten := { pw_Revision : N; pw_Created : bool }.

(** [servePolicyWrite]; [disabled] is whether [pgo.configAPI] closes it. *)
Definition servePolicyWrite (disabled : bool) (ifMatch : string)
    (body : PolicyOverride + requestError) : prog (answer policyWritten) :=
  if disabled then mret (Refused errConfigAPIDisabled)
  else
    match parseIfMatch ifMatch with
    | inr e => mret (Refused e)
    | inl (expected, present) =>
        match body with
        | inr e => mret (Refused e)
        | inl override =>
            let '(effective, violations) := SessionEffective defaults limits [Some override] in
            if negb (bool_decide (violations = [])) then mret (Refused limitExceeded)
            else
              now ← call Now;
              let stored := {| so_Policy := Some override; so_UpdatedBy := principal;
                               so_UpdatedAt := now |} in
              r ← ReadOverride ns svc;
              match r with
              | Err ErrKeyNotFound =>
                  if present then mret (Refused errPreconditionFailed)
                  else
                    c ← CreateOverride ns svc stored;
                    mret match c with
                         | Ok revision => Served {| pw_Revision := revision; pw_Created := true |}
                         | Err ErrKeyExists => Refused errPreconditionFailed
                         | Err _ => Refused errPGOUnavailable
                         end
              | Err _ => mret (Refused errPGOUnavailable)
              | Ok (_, revision) =>
                  if negb present then mret (Refused errPreconditionRequired)
                  else if negb (expected =? revision)%N then mret (Refused errPreconditionFailed)
                  else
                    u ← UpdateOverride ns svc stored expected;
                    mret match u with
                         | Ok revision => Served {| pw_Revision := revision; pw_Created := false |}
                         | Err ErrRevisionMismatch => Refused errPreconditionFailed
                         | Err _ => Refused errPGOUnavailable
                         end
              end
        end
    end.

(** [servePolicyDelete], of a request with no body. *)
Definition servePolicyDelete (disabled : bool) (ifMatch : string) : prog (answer unit) :=
  if disabled then mret (Refused errConfigAPIDisabled)
  else
    match parseIfMatch ifMatch with
    | inr e => mret (Refused e)
    | inl (expected, present) =>
        r ← ReadOverride ns svc;
        match r with
        | Err ErrKeyNotFound => mret (Refused errOverrideNotFound)
        | Err _ => mret (Refused errPGOUnavailable)
        | Ok (_, revision) =>
            if negb present then mret (Refused errPreconditionRequired)
            else if negb (expected =? revision)%N then mret (Refused errPreconditionFailed)
            else
              d ← DeleteOverride ns svc expected;
              mret match d with
                   | Ok _ => Served tt
                   | Err ErrRevisionMismatch | Err ErrKeyNotFound => Refused errPreconditionFailed
                   | Err _ => Refused errPGOUnavailable
                   end
        end
    end.
End api.

(** ** Entity tags *)

Lemma decimal_app (acc : N) (a b : string) : decimal acc (a +:+ b) = decimal (decimal acc a) b.
Proof. revert acc. induction a as [|c a IH]; intros acc; simpl; [done|]. apply IH. Qed.

Lemma pretty_N_char_value (x : N) : (x < 10)%N -> (N_of_ascii (pretty_N_char x) - 48 = x)%N.
Proof.
  intros Hx. assert (exists n : nat, x = N.of_nat n /\ (n < 10)%nat) as (n & -> & Hn)
    by (exists (N.to_nat x); lia).
  do 10 (destruct n as [|n]; [by vm_compute|]). lia.
Qed.

(** The digits written are the number read. *)
Lemma decimal_pretty_go (x : N) (s : string) :
  decimal 0 (pretty_N_go x s) = decimal x s.
Proof.
  revert s. induction (N.lt_wf_0 x) as [x _ IH]; intros s.
  destruct (decide (x = 0)%N) as [->|Hx]; [by rewrite pretty_N_go_0|].
  assert (0 < x)%N as Hx' by lia.
  rewrite pretty_N_go_step by done. rewrite IH by (by apply N.div_lt). simpl.
  rewrite pretty_N_char_value by (apply N.mod_lt; lia). f_equal.
  pose proof (N.div_mod x 10 ltac:(lia)). lia.
Qed.

Lemma decimal_pretty (n : N) : decimal 0 (pretty n) = n.
Proof.
  unfold pretty, pretty_N. case_decide as Hn; [by subst|]. by rewrite decimal_pretty_go.
Qed.

(** The tag a response carries is a condition the next write can name: for
    every revision, parsing the ETag of it reads that revision back. *)
Theorem etag_roundtrip (revision : N) :
  (revision < 2 ^ 64)%N -> parseIfMatch (etagOf revision) = inl (revision, true).
Proof.
  intros Hr. unfold parseIfMatch, etagOf, quoted_digits.
  change (String.eqb (String quote _) EmptyString) with false. cbv iota.
  rewrite Ascii.eqb_refl. cbn [negb]. rewrite cut_suffix_app.
  destruct (String.eqb_spec (pretty revision) EmptyString) as [He|_]; [by destruct (pretty_N_nonempty revision)|].
  rewrite pretty_N_digits. simpl. rewrite decimal_pretty.
  by destruct (N.ltb_spec revision (2 ^ 64)); [|lia].
Qed.

Lemma etag_roundtrip_witness :
  (42 < 2 ^ 64)%N /\ parseIfMatch (etagOf 42) = inl (42%N, true).
Proof. split; [reflexivity|]. apply (etag_roundtrip 42). reflexivity. Defined.

(** ** The cancel loop *)

Section cancel.
  Context {V St : Type} `{HW : Wire V} `{HL : !WireLaws V} `{HC : Has St Caches}.
  Abbreviation prog := (Effects.prog V St).
  Abbreviation history := (list (event V St)).

(** A record the handler was given, or read from the bucket. *)
Definition read_record (id : string) (given : StoredRecord V) (h : history) (s : StoredRecord V) : Prop :=
  s = given \/ exists e, Ev (KvGet BJobs (jobKey id)) (Ok e) ∈ h /\
    dec_job (e_value e) = Some (st_Record s) /\ e_revision e = st_Revision s.

Definition is_live (st : State) : Prop := st = StatePending \/ st = StateRunning.

Definition cancel_post (id : string) (given : StoredRecord V) (h0 : history) (left : nat)
    (a : answer Job) (h : history) : Prop :=
  (length (updates h) <= length (updates h0) + S left)%nat /\
  match a with
  | Served rec => exists s now v rev', read_record id given h s /\ is_live (j_State (st_Record s)) /\
      rec = set_ended StateCancelled ReasonCancelledByAPI now (st_Record s) /\ Ev Now now ∈ h /\
      dec_job v = Some rec /\ Ev (KvUpdate BJobs (jobKey (j_ID rec)) v (st_Revision s)) (Ok rev') ∈ h
  | Refused e =>
      (e = errCollectionInitializing -> exists s, read_record id given h s /\
         j_State (st_Record s) = StateInitializing) /\
      (e = errCollectionTerminal -> exists s, read_record id given h s /\
         ~ is_live (j_State (st_Record s)) /\ j_State (st_Record s) <> StateInitializing) /\
      (e = errCASContended -> length (updates h) = (length (updates h0) + S left)%nat)
  | NoAnswer => False
  end.

Lemma read_record_mono id given (h h' : history) s :
  h ⊆ h' -> read_record id given h s -> read_record id given h' s.
Proof. intros Hs [?|(e & ? & ?)]; [by left|right]. exists e. auto. Qed.

Lemma updates_cons_other (e : event V St) (h : history) :
  update_of e = None -> updates (e :: h) = updates h.
Proof. unfold updates. simpl. by intros ->. Qed.

(** What follows the update of a cancel makes no other. *)
Lemma after_cancel (rec : Job) (h : history) (Q : answer Job -> history -> Prop) :
  (forall h', h ⊆ h' -> updates h' = updates h -> Q (Served rec) h') ->
  wp any_op (_ ← RecordTransition (V:=V) (St:=St) rec; _ ← releaseActive rec; mret (Served rec)) h Q.
Proof.
  intros HQ. unfold RecordTransition, logTransition.
  apply wp_call; [done|]. intros []. apply wp_call; [done|]. intros [].
  unfold releaseActive. apply wp_call; [done|]. intros g.
  assert (forall (l : list (event V St)) h', h' = l ++ h -> Forall (fun e => update_of e = None) l ->
    Q (Served rec) h') as Hfin.
  { intros l h' -> Hl. apply HQ; [set_solver|]. clear -Hl.
    induction Hl as [|e l He Hl IH]; [done|]. rewrite <-IH. by apply updates_cons_other. }
  destruct g as [e|]; [|by eapply (Hfin [_; _; _]); [done|repeat constructor]].
  destruct (dec_active (e_value e)) as [v|]; [|by eapply (Hfin [_; _; _]); [done|repeat constructor]].
  destruct (negb _); [by eapply (Hfin [_; _; _]); [done|repeat constructor]|].
  apply wp_call; [done|]. intros d. eapply (Hfin [_; _; _; _]); [done|repeat constructor].
Qed.

Lemma ReadRecord_wp (id : string) {B} (f : result (StoredRecord V) -> prog B) (h : history) Q :
  (forall r ev, let h' := ev :: h in updates h' = updates h ->
    (forall s, r = Ok s -> exists e, Ev (KvGet BJobs (jobKey id)) (Ok e) ∈ h' /\
      dec_job (e_value e) = Some (st_Record s) /\ e_revision e = st_Revision s) ->
    wp any_op (f r) h' Q) ->
  wp any_op (ReadRecord id ≫= f) h Q.
Proof.
  intros Hf. unfold ReadRecord. split; [done|]. intros r.
  apply (Hf _ (Ev (KvGet BJobs (jobKey id)) r)); [done|]. intros s Hs.
  destruct r as [e|]; [|done]. exists e. destruct (dec_job (e_value e)) as [rec|] eqn:Hd; [|done].
  injection Hs as <-. split; [apply list_elem_of_here|done].
Qed.

Lemma cancelLoop_post (id : string) (given : StoredRecord V) (left : nat) (s : StoredRecord V) (h : history) :
  read_record id given h s ->
  wp any_op (cancelLoop left id s) h (cancel_post id given h left).
Proof.
  revert s h. induction left as [left IH] using lt_wf_ind. intros s h Hs.
  assert (forall st, j_State (st_Record s) = st -> ~ is_live st -> st <> StateInitializing ->
    cancel_post id given h left (Refused errCollectionTerminal) h) as Hterm.
  { intros st He Hl Hi. split; [lia|]. split; [done|]. split; [|done]. intros _. exists s. by subst. }
  assert (is_live (j_State (st_Record s)) -> forall n,
    (n = left) -> wp any_op (now ← call Now;
      let rec' := set_ended StateCancelled ReasonCancelledByAPI now (st_Record s) in
      w ← WriteRecord rec' (st_Revision s);
      match w with
      | Ok _ => _ ← RecordTransition rec'; _ ← releaseActive rec'; mret (Served rec')
      | Err ErrRevisionMismatch =>
          match left with
          | O => mret (Refused errCASContended)
          | S left' =>
              r ← readCollection id;
              match r with inr e => mret (Refused e) | inl next => cancelLoop left' id next end
          end
      | Err e => mret (Refused (storeError e))
      end) h (cancel_post id given h left)) as Hlive.
  { intros Hlive _ _. apply wp_call; [done|]. intros now. cbv zeta.
    set (rec' := set_ended _ _ _ _). unfold WriteRecord.
    assert (forall h' e, (length (updates h') <= length (updates h) + S left)%nat ->
      cancel_post id given h left (Refused (storeError e)) h') as Hse.
    { intros h' e Hu. split; [done|]. by destruct e. }
    destruct (MarshalBounded (enc_job rec')) as [v| |] eqn:Hm.
    2,3: by apply (Hse (Ev Now now :: h) ErrOther), Nat.le_add_r.
    apply MarshalBounded_Some in Hm as [Hm%dec_enc_job _].
    split; [done|]. intros u. set (h1 := Ev _ u :: _).
    assert (length (updates h1) = S (length (updates h))) as Hu1 by done.
    destruct u as [rev'|err].
    - change (wp any_op (_ ← RecordTransition rec'; _ ← releaseActive rec'; mret (Served rec')) h1
        (cancel_post id given h left)).
      apply after_cancel. intros h' Hsub Hu. split; [rewrite Hu; lia|]. exists s, now, v, rev'.
      split; [eapply read_record_mono; [|exact Hs]; etrans; [|exact Hsub]; set_solver|].
      split; [done|]. split; [done|]. split; [apply Hsub; set_solver|]. split; [done|].
      apply Hsub, list_elem_of_here.
    - destruct err; try (apply (Hse h1); lia). destruct left as [|left'].
      { split; [lia|]. split; [done|]. split; [done|]. intros _. lia. }
      refine (ReadRecord_wp id (fun r =>
        match match r with
              | Ok s => inl s
              | Err ErrKeyNotFound => inr errCollectionNotFound
              | Err _ => inr errPGOUnavailable
              end with inr e => mret (Refused e) | inl next => cancelLoop left' id next end) h1 _ _).
      intros r ev h2 Hu2 Hr.
      assert (length (updates h2) = S (length (updates h))) as Hu2' by (by rewrite Hu2).
      destruct r as [next|e2].
      + cbn -[updates cancel_post]. eapply wp_mono.
        * apply IH; [lia|]. right. by apply Hr.
        * intros a h' [Hlen Ha]. split; [lia|]. destruct a as [rec|e|]; [done| |done].
          destruct Ha as (H1 & H2 & H3). split; [done|]. split; [done|]. intros He.
          rewrite (H3 He). lia.
      + destruct e2; cbn -[updates]; (split; [lia|done]). }
  destruct left; cbn [cancelLoop]; destruct (j_State (st_Record s)) eqn:Hst;
    first [by apply (Hlive (or_introl eq_refl) _ eq_refl)|by apply (Hlive (or_intror eq_refl) _ eq_refl)
          |by apply (Hterm _ eq_refl); [by intros [?|?]|]
          |split; [lia|split; [|by split]; intros _; by exists s]].
Qed.

(** A cancel answers from a record it read: it reports the Collection
    cancelled only after its own update, conditional on the revision of a live
    record, was taken, ending that record at a time it read; it reports a
    Collection still initializing, or one that has ended, only from a read of
    such a record, never from a lost update; it asks for at most five updates,
    and says it was contended only after five. *)
Theorem cancel_answers (id : string) (stored : StoredRecord V) (h : history) (a : answer Job) :
  exec (serveCollectionCancel id stored) [] h a ->
  cancel_post id stored [] (cancelAttempts - 1) a h.
Proof.
  intros Hex. refine (proj1 (wp_exec any_op _ [] (cancel_post id stored [] (cancelAttempts - 1)) h a _ Hex)).
  apply cancelLoop_post. by left.
Qed.
End cancel.

Lemma cancel_answers_witness :
  exists h rec, exec (V:=tagged) (St:=Caches * WorkerState)
      (serveCollectionCancel (j_ID sample_job)
         {| st_Record := sample_job; st_Value := TJob sample_job; st_Revision := 3 |}) [] h (Served rec) /\
    (length (updates h) <= 5)%nat.
Proof.
  set (stored := {| st_Record := sample_job; st_Value := TJob sample_job; st_Revision := 3 |}).
  destruct (run_test_run (V:=tagged) (St:=Caches * WorkerState) ack
    (serveCollectionCancel (j_ID sample_job) stored) (NewCaches, NewWorker)
    (fun a => match a with Served _ => true | _ => false end))
    as (a & h & st' & Hrun & Ht); [vm_compute; reflexivity|].
  destruct a as [rec|e|]; [|done..]. apply run_exec in Hrun. exists h, rec. split; [exact Hrun|].
  exact (proj1 (cancel_answers (j_ID sample_job) stored h (Served rec) Hrun)).
Defined.

(** ** What a create writes, and on what grounds it answers *)

Section create.
  Context {V St : Type} `{HW : Wire V} `{HL : !WireLaws V} `{HC : Has St Caches}
    `{HP : Has St PubState} `{HB : Has St TokenBucket}.
  Variables (defaults : Policy) (limits : PGOLimits) (gen : N) (ns svc principal : string).
  Abbreviation prog := (Effects.prog V St).
  Abbreviation history := (list (event V St)).

(** A token was taken, a cache behind the barrier showed no live Collection of
    the Service, and a place under the ceiling was reserved. *)
Definition take_of (now : time) : op V St bool :=
  Atomic (fun st => let '(r, a) := Take now (the st) in (r, put a st)).
Definition live_of (cur : N) : op V St (bool * bool) := read_of (Live cur gen ns svc).
Definition reserve_of (cur : N) : op V St reserve_result :=
  Atomic (fun st =>
    let '(r, p) := reserve (MaxLiveCollections limits) (cachedLive cur gen (the st)) (ns, svc) (the st) in
    (r, put p st)).

Definition granted (h : history) : Prop :=
  (exists now, Ev Now now ∈ h /\ Ev (take_of now) true ∈ h) /\
  (exists cur, Ev (live_of cur) (false, true) ∈ h) /\
  (exists cur r, Ev (reserve_of cur) (Reserved r) ∈ h).

(** A record read as gone, or as one that never became claimable. *)
Definition never_stood (h : history) (id : string) : Prop :=
  Ev (KvGet BJobs (jobKey id)) (Err ErrKeyNotFound) ∈ h \/
  exists e rec, Ev (KvGet BJobs (jobKey id)) (Ok e) ∈ h /\ dec_job (e_value e) = Some rec /\
    j_State rec = StateFailed /\ j_Reason rec = ReasonNotPublished.

Definition create_call (h : history) (R : Type) (o : op V St R) : Prop :=
  match o with
  | KvCreate _ _ _ | KvUpdate _ _ _ _ | ObjPut _ _ | ObjDelete _ => granted h
  | KvDelete b key rev =>
      granted h \/
      b = BJobs /\ exists rc, read_receipt h key rev rc /\ never_stood h (rc_ID rc)
  | _ => True
  end.

Lemma granted_mono (h h' : history) : h ⊆ h' -> granted h -> granted h'.
Proof.
  intros Hs ((now & ? & ?) & (cur & ?) & (cur' & r & ?)).
  split; [exists now; auto|]. split; [exists cur; auto|]. exists cur', r. auto.
Qed.

Lemma read_receipt_mono (h h' : history) key rev rc :
  h ⊆ h' -> read_receipt h key rev rc -> read_receipt h' key rev rc.
Proof. intros Hs (e & ? & ? & ?). exists e. auto. Qed.

(** The receipt of the key names a record that stands. *)
Definition bound_by (receiptKey : string) (h : history) (rc : Receipt) (rec : Job) : Prop :=
  (exists rev, read_receipt h receiptKey rev rc) /\
  (exists e, Ev (KvGet BJobs (jobKey (rc_ID rc))) (Ok e) ∈ h /\ dec_job (e_value e) = Some rec) /\
  ~ (j_State rec = StateFailed /\ j_Reason rec = ReasonNotPublished).

Definition lookup_post (receiptKey hash : string) (r : receiptLookup + requestError) (h : history) : Prop :=
  match r with
  | inl LookupNothing => True
  | inl LookupMismatch => exists rc rec, bound_by receiptKey h rc rec /\ rc_SnapshotHash rc <> hash
  | inl (LookupBound rec) => exists rc, bound_by receiptKey h rc rec /\ rc_SnapshotHash rc = hash
  | inr e => e = errPGOUnavailable
  end.

Lemma lookupReceipt_wp (reads : nat) (receiptKey hash : string) (clearStale : bool) (h : history) :
  wp create_call (lookupReceipt (V:=V) (St:=St) reads receiptKey hash clearStale) h
    (fun r h' => h ⊆ h' /\ lookup_post receiptKey hash r h').
Proof.
  apply wp_mono with (fun r h' => h ⊆ h' /\ lookup_post receiptKey hash r h'); [|done].
  apply wp_grows. revert h. induction reads as [|reads IH]; intros h; [done|].
  cbn [lookupReceipt]. unfold ReadReceipt, readReceipt. split; [done|]. intros g. cbv zeta.
  set (h1 := Ev _ g :: h).
  destruct g as [e|[]]; try done. cbn. destruct (dec_receipt (e_value e)) as [rc|] eqn:Hd; [|done].
  cbn. split; [done|]. intros g2. set (h2 := Ev _ g2 :: h1).
  assert (read_receipt h2 receiptKey (e_revision e) rc) as Hrc.
  { exists e. split; [apply list_elem_of_further, list_elem_of_here|done]. }
  assert (never_stood h2 (rc_ID rc) ->
    wp create_call (d ← DeleteReceipt (V:=V) (St:=St) receiptKey (e_revision e);
      match d with
      | Ok _ => mret (inl LookupNothing)
      | Err _ => lookupReceipt reads receiptKey hash clearStale
      end) h2 (fun r h' => lookup_post receiptKey hash r h')) as Hdel.
  { intros Hn. apply wp_call; [right; eauto|]. intros [[]|]; [done|]. apply IH. }
  destruct g2 as [e2|err]; cbn.
  - destruct (dec_job (e_value e2)) as [rec|] eqn:Hd2; [|done]. cbn.
    destruct (_ || _) eqn:Hstand.
    + assert (bound_by receiptKey h2 rc rec) as Hb.
      { split; [by exists (e_revision e)|]. split; [exists e2; split; [apply list_elem_of_here|done]|].
        intros [Hs Hr]. rewrite Hs, Hr in Hstand. by rewrite bool_decide_true in Hstand. }
      destruct (String.eqb_spec (rc_SnapshotHash rc) hash); cbn; eauto.
    + destruct clearStale; [|done]. apply Hdel. right. exists e2, rec.
      split; [apply list_elem_of_here|]. split; [done|].
      apply orb_false_iff in Hstand as [H1%negb_false_iff H2%negb_false_iff].
      by apply bool_decide_eq_true in H1; apply String.eqb_eq in H2.
  - case_bool_decide as He; [|done]. subst err. cbn. destruct clearStale; [|done].
    apply Hdel. left. apply list_elem_of_here.
Qed.

(** What each answer rests on. *)
Definition create_post (keys : list string) (body : PolicyOverride + requestError)
    (a : answer created) (h : history) : Prop :=
  match a with
  | Served (Accepted _) => granted h
  | Served (Replayed id state) =>
      exists key b stored rc rec, idempotencyKey keys = inl key /\ key <> EmptyString /\ body = inl b /\
        bound_by (ReceiptKey principal ns svc key) h rc rec /\
        rc_SnapshotHash rc = SnapshotHash (V:=V) (SessionEffective defaults limits [stored; Some b]).1 /\
        id = j_ID rec /\ state = j_State rec
  | Refused e =>
      e = errIdempotencyMismatch ->
      exists key b stored rc rec, idempotencyKey keys = inl key /\ key <> EmptyString /\ body = inl b /\
        bound_by (ReceiptKey principal ns svc key) h rc rec /\
        rc_SnapshotHash rc <> SnapshotHash (V:=V) (SessionEffective defaults limits [stored; Some b]).1
  | NoAnswer => granted h
  end.

(** The request of a keyed create and the policy it comes to. *)
Definition keyed (keys : list string) (body : PolicyOverride + requestError) (key receiptKey hash : string) :
    Prop :=
  key = EmptyString \/
  exists b stored, idempotencyKey keys = inl key /\ body = inl b /\
    receiptKey = ReceiptKey principal ns svc key /\
    hash = SnapshotHash (V:=V) (SessionEffective defaults limits [stored; Some b]).1.

Lemma receipt_answer keys body key receiptKey hash bound a (h : history) :
  key <> EmptyString -> keyed keys body key receiptKey hash ->
  lookup_post receiptKey hash (inl bound) h -> answerFromReceipt bound = Some a ->
  create_post keys body a h.
Proof.
  intros Hne [?|(b & stored & Hk & Hb & -> & ->)] Hl Ha; [done|].
  destruct bound as [| |rec]; [done| |]; injection Ha as <-.
  - intros _. destruct Hl as (rc & rec & ? & ?). exists key, b, stored, rc, rec. done.
  - destruct Hl as (rc & ? & ?). exists key, b, stored, rc, rec. done.
Qed.

Lemma refuseLoser_wp keys body key receiptKey hash (h : history) :
  keyed keys body key receiptKey hash ->
  wp create_call (refuseLoser (V:=V) (St:=St) receiptKey hash key) h (create_post keys body).
Proof.
  intros Hk. unfold refuseLoser. destruct (String.eqb_spec key EmptyString) as [|Hne]; [done|].
  apply wp_bind. eapply wp_mono; [apply lookupReceipt_wp|]. intros [bound|e] h' [_ Hl].
  - destruct (answerFromReceipt bound) as [a|] eqn:Ha; [|done]. by eapply receipt_answer.
  - simpl in Hl. by subst.
Qed.

Lemma create_new_wp keys body key receiptKey hash targets clientGone snapshot violations configRevision
    (h : history) :
  keyed keys body key receiptKey hash ->
  match targets with inr e => e <> errIdempotencyMismatch | inl _ => True end ->
  wp create_call (create_new (V:=V) (St:=St) limits gen ns svc principal targets clientGone snapshot
    violations configRevision key receiptKey hash) h (create_post keys body).
Proof.
  intros Hk Ht. unfold create_new. destruct (negb _); [done|].
  unfold TakeToken. split; [done|]. intros now. split; [done|]. intros token.
  set (h1 := Ev _ token :: _). destruct token; [|done].
  assert (exists now, Ev Now now ∈ h1 /\ Ev (take_of now) true ∈ h1) as Htok.
  { exists now. split; [apply list_elem_of_further, list_elem_of_here|apply list_elem_of_here]. }
  cbn [negb]. destruct targets as [targets|e]; [|by intros ->].
  destruct (negb _).
  { unfold versionRefusal. by case_match. }
  split; [done|]. intros cur. split; [done|]. intros [live ok].
  set (h2 := Ev _ (live, ok) :: _). destruct ok; [|done]. destruct live; [done|].
  split; [done|]. intros cur'. split; [done|]. intros rr. set (h3 := Ev _ rr :: _).
  destruct rr as [res| |]; [|done..]. split; [done|]. intros now'. set (h4 := Ev _ now' :: h3).
  assert (h1 ⊆ h2) as S2 by (intros x Hx; by do 2 apply list_elem_of_further).
  assert (h2 ⊆ h4) as S4 by (intros x Hx; by do 3 apply list_elem_of_further).
  assert (granted h4) as Hg.
  { split; [|split].
    - destruct Htok as (n & ? & ?). exists n. split; apply S4, S2; done.
    - exists cur. apply S4, list_elem_of_here.
    - exists cur', res. apply list_elem_of_further, list_elem_of_here. }
  apply wp_bind. eapply wp_mono.
  - apply wp_always. intros h' R o Hs. pose proof (granted_mono _ _ Hs Hg). destruct o; simpl; auto.
  - intros [id [o|e]] h' Hs; pose proof (granted_mono _ _ Hs Hg); destruct clientGone; [done|..|done].
    + destruct o; [done|]. by apply refuseLoser_wp.
    + done.
Qed.

(** A create writes nothing before it has taken a token, seen behind the
    barrier that the Service has no live Collection, and reserved a place under
    the ceiling, except to delete a receipt whose record it read as gone or
    never published; it answers a new identifier only then; it replays one only
    when the receipt of the request's own key names a record that stands and
    whose snapshot hash is the request's own; and it refuses a key as bound to
    another request only when the hash differs. *)
Theorem create_grounds (keys : list string) (body : PolicyOverride + requestError)
    (targets : list Target + requestError) (clientGone : bool) (h : history) (a : answer created) :
  match body with inr e => e <> errIdempotencyMismatch | inl _ => True end ->
  match targets with inr e => e <> errIdempotencyMismatch | inl _ => True end ->
  exec (serveCollectionCreate (V:=V) (St:=St) defaults limits gen ns svc principal keys body targets
    clientGone) [] h a ->
  calls_ok create_call [] h /\ create_post keys body a h.
Proof.
  intros Hb Ht Hex.
  refine (proj1 (and_comm _ _) (wp_exec create_call _ [] (create_post keys body) h a _ Hex)).
  unfold serveCollectionCreate. destruct (idempotencyKey keys) as [key|e] eqn:Hk.
  2: { unfold idempotencyKey in Hk. repeat case_match; simplify_eq; done. }
  destruct body as [b|e]; [|by intros ->]. destruct (_ || _); [done|].
  unfold CachedOverride. split; [done|]. intros cur. split; [done|]. intros [[stored rev] ok].
  destruct ok; [|done].
  match goal with |- wp _ _ ?past _ => set (h1 := past) end.
  change (wp create_call (let '(snapshot, violations) := SessionEffective defaults limits [stored; Some b] in
    if String.eqb key EmptyString
    then create_new limits gen ns svc principal targets clientGone snapshot violations rev key EmptyString EmptyString
    else
      l ← lookupReceipt receiptReads (ReceiptKey principal ns svc key) (SnapshotHash (V:=V) snapshot) true;
      match l with
      | inr e => mret (Refused e)
      | inl bound =>
          match answerFromReceipt bound with
          | Some a => mret a
          | None => create_new limits gen ns svc principal targets clientGone snapshot violations rev key
                      (ReceiptKey principal ns svc key) (SnapshotHash (V:=V) snapshot)
          end
      end) h1 (create_post keys (inl b))).
  destruct (SessionEffective defaults limits [stored; Some b]) as [snapshot violations] eqn:He.
  destruct (String.eqb_spec key EmptyString) as [->|Hne].
  { apply create_new_wp; [by left|done]. }
  assert (keyed keys (inl b) key (ReceiptKey principal ns svc key) (SnapshotHash (V:=V) snapshot)) as Hkd.
  { right. exists b, stored. split; [done|]. split; [done|]. split; [done|]. by rewrite He. }
  apply wp_bind. eapply wp_mono; [apply lookupReceipt_wp|]. intros [bound|e] h' [_ Hl].
  - destruct (answerFromReceipt bound) as [x|] eqn:Hx; [by eapply receipt_answer|].
    by apply create_new_wp.
  - simpl in Hl. by subst.
Qed.
End create.

Definition api_memory : Type := Caches * PubState * TokenBucket.
Definition demo_api : api_memory :=
  (set_barrier (fun _ => 1%N) (fun _ => true) (startAttempt NewCaches), NewPublisher,
   NewTokenBucket 10 0).
Definition demo_body : PolicyOverride :=
  {| o_Enabled := None; o_Schedule := None; o_Sampling := None; o_Target := None; o_Artifact := None |}.
Definition demo_found : list Target + requestError := inl [demo_target "cart-0" "u0" "v1"].

Lemma create_grounds_witness :
  exists h id, exec (V:=tagged) (St:=api_memory)
      (serveCollectionCreate default_policy small_limits 1 "shop" "cart" "alice" ["k1"] (inl demo_body)
         demo_found false) [] h (Served (Accepted id)) /\
    calls_ok (create_call small_limits 1 "shop" "cart") [] h.
Proof.
  destruct (run_test_run (V:=tagged) (St:=api_memory) ack
    (serveCollectionCreate default_policy small_limits 1 "shop" "cart" "alice" ["k1"] (inl demo_body)
       demo_found false) demo_api
    (fun a => match a with Served (Accepted _) => true | _ => false end))
    as (a & h & st' & Hrun & Ht); [vm_compute; reflexivity|].
  destruct a as [[id|]| |]; [|done..]. apply run_exec in Hrun. exists h, id. split; [exact Hrun|].
  exact (proj1 (create_grounds default_policy small_limits 1 "shop" "cart" "alice" ["k1"] (inl demo_body)
    demo_found false h (Served (Accepted id)) I I Hrun)).
Defined.

(** ** Conditional policy writes *)

Section policy.
  Context {V St : Type} `{HW : Wire V} `{HL : !WireLaws V}.
  Variables (defaults : Policy) (limits : PGOLimits) (ns svc principal : string).
  Abbreviation history := (list (event V St)).

(** A read showed no override, or one at this revision. *)
Definition absent (h : history) : Prop := Ev (KvGet BConfig (overrideKey ns svc)) (Err ErrKeyNotFound) ∈ h.
Definition at_revision (h : history) (rev : N) : Prop :=
  exists e, Ev (KvGet BConfig (overrideKey ns svc)) (Ok e) ∈ h /\ e_revision e = rev.

(** The grounds of a policy write: a policy with no violation, under the
    client's own condition. *)
Definition policy_call (ifMatch : string) (body : PolicyOverride + requestError) (h : history)
    (R : Type) (o : op V St R) : Prop :=
  let valid v := exists override at_, body = inl override /\
    (SessionEffective defaults limits [Some override]).2 = [] /\ Ev Now at_ ∈ h /\
    dec_override v = Some {| so_Policy := Some override; so_UpdatedBy := principal; so_UpdatedAt := at_ |} in
  match o with
  | KvCreate b key v => b = BConfig /\ key = overrideKey ns svc /\ valid v /\ ifMatch = EmptyString /\ absent h
  | KvUpdate b key v expected =>
      b = BConfig /\ key = overrideKey ns svc /\ valid v /\
      parseIfMatch ifMatch = inl (expected, true) /\ at_revision h expected
  | KvDelete _ _ _ | ObjPut _ _ | ObjDelete _ => False
  | _ => True
  end.

(** A success is a write that was taken, at the revision answered. *)
Definition policy_post (a : answer policyWritten) (h : history) : Prop :=
  match a with
  | Served w => exists v, if pw_Created w
      then Ev (KvCreate BConfig (overrideKey ns svc) v) (Ok (pw_Revision w)) ∈ h
      else exists expected, Ev (KvUpdate BConfig (overrideKey ns svc) v expected) (Ok (pw_Revision w)) ∈ h
  | _ => True
  end.

Lemma parse_absent (ifMatch : string) n : parseIfMatch ifMatch = inl (n, false) -> ifMatch = EmptyString.
Proof. unfold parseIfMatch. repeat case_match; intros; simplify_eq; by apply String.eqb_eq. Qed.

(** A policy write is the client's own conditional write: it creates only
    when no condition was sent and a read showed no override, it replaces only
    the revision the condition names and a read showed, the policy stored is
    the client's with no limit violated, and it answers success only when that
    write was taken; an override a client has not seen is never replaced. *)
Theorem policy_write_conditional (disabled : bool) (ifMatch : string)
    (body : PolicyOverride + requestError) (h : history) (a : answer policyWritten) :
  exec (servePolicyWrite (V:=V) (St:=St) defaults limits ns svc principal disabled ifMatch body) [] h a ->
  calls_ok (policy_call ifMatch body) [] h /\ policy_post a h.
Proof.
  intros Hex.
  refine (proj1 (and_comm _ _) (wp_exec (policy_call ifMatch body) _ []
    policy_post h a _ Hex)).
  unfold servePolicyWrite. destruct disabled; [done|].
  destruct (parseIfMatch ifMatch) as [[expected present]|e] eqn:Hif; [|done].
  destruct body as [override|e] eqn:Hbody; [|done].
  destruct (SessionEffective defaults limits [Some override]) as [effective violations] eqn:Heff.
  case_bool_decide as Hv; [|done]. cbn [negb]. split; [done|]. intros now.
  unfold ReadOverride. split; [done|]. intros g. set (h1 := Ev _ g :: _).
  set (stored := {| so_Policy := Some override; so_UpdatedBy := principal; so_UpdatedAt := now |}).
  assert (forall v, enc_override stored = Some v -> exists o at_, inl override = inl (B:=requestError) o /\
    (SessionEffective defaults limits [Some o]).2 = [] /\ Ev Now at_ ∈ h1 /\
    dec_override v = Some {| so_Policy := Some o; so_UpdatedBy := principal; so_UpdatedAt := at_ |}) as Hval.
  { intros v Hm. exists override, now. split; [done|]. split; [by rewrite Heff|].
    split; [apply list_elem_of_further, list_elem_of_here|]. by apply dec_enc_override. }
  destruct g as [e|err].
  - cbn [mbind prog_mbind prog_bind mret prog_mret e_value].
    destruct (dec_override (e_value e)) as [o|]; [|done].
    destruct present; [|done]. cbn [negb]. destruct (N.eqb_spec expected (e_revision e)) as [->|]; [|done].
    cbn [negb]. unfold UpdateOverride. fold stored.
    destruct (MarshalBounded (enc_override stored)) as [v| |] eqn:Hm; [|done..].
    apply MarshalBounded_Some in Hm as [Hm _]. split.
    + split; [done|]. split; [done|]. split; [by apply Hval|]. split; [done|].
      exists e. split; [apply list_elem_of_here|done].
    + intros [rev|err]; [|by destruct err]. exists v, (e_revision e). apply list_elem_of_here.
  - destruct err; try done. destruct present; [done|]. unfold CreateOverride. fold stored.
    destruct (MarshalBounded (enc_override stored)) as [v| |] eqn:Hm; [|done..].
    apply MarshalBounded_Some in Hm as [Hm _]. split.
    + split; [done|]. split; [done|]. split; [by apply Hval|]. split; [by eapply parse_absent|].
      apply list_elem_of_here.
    + intros [rev|err]; [|by destruct err]. exists v. apply list_elem_of_here.
Qed.
End policy.

Lemma policy_write_conditional_witness :
  exists h w, exec (V:=tagged) (St:=Caches)
      (servePolicyWrite default_policy small_limits "shop" "cart" "alice" false "" (inl demo_body)) []
      h (Served w) /\ policy_post (V:=tagged) (St:=Caches) "shop" "cart" (Served w) h.
Proof.
  destruct (run_test_run (V:=tagged) (St:=Caches) ack
    (servePolicyWrite default_policy small_limits "shop" "cart" "alice" false "" (inl demo_body)) NewCaches
    (fun a => match a with Served _ => true | _ => false end))
    as (a & h & st' & Hrun & Ht); [vm_compute; reflexivity|].
  destruct a as [w| |]; [|done..]. apply run_exec in Hrun. exists h, w. split; [exact Hrun|].
  exact (proj2 (policy_write_conditional default_policy small_limits "shop" "cart" "alice" false ""
    (inl demo_body) h (Served w) Hrun)).
Defined.

(** ** The handlers are lawful *)

Section api_lawful.
  Context {V St : Type} `{HW : Wire V} `{HL : !WireLaws V} `{HC : Has St Caches}
    `{HP : Has St PubState} `{HAP : !Apart St PubState Caches}
    `{HB : Has St TokenBucket} `{HAB : !Apart St TokenBucket Caches}.
  Abbreviation log := (Lifecycle.log (V:=V)).
  Abbreviation prog := (Effects.prog V St).

Lemma cancel_transition (rec : Job) (now : time) :
  is_live (j_State rec) -> transition rec (set_ended StateCancelled ReasonCancelledByAPI now rec).
Proof.
  intros Hl. split; simpl; try done; auto.
  destruct Hl as [->| ->]; constructor.
Qed.

Lemma cancelLoop_lawful (K : log) (id : string) (left : nat) (s : StoredRecord V) :
  log_ok K -> taken K id (st_Revision s) (st_Record s) -> j_ID (st_Record s) = id ->
  orderly K (cancelLoop (St:=St) left id s).
Proof.
  revert K s. induction left as [left IH] using lt_wf_ind. intros K s Hok Ht Hid.
  assert (is_live (j_State (st_Record s)) -> orderly K (now ← call Now;
      let rec' := set_ended StateCancelled ReasonCancelledByAPI now (st_Record s) in
      w ← WriteRecord rec' (st_Revision s);
      match w with
      | Ok _ => _ ← RecordTransition rec'; _ ← releaseActive rec'; mret (Served rec')
      | Err ErrRevisionMismatch =>
          match left with
          | O => mret (Refused errCASContended)
          | S left' =>
              r ← readCollection id;
              match r with inr e => mret (Refused e) | inl next => cancelLoop left' id next end
          end
      | Err e => mret (Refused (storeError e))
      end : prog (answer Job))) as Hlive.
  { intros Hl. apply lawful_harmless; [done|]. intros K1 now H1 Hok1 _. cbv zeta.
    eapply WriteRecord_lawful; [|by apply cancel_transition| |done].
    { apply (taken_mono K); [done|]. simpl. by rewrite Hid. }
    intros K2 w H2 Hok2. destruct w as [u|err].
    - unfold RecordTransition. apply lawful_bind. apply logTransition_lawful. intros K3 H3 _.
      split; [done|]. intros K4 [] H4 _ _. apply lawful_bind, releaseActive_lawful. intros K5 _. done.
    - destruct err; try done. destruct left as [|left']; [done|]. apply lawful_bind.
      unfold readCollection. apply ReadRecord_lawful. intros K3 r H3 Hok3 Hr.
      destruct r as [next|err]; [|by destruct err].
      destruct (Hr next eq_refl) as [Ht' Hid']. apply IH; [lia|done..]. }
  destruct left; cbn [cancelLoop]; destruct (j_State (st_Record s)) eqn:Hst; try done;
    first [by apply (Hlive (or_introl eq_refl))|by apply (Hlive (or_intror eq_refl))].
Qed.

Lemma ExpireGoneArtifact_lawful (K : log) (id : string) (s : StoredRecord V) {B} (f : bool -> prog B) :
  log_ok K -> taken K id (st_Revision s) (st_Record s) -> j_ID (st_Record s) = id ->
  j_State (st_Record s) = StateCompleted ->
  (forall K' b, log_le K K' -> log_ok K' -> orderly K' (f b)) ->
  orderly K (ExpireGoneArtifact s ≫= f).
Proof.
  intros Hok Ht Hid Hs Hf. unfold ExpireGoneArtifact. apply lawful_bind.
  eapply WriteRecord_lawful; [|by apply expire_transition| |done].
  { simpl. by rewrite Hid. }
  intros K1 r H1 Hok1. destruct r as [u|e].
  - unfold RecordTransition. apply lawful_bind, logTransition_lawful. intros K2 H2 Hok2.
    apply lawful_harmless; [done|]. intros K3 [] H3 Hok3 _. apply Hf; [|done]. by trans K2; [trans K1|].
  - case_bool_decide; [by apply Hf|]. apply lawful_harmless; [done|]. intros K2 [] H2 Hok2 _.
    apply Hf; [by trans K1|done].
Qed.

Lemma latest_from_lawful (K : log) (l : list CollectionView) :
  log_ok K -> orderly K (latest_from (V:=V) (St:=St) l).
Proof.
  revert K. induction l as [|v l IH]; intros K Hok; [done|]. cbn [latest_from].
  case_bool_decide; [|by apply IH]. cbn [negb]. apply ReadRecord_lawful. intros K1 r H1 Hok1 Hr.
  destruct r as [s|e]; [|destruct e; first [by apply IH|done]].
  destruct (Hr s eq_refl) as [Ht Hid]. case_bool_decide as Hs; [|by apply IH]. cbn [negb].
  case_match.
  { eapply ExpireGoneArtifact_lawful; eauto. }
  apply lawful_harmless; [done|]. intros K2 body H2 Hok2 _. destruct body as [|e]; [done|].
  destruct e; try done. eapply ExpireGoneArtifact_lawful; [done|by eapply (taken_mono K1 K2)|done..|].
  intros K3 _ H3 Hok3. by apply IH.
Qed.

Lemma LatestCompleted_lawful (K : log) (gen : N) (ns svc : string) :
  orderly K (LatestCompleted (V:=V) (St:=St) gen ns svc).
Proof.
  unfold LatestCompleted. apply lawful_harmless; [done|]. intros K1 cur H1 _ _.
  apply lawful_reading. intros K2 st H2 Hok2 _. destruct (Collections _ _ _ _ _ _) as [[l more] ok].
  destruct ok; [|done]. by apply latest_from_lawful.
Qed.

(** A critical section that leaves the records and slots of the caches alone. *)
Lemma pulses_lawful (K : log) (g : Caches -> Caches) {B} `{HLW : !HasLaws St Caches} (f : unit -> prog B) :
  (forall c, jobs (g c) = jobs c /\ slots (g c) = slots c) ->
  (forall K', log_le K K' -> log_ok K' -> orderly K' (f tt)) ->
  orderly K (locked (fun c => (tt, g c)) ≫= f).
Proof.
  intros Hg Hf. apply lawful_call; [|intros K' [] HK Hok _; by apply Hf].
  intros K' st [Hj Hs]. simpl. rewrite the_put. unfold cache_ok. destruct (Hg (the st)) as [-> ->]. done.
Qed.

Lemma readCollection_lawful (K : log) (id : string) {B} (f : StoredRecord V + requestError -> prog B) :
  (forall K' s, log_le K K' -> log_ok K' -> taken K' id (st_Revision s) (st_Record s) ->
    j_ID (st_Record s) = id -> orderly K' (f (inl s))) ->
  (forall K' e, log_le K K' -> log_ok K' -> orderly K' (f (inr e))) ->
  orderly K (readCollection id ≫= f).
Proof.
  intros Hs He. unfold readCollection. apply lawful_bind, ReadRecord_lawful.
  intros K1 r H1 Hok1 Hr. destruct r as [s|e]; [by destruct (Hr s eq_refl); apply Hs|].
  destruct e; by apply He.
Qed.

Lemma waitLoop_lawful `{HLW : !HasLaws St Caches} (K : log) id ch baseline deadline events :
  orderly K (waitLoop (V:=V) (St:=St) id ch baseline deadline events).
Proof.
  revert K deadline. induction events as [|e events IH]; intros K deadline; cbn [waitLoop];
    (apply readCollection_lawful; [|done]; intros K1 s H1 Hok1 _ _); (destruct (_ || _); [done|]); [done|].
  destruct e; try done. refine (pulses_lawful K1 (receivePulse id ch) _ _ _); [|intros K2 _ _; apply IH].
  intros c. unfold receivePulse. by destruct (subscribers c !! id).
Qed.

Lemma serveCollectionDownload_lawful (K : log) (id : string) (s : StoredRecord V) :
  log_ok K -> taken K id (st_Revision s) (st_Record s) -> j_ID (st_Record s) = id ->
  orderly K (serveCollectionDownload (St:=St) s).
Proof.
  intros Hok Ht Hid. unfold serveCollectionDownload. destruct (j_State (st_Record s)) eqn:Hs; try done.
  case_match; [by eapply ExpireGoneArtifact_lawful|].
  apply lawful_harmless; [done|]. intros K1 body H1 Hok1 _. destruct body as [|e]; [done|].
  destruct e; try done.
  eapply ExpireGoneArtifact_lawful; [done|by eapply (taken_mono K K1)|done..].
Qed.

Lemma servePGOCollection_lawful `{HLW : !HasLaws St Caches} (K : log) route id allows :
  orderly K (servePGOCollection (V:=V) (St:=St) route id allows).
Proof.
  unfold servePGOCollection. apply readCollection_lawful; [|done]. intros K1 s H1 Hok1 Ht Hid.
  case_match; [done|]. destruct route as [wait ch events| |].
  - apply orderly_bind; [|done]. unfold serveCollectionRead. case_match; [done|].
    unfold waitForCollection.
    refine (pulses_lawful K1 (Subscribe (j_ID (st_Record s)) ch) _ (fun c => conj eq_refl eq_refl) _).
    intros K2 H2 Hok2.
    apply lawful_harmless; [done|]. intros K3 now H3 _ _. apply orderly_bind; [apply waitLoop_lawful|].
    intros K4 a H4. destruct a; [|done].
    refine (pulses_lawful K4 (Unsubscribe (j_ID (st_Record s)) ch) _ _ _); [|done].
    intros c. unfold Unsubscribe. by destruct (subscribers c !! _).
  - apply orderly_bind; [by apply (serveCollectionDownload_lawful K1 id)|done].
  - apply orderly_bind; [by apply cancelLoop_lawful|done].
Qed.

Lemma DeleteReceipt_lawful (K : log) (principal ns svc key : string) (rev : N) {B}
    (f : result unit -> prog B) :
  (forall K' r, log_le K K' -> orderly K' (f r)) ->
  orderly K (DeleteReceipt (ReceiptKey principal ns svc key) rev ≫= f).
Proof. intros Hf. apply lawful_call; [by apply delete_other|]. intros K1 r H1 _ _. by apply Hf. Qed.

Lemma lookupReceipt_lawful (K : log) reads principal ns svc key hash clearStale :
  orderly K (lookupReceipt (V:=V) (St:=St) reads (ReceiptKey principal ns svc key) hash clearStale).
Proof.
  revert K. induction reads as [|reads IH]; intros K; [done|]. cbn [lookupReceipt].
  unfold ReadReceipt. apply lawful_bind, readReceipt_lawful. intros K1 r H1 _.
  destruct r as [[[rc rev]|]|e]; [|done|by destruct e].
  apply ReadRecord_lawful. intros K2 s H2 Hok2 _.
  assert (forall K3, orderly K3 (d ← DeleteReceipt (ReceiptKey principal ns svc key) rev;
    match d with
    | Ok _ => mret (inl LookupNothing)
    | Err _ => lookupReceipt reads (ReceiptKey principal ns svc key) hash clearStale
    end : prog (receiptLookup + requestError))) as Hdel.
  { intros K3. apply DeleteReceipt_lawful. intros K4 [[]|] H4; [done|apply IH]. }
  destruct s as [s|e].
  - cbv zeta. destruct (_ || _); [by case_match|]. destruct clearStale; [|done]. apply Hdel.
  - destruct (negb _); [done|]. destruct clearStale; [|done]. apply Hdel.
Qed.

Lemma refuseLoser_lawful (K : log) principal ns svc key hash :
  orderly K (refuseLoser (V:=V) (St:=St) (ReceiptKey principal ns svc key) hash key).
Proof.
  unfold refuseLoser. case_match; [done|]. apply orderly_bind; [apply lookupReceipt_lawful|].
  intros K1 [bound|e] _; [|done]. by destruct (answerFromReceipt bound).
Qed.

Lemma serveCollectionCreate_lawful (K : log) defaults limits gen ns svc principal keys body targets gone :
  orderly K (serveCollectionCreate (V:=V) (St:=St) defaults limits gen ns svc principal keys body targets
    gone).
Proof.
  assert (forall K0 snapshot violations rev key rk hash,
    key = EmptyString \/ rk = ReceiptKey principal ns svc key ->
    orderly K0 (create_new (V:=V) (St:=St) limits gen ns svc principal targets gone snapshot violations
      rev key rk hash)) as Hnew.
  { intros K0 snapshot violations rev key rk hash Hkey. unfold create_new. case_match; [done|].
    unfold TakeToken. apply lawful_bind. apply lawful_harmless; [done|]. intros K1 now H1 _ _.
    apply (lawful_mono K1 K1 _ (fun K' (b : bool) => True)); [done|by apply (locked_orderly K1 (A:=TokenBucket))|].
    intros K2 K2' token H2 _. destruct token; [|done]. cbn [negb]. destruct targets as [ts|]; [|done].
    case_match; [done|]. unfold SessionLive. apply lawful_bind. apply lawful_harmless; [done|].
    intros K3 cur H3 _ _. apply lawful_reading. intros K4 st H4 _ _.
    destruct (Live _ _ _ _ _) as [live ok]. destruct ok; [|done]. destruct live; [done|].
    apply Reserve_lawful. intros K5 rr H5 _. destruct rr as [res| |]; [|done..].
    apply lawful_harmless; [done|]. intros K6 now' H6 _ _. apply orderly_bind; [apply Publish_lawful|].
    intros K7 [id [o|e]] H7; destruct gone; try done. destruct o; [done|].
    destruct Hkey as [->| ->]; [done|apply refuseLoser_lawful]. }
  unfold serveCollectionCreate. destruct (idempotencyKey keys) as [key|]; [|done].
  destruct body as [b|]; [|done]. destruct (_ || _); [done|]. unfold CachedOverride. apply lawful_bind.
  apply lawful_harmless; [done|]. intros K1 cur H1 _ _. apply lawful_reading. intros K2 st H2 _ _.
  destruct (Override _ _ _ _ _) as [[stored rev] ok]. destruct ok; [|done].
  change (orderly K2 (let '(snapshot, violations) := SessionEffective defaults limits [stored; Some b] in
    if String.eqb key EmptyString
    then create_new limits gen ns svc principal targets gone snapshot violations rev key EmptyString EmptyString
    else
      l ← lookupReceipt receiptReads (ReceiptKey principal ns svc key) (SnapshotHash (V:=V) snapshot) true;
      match l with
      | inr e => mret (Refused e)
      | inl bound =>
          match answerFromReceipt bound with
          | Some a => mret a
          | None => create_new limits gen ns svc principal targets gone snapshot violations rev key
                      (ReceiptKey principal ns svc key) (SnapshotHash (V:=V) snapshot)
          end
      end : prog (answer created))).
  destruct (SessionEffective _ _ _) as [snapshot violations].
  destruct (String.eqb_spec key EmptyString) as [->|]; [by apply Hnew; left|].
  apply orderly_bind; [apply lookupReceipt_lawful|]. intros K3 [bound|e] _; [|done].
  destruct (answerFromReceipt bound); [done|]. apply Hnew. by right.
Qed.
End api_lawful.
