(* ===== verification/Interaction.v ===== *)
(** * Programs over an interface of calls

    A program is a tree of calls, each with what is done with its answer; an
    execution is the list of calls it made and the answers it got, newest first.
    Every answer is possible.  The request algorithm of the API server is
    written over its own interface of calls. *)

From S2P Require Import Prelude.

Section interaction.
  Context {E : Type -> Type}.

Inductive itx (A : Type) : Type :=
  | Done (a : A)
  | Ask {R : Type} (c : E R) (k : R -> itx A).
Arguments Done {A} a.
Arguments Ask {A R} c k.

Fixpoint itx_bind {A B} (f : A -> itx B) (p : itx A) : itx B :=
  match p with
  | Done a => f a
  | Ask c k => Ask c (fun r => itx_bind f (k r))
  end.

Definition ask {R} (c : E R) : itx R := Ask c Done.

(** A call with its answer. *)
Inductive answered := | At {R : Type} (c : E R) (r : R).

Fixpoint runs {A} (p : itx A) (h h' : list answered) (a : A) : Prop :=
  match p with
  | Done b => b = a /\ h = h'
  | Ask c k => exists r, runs (k r) (At c r :: h) h' a
  end.

(** Every call satisfies [ok] given the calls before it, and the result [Q]. *)
Fixpoint pre {A} (ok : list answered -> forall R, E R -> Prop) (p : itx A) (h : list answered)
    (Q : A -> list answered -> Prop) : Prop :=
  match p with
  | Done a => Q a h
  | Ask c k => ok h _ c /\ forall r, pre ok (k r) (At c r :: h) Q
  end.

(** The calls that take [h] to [h'] satisfied [ok] when they were made. *)
Inductive grew (ok : list answered -> forall R, E R -> Prop) (h : list answered) : list answered -> Prop :=
  | grew_nil : grew ok h h
  | grew_cons h' {R} (c : E R) (r : R) : grew ok h h' -> ok h' R c -> grew ok h (At c r :: h').

Definition any_call (h : list answered) (R : Type) (c : E R) : Prop := True.

Lemma pre_runs {A} ok (p : itx A) h Q h' a : pre ok p h Q -> runs p h h' a -> Q a h' /\ grew ok h h'.
Proof.
  intros Hp Hr. assert (forall g, grew ok h g -> pre ok p g Q -> runs p g h' a -> Q a h' /\ grew ok h h') as H.
  { clear. induction p as [b|R c k IH]; intros g Hg; simpl.
    - intros HQ [-> ->]. by split.
    - intros [Hok Hk] [r Hr]. apply (IH r (At c r :: g)); [by constructor|done|done]. }
  apply (H h); [constructor|done|done].
Qed.

Lemma pre_bind {A B} ok (p : itx A) (f : A -> itx B) h Q :
  pre ok (itx_bind f p) h Q <-> pre ok p h (fun a h' => pre ok (f a) h' Q).
Proof.
  revert h. induction p as [a|R c k IH]; [done|]. intros h. simpl.
  split; (intros [? H]; split; [done|]; intros r; by apply IH).
Qed.

Lemma pre_mono {A} ok (p : itx A) h (Q Q' : A -> list answered -> Prop) :
  pre ok p h Q -> (forall a h', Q a h' -> Q' a h') -> pre ok p h Q'.
Proof.
  revert h. induction p as [a|R c k IH]; simpl; [by auto|]. intros h [Hok Hk] HQ. split; [done|]. intros r. eauto.
Qed.


Lemma runs_bind {A B} (p : itx A) (f : A -> itx B) h h' b :
  runs (itx_bind f p) h h' b <-> exists a h1, runs p h h1 a /\ runs (f a) h1 h' b.
Proof.
  revert h. induction p as [a|R c k IH]; intros h; simpl; [naive_solver|]. setoid_rewrite IH. naive_solver.
Qed.

(** An execution adds to what was before. *)
Lemma runs_grows {A} (p : itx A) h h' a : runs p h h' a -> exists g, h' = g ++ h.
Proof.
  revert h. induction p as [b|R c k IH]; intros h; simpl; [intros [_ <-]; by exists []|].
  intros [r Hr]. destruct (IH r _ Hr) as [g ->]. exists (g ++ [At c r]). by rewrite <-app_assoc.
Qed.

(** Something answers: a program is a finite tree, so it always ends. *)
Lemma runs_total {A} (p : itx A) (answers : forall R, E R -> R) h : exists h' a, runs p h h' a.
Proof.
  revert h. induction p as [a|R c k IH]; intros h; [by exists h, a|].
  destruct (IH (answers R c) (At c (answers R c) :: h)) as (h' & a & Hr). by exists h', a, (answers R c).
Qed.
End interaction.
Arguments itx : clear implicits.
Arguments answered : clear implicits.
Arguments Done {E A} a.
Arguments Ask {E A R} c k.
Arguments At {E R} c r.

#[export] Instance itx_mret {E} : MRet (itx E) := @Done E.
#[export] Instance itx_mbind {E} : MBind (itx E) := @itx_bind E.

(** The rule for a call and what follows it. *)
Lemma pre_ask {E : Type -> Type} {R B} ok (c : E R) (k : R -> itx E B) h Q :
  ok h R c -> (forall r, pre ok (k r) (At c r :: h) Q) -> pre ok (ask c ≫= k) h Q.
Proof. by split. Qed.

Lemma runs_ask {E : Type -> Type} {R B} (c : E R) (k : R -> itx E B) h h' b :
  runs (ask c ≫= k) h h' b -> exists r, runs (k r) (At c r :: h) h' b.
Proof. done. Qed.

(** ** A program inside another's calls

    The calls of one interface made through another. *)
Section lift.
  Context {E F : Type -> Type} (f : forall R, E R -> F R).

Fixpoint lift {A} (p : itx E A) : itx F A :=
  match p with
  | Done a => Done a
  | Ask c k => Ask (f _ c) (fun r => lift (k r))
  end.

Definition lift_answered (x : answered E) : answered F := match x with At c r => At (f _ c) r end.

Lemma runs_lift {A} (p : itx E A) h h' g0 a :
  runs (lift p) h h' a -> exists g, runs p g0 (g ++ g0) a /\ h' = map lift_answered g ++ h.
Proof.
  revert h g0. induction p as [b|R c k IH]; intros h g0; cbn [lift runs].
  - intros [-> ->]. by exists [].
  - intros [r Hr]. destruct (IH r _ (At c r :: g0) Hr) as (g & H1 & ->). exists (g ++ [At c r]).
    rewrite <-app_assoc. split; [by exists r|]. by rewrite map_app, <-app_assoc.
Qed.

Lemma lift_runs {A} (p : itx E A) h g0 g a :
  runs p g0 (g ++ g0) a -> runs (lift p) h (map lift_answered g ++ h) a.
Proof.
  revert h g0 g. induction p as [b|R c k IH]; intros h g0 g; cbn [lift runs].
  - intros [-> Hg]. apply (f_equal length) in Hg. rewrite length_app in Hg. destruct g; [done|simpl in Hg; lia].
  - intros [r Hr]. exists r. destruct (runs_grows _ _ _ _ Hr) as [g1 Hg1].
    assert (g = g1 ++ [At c r]) as ->.
    { apply (app_inv_tail g0). by rewrite Hg1, <-app_assoc. }
    rewrite map_app, <-app_assoc. apply (IH r _ (At c r :: g0) g1). by rewrite <-app_assoc in Hr.
Qed.
End lift.

(** The execution an environment gives: each answer a function of the call and
    of what came before. *)
Section run.
  Context {E : Type -> Type} (answers : forall R, E R -> list (answered E) -> R).

Fixpoint run {A} (p : itx E A) (h : list (answered E)) : A * list (answered E) :=
  match p with
  | Done a => (a, h)
  | Ask c k => let r := answers _ c h in run (k r) (At c r :: h)
  end.

Lemma run_runs {A} (p : itx E A) (h : list (answered E)) : runs p h (run p h).2 (run p h).1.
Proof. revert h. induction p as [a|R c k IH]; intros h; simpl; [done|]. by exists (answers R c h). Qed.
End run.

(** A member of a list written out: a call of a history, a status of a table. *)
Ltac logged := first [apply list_elem_of_here | apply list_elem_of_further; logged].
