(* ===== verification/Url.v ===== *)
(** * URLs

    net/url and path as the program uses them: percent-encoding under each mode,
    [url.Parse] with the fields the code reads of its result, [EscapedPath],
    [QueryEscape], [Values.Encode] and [path.Clean].  What a host may be is the
    argument [parseHost]: the answer of net/url's own host grammar to the scheme
    and the authority past its userinfo, the host it gives, or [None]. *)

From S2P Require Import Prelude Base64 Query.

(** ** Percent-encoding *)

Inductive encoding := encodePath | encodeUserPassword | encodeQueryComponent | encodeFragment.

Definition is_alnum (c : ascii) : bool :=
  let b := byte_of c in
  ((97 <=? b) && (b <=? 122)) || ((65 <=? b) && (b <=? 90)) || is_digit c.

Definition one_of (c : ascii) (set : string) : bool := has_byte c set.

(** [shouldEscape]. *)
Definition shouldEscape (c : ascii) (mode : encoding) : bool :=
  if is_alnum c then false
  else if one_of c "-_.~" then false
  else if one_of c "$&+,/:;=?@" then
    match mode with
    | encodePath => Ascii.eqb c "?"
    | encodeUserPassword => one_of c "@/?:"
    | encodeQueryComponent => true
    | encodeFragment => false
    end
  else match mode with encodeFragment => negb (one_of c "!()*") | _ => true end.

Definition hex_upper (n : Z) : ascii := if n <? 10 then of_byte (48 + n) else of_byte (55 + n).
Definition percent (c : ascii) : string :=
  String "%" (String (hex_upper (byte_of c / 16)) (String (hex_upper (byte_of c mod 16)) EmptyString)).

(** [escape]. *)
Definition escape_char (mode : encoding) (c : ascii) : string :=
  if shouldEscape c mode then
    match mode with
    | encodeQueryComponent => if Ascii.eqb c " " then "+" else percent c
    | _ => percent c
    end
  else String c EmptyString.
Fixpoint escape (mode : encoding) (s : string) : string :=
  match s with
  | EmptyString => EmptyString
  | String c s' => escape_char mode c +:+ escape mode s'
  end.

(** [unescape] in the modes where a plus is a plus. *)
Fixpoint unescape (s : string) : option string :=
  match s with
  | EmptyString => Some EmptyString
  | String c s' =>
      if Ascii.eqb c "%" then
        match s' with
        | String h (String l rest) =>
            match hex_value h, hex_value l with
            | Some a, Some b => String (ascii_of_nat (16 * a + b)) <$> unescape rest
            | _, _ => None
            end
        | _ => None
        end
      else String c <$> unescape s'
  end.

(** [url.QueryEscape]. *)
Definition QueryEscape : string -> string := escape encodeQueryComponent.

(** [url.Values.Encode]. *)
Definition Encode (values : Values) : string :=
  join_with "&" (mjoin (map (fun k => map (fun v => QueryEscape k +:+ String "=" (QueryEscape v))
    (default [] (values !! k))) (sorted_names values))).

(** ** Parsing *)

(** [url.URL]: the fields the program reads.  [u_User] is that there is
    userinfo. *)
Record URL := {
  u_Scheme : string;
  u_Opaque : string;
  u_User : bool;
  u_Host : string;
  u_Path : string;
  u_RawPath : string;
  u_ForceQuery : bool;
  u_RawQuery : string;
  u_Fragment : string;
  u_RawFragment : string
}.

Definition is_ctl (c : ascii) : bool := (byte_of c <? 32) || (byte_of c =? 127).
Fixpoint any_byte (f : ascii -> bool) (s : string) : bool :=
  match s with EmptyString => false | String c s' => f c || any_byte f s' end.

Definition to_lower (c : ascii) : ascii :=
  if (65 <=? byte_of c) && (byte_of c <=? 90) then of_byte (byte_of c + 32) else c.
Fixpoint lower (s : string) : string :=
  match s with EmptyString => EmptyString | String c s' => String (to_lower c) (lower s') end.

(** [getScheme]: the scheme and the rest; no scheme is the empty one.  [first] is
    that no byte has been read. *)
Definition is_alpha (c : ascii) : bool := is_alnum c && negb (is_digit c).
Fixpoint scheme_go (first : bool) (s : string) : option (option (string * string)) :=
  match s with
  | EmptyString => Some None
  | String c s' =>
      let more :=
        match scheme_go false s' with
        | Some (Some (scheme, rest)) => Some (Some (String c scheme, rest))
        | o => o
        end in
      if is_alpha c then more
      else if is_digit c || one_of c "+-." then if first then Some None else more
      else if Ascii.eqb c ":" then if first then None else Some (Some (EmptyString, s'))
      else Some None
  end.
Definition getScheme (s : string) : option (string * string) :=
  match scheme_go true s with
  | None => None
  | Some None => Some (EmptyString, s)
  | Some (Some p) => Some p
  end.

(** The last occurrence of a byte. *)
Fixpoint cut_last (c : ascii) (s : string) : option (string * string) :=
  match s with
  | EmptyString => None
  | String d s' =>
      match cut_last c s' with
      | Some (a, b) => Some (String d a, b)
      | None => if Ascii.eqb d c then Some (EmptyString, s') else None
      end
  end.

Definition validUserinfo (s : string) : bool := all_bytes (fun c => is_alnum c || one_of c "-._:~!$&'()*+,;=%@") s.

(** Whether userinfo decodes: a name, or a name and a password. *)
Definition userinfo_ok (s : string) : bool :=
  let '(name, password) := cut_pair ":" s in
  match unescape name, unescape password with Some _, Some _ => true | _, _ => false end.

(** The encoded path to keep: none where [escape] gives it back. *)
Definition raw_of (mode : encoding) (encoded decoded : string) : string :=
  if String.eqb encoded (escape mode decoded) then EmptyString else encoded.

(** [rest] past the query: its path and query, and [ForceQuery]. *)
Definition cut_query (s : string) : string * string * bool :=
  match cut "?" s with
  | None => (s, EmptyString, false)
  | Some (p, q) => (p, q, String.eqb q EmptyString)
  end.

Section parse.
  Variable parseHost : string -> string -> option string.

(** [parseAuthority]: that there is userinfo, and the host. *)
Definition parseAuthority (scheme authority : string) : option (bool * string) :=
  match cut_last "@" authority with
  | None => h ← parseHost scheme authority; Some (false, h)
  | Some (userinfo, host) =>
      h ← parseHost scheme host;
      if validUserinfo userinfo && userinfo_ok userinfo then Some (true, h) else None
  end.

(** [setPath], the last step of [parse]. *)
Definition with_path (scheme : string) (user : bool) (host rest query : string) (force : bool) : option URL :=
  path ← unescape rest;
  Some {| u_Scheme := scheme; u_Opaque := EmptyString; u_User := user; u_Host := host; u_Path := path;
          u_RawPath := raw_of encodePath rest path; u_ForceQuery := force; u_RawQuery := query;
          u_Fragment := EmptyString; u_RawFragment := EmptyString |}.

(** A URL that ends the parse before [setPath]. *)
Definition bare_url (scheme rest path query : string) (force : bool) : URL :=
  {| u_Scheme := scheme; u_Opaque := rest; u_User := false; u_Host := EmptyString; u_Path := path;
     u_RawPath := EmptyString; u_ForceQuery := force; u_RawQuery := query;
     u_Fragment := EmptyString; u_RawFragment := EmptyString |}.

(** [parse], with [viaRequest] false. *)
Definition parse (raw : string) : option URL :=
  if any_byte is_ctl raw then None
  else if String.eqb raw "*" then Some (bare_url EmptyString EmptyString "*" EmptyString false)
  else
    '(scheme, rest) ← getScheme raw;
    let scheme := lower scheme in
    let '(rest, query, force) := cut_query rest in
    if negb (has_prefix "/" rest) && negb (String.eqb scheme EmptyString) then
      Some (bare_url scheme rest EmptyString query force)
    else if negb (has_prefix "/" rest) && has_byte ":" (cut_pair "/" rest).1 then None
    else if (negb (String.eqb scheme EmptyString) || negb (has_prefix "///" rest)) && has_prefix "//" rest then
      let authority := default EmptyString (cut_prefix "//" rest) in
      let '(authority, rest) :=
        match cut "/" authority with
        | Some (a, r) => (a, String "/" r)
        | None => (authority, EmptyString)
        end in
      '(user, host) ← parseAuthority scheme authority;
      with_path scheme user host rest query force
    else with_path scheme false EmptyString rest query force.

(** [setFragment]. *)
Definition set_fragment (u : URL) (f : string) : option URL :=
  frag ← unescape f;
  Some {| u_Scheme := u_Scheme u; u_Opaque := u_Opaque u; u_User := u_User u; u_Host := u_Host u;
          u_Path := u_Path u; u_RawPath := u_RawPath u; u_ForceQuery := u_ForceQuery u;
          u_RawQuery := u_RawQuery u; u_Fragment := frag; u_RawFragment := raw_of encodeFragment f frag |}.

(** [url.Parse]. *)
Definition Parse (raw : string) : option URL :=
  let '(u, frag) := cut_pair "#" raw in
  parsed ← parse u;
  if String.eqb frag EmptyString then Some parsed else set_fragment parsed frag.

End parse.

(** [validEncoded] of a path. *)
Definition validEncodedPath (s : string) : bool :=
  all_bytes (fun c => one_of c "!$&'()*+,;=:@[]%" || negb (shouldEscape c encodePath)) s.

(** [EscapedPath]. *)
Definition EscapedPath (u : URL) : string :=
  if negb (String.eqb (u_RawPath u) EmptyString) && validEncodedPath (u_RawPath u)
     && bool_decide (unescape (u_RawPath u) = Some (u_Path u))
  then u_RawPath u
  else if String.eqb (u_Path u) "*" then "*"
  else escape encodePath (u_Path u).

(** ** [path.Clean] of a path that starts with a slash

    The elements kept, the last first. *)
Fixpoint clean_go (kept : list string) (elems : list string) : list string :=
  match elems with
  | [] => kept
  | e :: elems' =>
      if String.eqb e EmptyString || String.eqb e "." then clean_go kept elems'
      else if String.eqb e ".." then clean_go (tl kept) elems'
      else clean_go (e :: kept) elems'
  end.
Definition Clean (p : string) : string :=
  String "/" (join_with "/" (rev (clean_go [] (split_at "/" (default p (cut_prefix "/" p)))))).
