(* ===== verification/Utf8.v ===== *)
(** * UTF-8

    unicode/utf8 as encoding/json uses it: [DecodeRune] and [AppendRune], and
    what replacing each ill-formed byte with U+FFFD makes of a string. *)

From S2P Require Import Prelude Base64.

Definition RuneError : Z := 65533.

(** Continuation bytes, within the bounds the first byte sets on the second. *)
Definition in_range (lo hi : Z) (c : ascii) : bool := (lo <=? byte_of c) && (byte_of c <=? hi).
Definition tail_byte : ascii -> bool := in_range 128 191.

(** The size a first byte announces and the bounds of the byte after it;
    [None] for a byte no sequence starts with. *)
Definition lead (c : ascii) : option (nat * (Z * Z)) :=
  let b := byte_of c in
  if (194 <=? b) && (b <=? 223) then Some (2%nat, (128, 191))
  else if b =? 224 then Some (3%nat, (160, 191))
  else if b =? 237 then Some (3%nat, (128, 159))
  else if (225 <=? b) && (b <=? 239) then Some (3%nat, (128, 191))
  else if b =? 240 then Some (4%nat, (144, 191))
  else if (241 <=? b) && (b <=? 243) then Some (4%nat, (128, 191))
  else if b =? 244 then Some (4%nat, (128, 143))
  else None.

(** [utf8.DecodeRune] of a non-empty string: the rune, the bytes it takes and
    what follows; an ill-formed start is [None], which Go reports as
    [RuneError] of size one. *)
Definition decode_rune (s : string) : option (Z * string * string) :=
  match s with
  | EmptyString => None
  | String c1 s1 =>
      if byte_of c1 <? 128 then Some (byte_of c1, String c1 EmptyString, s1)
      else
        match lead c1, s1 with
        | Some (n, (lo, hi)), String c2 s2 =>
            if negb (in_range lo hi c2) then None
            else
              match n, s2 with
              | 2%nat, _ =>
                  Some ((byte_of c1 - 192) * 64 + (byte_of c2 - 128), String c1 (String c2 EmptyString), s2)
              | 3%nat, String c3 s3 =>
                  if negb (tail_byte c3) then None
                  else Some ((byte_of c1 - 224) * 4096 + (byte_of c2 - 128) * 64 + (byte_of c3 - 128),
                             String c1 (String c2 (String c3 EmptyString)), s3)
              | 4%nat, String c3 (String c4 s4) =>
                  if negb (tail_byte c3) || negb (tail_byte c4) then None
                  else Some ((byte_of c1 - 240) * 262144 + (byte_of c2 - 128) * 4096 + (byte_of c3 - 128) * 64
                             + (byte_of c4 - 128),
                             String c1 (String c2 (String c3 (String c4 EmptyString))), s4)
              | _, _ => None
              end
        | _, _ => None
        end
  end.

(** [utf8.AppendRune]: the encoding of a rune; a surrogate and a value past the
    last code point are written as U+FFFD. *)
Definition encode_rune (r : Z) : string :=
  let tail x := of_byte (128 + x mod 64) in
  if (0 <=? r) && (r <? 128) then String (of_byte r) EmptyString
  else if (0 <=? r) && (r <? 2048) then String (of_byte (192 + r / 64)) (String (tail r) EmptyString)
  else if (r <? 0) || (1114111 <? r) || ((55296 <=? r) && (r <=? 57343)) then
    String (of_byte 239) (String (of_byte 191) (String (of_byte 189) EmptyString))
  else if r <? 65536 then
    String (of_byte (224 + r / 4096)) (String (tail (r / 64)) (String (tail r) EmptyString))
  else
    String (of_byte (240 + r / 262144)) (String (tail (r / 4096)) (String (tail (r / 64)) (String (tail r) EmptyString))).

(** The string with each ill-formed byte replaced; one unit of fuel a byte. *)
Fixpoint to_valid_go (fuel : nat) (s : string) : string :=
  match fuel, s with
  | S fuel', String c s' =>
      match decode_rune s with
      | Some (_, w, rest) => w +:+ to_valid_go fuel' rest
      | None => encode_rune RuneError +:+ to_valid_go fuel' s'
      end
  | _, _ => EmptyString
  end.
Definition to_valid (s : string) : string := to_valid_go (String.length s) s.

(** [utf8.ValidString]. *)
Definition valid_utf8 (s : string) : bool := String.eqb (to_valid s) s.

#[global] Arguments decode_rune : simpl never.
#[global] Arguments encode_rune : simpl never.

(** ** Facts *)

(** The forms of a decoding: a byte below 128, or a lead byte and the bytes it
    announces. *)
Lemma decode_rune_app (s rest : string) (r : Z) (w : string) :
  decode_rune s = Some (r, w, rest) -> s = w +:+ rest /\ w <> EmptyString.
Proof.
  unfold decode_rune. intros H. destruct s as [|c1 s1]; [done|].
  repeat (case_match; simplify_eq/=; try done).
Qed.

(** A decoding does not look past its own bytes. *)
Lemma decode_rune_local (s rest rest' : string) (r : Z) (w : string) :
  decode_rune s = Some (r, w, rest) -> decode_rune (w +:+ rest') = Some (r, w, rest').
Proof.
  unfold decode_rune. intros H. destruct s as [|c1 s1]; [done|].
  destruct (byte_of c1 <? 128) eqn:E1; [simplify_eq/=; by rewrite E1|].
  destruct (lead c1) as [[n [lo hi]]|] eqn:E2; [|done].
  destruct s1 as [|c2 s2]; [done|].
  destruct (negb (in_range lo hi c2)) eqn:E3; [done|].
  destruct n as [|[|[|[|[|n]]]]]; try done.
  - simplify_eq/=. by rewrite E1, E2, E3.
  - destruct s2 as [|c3 s3]; [done|]. destruct (negb (tail_byte c3)) eqn:E4; [done|].
    simplify_eq/=. by rewrite E1, E2, E3, E4.
  - destruct s2 as [|c3 [|c4 s4]]; try done.
    destruct (negb (tail_byte c3) || negb (tail_byte c4)) eqn:E4; [done|].
    simplify_eq/=. by rewrite E1, E2, E3, E4.
Qed.

Lemma decode_rune_length (s rest : string) (r : Z) (w : string) :
  decode_rune s = Some (r, w, rest) -> (String.length rest < String.length s)%nat.
Proof.
  intros H. destruct (decode_rune_app _ _ _ _ H) as [-> Hw]. rewrite str_length_app.
  destruct w; [done|]. simpl. lia.
Qed.

Lemma to_valid_enough (f1 f2 : nat) (s : string) :
  (String.length s <= f1)%nat -> (String.length s <= f2)%nat -> to_valid_go f1 s = to_valid_go f2 s.
Proof.
  revert f2 s. induction f1 as [|f1 IH]; intros [|f2] [|c s] H1 H2; cbn [to_valid_go String.length] in *; try done; try lia.
  destruct (decode_rune (String c s)) as [[[r w] rest]|] eqn:E.
  - apply decode_rune_length in E. cbn [String.length] in E. f_equal. apply IH; lia.
  - f_equal. apply IH; lia.
Qed.

Lemma to_valid_step (s : string) (r : Z) (w rest : string) :
  decode_rune s = Some (r, w, rest) -> to_valid s = w +:+ to_valid rest.
Proof.
  intros H. pose proof (decode_rune_length _ _ _ _ H) as Hl.
  destruct s as [|c s]; [done|]. unfold to_valid at 1. cbn [to_valid_go String.length]. rewrite H.
  f_equal. apply to_valid_enough; simpl in Hl; lia.
Qed.

Lemma to_valid_bad (c : ascii) (s : string) :
  decode_rune (String c s) = None -> to_valid (String c s) = encode_rune RuneError +:+ to_valid s.
Proof.
  intros H. unfold to_valid at 1. cbn [to_valid_go String.length]. rewrite H. f_equal.
Qed.

Lemma decode_rune_ascii (c : ascii) (s : string) :
  byte_of c < 128 -> decode_rune (String c s) = Some (byte_of c, String c EmptyString, s).
Proof. intros H. unfold decode_rune. by rewrite (proj2 (Z.ltb_lt _ _) H). Qed.

(** Bytes below 128 are well formed wherever they stand. *)
Lemma valid_ascii (s : string) : all_bytes (fun c => byte_of c <? 128) s = true -> to_valid s = s.
Proof.
  induction s as [|c s IH]; [done|]. cbn [all_bytes]. intros [Hc%Z.ltb_lt Hs]%andb_true_iff.
  rewrite (to_valid_step _ _ _ _ (decode_rune_ascii c s Hc)). simpl. by rewrite (IH Hs).
Qed.

(** The bounds a lead byte sets. *)
Lemma lead_spec (c : ascii) (n : nat) (lo hi : Z) :
  lead c = Some (n, (lo, hi)) ->
  128 <= lo /\ hi <= 191 /\
  ((n = 2%nat /\ 194 <= byte_of c <= 223) \/
   (n = 3%nat /\ 224 <= byte_of c <= 239 /\ (byte_of c = 224 -> lo = 160) /\ (byte_of c = 237 -> hi = 159)) \/
   (n = 4%nat /\ 240 <= byte_of c <= 244 /\ (byte_of c = 240 -> lo = 144) /\ (byte_of c = 244 -> hi = 143))).
Proof.
  unfold lead. intros H.
  repeat (case_match; [simplify_eq; to_prop; lia|]). done.
Qed.

Lemma of_byte_eq (c : ascii) (z : Z) : z = byte_of c -> of_byte z = c.
Proof. intros ->. apply of_byte_of. Qed.

Ltac bytes_back := repeat f_equal; apply of_byte_eq; Z.div_mod_to_equations; lia.

(** Decoding takes the bytes of the first rune, and re-encoding gives them back. *)
Lemma encode_decode (s rest : string) (r : Z) (w : string) :
  decode_rune s = Some (r, w, rest) -> encode_rune r = w.
Proof.
  unfold decode_rune, in_range, tail_byte, in_range. intros H. destruct s as [|c1 s1]; [done|].
  pose proof (byte_range c1) as R1. unfold encode_rune.
  destruct (byte_of c1 <? 128) eqn:E1.
  { simplify_eq. rewrite E1. rewrite (proj2 (Z.leb_le 0 _)) by lia. simpl. by rewrite of_byte_of. }
  destruct (lead c1) as [[n [lo hi]]|] eqn:E2; [|done].
  apply lead_spec in E2 as (Hlo & Hhi & E2).
  destruct s1 as [|c2 s2]; [done|]. destruct (negb _) eqn:E3 in H; [done|]. to_prop.
  destruct E2 as [(-> & B)|[(-> & B & B1 & B2)|(-> & B & B1 & B2)]].
  - simplify_eq. set (r := (byte_of c1 - 192) * 64 + (byte_of c2 - 128)).
    rewrite (proj2 (Z.leb_le 0 r)), (proj2 (Z.ltb_ge r 128)), (proj2 (Z.ltb_lt r 2048)) by lia. cbn [andb].
    subst r. bytes_back.
  - destruct s2 as [|c3 s3]; [done|]. destruct (negb _) eqn:E4 in H; [done|]. to_prop. simplify_eq.
    set (r := (byte_of c1 - 224) * 4096 + (byte_of c2 - 128) * 64 + (byte_of c3 - 128)).
    assert (2048 <= r < 65536 /\ ~ (55296 <= r <= 57343)) as [Hr Hs] by lia.
    rewrite (proj2 (Z.leb_le 0 r)), (proj2 (Z.ltb_ge r 128)), (proj2 (Z.ltb_ge r 2048)),
      (proj2 (Z.ltb_ge r 0)), (proj2 (Z.ltb_ge 1114111 r)), (proj2 (Z.ltb_lt r 65536)) by lia. cbn [andb orb].
    destruct ((55296 <=? r) && (r <=? 57343)) eqn:E5; [to_prop; lia|]. subst r. bytes_back.
  - destruct s2 as [|c3 [|c4 s4]]; try done. destruct (negb _ || negb _) eqn:E4 in H; [done|]. to_prop.
    simplify_eq.
    set (r := (byte_of c1 - 240) * 262144 + (byte_of c2 - 128) * 4096 + (byte_of c3 - 128) * 64 + (byte_of c4 - 128)).
    assert (65536 <= r <= 1114111) as Hr by lia.
    rewrite (proj2 (Z.leb_le 0 r)), (proj2 (Z.ltb_ge r 128)), (proj2 (Z.ltb_ge r 2048)),
      (proj2 (Z.ltb_ge r 0)), (proj2 (Z.ltb_ge 1114111 r)), (proj2 (Z.ltb_ge r 65536)) by lia. cbn [andb orb].
    destruct ((55296 <=? r) && (r <=? 57343)) eqn:E5; [to_prop; lia|]. subst r. bytes_back.
Qed.

(** A rune past ASCII starts with a byte past ASCII. *)
Lemma decode_rune_high (s rest : string) (r : Z) (c : ascii) (w : string) :
  decode_rune s = Some (r, String c w, rest) -> 128 <= r -> 128 <= byte_of c.
Proof.
  intros H Hr. destruct (decode_rune_app _ _ _ _ H) as [-> _]. unfold decode_rune in H. simpl in H.
  destruct (byte_of c <? 128) eqn:E; to_prop; [simplify_eq; lia|done].
Qed.
