(* ===== verification/Json.v ===== *)
(** * JSON texts

    encoding/json as the program uses it on bytes that come from outside: the
    grammar of a text with its limit on nesting, the strings with their escapes
    and the replacement of ill-formed UTF-8, what [Unmarshal] makes of a value
    under a Go type, and what [Marshal] writes.  A [json.RawMessage] is the value
    it parses to. *)

From S2P Require Import Prelude Config Base64 Utf8.

(** A number keeps its literal; an object its members in the order written. *)
Inductive json :=
  | JNull
  | JBool (b : bool)
  | JNum (lit : string)
  | JStr (s : string)
  | JArr (l : list json)
  | JObj (m : list (string * json)).

Definition dquote : ascii := ascii_of_nat 34.
Definition backslash : ascii := ascii_of_nat 92.

(** ** Reading *)

Definition is_space (c : ascii) : bool :=
  Ascii.eqb c " " || Ascii.eqb c (ascii_of_nat 9) || Ascii.eqb c (ascii_of_nat 10) || Ascii.eqb c (ascii_of_nat 13).
Fixpoint skip_ws (s : string) : string :=
  match s with
  | String c s' => if is_space c then skip_ws s' else s
  | EmptyString => EmptyString
  end.

(** Four hexadecimal digits. *)
Definition hex4 (s : string) : option (Z * string) :=
  match s with
  | String a (String b (String c (String d r))) =>
      x ← hex_value a; y ← hex_value b; z ← hex_value c; w ← hex_value d;
      Some (Z.of_nat (((x * 16 + y) * 16 + z) * 16 + w), r)
  | _ => None
  end.

(** The bytes after a backslash, other than [u]. *)
Definition unescape_char (c : ascii) : option ascii :=
  if Ascii.eqb c dquote || Ascii.eqb c backslash || Ascii.eqb c "/" then Some c
  else if Ascii.eqb c "b" then Some (ascii_of_nat 8)
  else if Ascii.eqb c "f" then Some (ascii_of_nat 12)
  else if Ascii.eqb c "n" then Some (ascii_of_nat 10)
  else if Ascii.eqb c "r" then Some (ascii_of_nat 13)
  else if Ascii.eqb c "t" then Some (ascii_of_nat 9)
  else None.

(** A [\u] escape past its [u]: the rune, with the low surrogate an escape that
    follows may give it; a surrogate without its half is U+FFFD. *)
Definition unicode_escape (s : string) : option (Z * string) :=
  match hex4 s with
  | None => None
  | Some (u, r) =>
      if negb ((55296 <=? u) && (u <=? 57343)) then Some (u, r)
      else
        match r with
        | String b (String v r') =>
            match (if Ascii.eqb b backslash && Ascii.eqb v "u" then hex4 r' else None) with
            | Some (l, r2) =>
                if (u <=? 56319) && (56320 <=? l) && (l <=? 57343)
                then Some (65536 + (u - 55296) * 1024 + (l - 56320), r2)
                else Some (RuneError, r)
            | None => Some (RuneError, r)
            end
        | _ => Some (RuneError, r)
        end
  end.

(** A string past its opening quote; one unit of fuel a step. *)
Fixpoint str_body (fuel : nat) (s : string) : option (string * string) :=
  match fuel, s with
  | S f, String c s' =>
      let put w rest := match str_body f rest with Some (t, r) => Some (w +:+ t, r) | None => None end in
      if Ascii.eqb c dquote then Some (EmptyString, s')
      else if Ascii.eqb c backslash then
        match s' with
        | String e r =>
            if Ascii.eqb e "u" then
              match unicode_escape r with Some (u, r') => put (encode_rune u) r' | None => None end
            else
              match unescape_char e with Some b => put (String b EmptyString) r | None => None end
        | EmptyString => None
        end
      else if byte_of c <? 32 then None
      else
        match decode_rune s with
        | Some (_, w, rest) => put w rest
        | None => put (encode_rune RuneError) s'
        end
  | _, _ => None
  end.
Definition parse_string (s : string) : option (string * string) := str_body (String.length s) s.

Fixpoint take_digits (s : string) : string * string :=
  match s with
  | String c s' => if is_digit c then let '(d, r) := take_digits s' in (String c d, r) else (EmptyString, s)
  | EmptyString => (EmptyString, EmptyString)
  end.

(** The digits of a fraction or an exponent: at least one. *)
Definition digits1 (s : string) : option (string * string) :=
  let '(d, r) := take_digits s in if String.eqb d EmptyString then None else Some (d, r).

Definition int_part (s : string) : option (string * string) :=
  match s with
  | String c r => if Ascii.eqb c "0" then Some (String c EmptyString, r) else digits1 s
  | EmptyString => None
  end.
Definition frac_part (s : string) : option (string * string) :=
  match s with
  | String c r =>
      if Ascii.eqb c "." then match digits1 r with Some (d, r') => Some (String c d, r') | None => None end
      else Some (EmptyString, s)
  | EmptyString => Some (EmptyString, s)
  end.
Definition exp_part (s : string) : option (string * string) :=
  match s with
  | String c r =>
      if Ascii.eqb c "e" || Ascii.eqb c "E" then
        match r with
        | String g r' =>
            if Ascii.eqb g "+" || Ascii.eqb g "-"
            then match digits1 r' with Some (d, r2) => Some (String c (String g d), r2) | None => None end
            else match digits1 r with Some (d, r2) => Some (String c d, r2) | None => None end
        | EmptyString => None
        end
      else Some (EmptyString, s)
  | EmptyString => Some (EmptyString, s)
  end.

(** A number: its literal and what follows. *)
Definition parse_number (s : string) : option (string * string) :=
  let '(sign, s1) :=
    match s with
    | String c r => if Ascii.eqb c "-" then (String c EmptyString, r) else (EmptyString, s)
    | EmptyString => (EmptyString, s)
    end in
  match int_part s1 with
  | None => None
  | Some (i, s2) =>
      match frac_part s2 with
      | None => None
      | Some (f, s3) =>
          match exp_part s3 with
          | None => None
          | Some (e, s4) => Some (sign +:+ (i +:+ (f +:+ e)), s4)
          end
      end
  end.

(** [maxNestingDepth]. *)
Definition maxNestingDepth : Z := 10000.

(** A value with nothing before it, at a nesting depth; the elements and the
    members that close an array and an object opened before. *)
Fixpoint value (fuel : nat) (d : Z) (s : string) : option (json * string) :=
  match fuel, s with
  | S f, String c s' =>
      if Ascii.eqb c dquote then
        match parse_string s' with Some (t, r) => Some (JStr t, r) | None => None end
      else if Ascii.eqb c "[" then
        if maxNestingDepth <=? d then None
        else
          match skip_ws s' with
          | String e r =>
              if Ascii.eqb e "]" then Some (JArr [], r)
              else match elements f (d + 1) (String e r) with Some (l, r') => Some (JArr l, r') | None => None end
          | EmptyString => None
          end
      else if Ascii.eqb c "{" then
        if maxNestingDepth <=? d then None
        else
          match skip_ws s' with
          | String e r =>
              if Ascii.eqb e "}" then Some (JObj [], r)
              else match members f (d + 1) (String e r) with Some (m, r') => Some (JObj m, r') | None => None end
          | EmptyString => None
          end
      else
        match cut_prefix "null" s, cut_prefix "true" s, cut_prefix "false" s with
        | Some r, _, _ => Some (JNull, r)
        | _, Some r, _ => Some (JBool true, r)
        | _, _, Some r => Some (JBool false, r)
        | _, _, _ => match parse_number s with Some (n, r) => Some (JNum n, r) | None => None end
        end
  | _, _ => None
  end
with elements (fuel : nat) (d : Z) (s : string) : option (list json * string) :=
  match fuel with
  | O => None
  | S f =>
      match value f d s with
      | None => None
      | Some (v, r) =>
          match skip_ws r with
          | String c r' =>
              if Ascii.eqb c "]" then Some ([v], r')
              else if Ascii.eqb c "," then
                match elements f d (skip_ws r') with Some (l, r2) => Some (v :: l, r2) | None => None end
              else None
          | EmptyString => None
          end
      end
  end
with members (fuel : nat) (d : Z) (s : string) : option (list (string * json) * string) :=
  match fuel, s with
  | S f, String q s' =>
      if negb (Ascii.eqb q dquote) then None
      else
        match parse_string s' with
        | None => None
        | Some (k, r) =>
            match skip_ws r with
            | String c r1 =>
                if negb (Ascii.eqb c ":") then None
                else
                  match value f d (skip_ws r1) with
                  | None => None
                  | Some (v, r2) =>
                      match skip_ws r2 with
                      | String e r3 =>
                          if Ascii.eqb e "}" then Some ([(k, v)], r3)
                          else if Ascii.eqb e "," then
                            match members f d (skip_ws r3) with
                            | Some (m, r4) => Some ((k, v) :: m, r4)
                            | None => None
                            end
                          else None
                      | EmptyString => None
                      end
                  end
            | EmptyString => None
            end
        end
  | _, _ => None
  end.

(** The fuel of a text: each step of the three functions reads a byte of it,
    but the one from the elements to the first of them. *)
Definition json_fuel (s : string) : nat := (2 * String.length s + 2)%nat.

(** The value a text starts with, and what follows it: one [Decoder.Decode]. *)
Definition parse_prefix (s : string) : option (json * string) :=
  let s := skip_ws s in value (json_fuel s) 0 s.

(** A whole text, with space around it and nothing else: [json.Unmarshal]. *)
Definition parse_json (s : string) : option json :=
  match parse_prefix s with
  | Some (v, r) => if String.eqb (skip_ws r) EmptyString then Some v else None
  | None => None
  end.

(** ** Values under a Go type

    [None] is an error; JSON null leaves the destination as it was. *)

Definition to_string (old : string) (v : json) : option string :=
  match v with JStr s => Some s | JNull => Some old | _ => None end.

(** [[]string]: null is the nil slice. *)
Definition to_strings (v : json) : option (list string) :=
  match v with
  | JNull => Some []
  | JArr l => mapM (to_string EmptyString) l
  | _ => None
  end.

(** [map[string]json.RawMessage]: null is the nil map. *)
Definition to_members (v : json) : option (list (string * json)) :=
  match v with JNull => Some [] | JObj m => Some m | _ => None end.

(** The member of a map: the last of a name. *)
Fixpoint member (k : string) (m : list (string * json)) : option json :=
  match m with
  | [] => None
  | (k', v) :: m' =>
      match member k m' with
      | Some w => Some w
      | None => if String.eqb k k' then Some v else None
      end
  end.

(** [int64]: the literal of an integer in range. *)
Definition to_int64 (old : Z) (v : json) : option Z :=
  match v with JNum lit => atoi lit | JNull => Some old | _ => None end.

(** The folding under which encoding/json matches a key to the name of a field,
    and [strings.EqualFold] two strings of which one is ASCII: letters in upper
    case, with the two other runes that fold to a letter, U+017F and U+212A. *)
Definition fold_byte (c : ascii) : ascii :=
  if (97 <=? byte_of c) && (byte_of c <=? 122) then of_byte (byte_of c - 32) else c.
Fixpoint fold_name (s : string) : string :=
  match s with
  | EmptyString => EmptyString
  | String c s' =>
      match s' with
      | String c2 s2 =>
          if (byte_of c =? 197) && (byte_of c2 =? 191) then String "S" (fold_name s2)
          else
            match s2 with
            | String c3 r =>
                if (byte_of c =? 226) && (byte_of c2 =? 132) && (byte_of c3 =? 170)
                then String "K" (fold_name r) else String (fold_byte c) (fold_name s')
            | EmptyString => String (fold_byte c) (fold_name s')
            end
      | EmptyString => String (fold_byte c) EmptyString
      end
  end.
Definition equal_fold (s name : string) : bool := String.eqb (fold_name s) (fold_name name).

(** The field a member of an object is read into: the one of its name, and
    otherwise the first whose name folds to it. *)
Definition field_of (names : list string) (k : string) : option string :=
  if bool_decide (k ∈ names) then Some k else List.find (equal_fold k) names.

(** A struct read member by member in the order written: [set] stores one field;
    a member no field takes is passed over, a member a field cannot take fails
    the whole. *)
Fixpoint read_struct {A} (names : list string) (set : A -> string -> json -> option A)
    (m : list (string * json)) (a : A) : option A :=
  match m with
  | [] => Some a
  | (k, v) :: m' =>
      match field_of names k with
      | None => read_struct names set m' a
      | Some name => a' ← set a name v; read_struct names set m' a'
      end
  end.
Definition to_struct {A} (names : list string) (set : A -> string -> json -> option A) (zero : A) (v : json) :
    option A :=
  match v with
  | JNull => Some zero
  | JObj m => read_struct names set m zero
  | _ => None
  end.

(** ** Writing *)

Definition hex_lower (n : Z) : ascii :=
  if n <? 10 then of_byte (48 + n) else of_byte (87 + n).
Definition u_escape (u : Z) : string :=
  String backslash (String "u" (String (hex_lower (u / 4096)) (String (hex_lower (u / 256 mod 16))
    (String (hex_lower (u / 16 mod 16)) (String (hex_lower (u mod 16)) EmptyString))))).

(** A byte below 128 as [Marshal] writes it, with the escaping of HTML. *)
Definition escape_byte (c : ascii) : string :=
  let b := byte_of c in
  let short e := String backslash (String e EmptyString) in
  if Ascii.eqb c dquote || Ascii.eqb c backslash then short c
  else if b =? 8 then short "b"%char
  else if b =? 12 then short "f"%char
  else if b =? 10 then short "n"%char
  else if b =? 13 then short "r"%char
  else if b =? 9 then short "t"%char
  else if (b <? 32) || Ascii.eqb c "<" || Ascii.eqb c ">" || Ascii.eqb c "&" then u_escape b
  else String c EmptyString.

Fixpoint escape_go (fuel : nat) (s : string) : string :=
  match fuel, s with
  | S f, String c s' =>
      match decode_rune s with
      | None => u_escape RuneError +:+ escape_go f s'
      | Some (r, w, rest) =>
          (if r <? 128 then escape_byte c
           else if (r =? 8232) || (r =? 8233) then u_escape r
           else w) +:+ escape_go f rest
      end
  | _, _ => EmptyString
  end.

Definition quoted (body : string) : string := String dquote (body +:+ String dquote EmptyString).
Definition print_string (s : string) : string := quoted (escape_go (String.length s) s).

(** [json.Marshal] of a value without optional fields: no space, the members in
    the order given. *)
Fixpoint print (v : json) : string :=
  match v with
  | JNull => "null"
  | JBool b => if b then "true" else "false"
  | JNum lit => lit
  | JStr s => print_string s
  | JArr l => String "[" (join_with "," (map print l) +:+ "]")
  | JObj m => String "{" (join_with "," (map (fun x => print_string x.1 +:+ String ":" (print x.2)) m) +:+ "}")
  end.

(** ** Strings come back *)

Definition with_rest (w : string) (o : option (string * string)) : option (string * string) :=
  match o with Some (t, r) => Some (w +:+ t, r) | None => None end.

Lemma str_body_escaped (f : nat) (c : ascii) (t : string) :
  byte_of c < 128 -> str_body (S f) (escape_byte c +:+ t) = with_rest (String c EmptyString) (str_body f t).
Proof.
  intros Hc. destruct c as [[] [] [] [] [] [] [] []]; try (exfalso; revert Hc; vm_compute; discriminate);
    reflexivity.
Qed.

Lemma str_body_escape_closed (f : nat) (u : Z) (t : string) :
  (u = 8232 \/ u = 8233 \/ u = RuneError) ->
  str_body (S f) (u_escape u +:+ t) = with_rest (encode_rune u) (str_body f t).
Proof. intros [-> | [-> | ->]]; reflexivity. Qed.

Lemma str_body_high (f : nat) (s rest t : string) (r : Z) (w : string) :
  decode_rune s = Some (r, w, rest) -> 128 <= r ->
  str_body (S f) (w +:+ t) = with_rest w (str_body f t).
Proof.
  intros H Hr. pose proof (decode_rune_local _ _ t _ _ H) as Hl.
  destruct (decode_rune_app _ _ _ _ H) as [_ Hw]. destruct w as [|c w]; [done|].
  pose proof (decode_rune_high _ _ _ _ _ Hl Hr) as Hc. simpl in Hl |- *. rewrite Hl.
  destruct (Ascii.eqb c dquote) eqn:E1; [apply Ascii.eqb_eq in E1; subst; vm_compute in Hc; done|].
  destruct (Ascii.eqb c backslash) eqn:E2; [apply Ascii.eqb_eq in E2; subst; vm_compute in Hc; done|].
  rewrite (proj2 (Z.ltb_ge _ 32)) by lia. done.
Qed.

Lemma escape_byte_pos (c : ascii) : (0 < String.length (escape_byte c))%nat.
Proof. unfold escape_byte. repeat case_match; simpl; lia. Qed.

(** The rune of a byte is that byte. *)
Lemma decode_rune_low (s rest : string) (r : Z) (c : ascii) (s' w : string) :
  decode_rune (String c s') = Some (r, w, rest) -> r < 128 -> byte_of c < 128 /\ w = String c EmptyString /\ rest = s'.
Proof.
  intros H Hr. destruct (byte_of c <? 128) eqn:E.
  - to_prop. rewrite decode_rune_ascii in H by done. by simplify_eq.
  - exfalso. pose proof (encode_decode _ _ _ _ H) as He. unfold encode_rune in He.
    destruct (decode_rune_app _ _ _ _ H) as [Hs Hw].
    unfold decode_rune in H. rewrite E in H.
    destruct (lead c) as [[n [lo hi]]|] eqn:E2; [|done]. apply lead_spec in E2 as (Hlo & Hhi & E2).
    destruct s' as [|c2 s2]; [done|]. destruct (negb _) eqn:E3 in H; [done|]. unfold in_range in E3. to_prop.
    destruct E2 as [(-> & B)|[(-> & B & B1 & B2)|(-> & B & B1 & B2)]].
    + simplify_eq. lia.
    + destruct s2 as [|c3 s3]; [done|]. destruct (negb _) eqn:E4 in H; [done|].
      unfold tail_byte, in_range in E4. to_prop. simplify_eq. lia.
    + destruct s2 as [|c3 [|c4 s4]]; try done. destruct (negb _ || negb _) eqn:E4 in H; [done|].
      unfold tail_byte, in_range in E4. to_prop. simplify_eq. lia.
Qed.

Lemma str_body_escape (f g : nat) (s rest : string) :
  (String.length s <= f)%nat -> (String.length (escape_go f s) < g)%nat ->
  str_body g (escape_go f s +:+ String dquote rest) = Some (to_valid s, rest).
Proof.
  revert g s. induction f as [|f IH]; intros [|g] s Hf Hg; try lia.
  { destruct s; [done|simpl in Hf; lia]. }
  destruct s as [|c s]; [done|]. cbn [escape_go String.length] in *.
  destruct (decode_rune (String c s)) as [[[r w] rst]|] eqn:E.
  - pose proof (decode_rune_length _ _ _ _ E) as Hl. cbn [String.length] in Hl.
    rewrite (to_valid_step _ _ _ _ E). rewrite str_app_assoc. rewrite str_length_app in Hg.
    destruct (r <? 128) eqn:E1; to_prop.
    { destruct (decode_rune_low (String c s) _ _ _ _ _ E E1) as (Hc & -> & ->).
      rewrite str_body_escaped by done. pose proof (escape_byte_pos c).
      rewrite IH by lia. done. }
    destruct ((r =? 8232) || (r =? 8233)) eqn:E2.
    { rewrite str_body_escape_closed by (apply orb_true_iff in E2 as [?|?]; to_prop; auto).
      rewrite (encode_decode _ _ _ _ E). cbn [u_escape String.length] in Hg. rewrite IH by lia. done. }
    rewrite (str_body_high _ _ _ _ _ _ E) by lia.
    destruct (decode_rune_app _ _ _ _ E) as [_ Hw]. destruct w as [|c' w]; [done|]. cbn [String.length] in Hg.
    rewrite IH by lia. done.
  - rewrite (to_valid_bad _ _ E), str_app_assoc. rewrite str_length_app in Hg.
    change (String.length (u_escape RuneError)) with 6%nat in Hg.
    rewrite str_body_escape_closed by auto. rewrite IH by lia. done.
Qed.

(** Every string is read back, but for ill-formed UTF-8, which becomes U+FFFD. *)
Lemma parse_print_string (s rest : string) :
  parse_string (escape_go (String.length s) s +:+ String dquote rest) = Some (to_valid s, rest).
Proof.
  unfold parse_string. apply str_body_escape; [lia|]. rewrite str_length_app. simpl. lia.
Qed.

(** ** Numbers come back *)

(** What may follow a number that is not part of it. *)
Definition ends_number (s : string) : bool :=
  match s with
  | EmptyString => true
  | String c _ => negb (is_digit c || Ascii.eqb c "." || Ascii.eqb c "e" || Ascii.eqb c "E")
  end.

Lemma ends_number_spec (c : ascii) (s : string) :
  ends_number (String c s) = true ->
  is_digit c = false /\ Ascii.eqb c "." = false /\ (Ascii.eqb c "e" || Ascii.eqb c "E") = false.
Proof.
  unfold ends_number. intros H. apply negb_true_iff in H.
  apply orb_false_iff in H as [H H4]. apply orb_false_iff in H as [H H3]. apply orb_false_iff in H as [H1 H2].
  by rewrite H3, H4.
Qed.

Lemma take_digits_app (s d r rest : string) :
  take_digits s = (d, r) -> ends_number rest = true -> take_digits (s +:+ rest) = (d, r +:+ rest).
Proof.
  intros H Hr. revert d r H. induction s as [|c s IH]; intros d r H.
  { simplify_eq/=. destruct rest as [|c rest]; [done|]. apply ends_number_spec in Hr as (H1 & _ & _).
    simpl. by rewrite H1. }
  simpl in *. destruct (is_digit c); [|by simplify_eq].
  destruct (take_digits s) as [d' r'] eqn:E. simplify_eq. by rewrite (IH _ _ eq_refl).
Qed.

Lemma digits1_app (s d r rest : string) :
  digits1 s = Some (d, r) -> ends_number rest = true -> digits1 (s +:+ rest) = Some (d, r +:+ rest).
Proof.
  unfold digits1. destruct (take_digits s) as [d' r'] eqn:E. intros H Hr.
  rewrite (take_digits_app _ _ _ _ E Hr). case_match; [done|]. by simplify_eq.
Qed.

Lemma int_part_app (s d r rest : string) :
  int_part s = Some (d, r) -> ends_number rest = true -> int_part (s +:+ rest) = Some (d, r +:+ rest).
Proof.
  intros H Hr. destruct s as [|c s]; [done|]. cbn [int_part] in *. simpl.
  destruct (Ascii.eqb c "0"); [by simplify_eq|]. exact (digits1_app _ _ _ _ H Hr).
Qed.

Lemma frac_part_app (s d r rest : string) :
  frac_part s = Some (d, r) -> ends_number rest = true -> frac_part (s +:+ rest) = Some (d, r +:+ rest).
Proof.
  intros H Hr. destruct s as [|c s]; cbn [frac_part] in *.
  { simplify_eq. destruct rest as [|c rest]; [done|]. apply ends_number_spec in Hr as (_ & H1 & _).
    simpl. by rewrite H1. }
  simpl. destruct (Ascii.eqb c "."); [|by simplify_eq].
  destruct (digits1 s) as [[d' r']|] eqn:E; [|done]. simplify_eq. by rewrite (digits1_app _ _ _ _ E Hr).
Qed.

Lemma exp_part_app (s d r rest : string) :
  exp_part s = Some (d, r) -> ends_number rest = true -> exp_part (s +:+ rest) = Some (d, r +:+ rest).
Proof.
  intros H Hr. destruct s as [|c s]; cbn [exp_part] in *.
  { simplify_eq. destruct rest as [|c rest]; [done|]. apply ends_number_spec in Hr as (_ & _ & H1).
    simpl. by rewrite H1. }
  simpl. destruct (Ascii.eqb c "e" || Ascii.eqb c "E"); [|by simplify_eq].
  destruct s as [|g s]; [done|]. simpl. destruct (Ascii.eqb g "+" || Ascii.eqb g "-").
  - destruct (digits1 s) as [[d' r']|] eqn:E; [|done]. simplify_eq. by rewrite (digits1_app _ _ _ _ E Hr).
  - destruct (digits1 (String g s)) as [[d' r']|] eqn:E; [|done]. simplify_eq.
    change (String g (s +:+ rest)) with (String g s +:+ rest). by rewrite (digits1_app _ _ _ _ E Hr).
Qed.

Lemma parse_number_app (s n r rest : string) :
  parse_number s = Some (n, r) -> ends_number rest = true -> parse_number (s +:+ rest) = Some (n, r +:+ rest).
Proof.
  unfold parse_number. intros H Hr.
  destruct s as [|c s]; [done|]. simpl.
  destruct (Ascii.eqb c "-") eqn:Ec.
  - destruct (int_part s) as [[i s2]|] eqn:E1; [|done]. rewrite (int_part_app _ _ _ _ E1 Hr).
    destruct (frac_part s2) as [[f s3]|] eqn:E2; [|done]. rewrite (frac_part_app _ _ _ _ E2 Hr).
    destruct (exp_part s3) as [[e s4]|] eqn:E3; [|done]. rewrite (exp_part_app _ _ _ _ E3 Hr). by simplify_eq.
  - destruct (int_part (String c s)) as [[i s2]|] eqn:E1; [|done].
    change (String c (s +:+ rest)) with (String c s +:+ rest). rewrite (int_part_app _ _ _ _ E1 Hr).
    destruct (frac_part s2) as [[f s3]|] eqn:E2; [|done]. rewrite (frac_part_app _ _ _ _ E2 Hr).
    destruct (exp_part s3) as [[e s4]|] eqn:E3; [|done]. rewrite (exp_part_app _ _ _ _ E3 Hr). by simplify_eq.
Qed.

(** A literal starts with a sign or a digit. *)
Lemma parse_number_head (s : string) (n : string * string) :
  parse_number s = Some n -> exists c s', s = String c s' /\ (Ascii.eqb c "-" || is_digit c) = true.
Proof.
  unfold parse_number. destruct s as [|c s]; [done|]. intros H. exists c, s. split; [done|].
  destruct (Ascii.eqb c "-") eqn:Ec; [done|]. simpl.
  destruct (int_part (String c s)) as [[i s2]|] eqn:E; [|done]. cbn [int_part] in E.
  destruct (Ascii.eqb c "0") eqn:E0; [apply Ascii.eqb_eq in E0; by subst|].
  unfold digits1 in E. simpl in E. destruct (is_digit c); [done|]. done.
Qed.

(** ** Values come back *)

Section json_induction.
  Variable P : json -> Prop.
  Hypothesis P_null : P JNull.
  Hypothesis P_bool : forall b, P (JBool b).
  Hypothesis P_num : forall lit, P (JNum lit).
  Hypothesis P_str : forall s, P (JStr s).
  Hypothesis P_arr : forall l, Forall P l -> P (JArr l).
  Hypothesis P_obj : forall m, Forall (fun x => P x.2) m -> P (JObj m).

Fixpoint json_nested_ind (v : json) : P v :=
  match v with
  | JNull => P_null
  | JBool b => P_bool b
  | JNum lit => P_num lit
  | JStr s => P_str s
  | JArr l => P_arr l ((fix go l : Forall P l :=
      match l with [] => Forall_nil_2 P | v :: l' => Forall_cons_2 P v l' (json_nested_ind v) (go l') end) l)
  | JObj m => P_obj m ((fix go m : Forall (fun x => P x.2) m :=
      match m with
      | [] => Forall_nil_2 _
      | x :: m' => Forall_cons_2 (fun y => P y.2) x m' (json_nested_ind x.2) (go m')
      end) m)
  end.
End json_induction.

(** A value [Marshal] can write within the nesting limit: literals are numbers,
    and [d] levels are open around it. *)
Fixpoint writable (d : Z) (v : json) : bool :=
  match v with
  | JNull | JBool _ | JStr _ => true
  | JNum lit => bool_decide (parse_number lit = Some (lit, EmptyString))
  | JArr l => (d <? maxNestingDepth) && forallb (writable (d + 1)) l
  | JObj m => (d <? maxNestingDepth) && forallb (fun x => writable (d + 1) x.2) m
  end.

(** What comes back: its strings made well formed. *)
Fixpoint to_valid_json (v : json) : json :=
  match v with
  | JStr s => JStr (to_valid s)
  | JArr l => JArr (map to_valid_json l)
  | JObj m => JObj (map (fun x => (to_valid x.1, to_valid_json x.2)) m)
  | _ => v
  end.

Definition value_start (c : ascii) : bool :=
  negb (is_space c) && negb (Ascii.eqb c "]") && negb (Ascii.eqb c "}").

Lemma number_start (c : ascii) :
  (Ascii.eqb c "-" || is_digit c) = true ->
  Ascii.eqb c dquote = false /\ Ascii.eqb c "[" = false /\ Ascii.eqb c "{" = false /\ value_start c = true /\
  (forall s, cut_prefix "null" (String c s) = None) /\ (forall s, cut_prefix "true" (String c s) = None) /\
  (forall s, cut_prefix "false" (String c s) = None).
Proof.
  destruct c as [[] [] [] [] [] [] [] []]; intros H; try discriminate H; repeat split; reflexivity.
Qed.

(** A text a value or a member can start. *)
Definition starts (s : string) : Prop := exists c t, s = String c t /\ value_start c = true.

Lemma print_start (d : Z) (v : json) : writable d v = true -> starts (print v).
Proof.
  destruct v as [|[]|lit|s|l|m]; cbn [writable print]; intros H; try (eexists _, _; split; reflexivity).
  apply bool_decide_eq_true in H. destruct (parse_number_head _ _ H) as (c & s' & -> & Hc).
  eexists _, _. split; [reflexivity|]. by apply number_start in Hc as (_ & _ & _ & ? & _).
Qed.

Lemma skip_ws_start (s r : string) : starts s -> skip_ws (s +:+ r) = s +:+ r.
Proof.
  intros (c & t & -> & H). unfold value_start in H. cbn [String.append skip_ws]. by destruct (is_space c).
Qed.

Lemma join_cons (c : ascii) (w : string) (l : list string) :
  join_with c (w :: l) = w +:+ (match l with [] => EmptyString | _ => String c (join_with c l) end).
Proof. destruct l; [symmetry; apply str_app_nil_r|done]. Qed.

Lemma join_starts (c : ascii) (w : string) (l : list string) : starts w -> starts (join_with c (w :: l)).
Proof. intros (d & t & -> & H). rewrite join_cons. eexists _, _. split; [reflexivity|done]. Qed.

(** The byte after an opening bracket is not the closing one. *)
Lemma starts_inside (s r : string) : starts s ->
  exists c u, skip_ws (s +:+ r) = String c u /\ s +:+ r = String c u /\
    Ascii.eqb c "]" = false /\ Ascii.eqb c "}" = false.
Proof.
  intros Hs. rewrite (skip_ws_start _ _ Hs). destruct Hs as (c & t & -> & Hc).
  unfold value_start in Hc. to_prop. eexists _, _. repeat split; done.
Qed.

Lemma print_string_head (s : string) : print_string s = String dquote (escape_go (String.length s) s +:+ String dquote EmptyString).
Proof. reflexivity. Qed.

Lemma print_string_parse (s rest : string) :
  exists t, print_string s +:+ rest = String dquote t /\ parse_string t = Some (to_valid s, rest).
Proof.
  eexists. rewrite print_string_head. cbn [String.append]. split; [reflexivity|].
  rewrite str_app_assoc. apply parse_print_string.
Qed.

(** What one value needs of the fuel, and of what follows it. *)
Definition reads (v : json) : Prop := forall fuel d rest,
  writable d v = true -> (2 * String.length (print v) <= fuel)%nat -> ends_number rest = true ->
  value fuel d (print v +:+ rest) = Some (to_valid_json v, rest).

Lemma elements_read (l : list json) (fuel : nat) (d : Z) (rest : string) :
  l <> [] -> Forall reads l -> forallb (writable d) l = true ->
  (2 * String.length (join_with "," (map print l)) + 1 <= fuel)%nat ->
  elements fuel d (join_with "," (map print l) +:+ String "]" rest) = Some (map to_valid_json l, rest).
Proof.
  intros Hne Hl. revert fuel. induction Hl as [|v l Hv Hl IH]; intros fuel Hw Hf; [done|]. clear Hne.
  cbn [forallb] in Hw. apply andb_true_iff in Hw as [Hw1 Hw2].
  cbn [map] in *. rewrite join_cons in *. rewrite str_length_app in Hf. rewrite str_app_assoc.
  destruct fuel as [|f]; [lia|]. cbn [elements]. destruct l as [|v2 l].
  - rewrite Hv; [|done|cbn in Hf; lia|done]. done.
  - cbn [String.length] in Hf. cbn [map String.length] in Hf |- *. rewrite Hv; [|done|lia|done].
    cbn [String.append]. change (skip_ws (String "," ?x)) with (String "," x). cbn iota.
    change (Ascii.eqb "," "]") with false. change (Ascii.eqb "," ",") with true. cbn iota.
    apply andb_true_iff in Hw2 as Hw3. destruct Hw3 as [Hw3 _].
    rewrite skip_ws_start by (apply join_starts, (print_start d); done).
    cbn [map] in IH. rewrite IH; [done|done|done|]. lia.
Qed.

(** A member as it is written. *)
Definition print_member (x : string * json) : string := print_string x.1 +:+ String ":" (print x.2).

Lemma member_starts (x : string * json) : starts (print_member x).
Proof. unfold print_member. rewrite print_string_head. eexists _, _. split; reflexivity. Qed.

Lemma members_read (m : list (string * json)) (fuel : nat) (d : Z) (rest : string) :
  m <> [] -> Forall (fun x => reads x.2) m -> forallb (fun x => writable d x.2) m = true ->
  (2 * String.length (join_with "," (map print_member m)) + 1 <= fuel)%nat ->
  members fuel d (join_with "," (map print_member m) +:+ String "}" rest)
  = Some (map (fun x => (to_valid x.1, to_valid_json x.2)) m, rest).
Proof.
  intros Hne Hm. revert fuel. induction Hm as [|[k v] m Hv Hm IH]; intros fuel Hw Hf; [done|]. clear Hne.
  cbn [forallb snd] in Hw, Hv. apply andb_true_iff in Hw as [Hw1 Hw2].
  cbn [map] in *. rewrite join_cons in *. rewrite str_length_app in Hf. rewrite str_app_assoc.
  destruct fuel as [|f]; [lia|]. unfold print_member at 1. unfold print_member in Hf at 1. cbn [fst snd] in *.
  rewrite str_length_app in Hf. cbn [String.length] in Hf. rewrite str_app_assoc.
  match goal with |- context [print_string k +:+ ?r] => destruct (print_string_parse k r) as (t & -> & Ht) end.
  cbn [members]. rewrite Ascii.eqb_refl. cbn [negb]. rewrite Ht. cbn [String.append].
  change (skip_ws (String ":" ?x)) with (String ":" x). cbn iota.
  change (Ascii.eqb ":" ":") with true. cbn [negb]. cbn iota.
  rewrite skip_ws_start by (apply (print_start d); done). destruct m as [|[k2 v2] m].
  - rewrite Hv; [|done|lia|done]. done.
  - cbn [map String.length] in Hf |- *. cbn [String.append]. rewrite Hv; [|done|lia|done].
    change (skip_ws (String "," ?x)) with (String "," x). cbn iota. change (Ascii.eqb "," "}") with false.
    change (Ascii.eqb "," ",") with true. cbn iota.
    rewrite skip_ws_start by (apply join_starts, member_starts).
    cbn [map] in IH. rewrite IH; [done|done|done|]. lia.
Qed.

Lemma print_obj (m : list (string * json)) :
  print (JObj m) = String "{" (join_with "," (map print_member m) +:+ "}").
Proof. reflexivity. Qed.

Lemma value_read (v : json) : reads v.
Proof.
  induction v as [|b|lit|s|l IH|m IH] using json_nested_ind; intros fuel d rest Hw Hf Hr.
  - destruct fuel; [simpl in Hf; lia|]. reflexivity.
  - destruct fuel; [destruct b; simpl in Hf; lia|]. by destruct b.
  - cbn [writable] in Hw. apply bool_decide_eq_true in Hw. cbn [print to_valid_json].
    destruct (parse_number_head _ _ Hw) as (c & t & -> & Hc).
    destruct fuel as [|f]; [simpl in Hf; lia|]. pose proof (parse_number_app _ _ _ _ Hw Hr) as Hn.
    apply number_start in Hc as (H1 & H2 & H3 & _ & H4 & H5 & H6). cbn [String.append] in *. cbn [value].
    rewrite H1, H2, H3, H4, H5, H6, Hn. done.
  - cbn [print to_valid_json]. destruct (print_string_parse s rest) as (t & -> & Ht).
    destruct fuel as [|f]; [simpl in Hf; lia|]. cbn [value]. by rewrite Ascii.eqb_refl, Ht.
  - cbn [writable] in Hw. apply andb_true_iff in Hw as [Hd%Z.ltb_lt Hw].
    destruct fuel as [|f]; [simpl in Hf; lia|]. cbn [print] in *. cbn [String.append]. cbn [value].
    change (Ascii.eqb "[" dquote) with false. change (Ascii.eqb "[" "[") with true. cbn iota.
    rewrite (proj2 (Z.leb_gt _ _) Hd). rewrite str_app_assoc. destruct l as [|v l]; [done|].
    cbn [forallb] in Hw. apply andb_true_iff in Hw as Hw1. destruct Hw1 as [Hw1 _].
    destruct (starts_inside (join_with "," (map print (v :: l))) ("]" +:+ rest)) as (c & u & -> & Hu & Hc & _);
      [by apply join_starts, (print_start (d + 1))|].
    rewrite Hc, <-Hu. cbn [String.append].
    rewrite elements_read; [done|done|done|done|].
    cbn [String.length] in Hf. rewrite str_length_app in Hf. cbn [String.length] in Hf. lia.
  - cbn [writable] in Hw. apply andb_true_iff in Hw as [Hd%Z.ltb_lt Hw].
    destruct fuel as [|f]; [simpl in Hf; lia|]. rewrite print_obj in *. cbn [String.append]. cbn [value].
    change (Ascii.eqb "{" dquote) with false. change (Ascii.eqb "{" "[") with false.
    change (Ascii.eqb "{" "{") with true. cbn iota.
    rewrite (proj2 (Z.leb_gt _ _) Hd). rewrite str_app_assoc. destruct m as [|x m]; [done|].
    destruct (starts_inside (join_with "," (map print_member (x :: m))) ("}" +:+ rest)) as (c & u & -> & Hu & _ & Hc);
      [by apply join_starts, member_starts|].
    rewrite Hc, <-Hu. cbn [String.append].
    rewrite members_read; [done|done|done|done|].
    cbn [String.length] in Hf. rewrite str_length_app in Hf. cbn [String.length] in Hf. lia.
Qed.

(** What [Marshal] writes, [Unmarshal] reads back. *)
Lemma parse_print (v : json) : writable 0 v = true -> parse_json (print v) = Some (to_valid_json v).
Proof.
  intros Hw. unfold parse_json, parse_prefix, json_fuel.
  rewrite <-(str_app_nil_r (print v)). rewrite (skip_ws_start _ _ (print_start _ _ Hw)).
  rewrite value_read; [done|done| |done]. rewrite str_app_nil_r. lia.
Qed.

(** ** The fuel is enough *)

Abbreviation len := String.length.

Lemma skip_ws_len (s : string) : (len (skip_ws s) <= len s)%nat.
Proof. induction s as [|c s IH]; simpl; [lia|]. case_match; simpl; lia. Qed.

Lemma hex4_len (s r : string) (u : Z) : hex4 s = Some (u, r) -> len s = (len r + 4)%nat.
Proof.
  unfold hex4. intros H. destruct s as [|a [|b [|c [|d s]]]]; try done.
  destruct (hex_value a), (hex_value b), (hex_value c), (hex_value d); simplify_eq/=. lia.
Qed.

Lemma unicode_escape_len (s r : string) (u : Z) : unicode_escape s = Some (u, r) -> (len r < len s)%nat.
Proof.
  unfold unicode_escape. intros H. destruct (hex4 s) as [[v t]|] eqn:E; [|done]. apply hex4_len in E.
  destruct (negb _); [simplify_eq; lia|].
  destruct t as [|b [|v' t']]; [simplify_eq; lia..|].
  destruct (if Ascii.eqb b backslash && Ascii.eqb v' "u" then hex4 t' else None) as [[l r2]|] eqn:E2; [|simplify_eq; lia].
  destruct (_ && _) in E2; [|done]. apply hex4_len in E2. simpl in *.
  destruct (_ && _) in H; simplify_eq; simpl; lia.
Qed.

Lemma str_body_len (f : nat) (s t r : string) : str_body f s = Some (t, r) -> (len r < len s)%nat.
Proof.
  revert s t r. induction f as [|f IH]; intros s t r H; [by destruct s|].
  destruct s as [|c s]; [done|]. cbn [str_body] in H.
  assert (forall (w x : string), (match str_body f x with Some (t, r) => Some (w +:+ t, r) | None => None end) = Some (t, r) ->
    (len x <= len s)%nat -> (len r < len (String c s))%nat) as Hput.
  { intros w x Hx Hl. destruct (str_body f x) as [[t' r']|] eqn:E; [|done]. apply IH in E. simplify_eq/=. lia. }
  destruct (Ascii.eqb c dquote); [simplify_eq/=; lia|].
  destruct (Ascii.eqb c backslash).
  - destruct s as [|e s]; [done|]. destruct (Ascii.eqb e "u").
    + destruct (unicode_escape s) as [[u r']|] eqn:E; [|done]. apply unicode_escape_len in E.
      apply (Hput _ _ H). simpl. lia.
    + destruct (unescape_char e); [|done]. apply (Hput _ _ H). simpl. lia.
  - destruct (byte_of c <? 32); [done|].
    destruct (decode_rune (String c s)) as [[[u w] x]|] eqn:E.
    + apply decode_rune_length in E. simpl in E. apply (Hput _ _ H). lia.
    + apply (Hput _ _ H). lia.
Qed.

Lemma parse_string_len (s t r : string) : parse_string s = Some (t, r) -> (len r < len s)%nat.
Proof. apply str_body_len. Qed.

Lemma take_digits_len (s d r : string) : take_digits s = (d, r) -> len s = (len d + len r)%nat.
Proof.
  revert d r. induction s as [|c s IH]; intros d r H; simpl in H; [by simplify_eq|].
  destruct (is_digit c); [|by simplify_eq]. destruct (take_digits s) as [d' r'] eqn:E. simplify_eq/=.
  by rewrite (IH _ _ eq_refl).
Qed.

Lemma digits1_len (s d r : string) : digits1 s = Some (d, r) -> (len r < len s)%nat.
Proof.
  unfold digits1. destruct (take_digits s) as [d' r'] eqn:E. apply take_digits_len in E.
  destruct (String.eqb d' EmptyString) eqn:E2; [done|]. intros H. simplify_eq. destruct d; [done|]. simpl in E. lia.
Qed.

Lemma parse_number_len (s n r : string) : parse_number s = Some (n, r) -> (len r < len s)%nat.
Proof.
  assert (forall s i r, int_part s = Some (i, r) -> (len r < len s)%nat) as Hi.
  { intros [|c x] i y H; [done|]. cbn [int_part] in H. destruct (Ascii.eqb c "0"); [simplify_eq/=; lia|].
    by apply digits1_len in H. }
  assert (forall s i r, frac_part s = Some (i, r) -> (len r <= len s)%nat) as Hf.
  { intros [|c x] i y H; cbn [frac_part] in H; [by simplify_eq|]. destruct (Ascii.eqb c "."); [|by simplify_eq].
    destruct (digits1 x) as [[d z]|] eqn:E; [|done]. apply digits1_len in E. simplify_eq/=. lia. }
  assert (forall s i r, exp_part s = Some (i, r) -> (len r <= len s)%nat) as He.
  { intros [|c x] i y H; cbn [exp_part] in H; [by simplify_eq|]. destruct (_ || _) in H; [|by simplify_eq].
    destruct x as [|g x]; [done|]. destruct (_ || _) in H.
    - destruct (digits1 x) as [[d z]|] eqn:E; [|done]. apply digits1_len in E. simplify_eq/=. lia.
    - destruct (digits1 (String g x)) as [[d z]|] eqn:E; [|done]. apply digits1_len in E. simplify_eq/=. lia. }
  unfold parse_number. intros H.
  assert (forall (sg x : string), (len x <= len s)%nat -> match int_part x with
    | Some (i, s2) => match frac_part s2 with
        | Some (f, s3) => match exp_part s3 with
            | Some (e, s4) => Some (sg +:+ (i +:+ (f +:+ e)), s4) | None => None end
        | None => None end
    | None => None end = Some (n, r) -> (len r < len s)%nat) as Hx.
  { intros sg x Hl Hm. destruct (int_part x) as [[i s2]|] eqn:E1; [|done]. apply Hi in E1.
    destruct (frac_part s2) as [[f s3]|] eqn:E2; [|done]. apply Hf in E2.
    destruct (exp_part s3) as [[e s4]|] eqn:E3; [|done]. apply He in E3. simplify_eq. lia. }
  destruct s as [|c s]; [by apply (Hx EmptyString EmptyString)|].
  destruct (Ascii.eqb c "-"); (eapply Hx; [|exact H]); simpl; lia.
Qed.

Lemma cut_prefix_len (p s r : string) : cut_prefix p s = Some r -> len s = (len p + len r)%nat.
Proof. intros ->%cut_prefix_Some. by rewrite str_length_app. Qed.

(** What each of the three functions reads is not empty. *)
Lemma reads_len (f : nat) :
  (forall d s v r, value f d s = Some (v, r) -> (len r < len s)%nat) /\
  (forall d s l r, elements f d s = Some (l, r) -> (len r < len s)%nat) /\
  (forall d s m r, members f d s = Some (m, r) -> (len r < len s)%nat).
Proof.
  induction f as [|f (IHv & IHe & IHm)]; [by repeat split; intros d [|c s] ? ?|].
  repeat split; intros d s x r H.
  - destruct s as [|c s]; [done|]. pose proof (skip_ws_len s) as Hs. cbn [value] in H.
    destruct (Ascii.eqb c dquote).
    { destruct (parse_string s) as [[t r']|] eqn:E; [|done]. apply parse_string_len in E. simplify_eq/=. lia. }
    destruct (Ascii.eqb c "[").
    { destruct (_ <=? d); [done|]. destruct (skip_ws s) as [|e t] eqn:E; [done|].
      destruct (Ascii.eqb e "]"); [simplify_eq/=; lia|].
      destruct (elements f (d + 1) (String e t)) as [[l r']|] eqn:E2; [|done]. apply IHe in E2. simplify_eq/=. lia. }
    destruct (Ascii.eqb c "{").
    { destruct (_ <=? d); [done|]. destruct (skip_ws s) as [|e t] eqn:E; [done|].
      destruct (Ascii.eqb e "}"); [simplify_eq/=; lia|].
      destruct (members f (d + 1) (String e t)) as [[l r']|] eqn:E2; [|done]. apply IHm in E2. simplify_eq/=. lia. }
    repeat (let E := fresh "E" in destruct (cut_prefix _ (String c s)) eqn:E in H;
      [apply cut_prefix_len in E; cbn [String.length] in *; simplify_eq; lia|clear E]).
    destruct (parse_number (String c s)) as [[n r']|] eqn:E; [|done]. apply parse_number_len in E. by simplify_eq.
  - cbn [elements] in H. destruct (value f d s) as [[v r1]|] eqn:E1; [|done]. apply IHv in E1.
    pose proof (skip_ws_len r1) as H1. destruct (skip_ws r1) as [|c r2]; [done|]. simpl in H1.
    destruct (Ascii.eqb c "]"); [simplify_eq; lia|]. destruct (Ascii.eqb c ","); [|done].
    destruct (elements f d (skip_ws r2)) as [[l r3]|] eqn:E2; [|done]. apply IHe in E2.
    pose proof (skip_ws_len r2). simplify_eq. lia.
  - destruct s as [|q s]; [done|]. cbn [members] in H. destruct (negb _); [done|].
    destruct (parse_string s) as [[k r0]|] eqn:E0; [|done]. apply parse_string_len in E0.
    pose proof (skip_ws_len r0) as H0. destruct (skip_ws r0) as [|c r1]; [done|]. simpl in H0.
    destruct (negb _); [done|]. pose proof (skip_ws_len r1) as H1.
    destruct (value f d (skip_ws r1)) as [[v r2]|] eqn:E1; [|done]. apply IHv in E1.
    pose proof (skip_ws_len r2) as H2. destruct (skip_ws r2) as [|e r3]; [done|]. simpl in H2 |- *.
    destruct (Ascii.eqb e "}"); [simplify_eq; lia|]. destruct (Ascii.eqb e ","); [|done].
    destruct (members f d (skip_ws r3)) as [[l r4]|] eqn:E2; [|done]. apply IHm in E2.
    pose proof (skip_ws_len r3). simplify_eq. lia.
Qed.

(** Past twice the bytes that are left, more fuel reads nothing more. *)
Lemma fuel_enough (n : nat) :
  (forall f1 f2 d s, (len s <= n)%nat -> (2 * n + 1 <= f1)%nat -> (2 * n + 1 <= f2)%nat ->
     value f1 d s = value f2 d s) /\
  (forall f1 f2 d s, (len s <= n)%nat -> (2 * n + 2 <= f1)%nat -> (2 * n + 2 <= f2)%nat ->
     elements f1 d s = elements f2 d s) /\
  (forall f1 f2 d s, (len s <= n)%nat -> (2 * n + 1 <= f1)%nat -> (2 * n + 1 <= f2)%nat ->
     members f1 d s = members f2 d s).
Proof.
  induction n as [n IH] using lt_wf_ind.
  assert (forall f1 f2 d s, (len s <= n)%nat -> (2 * n + 1 <= f1)%nat -> (2 * n + 1 <= f2)%nat ->
     value f1 d s = value f2 d s) as Hv.
  { intros [|f1] [|f2] d s Hs H1 H2; try lia. destruct s as [|c s]; [done|]. simpl in Hs.
    pose proof (skip_ws_len s) as Hw. cbn [value].
    destruct (IH (n - 1)%nat) as (_ & He & Hm); [lia|].
    destruct (skip_ws s) as [|e t] eqn:E; [done|]. simpl in Hw.
    rewrite (He f1 f2), (Hm f1 f2) by (cbn [String.length]; lia). done. }
  assert (forall f1 f2 d s, (len s < n)%nat -> (2 * n <= f1)%nat -> (2 * n <= f2)%nat ->
     value f1 d s = value f2 d s) as Hv'.
  { intros f1 f2 d s Hs H1 H2. destruct (IH (n - 1)%nat) as (Hv' & _); [lia|]. apply Hv'; lia. }
  split; [done|]. split.
  - intros [|f1] [|f2] d s Hs H1 H2; try lia. cbn [elements]. rewrite (Hv f1 f2) by lia.
    destruct (value f2 d s) as [[v r]|] eqn:E; [|done]. apply reads_len in E.
    pose proof (skip_ws_len r). destruct (skip_ws r) as [|c r']; [done|]. simpl in *.
    pose proof (skip_ws_len r'). destruct (IH (n - 1)%nat) as (_ & He & _); [lia|].
    rewrite (He f1 f2) by lia. done.
  - intros [|f1] [|f2] d s Hs H1 H2; try lia. destruct s as [|q s]; [done|]. simpl in Hs. cbn [members].
    destruct (negb _); [done|]. destruct (parse_string s) as [[k r0]|] eqn:E0; [|done]. apply parse_string_len in E0.
    pose proof (skip_ws_len r0) as H0. destruct (skip_ws r0) as [|c r1]; [done|]. simpl in H0.
    destruct (negb _); [done|]. pose proof (skip_ws_len r1) as H3. rewrite (Hv' f1 f2) by lia.
    destruct (value f2 d (skip_ws r1)) as [[v r2]|] eqn:E1; [|done]. apply reads_len in E1.
    pose proof (skip_ws_len r2) as H4. destruct (skip_ws r2) as [|e r3]; [done|]. simpl in H4.
    pose proof (skip_ws_len r3). destruct (IH (n - 1)%nat) as (_ & _ & Hm); [lia|].
    rewrite (Hm f1 f2) by lia. done.
Qed.

(** A text is read to its end: no more fuel than [json_fuel] changes the answer. *)
Lemma json_fuel_enough (s : string) (fuel : nat) (d : Z) :
  (json_fuel s <= fuel)%nat -> value fuel d s = value (json_fuel s) d s.
Proof. unfold json_fuel. intros H. apply (fuel_enough (len s)); lia. Qed.

(** What is read with less fuel, or deeper, is read the same. *)
Lemma reads_more (f : nat) :
  (forall g d d' s x, (f <= g)%nat -> d' <= d -> value f d s = Some x -> value g d' s = Some x) /\
  (forall g d d' s x, (f <= g)%nat -> d' <= d -> elements f d s = Some x -> elements g d' s = Some x) /\
  (forall g d d' s x, (f <= g)%nat -> d' <= d -> members f d s = Some x -> members g d' s = Some x).
Proof.
  induction f as [|f (IHv & IHe & IHm)]; [by repeat split; intros ? ? ? [|c s] ? ? ? ?|].
  repeat split; intros [|g] d d' s x Hg Hd H; try lia.
  - destruct s as [|c s]; [done|]. cbn [value] in H |- *.
    destruct (Ascii.eqb c dquote); [done|]. destruct (Ascii.eqb c "[").
    { destruct (maxNestingDepth <=? d) eqn:Ed; [done|]. rewrite (proj2 (Z.leb_gt _ d')) by (to_prop; lia).
      destruct (skip_ws s) as [|e t]; [done|]. destruct (Ascii.eqb e "]"); [done|].
      destruct (elements f (d + 1) _) as [p|] eqn:E2; [|done]. by rewrite (IHe g (d + 1) (d' + 1) _ p) by (try lia; done). }
    destruct (Ascii.eqb c "{"); [|done].
    destruct (maxNestingDepth <=? d) eqn:Ed; [done|]. rewrite (proj2 (Z.leb_gt _ d')) by (to_prop; lia).
    destruct (skip_ws s) as [|e t]; [done|]. destruct (Ascii.eqb e "}"); [done|].
    destruct (members f (d + 1) _) as [p|] eqn:E2; [|done]. by rewrite (IHm g (d + 1) (d' + 1) _ p) by (try lia; done).
  - cbn [elements] in H |- *. destruct (value f d s) as [p|] eqn:E1; [|done].
    rewrite (IHv g d d' s p) by (try lia; done). destruct p as [v r1].
    destruct (skip_ws r1) as [|c r2]; [done|]. destruct (Ascii.eqb c "]"); [done|]. destruct (Ascii.eqb c ","); [|done].
    destruct (elements f d _) as [p|] eqn:E2; [|done]. by rewrite (IHe g d d' _ p) by (try lia; done).
  - destruct s as [|q s]; [done|]. cbn [members] in H |- *. destruct (negb _); [done|].
    destruct (parse_string s) as [[k r0]|]; [|done]. destruct (skip_ws r0) as [|c r1]; [done|].
    destruct (negb _); [done|]. destruct (value f d _) as [p|] eqn:E1; [|done].
    rewrite (IHv g d d' _ p) by (try lia; done). destruct p as [v r2].
    destruct (skip_ws r2) as [|e r3]; [done|]. destruct (Ascii.eqb e "}"); [done|]. destruct (Ascii.eqb e ","); [|done].
    destruct (members f d _) as [p|] eqn:E2; [|done]. by rewrite (IHm g d d' _ p) by (try lia; done).
Qed.

(** A value read anywhere in a text is the one the text from there starts with. *)
Lemma value_prefix (f : nat) (d : Z) (s r : string) (v : json) :
  0 <= d -> value f d (skip_ws s) = Some (v, r) -> parse_prefix s = Some (v, r).
Proof.
  intros Hd H. unfold parse_prefix. destruct (Nat.le_ge_cases f (json_fuel (skip_ws s))) as [Hf|Hf].
  - by apply (proj1 (reads_more f) (json_fuel (skip_ws s)) d 0).
  - rewrite <-(json_fuel_enough _ f) by done. by apply (proj1 (reads_more f) f d 0).
Qed.
