(* ===== verification/Gcm.v ===== *)
(** * AES-256-GCM

    crypto/aes and crypto/cipher as the session cookies use them: AES with a
    256-bit key (FIPS 197) and GCM with a 96-bit nonce and a 128-bit tag (NIST
    SP 800-38D), checked on the published vectors; and that opening what was
    sealed gives the plaintext back. *)

From S2P Require Import Prelude Base64 Sha256.

(** ** The field of the S-box *)

(** Multiplication by x modulo x^8 + x^4 + x^3 + x + 1. *)
Definition xtime (b : Z) : Z :=
  let t := Z.shiftl b 1 in if Z.testbit b 7 then Z.land (Z.lxor t 27) 255 else t.

Fixpoint gmul (n : nat) (a b : Z) : Z :=
  match n with
  | O => 0
  | S n' => Z.lxor (if Z.odd b then a else 0) (gmul n' (xtime a) (Z.shiftr b 1))
  end.
Definition gf_mul : Z -> Z -> Z := gmul 8.

(** The inverse is the 254th power, zero for zero. *)
Definition gf_inv (a : Z) : Z :=
  let a2 := gf_mul a a in let a3 := gf_mul a2 a in let a6 := gf_mul a3 a3 in let a7 := gf_mul a6 a in
  let a14 := gf_mul a7 a7 in let a15 := gf_mul a14 a in let a30 := gf_mul a15 a15 in let a31 := gf_mul a30 a in
  let a62 := gf_mul a31 a31 in let a63 := gf_mul a62 a in let a126 := gf_mul a63 a63 in
  let a127 := gf_mul a126 a in gf_mul a127 a127.

Definition rotl8 (k b : Z) : Z := Z.land (Z.lor (Z.shiftl b k) (Z.shiftr b (8 - k))) 255.
Definition sub_byte (a : Z) : Z :=
  let b := gf_inv a in
  Z.lxor (Z.lxor (Z.lxor b (rotl8 1 b)) (Z.lxor (rotl8 2 b) (rotl8 3 b))) (Z.lxor (rotl8 4 b) 99).

Definition sbox : list Z := Eval vm_compute in map (fun n => sub_byte (Z.of_nat n)) (seq 0 256).
Definition SubByte (b : Z) : Z := nth (Z.to_nat b) sbox 0.

(** ** AES-256

    The state is the sixteen bytes in order, a column every four. *)

Definition xor_bytes (a b : list Z) : list Z := zip_with Z.lxor a b.

Definition SubBytes (s : list Z) : list Z := map SubByte s.

(** Row [r] turns left by [r]. *)
Definition ShiftRows (s : list Z) : list Z :=
  map (fun i => nth ((i + 4 * (i mod 4)) mod 16)%nat s 0) (seq 0 16).

Definition mix_column (c : list Z) : list Z :=
  match c with
  | [a; b; c; d] =>
      let two := xtime in let three x := Z.lxor (xtime x) x in
      [Z.lxor (Z.lxor (two a) (three b)) (Z.lxor c d); Z.lxor (Z.lxor a (two b)) (Z.lxor (three c) d);
       Z.lxor (Z.lxor a b) (Z.lxor (two c) (three d)); Z.lxor (Z.lxor (three a) b) (Z.lxor c (two d))]
  | _ => c
  end.
Definition columns (s : list Z) : list (list Z) := chunks 4 4 s.
Definition MixColumns (s : list Z) : list Z := mjoin (map mix_column (columns s)).

(** The key schedule: sixty words, the last first; [i] counts the words made. *)
Definition rot_word (w : list Z) : list Z := match w with a :: r => r ++ [a] | [] => [] end.
Fixpoint rcon (n : nat) : Z := match n with O => 1 | S n' => xtime (rcon n') end.
Fixpoint expand (n : nat) (i : nat) (w : list (list Z)) : list (list Z) :=
  match n with
  | O => w
  | S n' =>
      let temp := nth 0 w [] in
      let temp :=
        if (i mod 8 =? 0)%nat then xor_bytes (SubBytes (rot_word temp)) [rcon (i / 8 - 1); 0; 0; 0]
        else if (i mod 8 =? 4)%nat then SubBytes temp
        else temp in
      expand n' (S i) (xor_bytes (nth 7 w []) temp :: w)
  end.
Definition KeyExpansion (key : list Z) : list (list Z) :=
  chunks 15 16 (mjoin (rev (expand 52 8 (rev (chunks 8 4 key))))).

(** The middle rounds and the last. *)
Fixpoint rounds (keys : list (list Z)) (s : list Z) : list Z :=
  match keys with
  | [] => s
  | [k] => xor_bytes (ShiftRows (SubBytes s)) k
  | k :: keys' => rounds keys' (xor_bytes (MixColumns (ShiftRows (SubBytes s))) k)
  end.
Definition encrypt_block (keys : list (list Z)) (b : list Z) : list Z :=
  match keys with
  | [] => b
  | k :: keys' => rounds keys' (xor_bytes b k)
  end.

(** ** GCM *)

(** The product in GF(2^128), the leftmost bit the constant coefficient. *)
Fixpoint ghash_mul (n : nat) (x v : Z) : Z :=
  match n with
  | O => 0
  | S n' =>
      Z.lxor (if Z.testbit x (Z.of_nat n') then v else 0)
        (ghash_mul n' x
           (if Z.odd v then Z.lxor (Z.shiftr v 1) (Z.shiftl 225 120) else Z.shiftr v 1))
  end.

Definition pad16 (l : list Z) : list Z := l ++ repeat 0 ((16 - length l mod 16) mod 16)%nat.
Definition ghash (h : Z) (blocks : list (list Z)) : Z :=
  fold_left (fun y b => ghash_mul 128 (Z.lxor y (be_word b)) h) blocks 0.

Definition of_bytes (l : list Z) : string := fold_right (fun b s => String (of_byte b) s) EmptyString l.

Definition cipher_key (key : string) : list (list Z) := KeyExpansion (bytes_of key).

(** The block the cipher makes of the nonce and a counter. *)
Definition counter_block (keys : list (list Z)) (nonce : string) (n : Z) : string :=
  of_bytes (encrypt_block keys (bytes_of nonce ++ be_bytes 4 n)).

Definition xor_char (a b : ascii) : ascii := of_byte (Z.lxor (byte_of a) (byte_of b)).

(** A block of the stream against the text: what is left of the text past the
    block, to go with the next. *)
Fixpoint xor_stream (s ks : string) (next : string -> string) : string :=
  match s, ks with
  | String a s', String b ks' => String (xor_char a b) (xor_stream s' ks' next)
  | EmptyString, _ => EmptyString
  | _, EmptyString => next s
  end.

(** The counter mode, from counter [n]; one unit of fuel a block. *)
Fixpoint gctr (fuel : nat) (keys : list (list Z)) (nonce : string) (n : Z) (s : string) : string :=
  match fuel with
  | O => s
  | S f => xor_stream s (counter_block keys nonce n) (gctr f keys nonce (n + 1))
  end.
Definition ctr_mode (keys : list (list Z)) (nonce s : string) : string :=
  gctr (String.length s / 16 + 1) keys nonce 2 s.

Definition gcm_tag (keys : list (list Z)) (nonce ad c : string) : string :=
  let h := be_word (encrypt_block keys (repeat 0 16)) in
  let a := bytes_of ad in let c := bytes_of c in
  let lens := be_bytes 8 (8 * Z.of_nat (length a)) ++ be_bytes 8 (8 * Z.of_nat (length c)) in
  let data := pad16 a ++ pad16 c ++ lens in
  xor_stream (of_bytes (be_bytes 16 (ghash h (chunks (length data) 16 data))))
    (counter_block keys nonce 1) (fun s => s).

Definition tagSize : nat := 16.

(** [Seal] and [Open] of the AEAD [cipher.NewGCM] gives over a key. *)
Definition Seal (key nonce plaintext ad : string) : string :=
  let keys := cipher_key key in
  let c := ctr_mode keys nonce plaintext in
  c +:+ gcm_tag keys nonce ad c.
Definition Open (key nonce sealed ad : string) : option string :=
  let keys := cipher_key key in
  let n := (String.length sealed - tagSize)%nat in
  if (String.length sealed <? tagSize)%nat then None
  else
    let c := String.substring 0 n sealed in
    if String.eqb (String.substring n tagSize sealed) (gcm_tag keys nonce ad c)
    then Some (ctr_mode keys nonce c) else None.

(** ** The published vectors *)

Fixpoint hex_bytes (s : string) : list Z :=
  match s with
  | String a (String b r) =>
      match hex_value a, hex_value b with
      | Some x, Some y => Z.of_nat (16 * x + y) :: hex_bytes r
      | _, _ => []
      end
  | _ => []
  end.
Definition unhex (s : string) : string := of_bytes (hex_bytes s).

Example aes256_vector :
  hex_encode (encrypt_block
    (KeyExpansion (hex_bytes "000102030405060708090a0b0c0d0e0f101112131415161718191a1b1c1d1e1f"))
    (hex_bytes "00112233445566778899aabbccddeeff")) = "8ea2b7ca516745bfeafc49904b496089"%string.
Proof. vm_compute. reflexivity. Qed.

Example gcm_vector :
  hex_encode (bytes_of (Seal (unhex "feffe9928665731c6d6a8f9467308308feffe9928665731c6d6a8f9467308308")
    (unhex "cafebabefacedbaddecaf888")
    (unhex "d9313225f88406e5a55909c5aff5269a86a7a9531534f7da2e4c303d8a318a721c3c0c95956809532fcf0e2449a6b525b16aedf5aa0de657ba637b39")
    (unhex "feedfacedeadbeeffeedfacedeadbeefabaddad2")))
  = "522dc1f099567d07f47f37a32a84427d643a8cdcbfe5c0c97598a2bd2555d1aa8cb08e48590dbb3da7b08b1056828838c5f61e6393ba7a0abcc9f66276fc6ece0f4e1768cddf8853bb2d551b"%string.
Proof. vm_compute. reflexivity. Qed.

(** ** Opening what was sealed *)

Lemma xor_char_twice (a b : ascii) : xor_char (xor_char a b) b = a.
Proof.
  unfold xor_char. pose proof (byte_range a) as Ha. pose proof (byte_range b) as Hb.
  assert (0 <= Z.lxor (byte_of a) (byte_of b) < 256) as Hx.
  { split; [apply Z.lxor_nonneg; lia|].
    destruct (Z.eq_dec (Z.lxor (byte_of a) (byte_of b)) 0) as [->|Hn]; [lia|].
    apply (Z.log2_lt_pow2 _ 8); [pose proof (proj2 (Z.lxor_nonneg (byte_of a) (byte_of b))); lia|].
    eapply Z.le_lt_trans; [apply Z.log2_lxor; lia|].
    apply Z.max_lub_lt; (destruct (Z.eq_dec (byte_of a) 0), (Z.eq_dec (byte_of b) 0);
      try (apply Z.log2_lt_pow2; lia); simpl; rewrite ?Z.log2_nonpos by lia; lia). }
  rewrite byte_of_of by done. rewrite Z.lxor_assoc, Z.lxor_nilpotent, Z.lxor_0_r. apply of_byte_of.
Qed.

Section stream.
Variable next : string -> string.

Lemma xor_stream_length (s ks : string) :
  (forall t, String.length (next t) = String.length t) ->
  String.length (xor_stream s ks next) = String.length s.
Proof.
  intros H. revert ks. induction s as [|a s IH]; intros [|b ks]; cbn [xor_stream]; [done|done|apply H|].
  cbn [String.length]. by rewrite IH.
Qed.

Lemma xor_stream_twice (s ks : string) :
  (forall t, String.length (next t) = String.length t) -> (forall t, next (next t) = t) ->
  xor_stream (xor_stream s ks next) ks next = s.
Proof.
  intros Hl Hn. revert ks. induction s as [|a s IH]; intros [|b ks]; cbn [xor_stream]; [done|done| |].
  - destruct (next (String a s)) as [|c t] eqn:E; [|cbn [xor_stream]; by rewrite <-E].
    specialize (Hl (String a s)). by rewrite E in Hl.
  - by rewrite xor_char_twice, IH.
Qed.
End stream.

Lemma gctr_involution (fuel : nat) (keys : list (list Z)) (nonce : string) (n : Z) :
  (forall s, String.length (gctr fuel keys nonce n s) = String.length s) /\
  (forall s, gctr fuel keys nonce n (gctr fuel keys nonce n s) = s).
Proof.
  revert n. induction fuel as [|f IH]; intros n; [done|]. destruct (IH (n + 1)) as [Hl Hi].
  split; intros s; cbn [gctr]; [by apply xor_stream_length|by apply xor_stream_twice].
Qed.

Lemma ctr_mode_length (keys : list (list Z)) (nonce s : string) :
  String.length (ctr_mode keys nonce s) = String.length s.
Proof. apply gctr_involution. Qed.

Lemma ctr_mode_twice (keys : list (list Z)) (nonce s : string) :
  ctr_mode keys nonce (ctr_mode keys nonce s) = s.
Proof. unfold ctr_mode at 1. rewrite ctr_mode_length. apply gctr_involution. Qed.

Lemma of_bytes_length (l : list Z) : String.length (of_bytes l) = length l.
Proof. unfold of_bytes. induction l as [|b l IH]; [done|]. cbn [fold_right String.length]. by rewrite IH. Qed.

Lemma be_bytes_length (n : nat) (z : Z) : length (be_bytes n z) = n.
Proof. induction n as [|n IH]; [done|]. cbn [be_bytes length]. by rewrite IH. Qed.

Lemma gcm_tag_length (keys : list (list Z)) (nonce ad c : string) :
  String.length (gcm_tag keys nonce ad c) = tagSize.
Proof. unfold gcm_tag. rewrite xor_stream_length by done. by rewrite of_bytes_length, be_bytes_length. Qed.

Lemma Seal_length (key nonce p ad : string) :
  String.length (Seal key nonce p ad) = (String.length p + tagSize)%nat.
Proof. unfold Seal. by rewrite str_length_app, ctr_mode_length, gcm_tag_length. Qed.

(** What was sealed opens under the same key, nonce and associated data. *)
Lemma Open_Seal (key nonce p ad : string) : Open key nonce (Seal key nonce p ad) ad = Some p.
Proof.
  unfold Open. rewrite Seal_length. destruct (_ <? tagSize)%nat eqn:E; [apply Nat.ltb_lt in E; lia|].
  replace (String.length p + tagSize - tagSize)%nat with (String.length p) by lia.
  unfold Seal. set (keys := cipher_key key). set (c := ctr_mode keys nonce p).
  replace (String.length p) with (String.length c) by apply ctr_mode_length.
  rewrite substring_app_l. rewrite <-(gcm_tag_length keys nonce ad c), substring_app_r.
  rewrite String.eqb_refl. f_equal. apply ctr_mode_twice.
Qed.

#[global] Arguments Seal : simpl never.
#[global] Arguments Open : simpl never.
