(* ===== verification/Settings.v ===== *)
(** * The configuration and its validation

    src/internal/config/config.go and users.go past the PGO block (Config.v): the
    authentication blocks, realms, selections, TLS and the listeners, the rules
    that relate one key to another, normalization, and the refusal of overrides
    whose block is absent.  A refusal names the key, and what was wrong with it;
    the sentences are not modelled.  The YAML decoder, the file system, the
    certificate parser and the validators of apimachinery are arguments. *)

From S2P Require Import Prelude Config Discovery Routes Query Base64 Url.
From S2P Require Listing.

(** ** Refusals *)

Inductive why :=
  | Required | MustBeAbsent | NotARealm | Duplicate | BadLength | BadValue | TooFew | Unreadable
  | Mismatch | NotHTTPS | NoHost | HasUserinfo | HasFragment | HasQuery | BadPath | NotABcryptHash
  | CostOutOfRange | CostDiffers | RemovedKey | OverrideWithoutBlock | ZeroPort | NotYAML.

#[export] Instance why_eq_dec : EqDecision why.
Proof. solve_decision. Defined.

Record fault := { f_key : string; f_why : why }.
#[export] Instance fault_eq_dec : EqDecision fault.
Proof. solve_decision. Defined.

Definition at_key (k : string) (w : why) : option fault := Some {| f_key := k; f_why := w |}.
Definition refuse_if (b : bool) (k : string) (w : why) : option fault := if b then at_key k w else None.

(** The first refusal, in the order of the code. *)
Definition or_else (a b : option fault) : option fault := match a with Some f => Some f | None => b end.
Notation "a 'orelse' b" := (or_else a b) (at level 62, right associativity).

Fixpoint first_fault {A} (f : A -> option fault) (l : list A) : option fault :=
  match l with
  | [] => None
  | x :: l' => f x orelse first_fault f l'
  end.

(** [firstDuplicate]: an entry that appears earlier in the list. *)
Fixpoint duplicate_after {A} `{EqDecision A} (earlier l : list A) : option A :=
  match l with
  | [] => None
  | x :: l' => if decide (x ∈ earlier) then Some x else duplicate_after (earlier ++ [x]) l'
  end.
Definition firstDuplicate {A} `{EqDecision A} (l : list A) : option A := duplicate_after [] l.

Definition is_empty (s : string) : bool := String.eqb s EmptyString.
Definition len_outside (lo hi : Z) (s : string) : bool := (byte_len s <? lo) || (hi <? byte_len s).
Definition indexed (key : string) (i : nat) : string := key +:+ "[" +:+ pretty (Z.of_nat i) +:+ "]".

(** ** The blocks *)

Record TLSConfig := { tls_CertFile : string; tls_KeyFile : string }.
(** [TLSConfig.Enabled]. *)
Definition Enabled (t : TLSConfig) : bool := negb (is_empty (tls_CertFile t)).

Record ServerConfig := {
  srv_Listen : string;
  srv_OpsListen : string;
  srv_LogLevel : string;
  srv_DrainDelay : duration;
  srv_TLS : TLSConfig
}.

Record DiscoveryConfig := { disc_VersionLabel : string; disc_Pprof : PprofConfig }.

Record BasicUser := { bu_Name : string; bu_PasswordHash : string; bu_Realm : string }.
Record BasicConfig := {
  bc_Users : list BasicUser;
  bc_UsersFile : string;
  bc_AllowPlaintext : bool;
  bc_MaxConcurrent : Z
}.

Record OIDCMappingEntry := { me_Name : string; me_Realm : string }.
Record OIDCMapping := {
  map_Users : list OIDCMappingEntry;
  map_Groups : list OIDCMappingEntry;
  map_DefaultRealm : string
}.
Record OIDCBrowser := {
  br_ClientID : string;
  br_ClientSecretFile : string;
  br_RedirectURL : string;
  br_Scopes : list string;
  br_CookieKeyFile : string;
  br_SessionTTL : duration;
  br_TransactionTTL : duration
}.
Record OIDCCLI := { cli_ClientID : string; cli_Scopes : list string; cli_PKCE : bool }.
Record OIDCConfig := {
  oidc_Issuer : string;
  oidc_Audience : string;
  oidc_TokenType : string;
  oidc_UsernameClaim : string;
  oidc_GroupsClaim : string;
  oidc_CAFile : string;
  oidc_HTTPProxy : string;
  oidc_ClockSkew : duration;
  oidc_JWKSRefresh : duration;
  oidc_JWKSRefreshMin : duration;
  oidc_JWKSMaxStale : duration;
  oidc_Mapping : OIDCMapping;
  oidc_Browser : option OIDCBrowser;
  oidc_CLI : option OIDCCLI
}.
Record AuthConfig := {
  auth_Mode : string;
  auth_AnonymousRealm : string;
  auth_Basic : option BasicConfig;
  auth_OIDC : option OIDCConfig
}.

(** [Config]. *)
Record Settings := {
  s_Server : ServerConfig;
  s_Discovery : DiscoveryConfig;
  s_Limits : LimitsConfig;
  s_Auth : AuthConfig;
  s_NATS : NATSConfig;
  s_PGO : PGOConfig;
  s_UI : bool;
  s_Realms : gmap string Realm
}.

Definition ModeDisabled : string := "disabled".
Definition ModeBasic : string := "basic".
Definition ModeOIDC : string := "oidc".

Definition defaultPprofPort : Z := 6060.
Definition maxAudienceBytes : Z := 256.
Definition maxMappingNameBytes : Z := 256.
Definition callbackPath : string := "/auth/callback".
Definition maxClientSecretBytes : Z := 1024.
Definition maxScopeBytes : Z := 64.
Definition openidScope : string := "openid".
Definition defaultScopes : list string := [openidScope; "profile"; "email"]%string.
Definition cliScopes : list string := [openidScope; "offline_access"]%string.
Definition proxySchemes : list string := ["http"; "https"; "socks5"]%string.
Definition gracePeriodSlack : duration := 60 * second.

(** [RequiredGracePeriod]. *)
Definition RequiredGracePeriod (c : Settings) : duration :=
  (srv_DrainDelay (s_Server c) +! (Z.max (CPUSeconds (s_Limits c)) (TraceSeconds (s_Limits c)) *! second))
  +! gracePeriodSlack.

(** [SlogLevel], by the number of the level. *)
Definition SlogLevel (s : ServerConfig) : Z :=
  if String.eqb (srv_LogLevel s) "debug" then -4
  else if String.eqb (srv_LogLevel s) "warn" then 4
  else if String.eqb (srv_LogLevel s) "error" then 8
  else 0.

(** ** Selections *)

#[export] Instance Selection_eq_dec : EqDecision Selection.
Proof. solve_decision. Defined.

Definition kind_name (k : selectionKind) : string :=
  match k with SelectionPort => "port" | SelectionPortName => "portName" end.
(** [SelectionKind(name)] of one of the two names. *)
Definition kind_of (s : string) : option selectionKind :=
  if String.eqb s "port" then Some SelectionPort
  else if String.eqb s "portName" then Some SelectionPortName
  else None.
(** [Selection.String]. *)
Definition selection_text (s : Selection) : string := kind_name (sel_Kind s) +:+ ":" +:+ sel_Value s.

(** [strconv.ParseInt(value, 10, 32)]. *)
Definition parse_int32 (s : string) : option Z :=
  n ← atoi s; if (- 2 ^ 31 <=? n) && (n <? 2 ^ 31) then Some n else None.

Section validation.
  Variables IsValidPortName IsQualifiedName IsDNS1123Label : string -> bool.

(** [newSelection]. *)
Definition newSelection (kind : selectionKind) (value : string) : option Selection :=
  if String.eqb value AnySelection then Some {| sel_Kind := kind; sel_Value := value |}
  else
    match kind with
    | SelectionPort =>
        match parse_int32 value with
        | None => None
        | Some n =>
            if (n <? 1) || (65535 <? n) then None
            else Some {| sel_Kind := kind; sel_Value := pretty n |}
        end
    | SelectionPortName =>
        if IsValidPortName value then Some {| sel_Kind := kind; sel_Value := value |} else None
    end.

(** [ParseSelection]. *)
Definition ParseSelection (token : string) : option Selection :=
  '(kind, value) ← cut ":" token; k ← kind_of kind; newSelection k value.

(** [parseSelections]. *)
Definition parseSelections (value : string) : option (list Selection) :=
  if is_empty value then Some []
  else mapM (fun token => let token := trim_space token in
               if is_empty token then None else ParseSelection token) (split_at "," value).

(** A wildcard of a kind beside a concrete entry of it. *)
Definition shadowed (list : list Selection) (kind : selectionKind) : bool :=
  existsb (fun s => bool_decide (sel_Kind s = kind) && String.eqb (sel_Value s) AnySelection) list
  && existsb (fun s => bool_decide (sel_Kind s = kind) && negb (String.eqb (sel_Value s) AnySelection)) list.

(** [validateSelections]. *)
Definition selectionsKey : string := "discovery.pprof.allowedSelections".
Definition validateSelections (list : list Selection) : option fault :=
  refuse_if (bool_decide (is_Some (firstDuplicate list))) selectionsKey Duplicate
  orelse first_fault (fun kind => refuse_if (shadowed list kind) selectionsKey BadValue)
           [SelectionPort; SelectionPortName].

(** ** URLs and scopes *)

Section urls.
  Variable parseHost : string -> string -> option string.

(** [validateHTTPSURL]. *)
Definition validateHTTPSURL (key raw : string) : option fault :=
  match Parse parseHost raw with
  | None => at_key key BadValue
  | Some u =>
      refuse_if (negb (String.eqb (u_Scheme u) "https")) key NotHTTPS
      orelse refuse_if (is_empty (u_Host u)) key NoHost
      orelse refuse_if (u_User u) key HasUserinfo
      orelse refuse_if (negb (is_empty (u_Fragment u))) key HasFragment
  end.

End urls.

(** [isScopeByte]. *)
Definition isScopeByte (c : ascii) : bool :=
  let b := byte_of c in
  (b =? 33) || ((35 <=? b) && (b <=? 91)) || ((93 <=? b) && (b <=? 126)).

(** [validateScopes]. *)
Definition validateScopes (key : string) (scopes : list string) : option fault :=
  refuse_if (negb (bool_decide (openidScope ∈ scopes))) key Required
  orelse first_fault (fun scope =>
           refuse_if (len_outside 1 maxScopeBytes scope) key BadLength
           orelse refuse_if (negb (all_bytes isScopeByte scope)) key BadValue) scopes
  orelse refuse_if (bool_decide (is_Some (firstDuplicate scopes))) key Duplicate.

(** ** Basic users *)

Definition minBcryptCost : Z := 10.
Definition maxBcryptCost : Z := 14.
Definition maxUserNameBytes : Z := 256.

(** [bcryptHash]: the two digits of the cost, where the whole string matches. *)
Definition bcrypt_byte (c : ascii) : bool := is_alnum c || Ascii.eqb c "." || Ascii.eqb c "/".
Definition bcryptHash (s : string) : option string :=
  match cut_prefix "$2" s with
  | Some (String v (String d1 (String a (String b (String d2 rest))))) =>
      if one_of v "aby" && Ascii.eqb d1 "$" && is_digit a && is_digit b && Ascii.eqb d2 "$"
         && (byte_len rest =? 53) && all_bytes bcrypt_byte rest
      then Some (String a (String b EmptyString)) else None
  | _ => None
  end.

(** [hashCost]. *)
Definition hashCost (hash : string) : Z + why :=
  match bcryptHash hash with
  | None => inr NotABcryptHash
  | Some digits =>
      let cost := default 0 (atoi digits) in
      if (cost <? minBcryptCost) || (maxBcryptCost <? cost) then inr CostOutOfRange else inl cost
  end.

(** [validateUserName]. *)
Definition validateUserName (key name : string) (seen : list string) : option fault :=
  refuse_if (len_outside 1 maxUserNameBytes name) (key +:+ ".name") BadLength
  orelse refuse_if (has_byte ":" name) (key +:+ ".name") BadValue
  orelse refuse_if (bool_decide (name ∈ seen)) (key +:+ ".name") Duplicate.

(** One user of [ValidateBasicUsers], after the names and under the cost seen; a
    cost of zero is none yet. *)
Definition check_user (realms : gmap string Realm) (key : string) (user : BasicUser)
    (st : list string * Z) : (list string * Z) + fault :=
  let '(seen, cost) := st in
  match validateUserName key (bu_Name user) seen with
  | Some f => inr f
  | None =>
      match hashCost (bu_PasswordHash user) with
      | inr w => inr {| f_key := key +:+ ".passwordHash"; f_why := w |}
      | inl userCost =>
          if negb (cost =? 0) && negb (userCost =? cost)
          then inr {| f_key := key +:+ ".passwordHash"; f_why := CostDiffers |}
          else if is_empty (bu_Realm user) then inr {| f_key := key +:+ ".realm"; f_why := Required |}
          else if negb (bool_decide (is_Some (realms !! bu_Realm user)))
          then inr {| f_key := key +:+ ".realm"; f_why := NotARealm |}
          else inl (bu_Name user :: seen, userCost)
      end
  end.
Fixpoint check_users (realms : gmap string Realm) (key : string) (i : nat) (users : list BasicUser)
    (st : list string * Z) : (list string * Z) + fault :=
  match users with
  | [] => inl st
  | u :: users' =>
      match check_user realms (indexed key i) u st with
      | inr f => inr f
      | inl st' => check_users realms key (S i) users' st'
      end
  end.

(** [ValidateBasicUsers]: the shared cost. *)
Definition ValidateBasicUsers (inline file : list BasicUser) (realms : gmap string Realm) : Z + fault :=
  match inline ++ file with
  | [] => inr {| f_key := "auth.basic"; f_why := TooFew |}
  | _ =>
      match check_users realms "auth.basic.users" 0 inline ([], 0) with
      | inr f => inr f
      | inl st =>
          match check_users realms "auth.basic.usersFile users" 0 file st with
          | inr f => inr f
          | inl (_, cost) => inl cost
          end
      end
  end.

(** ** The blocks of [validate] *)

(** What the file system and the libraries answer: whether a file opens, what
    reading it gives, whether a PEM file holds a certificate, and what the YAML of
    a users file holds ([ParseUsers]). *)
Record outside := {
  opens : string -> bool;
  reads_file : string -> option string;
  holds_cert : string -> bool;
  ParseUsers : string -> option (list BasicUser);
  host_of : string -> string -> option string
}.
Variable w : outside.

(** [LoadUsersFile]. *)
Definition LoadUsersFile (path : string) : option (list BasicUser) :=
  b ← reads_file w path; ParseUsers w b.

(** [validateTLS]. *)
Definition validateTLS (t : TLSConfig) : option fault :=
  if is_empty (tls_CertFile t) && is_empty (tls_KeyFile t) then None
  else if is_empty (tls_CertFile t) then at_key "server.tls.certFile" Required
  else if is_empty (tls_KeyFile t) then at_key "server.tls.keyFile" Required
  else
    refuse_if (negb (opens w (tls_CertFile t))) "server.tls.certFile" Unreadable
    orelse refuse_if (negb (opens w (tls_KeyFile t))) "server.tls.keyFile" Unreadable.

Definition has_realm (realms : gmap string Realm) (r : string) : bool := bool_decide (is_Some (realms !! r)).

(** [validateBasic]. *)
Definition validateBasic (c : Settings) (b : BasicConfig) : option fault :=
  let judge file :=
    match ValidateBasicUsers (bc_Users b) file (s_Realms c) with
    | inr f => Some f
    | inl _ =>
        refuse_if (negb (Enabled (srv_TLS (s_Server c))) && negb (bc_AllowPlaintext b))
          "auth.basic.allowPlaintext" Required
    end in
  if is_empty (bc_UsersFile b) then judge []
  else
    match LoadUsersFile (bc_UsersFile b) with
    | None => at_key "auth.basic.usersFile" Unreadable
    | Some file => judge file
    end.

(** One entry of a mapping list. *)
Fixpoint check_entries (realms : gmap string Realm) (key : string) (i : nat) (l : list OIDCMappingEntry) :
    option fault :=
  match l with
  | [] => None
  | e :: l' =>
      refuse_if (len_outside 1 maxMappingNameBytes (me_Name e)) (indexed key i +:+ ".name") BadLength
      orelse refuse_if (is_empty (me_Realm e)) (indexed key i +:+ ".realm") Required
      orelse refuse_if (negb (has_realm realms (me_Realm e))) (indexed key i +:+ ".realm") NotARealm
      orelse check_entries realms key (S i) l'
  end.
Definition check_mapping_list (realms : gmap string Realm) (key : string) (l : list OIDCMappingEntry) :
    option fault :=
  check_entries realms key 0 l
  orelse refuse_if (bool_decide (is_Some (firstDuplicate (map me_Name l)))) key Duplicate.

(** [validateMapping]. *)
Definition validateMapping (m : OIDCMapping) (realms : gmap string Realm) : option fault :=
  refuse_if (bool_decide (map_Users m = []) && bool_decide (map_Groups m = []) && is_empty (map_DefaultRealm m))
    "auth.oidc.mapping" Required
  orelse check_mapping_list realms "auth.oidc.mapping.users" (map_Users m)
  orelse check_mapping_list realms "auth.oidc.mapping.groups" (map_Groups m)
  orelse refuse_if (negb (is_empty (map_DefaultRealm m)) && negb (has_realm realms (map_DefaultRealm m)))
           "auth.oidc.mapping.defaultRealm" NotARealm.

(** [validateCLI]. *)
Definition validateCLI (o : OIDCConfig) (cli : OIDCCLI) : option fault :=
  refuse_if (len_outside 1 maxAudienceBytes (cli_ClientID cli)) "auth.oidc.cli.clientID" BadLength
  orelse refuse_if (String.eqb (oidc_TokenType o) "id" && negb (String.eqb (cli_ClientID cli) (oidc_Audience o)))
           "auth.oidc.cli.clientID" Mismatch
  orelse validateScopes "auth.oidc.cli.scopes" (cli_Scopes cli)
  orelse refuse_if (String.eqb (oidc_TokenType o) "id" &&
           match oidc_Browser o with Some b => negb (is_empty (br_ClientSecretFile b)) | None => false end)
           "auth.oidc.cli" MustBeAbsent.

(** [validateBrowser]. *)
Definition validateBrowser (c : Settings) (o : OIDCConfig) (b : OIDCBrowser) : option fault :=
  refuse_if (is_empty (br_ClientID b)) "auth.oidc.browser.clientID" Required
  orelse refuse_if (negb (String.eqb (br_ClientID b) (oidc_Audience o))) "auth.oidc.browser.clientID" Mismatch
  orelse refuse_if (negb (String.eqb (oidc_TokenType o) "id")) "auth.oidc.tokenType" BadValue
  orelse refuse_if (negb (Enabled (srv_TLS (s_Server c)))) "server.tls" Required
  orelse refuse_if (is_empty (br_RedirectURL b)) "auth.oidc.browser.redirectURL" Required
  orelse validateHTTPSURL (host_of w) "auth.oidc.browser.redirectURL" (br_RedirectURL b)
  orelse match Parse (host_of w) (br_RedirectURL b) with
         | None => at_key "auth.oidc.browser.redirectURL" BadValue
         | Some u =>
             refuse_if (negb (is_empty (u_RawQuery u)) || u_ForceQuery u) "auth.oidc.browser.redirectURL" HasQuery
             orelse refuse_if (negb (String.eqb (u_Path u) callbackPath)) "auth.oidc.browser.redirectURL" BadPath
         end
  orelse validateScopes "auth.oidc.browser.scopes" (br_Scopes b)
  orelse refuse_if (is_empty (br_CookieKeyFile b)) "auth.oidc.browser.cookieKeyFile" Required
  orelse refuse_if (negb (opens w (br_CookieKeyFile b))) "auth.oidc.browser.cookieKeyFile" Unreadable
  orelse (if is_empty (br_ClientSecretFile b) then None
          else match reads_file w (br_ClientSecretFile b) with
               | None => at_key "auth.oidc.browser.clientSecretFile" Unreadable
               | Some secret =>
                   refuse_if (len_outside 1 maxClientSecretBytes (trim_space secret))
                     "auth.oidc.browser.clientSecretFile" BadLength
               end).

(** [validateOIDC]. *)
Definition validateOIDC (c : Settings) (o : OIDCConfig) : option fault :=
  refuse_if (is_empty (oidc_Issuer o)) "auth.oidc.issuer" Required
  orelse validateHTTPSURL (host_of w) "auth.oidc.issuer" (oidc_Issuer o)
  orelse refuse_if (len_outside 1 maxAudienceBytes (oidc_Audience o)) "auth.oidc.audience" BadLength
  orelse (if is_empty (oidc_CAFile o) then None
          else match reads_file w (oidc_CAFile o) with
               | None => at_key "auth.oidc.caFile" Unreadable
               | Some pem => refuse_if (negb (holds_cert w pem)) "auth.oidc.caFile" BadValue
               end)
  orelse (if is_empty (oidc_HTTPProxy o) then None
          else match Parse (host_of w) (oidc_HTTPProxy o) with
               | None => at_key "auth.oidc.httpProxy" BadValue
               | Some u =>
                   refuse_if (is_empty (u_Host u) || negb (bool_decide (u_Scheme u ∈ proxySchemes)))
                     "auth.oidc.httpProxy" BadValue
               end)
  orelse refuse_if (oidc_JWKSMaxStale o <? oidc_JWKSRefresh o) "auth.oidc.jwksMaxStale" BadValue
  orelse validateMapping (oidc_Mapping o) (s_Realms c)
  orelse match oidc_CLI o with Some cli => validateCLI o cli | None => None end
  orelse match oidc_Browser o with Some b => validateBrowser c o b | None => None end.

(** [validateAuth]. *)
Definition validateAuth (c : Settings) : option fault :=
  let a := s_Auth c in
  let mode m := String.eqb (auth_Mode a) m in
  (if mode ModeDisabled then refuse_if (is_empty (auth_AnonymousRealm a)) "auth.anonymousRealm" Required
   else refuse_if (negb (is_empty (auth_AnonymousRealm a))) "auth.anonymousRealm" MustBeAbsent)
  orelse refuse_if (negb (is_empty (auth_AnonymousRealm a)) && negb (has_realm (s_Realms c) (auth_AnonymousRealm a)))
           "auth.anonymousRealm" NotARealm
  orelse refuse_if (bool_decide (is_Some (auth_Basic a)) && negb (mode ModeBasic)) "auth.basic" MustBeAbsent
  orelse refuse_if (bool_decide (is_Some (auth_OIDC a)) && negb (mode ModeOIDC)) "auth.oidc" MustBeAbsent
  orelse
    (if mode ModeBasic then
       match auth_Basic a with None => at_key "auth.basic" Required | Some b => validateBasic c b end
     else if mode ModeOIDC then
       match auth_OIDC a with None => at_key "auth.oidc" Required | Some o => validateOIDC c o end
     else None).

(** [validateUI], which runs after [validateAuth]. *)
Definition validateUI (c : Settings) : option fault :=
  refuse_if (s_UI c && String.eqb (auth_Mode (s_Auth c)) ModeOIDC &&
    match auth_OIDC (s_Auth c) with Some o => negb (bool_decide (is_Some (oidc_Browser o))) | None => false end)
    "ui.enabled" BadValue.

(** One realm of the loop of [validate]. *)
Definition validateRealm (x : string * Realm) : option fault :=
  let '(name, realm) := x in
  let list key entries valid :=
    first_fault (fun entry => refuse_if (negb (String.eqb entry wildcard) && negb (valid entry))
      ("realms." +:+ name +:+ "." +:+ key) BadValue) entries in
  refuse_if (negb (IsDNS1123Label name)) ("realms." +:+ name) BadValue
  orelse list "namespaces" (Namespaces realm) IsDNS1123Label
  orelse list "services" (Services realm) IsDNS1123Label
  orelse list "profiles" (Profiles realm) Listing.IsProfile.

(** How [validate] ends: nil, a refusal of these rules, or one of [validatePGO]. *)
Inductive verdict := Accepted | Refused (f : fault) | PGORefused (e : config_err).

(** What [validatePGO] reads. *)
Definition pgo_view (c : Settings) : Config :=
  {| cfg_NATS := s_NATS c; cfg_PGO := s_PGO c; cfg_CPUSeconds := CPUSeconds (s_Limits c) |}.

(** [validate], the realms in the order the map gave them. *)
Definition validate (order : list (string * Realm)) (c : Settings) : verdict :=
  let pprof := disc_Pprof (s_Discovery c) in
  match
    refuse_if (Bool.eqb (negb (pp_Port pprof =? 0)) (negb (is_empty (pp_PortName pprof))))
      "discovery.pprof.port" BadValue
    orelse refuse_if (negb (is_empty (pp_PortName pprof)) && negb (IsValidPortName (pp_PortName pprof)))
             "discovery.pprof.portName" BadValue
    orelse validateSelections (pp_AllowedSelections pprof)
    orelse refuse_if (negb (IsQualifiedName (disc_VersionLabel (s_Discovery c)))) "discovery.versionLabel" BadValue
    orelse refuse_if (String.eqb (srv_Listen (s_Server c)) (srv_OpsListen (s_Server c))) "server.opsListen" Duplicate
    orelse validateTLS (srv_TLS (s_Server c))
    orelse first_fault validateRealm order
    orelse validateAuth c
    orelse validateUI c
  with
  | Some f => Refused f
  | None =>
      match validatePGO (opens w) (pgo_view c) with
      | Some e => PGORefused e
      | None => Accepted
      end
  end.

End validation.

(** ** Normalization *)

Definition with_port (p : Z) (c : Settings) : Settings :=
  let d := s_Discovery c in
  {| s_Server := s_Server c;
     s_Discovery := {| disc_VersionLabel := disc_VersionLabel d;
       disc_Pprof := {| pp_Port := p; pp_PortName := pp_PortName (disc_Pprof d);
                        pp_AllowedSelections := pp_AllowedSelections (disc_Pprof d) |} |};
     s_Limits := s_Limits c; s_Auth := s_Auth c; s_NATS := s_NATS c; s_PGO := s_PGO c; s_UI := s_UI c;
     s_Realms := s_Realms c |}.

Definition set_default_list (dflt l : list string) : list string := match l with [] => dflt | _ => l end.

(** The scopes of the browser block and the client of the command line. *)
Definition normalize_oidc (o : OIDCConfig) : OIDCConfig :=
  {| oidc_Issuer := oidc_Issuer o; oidc_Audience := oidc_Audience o; oidc_TokenType := oidc_TokenType o;
     oidc_UsernameClaim := oidc_UsernameClaim o; oidc_GroupsClaim := oidc_GroupsClaim o;
     oidc_CAFile := oidc_CAFile o; oidc_HTTPProxy := oidc_HTTPProxy o; oidc_ClockSkew := oidc_ClockSkew o;
     oidc_JWKSRefresh := oidc_JWKSRefresh o; oidc_JWKSRefreshMin := oidc_JWKSRefreshMin o;
     oidc_JWKSMaxStale := oidc_JWKSMaxStale o; oidc_Mapping := oidc_Mapping o;
     oidc_Browser := (fun b =>
       {| br_ClientID := br_ClientID b; br_ClientSecretFile := br_ClientSecretFile b;
          br_RedirectURL := br_RedirectURL b; br_Scopes := set_default_list defaultScopes (br_Scopes b);
          br_CookieKeyFile := br_CookieKeyFile b; br_SessionTTL := br_SessionTTL b;
          br_TransactionTTL := br_TransactionTTL b |}) <$> oidc_Browser o;
     oidc_CLI := (fun cli =>
       {| cli_ClientID := if is_empty (cli_ClientID cli) then oidc_Audience o else cli_ClientID cli;
          cli_Scopes := set_default_list cliScopes (cli_Scopes cli); cli_PKCE := cli_PKCE cli |}) <$> oidc_CLI o |}.

(** [normalize]. *)
Definition normalize (c : Settings) : Settings :=
  let pprof := disc_Pprof (s_Discovery c) in
  let c := if (pp_Port pprof =? 0) && is_empty (pp_PortName pprof) then with_port defaultPprofPort c else c in
  let a := s_Auth c in
  {| s_Server := s_Server c; s_Discovery := s_Discovery c; s_Limits := s_Limits c;
     s_Auth := {| auth_Mode := auth_Mode a; auth_AnonymousRealm := auth_AnonymousRealm a;
                  auth_Basic := auth_Basic a; auth_OIDC := normalize_oidc <$> auth_OIDC a |};
     s_NATS := s_NATS c; s_PGO := s_PGO c; s_UI := s_UI c; s_Realms := s_Realms c |}.

(** ** Overrides without their block *)

Definition browser_variables : list string :=
  ["PROFGATE_AUTH_OIDC_CLIENT_ID"; "PROFGATE_AUTH_OIDC_CLIENT_SECRET_FILE"; "PROFGATE_AUTH_OIDC_REDIRECT_URL";
   "PROFGATE_AUTH_OIDC_COOKIE_KEY_FILE"; "PROFGATE_AUTH_OIDC_SESSION_TTL";
   "PROFGATE_AUTH_OIDC_TRANSACTION_TTL"]%string.
Definition cli_variables : list string :=
  ["PROFGATE_AUTH_OIDC_CLI_CLIENT_ID"; "PROFGATE_AUTH_OIDC_CLI_PKCE"]%string.

(** [refuseOverridesWithoutBlock]; [isset] is what [os.LookupEnv] answers. *)
Definition refuseOverridesWithoutBlock (isset : string -> bool) (c : Settings) : option fault :=
  let oidc := auth_OIDC (s_Auth c) in
  let browser := match oidc with Some o => bool_decide (is_Some (oidc_Browser o)) | None => false end in
  let cli := match oidc with Some o => bool_decide (is_Some (oidc_CLI o)) | None => false end in
  first_fault (fun v => refuse_if (negb browser && isset v) v OverrideWithoutBlock) browser_variables
  orelse first_fault (fun v => refuse_if (negb cli && isset v) v OverrideWithoutBlock) cli_variables.

(** ** What acceptance means *)

Lemma orelse_None (a b : option fault) : or_else a b = None <-> a = None /\ b = None.
Proof. destruct a; simpl; naive_solver. Qed.
Lemma refuse_if_None (b : bool) (k : string) (y : why) : refuse_if b k y = None <-> b = false.
Proof. unfold refuse_if, at_key. destruct b; naive_solver. Qed.
Lemma at_key_None (k : string) (y : why) : at_key k y = None <-> False.
Proof. unfold at_key. naive_solver. Qed.
Lemma first_fault_None {A} (f : A -> option fault) (l : list A) :
  first_fault f l = None <-> Forall (fun x => f x = None) l.
Proof.
  induction l as [|x l IH]; cbn [first_fault]; [naive_solver|].
  rewrite orelse_None, IH, Forall_cons. done.
Qed.
Lemma duplicate_None {A} `{EqDecision A} (earlier l : list A) :
  duplicate_after earlier l = None <-> NoDup l /\ Forall (fun x => x ∉ earlier) l.
Proof.
  revert earlier. induction l as [|x l IH]; intros earlier; cbn [duplicate_after].
  { split; [intros _; split; [apply NoDup_nil_2|apply Forall_nil_2]|done]. }
  case_decide as Hx.
  { split; [done|]. intros [_ H]. rewrite Forall_cons in H. naive_solver. }
  rewrite IH, NoDup_cons, !Forall_forall. set_solver.
Qed.
Lemma firstDuplicate_None {A} `{EqDecision A} (l : list A) :
  ~ is_Some (firstDuplicate l) <-> NoDup l.
Proof.
  unfold firstDuplicate. rewrite <-eq_None_not_Some, duplicate_None.
  split; [naive_solver|]. intros H. split; [done|]. apply Forall_forall. set_solver.
Qed.
Lemma is_empty_true (s : string) : is_empty s = true <-> s = EmptyString.
Proof. unfold is_empty. apply String.eqb_eq. Qed.
Lemma is_empty_false (s : string) : is_empty s = false <-> s <> EmptyString.
Proof. unfold is_empty. apply String.eqb_neq. Qed.
Lemma len_outside_false (lo hi : Z) (s : string) : len_outside lo hi s = false <-> lo <= byte_len s <= hi.
Proof. unfold len_outside. rewrite orb_false_iff, !Z.ltb_ge. lia. Qed.
Lemma has_realm_true (realms : gmap string Realm) (r : string) : has_realm realms r = true <-> is_Some (realms !! r).
Proof. unfold has_realm. apply bool_decide_eq_true. Qed.

Create HintDb faults.
#[export] Hint Rewrite orelse_None refuse_if_None at_key_None @first_fault_None @firstDuplicate_None
  is_empty_true is_empty_false len_outside_false has_realm_true negb_false_iff negb_true_iff andb_false_iff andb_true_iff
  @bool_decide_eq_false @bool_decide_eq_true String.eqb_eq String.eqb_neq Z.ltb_ge : faults.

(** A user of an accepted set whose hashes cost [cost]. *)
Definition user_ok (realms : gmap string Realm) (cost : Z) (u : BasicUser) : Prop :=
  1 <= byte_len (bu_Name u) <= maxUserNameBytes /\ has_byte ":" (bu_Name u) = false /\
  hashCost (bu_PasswordHash u) = inl cost /\ bu_Realm u <> EmptyString /\ is_Some (realms !! bu_Realm u).

Lemma hashCost_range (h : string) (cost : Z) :
  hashCost h = inl cost -> minBcryptCost <= cost <= maxBcryptCost.
Proof.
  unfold hashCost. destruct (bcryptHash h); [|done]. destruct (_ || _) eqn:E; [done|]. intros [= <-].
  apply orb_false_iff in E as [?%Z.ltb_ge ?%Z.ltb_ge]. lia.
Qed.

Lemma check_user_ok (realms : gmap string Realm) (key : string) (u : BasicUser) (seen seen' : list string) (c c' : Z) :
  check_user realms key u (seen, c) = inl (seen', c') <->
  user_ok realms c' u /\ bu_Name u ∉ seen /\ (c = 0 \/ c = c') /\ seen' = bu_Name u :: seen.
Proof.
  unfold check_user, user_ok, validateUserName.
  destruct (or_else _ _) eqn:E1.
  { split; [done|]. intros ((H1 & H2 & _) & H3 & _). exfalso.
    enough (@None fault = Some f) by done. rewrite <-E1. symmetry.
    autorewrite with faults. done. }
  autorewrite with faults in E1. destruct E1 as (H1 & H2 & H3).
  destruct (hashCost (bu_PasswordHash u)) as [userCost|] eqn:E2; [|split; naive_solver].
  pose proof (hashCost_range _ _ E2) as Hr. unfold minBcryptCost in Hr.
  destruct (negb (c =? 0) && negb (userCost =? c)) eqn:E3.
  { to_prop. split; [done|]. intros ((_ & _ & H4 & _) & _ & H5 & _). simplify_eq. destruct H5; lia. }
  assert (c = 0 \/ c = userCost) as Hc.
  { apply andb_false_iff in E3 as [E|E]; to_prop; lia. }
  destruct (is_empty (bu_Realm u)) eqn:E4.
  { autorewrite with faults in E4. split; [done|]. naive_solver. }
  autorewrite with faults in E4.
  destruct (bool_decide (is_Some (realms !! bu_Realm u))) eqn:E5; autorewrite with faults in E5; cbn [negb];
    [|split; [done|naive_solver]].
  split; [intros [= <- <-]; naive_solver|]. intros ((_ & _ & H4 & _) & _ & _ & ->). by simplify_eq.
Qed.

Lemma check_users_ok (realms : gmap string Realm) (key : string) (i : nat) (users : list BasicUser)
    (seen seen' : list string) (c c' : Z) :
  0 <= c ->
  check_users realms key i users (seen, c) = inl (seen', c') <->
  Forall (user_ok realms c') users /\ NoDup (map bu_Name users) /\
  Forall (fun u => bu_Name u ∉ seen) users /\ seen' = rev (map bu_Name users) ++ seen /\
  (users = [] -> c = c') /\ (c = 0 \/ c = c').
Proof.
  revert i seen c. induction users as [|u users IH]; intros i seen c Hc; cbn [check_users map rev app].
  { split; [intros [= <- <-]; split_and!; auto using Forall_nil_2, NoDup_nil_2|].
    intros (_ & _ & _ & -> & -> & _); done. }
  rewrite !Forall_cons, NoDup_cons.
  destruct (check_user realms (indexed key i) u (seen, c)) as [[seen1 c1]|f] eqn:E.
  - apply check_user_ok in E as (Hok & Hn & Hcc & ->).
    assert (minBcryptCost <= c1) as Hc1 by (destruct Hok as (_ & _ & Hh & _); apply hashCost_range in Hh; lia).
    unfold minBcryptCost in Hc1. rewrite IH by lia.
    assert (Forall (fun u0 => bu_Name u0 ∉ bu_Name u :: seen) users <->
            bu_Name u ∉ map bu_Name users /\ Forall (fun u0 => bu_Name u0 ∉ seen) users) as ->.
    { rewrite !Forall_forall. split.
      - intros H. split; [|set_solver]. intros (u0 & Hu & Hin)%list_elem_of_fmap. apply (H u0 Hin). set_solver.
      - intros [H1 H2] u0 Hin. rewrite not_elem_of_cons. split; [|by apply H2]. intros Hu. apply H1.
        apply list_elem_of_fmap. naive_solver. }
    rewrite <-app_assoc. cbn [app]. split.
    + intros (H1 & H2 & H3 & -> & H4 & H5). assert (c1 = c') as -> by (destruct H5; [lia|done]).
      destruct H3. split_and!; try done; by intros ?.
    + intros ((H1 & H1') & (H2 & H2') & (H3 & H3') & -> & H4 & H5).
      assert (c1 = c') as ->.
      { destruct H1 as (_ & _ & Ha & _), Hok as (_ & _ & Hb & _). congruence. }
      repeat split; auto.
  - split; [done|]. intros ((H1 & H1') & (H2 & H2') & (H3 & H3') & -> & H4 & H5).
    assert (check_user realms (indexed key i) u (seen, c) = inl (bu_Name u :: seen, c')) as E'
      by (apply check_user_ok; naive_solver). congruence.
Qed.

(** The set of users is accepted, with a cost, exactly when it is not empty, its
    names are distinct and each user is sound with a hash of that one cost. *)
Lemma ValidateBasicUsers_ok (inline file : list BasicUser) (realms : gmap string Realm) (cost : Z) :
  ValidateBasicUsers inline file realms = inl cost <->
  inline ++ file <> [] /\ NoDup (map bu_Name (inline ++ file)) /\ Forall (user_ok realms cost) (inline ++ file).
Proof.
  unfold ValidateBasicUsers. destruct (inline ++ file) as [|u0 users] eqn:E; [naive_solver|].
  rewrite <-E. assert (inline ++ file <> []) as Hne by (rewrite E; done). clear E u0 users.
  rewrite map_app, NoDup_app, Forall_app.
  destruct (check_users realms "auth.basic.users" 0 inline ([], 0)) as [[seen c]|f] eqn:E1.
  - apply check_users_ok in E1 as (H1 & H2 & _ & -> & H4 & _); [|lia]. rewrite app_nil_r.
    assert (0 <= c /\ (inline <> [] -> c <> 0)) as [Hc Hc'].
    { destruct inline as [|u l]; [rewrite <-(H4 eq_refl); split; [lia|done]|].
      apply Forall_cons in H1 as [(_ & _ & Hh & _) _]. apply hashCost_range in Hh. unfold minBcryptCost in Hh. lia. }
    assert (forall l : list string, l = rev (map bu_Name inline) -> forall u, u ∉ l <-> u ∉ map bu_Name inline) as Hrev.
    { intros l -> u. by rewrite !list_elem_of_In, <-in_rev. }
    destruct (check_users realms "auth.basic.usersFile users" 0 file _) as [[seen2 c2]|f] eqn:E2.
    + apply check_users_ok in E2 as (H5 & H6 & H7 & _ & H8 & H9); [|done].
      assert (inline <> [] -> c = c2) as Hcc by (intros Hi; destruct H9; [by specialize (Hc' Hi)|done]).
      assert (forall x, x ∈ map bu_Name inline -> x ∉ map bu_Name file) as Hd.
      { intros x Hx Hin. apply list_elem_of_fmap in Hin as (u & -> & Hin).
        rewrite Forall_forall in H7. specialize (H7 u Hin). by rewrite (Hrev _ eq_refl) in H7. }
      split.
      * intros [= <-]. split_and!; try done. destruct inline; [apply Forall_nil_2|]. rewrite <-Hcc; done.
      * intros (_ & _ & H10 & H11). f_equal. destruct file as [|u file].
        { rewrite app_nil_r in Hne. destruct inline as [|u l]; [done|]. rewrite <-(H8 eq_refl).
          apply Forall_cons in H1 as [(_ & _ & Ha & _) _], H10 as [(_ & _ & Hb & _) _]. congruence. }
        apply Forall_cons in H5 as [(_ & _ & Ha & _) _], H11 as [(_ & _ & Hb & _) _]. congruence.
    + split; [done|]. intros (_ & (_ & Hd & H6) & H10 & H11). exfalso.
      assert (inline = [] \/ c = cost) as Hcc.
      { destruct inline as [|u l]; [by left|right].
        apply Forall_cons in H1 as [(_ & _ & Ha & _) _], H10 as [(_ & _ & Hb & _) _]. congruence. }
      assert (check_users realms "auth.basic.usersFile users" 0 file (rev (map bu_Name inline), c) =
        inl (rev (map bu_Name file) ++ rev (map bu_Name inline), cost)) as E; [|congruence].
      apply check_users_ok; [done|]. split_and!; try done.
      * apply Forall_forall. intros u Hu. rewrite (Hrev _ eq_refl). intros Hx. apply (Hd _ Hx).
        apply list_elem_of_fmap. naive_solver.
      * intros ->. rewrite app_nil_r in Hne. naive_solver.
      * destruct Hcc as [->|]; [left; symmetry; by apply H4|by right].
  - split; [done|]. intros (_ & (H2 & _ & _) & H10 & _). exfalso.
    destruct inline as [|u l].
    { done. }
    assert (check_users realms "auth.basic.users" 0 (u :: l) ([], 0) =
      inl (rev (map bu_Name (u :: l)) ++ [], cost)) as E; [|congruence].
    apply check_users_ok; [lia|]. split_and!; try done; [|by left].
    apply Forall_forall. set_solver.
Qed.

(** *** The rules of the authentication blocks, as an acceptance *)

(** Comparisons of closed strings, evaluated. *)
Ltac closed_eqb := repeat match goal with |- context [String.eqb ?a ?b] =>
  let v := eval vm_compute in (String.eqb a b) in
  lazymatch v with true => change (String.eqb a b) with true | false => change (String.eqb a b) with false end
  end; cbn [negb andb]; cbn iota.

Section accepted.
  Variable w : outside.

Definition https_url (raw : string) : Prop :=
  exists u, Parse (host_of w) raw = Some u /\ u_Scheme u = "https"%string /\ u_Host u <> EmptyString /\
    u_User u = false /\ u_Fragment u = EmptyString.

Lemma validateHTTPSURL_None (key raw : string) :
  validateHTTPSURL (host_of w) key raw = None <-> https_url raw.
Proof.
  unfold validateHTTPSURL, https_url. destruct (Parse (host_of w) raw) as [u|]; autorewrite with faults; [|naive_solver].
  split; [naive_solver|]. intros (u' & [= <-] & ?). naive_solver.
Qed.

Definition scopes_ok (scopes : list string) : Prop :=
  openidScope ∈ scopes /\ NoDup scopes /\
  Forall (fun s => 1 <= byte_len s <= maxScopeBytes /\ all_bytes isScopeByte s = true) scopes.

Lemma validateScopes_None (key : string) (scopes : list string) :
  validateScopes key scopes = None <-> scopes_ok scopes.
Proof.
  unfold validateScopes, scopes_ok. autorewrite with faults.
  enough (Forall (fun x => refuse_if (len_outside 1 maxScopeBytes x) key BadLength
      orelse refuse_if (negb (all_bytes isScopeByte x)) key BadValue = None) scopes <->
    Forall (fun s => 1 <= byte_len s <= maxScopeBytes /\ all_bytes isScopeByte s = true) scopes) as -> by tauto.
  apply Forall_iff. intros x. by autorewrite with faults.
Qed.

(** A list of a mapping: distinct names of a sensible length, each to a realm. *)
Definition entries_ok (realms : gmap string Realm) (l : list OIDCMappingEntry) : Prop :=
  NoDup (map me_Name l) /\
  Forall (fun e => 1 <= byte_len (me_Name e) <= maxMappingNameBytes /\ me_Realm e <> EmptyString /\
    is_Some (realms !! me_Realm e)) l.

Lemma check_mapping_list_None (realms : gmap string Realm) (key : string) (l : list OIDCMappingEntry) :
  check_mapping_list realms key l = None <-> entries_ok realms l.
Proof.
  unfold check_mapping_list, entries_ok. autorewrite with faults.
  enough (check_entries realms key 0 l = None <-> Forall (fun e => 1 <= byte_len (me_Name e) <= maxMappingNameBytes /\
    me_Realm e <> EmptyString /\ is_Some (realms !! me_Realm e)) l) as -> by tauto. generalize 0%nat.
  induction l as [|e l IH]; intros i; cbn [check_entries]; [split; [intros _; apply Forall_nil_2|done]|].
  autorewrite with faults. rewrite Forall_cons, IH. tauto.
Qed.

Definition mapping_ok (realms : gmap string Realm) (m : OIDCMapping) : Prop :=
  ~ (map_Users m = [] /\ map_Groups m = [] /\ map_DefaultRealm m = EmptyString) /\
  entries_ok realms (map_Users m) /\ entries_ok realms (map_Groups m) /\
  (map_DefaultRealm m <> EmptyString -> is_Some (realms !! map_DefaultRealm m)).

Lemma validateMapping_None (m : OIDCMapping) (realms : gmap string Realm) :
  validateMapping m realms = None <-> mapping_ok realms m.
Proof.
  unfold validateMapping, mapping_ok. autorewrite with faults. rewrite !check_mapping_list_None.
  destruct (String.eq_dec (map_DefaultRealm m) EmptyString), (map_Users m), (map_Groups m); naive_solver.
Qed.

(** A file the configuration may name or not. *)
Definition file_ok (path : string) (P : string -> Prop) : Prop :=
  path = EmptyString \/ exists b, reads_file w path = Some b /\ P b.

Definition cli_ok (o : OIDCConfig) (cli : OIDCCLI) : Prop :=
  1 <= byte_len (cli_ClientID cli) <= maxAudienceBytes /\ scopes_ok (cli_Scopes cli) /\
  (oidc_TokenType o = "id"%string -> cli_ClientID cli = oidc_Audience o /\
    forall b, oidc_Browser o = Some b -> br_ClientSecretFile b = EmptyString).

Lemma validateCLI_None (o : OIDCConfig) (cli : OIDCCLI) : validateCLI o cli = None <-> cli_ok o cli.
Proof.
  unfold validateCLI, cli_ok. autorewrite with faults. rewrite validateScopes_None.
  destruct (String.eqb (oidc_TokenType o) "id") eqn:E; to_prop.
  - destruct (oidc_Browser o); autorewrite with faults; naive_solver.
  - naive_solver.
Qed.

Definition browser_ok (c : Settings) (o : OIDCConfig) (b : OIDCBrowser) : Prop :=
  br_ClientID b <> EmptyString /\ br_ClientID b = oidc_Audience o /\ oidc_TokenType o = "id"%string /\
  Enabled (srv_TLS (s_Server c)) = true /\ br_RedirectURL b <> EmptyString /\ https_url (br_RedirectURL b) /\
  (forall u, Parse (host_of w) (br_RedirectURL b) = Some u ->
     u_RawQuery u = EmptyString /\ u_ForceQuery u = false /\ u_Path u = callbackPath) /\
  scopes_ok (br_Scopes b) /\ br_CookieKeyFile b <> EmptyString /\ opens w (br_CookieKeyFile b) = true /\
  file_ok (br_ClientSecretFile b) (fun secret => 1 <= byte_len (trim_space secret) <= maxClientSecretBytes).

Lemma validateBrowser_None (c : Settings) (o : OIDCConfig) (b : OIDCBrowser) :
  validateBrowser w c o b = None <-> browser_ok c o b.
Proof.
  unfold validateBrowser, browser_ok, file_ok. autorewrite with faults.
  rewrite validateScopes_None, validateHTTPSURL_None.
  assert ((if is_empty (br_ClientSecretFile b) then None
     else match reads_file w (br_ClientSecretFile b) with
       | None => at_key "auth.oidc.browser.clientSecretFile" Unreadable
       | Some secret => refuse_if (len_outside 1 maxClientSecretBytes (trim_space secret))
           "auth.oidc.browser.clientSecretFile" BadLength end) = None <->
    (br_ClientSecretFile b = EmptyString \/
     exists x, reads_file w (br_ClientSecretFile b) = Some x /\ 1 <= byte_len (trim_space x) <= maxClientSecretBytes))
    as ->.
  { destruct (is_empty _) eqn:E; autorewrite with faults in E; [naive_solver|].
    destruct (reads_file w _); autorewrite with faults; naive_solver. }
  destruct (Parse (host_of w) (br_RedirectURL b)) as [u|] eqn:E; autorewrite with faults.
  - rewrite orb_false_iff. autorewrite with faults. naive_solver.
  - unfold https_url. rewrite E. naive_solver.
Qed.

Definition oidc_ok (c : Settings) (o : OIDCConfig) : Prop :=
  oidc_Issuer o <> EmptyString /\ https_url (oidc_Issuer o) /\
  1 <= byte_len (oidc_Audience o) <= maxAudienceBytes /\
  file_ok (oidc_CAFile o) (fun pem => holds_cert w pem = true) /\
  (oidc_HTTPProxy o = EmptyString \/
   exists u, Parse (host_of w) (oidc_HTTPProxy o) = Some u /\ u_Host u <> EmptyString /\ u_Scheme u ∈ proxySchemes) /\
  oidc_JWKSRefresh o <= oidc_JWKSMaxStale o /\ mapping_ok (s_Realms c) (oidc_Mapping o) /\
  (forall cli, oidc_CLI o = Some cli -> cli_ok o cli) /\
  (forall b, oidc_Browser o = Some b -> browser_ok c o b).

Lemma validateOIDC_None (c : Settings) (o : OIDCConfig) : validateOIDC w c o = None <-> oidc_ok c o.
Proof.
  unfold validateOIDC, oidc_ok, file_ok. autorewrite with faults.
  rewrite validateHTTPSURL_None, validateMapping_None.
  assert ((if is_empty (oidc_CAFile o) then None
     else match reads_file w (oidc_CAFile o) with
       | None => at_key "auth.oidc.caFile" Unreadable
       | Some pem => refuse_if (negb (holds_cert w pem)) "auth.oidc.caFile" BadValue end) = None <->
    (oidc_CAFile o = EmptyString \/ exists b, reads_file w (oidc_CAFile o) = Some b /\ holds_cert w b = true)) as ->.
  { destruct (is_empty _) eqn:E; autorewrite with faults in E; [naive_solver|].
    destruct (reads_file w _); autorewrite with faults; naive_solver. }
  assert ((if is_empty (oidc_HTTPProxy o) then None
     else match Parse (host_of w) (oidc_HTTPProxy o) with
       | None => at_key "auth.oidc.httpProxy" BadValue
       | Some u => refuse_if (is_empty (u_Host u) || negb (bool_decide (u_Scheme u ∈ proxySchemes)))
                     "auth.oidc.httpProxy" BadValue end) = None <->
    (oidc_HTTPProxy o = EmptyString \/
     exists u, Parse (host_of w) (oidc_HTTPProxy o) = Some u /\ u_Host u <> EmptyString /\ u_Scheme u ∈ proxySchemes))
    as ->.
  { destruct (is_empty (oidc_HTTPProxy o)) eqn:E; autorewrite with faults in E; [naive_solver|].
    destruct (Parse _ _); autorewrite with faults; [|naive_solver]. rewrite orb_false_iff.
    autorewrite with faults. naive_solver. }
  assert (match oidc_CLI o with Some cli => validateCLI o cli | None => None end = None <->
    forall cli, oidc_CLI o = Some cli -> cli_ok o cli) as ->.
  { destruct (oidc_CLI o); [rewrite validateCLI_None|]; naive_solver. }
  assert (match oidc_Browser o with Some b => validateBrowser w c o b | None => None end = None <->
    forall b, oidc_Browser o = Some b -> browser_ok c o b) as ->.
  { destruct (oidc_Browser o); [rewrite validateBrowser_None|]; naive_solver. }
  done.
Qed.

(** The users of a basic block: the ones written and the ones of its file. *)
Definition users_of (b : BasicConfig) (users : list BasicUser) : Prop :=
  exists file, users = bc_Users b ++ file /\
    (if is_empty (bc_UsersFile b) then file = [] else LoadUsersFile w (bc_UsersFile b) = Some file).

Definition basic_ok (c : Settings) (b : BasicConfig) : Prop :=
  (exists users cost, users_of b users /\ users <> [] /\ NoDup (map bu_Name users) /\
     Forall (user_ok (s_Realms c) cost) users) /\
  (Enabled (srv_TLS (s_Server c)) = true \/ bc_AllowPlaintext b = true).

Lemma validateBasic_None (c : Settings) (b : BasicConfig) : validateBasic w c b = None <-> basic_ok c b.
Proof.
  assert (forall file, match ValidateBasicUsers (bc_Users b) file (s_Realms c) with
      | inr f => Some f
      | inl _ => refuse_if (negb (Enabled (srv_TLS (s_Server c))) && negb (bc_AllowPlaintext b))
          "auth.basic.allowPlaintext" Required end = None <->
    (exists cost, bc_Users b ++ file <> [] /\ NoDup (map bu_Name (bc_Users b ++ file)) /\
       Forall (user_ok (s_Realms c) cost) (bc_Users b ++ file)) /\
    (Enabled (srv_TLS (s_Server c)) = true \/ bc_AllowPlaintext b = true)) as Hj.
  { intros file. destruct (ValidateBasicUsers _ _ _) as [cost|f] eqn:E.
    - apply ValidateBasicUsers_ok in E. autorewrite with faults. naive_solver.
    - split; [done|]. intros [[cost Hu] _]. apply ValidateBasicUsers_ok in Hu. congruence. }
  unfold validateBasic, basic_ok, users_of. destruct (is_empty (bc_UsersFile b)) eqn:E.
  - rewrite Hj. split.
    + intros [[cost Hu] Ht]. split; [|done]. exists (bc_Users b ++ []), cost. naive_solver.
    + intros [(users & cost & (file & -> & ->) & Hu) Ht]. naive_solver.
  - destruct (LoadUsersFile w (bc_UsersFile b)) as [file|].
    + rewrite Hj. split.
      * intros [[cost Hu] Ht]. split; [|done]. exists (bc_Users b ++ file), cost. naive_solver.
      * intros [(users & cost & (file' & -> & [= <-]) & Hu) Ht]. naive_solver.
    + autorewrite with faults. split; [done|]. intros [(users & cost & (file' & _ & ?) & _) _]. done.
Qed.

(** One block to a mode, and the block sound. *)
Inductive mode_rules (c : Settings) : Prop :=
  | rules_disabled :
      auth_Mode (s_Auth c) = ModeDisabled -> auth_Basic (s_Auth c) = None -> auth_OIDC (s_Auth c) = None ->
      auth_AnonymousRealm (s_Auth c) <> EmptyString ->
      is_Some (s_Realms c !! auth_AnonymousRealm (s_Auth c)) -> mode_rules c
  | rules_basic b :
      auth_Mode (s_Auth c) = ModeBasic -> auth_Basic (s_Auth c) = Some b -> auth_OIDC (s_Auth c) = None ->
      auth_AnonymousRealm (s_Auth c) = EmptyString -> basic_ok c b -> mode_rules c
  | rules_oidc o :
      auth_Mode (s_Auth c) = ModeOIDC -> auth_Basic (s_Auth c) = None -> auth_OIDC (s_Auth c) = Some o ->
      auth_AnonymousRealm (s_Auth c) = EmptyString -> oidc_ok c o -> mode_rules c.

Lemma validateAuth_None (c : Settings) :
  auth_Mode (s_Auth c) ∈ [ModeDisabled; ModeBasic; ModeOIDC] -> (validateAuth w c = None <-> mode_rules c).
Proof.
  intros Hmode.
  unfold validateAuth. cbv zeta. rewrite !list_elem_of_In in Hmode. cbn [In] in Hmode.
  destruct Hmode as [Hm|[Hm|[Hm|[]]]]; rewrite <-Hm; closed_eqb; rewrite ?andb_true_r, ?andb_false_r;
    autorewrite with faults; rewrite <-?eq_None_not_Some.
  - split; [intros (H1 & H2 & H3 & H4 & _); apply rules_disabled; naive_solver|].
    intros [_ H1 H2 H3 H4|b Hx|o Hx]; [|by rewrite <-Hm in Hx..]. naive_solver.
  - split.
    + intros (H1 & _ & _ & H4 & H5). destruct (auth_Basic (s_Auth c)) as [b|] eqn:Eb;
        [|by autorewrite with faults in H5]. apply (rules_basic _ b); try done. by apply validateBasic_None.
    + intros [Hx|b _ H1 H2 H3 H4|o Hx]; [by rewrite <-Hm in Hx| |by rewrite <-Hm in Hx].
      rewrite H1. apply validateBasic_None in H4. naive_solver.
  - split.
    + intros (H1 & _ & H3 & _ & H5). destruct (auth_OIDC (s_Auth c)) as [o|] eqn:Eo;
        [|by autorewrite with faults in H5]. apply (rules_oidc _ o); try done. by apply validateOIDC_None.
    + intros [Hx|b Hx|o _ H1 H2 H3 H4]; [by rewrite <-Hm in Hx..|].
      rewrite H2. apply validateOIDC_None in H4. naive_solver.
Qed.

(** The authentication block is accepted exactly when it is that of its mode
    alone and sound: in disabled mode an anonymous realm that exists and no
    other block; in basic mode users with distinct names, one cost of hash
    within bounds and a realm that exists each, over TLS or with plaintext
    allowed; in OIDC mode an https issuer, a mapping into realms that exist,
    and, where they are written, a command line and a browser block whose client
    is the audience, the latter over TLS and called back on the one path the
    gateway serves. *)
Theorem validateAuth_iff (c : Settings)
    (Hmode : auth_Mode (s_Auth c) ∈ [ModeDisabled; ModeBasic; ModeOIDC]) :
  validateAuth w c = None <-> mode_rules c.
Proof. by apply validateAuth_None. Qed.

End accepted.

(** ** Instances *)

Definition demo_realm : Realm :=
  {| Namespaces := ["*"%string]; Services := ["*"%string]; Profiles := ["*"%string];
     PGO := {| pgo_Read := true; pgo_Collect := false; pgo_Configure := false |} |}.
Definition demo_pgo : PGOConfig :=
  {| pgo_Enabled := false; pgo_LeaseTTL := 30 * second; pgo_MaxAttempts := 3; pgo_JobRetention := 24 * hour;
     pgo_Limits := {| MaxDuration := 60 * second; MaxRounds := 5; MaxParallel := 4; MinEvery := hour; MaxEvery := 168 * hour;
                      MaxRetention := 168 * hour; MaxSampleBytes := 2 ^ 20; MaxMergedBytes := 2 ^ 20;
                      MaxTargetsPerRound := 50; MaxActiveCollections := 4; OnDemandPerMinute := 6; MaxLiveCollections := 20 |};
     pgo_Defaults := {| d_every := 24 * hour; d_jitter := hour; d_duration := 30 * second; d_rounds := 3;
                        d_roundInterval := minute; d_replicas := "all"; d_maxParallel := 2; d_retention := 72 * hour |} |}.
Definition demo_settings (a : AuthConfig) : Settings :=
  {| s_Server := {| srv_Listen := ":8080"; srv_OpsListen := ":9090"; srv_LogLevel := "info"; srv_DrainDelay := 5 * second;
                    srv_TLS := {| tls_CertFile := EmptyString; tls_KeyFile := EmptyString |} |};
     s_Discovery := {| disc_VersionLabel := EmptyString; disc_Pprof := {| pp_Port := 6060; pp_PortName := EmptyString; pp_AllowedSelections := [] |} |};
     s_Limits := {| CPUSeconds := 60; TraceSeconds := 5 |}; s_Auth := a;
     s_NATS := {| nats_URL := EmptyString; nats_CredsFile := EmptyString |}; s_PGO := demo_pgo; s_UI := false;
     s_Realms := {[ "default"%string := demo_realm ]} |}.
Definition anonymous_auth : AuthConfig :=
  {| auth_Mode := ModeDisabled; auth_AnonymousRealm := "default"; auth_Basic := None; auth_OIDC := None |}.
Definition nothing_outside : outside :=
  {| opens := fun _ => false; reads_file := fun _ => None; holds_cert := fun _ => false; ParseUsers := fun _ => None;
     host_of := fun _ h => Some h |}.
Definition demo_user : BasicUser :=
  {| bu_Name := "ana"; bu_PasswordHash := "$2a$12$R9h/cIPz0gi.URNNX3kh2OPST9/PgBkqquzi.Ss7KIUgO2t0jWMUW";
     bu_Realm := "default" |}.
Definition basic_auth (plaintext : bool) : AuthConfig :=
  {| auth_Mode := ModeBasic; auth_AnonymousRealm := EmptyString;
     auth_Basic := Some {| bc_Users := [demo_user]; bc_UsersFile := EmptyString; bc_AllowPlaintext := plaintext;
                           bc_MaxConcurrent := 4 |};
     auth_OIDC := None |}.

Example basic_needs_transport :
  validateAuth nothing_outside (demo_settings (basic_auth true)) = None /\
  validateAuth nothing_outside (demo_settings (basic_auth false)) = at_key "auth.basic.allowPlaintext" Required.
Proof. vm_compute. done. Qed.

Lemma validateAuth_iff_witness :
  ModeBasic ∈ [ModeDisabled; ModeBasic; ModeOIDC] /\
  (validateAuth nothing_outside (demo_settings (basic_auth true)) = None <->
   mode_rules nothing_outside (demo_settings (basic_auth true))).
Proof.
  assert (ModeBasic ∈ [ModeDisabled; ModeBasic; ModeOIDC]) as H by (right; left).
  split; [exact H|]. apply (validateAuth_iff nothing_outside (demo_settings (basic_auth true))). exact H.
Defined.
