(* ===== verification/Auth.v ===== *)
(** * What authentication answers

    src/internal/auth/auth.go: the principal and the failure the server is
    answered, the closed set of audit reasons, the challenge of each mode, the
    outcome of a login route, and the deletion of the session cookie; and the
    interface [Authenticator] the three modes implement. *)

From S2P Require Import Prelude Listing.

Record Principal := { p_Name : string; p_Realm : string }.

(** [Failure]. *)
Record Failure := { af_Status : Z; af_Reason : string; af_Redirect : string; af_ClearSession : bool }.

(** What [Authenticate] answers: a principal, a failure, or an error of the
    program. *)
Inductive authAnswer := AuthOK (p : Principal) | AuthFailed (f : Failure) | AuthError.

(** [RouteOutcome]. *)
Record authOutcome := { ao_Status : Z; ao_Code : string; ao_Reason : string; ao_Principal : string }.

Definition noPrincipal : string := "-".

(** A failure that neither redirects nor clears the session. *)
Definition failed (status : Z) (reason : string) : Failure :=
  {| af_Status := status; af_Reason := reason; af_Redirect := EmptyString; af_ClearSession := false |}.

(** ** The reasons *)

Definition ReasonMissing : string := "missing".
Definition ReasonScheme : string := "scheme".
Definition ReasonMalformed : string := "malformed".
Definition ReasonBadCredential : string := "bad_credential".
Definition ReasonThrottled : string := "throttled".
Definition ReasonSignature : string := "signature".
Definition ReasonAlg : string := "alg".
Definition ReasonIssuer : string := "issuer".
Definition ReasonAudience : string := "audience".
Definition ReasonTokenType : string := "token_type".
Definition ReasonExpired : string := "expired".
Definition ReasonClaim : string := "claim".
Definition ReasonNonce : string := "nonce".
Definition ReasonNoRealm : string := "no_realm".
Definition ReasonSession : string := "session".
Definition ReasonState : string := "state".
Definition ReasonIssuerDenied : string := "issuer_denied".
Definition ReasonExchangeDenied : string := "exchange_denied".
Definition ReasonExchange : string := "exchange".
Definition ReasonCSRF : string := "csrf".
Definition ReasonKeysStale : string := "keys_stale".
Definition ReasonEntropy : string := "entropy".
Definition ReasonInternal : string := "internal".

(** [Reasons]. *)
Definition Reasons : list string :=
  [ReasonMissing; ReasonScheme; ReasonMalformed; ReasonBadCredential; ReasonThrottled; ReasonSignature; ReasonAlg;
   ReasonIssuer; ReasonAudience; ReasonTokenType; ReasonExpired; ReasonClaim; ReasonNonce; ReasonNoRealm;
   ReasonSession; ReasonState; ReasonIssuerDenied; ReasonExchangeDenied; ReasonExchange; ReasonCSRF;
   ReasonKeysStale; ReasonEntropy; ReasonInternal].

(** ** The challenge and the deleted cookie *)

(** [Challenge]. *)
Definition dquote : string := String (ascii_of_nat 34) EmptyString.
Definition Challenge (mode : string) : string :=
  if String.eqb mode ModeBasic then "Basic realm=" +:+ dquote +:+ "profgate" +:+ dquote
  else if String.eqb mode ModeOIDC then "Bearer realm=" +:+ dquote +:+ "profgate" +:+ dquote
  else EmptyString.

(** What [DeleteSessionCookie] sets. *)
Definition deletedSession : string :=
  "__Host-profgate_session=; Path=/; Max-Age=0; HttpOnly; Secure; SameSite=Lax".

(** ** The mode the gateway ships with

    [Disabled.Authenticate]: everyone is the anonymous principal of the realm the
    configuration names. *)
Definition anonymousAnswer (anonymousRealm : string) : authAnswer :=
  AuthOK {| p_Name := "anonymous"; p_Realm := anonymousRealm |}.

(** ** What an authenticator promises

    A failure is a refusal the audit knows: its status is one of three, its
    reason is of the table; a redirect is only ever beside a 401, and goes to the
    login. *)
Definition failure_ok (f : Failure) : Prop :=
  af_Status f ∈ [401; 429; 503] /\ af_Reason f ∈ Reasons /\
  (af_Redirect f <> EmptyString -> af_Status f = 401 /\ has_prefix "/auth/login?return=" (af_Redirect f) = true).
