(* ===== verification/Server.v ===== *)
(** * The request algorithm of the API server

    src/internal/httpapi/server.go, auth.go, console.go, listing.go, pgo.go,
    audit.go and requestid.go: what [ServeHTTP] does with one request, over the
    interface of what it calls.  The handlers of the PGO routes are calls here,
    and their own files model them; what a call answers is not restricted.
    The texts of messages and the durations of the records are not modelled;
    [mime.ParseMediaType], [time.ParseDuration] and the random choice of a
    target are arguments. *)

From S2P Require Import Prelude Effects Ident Sha256 Policy Records Keys Caches Discovery.
From S2P Require Import Lifecycle Runtime Publisher Api.
From S2P Require Import Routes Query Listing Timestamp Cursor Interaction Auth.

(** ** What the server is given *)

(** What the algorithm reads of a request; the credentials are the
    authenticator's. *)
Record http_request := {
  r_Method : string;
  r_Path : string;
  r_RawQuery : string;
  r_ContentTypes : list string;
  r_RequestIDs : list string;
  r_ContentLength : Z
}.

(** What it reads of a configuration snapshot. *)
Record config := {
  c_PGOEnabled : bool;
  c_Auth : AuthConfig;
  c_Realms : gmap string Realm;
  c_Limits : LimitsConfig;
  c_Pprof : PprofConfig
}.

(** Which of the optional parts of [Deps] are set. *)
Record Deps := { d_Ready : bool; d_AuthRoutes : bool; d_Console : bool }.

Inductive discoveryErr := ErrServiceNotFound | ErrServiceSelectorless | ErrDiscovery.

(** [proxy.Outcome] and [proxy.Request]. *)
Record Outcome := { out_Code : string; out_Status : Z; out_Committed : bool }.
Record upstreamRequest := { up_Target : Target; up_Path : string; up_Seconds : Z; up_Budget : duration }.

(** A write through the console's writer, and one through the login routes',
    with whether the request had ended by then. *)
Inductive consoleWrite := WroteHeader (status : Z) | WroteBody.
Definition authWrite : Type := bool.

Definition header : Type := gmap string string.

(** The body of an answer the server writes itself. *)
Inductive body :=
  | BEmpty
  | BError (code : string) (details : list (detail * string))
  | BTargets (ns svc : string) (targets : list targetView)
  | BExplain (ns svc : string) (targets : list targetView) (matched : nat) (excluded : list (exclusion * nat))
  | BWhoami (w : whoamiBody)
  | BLimits (l : limitsBody)
  | BNamespaces (l : list string)
  | BServices (ns : string) (l : list string)
  | BCatalog (l : list serviceRef)
  | BAuthInfo (mode : string) (cli : option authInfoCLI)
  | BOpenAPI.

(** The handlers of the PGO routes past the dispatch. *)
Inductive pgoHandler :=
  | servePolicyRead | servePolicyWrite | servePolicyDelete | serveLatestCollection
  | serveCollectionList (q : CollectionQuery) | serveCollectionCreate
  | serveCollectionRead (wait : duration) | serveCollectionDownload | serveCollectionCancel.

(** How a handler ended: an answer written, a refusal for [fail], a client
    that left, a stream cut short. *)
Inductive handled :=
  | Handled (status : Z) (code : string)
  | HandlerRefused (e : requestError) (bodyDeadline : bool)
  | HandlerGone (status : Z)
  | HandlerStreamFailed (status : Z).

(** ** The audit record *)

Record auditRecord := mkAudit {
  a_requestID : string; a_pgo : bool; a_route : string; a_reason : string; a_principal : string;
  a_namespace : string; a_service : string; a_pod : string; a_profile : string; a_collection : string;
  a_method : string; a_seconds : Z; a_port : string; a_explain : bool; a_wait : duration;
  a_status : Z; a_code : string
}.

Definition no_audit (id : string) : auditRecord :=
  mkAudit id false "" "" "" "" "" "" "" "" "" 0 "" false 0 0 "".

Inductive attr := AStr (key v : string) | AInt (key : string) (v : Z) | ABool (key : string) (v : bool).

(** [writeAudit]: the keys of the record. *)
Definition audit_attrs (a : auditRecord) : list attr :=
  [AStr "requestId" (a_requestID a)] ++
  (if negb (String.eqb (a_route a) EmptyString) then
     [AStr "principal" (a_principal a); AStr "route" (a_route a); AStr "method" (a_method a)]
   else if a_pgo a then
     [AStr "principal" (a_principal a); AStr "namespace" (a_namespace a); AStr "service" (a_service a);
      AStr "collection" (a_collection a); AStr "method" (a_method a)]
   else
     [AStr "principal" (a_principal a); AStr "namespace" (a_namespace a); AStr "service" (a_service a);
      AStr "pod" (a_pod a); AStr "profile" (a_profile a); AInt "seconds" (a_seconds a);
      AStr "port" (a_port a)]) ++
  [AInt "status" (a_status a); AStr "code" (a_code a)] ++
  (if negb (String.eqb (a_reason a) EmptyString) then [AStr "auth_reason" (a_reason a)] else []) ++
  (if a_explain a then [ABool "explain" true] else []) ++
  (if 0 <? a_wait a then [AInt "wait" (a_wait a)] else []).

(** ** The calls *)

Inductive call : Type -> Type :=
  | Rand16 : call (list Byte.byte)
  | SetReadDeadline : call unit
  | ReadyFunc : call bool
  | HasSynced : call bool
  | CtxCut : call bool
  | CtxCanceled : call bool
  | Session : call bool
  | Authenticate : call authAnswer
  | ServeAuth (h : header) : call (list authWrite * authOutcome)
  | ServeConsole (h : header) : call (list consoleWrite)
  | DTargets (ns svc : string) (sel : PortSelection) : call (list Target + discoveryErr)
  | DExplain (ns svc : string) (sel : PortSelection) : call (Explanation + discoveryErr)
  | DCatalog (ns : string) : call (option (list serviceRef))
  | DConfirm (t : Target) (budget : duration) : call (option confirmError)
  | GateAcquire : call bool
  | GateRelease : call unit
  | InFlight (delta : Z) : call unit
  | ConfirmMetric (outcome : string) : call unit
  | AuthFailureMetric (mode reason : string) : call unit
  | UpstreamDo (h : header) (r : upstreamRequest) : call Outcome
  | ReadRecordOf (id : string) : call (result (string * string))
  | PGO (h : header) (f : pgoHandler) : call handled
  | Write (status : Z) (h : header) (b : body) : call unit
  | RequestMetric (endpoint profile code : string) : call unit
  | Audit (attrs : list attr) : call unit.

Abbreviation prog := (itx call).

(** ** The request *)

Record request := {
  q_routed : bool;
  q_route : route;
  q_authRoute : bool;
  q_console : bool;
  q_port : portParams;
  q_audit : auditRecord;
  q_header : header
}.

Definition set_audit (f : auditRecord -> auditRecord) (q : request) : request :=
  {| q_routed := q_routed q; q_route := q_route q; q_authRoute := q_authRoute q; q_console := q_console q;
     q_port := q_port q; q_audit := f (q_audit q); q_header := q_header q |}.
Definition set_header (k v : string) (q : request) : request :=
  {| q_routed := q_routed q; q_route := q_route q; q_authRoute := q_authRoute q; q_console := q_console q;
     q_port := q_port q; q_audit := q_audit q; q_header := <[k := v]> (q_header q) |}.
Definition set_port (p : portParams) (q : request) : request :=
  {| q_routed := q_routed q; q_route := q_route q; q_authRoute := q_authRoute q; q_console := q_console q;
     q_port := p; q_audit := q_audit q; q_header := q_header q |}.
Definition as_console (q : request) : request :=
  {| q_routed := q_routed q; q_route := q_route q; q_authRoute := q_authRoute q; q_console := true;
     q_port := q_port q; q_audit := q_audit q; q_header := q_header q |}.
Definition as_auth_route (q : request) : request :=
  {| q_routed := q_routed q; q_route := q_route q; q_authRoute := true; q_console := q_console q;
     q_port := q_port q; q_audit := q_audit q; q_header := q_header q |}.
Definition as_routed (rt : route) (q : request) : request :=
  {| q_routed := true; q_route := rt; q_authRoute := q_authRoute q; q_console := q_console q;
     q_port := q_port q; q_audit := q_audit q; q_header := q_header q |}.

(** The assignments to the audit record, by what they set. *)
Definition ending (status : Z) (code : string) (a : auditRecord) : auditRecord :=
  let '(mkAudit i p r re pn ns sv po pf co me se pt ex wa _ _) := a in
  mkAudit i p r re pn ns sv po pf co me se pt ex wa status code.
Definition coded (code : string) (a : auditRecord) : auditRecord := ending (a_status a) code a.
Definition acting (principal reason : string) (a : auditRecord) : auditRecord :=
  let '(mkAudit i p r _ _ ns sv po pf co me se pt ex wa st cd) := a in
  mkAudit i p r reason principal ns sv po pf co me se pt ex wa st cd.
Definition on_auth_route (name method : string) (a : auditRecord) : auditRecord :=
  let '(mkAudit i p _ re pn ns sv po pf co _ se pt ex wa st cd) := a in
  mkAudit i p name re pn ns sv po pf co method se pt ex wa st cd.
Definition on_route (rt : route) (method : string) (a : auditRecord) : auditRecord :=
  let '(mkAudit i _ r re pn _ _ po _ _ _ se pt ex wa st cd) := a in
  mkAudit i (isPGO (rt_kind rt)) r re pn (rt_namespace rt) (rt_service rt) po (rt_profile rt)
    (rt_collection rt) method se pt ex wa st cd.
Definition on_service (ns svc : string) (a : auditRecord) : auditRecord :=
  let '(mkAudit i p r re pn _ _ po pf co me se pt ex wa st cd) := a in
  mkAudit i p r re pn ns svc po pf co me se pt ex wa st cd.
Definition on_pod (pod : string) (a : auditRecord) : auditRecord :=
  let '(mkAudit i p r re pn ns sv _ pf co me se pt ex wa st cd) := a in
  mkAudit i p r re pn ns sv pod pf co me se pt ex wa st cd.
Definition for_seconds (seconds : Z) (a : auditRecord) : auditRecord :=
  let '(mkAudit i p r re pn ns sv po pf co me _ pt ex wa st cd) := a in
  mkAudit i p r re pn ns sv po pf co me seconds pt ex wa st cd.
Definition at_port (sent : string) (a : auditRecord) : auditRecord :=
  let '(mkAudit i p r re pn ns sv po pf co me se _ ex wa st cd) := a in
  mkAudit i p r re pn ns sv po pf co me se sent ex wa st cd.
Definition explained (a : auditRecord) : auditRecord :=
  let '(mkAudit i p r re pn ns sv po pf co me se pt _ wa st cd) := a in
  mkAudit i p r re pn ns sv po pf co me se pt true wa st cd.
Definition waiting (wait : duration) (a : auditRecord) : auditRecord :=
  let '(mkAudit i p r re pn ns sv po pf co me se pt ex _ st cd) := a in
  mkAudit i p r re pn ns sv po pf co me se pt ex wait st cd.

(** [request.labels]: the endpoint and the profile of the metrics. *)
Definition labelNone : string := "none".
Definition labelCPU : string := "cpu".
Definition labels (q : request) : string * string :=
  if q_console q then ("ui", labelNone)
  else if q_authRoute q then ("auth", labelNone)
  else if negb (q_routed q) then ("profile", labelNone)
  else
    match rt_kind (q_route q) with
    | kindTargets => ("targets", labelNone)
    | kindPGOPolicy => ("pgo_policy", labelNone)
    | kindCollections => ("collections", labelNone)
    | kindCollection | kindCollectionLatest => ("collection", labelCPU)
    | kindCollectionProfile | kindCollectionLatestProfile => ("collection_profile", labelCPU)
    | kindCollectionCancel => ("collection_cancel", labelCPU)
    | kindNamespaces => ("namespaces", labelNone)
    | kindServices => ("services", labelNone)
    | kindCatalog => ("catalog", labelNone)
    | kindWhoami => ("whoami", labelNone)
    | kindLimits => ("limits", labelNone)
    | kindAuth | kindAuthLogin | kindAuthCallback | kindAuthLogout => ("auth", labelNone)
    | kindOpenAPI => ("openapi", labelNone)
    | kindConsole => ("ui", labelNone)
    | kindProfile =>
        if IsProfile (rt_profile (q_route q)) then ("profile", rt_profile (q_route q)) else ("profile", labelNone)
    end%string.

(** [request.narrated]. *)
Definition narrated (q : request) : bool :=
  if q_console q then false
  else if negb (q_routed q) then true
  else negb (bool_decide (rt_kind (q_route q) = kindAuth)) && negb (bool_decide (rt_kind (q_route q) = kindOpenAPI)).

(** ** Errors *)

Definition codeOK : string := "ok".
Definition codeStreamFailed : string := "upstream_stream_failed".
Definition codeDrainExpired : string := "drain_expired".
Definition codeClientGone : string := "client_gone".
Definition codeInternalError : string := "internal_error".
Definition codeAuthRedirect : string := "auth_redirect".
Definition requestIDHeader : string := "X-Request-Id".
Definition waitElapsedHeader : string := "X-Wait-Elapsed".
Definition budgetGrace : duration := 30 * second.

(** A refusal with its details; a body that missed its deadline is marked. *)
Record refused := { rf_error : requestError; rf_details : list (detail * string); rf_bodyDeadline : bool }.

Definition plain (status : Z) (code : string) : refused :=
  {| rf_error := refusal status code; rf_details := []; rf_bodyDeadline := false |}.
Definition errRouteUnknown : refused := plain 404 "route_unknown".
Definition errNotReady : refused := plain 503 "not_ready".
Definition methodNotAllowed : refused := plain 405 "method_not_allowed".
(** The refusals of a parameter are all 400. *)
Definition bad_params (e : paramError) : refused :=
  {| rf_error := refusal 400 (pe_code e); rf_details := pe_details e; rf_bodyDeadline := false |}.
Definition refusedBy (e : requestError) (bodyDeadline : bool) : refused :=
  {| rf_error := e; rf_details := []; rf_bodyDeadline := bodyDeadline |}.

(** [discoveryError]. *)
Definition discoveryError (e : discoveryErr) : refused :=
  match e with
  | ErrServiceNotFound => plain 404 "service_not_found"
  | ErrServiceSelectorless => plain 422 "service_selectorless"
  | ErrDiscovery => plain 503 "discovery_unavailable"
  end.
Definition selectRefusal (e : selectError) : refused :=
  match e with PodNotFound => plain 404 "pod_not_found" | NoTargets => plain 503 "no_targets" end.

(** How a handler returns: the request as it left it, and whether it panicked
    with [http.ErrAbortHandler]. *)
Definition ended : Type := request * bool.
Definition finished (q : request) : prog ended := mret (q, false).
Definition aborted (status : Z) (code : string) (q : request) : prog ended :=
  mret (set_audit (ending status code) q, true).

(** [request.gone]. *)
Definition gone : prog bool :=
  c ← ask CtxCanceled;
  if c : bool then (k ← ask CtxCut; mret (negb k)) else mret false.

(** [writeError]. *)
Definition writeError (e : refused) (q : request) : prog ended :=
  let q := set_header "Cache-Control" "no-store" (set_header "Content-Type" "application/json" q) in
  _ ← ask (Write (re_status (rf_error e)) (q_header q) (BError (re_code (rf_error e)) (rf_details e)));
  finished q.

(** [request.fail]. *)
Definition fail (e : refused) (q : request) : prog ended :=
  k ← ask CtxCut;
  if k : bool then aborted 0 codeDrainExpired q
  else
    g ← gone;
    if (g : bool) && negb (rf_bodyDeadline e) then aborted 0 codeClientGone q
    else writeError e (set_audit (ending (re_status (rf_error e)) (re_audit (rf_error e))) q).

(** [writeJSON] of a 200 and the audit of it. *)
Definition answerOK (b : body) (q : request) : prog ended :=
  let q := set_header "Content-Type" "application/json" (set_audit (ending 200 codeOK) q) in
  _ ← ask (Write 200 (q_header q) b);
  finished q.

(** ** The console and the login routes *)

(** [statusWriter]: the first status, 200 of a body without one. *)
Definition console_status (writes : list consoleWrite) : Z :=
  foldl (fun status w => if status =? 0 then match w with WroteHeader n => n | WroteBody => 200 end else status)
    0 writes.

(** [consoleCode]. *)
Definition consoleCode (status : Z) : string :=
  if (200 <=? status) && (status <? 400) then codeOK
  else if status =? 404 then "route_unknown"
  else if status =? 405 then "method_not_allowed"
  else codeInternalError.

(** [authRouteName]. *)
Definition authRouteName (k : routeKind) : string :=
  match k with
  | kindAuthLogin => "auth_login"
  | kindAuthCallback => "auth_callback"
  | kindAuthLogout => "auth_logout"
  | _ => EmptyString
  end.

(** [generateRequestID] and [RequestID]. *)
Definition generateRequestID : prog string :=
  b ← ask Rand16; mret (hex_encode ((fun x => Z.of_N (Byte.to_N x)) <$> b)).
Definition RequestID (ids : list string) : prog string :=
  match ids with
  | [v] => if echoable v then mret v else generateRequestID
  | _ => generateRequestID
  end.

Section server.
  Variables (deps : Deps) (cfg : config) (r : http_request).
  Variables IsDNS1123Label IsDNS1123Subdomain IsValidPortName : string -> bool.
  Variable ParseMediaType : string -> option string.
  Variable ParseDuration : string -> option Z.
  Variable choose : nat -> nat.

(** [ready]. *)
Definition ready : prog bool := if d_Ready deps then ask ReadyFunc else ask HasSynced.

(** [mediaTypeFault]. *)
Definition mediaTypeFault : option refused :=
  match r_ContentTypes r with
  | [v] =>
      if bool_decide (ParseMediaType v = Some "application/json"%string) then None
      else Some (plain 400 "invalid_parameter")
  | _ => Some (plain 400 "invalid_parameter")
  end.

(** [serveConsole]. *)
Definition serveConsole (q : request) : prog ended :=
  let q := as_console q in
  if negb (d_Console deps) then fail errRouteUnknown q
  else
    w ← ask (ServeConsole (q_header q));
    let status := if console_status w =? 0 then 200 else console_status w in
    finished (set_audit (ending status (consoleCode status)) q).

(** [serveAuthRoute]; the writes made once the request had ended were refused by
    [cutWriter]. *)
Definition serveAuthRoute (d : declaration) (q : request) : prog ended :=
  let name := authRouteName (Kind d) in
  if String.eqb name EmptyString || negb (d_AuthRoutes deps) then fail errRouteUnknown q
  else
    let q := set_audit (fun a => acting noPrincipal (a_reason a) (on_auth_route name (r_Method r) a))
               (as_auth_route q) in
    if negb (bool_decide (r_Method r ∈ Methods d))
    then fail methodNotAllowed (set_header "Allow" (String.concat ", " (Methods d)) q)
    else
      ok ← ready;
      if negb ok then fail errNotReady q
      else
        o ← ask (ServeAuth (q_header q));
        let '(writes, out) := o in
        let record :=
          let q := set_audit (fun a => acting (ao_Principal out) (ao_Reason out)
                                         (ending (ao_Status out) (ao_Code out) a)) q in
          if (ao_Status out =? 401) || (ao_Status out =? 503)
          then (_ ← ask (AuthFailureMetric (auth_Mode (c_Auth cfg)) (ao_Reason out)); finished q)
          else finished q in
        if existsb negb writes then record
        else
          k ← ask CtxCut;
          if k : bool then aborted 0 codeDrainExpired q
          else
            g ← gone;
            if g : bool then aborted 0 codeClientGone q else record.

(** ** Authentication *)

(** [failAuth]. *)
Definition failAuth (f : Failure) (q : request) : prog ended :=
  let q := set_audit (acting noPrincipal (af_Reason f)) q in
  let q := if af_ClearSession f then set_header "Set-Cookie" deletedSession q else q in
  if negb (String.eqb (af_Redirect f) EmptyString) then
    let q := set_header "Location" (af_Redirect f) (set_audit (ending 302 codeAuthRedirect) q) in
    _ ← ask (Write 302 (q_header q) BEmpty);
    finished q
  else
    _ ← ask (AuthFailureMetric (auth_Mode (c_Auth cfg)) (af_Reason f));
    if af_Status f =? 401 then
      let challenge := Challenge (auth_Mode (c_Auth cfg)) in
      fail (plain 401 "unauthenticated")
        (if String.eqb challenge EmptyString then q else set_header "WWW-Authenticate" challenge q)
    else if af_Status f =? 429 then fail (plain 429 "too_many_auth") (set_header "Retry-After" "1" q)
    else fail (plain 503 "auth_unavailable") (set_header "Retry-After" "5" q).

(** [authenticate]: the principal and the realm, or the answer given. *)
Definition authenticate (q : request) (next : Principal -> Realm -> request -> prog ended) : prog ended :=
  a ← ask Authenticate;
  match a with
  | AuthError =>
      failAuth {| af_Status := 503; af_Reason := "internal"; af_Redirect := EmptyString;
                  af_ClearSession := false |} q
  | AuthFailed f => failAuth f q
  | AuthOK p =>
      match c_Realms cfg !! p_Realm p with
      | None =>
          failAuth {| af_Status := 401; af_Reason := "no_realm"; af_Redirect := EmptyString;
                      af_ClearSession := false |} q
      | Some realm => next p realm (set_audit (fun a => acting (p_Name p) (a_reason a) a) q)
      end
  end.

(** ** The routes *)

Definition has_query : bool := negb (String.eqb (r_RawQuery r) EmptyString).
Definition refuse_query (q : request) : prog ended := fail (bad_params (noParameters (r_RawQuery r))) q.

(** [serveAuthInfo] and [serveOpenAPI]. *)
Definition serveAuthInfo (q : request) : prog ended :=
  if has_query then refuse_query q
  else let '(mode, cli) := authInfoView (c_Auth cfg) in answerOK (BAuthInfo mode cli) q.
Definition serveOpenAPI (q : request) : prog ended :=
  if has_query then refuse_query q else answerOK BOpenAPI q.

(** [admittedCatalog] and [serveListing]. *)
Definition listed (realm : Realm) (q : request) (view : list serviceRef -> body) : prog ended :=
  refs ← ask (DCatalog (rt_namespace (q_route q)));
  match refs with
  | None => fail (plain 503 "discovery_unavailable") q
  | Some refs => answerOK (view (admittedCatalog realm refs)) q
  end.
Definition serveListing (p : Principal) (realm : Realm) (q : request) : prog ended :=
  if has_query then refuse_query q
  else
    match rt_kind (q_route q) with
    | kindWhoami => answerOK (BWhoami (whoamiView (c_Auth cfg) (p_Name p) (p_Realm p) realm)) q
    | kindLimits => answerOK (BLimits (limitsView (c_Limits cfg) (c_Pprof cfg) (c_PGOEnabled cfg))) q
    | kindNamespaces => listed realm q (fun refs => BNamespaces (namespacesOf refs))
    | kindServices => listed realm q (fun refs => BServices (rt_namespace (q_route q)) (servicesOf refs))
    | kindCatalog => listed realm q (fun refs => BCatalog (catalogOf refs))
    | _ => fail errRouteUnknown q
    end.

(** What the request's record says of a handler, and what is left to do.  A
    create whose client left once the publication had begun aborts the
    connection; a read or a download returns. *)
Definition handle (f : pgoHandler) (q : request) : prog ended :=
  a ← ask (PGO (q_header q) f);
  match a with
  | Handled status code => finished (set_audit (ending status code) q)
  | HandlerRefused e bodyDeadline => fail (refusedBy e bodyDeadline) q
  | HandlerGone status =>
      match f with
      | serveCollectionCreate => aborted 0 codeClientGone q
      | _ => finished (set_audit (ending status codeClientGone) q)
      end
  | HandlerStreamFailed status => aborted status "artifact_stream_failed" q
  end.

(** [servePGOService]. *)
Definition servePGOService (q : request) : prog ended :=
  let k := rt_kind (q_route q) in
  let dispatch (query : CollectionQuery) (listing : bool) : prog ended :=
    if bool_decide (k = kindPGOPolicy) && String.eqb (r_Method r) MethodGet then handle servePolicyRead q
    else if bool_decide (k = kindPGOPolicy) && String.eqb (r_Method r) MethodPut then handle servePolicyWrite q
    else if bool_decide (k = kindPGOPolicy) then handle servePolicyDelete q
    else if bool_decide (k = kindCollectionLatest) || bool_decide (k = kindCollectionLatestProfile)
    then handle serveLatestCollection q
    else if listing then handle (serveCollectionList query) q
    else handle serveCollectionCreate q in
  if bool_decide (k = kindCollections) && String.eqb (r_Method r) MethodGet then
    match parseCollectionList (r_RawQuery r) with
    | inr e => fail (bad_params e) q
    | inl query => dispatch query true
    end
  else if has_query then refuse_query q
  else dispatch (ls_query list_start) false.

(** The route whose realm decides: the record's own namespace and Service. *)
Definition scoped (rt : route) (ns svc : string) : route :=
  {| rt_kind := rt_kind rt; rt_namespace := ns; rt_service := svc; rt_profile := rt_profile rt;
     rt_collection := rt_collection rt |}.

(** [servePGOCollection] from the record read on: [s] is what [readCollection]
    read, the record's namespace and Service. *)
Definition answerCollection (realm : Realm) (wait : duration) (q : request) (s : result (string * string)) :
    prog ended :=
  match s with
  | Err ErrKeyNotFound => fail (refusedBy errCollectionNotFound false) q
  | Err _ => fail (refusedBy errPGOUnavailable false) q
  | Ok (ns, svc) =>
      let q := set_audit (on_service ns svc) q in
      if negb (realmAllows realm (scoped (q_route q) ns svc) (r_Method r))
      then fail (refusedBy errCollectionNotFound false) q
      else
        match rt_kind (q_route q) with
        | kindCollection => handle (serveCollectionRead wait) q
        | kindCollectionProfile => handle serveCollectionDownload q
        | kindCollectionCancel => handle serveCollectionCancel q
        | _ => fail (refusedBy errCollectionNotFound false) q
        end
  end.

(** [servePGOCollection]. *)
Definition servePGOCollection (realm : Realm) (q : request) : prog ended :=
  let read (wait : duration) (q : request) : prog ended :=
    s ← ask (ReadRecordOf (rt_collection (q_route q)));
    answerCollection realm wait q s in
  if bool_decide (rt_kind (q_route q) = kindCollection) then
    match parseWait ParseDuration (r_RawQuery r) with
    | inr e => fail (bad_params e) q
    | inl wait =>
        let q := set_audit (waiting wait) q in
        read wait (if 0 <? wait then set_header waitElapsedHeader "0.000" q else q)
    end
  else if has_query then refuse_query q
  else read 0 q.

(** [serveTargets]. *)
Definition serveTargets (params : targetsParams) (q : request) : prog ended :=
  let rt := q_route q in
  let ns := rt_namespace rt in
  let svc := rt_service rt in
  if tp_explain params then
    let q := set_audit explained q in
    x ← ask (DExplain ns svc (pp_sel (q_port q)));
    match x with
    | inr e => fail (discoveryError e) q
    | inl x =>
        let '(targets, dropped) := filterTargets (ex_Targets x) params in
        answerOK (BExplain ns svc (targetViews targets) (ex_SelectorMatched x)
          (mergeExclusions (ex_Excluded x) dropped)) q
    end
  else
    x ← ask (DTargets ns svc (pp_sel (q_port q)));
    match x with
    | inr e => fail (discoveryError e) q
    | inl targets => answerOK (BTargets ns svc (targetViews (filterTargets targets params).1)) q
    end.

(** [upstreamMessage] is a text; the answer of a proxy failure before headers. *)
Definition proxy_failure (out : Outcome) (q : request) : prog ended :=
  writeError (plain (out_Status out) (out_Code out)) q.

(** What [serveProfile] does once it holds a slot. *)
Definition confirm_and_proxy (spec : profileSpec) (params : profileParams) (target : Target) (q : request) :
    prog ended :=
  let budget := pr_seconds params * second + budgetGrace in
  c ← ask (DConfirm target budget);
  match c with
  | Some ErrTargetChanged =>
      _ ← ask (ConfirmMetric "changed"); fail (plain 503 "target_changed") q
  | Some ErrCanceled =>
      _ ← ask (ConfirmMetric codeClientGone); finished (set_audit (coded codeClientGone) q)
  | Some ErrDiscoveryUnavailable =>
      _ ← ask (ConfirmMetric "unavailable"); fail (plain 503 "discovery_unavailable") q
  | None =>
      _ ← ask (ConfirmMetric "ok");
      out ← ask (UpstreamDo (q_header q)
        {| up_Target := target; up_Path := sp_path spec; up_Seconds := pr_seconds params; up_Budget := budget |});
      let q := set_audit (ending (out_Status out) (out_Code out)) q in
      if negb (out_Committed out) then
        k ← ask CtxCut;
        if k : bool then aborted 0 codeDrainExpired q
        else if negb (out_Status out =? 0) then proxy_failure out q
        else finished q
      else if String.eqb (out_Code out) codeStreamFailed then mret (q, true)
      else finished q
  end.

(** [serveProfile]; the deferred release runs whether the handler returned or
    panicked. *)
Definition serveProfile (spec : profileSpec) (params : profileParams) (q : request) : prog ended :=
  let rt := q_route q in
  x ← ask (DTargets (rt_namespace rt) (rt_service rt) (pp_sel (q_port q)));
  match x with
  | inr e => fail (discoveryError e) q
  | inl targets =>
      match selectTarget targets params choose with
      | inr e => fail (selectRefusal e) q
      | inl target =>
          let q := set_audit (on_pod (tg_Pod target)) q in
          ok ← ask GateAcquire;
          if negb ok then fail (plain 429 "too_many_profiles") q
          else
            _ ← ask (InFlight 1);
            e ← confirm_and_proxy spec params target q;
            _ ← ask (InFlight (-1));
            _ ← ask GateRelease;
            mret e
      end
  end.

(** The two interactive routes: parameters, then the allowlist, then the route. *)
Definition serveInteractive (spec : option profileSpec) (q : request) : prog ended :=
  match ParseQuery (r_RawQuery r) with
  | None => fail (bad_params (malformedParameter EmptyString)) q
  | Some values =>
      let allowed (q : request) (next : request -> prog ended) : prog ended :=
        match allowPort (c_Pprof cfg) (q_port q) with
        | Some e => fail (bad_params e) q
        | None => next q
        end in
      match spec with
      | None =>
          let '(port, parsed) := parseTargetsParams IsDNS1123Subdomain IsValidPortName values in
          let port := match parsed with inl params => tp_port params | inr _ => port end in
          let q := set_audit (at_port (pp_sent port)) (set_port port q) in
          match parsed with
          | inr e => fail (bad_params e) q
          | inl params => allowed q (serveTargets params)
          end
      | Some spec =>
          let parsed := parseProfileParams IsDNS1123Subdomain IsValidPortName values spec (c_Limits cfg) in
          let port := match parsePortParams IsValidPortName values with inl (port, _) => port | inr _ => no_port end in
          let q := set_audit (at_port (pp_sent port)) (set_port port q) in
          match parsed with
          | inr e => fail (bad_params e) q
          | inl params =>
              allowed q (fun q => serveProfile spec params (set_audit (for_seconds (pr_seconds params)) q))
          end
      end
  end.

(** [ServeHTTP] past authentication. *)
Definition serveAuthenticated (spec : option profileSpec) (p : Principal) (realm : Realm) (q : request) :
    prog ended :=
  let rt := q_route q in
  if isCollectionScoped (rt_kind rt) then servePGOCollection realm q
  else if negb (realmAllows realm rt (r_Method r)) then fail (plain 403 "realm_denied") q
  else if isListing (rt_kind rt) then serveListing p realm q
  else if isPGO (rt_kind rt) then servePGOService q
  else serveInteractive spec q.

(** [ServeHTTP] from the JSON media type on. *)
Definition serveRouted (spec : option profileSpec) (q : request) : prog ended :=
  let k := rt_kind (q_route q) in
  let credential (q : request) : prog ended :=
    if hasAccessToken (r_RawQuery r)
    then fail (bad_params (unknownParameter accessTokenParam)) q
    else authenticate q (serveAuthenticated spec) in
  match (if String.eqb (r_Method r) MethodPost && isPGOWrite k then mediaTypeFault else None) with
  | Some e => fail e q
  | None =>
      ok ← ready;
      if negb ok then fail errNotReady q
      else if bool_decide (k = kindAuth) then serveAuthInfo q
      else if bool_decide (k = kindOpenAPI) then serveOpenAPI q
      else if isPGO k then
        if negb (c_PGOEnabled cfg) then fail (plain 501 "pgo_disabled") q
        else
          s ← ask Session;
          if s : bool then credential q else fail (refusedBy errPGOUnavailable false) q
      else credential q
  end.

(** [ServeHTTP] up to its deferred function. *)
Definition serveMatched (q : request) : prog ended :=
  match match_path IsDNS1123Label (r_Path r) with
  | None => fail errRouteUnknown q
  | Some (rt, d) =>
      let k := rt_kind rt in
      if bool_decide (k = kindConsole) then serveConsole q
      else if isAuthRoute k then serveAuthRoute d q
      else
        let q := set_audit (on_route rt (r_Method r)) (as_routed rt q) in
        let checked (spec : option profileSpec) : prog ended :=
          if negb (bool_decide (r_Method r ∈ Methods d))
          then fail methodNotAllowed (set_header "Allow" (String.concat ", " (Methods d)) q)
          else serveRouted spec q in
        if bool_decide (k = kindProfile) then
          match lookupProfile (rt_profile rt) with
          | None => fail (plain 404 "profile_unknown") q
          | Some spec => checked (Some spec)
          end
        else checked None
  end.

(** The deferred function of [ServeHTTP]: it counts, writes the record, and
    aborts a request the drain cut. *)
Definition account_cut (e : ended) (k : bool) : prog ended :=
  let abort := k && String.eqb (a_code (q_audit e.1)) codeClientGone in
  let q := if abort then set_audit (coded codeDrainExpired) e.1 else e.1 in
  _ ← ask (RequestMetric (labels q).1 (labels q).2 (a_code (q_audit q)));
  _ ← (if narrated q then ask (Audit (audit_attrs (q_audit q))) else mret tt);
  mret (q, e.2 || abort).
Definition account (e : ended) : prog ended :=
  k ← ask CtxCut;
  account_cut e k.

Definition new_request (id : string) : request :=
  {| q_routed := false; q_route := empty_route kindTargets; q_authRoute := false; q_console := false;
     q_port := no_port; q_audit := no_audit id;
     q_header := {[ "Cache-Control"%string := "no-store"%string; requestIDHeader := id ]} |}.

(** [ServeHTTP]. *)
Definition ServeHTTP : prog ended :=
  id ← RequestID (r_RequestIDs r);
  _ ← (if r_ContentLength r =? 0 then mret tt else ask SetReadDeadline);
  e ← serveMatched (new_request id);
  account e.
End server.

(** ** The order of the steps *)

Section order.
  Variables (deps : Deps) (cfg : config) (r : http_request).
  Variables IsDNS1123Label IsDNS1123Subdomain IsValidPortName : string -> bool.
  Variable ParseMediaType : string -> option string.
  Variable ParseDuration : string -> option Z.
  Variable choose : nat -> nat.

  Abbreviation past := (list (answered call)).

Definition was_ready (h : past) : Prop := At ReadyFunc true ∈ h \/ At HasSynced true ∈ h.

(** The route and the declaration of the request, its method one of those the
    declaration lists. *)
Definition accepted (rt : route) : Prop :=
  exists d, match_path IsDNS1123Label (r_Path r) = Some (rt, d) /\ r_Method r ∈ Methods d.

Definition authenticated (h : past) (realm : Realm) : Prop :=
  exists p, At Authenticate (AuthOK p) ∈ h /\ c_Realms cfg !! p_Realm p = Some realm.

(** The request may act on a Service: its caller has a realm that admits it. *)
Definition admitted (h : past) (rt : route) : Prop :=
  accepted rt /\ exists realm, authenticated h realm /\ realmAllows realm rt (r_Method r) = true.

(** What has to have happened before each call. *)
Definition in_order (h : past) (R : Type) (c : call R) : Prop :=
  match c with
  | Session => was_ready h /\ c_PGOEnabled cfg = true
  | Authenticate =>
      was_ready h /\ hasAccessToken (r_RawQuery r) = false /\
      exists rt, accepted rt /\ (isPGO (rt_kind rt) = true -> At Session true ∈ h)
  | ServeAuth _ =>
      was_ready h /\ d_AuthRoutes deps = true /\ exists rt, accepted rt /\ isAuthRoute (rt_kind rt) = true
  | ServeConsole _ =>
      d_Console deps = true /\ exists rt d, match_path IsDNS1123Label (r_Path r) = Some (rt, d) /\
        rt_kind rt = kindConsole
  | DCatalog ns => exists rt, admitted h rt /\ isListing (rt_kind rt) = true /\ ns = rt_namespace rt
  | DTargets ns svc sel | DExplain ns svc sel =>
      exists rt, admitted h rt /\ ns = rt_namespace rt /\ svc = rt_service rt /\
        allowPort (c_Pprof cfg) {| pp_sel := sel; pp_sent := EmptyString |} = None
  | GateAcquire => exists rt sel targets, admitted h rt /\ rt_kind rt = kindProfile /\
      At (DTargets (rt_namespace rt) (rt_service rt) sel) (inl targets) ∈ h
  | DConfirm t _ =>
      (exists h', h = At (InFlight 1) tt :: At GateAcquire true :: h') /\
      exists rt sel targets, At (DTargets (rt_namespace rt) (rt_service rt) sel) (inl targets) ∈ h /\
        admitted h rt /\ t ∈ targets
  | UpstreamDo _ u =>
      exists h', h = At (ConfirmMetric "ok") tt :: At (DConfirm (up_Target u) (up_Budget u)) None
                     :: At (InFlight 1) tt :: At GateAcquire true :: h'
  | ReadRecordOf id =>
      exists rt realm, accepted rt /\ isCollectionScoped (rt_kind rt) = true /\ id = rt_collection rt /\
        authenticated h realm /\ At Session true ∈ h
  | PGO _ _ =>
      exists rt, At Session true ∈ h /\
        (admitted h rt \/
         exists realm ns svc, accepted rt /\ authenticated h realm /\
           At (ReadRecordOf (rt_collection rt)) (Ok (ns, svc)) ∈ h /\
           realmAllows realm (scoped rt ns svc) (r_Method r) = true)
  | _ => True
  end.

(** *** The steps keep to it *)

Abbreviation keeps p h := (pre in_order p h (fun _ _ => True)).

Lemma authenticated_more (h : past) (e : answered call) (realm : Realm) :
  authenticated h realm -> authenticated (e :: h) realm.
Proof. intros (p & Hp & Hr). exists p. split; [by right|done]. Qed.

Lemma admitted_more (h : past) (e : answered call) (rt : route) : admitted h rt -> admitted (e :: h) rt.
Proof. intros (Ha & realm & Hr & Hm). split; [done|]. exists realm. split; [by apply authenticated_more|done]. Qed.

Lemma was_ready_more (h : past) (e : answered call) : was_ready h -> was_ready (e :: h).
Proof. intros [?|?]; [left|right]; by right. Qed.

Lemma writeError_keeps e q h : keeps (writeError e q) h.
Proof. done. Qed.

Lemma fail_keeps e q h : keeps (fail e q) h.
Proof.
  split; [done|]. intros [|]; [done|]. split; [done|]. intros [|]; [split; [done|]; intros [|]|];
    by (destruct (rf_bodyDeadline e) + idtac).
Qed.

Lemma answerOK_keeps b q h : keeps (answerOK b q) h.
Proof. done. Qed.

Lemma handle_keeps f q h rt realm ns svc :
  At Session true ∈ h ->
  admitted h rt \/ (accepted rt /\ authenticated h realm /\
    At (ReadRecordOf (rt_collection rt)) (Ok (ns, svc)) ∈ h /\
    realmAllows realm (scoped rt ns svc) (r_Method r) = true) ->
  keeps (handle f q) h.
Proof.
  intros Hs Ha. unfold handle. apply pre_ask.
  - exists rt. split; [done|]. destruct Ha as [Ha|Ha]; [by left|right; by exists realm, ns, svc].
  - intros [status code|e b|status|status]; [done|apply fail_keeps|by destruct f|done].
Qed.

Lemma listing_keeps p realm q h :
  admitted h (q_route q) -> isListing (rt_kind (q_route q)) = true -> keeps (serveListing cfg r p realm q) h.
Proof.
  intros Ha Hl. unfold serveListing, refuse_query. destruct (has_query r); [apply fail_keeps|].
  assert (forall view, keeps (listed realm q view) h) as Hlist.
  { intros view. unfold listed. apply pre_ask; [by exists (q_route q)|].
    intros [refs|]; [apply answerOK_keeps|apply fail_keeps]. }
  destruct (rt_kind (q_route q)); first [apply Hlist|apply fail_keeps|apply answerOK_keeps].
Qed.

Lemma pgo_service_keeps q h :
  admitted h (q_route q) -> At Session true ∈ h -> keeps (servePGOService r q) h.
Proof.
  intros Ha Hs. unfold servePGOService, refuse_query.
  assert (forall f, keeps (handle f q) h) as Hh.
  { intros f. apply (handle_keeps f q h (q_route q) (Build_Realm [] [] [] (Build_RealmPGO false false false)) "" "");
      [done|by left]. }
  repeat case_match; first [apply Hh|apply fail_keeps].
Qed.

Lemma pgo_collection_keeps realm q h :
  accepted (q_route q) -> isCollectionScoped (rt_kind (q_route q)) = true -> authenticated h realm ->
  At Session true ∈ h -> keeps (servePGOCollection r ParseDuration realm q) h.
Proof.
  intros Hacc Hk Ha Hs. unfold servePGOCollection, refuse_query.
  assert (forall wait q', q_route q' = q_route q ->
    keeps (s ← ask (ReadRecordOf (rt_collection (q_route q'))); answerCollection r realm wait q' s) h) as Hread.
  { intros wait q' Hq. rewrite Hq. apply pre_ask; [by exists (q_route q), realm|]. unfold answerCollection.
    intros [[ns svc]|[]]; try apply fail_keeps. cbv zeta.
    change (q_route (set_audit (on_service ns svc) q')) with (q_route q'). rewrite Hq.
    destruct (realmAllows realm (scoped (q_route q) ns svc) (r_Method r)) eqn:Hr; [|apply fail_keeps]. cbn [negb].
    assert (forall f q'', keeps (handle f q'') (At (ReadRecordOf (rt_collection (q_route q))) (Ok (ns, svc)) :: h))
      as Hh.
    { intros f q''. apply (handle_keeps f q'' _ (q_route q) realm ns svc); [by right|right].
      split; [done|]. split; [by apply authenticated_more|]. split; [by left|done]. }
    destruct (rt_kind (q_route q)); first [apply Hh|apply fail_keeps]. }
  destruct (bool_decide _).
  - destruct (parseWait ParseDuration (r_RawQuery r)) as [wait|e]; [|apply fail_keeps].
    cbv zeta. apply (Hread wait (if 0 <? wait then _ else _)). by destruct (0 <? wait).
  - destruct (has_query r); [apply fail_keeps|]. by apply Hread.
Qed.

Lemma targets_keeps params q h :
  admitted h (q_route q) -> allowPort (c_Pprof cfg) (q_port q) = None -> keeps (serveTargets params q) h.
Proof.
  intros Ha Hp. unfold serveTargets. destruct (tp_explain params); apply pre_ask;
    try (exists (q_route q); by repeat split; try apply Ha).
  - intros [x|e]; [|apply fail_keeps]. by destruct (filterTargets (ex_Targets x) params).
  - intros [x|e]; [apply answerOK_keeps|apply fail_keeps].
Qed.

Lemma selectTarget_in (targets : list Target) params t :
  selectTarget targets params choose = inl t -> t ∈ targets.
Proof.
  unfold selectTarget. set (rem := if String.eqb (pr_version params) EmptyString then targets else _).
  assert (forall x, x ∈ rem -> x ∈ targets) as Hr.
  { intros x. unfold rem. destruct (String.eqb _ _); [done|]. by intros [_ ?]%list_elem_of_filter. }
  clearbody rem. destruct (negb _).
  - destruct (List.find _ rem) as [x|] eqn:E; [|done]. intros [= <-]. apply Hr.
    apply find_some in E as [E _]. by apply list_elem_of_In.
  - destruct rem as [|x rem]; [done|]. intros Heq. apply Hr.
    assert (t = nth (choose (length (x :: rem))) (x :: rem) x) as -> by congruence.
    destruct (nth_in_or_default (choose (length (x :: rem))) (x :: rem) x) as [?|Hd].
    + by apply list_elem_of_In.
    + rewrite Hd. by left.
Qed.

Lemma proxy_keeps spec params t q h h' :
  h = At (InFlight 1) tt :: At GateAcquire true :: h' ->
  (exists rt sel targets, At (DTargets (rt_namespace rt) (rt_service rt) sel) (inl targets) ∈ h /\
     admitted h rt /\ t ∈ targets) ->
  keeps (confirm_and_proxy spec params t q) h.
Proof.
  intros Hh Ht. unfold confirm_and_proxy. apply pre_ask; [split; [by exists h'|exact Ht]|].
  intros [[| |]|]; (apply pre_ask; [done|]); intros []; first [exact I|apply fail_keeps|idtac].
  apply pre_ask; [exists h'; by rewrite Hh|]. intros out. destruct (out_Committed out).
  - cbn [negb]. by destruct (String.eqb _ _).
  - cbn [negb]. apply pre_ask; [done|]. intros [|]; [done|]. by destruct (out_Status out =? 0).
Qed.

Lemma profile_keeps spec params q h :
  admitted h (q_route q) -> rt_kind (q_route q) = kindProfile -> allowPort (c_Pprof cfg) (q_port q) = None ->
  keeps (serveProfile choose spec params q) h.
Proof.
  intros Ha Hk Hp. unfold serveProfile. apply pre_ask; [exists (q_route q); by repeat split; try apply Ha|].
  intros [targets|e]; [|apply fail_keeps].
  destruct (selectTarget targets params choose) as [t|e] eqn:Ht; [|apply fail_keeps].
  apply selectTarget_in in Ht. cbv zeta. apply pre_ask.
  { exists (q_route q), (pp_sel (q_port q)), targets. split; [by apply admitted_more|]. split; [done|]. by left. }
  intros [|]; [|apply fail_keeps]. cbn [negb]. apply pre_ask; [done|]. intros []. apply pre_bind.
  eapply pre_mono; [eapply proxy_keeps; [done|]|done].
  exists (q_route q), (pp_sel (q_port q)), targets. split; [by do 2 right; left|]. split; [|done].
  by do 3 apply admitted_more.
Qed.

Lemma interactive_keeps spec q h :
  admitted h (q_route q) -> (is_Some spec -> rt_kind (q_route q) = kindProfile) ->
  keeps (serveInteractive cfg r IsDNS1123Subdomain IsValidPortName choose spec q) h.
Proof.
  intros Ha Hk. unfold serveInteractive. destruct (ParseQuery (r_RawQuery r)) as [values|]; [|apply fail_keeps].
  destruct spec as [spec|].
  - cbv zeta. destruct (parseProfileParams _ _ _ _ _) as [params|e]; [|apply fail_keeps].
    match goal with |- context [set_port ?port q] => set (sel := port) end. clearbody sel.
    destruct (allowPort _ _) eqn:Hp; [apply fail_keeps|].
    apply profile_keeps; [exact Ha|by apply Hk|exact Hp].
  - destruct (parseTargetsParams _ _ values) as [port parsed]. destruct parsed as [params|e]; [|apply fail_keeps].
    cbv zeta. destruct (allowPort _ _) eqn:Hp; [apply fail_keeps|]. by apply targets_keeps.
Qed.

Lemma failAuth_keeps f q h : keeps (failAuth cfg f q) h.
Proof.
  unfold failAuth. destruct (String.eqb (af_Redirect f) EmptyString); [|done]. cbn [negb]. apply pre_ask; [done|].
  intros []. repeat case_match; apply fail_keeps.
Qed.

(** A kind that is neither of the two interactive routes is one of the others. *)
Lemma authenticated_keeps spec p realm q h :
  accepted (q_route q) -> authenticated h realm ->
  (isPGO (rt_kind (q_route q)) = true -> At Session true ∈ h) ->
  (is_Some spec -> rt_kind (q_route q) = kindProfile) ->
  keeps (serveAuthenticated cfg r IsDNS1123Subdomain IsValidPortName ParseDuration choose spec p realm q) h.
Proof.
  intros Hacc Ha Hs Hk. unfold serveAuthenticated.
  destruct (isCollectionScoped (rt_kind (q_route q))) eqn:Hc.
  { apply pgo_collection_keeps; try done. apply Hs. by destruct (rt_kind (q_route q)). }
  destruct (realmAllows realm (q_route q) (r_Method r)) eqn:Hr; [|apply fail_keeps].
  assert (admitted h (q_route q)) as Had by (split; [done|by exists realm]). cbn [negb].
  destruct (isListing (rt_kind (q_route q))) eqn:Hl; [by apply listing_keeps|].
  destruct (isPGO (rt_kind (q_route q))) eqn:Hpgo; [apply pgo_service_keeps; auto|].
  by apply interactive_keeps.
Qed.

Lemma credential_keeps spec q h :
  accepted (q_route q) -> was_ready h -> (isPGO (rt_kind (q_route q)) = true -> At Session true ∈ h) ->
  (is_Some spec -> rt_kind (q_route q) = kindProfile) ->
  keeps (if hasAccessToken (r_RawQuery r) then fail (bad_params (unknownParameter accessTokenParam)) q
         else authenticate cfg q (serveAuthenticated cfg r IsDNS1123Subdomain IsValidPortName ParseDuration choose spec)) h.
Proof.
  intros Hacc Hr Hs Hk. destruct (hasAccessToken (r_RawQuery r)) eqn:Ht; [apply fail_keeps|].
  unfold authenticate. apply pre_ask; [split; [done|]; split; [done|]; by exists (q_route q)|].
  intros [p|f|]; try apply failAuth_keeps. destruct (c_Realms cfg !! p_Realm p) as [realm|] eqn:He;
    [|apply failAuth_keeps].
  apply authenticated_keeps; [done|exists p; split; [by left|done]| |done]. intros Hp. right. by apply Hs.
Qed.

Lemma ready_keeps (k : bool -> prog ended) h :
  (forall h', was_ready h' -> keeps (k true) h') -> (forall h', keeps (k false) h') ->
  keeps (ready deps ≫= k) h.
Proof.
  intros Ht Hf. unfold ready. destruct (d_Ready deps); (apply pre_ask; [done|]); intros [|]; auto;
    apply Ht; [left|right]; by left.
Qed.

Lemma routed_keeps spec q h :
  accepted (q_route q) -> (is_Some spec -> rt_kind (q_route q) = kindProfile) ->
  keeps (serveRouted deps cfg r IsDNS1123Subdomain IsValidPortName ParseMediaType ParseDuration choose spec q) h.
Proof.
  intros Hacc Hk. unfold serveRouted. destruct (if _ : bool then _ else None); [apply fail_keeps|].
  apply ready_keeps; [intros h' Hr|intros h'; apply fail_keeps]. cbn [negb]. case_bool_decide.
  { unfold serveAuthInfo, refuse_query. destruct (has_query r); [apply fail_keeps|].
    by destruct (authInfoView (c_Auth cfg)). }
  case_bool_decide.
  { unfold serveOpenAPI, refuse_query. destruct (has_query r); [apply fail_keeps|apply answerOK_keeps]. }
  destruct (isPGO (rt_kind (q_route q))) eqn:Hp.
  - destruct (c_PGOEnabled cfg) eqn:He; [|apply fail_keeps]. cbn [negb]. apply pre_ask; [done|].
    intros [|]; [|apply fail_keeps]. apply credential_keeps; [done|by apply was_ready_more| |done].
    intros _. by left.
  - apply credential_keeps; [done|done|by rewrite Hp|done].
Qed.

Lemma auth_route_keeps rt d q h :
  match_path IsDNS1123Label (r_Path r) = Some (rt, d) -> isAuthRoute (rt_kind rt) = true ->
  keeps (serveAuthRoute deps cfg r d q) h.
Proof.
  intros Hm Hk. unfold serveAuthRoute. destruct (_ || negb (d_AuthRoutes deps)) eqn:Hd; [apply fail_keeps|].
  apply orb_false_iff in Hd as [_ Hd%negb_false_iff]. cbv zeta.
  case_bool_decide as Hin; [|apply fail_keeps]. cbn [negb].
  apply ready_keeps; [intros h' Hr|intros h'; apply fail_keeps]. cbn [negb].
  apply pre_ask; [split; [done|]; split; [done|]; exists rt; split; [by exists d|done]|].
  intros [writes out].
  assert (forall h'' q'', keeps (if (ao_Status out =? 401) || (ao_Status out =? 503)
    then _ ← ask (AuthFailureMetric (auth_Mode (c_Auth cfg)) (ao_Reason out)); finished q'' else finished q'') h'')
    as Hrec by (intros h'' q''; by destruct (_ || _)).
  destruct (existsb negb writes); [apply Hrec|]. apply pre_ask; [done|]. intros [|]; [done|].
  unfold gone. apply pre_bind. apply pre_ask; [done|]. intros [|]; [|apply Hrec].
  apply pre_ask; [done|]. intros [|]; [apply Hrec|done].
Qed.

Lemma matched_keeps q h :
  keeps (serveMatched deps cfg r IsDNS1123Label IsDNS1123Subdomain IsValidPortName ParseMediaType ParseDuration
           choose q) h.
Proof.
  unfold serveMatched. destruct (match_path IsDNS1123Label (r_Path r)) as [[rt d]|] eqn:Hm; [|apply fail_keeps].
  cbv zeta. case_bool_decide as Hc.
  { unfold serveConsole. destruct (d_Console deps) eqn:Hd; [|apply fail_keeps]. cbn [negb].
    apply pre_ask; [split; [done|]; by exists rt, d|]. done. }
  destruct (isAuthRoute (rt_kind rt)) eqn:Ha; [by apply (auth_route_keeps rt)|].
  assert (forall spec, (is_Some spec -> rt_kind rt = kindProfile) ->
    keeps (if negb (bool_decide (r_Method r ∈ Methods d))
           then fail methodNotAllowed (set_header "Allow" (String.concat ", " (Methods d))
                  (set_audit (on_route rt (r_Method r)) (as_routed rt q)))
           else serveRouted deps cfg r IsDNS1123Subdomain IsValidPortName ParseMediaType ParseDuration choose spec
                  (set_audit (on_route rt (r_Method r)) (as_routed rt q))) h) as Hch.
  { intros spec Hspec. case_bool_decide as Hin; [|apply fail_keeps]. cbn [negb].
    apply routed_keeps; [by exists d|exact Hspec]. }
  destruct (bool_decide_reflect (rt_kind rt = kindProfile)) as [Hp|Hp].
  - destruct (lookupProfile (rt_profile rt)); [|apply fail_keeps]. by apply Hch.
  - apply Hch. by intros [? ?].
Qed.

Lemma account_keeps e h : keeps (account e) h.
Proof.
  apply pre_ask; [done|]. intros k. unfold account_cut. cbv zeta. apply pre_ask; [done|]. intros [].
  by destruct (narrated _).
Qed.

(** The frame of [ServeHTTP] around what answers. *)
Lemma framed_keeps (m : request -> prog ended) h :
  (forall q h', keeps (m q) h') ->
  keeps (id ← RequestID (r_RequestIDs r);
         _ ← (if r_ContentLength r =? 0 then mret tt else ask SetReadDeadline);
         e ← m (new_request id);
         account e) h.
Proof.
  intros Hm. apply pre_bind. unfold RequestID.
  assert (forall id h', keeps (_ ← (if r_ContentLength r =? 0 then mret tt else ask SetReadDeadline);
     e ← m (new_request id); account e) h') as Hrest.
  { intros id h'. apply pre_bind. destruct (r_ContentLength r =? 0); [|split; [done|]; intros []];
      (apply pre_bind; eapply pre_mono; [apply Hm|]; intros; apply account_keeps). }
  destruct (r_RequestIDs r) as [|v [|]];
    [split; [done|]; intros b; apply Hrest| |split; [done|]; intros b; apply Hrest].
  destruct (echoable v); [apply Hrest|split; [done|]; intros b; apply Hrest].
Qed.

(** C6: no step of a request runs before the steps it depends on.  Whatever
    is answered to the calls the server makes, for every request and every
    configuration: a credential is judged only once the gateway is ready and
    the URL carries no token; a Service is looked up, and a PGO handler run,
    only for an authenticated caller whose realm admits the very namespace,
    Service and operation, which for a route of one Collection are the stored
    record's; a slot is taken only once discovery answered; and a profile is
    fetched only from a Pod discovery named for that Service, through an
    admitted port, confirmed in the call before while the slot was held. *)
Theorem requests_in_order (h : past) (e : ended) :
  runs (ServeHTTP deps cfg r IsDNS1123Label IsDNS1123Subdomain IsValidPortName ParseMediaType ParseDuration choose)
    [] h e -> grew in_order [] h.
Proof.
  apply pre_runs with (Q := fun _ _ => True). apply framed_keeps. intros. apply matched_keeps.
Qed.
End order.

(** ** The books of a request *)

Section books.
  Variables (deps : Deps) (cfg : config) (r : http_request).
  Variables IsDNS1123Label IsDNS1123Subdomain IsValidPortName : string -> bool.
  Variable ParseMediaType : string -> option string.
  Variable ParseDuration : string -> option Z.
  Variable choose : nat -> nat.

  Abbreviation past := (list (answered call)).

Fixpoint tally (f : answered call -> Z) (h : past) : Z :=
  match h with [] => 0 | e :: h' => f e + tally f h' end.

(** Slots and the gauge. *)
Definition acquired (e : answered call) : Z := match e with At GateAcquire true => 1 | _ => 0 end.
Definition released (e : answered call) : Z := match e with At GateRelease _ => 1 | _ => 0 end.
Definition gauge (e : answered call) : Z := match e with At (InFlight n) _ => n | _ => 0 end.
(** Rows of the metrics and records of the log. *)
Definition row (e : answered call) : Z := match e with At (RequestMetric _ _ _) _ => 1 | _ => 0 end.
Definition line (e : answered call) : Z := match e with At (Audit _) _ => 1 | _ => 0 end.

(** A call that settled the request: it wrote the answer, or found nobody left
    to answer.  A login route counts as one call: it writes its own answer, as
    Browser.v models it, through a writer that refuses it once the request has
    ended, and then the request is aborted. *)
Definition settled (e : answered call) : Z :=
  match e with
  | At (Write _ _ _) _ => 1
  | At (ServeConsole _) _ => 1
  | At (ServeAuth _) _ => 1
  | At (DConfirm _ _) (Some ErrCanceled) => 1
  | At (UpstreamDo _ _) out => if out_Committed out || (out_Status out =? 0) then 1 else 0
  | At (PGO _ _) (HandlerRefused _ _) => 0
  | At (PGO _ _) _ => 1
  | _ => 0
  end.

Definition cut_short (e : ended) : Prop :=
  e.2 = true /\ a_status (q_audit e.1) = 0 /\
  (a_code (q_audit e.1) = codeDrainExpired \/ a_code (q_audit e.1) = codeClientGone).

(** What a step of the request adds to the books, nothing having been
    counted. *)
Definition books (h : past) (e : ended) (h' : past) : Prop :=
  tally acquired h' - tally released h' = tally acquired h - tally released h /\
  tally gauge h' = tally gauge h /\ tally row h' = tally row h /\ tally line h' = tally line h /\
  (tally settled h' = tally settled h + 1 \/ (tally settled h' = tally settled h /\ cut_short e)).

Abbreviation keeps_books p h := (pre any_call p h (books h)).

Definition neutral (e : answered call) : Prop :=
  acquired e = 0 /\ released e = 0 /\ gauge e = 0 /\ row e = 0 /\ line e = 0 /\ settled e = 0.

Lemma books_neutral (e : answered call) (h : past) (x : ended) (h' : past) :
  neutral e -> books (e :: h) x h' -> books h x h'.
Proof. intros (H1 & H2 & H3 & H4 & H5 & H6). unfold books. cbn [tally]. rewrite H1, H2, H3, H4, H5, H6. done. Qed.

Lemma pre_neutral {R} (c : call R) (k : R -> prog ended) h :
  (forall x, neutral (At c x)) -> (forall x, keeps_books (k x) (At c x :: h)) -> keeps_books (ask c ≫= k) h.
Proof.
  intros Hn Hk. apply pre_ask; [done|]. intros x. eapply pre_mono; [apply Hk|]. intros e h'.
  by apply books_neutral.
Qed.

Ltac neutral := intros; repeat split; by repeat case_match.

Lemma writeError_books e q h : keeps_books (writeError e q) h.
Proof. split; [done|]. intros []. repeat split; cbn; try lia. Qed.

Lemma aborted_books code q h :
  code = codeDrainExpired \/ code = codeClientGone -> keeps_books (aborted 0 code q) h.
Proof.
  intros Hc. repeat split; cbn; try lia. right. split; [done|]. split; [done|].
  destruct q as [? ? ? ? ? [] ?]. by split.
Qed.

Lemma fail_books e q h : keeps_books (fail e q) h.
Proof.
  unfold fail. apply pre_neutral; [neutral|]. intros [|]; [apply aborted_books; by left|].
  unfold gone. apply pre_bind. apply pre_ask; [done|].
  assert (forall h1 b, (forall x y, books h1 x y -> books (At CtxCut false :: h) x y) ->
    pre any_call (if (b : bool) && negb (rf_bodyDeadline e) then aborted 0 codeClientGone q
       else writeError e (set_audit (ending (re_status (rf_error e)) (re_audit (rf_error e))) q)) h1
      (books (At CtxCut false :: h))) as Hend.
  { intros h1 b Hb. eapply pre_mono; [|exact Hb]. destruct (b && _); [apply aborted_books; by right|].
    apply writeError_books. }
  intros [|].
  - apply pre_ask; [done|]. intros k. apply Hend. intros x y H.
    apply (books_neutral (At CtxCanceled true)); [neutral|]. revert H. apply books_neutral. neutral.
  - apply Hend. intros x y. apply books_neutral. neutral.
Qed.

(** A call that settled, and what is done about it without another. *)
Lemma books_settled (e : answered call) (h : past) (x : ended) :
  settled e = 1 -> acquired e = 0 -> released e = 0 -> gauge e = 0 -> row e = 0 -> line e = 0 ->
  books h x (e :: h).
Proof. intros H1 H2 H3 H4 H5 H6. unfold books. cbn [tally]. lia. Qed.

Lemma finished_settled (c : call unit) q h :
  settled (At c tt) = 1 -> acquired (At c tt) = 0 -> released (At c tt) = 0 -> gauge (At c tt) = 0 ->
  row (At c tt) = 0 -> line (At c tt) = 0 -> keeps_books (_ ← ask c; finished q) h.
Proof. intros. apply pre_ask; [done|]. intros []. by apply books_settled. Qed.

Lemma answerOK_books b q h : keeps_books (answerOK b q) h.
Proof. by apply finished_settled. Qed.

Lemma handle_books f q h : keeps_books (handle f q) h.
Proof.
  apply pre_ask; [done|]. intros [status code|e b|status|status];
    [by apply books_settled| |destruct f; by apply books_settled|by apply books_settled].
  eapply pre_mono; [apply fail_books|]. intros x h'. apply books_neutral. neutral.
Qed.

Lemma listing_books p realm q h : keeps_books (serveListing cfg r p realm q) h.
Proof.
  unfold serveListing, refuse_query. destruct (has_query r); [apply fail_books|].
  assert (forall view, keeps_books (listed realm q view) h) as Hl.
  { intros view. apply pre_neutral; [neutral|]. intros [|]; [apply answerOK_books|apply fail_books]. }
  destruct (rt_kind (q_route q)); first [apply Hl|apply fail_books|apply answerOK_books].
Qed.

Lemma pgo_service_books q h : keeps_books (servePGOService r q) h.
Proof. unfold servePGOService, refuse_query. repeat case_match; first [apply handle_books|apply fail_books]. Qed.

Lemma collection_books realm wait q s h : keeps_books (answerCollection r realm wait q s) h.
Proof. unfold answerCollection. repeat case_match; first [apply handle_books|apply fail_books]. Qed.

Lemma pgo_collection_books realm q h : keeps_books (servePGOCollection r ParseDuration realm q) h.
Proof.
  unfold servePGOCollection, refuse_query. repeat case_match; try apply fail_books;
    (apply pre_neutral; [neutral|]; intros; apply collection_books).
Qed.

Lemma targets_books params q h : keeps_books (serveTargets params q) h.
Proof.
  unfold serveTargets. destruct (tp_explain params); (apply pre_neutral; [neutral|]); intros [x|e];
    try apply fail_books; [|apply answerOK_books].
  destruct (filterTargets (ex_Targets x) params). apply answerOK_books.
Qed.

Lemma books_neutrals (l : past) (h : past) (x : ended) (h' : past) :
  Forall neutral l -> books (l ++ h) x h' -> books h x h'.
Proof. induction 1 as [|e l He _ IH]; intros H; [done|]. apply IH. revert H. by apply books_neutral. Qed.

Ltac neutrals := repeat (constructor; [neutral|]); constructor.

Lemma proxy_books spec params t q h : keeps_books (confirm_and_proxy spec params t q) h.
Proof.
  unfold confirm_and_proxy. apply pre_ask; [done|]. intros [[| |]|]; cbv zeta; (apply pre_ask; [done|]); intros [].
  - eapply pre_mono; [apply fail_books|]. intros x h'. apply (books_neutrals [_; _]). neutrals.
  - eapply pre_mono; [apply fail_books|]. intros x h'. apply (books_neutrals [_; _]). neutrals.
  - repeat split; cbn; lia.
  - apply pre_ask; [done|]. intros [code status committed]. cbv zeta.
    destruct committed; cbn [negb out_Committed].
    + destruct (String.eqb _ _); repeat split; cbn; lia.
    + apply pre_ask; [done|]. intros [|].
      * repeat split; cbn; try lia. destruct (Z.eqb_spec status 0); [left; lia|right]. split; [lia|].
        split; [done|]. split; [by destruct q as [? ? ? ? ? [] ?]|left; by destruct q as [? ? ? ? ? [] ?]].
      * cbn [out_Status]. destruct (Z.eqb_spec status 0) as [->|Hs]; cbn [negb].
        -- repeat split; cbn; lia.
        -- eapply pre_mono; [apply writeError_books|]. intros x h'. apply (books_neutrals [_; _; _; _]).
           repeat constructor; cbn. by destruct (Z.eqb_spec status 0).
Qed.

(** The slot taken for a profile is given back on every path. *)
Lemma profile_books spec params q h : keeps_books (serveProfile choose spec params q) h.
Proof.
  unfold serveProfile. apply pre_neutral; [neutral|]. intros [targets|e]; [|apply fail_books].
  destruct (selectTarget targets params choose) as [t|e]; [|apply fail_books]. cbv zeta.
  apply pre_ask; [done|]. intros [|]; cbn [negb].
  - apply pre_ask; [done|]. intros []. apply pre_bind. eapply pre_mono; [apply proxy_books|].
    intros e h' (H1 & H2 & H3 & H4 & H5). repeat (split; [done|]; intros []). unfold books. cbn in *.
    repeat (split; [lia|]). destruct H5 as [?|[? ?]]; [left; lia|right; split; [lia|done]].
  - eapply pre_mono; [apply fail_books|]. intros x h'. apply books_neutral. neutral.
Qed.

Lemma interactive_books spec q h :
  keeps_books (serveInteractive cfg r IsDNS1123Subdomain IsValidPortName choose spec q) h.
Proof.
  unfold serveInteractive. destruct (ParseQuery (r_RawQuery r)); [|apply fail_books].
  destruct spec as [spec|].
  - cbv zeta. destruct (parseProfileParams _ _ _ _ _); [|apply fail_books].
    destruct (allowPort _ _); [apply fail_books|apply profile_books].
  - destruct (parseTargetsParams _ _ _) as [port [params|e]]; [|apply fail_books]. cbv zeta.
    destruct (allowPort _ _); [apply fail_books|apply targets_books].
Qed.

Lemma failAuth_books f q h : keeps_books (failAuth cfg f q) h.
Proof.
  unfold failAuth. destruct (String.eqb (af_Redirect f) EmptyString); cbn [negb]; [|by apply finished_settled].
  apply pre_neutral; [neutral|]. intros []. repeat case_match; apply fail_books.
Qed.

Lemma ready_books (k : bool -> prog ended) h :
  (forall b h', keeps_books (k b) h') -> keeps_books (ready deps ≫= k) h.
Proof. intros Hk. unfold ready. destruct (d_Ready deps); (apply pre_neutral; [neutral|]; intros b; apply Hk). Qed.

Lemma authenticated_books spec p realm q h :
  keeps_books (serveAuthenticated cfg r IsDNS1123Subdomain IsValidPortName ParseDuration choose spec p realm q) h.
Proof.
  unfold serveAuthenticated. destruct (isCollectionScoped _); [apply pgo_collection_books|].
  destruct (negb _); [apply fail_books|]. destruct (isListing _); [apply listing_books|].
  destruct (isPGO _); [apply pgo_service_books|apply interactive_books].
Qed.

Lemma routed_books spec q h :
  keeps_books (serveRouted deps cfg r IsDNS1123Subdomain IsValidPortName ParseMediaType ParseDuration choose spec q) h.
Proof.
  assert (forall q h, keeps_books
    (if hasAccessToken (r_RawQuery r) then fail (bad_params (unknownParameter accessTokenParam)) q
     else authenticate cfg q (serveAuthenticated cfg r IsDNS1123Subdomain IsValidPortName ParseDuration choose spec)) h)
    as Hc.
  { intros q' h'. destruct (hasAccessToken _); [apply fail_books|]. apply pre_neutral; [neutral|].
    intros [p|f|]; try apply failAuth_books. destruct (c_Realms cfg !! p_Realm p);
      [apply authenticated_books|apply failAuth_books]. }
  unfold serveRouted. destruct (if _ : bool then _ else None); [apply fail_books|].
  apply ready_books. intros [|] h'; cbn [negb]; [|apply fail_books].
  case_bool_decide.
  { unfold serveAuthInfo, refuse_query. destruct (has_query r); [apply fail_books|].
    destruct (authInfoView (c_Auth cfg)). apply answerOK_books. }
  case_bool_decide.
  { unfold serveOpenAPI, refuse_query. destruct (has_query r); [apply fail_books|apply answerOK_books]. }
  destruct (isPGO _); [|apply Hc]. destruct (negb _); [apply fail_books|].
  apply pre_neutral; [neutral|]. intros [|]; [apply Hc|apply fail_books].
Qed.

(** Calls that count for nothing may follow. *)
Lemma books_after (l : past) (h : past) (x : ended) (h' : past) :
  Forall neutral l -> books h x h' -> books h x (l ++ h').
Proof.
  induction 1 as [|e l (H1 & H2 & H3 & H4 & H5 & H6) _ IH]; intros H; [done|]. specialize (IH H).
  unfold books in *. cbn [app tally]. rewrite H1, H2, H3, H4, H5, H6. done.
Qed.

Lemma auth_route_books d q h : keeps_books (serveAuthRoute deps cfg r d q) h.
Proof.
  unfold serveAuthRoute. destruct (_ || _); [apply fail_books|]. cbv zeta. destruct (negb _); [apply fail_books|].
  apply ready_books. intros [|] h1; cbn [negb]; [|apply fail_books]. apply pre_ask; [done|]. intros [writes out].
  assert (forall l q', Forall neutral l -> pre any_call (if (ao_Status out =? 401) || (ao_Status out =? 503)
    then _ ← ask (AuthFailureMetric (auth_Mode (c_Auth cfg)) (ao_Reason out)); finished q' else finished q')
    (l ++ At (ServeAuth (q_header (set_audit (fun a => acting noPrincipal (a_reason a) (on_auth_route
       (authRouteName (Kind d)) (r_Method r) a)) (as_auth_route q)))) (writes, out) :: h1) (books h1)) as Hrec.
  { intros l q' Hl. assert (forall x, books h1 x (l ++ At (ServeAuth (q_header (set_audit (fun a =>
      acting noPrincipal (a_reason a) (on_auth_route (authRouteName (Kind d)) (r_Method r) a)) (as_auth_route q))))
      (writes, out) :: h1)) as Hb by (intros x; apply books_after; [done|by apply books_settled]).
    destruct (_ || _); [|apply Hb]. apply pre_ask; [done|]. intros []. apply (books_after [_]); [|apply Hb].
    by repeat constructor. }
  destruct (existsb negb writes); [by apply (Hrec [])|]. apply pre_ask; [done|]. intros [|].
  { apply (books_after [_]); [by repeat constructor|by apply books_settled]. }
  unfold gone. apply pre_bind, pre_ask; [done|]. intros [|]; [|apply (Hrec [_; _]); by repeat constructor].
  apply pre_ask; [done|]. intros [|]; [apply (Hrec [_; _; _]); by repeat constructor|].
  apply (books_after [_; _; _]); [by repeat constructor|by apply books_settled].
Qed.

Lemma matched_books q h :
  keeps_books (serveMatched deps cfg r IsDNS1123Label IsDNS1123Subdomain IsValidPortName ParseMediaType
    ParseDuration choose q) h.
Proof.
  unfold serveMatched. destruct (match_path IsDNS1123Label (r_Path r)) as [[rt d]|]; [|apply fail_books].
  cbv zeta. case_bool_decide.
  { unfold serveConsole. destruct (negb _); [apply fail_books|]. apply pre_ask; [done|]. intros w.
    by apply books_settled. }
  destruct (isAuthRoute (rt_kind rt)); [apply auth_route_books|].
  assert (forall spec q', keeps_books
    (if negb (bool_decide (r_Method r ∈ Methods d))
     then fail methodNotAllowed (set_header "Allow" (String.concat ", " (Methods d)) q')
     else serveRouted deps cfg r IsDNS1123Subdomain IsValidPortName ParseMediaType ParseDuration choose spec q') h)
    as Hch by (intros spec q'; destruct (negb _); [apply fail_books|apply routed_books]).
  destruct (bool_decide (rt_kind rt = kindProfile)); [|apply Hch].
  destruct (lookupProfile (rt_profile rt)); [apply Hch|apply fail_books].
Qed.

(** The names the two labels of the request metric are drawn from. *)
Definition endpoints : list string :=
  ["targets"; "profile"; "pgo_policy"; "collections"; "collection"; "collection_profile"; "collection_cancel";
   "auth"; "namespaces"; "services"; "catalog"; "whoami"; "limits"; "ui"; "openapi"]%string.

Lemma labels_bounded q :
  (labels q).1 ∈ endpoints /\ (labels q).2 ∈ labelNone :: labelCPU :: profileNames.
Proof.
  unfold labels. assert (forall x, x ∈ endpoints <-> bool_decide (x ∈ endpoints) = true) as He
    by (intros x; by rewrite bool_decide_eq_true).
  repeat case_match; cbn [fst snd]; (split; [by apply He|]); try by left.
  all: try (right; left). unfold IsProfile in *. right; right. by apply (bool_decide_eq_true_1 _).
Qed.

(** The row and the record a request leaves. *)
Definition accounted (e : ended) (h : past) : Prop :=
  tally acquired h = tally released h /\ tally gauge h = 0 /\ tally row h = 1 /\
  At (RequestMetric (labels e.1).1 (labels e.1).2 (a_code (q_audit e.1))) tt ∈ h /\
  tally line h = (if narrated e.1 then 1 else 0) /\
  (narrated e.1 = true -> At (Audit (audit_attrs (q_audit e.1))) tt ∈ h) /\
  (tally settled h = 1 \/ (tally settled h = 0 /\ cut_short e)).

Lemma account_books e h : books [] e h -> pre any_call (account e) h accounted.
Proof.
  destruct e as [q b]. intros (H1 & H2 & H3 & H4 & H5). apply pre_ask; [done|]. intros k. unfold account_cut. cbn [fst snd].
  set (abort := k && String.eqb (a_code (q_audit q)) codeClientGone).
  set (q' := if abort then set_audit (coded codeDrainExpired) q else q). cbv zeta.
  assert (tally settled [] = 0) as H0 by done.
  assert (tally settled h = 1 \/ (tally settled h = 0 /\ cut_short (q', b || abort))) as H5'.
  { rewrite H0 in H5. destruct H5 as [H5|(H5 & Hb & Hs & Hc)]; [left; lia|right]. split; [lia|].
    unfold cut_short in *. cbn in *. subst b. split; [done|]. unfold q', coded.
    destruct abort; [|done]. destruct q as [? ? ? ? ? [] ?]. cbn in *. by split; [|left]. }
  apply pre_ask; [done|]. intros [].
  assert (forall h', tally acquired h' = tally acquired h -> tally released h' = tally released h ->
    tally gauge h' = tally gauge h -> tally row h' = 1 + tally row h -> tally settled h' = tally settled h ->
    At (RequestMetric (labels q').1 (labels q').2 (a_code (q_audit q'))) tt ∈ h' ->
    tally line h' = (if narrated q' then 1 else 0) ->
    (narrated q' = true -> At (Audit (audit_attrs (q_audit q'))) tt ∈ h') ->
    accounted (q', b || abort) h') as Hacc.
  { intros h' E1 E2 E3 E4 E5 E6 E7 E8. unfold accounted. cbn [fst]. rewrite E1, E2, E3, E4, E5. cbn in H1, H2, H3, H4 |- *.
    split; [lia|]. split; [lia|]. split; [lia|]. split; [exact E6|]. split; [exact E7|]. split; [exact E8|exact H5']. }
  destruct (narrated q') eqn:En.
  - apply pre_ask; [done|]. intros []. apply Hacc; cbn [tally]; cbn in H4 |- *; try lia; try done;
      [right; by left|intros _; by left].
  - apply Hacc; cbn [tally]; cbn in H4 |- *; try lia; try done. by left.
Qed.

Lemma framed_books (m : request -> prog ended) :
  (forall q h, keeps_books (m q) h) ->
  pre any_call (id ← RequestID (r_RequestIDs r);
         _ ← (if r_ContentLength r =? 0 then mret tt else ask SetReadDeadline);
         e ← m (new_request id);
         account e) [] accounted.
Proof.
  intros Hm. apply pre_bind. unfold RequestID.
  assert (forall id h, Forall neutral h -> pre any_call
    (_ ← (if r_ContentLength r =? 0 then mret tt else ask SetReadDeadline);
     e ← m (new_request id); account e) h accounted) as Hrest.
  { assert (forall id h, Forall neutral h -> pre any_call (e ← m (new_request id); account e) h accounted) as Hm'.
    { intros id h Hh. apply pre_bind. eapply pre_mono; [apply Hm|]. intros e h' H. apply account_books.
      apply (books_neutrals h); [done|]. by rewrite app_nil_r. }
    intros id h Hh. apply pre_bind. destruct (r_ContentLength r =? 0); [by apply Hm'|]. split; [done|]. intros [].
    apply Hm'. by constructor. }
  assert (forall b, Forall neutral [At Rand16 b]) as Hr by (intros b; repeat constructor).
  destruct (r_RequestIDs r) as [|v [|]]; [split; [done|]; intros b; apply Hrest, Hr| |split; [done|]; intros b; apply Hrest, Hr].
  destruct (echoable v); [apply Hrest; constructor|split; [done|]; intros b; apply Hrest, Hr].
Qed.

(** C7: every request settles its books.  Whatever is answered, the slot a
    profile took is given back and the gauge is back where it was; exactly one
    row of the metrics is counted, with the code of the audit record and labels
    of fixed vocabularies, however the path was spelled; a narrated request
    writes exactly its one record; and the request is settled exactly once -
    answered, or found abandoned - unless it was cut, when nothing was written
    and the record says which of the two cuts it was. *)
Theorem request_accounted (h : past) (e : ended) :
  runs (ServeHTTP deps cfg r IsDNS1123Label IsDNS1123Subdomain IsValidPortName ParseMediaType ParseDuration choose)
    [] h e ->
  accounted e h /\ (labels e.1).1 ∈ endpoints /\ (labels e.1).2 ∈ labelNone :: labelCPU :: profileNames.
Proof.
  intros Hr. split; [|apply labels_bounded]. revert Hr.
  intros Hr. eapply pre_runs in Hr; [exact (proj1 Hr)|]. apply framed_books. intros. apply matched_books.
Qed.
End books.

(** ** What a denied caller learns *)

Section denial.
  Variables (r : http_request).

  Abbreviation past := (list (answered call)).

(** An execution, less what it wrote to the log. *)
Fixpoint unlogged (h : past) : past :=
  match h with
  | [] => []
  | At (Audit _) _ :: h' => unlogged h'
  | e :: h' => e :: unlogged h'
  end.

(** Two requests that differ in what the log will say of them. *)
Definition alike (q1 q2 : request) : Prop :=
  q_routed q1 = q_routed q2 /\ q_route q1 = q_route q2 /\ q_authRoute q1 = q_authRoute q2 /\
  q_console q1 = q_console q2 /\ q_header q1 = q_header q2.

Lemma alike_labels q1 q2 : alike q1 q2 -> labels q1 = labels q2 /\ narrated q1 = narrated q2.
Proof. destruct q1, q2. intros (? & ? & ? & ? & ?). cbn in *. by subst. Qed.

(** What the deferred function calls, given whether the drain cut the request. *)
Definition cut_ended (e : ended) (k : bool) : ended :=
  if k && String.eqb (a_code (q_audit e.1)) codeClientGone
  then (set_audit (coded codeDrainExpired) e.1, true) else e.
Definition account_calls (q : request) (k : bool) (h : past) : past :=
  let h := At (RequestMetric (labels q).1 (labels q).2 (a_code (q_audit q))) tt :: At CtxCut k :: h in
  if narrated q then At (Audit (audit_attrs (q_audit q))) tt :: h else h.

Lemma account_runs e h h' e' :
  runs (account e) h h' e' <->
  exists k, h' = account_calls (cut_ended e k).1 k h /\ e' = cut_ended e k.
Proof.
  destruct e as [q b]. assert (forall k, runs (account_cut (q, b) k) (At CtxCut k :: h) h' e' <->
    h' = account_calls (cut_ended (q, b) k).1 k h /\ e' = cut_ended (q, b) k) as H.
  { intros k. unfold account_cut, cut_ended, account_calls. cbn [fst snd].
    destruct (k && String.eqb (a_code (q_audit q)) codeClientGone); cbv zeta; cbn [fst snd].
    - rewrite orb_true_r. generalize (set_audit (coded codeDrainExpired) q). intros q'. split.
      + intros [[] Hk]. destruct (narrated q'); [destruct Hk as [[] [<- <-]]|destruct Hk as [<- <-]]; done.
      + intros [-> ->]. exists tt. destruct (narrated q'); [by exists tt|done].
    - rewrite orb_false_r. split.
      + intros [[] Hk]. destruct (narrated q); [destruct Hk as [[] [<- <-]]|destruct Hk as [<- <-]]; done.
      + intros [-> ->]. exists tt. destruct (narrated q); [by exists tt|done]. }
  split; intros [k Hk]; exists k; by apply H.
Qed.

Lemma unlogged_cons e h1 h2 : unlogged h1 = unlogged h2 -> unlogged (e :: h1) = unlogged (e :: h2).
Proof. intros H. destruct e as [R c x]. destruct c; cbn [unlogged]; by rewrite ?H. Qed.

Lemma account_alike q1 q2 b h1 h2 h1' e :
  alike q1 q2 -> a_code (q_audit q1) = a_code (q_audit q2) -> unlogged h1 = unlogged h2 ->
  runs (account (q1, b)) h1 h1' e ->
  exists h2' e', runs (account (q2, b)) h2 h2' e' /\ unlogged h1' = unlogged h2' /\ e.2 = e'.2.
Proof.
  intros Ha Hc Hh [k [-> ->]]%account_runs. setoid_rewrite account_runs.
  eexists _, _. split; [by exists k|]. unfold account_calls, cut_ended. cbn [fst]. rewrite <-Hc.
  destruct (k && String.eqb (a_code (q_audit q1)) codeClientGone); (split; [|done]); cbn [fst].
  - assert (alike (set_audit (coded codeDrainExpired) q1) (set_audit (coded codeDrainExpired) q2)) as Ha' by done.
    apply alike_labels in Ha' as [-> ->].
    assert (forall q, a_code (q_audit (set_audit (coded codeDrainExpired) q)) = codeDrainExpired) as Hd
      by (by intros [? ? ? ? ? [] ?]).
    rewrite !Hd. destruct (narrated _); cbn [unlogged]; by rewrite Hh.
  - apply alike_labels in Ha as [-> ->]. rewrite Hc. destruct (narrated _); cbn [unlogged]; by rewrite Hh.
Qed.

(** A refusal of two requests that differ in the log alone goes the same way. *)
Lemma aborted_alike status code q1 q2 h1 h2 h1' e :
  alike q1 q2 -> unlogged h1 = unlogged h2 -> runs (aborted status code q1) h1 h1' e ->
  exists h2' e', runs (aborted status code q2) h2 h2' e' /\ unlogged h1' = unlogged h2' /\ e.2 = e'.2 /\
    alike e.1 e'.1 /\ a_code (q_audit e.1) = a_code (q_audit e'.1).
Proof.
  intros Ha Hh [<- <-]. exists h2, (set_audit (ending status code) q2, true). repeat split; try done; try apply Ha.
  destruct q1 as [? ? ? ? ? [] ?], q2 as [? ? ? ? ? [] ?]. done.
Qed.

Lemma written_alike er q1 q2 h1 h2 h1' e :
  alike q1 q2 -> unlogged h1 = unlogged h2 ->
  runs (writeError er (set_audit (ending (re_status (rf_error er)) (re_audit (rf_error er))) q1)) h1 h1' e ->
  exists h2' e', runs (writeError er (set_audit (ending (re_status (rf_error er)) (re_audit (rf_error er))) q2)) h2 h2' e'
    /\ unlogged h1' = unlogged h2' /\ e.2 = e'.2 /\ alike e.1 e'.1 /\ a_code (q_audit e.1) = a_code (q_audit e'.1).
Proof.
  intros (H1 & H2 & H3 & H4 & H5) Hh [[] [<- <-]]. eexists _, _. split; [by exists tt|].
  cbn [unlogged fst snd q_header set_audit set_header]. rewrite H5, Hh. repeat split; try done.
  - cbn. by rewrite H5.
  - destruct q1 as [? ? ? ? ? [] ?], q2 as [? ? ? ? ? [] ?]. done.
Qed.

Lemma fail_alike er q1 q2 h1 h2 h1' e :
  alike q1 q2 -> unlogged h1 = unlogged h2 -> runs (fail er q1) h1 h1' e ->
  exists h2' e', runs (fail er q2) h2 h2' e' /\ unlogged h1' = unlogged h2' /\ e.2 = e'.2 /\
    alike e.1 e'.1 /\ a_code (q_audit e.1) = a_code (q_audit e'.1).
Proof.
  intros Ha Hh [k Hk]. pose proof (unlogged_cons (At CtxCut k) h1 h2 Hh) as Hh1. destruct k.
  { destruct (aborted_alike _ _ q1 q2 _ _ h1' e Ha Hh1 Hk) as (h2' & e' & Hr & ?). exists h2', e'.
    split; [by exists true|done]. }
  destruct Hk as [c Hc]. pose proof (unlogged_cons (At CtxCanceled c) _ _ Hh1) as Hh2.
  assert (forall g h1 h2, unlogged h1 = unlogged h2 ->
    runs (if (g : bool) && negb (rf_bodyDeadline er) then aborted 0 codeClientGone q1
      else writeError er (set_audit (ending (re_status (rf_error er)) (re_audit (rf_error er))) q1)) h1 h1' e ->
    exists h2' e', runs (if g && negb (rf_bodyDeadline er) then aborted 0 codeClientGone q2
      else writeError er (set_audit (ending (re_status (rf_error er)) (re_audit (rf_error er))) q2)) h2 h2' e' /\
      unlogged h1' = unlogged h2' /\ e.2 = e'.2 /\ alike e.1 e'.1 /\
      a_code (q_audit e.1) = a_code (q_audit e'.1)) as Hend.
  { intros g g1 g2 Hg. destruct (g && _); [by apply aborted_alike|by apply written_alike]. }
  destruct c.
  - destruct Hc as [g Hg]. pose proof (unlogged_cons (At CtxCut g) _ _ Hh2) as Hh3.
    destruct (Hend (negb g) _ _ Hh3 Hg) as (h2' & e' & Hr & ?). exists h2', e'.
    split; [by exists false, true, g|done].
  - destruct (Hend false _ _ Hh2 Hc) as (h2' & e' & Hr & ?). exists h2', e'. split; [by exists false, false|done].
Qed.

(** The rest of a request for one Collection, once its record was read. *)
Definition rest (realm : Realm) (wait : duration) (q : request) (s : result (string * string)) : prog ended :=
  e ← answerCollection r realm wait q s; account e.

(** C8: a Collection the realm does not admit is one that does not exist.
    Whatever the context of the request and the store answer, a caller whose
    realm excludes the record's namespace or Service gets, from the read of the
    record on, exactly the execution the caller of a Collection that is not
    there can get, and conversely: the same answer with the same headers, the
    same calls in the same order, the same row of the metrics; the two differ
    in the log alone. *)
Theorem denied_is_missing (realm : Realm) (wait : duration) (q : request) (ns svc : string) (h : past) :
  realmAllows realm (scoped (q_route q) ns svc) (r_Method r) = false ->
  forall view aborted,
    (exists h' e, runs (rest realm wait q (Ok (ns, svc))) h h' e /\ unlogged h' = view /\ e.2 = aborted) <->
    (exists h' e, runs (rest realm wait q (Err ErrKeyNotFound)) h h' e /\ unlogged h' = view /\ e.2 = aborted).
Proof.
  intros Hd view ab. unfold rest. cbn [answerCollection].
  change (q_route (set_audit (on_service ns svc) q)) with (q_route q). rewrite Hd. cbn [negb].
  assert (forall q1 q2, alike q1 q2 ->
    (exists h' e, runs (e ← fail (refusedBy errCollectionNotFound false) q1; account e) h h' e /\
       unlogged h' = view /\ e.2 = ab) ->
    exists h' e, runs (e ← fail (refusedBy errCollectionNotFound false) q2; account e) h h' e /\
       unlogged h' = view /\ e.2 = ab) as Hsame.
  { intros q1 q2 Ha (h' & e & Hr & Hv & Hb). apply runs_bind in Hr as ([q1' b1] & h1 & Hf & Hacc).
    destruct (fail_alike _ q1 q2 h h h1 _ Ha eq_refl Hf) as (h2 & [q2' b2] & Hf2 & Hu & Hb2 & Ha2 & Hc2).
    cbn [fst snd] in *. subst b2.
    destruct (account_alike q1' q2' b1 h1 h2 h' e Ha2 Hc2 Hu Hacc) as (h2' & e' & Hacc2 & Hu2 & Hb2).
    exists h2', e'. split; [apply runs_bind; by exists (q2', b1), h2|]. split; congruence. }
  split; apply Hsame; done.
Qed.
End denial.

(** ** The theorems at a concrete request *)

Definition yes (s : string) : bool := true.
Definition no_media (s : string) : option string := None.
Definition demo_duration (s : string) : option Z := Some (5 * second).

Definition demo_realm : Realm :=
  {| Namespaces := ["shop"%string]; Services := [wildcard]; Profiles := ["cpu"%string];
     Routes.PGO := {| pgo_Read := true; pgo_Collect := false; pgo_Configure := false |} |}.
Definition demo_config : config :=
  {| c_PGOEnabled := true; c_Auth := {| auth_Mode := ModeBasic; auth_OIDC := None |};
     c_Realms := {[ "dev"%string := demo_realm ]};
     c_Limits := {| CPUSeconds := 60; TraceSeconds := 10 |};
     c_Pprof := {| pp_Port := 6060; pp_PortName := ""; pp_AllowedSelections := [] |} |}.
Definition demo_deps : Deps := {| d_Ready := true; d_AuthRoutes := false; d_Console := false |}.
Definition demo_pod : Target :=
  {| tg_Namespace := "shop"; tg_Service := "cart"; tg_Pod := "cart-0"; tg_Node := "n1"; tg_PodIP := "10.0.0.1";
     tg_Port := 6060; tg_Version := "v1"; tg_UID := "u0" |}.
Definition demo_request (path query : string) : http_request :=
  {| r_Method := MethodGet; r_Path := path; r_RawQuery := query; r_ContentTypes := [];
     r_RequestIDs := ["req-1"%string]; r_ContentLength := 0 |}.

(** Everything works, and the record of a Collection is another team's. *)
Definition demo_answers (R : Type) (c : call R) (_ : list (answered call)) : R :=
  match c in call T return T with
  | Rand16 => []
  | SetReadDeadline => tt
  | ReadyFunc | HasSynced | Session | GateAcquire => true
  | CtxCut | CtxCanceled => false
  | Authenticate => AuthOK {| p_Name := "ann"; p_Realm := "dev" |}
  | ServeAuth _ => ([], {| ao_Status := 0; ao_Code := ""; ao_Reason := ""; ao_Principal := "" |})
  | ServeConsole _ => []
  | DTargets _ _ _ => inl [demo_pod]
  | DExplain _ _ _ => inr ErrDiscovery
  | DCatalog _ => None
  | DConfirm _ _ => None
  | GateRelease | InFlight _ | ConfirmMetric _ | AuthFailureMetric _ _ | Write _ _ _ | RequestMetric _ _ _
  | Audit _ => tt
  | UpstreamDo _ _ => {| out_Code := codeOK; out_Status := 200; out_Committed := true |}
  | ReadRecordOf _ => Ok ("bank"%string, "ledger"%string)
  | PGO _ _ => HandlerGone 0
  end.

Definition demo_serve (path query : string) : ended * list (answered call) :=
  run demo_answers (ServeHTTP demo_deps demo_config (demo_request path query) yes yes yes no_media demo_duration
    (fun _ => 0%nat)) [].

Definition fetched (e : answered call) : bool := match e with At (UpstreamDo _ _) _ => true | _ => false end.

Definition cpu_path : string := "/v1/namespaces/shop/services/cart/profiles/cpu".

(** A profile is fetched, so every step before it was taken. *)
Lemma requests_in_order_witness :
  existsb fetched (demo_serve cpu_path "seconds=5").2 = true /\
  grew (in_order demo_deps demo_config (demo_request cpu_path "seconds=5") yes) []
    (demo_serve cpu_path "seconds=5").2.
Proof.
  split; [by vm_compute|].
  apply (requests_in_order demo_deps demo_config (demo_request cpu_path "seconds=5") yes yes yes no_media
    demo_duration (fun _ => 0%nat) _ (demo_serve cpu_path "seconds=5").1). apply run_runs.
Defined.

Lemma request_accounted_witness :
  tally acquired (demo_serve cpu_path "seconds=5").2 = 1 /\
  labels (demo_serve cpu_path "seconds=5").1.1 = ("profile"%string, "cpu"%string) /\
  accounted (demo_serve cpu_path "seconds=5").1 (demo_serve cpu_path "seconds=5").2.
Proof.
  split; [by vm_compute|]. split; [by vm_compute|].
  apply (request_accounted demo_deps demo_config (demo_request cpu_path "seconds=5") yes yes yes no_media
    demo_duration (fun _ => 0%nat)). apply run_runs.
Defined.

Definition collection_path : string := "/v1/collections/0123456789abcdefghjk".
Definition demo_collection : request :=
  as_routed (empty_route kindCollection) (new_request "req-1").

(** Another team's Collection is answered as one that is not there. *)
Lemma denied_is_missing_witness :
  realmAllows demo_realm (scoped (q_route demo_collection) "bank" "ledger") MethodGet = false /\
  exists h' e,
    runs (rest (demo_request collection_path "") demo_realm 0 demo_collection (Err ErrKeyNotFound)) [] h' e /\
    unlogged h' = unlogged (run demo_answers (rest (demo_request collection_path "") demo_realm 0 demo_collection
      (Ok ("bank"%string, "ledger"%string))) []).2.
Proof.
  split; [by vm_compute|].
  set (run1 := run demo_answers (rest (demo_request collection_path "") demo_realm 0 demo_collection
      (Ok ("bank"%string, "ledger"%string))) []).
  destruct (proj1 (denied_is_missing (demo_request collection_path "") demo_realm 0 demo_collection "bank" "ledger" []
    ltac:(by vm_compute) (unlogged run1.2) (run1.1).2)) as (h' & e & Hr & Hu & _).
  - exists run1.2, run1.1. split; [apply run_runs|done].
  - by exists h', e.
Defined.
