(* ===== verification/Poller.v ===== *)
(** * The file poller

    src/internal/auth/poll.go: a file read again and again and applied when its
    bytes change, as the users file and the cookie key file are.  What the read
    and the apply answer is given with each poll. *)

From S2P Require Import Prelude Sha256.

(** [filePoller], with the state its [apply] swaps; [fp_loaded] is that some
    bytes were accepted, [fp_sum] their SHA-256. *)
Record filePoller (S : Type) := { fp_sum : list Z; fp_loaded : bool; fp_state : option S }.
Arguments fp_sum {S} f.
Arguments fp_loaded {S} f.
Arguments fp_state {S} f.

#[local] Opaque sha256.

Section poller.
  Context {S : Type}.

Definition newFilePoller : filePoller S := {| fp_sum := []; fp_loaded := false; fp_state := None |}.

(** The outcome of the read and what [apply] would make of bytes at the time: the
    new state, or nothing when it fails and leaves the old one. *)
Record pollEvent := { ev_read : option string; ev_apply : string -> option S }.

Definition accept (b : string) (s : S) : filePoller S :=
  {| fp_sum := sha256 b; fp_loaded := true; fp_state := Some s |}.

(** [Poll]: the reload it counts, [true] for ok, and the poller after it. *)
Definition Poll (e : pollEvent) (p : filePoller S) : bool * filePoller S :=
  match ev_read e with
  | None => (false, p)
  | Some b =>
      if fp_loaded p && bool_decide (sha256 b = fp_sum p) then (true, p)
      else
        match ev_apply e b with
        | None => (false, p)
        | Some s => (true, accept b s)
        end
  end.

(** [load]: whether the start goes on. *)
Definition load (e : pollEvent) (p : filePoller S) : bool * filePoller S :=
  match ev_read e with
  | None => (false, p)
  | Some b =>
      match ev_apply e b with
      | None => (false, p)
      | Some s => (true, accept b s)
      end
  end.

(** [Run], past its ticker: polls in a row. *)
Definition polls (es : list pollEvent) (p : filePoller S) : filePoller S := foldl (fun q e => (Poll e q).2) p es.

(** The bytes a poll would put in force if it looked at them. *)
Definition offers (e : pollEvent) : option string := b ← ev_read e; _ ← ev_apply e b; Some b.

(** The state in force is that of bytes some poll read and accepted, and every
    poll since that read anything acceptable read bytes of the same digest. *)
Definition in_force (es : list pollEvent) (p : filePoller S) : Prop :=
  exists es1 e es2 b s, es = es1 ++ e :: es2 /\ ev_read e = Some b /\ ev_apply e b = Some s /\
    p = accept b s /\ Forall (fun e' => forall b', offers e' = Some b' -> sha256 b' = sha256 b) es2.

Lemma in_force_step (es : list pollEvent) (e : pollEvent) (p : filePoller S) :
  in_force es p -> in_force (es ++ [e]) (Poll e p).2.
Proof.
  intros (es1 & e0 & es2 & b & s & -> & Hr & Ha & -> & Hs).
  assert (in_force ((es1 ++ e0 :: es2) ++ [e]) (accept b s) \/
    exists b' s', ev_read e = Some b' /\ ev_apply e b' = Some s' /\ (Poll e (accept b s)).2 = accept b' s') as H.
  { unfold Poll, in_force, offers.
    assert (Forall (fun e' => forall b', offers e' = Some b' -> sha256 b' = sha256 b) [e] ->
      exists es1' e' es2' b' s', (es1 ++ e0 :: es2) ++ [e] = es1' ++ e' :: es2' /\ ev_read e' = Some b' /\
        ev_apply e' b' = Some s' /\ accept b s = accept b' s' /\
        Forall (fun e'' => forall b'', offers e'' = Some b'' -> sha256 b'' = sha256 b') es2') as Hstay.
    { intros He. exists es1, e0, (es2 ++ [e]), b, s. rewrite <-app_assoc. repeat split; try done.
      apply Forall_app. by split. }
    unfold offers in Hstay.
    destruct (ev_read e) as [b'|] eqn:E1.
    - destruct (decide (sha256 b' = sha256 b)) as [Heq|Hne].
      + left. apply Hstay. apply Forall_singleton. rewrite E1. simpl. intros b'' Hb.
        destruct (ev_apply e b'); simpl in Hb; [by injection Hb as <-|done].
      + simpl. rewrite bool_decide_eq_false_2 by done. destruct (ev_apply e b') as [s'|] eqn:E2.
        * right. by exists b', s'.
        * left. apply Hstay. apply Forall_singleton. rewrite E1. simpl. by rewrite E2.
    - left. apply Hstay. apply Forall_singleton. by rewrite E1. }
  destruct H as [H|(b' & s' & H1 & H2 & H3)].
  - unfold Poll. destruct (ev_read e) as [b'|] eqn:E1; [|done].
    destruct (fp_loaded (accept b s) && _) eqn:E2; [done|].
    destruct (ev_apply e b') as [s'|] eqn:E3; [|done].
    exists (es1 ++ e0 :: es2), e, [], b', s'. split_and!; done.
  - exists (es1 ++ e0 :: es2), e, [], b', s'. split_and!; try done.
Qed.

(** From a start that loaded, whatever the disk gives in between. *)
Lemma polls_in_force (e : pollEvent) (es : list pollEvent) (p : filePoller S) :
  load e newFilePoller = (true, p) -> in_force (e :: es) (polls es p).
Proof.
  intros Hl. assert (in_force [e] p) as H0.
  { unfold load in Hl. destruct (ev_read e) as [b|] eqn:E1; [|done].
    destruct (ev_apply e b) as [s|] eqn:E2; [|done]. simplify_eq.
    exists [], e, [], b, s. split_and!; done. }
  clear Hl. change (e :: es) with ([e] ++ es). generalize dependent p. generalize [e].
  induction es as [|e' es IH]; intros pre p H; cbn [polls foldl]; [by rewrite app_nil_r|].
  change (e' :: es) with ([e'] ++ es). rewrite app_assoc. apply IH. by apply in_force_step.
Qed.

(** A poll that fails leaves everything as it was. *)
Lemma Poll_failed (e : pollEvent) (p : filePoller S) : (Poll e p).1 = false -> (Poll e p).2 = p.
Proof. unfold Poll. repeat case_match; simpl; congruence. Qed.

End poller.
