(* ===== verification/Basic.v ===== *)
(** * Basic authentication

    src/internal/auth/basic.go and users.go: the header's grammar, the gate that
    bounds the comparisons, the lookup and the one comparison of a request, and
    the set of users that is swapped whole.  bcrypt is a call of its own
    ([Compare]) and the minting of the dummy hash an argument. *)

From S2P Require Import Prelude Config Routes Query Base64 Json Auth Interaction Sha256 Poller Settings.

Definition maxBasicHeaderBytes : Z := 1024.
Definition maxPasswordBytes : Z := 72.
Definition basicScheme : string := "Basic".

(** [parseBasic]: the name and the password. *)
Definition parseBasic (header : string) : (string * string) + Failure :=
  if is_empty header then inr (failed 401 ReasonMissing)
  else
    let '(scheme, rest) := cut_pair " " header in
    if negb (equal_fold scheme basicScheme) then inr (failed 401 ReasonScheme)
    else if maxBasicHeaderBytes <? byte_len header then inr (failed 401 ReasonMalformed)
    else
      match std_decode (trim_space rest) with
      | None => inr (failed 401 ReasonMalformed)
      | Some decoded =>
          match cut ":" decoded with
          | None => inr (failed 401 ReasonMalformed)
          | Some (name, password) =>
              if maxPasswordBytes <? byte_len password then inr (failed 401 ReasonMalformed)
              else inl (name, password)
          end
      end.

(** ** The set of users *)

(** [userSet]. *)
Record userSet := { us_users : gmap string BasicUser; us_dummy : string }.

(** [newUserSet]; [mint] is what [dummyHash] answers at a cost. *)
Definition newUserSet (mint : Z -> option string) (inline file : list BasicUser) (realms : gmap string Realm) :
    option userSet :=
  match ValidateBasicUsers inline file realms with
  | inr _ => None
  | inl cost =>
      dummy ← mint cost;
      Some {| us_users := foldl (fun m u => <[bu_Name u := u]> m) ∅ file; us_dummy := dummy |}
  end.

(** [applyUsersFile], the apply of the poller; [parse] is [config.ParseUsers]. *)
Definition applyUsersFile (mint : Z -> option string) (parse : string -> option (list BasicUser))
    (inline : list BasicUser) (realms : gmap string Realm) (raw : string) : option userSet :=
  file ← parse raw; newUserSet mint inline file realms.

(** [lookup]: the user, and the hash to compare against. *)
Definition lookup (name : string) (inline : list BasicUser) (set : userSet) : option BasicUser * string :=
  match List.find (fun u => String.eqb (bu_Name u) name) inline with
  | Some u => (Some u, bu_PasswordHash u)
  | None =>
      match us_users set !! name with
      | Some u => (Some u, bu_PasswordHash u)
      | None => (None, us_dummy set)
      end
  end.

(** ** A request *)

(** What [Authenticate] does outside itself: take and give back a place at the
    gate, load the set, and the comparison, true for a match. *)
Inductive basicCall : Type -> Type :=
  | GateTake : basicCall bool
  | LoadSet : basicCall userSet
  | Compare (hash password : string) : basicCall bool
  | GateGive : basicCall unit.

(** [Authenticate]; [configured] is the snapshot's basic block. *)
Definition Authenticate (header : string) (configured : option BasicConfig) : itx basicCall authAnswer :=
  match configured with
  | None => mret AuthError
  | Some bc =>
      match parseBasic header with
      | inr f => mret (AuthFailed f)
      | inl (name, password) =>
          g ← ask GateTake;
          if negb (g : bool) then mret (AuthFailed (failed 429 ReasonThrottled))
          else
            set ← ask LoadSet;
            let '(user, hash) := lookup name (bc_Users bc) set in
            m ← ask (Compare hash password);
            _ ← ask GateGive;
            mret (match (if m : bool then user else None) with
                  | Some u => AuthOK {| p_Name := bu_Name u; p_Realm := bu_Realm u |}
                  | None => AuthFailed (failed 401 ReasonBadCredential)
                  end)
      end
  end.

(** ** The set in force *)

(** A set under which the known and the unknown cost the same: its users are
    sound at one cost, the inline users are too, and so is the dummy hash. *)
Definition set_sound (realms : gmap string Realm) (inline : list BasicUser) (cost : Z) (set : userSet) : Prop :=
  Forall (user_ok realms cost) inline /\ NoDup (map bu_Name inline) /\
  map_Forall (fun name u => bu_Name u = name /\ user_ok realms cost u) (us_users set) /\
  (forall u, u ∈ inline -> us_users set !! bu_Name u = None) /\
  hashCost (us_dummy set) = inl cost.

Section set.
Variable mint : Z -> option string.
(** bcrypt mints a hash of the cost it is asked for. *)
Hypothesis mint_cost : forall cost h, minBcryptCost <= cost <= maxBcryptCost -> mint cost = Some h ->
  hashCost h = inl cost.

Lemma fold_users (l : list BasicUser) (m : gmap string BasicUser) (name : string) (u : BasicUser) :
  foldl (fun m u => <[bu_Name u := u]> m) m l !! name = Some u ->
  (u ∈ l /\ bu_Name u = name) \/ m !! name = Some u.
Proof.
  revert m. induction l as [|x l IH]; intros m H; cbn [foldl] in H; [by right|].
  apply IH in H as [[H1 H2]|H]; [left; split; [by right|done]|].
  apply lookup_insert_Some in H as [[H1 H2]|[H1 H2]]; [subst; left; split; [by left|done]|by right].
Qed.

(** What the poller swaps in is such a set. *)
Lemma newUserSet_sound (inline file : list BasicUser) (realms : gmap string Realm) (set : userSet) :
  newUserSet mint inline file realms = Some set -> exists cost, set_sound realms inline cost set.
Proof.
  unfold newUserSet. destruct (ValidateBasicUsers inline file realms) as [cost|] eqn:E; [|done].
  apply ValidateBasicUsers_ok in E as (Hne & Hd & Hu). rewrite map_app, NoDup_app in Hd.
  destruct Hd as (Hd1 & Hd & Hd2). apply Forall_app in Hu as [Hu1 Hu2].
  destruct (mint cost) as [dummy|] eqn:Em; [|done]. intros [= <-]. exists cost.
  split; [done|]. split; [done|]. cbn [us_users us_dummy]. split; [|split].
  - intros name u H. apply fold_users in H as [[H1 H2]|H]; [|by rewrite lookup_empty in H].
    split; [done|]. rewrite Forall_forall in Hu2. by apply Hu2.
  - intros u Hu. destruct (_ !! _) as [v|] eqn:Ev; [|done]. exfalso.
    apply fold_users in Ev as [[H1 H2]|H]; [|by rewrite lookup_empty in H].
    apply (Hd (bu_Name u)); apply list_elem_of_fmap; naive_solver.
  - apply mint_cost; [|done]. destruct (inline ++ file) as [|u l] eqn:El; [done|].
    assert (user_ok realms cost u) as (_ & _ & Hh & _).
    { assert (u ∈ inline ++ file) as Hin by (rewrite El; by left).
      apply elem_of_app in Hin as [Hin|Hin]; rewrite Forall_forall in Hu1, Hu2; auto. }
    by apply hashCost_range in Hh.
Qed.

(** Whatever the disk holds from poll to poll, the set in force is one the
    whole configuration admits, read from bytes that were on the disk. *)
Lemma polled_set_sound (parse : string -> option (list BasicUser)) (inline : list BasicUser)
    (realms : gmap string Realm) (reads : list (option string)) (first : option string) (p : filePoller userSet) :
  let ev r := {| ev_read := r; ev_apply := applyUsersFile mint parse inline realms |} in
  load (ev first) newFilePoller = (true, p) ->
  exists b set cost, fp_state (polls (map ev reads) p) = Some set /\ Some b ∈ first :: reads /\
    applyUsersFile mint parse inline realms b = Some set /\ set_sound realms inline cost set.
Proof.
  intros ev Hl. destruct (polls_in_force (ev first) (map ev reads) p Hl)
    as (es1 & e & es2 & b & set & Hes & Hr & Ha & -> & _).
  assert (e ∈ map ev (first :: reads)) as Hin by (cbn [map]; rewrite Hes; apply elem_of_app; right; by left).
  apply list_elem_of_fmap in Hin as (r & -> & Hin). cbn [ev ev_read ev_apply] in Hr, Ha. subst r.
  assert (exists cost, set_sound realms inline cost set) as [cost Hs].
  { unfold applyUsersFile in Ha. destruct (parse b) as [file|]; [|done]. by apply newUserSet_sound in Ha. }
  by exists b, set, cost.
Qed.
End set.

(** ** What a request does *)

Lemma lookup_cost (realms : gmap string Realm) (inline : list BasicUser) (cost : Z) (set : userSet) (name : string) :
  set_sound realms inline cost set ->
  hashCost (lookup name inline set).2 = inl cost /\
  match (lookup name inline set).1 with
  | Some u => bu_Name u = name /\ (u ∈ inline \/ us_users set !! name = Some u) /\ user_ok realms cost u /\
              (lookup name inline set).2 = bu_PasswordHash u
  | None => name ∉ map bu_Name inline /\ us_users set !! name = None
  end.
Proof.
  intros (Hi & _ & Hm & _ & Hd). unfold lookup. rewrite Forall_forall in Hi.
  destruct (List.find _ inline) as [u|] eqn:E1.
  - apply find_some in E1 as [Hin Hn]. apply String.eqb_eq in Hn. rewrite <-list_elem_of_In in Hin.
    pose proof (Hi u Hin) as Hu. split; [apply Hu|]. naive_solver.
  - assert (name ∉ map bu_Name inline) as Hout.
    { intros (u & -> & Hin)%list_elem_of_fmap. rewrite list_elem_of_In in Hin.
      pose proof (find_none _ _ E1 u Hin) as H. cbn beta in H. by rewrite String.eqb_refl in H. }
    destruct (us_users set !! name) as [u|] eqn:E2; [|done].
    destruct (Hm _ _ E2) as [Hn Hu]. split; [apply Hu|]. naive_solver.
Qed.

(** Who is admitted is a user of the lookup, in that user's realm. *)
Lemma admitted_user (header : string) (bc : BasicConfig) (h' : list (answered basicCall)) (p : Principal) :
  runs (Authenticate header (Some bc)) [] h' (AuthOK p) ->
  exists name set u, At LoadSet set ∈ h' /\ (lookup name (bc_Users bc) set).1 = Some u /\ p_Realm p = bu_Realm u.
Proof.
  unfold Authenticate. destruct (parseBasic header) as [[name password]|f]; [|by intros [? _]].
  intros H. apply runs_ask in H as [g H]. destruct g; cbn [negb] in H; [|by destruct H].
  apply runs_ask in H as [set H]. destruct (lookup name (bc_Users bc) set) as [user hash] eqn:El.
  apply runs_ask in H as [ok H]. apply runs_ask in H as [[] H]. destruct H as [H <-].
  destruct ok, user as [u|]; try done. injection H as <-. exists name, set, u. rewrite El. set_solver.
Qed.

(** C21: a request that carries no well-formed credential costs nothing, and one that
    does costs one comparison at the cost every hash of the set shares, known
    name or not, inside the gate it then leaves.  It is admitted only as a user
    of the inline list or of the set, by the name it gave, when the comparison
    with that user's own hash matched, and to that user's realm. *)
Theorem one_comparison (header : string) (bc : BasicConfig) (realms : gmap string Realm)
    (h h' : list (answered basicCall)) (a : authAnswer)
    (Hr : runs (Authenticate header (Some bc)) h h' a) :
  (h' = h /\ exists f, a = AuthFailed f /\ parseBasic header = inr f /\ af_Status f = 401) \/
  (exists name password, parseBasic header = inl (name, password) /\ byte_len password <= maxPasswordBytes /\
    ((h' = At GateTake false :: h /\ a = AuthFailed (failed 429 ReasonThrottled)) \/
     exists set hash ok, h' = At GateGive tt :: At (Compare hash password) ok :: At LoadSet set :: At GateTake true :: h /\
       forall cost, set_sound realms (bc_Users bc) cost set ->
         hashCost hash = inl cost /\
         (a = AuthFailed (failed 401 ReasonBadCredential) \/
          exists u, a = AuthOK {| p_Name := name; p_Realm := bu_Realm u |} /\ ok = true /\
            bu_Name u = name /\ hash = bu_PasswordHash u /\ (u ∈ bc_Users bc \/ us_users set !! name = Some u) /\
            is_Some (realms !! bu_Realm u)))).
Proof.
  unfold Authenticate in Hr. destruct (parseBasic header) as [[name password]|f] eqn:E in Hr.
  - right. exists name, password. split; [done|]. split.
    { unfold parseBasic in E. repeat (case_match; simplify_eq; try done). by to_prop. }
    apply runs_ask in Hr as [g Hr]. destruct g; cbn [negb] in Hr.
    + right. apply runs_ask in Hr as [set Hr]. destruct (lookup name (bc_Users bc) set) as [user hash] eqn:El.
      apply runs_ask in Hr as [ok Hr]. apply runs_ask in Hr as [[] Hr]. destruct Hr as [<- <-]. exists set, hash, ok. split; [done|]. intros cost Hs.
      pose proof (lookup_cost _ _ _ _ name Hs) as [Hc Hu]. rewrite El in Hc, Hu. cbn [fst snd] in Hc, Hu.
      split; [done|]. destruct ok; [|by left]. destruct user as [u|]; [|by left].
      destruct Hu as (Hn & Hin & (_ & _ & _ & _ & Hrealm) & Hh). right. exists u. by rewrite <-Hn in *.
    + left. by destruct Hr as [<- <-].
  - left. destruct Hr as [<- <-]. split; [done|]. exists f. split; [done|]. split; [done|].
    unfold parseBasic in E. by repeat (case_match; simplify_eq; try done).
Qed.

(** ** Instances *)

Definition demo_basic : BasicConfig :=
  {| bc_Users := [demo_user]; bc_UsersFile := EmptyString; bc_AllowPlaintext := true; bc_MaxConcurrent := 4 |}.
Definition demo_header : string := "Basic " +:+ std_encode "ana:secret".
Definition demo_set : userSet :=
  {| us_users := ∅; us_dummy := "$2a$12$abcdefghijklmnopqrstuuKUIgO2t0jWMUWR9hcIPz0giURNNX3kh2" |}.
Definition demo_calls (R : Type) (c : basicCall R) (h : list (answered basicCall)) : R :=
  match c with GateTake => true | LoadSet => demo_set | Compare _ _ => true | GateGive => tt end.

Lemma one_comparison_witness :
  exists name password, parseBasic demo_header = inl (name, password) /\ byte_len password <= maxPasswordBytes.
Proof.
  pose proof (run_runs demo_calls (Authenticate demo_header (Some demo_basic)) []) as H.
  destruct (one_comparison _ _ {[ "default"%string := demo_realm ]} _ _ _ H)
    as [(_ & f & _ & Hp & _)|(name & password & Hp & Hl & _)]; [vm_compute in Hp; discriminate|].
  exists name, password. split; assumption.
Defined.
