(* ===== verification/Issuer.v ===== *)
(** * The client of the issuer

    src/internal/auth/issuer.go and discovery.go: every request to the issuer
    goes through one client that refuses a URL that is not https, follows a
    bounded chain of https redirects to read and none to post, and reads a
    bounded body; discovery keeps of the document only what it has validated.
    The requests are calls; the host grammar of net/url is [parseHost]. *)

From S2P Require Import Prelude Base64 Query Routes Json Url Settings Interaction.

Definition maxIssuerBodyBytes : Z := 2 ^ 20.
Definition maxIssuerRedirects : nat := 3.

(** ** Requests *)

(** A request to the issuer: [None] when [http.Client.Do] fails, otherwise the
    status and the body, [None] when reading it fails. *)
Abbreviation answer := (option (Z * option string)).
Inductive issuerCall : Type -> Type :=
  | Get (url : string) : issuerCall answer
  | Post (url : string) (form : Values) : issuerCall answer.

(** The two [CheckRedirect] functions, of the number of requests already sent
    and the scheme redirected to. *)
Definition checkGet (via : nat) (scheme : string) : bool := (via <=? maxIssuerRedirects)%nat && String.eqb scheme "https".
Definition checkPost (via : nat) (scheme : string) : bool := false.

(** How [http.Client] uses such a function: from the request already sent, the
    redirects it follows of those the servers answer in turn, and whether it
    stopped at one it does not follow. *)
Fixpoint follows (check : nat -> string -> bool) (via : nat) (redirects : list string) : list string * bool :=
  match redirects with
  | [] => ([], true)
  | scheme :: l =>
      if check via scheme then let '(sent, ok) := follows check (S via) l in (scheme :: sent, ok) else ([], false)
  end.

(** [readLimited]. *)
Definition readLimited (body : option string) : option string :=
  b ← body; if maxIssuerBodyBytes <? byte_len b then None else Some b.

(** [decodeOne]; [into] is what the type decoded into makes of the value. *)
Definition decodeOne {A} (into : json -> option A) (body : string) : option A :=
  v ← parse_json body; into v.

Section issuer.
  Variable parseHost : string -> string -> option string.

(** [requireHTTPS]. *)
Definition requireHTTPS (rawURL : string) : bool :=
  match Parse parseHost rawURL with
  | Some u => String.eqb (u_Scheme u) "https"
  | None => false
  end.

(** [getJSON]. *)
Definition read_json {A} (into : json -> option A) (r : answer) : option A :=
  '(status, body) ← r;
  if negb (status =? 200) then None else (b ← readLimited body; decodeOne into b).
Definition getJSON {A} (into : json -> option A) (rawURL : string) : itx issuerCall (option A) :=
  if negb (requireHTTPS rawURL) then mret None
  else r ← ask (Get rawURL); mret (read_json into r).

(** [postForm]. *)
Definition read_body (r : answer) : option (Z * string) :=
  '(status, body) ← r; b ← readLimited body; Some (status, b).
Definition postForm (rawURL : string) (form : Values) : itx issuerCall (option (Z * string)) :=
  if negb (requireHTTPS rawURL) then mret None
  else r ← ask (Post rawURL form); mret (read_body r).

(** ** Discovery *)

Definition discoveryPath : string := "/.well-known/openid-configuration".

Record discoveryDocument := {
  doc_Issuer : string;
  doc_JWKSURI : string;
  doc_AuthorizationEndpoint : string;
  doc_TokenEndpoint : string;
  doc_EndSessionEndpoint : string
}.

(** [encoding/json] into the document. *)
Definition document_names : list string :=
  ["issuer"; "jwks_uri"; "authorization_endpoint"; "token_endpoint"; "end_session_endpoint"]%string.
Definition set_document (d : discoveryDocument) (name : string) (v : json) : option discoveryDocument :=
  let '(Build_discoveryDocument i j a t e) := d in
  if String.eqb name "issuer" then i' ← to_string i v; Some (Build_discoveryDocument i' j a t e)
  else if String.eqb name "jwks_uri" then j' ← to_string j v; Some (Build_discoveryDocument i j' a t e)
  else if String.eqb name "authorization_endpoint" then a' ← to_string a v; Some (Build_discoveryDocument i j a' t e)
  else if String.eqb name "token_endpoint" then t' ← to_string t v; Some (Build_discoveryDocument i j a t' e)
  else e' ← to_string e v; Some (Build_discoveryDocument i j a t e').
Definition to_document : json -> option discoveryDocument :=
  to_struct document_names set_document (Build_discoveryDocument "" "" "" "" "").

Inductive discoverFault :=
  | IssuerNotHTTPS | DiscoveryFailed | IssuerDiffers | NoEndpoint (name : string) | BadEndpoint (name : string).

(** [validateEndpoint]. *)
Definition validateEndpoint (raw : string) : bool :=
  match Parse parseHost raw with
  | None => false
  | Some u =>
      String.eqb (u_Scheme u) "https" && negb (is_empty (u_Host u)) && negb (u_User u)
      && is_empty (u_Fragment u) && is_empty (u_RawFragment u)
  end.

(** The two loops of [discover]. *)
Definition check_required (e : string * string) : option discoverFault :=
  if is_empty e.2 then Some (NoEndpoint e.1)
  else if validateEndpoint e.2 then None else Some (BadEndpoint e.1).
Definition check_optional (e : string * string) : option discoverFault :=
  if is_empty e.2 || validateEndpoint e.2 then None else Some (BadEndpoint e.1).
Fixpoint first_of (check : string * string -> option discoverFault) (l : list (string * string)) :
    option discoverFault :=
  match l with
  | [] => None
  | e :: l' => match check e with Some f => Some f | None => first_of check l' end
  end.

(** [discover] past the fetch. *)
Definition required_endpoints (browser : bool) (doc : discoveryDocument) : list (string * string) :=
  ("jwks_uri"%string, doc_JWKSURI doc) ::
  (if browser then [("authorization_endpoint"%string, doc_AuthorizationEndpoint doc);
                    ("token_endpoint"%string, doc_TokenEndpoint doc)] else []).
Definition optional_endpoints (browser : bool) (doc : discoveryDocument) : list (string * string) :=
  if browser then [("end_session_endpoint"%string, doc_EndSessionEndpoint doc)] else [].
Definition kept (browser : bool) (doc : discoveryDocument) : discoveryDocument :=
  if browser then doc
  else Build_discoveryDocument (doc_Issuer doc) (doc_JWKSURI doc) EmptyString EmptyString EmptyString.
Definition judge (issuer : string) (browser : bool) (doc : discoveryDocument) : discoveryDocument + discoverFault :=
  if negb (String.eqb (doc_Issuer doc) issuer) then inr IssuerDiffers
  else
    match first_of check_required (required_endpoints browser doc) with
    | Some f => inr f
    | None =>
        match first_of check_optional (optional_endpoints browser doc) with
        | Some f => inr f
        | None => inl (kept browser doc)
        end
    end.

Definition discovery_url (issuer : string) : string := trim_suffix "/" issuer +:+ discoveryPath.
Definition discover (issuer : string) (browser : bool) : itx issuerCall (discoveryDocument + discoverFault) :=
  if negb (requireHTTPS issuer) then mret (inr IssuerNotHTTPS)
  else
    d ← getJSON to_document (discovery_url issuer);
    mret (match d with None => inr DiscoveryFailed | Some doc => judge issuer browser doc end).

(** ** What leaves for the issuer *)

(** A request to the issuer goes to an https URL. *)
Definition https_only (h : list (answered issuerCall)) (R : Type) (c : issuerCall R) : Prop :=
  match c with Get url | Post url _ => requireHTTPS url = true end.

Lemma getJSON_https {A} (into : json -> option A) (rawURL : string) h :
  pre https_only (getJSON into rawURL) h (fun a _ => is_Some a -> requireHTTPS rawURL = true).
Proof.
  unfold getJSON. destruct (requireHTTPS rawURL) eqn:E; cbn [negb]; [|by intros []].
  apply pre_ask; [done|]. by intros r.
Qed.

Lemma postForm_https (rawURL : string) (form : Values) h :
  pre https_only (postForm rawURL form) h (fun a _ => is_Some a -> requireHTTPS rawURL = true).
Proof.
  unfold postForm. destruct (requireHTTPS rawURL) eqn:E; cbn [negb]; [|by intros []].
  apply pre_ask; [done|]. by intros r.
Qed.

(** The chain of redirects of a read: at most three, each to https; of a post:
    none. *)
Lemma follows_get (redirects : list string) (via : nat) :
  (via <= S maxIssuerRedirects)%nat ->
  let '(sent, _) := follows checkGet via redirects in
  (length sent + via <= S maxIssuerRedirects)%nat /\ Forall (fun s => s = "https"%string) sent.
Proof.
  revert via. induction redirects as [|s l IH]; intros via Hv; cbn [follows]; [by split; [simpl; lia|]|].
  unfold checkGet at 1. destruct (Nat.leb_spec via maxIssuerRedirects); cbn [andb]; [|by split; [simpl; lia|]].
  destruct (String.eqb s "https") eqn:E; [|by split; [simpl; lia|]]. apply String.eqb_eq in E.
  specialize (IH (S via) ltac:(lia)). destruct (follows checkGet (S via) l) as [sent ok].
  destruct IH as [H1 H2]. split; [simpl; lia|by constructor].
Qed.

(** ** What discovery keeps *)

(** An endpoint that may be used: absolute, https, with a host and neither
    userinfo nor fragment. *)
Definition endpoint_ok (raw : string) : Prop :=
  exists u, Parse parseHost raw = Some u /\ u_Scheme u = "https"%string /\ u_Host u <> EmptyString /\
    u_User u = false /\ u_Fragment u = EmptyString /\ u_RawFragment u = EmptyString.

Lemma validateEndpoint_ok (raw : string) : validateEndpoint raw = true <-> endpoint_ok raw.
Proof.
  unfold validateEndpoint, endpoint_ok. destruct (Parse parseHost raw) as [u|]; [|naive_solver].
  rewrite !andb_true_iff, !negb_true_iff, is_empty_false, !is_empty_true, String.eqb_eq. naive_solver.
Qed.

Lemma first_of_None (check : string * string -> option discoverFault) (l : list (string * string)) :
  first_of check l = None <-> Forall (fun e => check e = None) l.
Proof.
  induction l as [|e l IH]; cbn [first_of]; [done|]. rewrite Forall_cons, <-IH. destruct (check e); naive_solver.
Qed.

Lemma check_required_None (name raw : string) : check_required (name, raw) = None <-> raw <> EmptyString /\ endpoint_ok raw.
Proof.
  unfold check_required. cbn [fst snd]. destruct (is_empty raw) eqn:E.
  - apply is_empty_true in E. naive_solver.
  - apply is_empty_false in E. rewrite <-validateEndpoint_ok. destruct (validateEndpoint raw); naive_solver.
Qed.

Lemma check_optional_None (name raw : string) : check_optional (name, raw) = None <-> raw = EmptyString \/ endpoint_ok raw.
Proof.
  unfold check_optional. cbn [fst snd]. rewrite <-validateEndpoint_ok, <-is_empty_true.
  destruct (is_empty raw), (validateEndpoint raw); naive_solver.
Qed.

(** The document discovery answers with. *)
Definition document_ok (issuer : string) (browser : bool) (doc : discoveryDocument) : Prop :=
  doc_Issuer doc = issuer /\ doc_JWKSURI doc <> EmptyString /\ endpoint_ok (doc_JWKSURI doc) /\
  if browser then
    endpoint_ok (doc_AuthorizationEndpoint doc) /\ doc_AuthorizationEndpoint doc <> EmptyString /\
    endpoint_ok (doc_TokenEndpoint doc) /\ doc_TokenEndpoint doc <> EmptyString /\
    (doc_EndSessionEndpoint doc = EmptyString \/ endpoint_ok (doc_EndSessionEndpoint doc))
  else
    doc_AuthorizationEndpoint doc = EmptyString /\ doc_TokenEndpoint doc = EmptyString /\
    doc_EndSessionEndpoint doc = EmptyString.

Lemma required_None (browser : bool) (doc : discoveryDocument) :
  first_of check_required (required_endpoints browser doc) = None <->
  (doc_JWKSURI doc <> EmptyString /\ endpoint_ok (doc_JWKSURI doc)) /\
  (browser = true -> (doc_AuthorizationEndpoint doc <> EmptyString /\ endpoint_ok (doc_AuthorizationEndpoint doc)) /\
                     doc_TokenEndpoint doc <> EmptyString /\ endpoint_ok (doc_TokenEndpoint doc)).
Proof.
  rewrite first_of_None. unfold required_endpoints.
  destruct browser; rewrite !Forall_cons, Forall_nil, !check_required_None; naive_solver.
Qed.

Lemma optional_None (browser : bool) (doc : discoveryDocument) :
  first_of check_optional (optional_endpoints browser doc) = None <->
  (browser = true -> doc_EndSessionEndpoint doc = EmptyString \/ endpoint_ok (doc_EndSessionEndpoint doc)).
Proof.
  rewrite first_of_None. unfold optional_endpoints.
  destruct browser; rewrite ?Forall_cons, Forall_nil, ?check_optional_None; naive_solver.
Qed.

Lemma judge_ok (issuer : string) (browser : bool) (doc doc' : discoveryDocument) :
  judge issuer browser doc = inl doc' <-> doc' = kept browser doc /\ document_ok issuer browser doc'.
Proof.
  pose proof (required_None browser doc) as H1. pose proof (optional_None browser doc) as H2.
  unfold judge, document_ok. destruct (String.eqb (doc_Issuer doc) issuer) eqn:Ei; cbn [negb].
  - apply String.eqb_eq in Ei. destruct (first_of check_required _) as [f|].
    { split; [done|]. intros [-> H]. destruct browser; naive_solver. }
    destruct (first_of check_optional _) as [f|].
    { split; [done|]. intros [-> H]. destruct browser; naive_solver. }
    destruct H1 as [H1 _]. destruct H2 as [H2 _]. destruct browser; naive_solver.
  - apply String.eqb_neq in Ei. split; [done|]. intros [-> H]. destruct browser; naive_solver.
Qed.

(** Discovery reads one document, over https and from the well-known path of the
    configured issuer; what it answers with names that issuer byte for byte, has
    an https key set, and every endpoint the browser flow will send a user or a
    secret to is an https URL without userinfo or fragment; without that flow no
    endpoint is kept. *)
Theorem discover_document (issuer : string) (browser : bool) (h h' : list (answered issuerCall))
    (doc : discoveryDocument) (Hr : runs (discover issuer browser) h h' (inl doc)) :
  document_ok issuer browser doc /\ requireHTTPS issuer = true /\
  exists status body raw, h' = At (Get (discovery_url issuer)) (Some (status, Some body)) :: h /\ status = 200 /\
    byte_len body <= maxIssuerBodyBytes /\ requireHTTPS (discovery_url issuer) = true /\
    decodeOne to_document body = Some raw /\ doc = kept browser raw.
Proof.
  unfold discover in Hr. destruct (requireHTTPS issuer) eqn:Ei; cbn [negb] in Hr; [|by destruct Hr].
  apply runs_bind in Hr as (d & h1 & Hg & Hd). destruct Hd as [Hd <-]. destruct d as [raw|]; [|done].
  apply judge_ok in Hd as [-> Hd]. split; [done|]. split; [done|].
  unfold getJSON in Hg. destruct (requireHTTPS (discovery_url issuer)) eqn:Eu; cbn [negb] in Hg; [|by destruct Hg].
  apply runs_ask in Hg as [[[status body]|] Hg]; destruct Hg as [Hg <-]; [|done].
  unfold read_json in Hg. cbn [mbind option_bind] in Hg. destruct (status =? 200) eqn:Es; cbn [negb] in Hg; [|done].
  to_prop. unfold readLimited in Hg. destruct body as [body|]; [|done]. cbn [mbind option_bind] in Hg.
  destruct (maxIssuerBodyBytes <? byte_len body) eqn:El; [done|]. to_prop. subst status. by exists 200, body, raw.
Qed.
End issuer.

(** ** Instances *)

Definition demo_host (scheme authority : string) : option string := Some authority.
Definition demo_document : string :=
  print (JObj [("issuer", JStr "https://id.example"); ("jwks_uri", JStr "https://id.example/keys");
               ("token_endpoint", JStr "http://id.example/token")])%string.
Definition demo_get (R : Type) (c : issuerCall R) (h : list (answered issuerCall)) : R :=
  match c with Get _ => Some (200, Some demo_document) | Post _ _ => None end.
Definition demo_doc : discoveryDocument := Build_discoveryDocument "https://id.example" "https://id.example/keys" "" "" "".

(** Without the browser flow the token endpoint does not matter; with it the
    document is refused. *)
Example discovery_with_browser :
  (run demo_get (discover demo_host "https://id.example" true) []).1 = inr (NoEndpoint "authorization_endpoint").
Proof. vm_compute. reflexivity. Qed.

Lemma discover_document_witness : document_ok demo_host "https://id.example" false demo_doc.
Proof.
  pose proof (run_runs demo_get (discover demo_host "https://id.example" false) []) as H.
  assert ((run demo_get (discover demo_host "https://id.example" false) []).1 = inl demo_doc) as E
    by (vm_compute; reflexivity). rewrite E in H.
  exact (proj1 (discover_document demo_host "https://id.example" false [] _ demo_doc H)).
Defined.
