(* ===== verification/Jwks.v ===== *)
(** * The signing keys of the issuer

    src/internal/auth/jwks.go: which keys of a fetched set may verify a token and
    under which algorithm, the immutable snapshot a verification loads, and the
    cache that replaces it on a timer or, within a cooldown, on demand.  The
    parsing of a key set and [JSONWebKey.Valid] are go-jose's: arguments. *)

From S2P Require Import Prelude Settings Issuer.

(** ** Keys *)

(** The curves of crypto/elliptic. *)
Inductive curve := P224 | P256 | P384 | P521.
#[export] Instance curve_eq_dec : EqDecision curve.
Proof. solve_decision. Defined.

(** [JSONWebKey.Key]: nil, a public key of one of the two kinds the code tells
    apart, or another type; [jk_Thumb] stands for the rest of the key. *)
Inductive keyMaterial :=
  | NoKey
  | RSAKey (N E : Z)
  | ECKey (c : curve) (X Y : Z)
  | OtherKey.
#[export] Instance keyMaterial_eq_dec : EqDecision keyMaterial.
Proof. solve_decision. Defined.

Record JSONWebKey := {
  jk_Key : keyMaterial;
  jk_KeyID : string;
  jk_Algorithm : string;
  jk_Use : string
}.
#[export] Instance JSONWebKey_eq_dec : EqDecision JSONWebKey.
Proof. solve_decision. Defined.

Definition minRSABits : Z := 2048.

(** [big.Int.BitLen] of a non-negative number. *)
Definition BitLen (n : Z) : Z := if n <=? 0 then 0 else Z.log2 n + 1.

(** [allowedAlgs]. *)
Definition allowedAlgs : list string :=
  ["RS256"; "RS384"; "RS512"; "ES256"; "ES384"; "ES512"; "PS256"; "PS384"; "PS512"]%string.

(** [algAllowed]. *)
Definition algAllowed (alg : string) : bool := bool_decide (alg ∈ allowedAlgs).

(** [curveFor]. *)
Definition curveFor (alg : string) : option curve :=
  if String.eqb alg "ES256" then Some P256
  else if String.eqb alg "ES384" then Some P384
  else if String.eqb alg "ES512" then Some P521
  else None.

(** [compatible]. *)
Definition compatible (alg : string) (k : JSONWebKey) : bool :=
  if negb (algAllowed alg) then false
  else if negb (is_empty (jk_Algorithm k)) && negb (String.eqb (jk_Algorithm k) alg) then false
  else
    match jk_Key k with
    | RSAKey _ _ => has_prefix "R" alg || has_prefix "P" alg
    | ECKey c _ _ => bool_decide (Some c = curveFor alg)
    | _ => false
    end.

Inductive whyUnusable := NotUnderstood | NotForSignatures | ShortModulus | WrongCurve | WrongType | DoesNotParse | WrongAlg.

Section keys.
  Variable Valid : JSONWebKey -> bool.

(** [unusable]: [None] is the empty string. *)
Definition parses (k : JSONWebKey) : option whyUnusable :=
  if negb (Valid k) then Some DoesNotParse
  else if negb (is_empty (jk_Algorithm k)) && negb (compatible (jk_Algorithm k) k) then Some WrongAlg
  else None.
Definition unusable (k : JSONWebKey) : option whyUnusable :=
  match jk_Key k with
  | NoKey => Some NotUnderstood
  | key =>
      if negb (is_empty (jk_Use k)) && negb (String.eqb (jk_Use k) "sig") then Some NotForSignatures
      else
        match key with
        | RSAKey n _ => if BitLen n <? minRSABits then Some ShortModulus else parses k
        | ECKey c _ _ =>
            if negb (bool_decide (c = P256)) && negb (bool_decide (c = P384)) && negb (bool_decide (c = P521))
            then Some WrongCurve else parses k
        | _ => Some WrongType
        end
  end.

(** [keySet]. *)
Record keySet := {
  ks_byKID : gmap string JSONWebKey;
  ks_all : list JSONWebKey;
  ks_fetched : time
}.

(** [keySet.stale]; no set is stale. *)
Definition stale (k : option keySet) (now : time) (maxStale : duration) : bool :=
  match k with
  | None => true
  | Some k => maxStale <? time_sub now (ks_fetched k)
  end.

Inductive keysFault := SharedKid (kid : string) | NoUsableKey.

(** The loop of [usableKeys]. *)
Fixpoint index_keys (raw : list JSONWebKey) (set : keySet) : keySet + keysFault :=
  match raw with
  | [] => inl set
  | k :: raw' =>
      match unusable k with
      | Some _ => index_keys raw' set
      | None =>
          let appended m := {| ks_byKID := m; ks_all := ks_all set ++ [k]; ks_fetched := ks_fetched set |} in
          if is_empty (jk_KeyID k) then index_keys raw' (appended (ks_byKID set))
          else
            match ks_byKID set !! jk_KeyID k with
            | Some _ => inr (SharedKid (jk_KeyID k))
            | None => index_keys raw' (appended (<[jk_KeyID k := k]> (ks_byKID set)))
            end
      end
  end.

(** [usableKeys]. *)
Definition usableKeys (raw : list JSONWebKey) (fetched : time) : keySet + keysFault :=
  match index_keys raw {| ks_byKID := ∅; ks_all := []; ks_fetched := fetched |} with
  | inr f => inr f
  | inl set => match ks_all set with [] => inr NoUsableKey | _ => inl set end
  end.

(** ** The cache *)

(** [jwksCache]: the set in force, and the clock reading of the last refresh on
    demand. *)
Record jwksCache := { jc_cur : option keySet; jc_lastAttempt : time }.
Definition newJWKSCache : jwksCache := {| jc_cur := None; jc_lastAttempt := zero_time |}.

(** [Refresh] under [fetchMu]: [fetched] is what the fetch answered and [now] the
    clock read after it; whether it succeeded. *)
Definition Refresh (fetched : option (list JSONWebKey)) (now : time) (c : jwksCache) : bool * jwksCache :=
  match fetched with
  | Some raw =>
      match usableKeys raw now with
      | inl set => (true, {| jc_cur := Some set; jc_lastAttempt := jc_lastAttempt c |})
      | inr _ => (false, c)
      end
  | None => (false, c)
  end.

(** [refreshOnDemand]: the section [mu] guards, at the clock read before it;
    whether the refresh that follows is to run. *)
Definition mayRefresh (refreshMin : duration) (now : time) (c : jwksCache) : bool * jwksCache :=
  if negb (jc_lastAttempt c =? zero_time) && (time_sub now (jc_lastAttempt c) <? refreshMin) then (false, c)
  else (true, {| jc_cur := jc_cur c; jc_lastAttempt := now |}).

(** One critical section of a cache: the callers on demand and the timer hold
    [mu] and [fetchMu] for one each at a time, so what happens to a cache is a
    list of these, whatever goroutines they are of. *)
Inductive cacheStep :=
  | Attempt (now : time)
  | Fetched (raw : option (list JSONWebKey)) (now : time).
Definition cache_step (refreshMin : duration) (c : jwksCache) (s : cacheStep) : jwksCache :=
  match s with
  | Attempt now => (mayRefresh refreshMin now c).2
  | Fetched raw now => (Refresh raw now c).2
  end.
Definition cache_run (refreshMin : duration) (l : list cacheStep) (c : jwksCache) : jwksCache :=
  foldl (cache_step refreshMin) c l.

(** The attempts of a run that go on to fetch, the last first. *)
Fixpoint granted (refreshMin : duration) (l : list cacheStep) (c : jwksCache) (acc : list time) : list time :=
  match l with
  | [] => acc
  | s :: l' =>
      let acc' := match s with
                  | Attempt now => if (mayRefresh refreshMin now c).1 then now :: acc else acc
                  | Fetched _ _ => acc
                  end in
      granted refreshMin l' (cache_step refreshMin c s) acc'
  end.

(** ** A usable key *)

Definition kind_ok (k : keyMaterial) : Prop :=
  match k with
  | RSAKey n _ => minRSABits <= BitLen n
  | ECKey c _ _ => c <> P224
  | _ => False
  end.
Definition key_ok (k : JSONWebKey) : Prop :=
  (jk_Use k = EmptyString \/ jk_Use k = "sig"%string) /\ kind_ok (jk_Key k) /\ Valid k = true /\
  (jk_Algorithm k = EmptyString \/ compatible (jk_Algorithm k) k = true).

Lemma compatible_alg (alg : string) (k : JSONWebKey) :
  compatible alg k = true -> alg ∈ allowedAlgs /\ (jk_Algorithm k = EmptyString \/ jk_Algorithm k = alg).
Proof.
  unfold compatible, algAllowed. destruct (bool_decide (alg ∈ allowedAlgs)) eqn:E; [|done]. to_prop. cbn [negb].
  destruct (negb (is_empty _) && _) eqn:E2; [done|]. intros _. split; [done|].
  apply andb_false_iff in E2 as [E2|E2]; to_prop; [left; by apply is_empty_true|by right].
Qed.

Lemma unusable_None (k : JSONWebKey) : unusable k = None <-> key_ok k.
Proof.
  unfold key_ok. rewrite <-!is_empty_true, <-String.eqb_eq. unfold unusable, parses.
  destruct (jk_Key k) as [|n e|c x y|]; cbn [kind_ok]; [naive_solver| | |].
  - destruct (Z.ltb_spec (BitLen n) minRSABits), (is_empty (jk_Use k)), (String.eqb (jk_Use k) "sig"), (Valid k),
      (is_empty (jk_Algorithm k)), (compatible _ k); naive_solver lia.
  - destruct c, (is_empty (jk_Use k)), (String.eqb (jk_Use k) "sig"), (Valid k),
      (is_empty (jk_Algorithm k)), (compatible _ k); naive_solver.
  - destruct (_ && _); naive_solver.
Qed.

(** ** The indexed set *)

(** The usable keys in the order fetched, each under its identifier, no
    identifier naming two. *)
Definition keySet_ok (raw : list JSONWebKey) (set : keySet) : Prop :=
  ks_all set = filter (fun k => unusable k = None) raw /\
  map_Forall (fun kid k => kid = jk_KeyID k /\ kid <> EmptyString /\ k ∈ ks_all set) (ks_byKID set) /\
  (forall i j k k', ks_all set !! i = Some k -> ks_all set !! j = Some k' -> jk_KeyID k = jk_KeyID k' ->
     jk_KeyID k <> EmptyString -> i = j) /\
  (forall k, k ∈ ks_all set -> jk_KeyID k <> EmptyString -> ks_byKID set !! jk_KeyID k = Some k).

Lemma keySet_ok_snoc (raw : list JSONWebKey) (k : JSONWebKey) (set : keySet) (m : gmap string JSONWebKey) (t : time) :
  keySet_ok raw set -> unusable k = None ->
  (if is_empty (jk_KeyID k) then m = ks_byKID set
   else ks_byKID set !! jk_KeyID k = None /\ m = <[jk_KeyID k := k]> (ks_byKID set)) ->
  keySet_ok (raw ++ [k]) {| ks_byKID := m; ks_all := ks_all set ++ [k]; ks_fetched := t |}.
Proof.
  intros (Ha & Hm & Hi & Hk) Hu Hc. unfold keySet_ok. cbn [ks_all ks_byKID].
  assert (jk_KeyID k <> EmptyString -> ks_byKID set !! jk_KeyID k = None) as Hnew.
  { intros Hne. destruct (is_empty _) eqn:E; [by apply is_empty_true in E|]. naive_solver. }
  split; [|split; [|split]].
  - rewrite filter_app, filter_cons_True by done. by rewrite Ha.
  - intros kid k' Hl. destruct (is_empty (jk_KeyID k)) eqn:E.
    + subst m. destruct (Hm _ _ Hl) as (? & ? & ?). rewrite elem_of_app. naive_solver.
    + destruct Hc as [_ ->]. apply is_empty_false in E. rewrite elem_of_app.
      apply lookup_insert_Some in Hl as [[<- <-]|[_ Hl]]; [|destruct (Hm _ _ Hl) as (? & ? & ?); naive_solver].
      split; [done|]. split; [done|]. right. by left.
  - intros i j x y Hx Hy Hxy Hne. apply lookup_app_Some in Hx as [Hx|[Hi1 Hx]], Hy as [Hy|[Hj1 Hy]].
    + by eapply Hi.
    + apply list_lookup_singleton_Some in Hy as [Hj <-]. exfalso.
      assert (ks_byKID set !! jk_KeyID k = Some x) as Hs; [|rewrite Hnew in Hs by congruence; done].
      rewrite <-Hxy. apply Hk; [by eapply list_elem_of_lookup_2|done].
    + apply list_lookup_singleton_Some in Hx as [Hi2 <-]. exfalso.
      assert (ks_byKID set !! jk_KeyID k = Some y) as Hs; [|rewrite Hnew in Hs by congruence; done].
      rewrite Hxy. apply Hk; [by eapply list_elem_of_lookup_2|congruence].
    + apply list_lookup_singleton_Some in Hx as [? _], Hy as [? _]. lia.
  - intros x [Hx|Hx]%elem_of_app Hne.
    + destruct (is_empty _); [by subst m; auto|]. destruct Hc as [Hn ->].
      rewrite lookup_insert_ne; [by auto|]. intros He. rewrite He, (Hk x Hx Hne) in Hn. done.
    + apply list_elem_of_singleton in Hx as ->. apply is_empty_false in Hne. rewrite Hne in Hc.
      destruct Hc as [_ ->]. by rewrite lookup_insert_eq.
Qed.

Lemma index_keys_ok (done raw : list JSONWebKey) (set set' : keySet) :
  keySet_ok done set -> index_keys raw set = inl set' ->
  keySet_ok (done ++ raw) set' /\ ks_fetched set' = ks_fetched set.
Proof.
  revert done set. induction raw as [|k raw IH]; intros dn set Hs H; cbn [index_keys] in H.
  { injection H as <-. by rewrite app_nil_r. }
  replace (dn ++ k :: raw) with ((dn ++ [k]) ++ raw) by (by rewrite <-app_assoc).
  destruct (unusable k) eqn:Eu.
  - apply (IH _ set); [|done]. unfold keySet_ok in *. rewrite filter_app, filter_cons_False by congruence.
    by rewrite filter_nil, app_nil_r.
  - destruct (is_empty (jk_KeyID k)) eqn:Ek.
    + eapply IH in H as [H1 H2]; [by split|]. apply keySet_ok_snoc; [done..|by rewrite Ek].
    + destruct (ks_byKID set !! jk_KeyID k) eqn:El; [done|].
      eapply IH in H as [H1 H2]; [by split|]. apply keySet_ok_snoc; [done..|by rewrite Ek].
Qed.

(** The keys a fetch gives. *)
Lemma usableKeys_ok (raw : list JSONWebKey) (fetched : time) (set : keySet) :
  usableKeys raw fetched = inl set -> keySet_ok raw set /\ ks_all set <> [] /\ ks_fetched set = fetched.
Proof.
  unfold usableKeys. destruct (index_keys raw _) as [s|f] eqn:E; [|done].
  apply (index_keys_ok []) in E as [H1 H2]; [|split; [done|]; split; [apply map_Forall_empty|]; split;
    [done|intros k H; by apply elem_of_nil in H]].
  destruct (ks_all s) eqn:Ea; [done|]. intros [= <-]. by rewrite Ea.
Qed.

(** ** The cache over time *)

Section cache.
  Variable refreshMin : duration.

(** C22: the set in force is the one of the last fetch that gave a set: a fetch that
    fails, or whose answer has no usable key or a shared identifier, leaves it. *)
Theorem cache_in_force (l : list cacheStep) (set : keySet)
    (Hcur : jc_cur (cache_run refreshMin l newJWKSCache) = Some set) :
  exists l1 raw now l2, l = l1 ++ Fetched (Some raw) now :: l2 /\ usableKeys raw now = inl set /\
    keySet_ok raw set /\ ks_all set <> [] /\ ks_fetched set = now /\
    forall raw' now', Fetched (Some raw') now' ∈ l2 -> exists f, usableKeys raw' now' = inr f.
Proof.
  enough (exists l1 raw now l2, l = l1 ++ Fetched (Some raw) now :: l2 /\ usableKeys raw now = inl set /\
    forall raw' now', Fetched (Some raw') now' ∈ l2 -> exists f, usableKeys raw' now' = inr f)
    as (l1 & raw & now & l2 & Hl & Hu & Hf).
  { exists l1, raw, now, l2. by destruct (usableKeys_ok _ _ _ Hu) as (H1 & H2 & H3). }
  induction l as [|s l IH] using rev_ind; [done|]. unfold cache_run in Hcur, IH. rewrite foldl_snoc in Hcur.
  set (c := foldl (cache_step refreshMin) newJWKSCache l) in Hcur, IH.
  assert (jc_cur c = Some set -> (forall raw now, s = Fetched (Some raw) now -> exists f, usableKeys raw now = inr f) ->
    exists l1 raw now l2, l ++ [s] = l1 ++ Fetched (Some raw) now :: l2 /\ usableKeys raw now = inl set /\
    forall raw' now', Fetched (Some raw') now' ∈ l2 -> exists f, usableKeys raw' now' = inr f) as Hkeep.
  { intros Hc Hs. destruct (IH Hc) as (l1 & raw & now & l2 & -> & Hu & Hf). exists l1, raw, now, (l2 ++ [s]).
    split; [by rewrite <-app_assoc|]. split; [done|]. intros raw' now' [H|H]%elem_of_app; [by apply Hf|].
    apply list_elem_of_singleton in H. by eapply Hs. }
  destruct s as [now|[raw|] now]; cbn [cache_step] in Hcur.
  - apply Hkeep; [|done]. unfold mayRefresh in Hcur. by case_match.
  - unfold Refresh in Hcur. destruct (usableKeys raw now) as [set'|f] eqn:E; cbn [snd jc_cur] in Hcur.
    + injection Hcur as ->. exists l, raw, now, []. split; [done|]. split; [done|]. intros ? ? H. by apply elem_of_nil in H.
    + apply Hkeep; [done|]. intros raw' now' [= <- <-]. by exists f.
  - by apply Hkeep.
Qed.

Lemma granted_spaced (l : list cacheStep) (c : jwksCache) (acc : list time) :
  0 <= refreshMin -> (forall now, Attempt now ∈ l -> now <> zero_time) ->
  jc_lastAttempt c = match acc with [] => zero_time | t :: _ => t end ->
  Forall (fun t => t <> zero_time) acc -> StronglySorted (fun x y => refreshMin <= x - y) acc ->
  StronglySorted (fun x y => refreshMin <= x - y) (granted refreshMin l c acc).
Proof.
  intros Hmin. revert c acc. induction l as [|s l IH]; intros c acc Hz Hl Hn Hs; cbn [granted]; [done|].
  assert (forall now, Attempt now ∈ l -> now <> zero_time) as Hz' by (intros now H; apply Hz; by right).
  destruct s as [now|raw now]; cbn [cache_step].
  - unfold mayRefresh. destruct (_ && _) eqn:E; cbn [fst snd]; [by apply IH|].
    assert (now <> zero_time) by (apply Hz; by left). apply IH; [done|done|by constructor|].
    constructor; [done|]. destruct acc as [|t acc]; [constructor|]. rewrite Hl in E.
    apply Forall_cons in Hn as [Ht Hn]. apply andb_false_iff in E as [E|E].
    { apply negb_false_iff, Z.eqb_eq in E. done. }
    apply Z.ltb_ge in E. apply StronglySorted_inv in Hs as [_ Hs].
    assert (refreshMin <= now - t) as Hnt by (unfold time_sub, min_int64, max_int64 in E; lia).
    constructor; [done|]. eapply Forall_impl; [exact Hs|]. intros y Hy. cbn beta in Hy. lia.
  - apply IH; try done. unfold Refresh. by repeat case_match.
Qed.

(** Refreshes on demand are a cooldown apart, whichever requests ask for them
    and in whatever order their clock readings reach the lock. *)
Theorem refreshes_spaced (l : list cacheStep) (i j : nat) (x y : time)
    (Hmin : 0 <= refreshMin) (Hz : forall now, Attempt now ∈ l -> now <> zero_time) (Hij : (i < j)%nat)
    (Hx : granted refreshMin l newJWKSCache [] !! i = Some x)
    (Hy : granted refreshMin l newJWKSCache [] !! j = Some y) : refreshMin <= x - y.
Proof.
  pose proof (granted_spaced l newJWKSCache [] Hmin Hz eq_refl (Forall_nil_2 _) (SSorted_nil _)) as Hs.
  revert i j Hij Hx Hy. induction Hs as [|t l' Hs IH Hf]; intros i j Hij Hx Hy; [done|].
  destruct j as [|j]; [lia|]. destruct i as [|i]; cbn in Hx, Hy.
  - injection Hx as ->. rewrite Forall_lookup in Hf. by eapply Hf.
  - eapply IH; [|done..]. lia.
Qed.
End cache.
End keys.

(** ** Instances *)

Definition demo_key (kid : string) : JSONWebKey :=
  {| jk_Key := RSAKey (2 ^ 2048 - 1) 65537; jk_KeyID := kid; jk_Algorithm := EmptyString; jk_Use := "sig" |}.
Definition demo_steps : list cacheStep :=
  [Attempt (10 * second); Fetched (Some [demo_key "a"]) (11 * second); Attempt (15 * second);
   Attempt (41 * second); Fetched (Some [demo_key "b"; demo_key "b"]) (42 * second)].
Definition demo_set : keySet :=
  {| ks_byKID := {[ "a"%string := demo_key "a" ]}; ks_all := [demo_key "a"]; ks_fetched := 11 * second |}.

Lemma cache_in_force_witness :
  jc_cur (cache_run (fun _ => true) (30 * second) demo_steps newJWKSCache) = Some demo_set /\
  exists l1 raw now l2, demo_steps = l1 ++ Fetched (Some raw) now :: l2 /\
    usableKeys (fun _ => true) raw now = inl demo_set /\ keySet_ok (fun _ => true) raw demo_set /\
    ks_all demo_set <> [] /\ ks_fetched demo_set = now /\
    forall raw' now', Fetched (Some raw') now' ∈ l2 -> exists f, usableKeys (fun _ => true) raw' now' = inr f.
Proof.
  assert (jc_cur (cache_run (fun _ => true) (30 * second) demo_steps newJWKSCache) = Some demo_set) as H
    by (vm_compute; reflexivity).
  split; [exact H|]. exact (cache_in_force (fun _ => true) (30 * second) demo_steps demo_set H).
Defined.

Lemma refreshes_spaced_witness : 30 * second <= 41 * second - 10 * second.
Proof.
  apply (refreshes_spaced (fun _ => true) (30 * second) demo_steps 0 1).
  - unfold second. lia.
  - unfold demo_steps. intros now. rewrite !elem_of_cons, elem_of_nil. unfold zero_time, second. naive_solver lia.
  - lia.
  - reflexivity.
  - reflexivity.
Defined.
