(* ===== verification/Claims.v ===== *)
(** * The claims of a token

    src/internal/auth/verify.go from [checkClaims] on, and mapping.go: what the
    body of a verified token must say, what is kept of it, and the realm it maps
    to.  A claim is the JSON value it parses to; a date is a double, read and
    rounded as strconv does. *)

From S2P Require Import Prelude Base64 Json Keys Config Routes Auth Settings.

Definition maxTokenBytes : Z := 16 * 1024.
Definition maxIdentityBytes : Z := 256.
Definition accessTokenType : string := "at+jwt".
Definition tokenTypeAccess : string := "access".

(** [claims]. *)
Record claims := { cl_Subject : string; cl_Username : string; cl_Groups : list string; cl_Nonce : string }.

(** The configuration of a [verifier]. *)
Record verifier := {
  v_issuer : string;
  v_audience : string;
  v_tokenType : string;
  v_usernameClaim : string;
  v_groupsClaim : string;
  v_skew : duration
}.

(** ** A number of seconds

    The literal as a sign and [m * 10 ^ e]. *)
Definition natural (s : string) : Z := default 0 (digits_value 0 s).
Definition strip_minus (s : string) : bool * string :=
  match cut_prefix "-" s with Some r => (true, r) | None => (false, s) end.
Definition strip_plus (s : string) : string := default s (cut_prefix "+" s).
Definition mantissa_exponent (s : string) : string * string :=
  match cut "e" s with
  | Some p => p
  | None => match cut "E" s with Some p => p | None => (s, EmptyString) end
  end.
Definition decimal (lit : string) : bool * Z * Z :=
  let '(neg, s) := strip_minus lit in
  let '(mant, ex) := mantissa_exponent s in
  let '(eneg, ex) := strip_minus (strip_plus ex) in
  let '(ip, fp) := match cut "." mant with Some p => p | None => (mant, EmptyString) end in
  let e := natural ex in
  (neg, natural (ip +:+ fp), (if eneg : bool then - e else e) - byte_len fp).

(** The double nearest to [n / d], ties to even: its mantissa and its exponent of
    two, before the test for overflow. *)
Definition round_half_even (n d : Z) : Z :=
  let q := n / d in let r := n mod d in
  if 2 * r <? d then q else if d <? 2 * r then q + 1 else if Z.even q then q else q + 1.
(** [n / d] over a power of two, as a numerator and a denominator. *)
Definition over_pow2 (n d u : Z) : Z * Z := if 0 <=? u then (n, d * 2 ^ u) else (n * 2 ^ (- u), d).
Definition log2_ratio (n d : Z) : Z :=
  let k := Z.log2 n - Z.log2 d in
  let '(n', d') := over_pow2 n d k in if n' <? d' then k - 1 else k.
Definition nearest (n d : Z) : Z * Z :=
  let u := Z.max (log2_ratio n d - 52) (- 1074) in
  let '(n', d') := over_pow2 n d u in (round_half_even n' d', u).

(** Its magnitude, the fraction dropped. *)
Definition truncate (f : Z * Z) : Z := let '(m, u) := f in if 0 <=? u then m * 2 ^ u else m / 2 ^ (- u).
Definition magnitude (m e : Z) : Z :=
  if m =? 0 then 0 else truncate (if 0 <=? e then nearest (m * 10 ^ e) 1 else nearest m (10 ^ (- e))).

(** [numericDate] of a number: a double outside [int64], an infinite one with it,
    is refused.  [math.MaxInt64] as a double is 2^63. *)
Definition date_of (lit : string) : option Z :=
  let '(neg, m, e) := decimal lit in
  let t := magnitude m e in
  if neg : bool then (if 2 ^ 63 <? t then None else Some (- t)) else (if 2 ^ 63 <=? t then None else Some t).

(** ** Claims under their types *)

(** [absent]. *)
Definition absent (raw : option json) : bool := match raw with None | Some JNull => true | _ => false end.

(** [asString]. *)
Definition asString (raw : option json) : option string :=
  if absent raw then None else (v ← raw; to_string EmptyString v).

(** [identity]. *)
Definition nul : ascii := ascii_of_nat 0.
Definition identity (raw : option json) : option string :=
  s ← asString raw;
  if is_empty s || (maxIdentityBytes <? byte_len s) || has_byte nul s then None else Some s.

(** [numericDate]. *)
Definition numericDate (raw : option json) : option Z :=
  if absent raw then None else match raw with Some (JNum lit) => date_of lit | _ => None end.

(** [stringOrArray]. *)
Definition stringOrArray (raw : option json) : option (list string) :=
  if absent raw then None
  else match asString raw with Some s => Some [s] | None => (v ← raw; to_strings v) end.

(** ** The checks *)

Section checks.
  Variable v : verifier.

Definition is_access : bool := String.eqb (v_tokenType v) tokenTypeAccess.

(** [checkClaims] at the clock it reads; [typ] is the header's, empty when it has
    no string there.  [None] is that every check passed. *)
Definition check_audience (body : list (string * json)) : bool :=
  match stringOrArray (member "aud" body) with
  | None => false
  | Some aud =>
      bool_decide (v_audience v ∈ aud) &&
      (is_access || (Nat.leb (length aud) 1) || bool_decide (asString (member "azp" body) = Some (v_audience v)))
  end.
Definition date_within (raw : option json) (ok : Z -> bool) : bool :=
  match numericDate raw with Some t => ok t | None => false end.
Definition checkClaims (typ : string) (now : time) (body : list (string * json)) : option string :=
  let get k := member k body in
  if negb (bool_decide (asString (get "iss") = Some (v_issuer v))) then Some ReasonIssuer
  else if negb (bool_decide (is_Some (identity (get "sub")))) then Some ReasonClaim
  else if negb (date_within (get "iat") (fun t => t <=? unix (now + v_skew v))) then Some ReasonExpired
  else if negb (date_within (get "exp") (fun t => unix (now - v_skew v) <? t)) then Some ReasonExpired
  else if match get "nbf" with
          | Some raw => negb (date_within (Some raw) (fun t => t <=? unix (now + v_skew v)))
          | None => false
          end then Some ReasonExpired
  else if negb (bool_decide (is_Some (identity (get (v_usernameClaim v))))) then Some ReasonClaim
  else if is_access && negb (equal_fold typ accessTokenType) then Some ReasonTokenType
  else if negb (check_audience body) then Some ReasonAudience
  else if match get (v_groupsClaim v) with
          | Some raw => negb (bool_decide (is_Some (stringOrArray (Some raw))))
          | None => false
          end then Some ReasonClaim
  else None.

(** [keep]. *)
Definition keep (body : list (string * json)) : claims :=
  {| cl_Subject := default EmptyString (asString (member "sub" body));
     cl_Username := default EmptyString (asString (member (v_usernameClaim v) body));
     cl_Groups := match member (v_groupsClaim v) body with
                  | Some raw => default [] (stringOrArray (Some raw))
                  | None => []
                  end;
     cl_Nonce := default EmptyString (asString (member "nonce" body)) |}.

(** What a token that passes says. *)
Record claims_ok (typ : string) (now : time) (body : list (string * json)) : Prop := {
  ok_issuer : asString (member "iss" body) = Some (v_issuer v);
  ok_subject : is_Some (identity (member "sub" body));
  ok_issued : exists t, numericDate (member "iat" body) = Some t /\ t <= unix (now + v_skew v);
  ok_expiry : exists t, numericDate (member "exp" body) = Some t /\ unix (now - v_skew v) < t;
  ok_not_before : forall raw, member "nbf" body = Some raw ->
    exists t, numericDate (Some raw) = Some t /\ t <= unix (now + v_skew v);
  ok_username : is_Some (identity (member (v_usernameClaim v) body));
  ok_type : v_tokenType v = tokenTypeAccess -> equal_fold typ accessTokenType = true;
  ok_audience : exists aud, stringOrArray (member "aud" body) = Some aud /\ v_audience v ∈ aud /\
    (v_tokenType v <> tokenTypeAccess -> (1 < length aud)%nat -> asString (member "azp" body) = Some (v_audience v));
  ok_groups : forall raw, member (v_groupsClaim v) body = Some raw -> is_Some (stringOrArray (Some raw))
}.

Lemma date_within_le (raw : option json) (x : Z) :
  date_within raw (fun t => t <=? x) = true <-> exists t, numericDate raw = Some t /\ t <= x.
Proof.
  unfold date_within. destruct (numericDate raw) as [t|]; [|naive_solver]. rewrite Z.leb_le.
  split; [by exists t|]. by intros (? & [= <-] & ?).
Qed.
Lemma date_within_lt (raw : option json) (x : Z) :
  date_within raw (fun t => x <? t) = true <-> exists t, numericDate raw = Some t /\ x < t.
Proof.
  unfold date_within. destruct (numericDate raw) as [t|]; [|naive_solver]. rewrite Z.ltb_lt.
  split; [by exists t|]. by intros (? & [= <-] & ?).
Qed.

Lemma check_audience_ok (body : list (string * json)) :
  check_audience body = true <->
  exists aud, stringOrArray (member "aud" body) = Some aud /\ v_audience v ∈ aud /\
    (v_tokenType v <> tokenTypeAccess -> (1 < length aud)%nat -> asString (member "azp" body) = Some (v_audience v)).
Proof.
  unfold check_audience. destruct (stringOrArray _) as [aud|]; [|naive_solver].
  rewrite andb_true_iff, !orb_true_iff, !bool_decide_eq_true, Nat.leb_le. unfold is_access. rewrite String.eqb_eq.
  split.
  - intros [H1 [[H2|H2]|H2]]; exists aud; (split; [done|]; split; [done|]); intros; try done; lia.
  - intros (aud' & [= <-] & H1 & H2). split; [done|]. destruct (decide (v_tokenType v = tokenTypeAccess)); [tauto|].
    destruct (Nat.le_gt_cases (length aud) 1); [tauto|]. right. auto.
Qed.

Lemma checkClaims_ok (typ : string) (now : time) (body : list (string * json)) :
  checkClaims typ now body = None <-> claims_ok typ now body.
Proof.
  unfold checkClaims. split.
  - intros H. repeat match type of H with (if ?b then _ else _) = None =>
      let E := fresh "E" in destruct b eqn:E; [done|] end.
    constructor; to_prop; try done.
    + by apply date_within_le.
    + by apply date_within_lt.
    + intros raw Hraw. rewrite Hraw in E3. apply negb_false_iff in E3. by apply date_within_le.
    + intros Ht. unfold is_access in E5. rewrite Ht in E5. by apply andb_false_iff in E5 as [E5|E5]; to_prop.
    + by apply check_audience_ok.
    + intros raw Hraw. rewrite Hraw in E7. by to_prop.
  - intros [H1 H2 H3%date_within_le H4%date_within_lt H5 H6 H7 H8%check_audience_ok H9].
    rewrite !bool_decide_true by done. rewrite H3, H4, H8. cbn [negb].
    assert (match member "nbf" body with
      | Some raw => negb (date_within (Some raw) (fun t => t <=? unix (now + v_skew v))) | None => false end = false) as ->.
    { destruct (member "nbf" body) as [raw|]; [|done]. apply negb_false_iff, date_within_le. by apply H5. }
    assert (is_access && negb (equal_fold typ accessTokenType) = false) as ->.
    { unfold is_access. destruct (String.eqb_spec (v_tokenType v) tokenTypeAccess); [|done]. by rewrite H7. }
    destruct (member (v_groupsClaim v) body) as [raw|]; [|done]. by rewrite bool_decide_true by eauto.
Qed.

(** The subject and the name kept of a token that passes are identities. *)
Definition identity_ok (s : string) : Prop := s <> EmptyString /\ byte_len s <= maxIdentityBytes /\ has_byte nul s = false.

Lemma identity_Some (raw : option json) (s : string) : identity raw = Some s <-> asString raw = Some s /\ identity_ok s.
Proof.
  unfold identity, identity_ok. destruct (asString raw) as [x|]; cbn [mbind option_bind]; [|naive_solver].
  unfold is_empty. destruct (String.eqb_spec x EmptyString); cbn [orb]; [naive_solver|].
  destruct (Z.ltb_spec maxIdentityBytes (byte_len x)); cbn [orb]; [split; [done|]; intros ([= <-] & _ & H1 & _); lia|].
  destruct (has_byte nul x) eqn:E; (split; [try done|intros ([= <-] & _ & _ & H2)]); [congruence| |done].
  by intros [= <-].
Qed.

Lemma keep_identity (typ : string) (now : time) (body : list (string * json)) :
  claims_ok typ now body -> identity_ok (cl_Subject (keep body)) /\ identity_ok (cl_Username (keep body)).
Proof.
  intros [_ [s Hs] _ _ _ [u Hu] _ _ _]. apply identity_Some in Hs as [Hs1 Hs2], Hu as [Hu1 Hu2].
  unfold keep. cbn. by rewrite Hs1, Hu1.
Qed.
End checks.

(** ** Dates *)

(** A whole number of seconds below 2^53 is read exactly. *)
Lemma nearest_exact (n : Z) : 0 < n < 2 ^ 53 -> truncate (nearest n 1) = n.
Proof.
  intros Hn. assert (Z.log2 n <= 52) as Hl by (apply Z.lt_succ_r, Z.log2_lt_pow2; lia).
  assert (log2_ratio n 1 <= 52) as Hk.
  { unfold log2_ratio. change (Z.log2 1) with 0. cbv zeta. destruct (over_pow2 _ _ _). case_match; lia. }
  unfold nearest. set (u := Z.max _ _). assert (- 1074 <= u <= 0) as Hu by (unfold u; lia). clearbody u.
  unfold over_pow2, truncate, round_half_even. destruct (Z.leb_spec 0 u).
  - replace u with 0 by lia. change (1 * 2 ^ 0) with 1. rewrite Z.mod_1_r, Z.div_1_r. change (2 * 0 <? 1) with true. cbn iota. change (0 <=? 0) with true. cbn iota. lia.
  - rewrite Z.mod_1_r, Z.div_1_r. change (2 * 0 <? 1) with true. cbn iota.
    rewrite (proj2 (Z.leb_gt 0 u)) by done. apply Z.div_mul, Z.pow_nonzero; lia.
Qed.

Lemma truncate_nonneg (n d : Z) : 0 <= n -> 0 < d -> 0 <= truncate (nearest n d).
Proof.
  intros Hn Hd. unfold nearest. set (u := Z.max _ _). clearbody u.
  assert (forall x y, 0 <= x -> 0 < y -> 0 <= round_half_even x y) as Hr.
  { intros x y Hx Hy. unfold round_half_even. pose proof (Z.div_pos x y Hx Hy). repeat case_match; lia. }
  unfold over_pow2, truncate. destruct (0 <=? u) eqn:E; cbn iota; rewrite E; to_prop.
  - apply Z.mul_nonneg_nonneg; [|apply Z.pow_nonneg; lia]. apply Hr; [done|].
    apply Z.mul_pos_pos; [done|]. apply Z.pow_pos_nonneg; lia.
  - apply Z.div_pos; [|apply Z.pow_pos_nonneg; lia]. apply Hr; [|done].
    apply Z.mul_nonneg_nonneg; [done|]. apply Z.pow_nonneg; lia.
Qed.

Lemma natural_nonneg (s : string) : 0 <= natural s.
Proof.
  unfold natural. assert (forall acc, 0 <= acc -> 0 <= default 0 (digits_value acc s)) as H; [|by apply H].
  induction s as [|c s IH]; intros acc Ha; cbn [digits_value default]; [done|].
  destruct (is_digit c) eqn:E; [|done]. apply IH. unfold is_digit in E.
  apply andb_true_iff in E as [E _]. apply Nat.leb_le in E. lia.
Qed.

(** A date is an [int64] whatever the literal. *)
Lemma date_of_range (lit : string) (t : Z) : date_of lit = Some t -> min_int64 <= t <= max_int64.
Proof.
  unfold date_of. destruct (decimal lit) as [[neg m] e] eqn:E.
  assert (0 <= m) as Hm.
  { unfold decimal in E. repeat case_match; simplify_eq; apply natural_nonneg. }
  assert (0 <= magnitude m e) as Ht.
  { unfold magnitude. destruct (Z.eqb_spec m 0); [done|]. destruct (Z.leb_spec 0 e); apply truncate_nonneg; try lia.
    all: first [apply Z.pow_pos_nonneg; lia | apply Z.mul_nonneg_nonneg; [done|apply Z.pow_nonneg; lia]]. }
  destruct neg; case_match; to_prop; intros [= <-]; unfold min_int64, max_int64; lia.
Qed.

(** A plain number of seconds below 2^53 is the date it writes. *)
Lemma date_of_digits (s : string) (n : Z) :
  all_bytes is_digit s = true -> digits_value 0 s = Some n -> n < 2 ^ 53 -> date_of s = Some n.
Proof.
  intros Hd Hn Hlt. assert (forall c, is_digit c = false -> cut c s = None) as Hc.
  { intros c Hc. apply cut_None. by eapply all_bytes_no_byte. }
  assert (strip_minus s = (false, s)) as Hs.
  { unfold strip_minus. destruct (cut_prefix "-" s) as [r|] eqn:E; [|done]. apply cut_prefix_Some in E as ->. done. }
  assert (decimal s = (false, n, 0)) as Hdec.
  { unfold decimal. rewrite Hs. unfold mantissa_exponent. rewrite !(Hc _) by done.
    cbn -[natural]. rewrite str_app_nil_r. unfold natural. by rewrite Hn. }
  unfold date_of. rewrite Hdec. unfold magnitude. change (0 <=? 0) with true. cbn iota. rewrite Z.pow_0_r, Z.mul_1_r.
  assert (0 <= n) as Hpos by (pose proof (natural_nonneg s) as H; unfold natural in H; by rewrite Hn in H).
  destruct (Z.eqb_spec n 0) as [->|]; [done|]. rewrite nearest_exact by lia.
  by rewrite (proj2 (Z.leb_gt (2 ^ 63) n)) by lia.
Qed.

(** ** The realm *)

(** [mapRealm]. *)
Definition mapRealm (m : OIDCMapping) (c : claims) : option string :=
  match List.find (fun u => String.eqb (me_Name u) (cl_Username c)) (map_Users m) with
  | Some u => Some (me_Realm u)
  | None =>
      match List.find (fun g => bool_decide (me_Name g ∈ cl_Groups c)) (map_Groups m) with
      | Some g => Some (me_Realm g)
      | None => if is_empty (map_DefaultRealm m) then None else Some (map_DefaultRealm m)
      end
  end.

(** The realms a mapping names. *)
Definition mapped_realms (m : OIDCMapping) : list string :=
  map me_Realm (map_Users m) ++ map me_Realm (map_Groups m) ++
  (if is_empty (map_DefaultRealm m) then [] else [map_DefaultRealm m]).

Lemma mapRealm_mapped (m : OIDCMapping) (c : claims) (realm : string) :
  mapRealm m c = Some realm -> realm ∈ mapped_realms m.
Proof.
  unfold mapRealm, mapped_realms. rewrite !elem_of_app. intros H.
  destruct (List.find _ (map_Users m)) as [u|] eqn:E1.
  { apply find_some in E1 as [E1 _]. injection H as <-. left. apply list_elem_of_fmap. exists u.
    split; [done|]. by apply list_elem_of_In. }
  destruct (List.find _ (map_Groups m)) as [g|] eqn:E2.
  { apply find_some in E2 as [E2 _]. injection H as <-. right; left. apply list_elem_of_fmap. exists g.
    split; [done|]. by apply list_elem_of_In. }
  destruct (is_empty _); [done|]. injection H as <-. right; right. by left.
Qed.

(** A mapping that is accepted maps into realms that exist. *)
Lemma mapRealm_exists (realms : gmap string Realm) (m : OIDCMapping) (c : claims) (realm : string) :
  mapping_ok realms m -> mapRealm m c = Some realm -> is_Some (realms !! realm).
Proof.
  intros (_ & [_ Hu] & [_ Hg] & Hd) H. rewrite Forall_forall in Hu, Hg. apply mapRealm_mapped in H.
  unfold mapped_realms in H. rewrite !elem_of_app in H.
  destruct H as [(e & -> & He)%list_elem_of_fmap|[(e & -> & He)%list_elem_of_fmap|H]]; [by apply Hu|by apply Hg|].
  destruct (is_empty _) eqn:E; [by apply elem_of_nil in H|]. apply list_elem_of_singleton in H as ->.
  apply Hd. by apply String.eqb_neq in E.
Qed.
