(* ===== verification/Verify.v ===== *)
(** * The verification of a bearer token

    src/internal/auth/verify.go: the checks of [verify] in their order, over the
    calls it makes: the load of the issuer state, the loads of the key set, the
    clock, the refresh on demand.  The parse of a compact JWS and the check of a
    signature are go-jose's, functions of the token: arguments. *)

From S2P Require Import Prelude Base64 Query Config Auth Settings Json Issuer Jwks Claims Interaction.

(** ** The algorithm the header carries

    The token loop of [singleAlg], from the key of a member on: the key, the
    colon, the value, and then the end of the object, the end of the text, or a
    comma and the next key.  One unit of fuel a member. *)
Definition no_alg : string * bool := (EmptyString, false).
Fixpoint alg_members (fuel : nat) (s alg : string) (count : nat) : string * bool :=
  match fuel, s with
  | S f, String q s' =>
      if negb (Ascii.eqb q dquote) then no_alg
      else
        match parse_string s' with
        | None => no_alg
        | Some (key, r) =>
            match skip_ws r with
            | EmptyString => no_alg
            | String c r1 =>
                if negb (Ascii.eqb c ":") then no_alg
                else
                  match parse_prefix r1 with
                  | None => no_alg
                  | Some (value, r2) =>
                      let read := if String.eqb key "alg" then to_string alg value else Some alg in
                      let count := if String.eqb key "alg" then S count else count in
                      match read with
                      | None => no_alg
                      | Some alg =>
                          match skip_ws r2 with
                          | EmptyString => (alg, Nat.eqb count 1)
                          | String e r3 =>
                              if Ascii.eqb e "}" then (alg, Nat.eqb count 1)
                              else if Ascii.eqb e "," then alg_members f (skip_ws r3) alg count
                              else no_alg
                          end
                      end
                  end
            end
        end
  | _, _ => no_alg
  end.

(** [singleAlg]. *)
Definition header_alg (header : string) : string * bool :=
  match skip_ws header with
  | String c s =>
      if Ascii.eqb c "{" then alg_members (String.length header) (skip_ws s) EmptyString 0 else no_alg
  | EmptyString => no_alg
  end.
Definition singleAlg (token : string) : string * bool :=
  match b64_decode (cut_pair "." token).1 with
  | Some header => header_alg header
  | None => no_alg
  end.

(** ** The issuer state, and the calls *)

(** [issuerState]: the document and its key cache, [is_cache] naming which of the
    caches built. *)
Record issuerState := { is_doc : discoveryDocument; is_cache : nat; is_maxStale : duration }.

Inductive verifyCall : Type -> Type :=
  | LoadState : verifyCall (option issuerState)
  | LoadKeys (cache : nat) : verifyCall (option keySet)
  | RefreshOnDemand (cache : nat) : verifyCall bool
  | Clock : verifyCall time.

(** [jose.Header]: the fields read of it; [hd_typ] is the [typ] extra header when
    it is a string. *)
Record joseHeader := { hd_KeyID : string; hd_typ : option string }.

(** What [jose.ParseSignedCompact] answers under the allowed algorithms: an error,
    [true] when it is an unexpected algorithm, or the headers of the
    signatures. *)
Inductive parsedJWS := ParseFailed (unexpectedAlg : bool) | ParsedJWS (headers : list joseHeader).

(** [selectKey]. *)
Definition selectKey (ks : option keySet) (kid alg : string) : option JSONWebKey :=
  match ks with
  | None => None
  | Some ks =>
      if negb (is_empty kid) then
        k ← ks_byKID ks !! kid; if compatible alg k then Some k else None
      else
        match filter (fun k => compatible alg k = true) (ks_all ks) with
        | [k] => Some k
        | _ => None
        end
  end.

Section verify.
  Variable parseSigned : string -> parsedJWS.
  Variable checkSignature : string -> keyMaterial -> option string.
  Variable v : verifier.

Definition unauthorized {A} (reason : string) : A + Failure := inr (failed 401 reason).
Definition keysStale {A} : A + Failure := inr (failed 503 ReasonKeysStale).

(** [verify] past the key. *)
Definition judge_token (token : string) (hd : joseHeader) (key : option JSONWebKey) :
    itx verifyCall (claims + Failure) :=
  match key with
  | None => mret (unauthorized ReasonSignature)
  | Some key =>
      match checkSignature token (jk_Key key) with
      | None => mret (unauthorized ReasonSignature)
      | Some payload =>
          match (j ← parse_json payload; to_members j) with
          | None => mret (unauthorized ReasonMalformed)
          | Some body =>
              now ← ask Clock;
              mret (match checkClaims v (default EmptyString (hd_typ hd)) now body with
                    | Some reason => unauthorized reason
                    | None => inl (keep v body)
                    end)
          end
      end
  end.

(** The key: the one the set loaded names or holds alone, and for an identifier
    it does not hold, once more after a refresh. *)
Definition find_key (st : issuerState) (ks : option keySet) (kid alg : string) :
    itx verifyCall (option JSONWebKey) :=
  match selectKey ks kid alg with
  | Some k => mret (Some k)
  | None =>
      if is_empty kid then mret None
      else
        ran ← ask (RefreshOnDemand (is_cache st));
        if negb (ran : bool) then mret None
        else ks' ← ask (LoadKeys (is_cache st)); mret (selectKey ks' kid alg)
  end.

(** A set that is not stale, once more after a refresh when the first one is. *)
Definition fresh_keys (st : issuerState) : itx verifyCall (option (option keySet)) :=
  ks ← ask (LoadKeys (is_cache st));
  now ← ask Clock;
  if negb (stale ks now (is_maxStale st)) then mret (Some ks)
  else
    _ ← ask (RefreshOnDemand (is_cache st));
    ks' ← ask (LoadKeys (is_cache st));
    now' ← ask Clock;
    mret (if stale ks' now' (is_maxStale st) then None else Some ks').

(** [verify]. *)
Definition verify (token : string) : itx verifyCall (claims + Failure) :=
  if maxTokenBytes <? byte_len token then mret (unauthorized ReasonMalformed)
  else
    let '(alg, oneAlg) := singleAlg token in
    match parseSigned token with
    | ParseFailed unexpected =>
        mret (unauthorized (if unexpected && oneAlg then ReasonAlg else ReasonMalformed))
    | ParsedJWS headers =>
        match headers with
        | [hd] =>
            if negb oneAlg then mret (unauthorized ReasonMalformed)
            else
              state ← ask LoadState;
              match state with
              | None => mret keysStale
              | Some st =>
                  keys ← fresh_keys st;
                  match keys with
                  | None => mret keysStale
                  | Some ks => find_key st ks (hd_KeyID hd) alg ≫= judge_token token hd
                  end
              end
        | _ => mret (unauthorized ReasonMalformed)
        end
    end.

(** ** What is admitted *)

Lemma selectKey_sound (ks : option keySet) (kid alg : string) (k : JSONWebKey) :
  selectKey ks kid alg = Some k ->
  compatible alg k = true /\ exists set, ks = Some set /\
    if is_empty kid then k ∈ ks_all set /\ forall k', k' ∈ ks_all set -> compatible alg k' = true -> k' = k
    else ks_byKID set !! kid = Some k.
Proof.
  unfold selectKey. destruct ks as [set|]; [|done]. destruct (is_empty kid); cbn [negb].
  - destruct (filter _ _) as [|x [|y l]] eqn:E; [done| |done]. intros [= ->].
    assert (forall k', k' ∈ ks_all set -> compatible alg k' = true -> k' = k) as Hu.
    { intros k' Hin Hc. assert (k' ∈ filter (fun k => compatible alg k = true) (ks_all set)) as H
        by (by apply list_elem_of_filter). rewrite E in H. by apply list_elem_of_singleton in H. }
    assert (k ∈ filter (fun k => compatible alg k = true) (ks_all set)) as H by (rewrite E; by left).
    apply list_elem_of_filter in H as [H1 H2]. split; [done|]. by exists set.
  - destruct (ks_byKID set !! kid) as [x|] eqn:E; cbn [mbind option_bind]; [|done].
    destruct (compatible alg x) eqn:Ec; [|done]. intros [= <-]. split; [done|]. by exists set.
Qed.

(** The calls a set was read with, newest first: it is not stale at a clock read
    directly after its load, the first load or, when that one was stale, the one
    after a refresh. *)
Definition set_read (st : issuerState) (g : list (answered verifyCall)) (ks : option keySet) : Prop :=
  let cache := is_cache st in
  exists t, stale ks t (is_maxStale st) = false /\
    (g = [At Clock t; At (LoadKeys cache) ks] \/
     exists ks0 t0 ran, stale ks0 t0 (is_maxStale st) = true /\
       g = [At Clock t; At (LoadKeys cache) ks; At (RefreshOnDemand cache) ran; At Clock t0; At (LoadKeys cache) ks0]).

(** The calls the key was found with: none, when the set read has a usable key for
    the token; else, for a token that names one, a refresh that ran and then a
    load of what it brought. *)
Definition key_found (st : issuerState) (ks : option keySet) (kid alg : string) (g : list (answered verifyCall))
    (key : JSONWebKey) : Prop :=
  (selectKey ks kid alg = Some key /\ g = []) \/
  (selectKey ks kid alg = None /\ kid <> EmptyString /\
   exists ks', g = [At (LoadKeys (is_cache st)) ks'; At (RefreshOnDemand (is_cache st)) true] /\
     selectKey ks' kid alg = Some key).

Lemma fresh_keys_runs (st : issuerState) (h h' : list (answered verifyCall)) (ks : option keySet) :
  runs (fresh_keys st) h h' (Some ks) <-> exists g, h' = g ++ h /\ set_read st g ks.
Proof.
  unfold fresh_keys, set_read. split.
  - intros H. apply runs_ask in H as [ks0 H]. apply runs_ask in H as [t0 H].
    destruct (stale ks0 t0 _) eqn:E; cbn [negb] in H.
    + apply runs_ask in H as [ran H]. apply runs_ask in H as [ks' H]. apply runs_ask in H as [t H]. destruct H as [Hk <-].
      destruct (stale ks' t _) eqn:E'; [done|]. injection Hk as ->. eexists. split; [by apply (app_assoc [_; _; _; _; _] [])|].
      exists t. split; [done|]. right. by exists ks0, t0, ran.
    + destruct H as [[= ->] <-]. exists [At Clock t0; At (LoadKeys (is_cache st)) ks]. split; [done|]. exists t0. auto.
  - intros (g & -> & t & Hs & [-> | (ks0 & t0 & ran & Hs0 & ->)]).
    + exists ks, t. cbn. by rewrite Hs.
    + exists ks0, t0. cbn. rewrite Hs0. cbn. exists ran, ks, t. by rewrite Hs.
Qed.

Lemma find_key_runs (st : issuerState) (ks : option keySet) (kid alg : string) (h h' : list (answered verifyCall))
    (key : JSONWebKey) :
  runs (find_key st ks kid alg) h h' (Some key) <-> exists g, h' = g ++ h /\ key_found st ks kid alg g key.
Proof.
  unfold find_key, key_found. destruct (selectKey ks kid alg) as [k|] eqn:E.
  { split; [intros [[= ->] <-]; exists []; auto|]. intros (g & -> & [[[= ->] ->]|[[=] _]]). done. }
  destruct (is_empty kid) eqn:Ek.
  { split; [by intros [[=] _]|]. apply String.eqb_eq in Ek. by intros (g & -> & [[[=] _]|(_ & Hk & _)]). }
  apply String.eqb_neq in Ek. split.
  - intros H. apply runs_ask in H as [ran H]. destruct ran; cbn [negb] in H; [|by destruct H].
    apply runs_ask in H as [ks' H]. destruct H as [Hk <-].
    eexists. split; [by apply (app_assoc [_; _] [])|]. right. split; [done|]. split; [done|]. by exists ks'.
  - intros (g & -> & [[[=] _]|(_ & _ & ks' & -> & Hk)]). exists true, ks'. done.
Qed.

(** A verified token, the calls of its verification newest first, and the claims
    kept of it. *)
Definition verified (token : string) (log : list (answered verifyCall)) (c : claims) : Prop :=
  byte_len token <= maxTokenBytes /\
  exists hd alg st ks key payload j body t g1 g2,
    parseSigned token = ParsedJWS [hd] /\ singleAlg token = (alg, true) /\
    log = At Clock t :: g2 ++ g1 ++ [At LoadState (Some st)] /\
    set_read st g1 ks /\ key_found st ks (hd_KeyID hd) alg g2 key /\
    checkSignature token (jk_Key key) = Some payload /\ parse_json payload = Some j /\ to_members j = Some body /\
    claims_ok v (default EmptyString (hd_typ hd)) t body /\ c = keep v body.

Lemma verify_runs (token : string) (h' : list (answered verifyCall)) (c : claims) :
  runs (verify token) [] h' (inl c) <-> verified token h' c.
Proof.
  unfold verify, verified. destruct (Z.ltb_spec maxTokenBytes (byte_len token)) as [Hlen|Hlen].
  { split; [by intros [? _]|intros [? _]; lia]. }
  destruct (singleAlg token) as [alg one] eqn:Ea.
  destruct (parseSigned token) as [b|[|hd [|hd' l]]] eqn:Ep;
    try (split; [by intros [? _]|intros (_ & ? & ? & ? & ? & ? & ? & ? & ? & ? & ? & ? & [=] & _)]).
  destruct one; cbn [negb];
    [|split; [by intros [? _]|intros (_ & ? & ? & ? & ? & ? & ? & ? & ? & ? & ? & ? & _ & [=] & _)]].
  split.
  - intros Hr. split; [lia|]. apply runs_ask in Hr as [[st|] Hr]; [|by destruct Hr].
    apply runs_bind in Hr as (r & h1 & H1 & Hr). destruct r as [ks|]; [|by destruct Hr].
    apply fresh_keys_runs in H1 as (g1 & -> & H1).
    apply runs_bind in Hr as (k & h2 & H2 & Hr). unfold judge_token in Hr. destruct k as [key|]; [|by destruct Hr].
    apply find_key_runs in H2 as (g2 & -> & H2).
    destruct (checkSignature token (jk_Key key)) as [payload|] eqn:Ec; [|by destruct Hr].
    destruct (parse_json payload) as [j|] eqn:Ej; cbn [mbind option_bind] in Hr; [|by destruct Hr].
    destruct (to_members j) as [body|] eqn:Eb; [|by destruct Hr].
    apply runs_ask in Hr as [t Hr]. destruct Hr as [Hr <-].
    destruct (checkClaims _ _ _ _) eqn:Ek; [done|]. injection Hr as <-. apply checkClaims_ok in Ek.
    by exists hd, alg, st, ks, key, payload, j, body, t, g1, g2.
  - intros (_ & hd0 & alg0 & st & ks & key & payload & j & body & t & g1 & g2 & [= <-] & [= <-] & -> & H1 & H2 & Hc & Hj & Hb & Hk & ->).
    exists (Some st). apply (runs_bind (fresh_keys st)). exists (Some ks), (g1 ++ [At LoadState (Some st)]).
    split; [apply fresh_keys_runs; by exists g1|].
    apply (runs_bind (find_key st ks (hd_KeyID hd) alg)). exists (Some key), (g2 ++ g1 ++ [At LoadState (Some st)]). split; [apply find_key_runs; by exists g2|].
    unfold judge_token. rewrite Hc, Hj. cbn [mbind option_bind]. rewrite Hb. exists t.
    apply checkClaims_ok in Hk. cbn; by rewrite Hk.
Qed.

(** C20: a token is admitted exactly when it has one signature, of an algorithm its
    header names exactly once; the issuer state holds a key set that was not
    stale at a clock read directly after its load, a stale one having been
    refreshed first; that set has a usable key for the token or, for a token
    that names a key, the set a refresh then brought has one, the key it names
    or the only one that fits; the key checks the signature; and every claim of
    the body passes against one reading of the clock, the newest call.  The calls
    are these and no others, in this order.  The key is of an algorithm the
    gateway allows and may be used for it, and what is answered is what the body
    says, under names within their bounds. *)
Theorem verify_sound (token : string) (h' : list (answered verifyCall)) (c : claims) :
  (runs (verify token) [] h' (inl c) <-> verified token h' c) /\
  (verified token h' c ->
    identity_ok (cl_Subject c) /\ identity_ok (cl_Username c) /\
    exists alg kid key set, singleAlg token = (alg, true) /\ alg ∈ allowedAlgs /\ compatible alg key = true /\
      (exists payload, checkSignature token (jk_Key key) = Some payload) /\
      (exists cache, At (LoadKeys cache) (Some set) ∈ h') /\
      if is_empty kid then key ∈ ks_all set /\ forall k', k' ∈ ks_all set -> compatible alg k' = true -> k' = key
      else ks_byKID set !! kid = Some key).
Proof.
  split; [apply verify_runs|].
  intros (_ & hd & alg & st & ks & key & payload & j & body & t & g1 & g2 & Hp & Ha & -> & H1 & H2 & Hc & _ & _ & Hk & ->).
  pose proof (keep_identity _ _ _ _ Hk) as [Hi1 Hi2]. split; [done|]. split; [done|].
  assert (exists ks', At (LoadKeys (is_cache st)) ks' ∈ g2 ++ g1 /\ selectKey ks' (hd_KeyID hd) alg = Some key)
    as (ks' & Hin & Hsel).
  { destruct H2 as [[H2 ->]|(_ & _ & ks' & -> & H2)]; [exists ks|exists ks'; split; [logged|done]].
    split; [|done]. destruct H1 as (x & _ & [-> | (ks0 & t0 & ran & _ & ->)]); logged. }
  pose proof (selectKey_sound _ _ _ _ Hsel) as (Hcomp & set & -> & Hset).
  exists alg, (hd_KeyID hd), key, set. split; [done|]. split; [by apply (compatible_alg _ _ Hcomp)|]. split; [done|].
  split; [by exists payload|]. split; [|done]. exists (is_cache st). rewrite app_assoc. apply elem_of_cons. right.
  apply elem_of_app. by left.
Qed.

(** A token that is refused is refused with 401 and a reason of the table, or,
    when its shape and algorithm are in order, with 503 because no key set is
    fresh. *)
Lemma judge_token_refusal (token : string) (hd : joseHeader) (key : option JSONWebKey)
    (h h' : list (answered verifyCall)) (f : Failure) :
  runs (judge_token token hd key) h h' (inr f) -> exists reason, f = failed 401 reason /\
    reason ∈ [ReasonSignature; ReasonMalformed; ReasonIssuer; ReasonClaim; ReasonExpired; ReasonTokenType; ReasonAudience].
Proof.
  unfold judge_token, unauthorized. destruct key as [key|]; [|intros [[= <-] _]; eexists; split; [done|set_solver]].
  destruct (checkSignature _ _); [|intros [[= <-] _]; eexists; split; [done|set_solver]].
  destruct (_ ≫= _) as [body|]; [|intros [[= <-] _]; eexists; split; [done|set_solver]].
  intros H. apply runs_ask in H as [t H]. destruct H as [H _].
  destruct (checkClaims _ _ _ _) as [reason|] eqn:E; [|done]. injection H as <-. exists reason. split; [done|].
  unfold checkClaims in E. cbv zeta in E.
  repeat match type of E with (if ?b then _ else _) = _ => destruct b; [injection E as <-; set_solver|] end. done.
Qed.

Lemma refusal_of (token : string) (h' : list (answered verifyCall)) (f : Failure)
    (Hr : runs (verify token) [] h' (inr f)) :
  (exists reason, f = failed 401 reason /\ reason ∈ [ReasonMalformed; ReasonAlg; ReasonSignature; ReasonIssuer;
     ReasonClaim; ReasonExpired; ReasonTokenType; ReasonAudience]) \/
  (f = failed 503 ReasonKeysStale /\ byte_len token <= maxTokenBytes /\
   exists hd alg, parseSigned token = ParsedJWS [hd] /\ singleAlg token = (alg, true)).
Proof.
  unfold verify, unauthorized, keysStale in Hr. destruct (Z.ltb_spec maxTokenBytes (byte_len token)).
  { destruct Hr as [[= <-] _]. left. eexists. split; [done|set_solver]. }
  destruct (singleAlg token) as [alg one] eqn:Ea. destruct (parseSigned token) as [b|[|hd [|]]] eqn:Ep;
    try (destruct Hr as [[= <-] _]; left; eexists; split; [done|repeat case_match; set_solver]).
  destruct one; cbn [negb] in Hr; [|destruct Hr as [[= <-] _]; left; eexists; split; [done|set_solver]].
  apply runs_ask in Hr as [[st|] Hr]; [|destruct Hr as [[= <-] _]; right; naive_solver].
  apply runs_bind in Hr as (r & h1 & _ & Hr). destruct r as [ks|]; [|destruct Hr as [[= <-] _]; right; naive_solver].
  apply runs_bind in Hr as (k & h2 & _ & Hr). apply judge_token_refusal in Hr as (reason & -> & Hin).
  left. exists reason. split; [done|set_solver].
Qed.

(** The order of the answers: a token whose shape or algorithm is wrong is refused
    with 401 whatever the keys, and only one whose shape is in order can be told
    that the keys are stale. *)
Theorem verify_refusal (token : string) (h' : list (answered verifyCall)) (f : Failure)
    (Hr : runs (verify token) [] h' (inr f)) :
  (exists reason, f = failed 401 reason /\ reason ∈ [ReasonMalformed; ReasonAlg; ReasonSignature; ReasonIssuer;
     ReasonClaim; ReasonExpired; ReasonTokenType; ReasonAudience]) \/
  (f = failed 503 ReasonKeysStale /\ byte_len token <= maxTokenBytes /\
   exists hd alg, parseSigned token = ParsedJWS [hd] /\ singleAlg token = (alg, true)).
Proof. by apply refusal_of in Hr. Qed.

Lemma verify_status (token : string) (h' : list (answered verifyCall)) (f : Failure) :
  runs (verify token) [] h' (inr f) -> af_Status f ∈ [401; 503].
Proof. intros Hr. apply refusal_of in Hr as [(reason & -> & _)|[-> _]]; set_solver. Qed.

(** So it is a failure the server knows. *)
Lemma verify_failure_ok (token : string) (h' : list (answered verifyCall)) (f : Failure) :
  runs (verify token) [] h' (inr f) -> failure_ok f.
Proof.
  intros Hr. apply refusal_of in Hr as [(reason & -> & Hin)|[-> _]];
    (split; [set_solver|split; [unfold Reasons; set_solver|by intros []]]).
Qed.
End verify.

(** ** The header read twice *)

(** The algorithms an object carries. *)
Definition algs (m : list (string * json)) : list json := map snd (filter (fun x => x.1 = "alg"%string) m).
Fixpoint read_algs (l : list json) (alg : string) : option string :=
  match l with [] => Some alg | v :: l' => a ← to_string alg v; read_algs l' a end.

Lemma alg_members_read (f : nat) (d : Z) (s r : string) (m : list (string * json)) (g : nat) (alg : string) (count : nat) :
  0 <= d -> members f d s = Some (m, r) -> (String.length s <= g)%nat ->
  alg_members g s alg count =
    match read_algs (algs m) alg with
    | Some a => (a, Nat.eqb (count + length (algs m)) 1)
    | None => no_alg
    end.
Proof.
  intros Hd. revert s m g alg count. induction f as [|f IH]; intros s m g alg count H Hg; [done|].
  destruct s as [|q s]; [done|]. cbn [members] in H. destruct g as [|g]; [simpl in Hg; lia|]. cbn [alg_members].
  destruct (negb _); [done|]. destruct (parse_string s) as [[k r0]|] eqn:E0; [|done]. apply parse_string_len in E0.
  pose proof (skip_ws_len r0) as H0. destruct (skip_ws r0) as [|c r1]; [done|]. simpl in H0.
  destruct (negb _); [done|]. destruct (value f d (skip_ws r1)) as [[w r2]|] eqn:E1; [|done].
  pose proof (proj1 (reads_len f) _ _ _ _ E1) as H1. pose proof (skip_ws_len r1) as H1'.
  rewrite (value_prefix f d _ _ _ Hd E1). pose proof (skip_ws_len r2) as H2.
  assert (forall m', m = (k, w) :: m' -> algs m = if String.eqb k "alg" then w :: algs m' else algs m') as Hal.
  { intros m' ->. unfold algs. destruct (String.eqb_spec k "alg").
    - by rewrite filter_cons_True.
    - by rewrite filter_cons_False. }
  destruct (skip_ws r2) as [|e r3]; [done|]. simpl in H2, Hg.
  destruct (Ascii.eqb e "}").
  { injection H as <- <-. rewrite (Hal []) by done. destruct (String.eqb k "alg"); cbn.
    - destruct (to_string alg w); [|done]. cbn. f_equal. by rewrite Nat.add_1_r.
    - by rewrite Nat.add_0_r. }
  destruct (Ascii.eqb e ","); [|done]. destruct (members f d (skip_ws r3)) as [[m' r4]|] eqn:E2; [|done].
  injection H as <- <-. pose proof (skip_ws_len r3). rewrite (Hal m') by done.
  destruct (String.eqb k "alg"); cbn [read_algs].
  - destruct (to_string alg w) as [a|]; [|done]. rewrite (IH _ m') by (done || lia). cbn [mbind option_bind length].
    by rewrite Nat.add_succ_r.
  - by rewrite (IH _ m') by (done || lia).
Qed.

(** The header walked as tokens and read as a whole agree: on a header that is one
    JSON object, the walk gives an algorithm exactly when the object has one
    member of that name and it is a string, or null for the empty one, which the
    JOSE parser refuses. *)
Theorem singleAlg_iff (header : string) (m : list (string * json)) (alg : string)
    (Hj : parse_json header = Some (JObj m)) :
  header_alg header = (alg, true) <-> exists w, algs m = [w] /\ to_string EmptyString w = Some alg.
Proof.
  assert (header_alg header = match read_algs (algs m) EmptyString with
    | Some a => (a, Nat.eqb (length (algs m)) 1) | None => no_alg end) as ->.
  { unfold parse_json, parse_prefix in Hj. unfold header_alg. pose proof (skip_ws_len header) as Hh.
    destruct (skip_ws header) as [|c s]; [done|]. unfold json_fuel in Hj.
    replace (2 * String.length (String c s) + 2)%nat with (S (2 * String.length (String c s) + 1)) in Hj by lia.
    cbn [value] in Hj. destruct (Ascii.eqb c dquote); [by destruct (parse_string s) as [[??]|]; try case_match|].
    destruct (Ascii.eqb c "[") eqn:Eb.
    { apply Ascii.eqb_eq in Eb as ->. change (maxNestingDepth <=? 0) with false in Hj. cbn iota in Hj.
      destruct (skip_ws s); [done|]. destruct (Ascii.eqb _ "]"); [by case_match|].
      destruct (elements _ _ _) as [[??]|]; [by case_match|done]. }
    destruct (Ascii.eqb c "{").
    - change (maxNestingDepth <=? 0) with false in Hj. cbn iota in Hj. pose proof (skip_ws_len s) as Hs.
      destruct (skip_ws s) as [|e t]; [done|]. simpl in Hs, Hh. destruct (Ascii.eqb e "}") eqn:Ee.
      { case_match; [|done]. injection Hj as <-. apply Ascii.eqb_eq in Ee as ->. by destruct (String.length header). }
      destruct (members _ _ _) as [[m' r]|] eqn:E; [|done]. case_match; [|done]. injection Hj as ->.
      rewrite (alg_members_read _ (0 + 1) _ _ _ (String.length header) EmptyString 0 ltac:(done) E) by (simpl; lia). done.
    - by repeat (case_match; simplify_eq). }
  destruct (algs m) as [|w [|w' l]]; cbn [read_algs length Nat.eqb].
  - naive_solver.
  - destruct (to_string EmptyString w) as [a|] eqn:Ew; cbn [mbind option_bind].
    + split; [intros [= ->]; by exists w|]. intros (x & [= <-] & Hx). congruence.
    + split; [done|]. intros (x & [= <-] & Hx). congruence.
  - split; [|naive_solver]. destruct (to_string _ w) as [a|]; cbn [mbind option_bind]; [|done].
    destruct (to_string a w') as [b|]; cbn [mbind option_bind]; [|done]. by destruct (read_algs l b).
Qed.

(** ** Instances *)

Definition demo_verifier : verifier :=
  {| v_issuer := "https://id.example"; v_audience := "profgate"; v_tokenType := "id"; v_usernameClaim := "email";
     v_groupsClaim := "groups"; v_skew := 60 * second |}.
Definition demo_header (alg : string) : string := print (JObj [("alg", JStr alg); ("kid", JStr "a")])%string.
Definition demo_payload (exp : string) : string :=
  print (JObj [("iss", JStr "https://id.example"); ("sub", JStr "u-1"); ("aud", JArr [JStr "profgate"]);
               ("email", JStr "ana@example"); ("iat", JNum "900"); ("exp", JNum exp)])%string.
Definition demo_token : string := b64_encode (demo_header "RS256") +:+ ".payload.signature".
Definition demo_state : issuerState :=
  {| is_doc := Build_discoveryDocument "https://id.example" "https://id.example/keys" "" "" "";
     is_cache := 0; is_maxStale := 24 * hour |}.
Definition demo_answers (now : time) (R : Type) (c : verifyCall R) (h : list (answered verifyCall)) : R :=
  match c with
  | LoadState => Some demo_state
  | LoadKeys _ => Some demo_set
  | RefreshOnDemand _ => true
  | Clock => now
  end.
Definition demo_verify (now : time) (exp : string) : claims + Failure :=
  (run (demo_answers now)
     (verify (fun _ => ParsedJWS [{| hd_KeyID := "a"; hd_typ := None |}]) (fun _ _ => Some (demo_payload exp))
        demo_verifier demo_token) []).1.
Definition demo_claims : claims :=
  {| cl_Subject := "u-1"; cl_Username := "ana@example"; cl_Groups := []; cl_Nonce := EmptyString |}.

(** In time, late, and in time again by a date with a fraction and an exponent. *)
Example demo_in_time : demo_verify (1000 * second) "2000" = inl demo_claims.
Proof. vm_compute. reflexivity. Qed.
Example demo_late : demo_verify (2060 * second) "2000" = inr (failed 401 ReasonExpired).
Proof. vm_compute. reflexivity. Qed.
Example demo_fraction : demo_verify (2060 * second) "2.0009999e3" = inr (failed 401 ReasonExpired).
Proof. vm_compute. reflexivity. Qed.
Example demo_rounded : date_of "1.99999999999999999999" = Some 2 /\ date_of "1e19" = None /\ date_of "-0.5" = Some 0.
Proof. vm_compute. done. Qed.
Example demo_stale : demo_verify (12 * second + 24 * hour) "99999999" = inr (failed 503 ReasonKeysStale).
Proof. vm_compute. reflexivity. Qed.

Lemma verify_sound_witness :
  identity_ok "u-1" /\ exists alg key, singleAlg demo_token = (alg, true) /\ alg ∈ allowedAlgs /\
    compatible alg key = true.
Proof.
  set (parsed := fun _ : string => ParsedJWS [{| hd_KeyID := "a"; hd_typ := None |}]).
  set (check := fun (_ : string) (_ : keyMaterial) => Some (demo_payload "2000")).
  pose proof (run_runs (demo_answers (1000 * second)) (verify parsed check demo_verifier demo_token) []) as H.
  assert ((run (demo_answers (1000 * second)) (verify parsed check demo_verifier demo_token) []).1 = inl demo_claims)
    as E by (vm_compute; reflexivity). rewrite E in H.
  destruct (verify_sound parsed check demo_verifier demo_token
    (run (demo_answers (1000 * second)) (verify parsed check demo_verifier demo_token) []).2 demo_claims) as [Hiff Hv].
  destruct (Hv (proj1 Hiff H)) as (Hi & _ & alg & kid & key & set & Ha & Hin & Hc & _).
  split; [exact Hi|]. exists alg, key. split; [exact Ha|]. split; [exact Hin|exact Hc].
Defined.

Lemma verify_refusal_witness :
  exists reason, failed 401 ReasonExpired = failed 401 reason.
Proof.
  set (parsed := fun _ : string => ParsedJWS [{| hd_KeyID := "a"; hd_typ := None |}]).
  set (check := fun (_ : string) (_ : keyMaterial) => Some (demo_payload "2000")).
  pose proof (run_runs (demo_answers (2060 * second)) (verify parsed check demo_verifier demo_token) []) as H.
  assert ((run (demo_answers (2060 * second)) (verify parsed check demo_verifier demo_token) []).1 =
    inr (failed 401 ReasonExpired)) as E by (vm_compute; reflexivity). rewrite E in H.
  destruct (verify_refusal parsed check demo_verifier demo_token _ _ H) as [(reason & Hf & _)|[Hf _]]; [|discriminate].
  exists reason. exact Hf.
Defined.

Lemma singleAlg_iff_witness :
  header_alg (demo_header "ES256") = ("ES256"%string, true) <->
  exists w, algs [("alg", JStr "ES256"); ("kid", JStr "a")]%string = [w] /\ to_string EmptyString w = Some "ES256"%string.
Proof. apply singleAlg_iff. vm_compute. reflexivity. Defined.
