(* ===== verification/Cookie.v ===== *)
(** * Cookies of the browser flow

    src/internal/auth/cookie.go: the key file, the sealing of a value under
    AES-256-GCM with the cookie's name as associated data, the two plaintexts and
    their JSON, and the cookie a value is set as.  What the random source gives
    is an argument. *)

From S2P Require Import Prelude Base64 Keys Config Auth Settings Utf8 Json Gcm.

Definition cookieSession : string := "__Host-profgate_session".
Definition cookieTxn : string := "__Host-profgate_txn".
Definition cookieMaxLen : Z := 4000.
Definition cookieKeySize : Z := 32.
Definition nonceSize : nat := 12.

(** ** Keys *)

(** [cookieKeys]. *)
Record cookieKeys := { ck_current : string; ck_previous : option string }.

(** One line of the key file. *)
Definition key_of_line (line : string) : option string :=
  raw ← std_decode line; if byte_len raw =? cookieKeySize then Some raw else None.

(** [parseCookieKeys]. *)
Definition newline : ascii := ascii_of_nat 10.
Definition parseCookieKeys (b : string) : option cookieKeys :=
  let b := default b (cut_suffix (String newline EmptyString) b) in
  if is_empty b then None
  else
    match split_at newline b with
    | [l1] => k1 ← key_of_line l1; Some {| ck_current := k1; ck_previous := None |}
    | [l1; l2] => k1 ← key_of_line l1; k2 ← key_of_line l2; Some {| ck_current := k1; ck_previous := Some k2 |}
    | _ => None
    end.

(** ** Sealing *)

(** [seal]: [entropy] is what [io.ReadFull] of the random source gives, [None]
    when it fails. *)
Definition seal_bytes (key nonce name plaintext : string) : string :=
  b64_encode (nonce +:+ Seal key nonce plaintext name).
Definition seal (keys : option cookieKeys) (entropy : option string) (name plaintext : string) : string + Failure :=
  match keys, entropy with
  | Some keys, Some nonce => inl (seal_bytes (ck_current keys) nonce name plaintext)
  | _, _ => inr (failed 503 ReasonEntropy)
  end.

(** [open]. *)
Definition candidates (keys : cookieKeys) : list string :=
  ck_current keys :: match ck_previous keys with Some k => [k] | None => [] end.
Fixpoint open_with (ks : list string) (name nonce sealed : string) : option string :=
  match ks with
  | [] => None
  | k :: ks' => match Open k nonce sealed name with Some p => Some p | None => open_with ks' name nonce sealed end
  end.
Definition open (keys : option cookieKeys) (name value : string) : option string :=
  keys ← keys;
  raw ← b64_decode value;
  if byte_len raw <? Z.of_nat nonceSize + 16 then None
  else
    open_with (candidates keys) name (String.substring 0 nonceSize raw)
      (String.substring nonceSize (String.length raw - nonceSize) raw).

(** ** Plaintexts *)

(** [time.Unix(sec, 0)]: the seconds since year 1 are an [int64]. *)
Definition time_of_unix (sec : Z) : time := (wrap64 (sec + 62135596800) - 62135596800) * second.

(** [session] and [transaction]. *)
Record session := { s_Principal : string; s_Realm : string; s_Exp : time }.
Record transaction := { t_State : string; t_Nonce : string; t_Verifier : string; t_Return : string; t_Exp : time }.

(** The wire forms and the two encodings of each. *)
Definition encode_session (s : session) : string :=
  print (JObj [("principal", JStr (s_Principal s)); ("realm", JStr (s_Realm s));
               ("exp", JNum (pretty (unix (s_Exp s))))])%string.

Record sessionWire := { sw_Principal : string; sw_Realm : string; sw_Exp : Z }.
Definition set_session (w : sessionWire) (name : string) (v : json) : option sessionWire :=
  let '(Build_sessionWire p r e) := w in
  if String.eqb name "principal" then p' ← to_string p v; Some (Build_sessionWire p' r e)
  else if String.eqb name "realm" then r' ← to_string r v; Some (Build_sessionWire p r' e)
  else e' ← to_int64 e v; Some (Build_sessionWire p r e').
Definition decode_session (b : string) : option session :=
  v ← parse_json b;
  w ← to_struct ["principal"; "realm"; "exp"]%string set_session (Build_sessionWire "" "" 0) v;
  Some {| s_Principal := sw_Principal w; s_Realm := sw_Realm w; s_Exp := time_of_unix (sw_Exp w) |}.

Definition encode_transaction (t : transaction) : string :=
  print (JObj [("state", JStr (t_State t)); ("nonce", JStr (t_Nonce t)); ("verifier", JStr (t_Verifier t));
               ("return", JStr (t_Return t)); ("exp", JNum (pretty (unix (t_Exp t))))])%string.

Record transactionWire :=
  { tw_State : string; tw_Nonce : string; tw_Verifier : string; tw_Return : string; tw_Exp : Z }.
Definition set_transaction (w : transactionWire) (name : string) (v : json) : option transactionWire :=
  let '(Build_transactionWire s n k r e) := w in
  if String.eqb name "state" then s' ← to_string s v; Some (Build_transactionWire s' n k r e)
  else if String.eqb name "nonce" then n' ← to_string n v; Some (Build_transactionWire s n' k r e)
  else if String.eqb name "verifier" then k' ← to_string k v; Some (Build_transactionWire s n k' r e)
  else if String.eqb name "return" then r' ← to_string r v; Some (Build_transactionWire s n k r' e)
  else e' ← to_int64 e v; Some (Build_transactionWire s n k r e').
Definition decode_transaction (b : string) : option transaction :=
  v ← parse_json b;
  w ← to_struct ["state"; "nonce"; "verifier"; "return"; "exp"]%string set_transaction
        (Build_transactionWire "" "" "" "" 0) v;
  Some {| t_State := tw_State w; t_Nonce := tw_Nonce w; t_Verifier := tw_Verifier w; t_Return := tw_Return w;
          t_Exp := time_of_unix (tw_Exp w) |}.

(** ** Set-Cookie *)

(** The cookie [http.SetCookie] writes: a value and a [MaxAge], the other
    attributes the same for all. *)
Record cookie := { ck_Name : string; ck_Value : string; ck_MaxAge : Z }.

Definition max_age (n : Z) : string :=
  if 0 <? n then "; Max-Age=" +:+ pretty n else if n <? 0 then "; Max-Age=0" else EmptyString.
Definition cookie_line (c : cookie) : string :=
  ck_Name c +:+ "=" +:+ ck_Value c +:+ "; Path=/" +:+ max_age (ck_MaxAge c) +:+ "; HttpOnly; Secure; SameSite=Lax".

(** [setCookie]: [None] refuses without a write. *)
Definition setCookie (name value : string) (maxAge : duration) : option cookie :=
  if cookieMaxLen <? byte_len value then None
  else Some {| ck_Name := name; ck_Value := value; ck_MaxAge := maxAge ÷ second |}.

(** [deleteCookie]. *)
Definition deleteCookie (name : string) : cookie := {| ck_Name := name; ck_Value := EmptyString; ck_MaxAge := -1 |}.

Lemma deletedSession_line : cookie_line (deleteCookie cookieSession) = deletedSession.
Proof. vm_compute. reflexivity. Qed.

(** ** What is sealed opens *)

Lemma open_seal_bytes (keys : cookieKeys) (key nonce name plaintext : string) :
  String.length nonce = nonceSize ->
  open (Some keys) name (seal_bytes key nonce name plaintext) =
  open_with (candidates keys) name nonce (Seal key nonce plaintext name).
Proof.
  intros Hn. unfold open, seal_bytes. cbn [mbind option_bind]. rewrite b64_roundtrip. cbn [mbind option_bind].
  rewrite byte_len_app. unfold byte_len. rewrite Hn, Seal_length, str_length_app, Hn, Seal_length.
  destruct (Z.ltb_spec (Z.of_nat nonceSize + Z.of_nat (String.length plaintext + tagSize)) (Z.of_nat nonceSize + 16));
    [unfold tagSize in *; lia|].
  rewrite <-Hn. rewrite substring_app_l. f_equal.
  replace (String.length nonce + (String.length plaintext + tagSize) - String.length nonce)%nat
    with (String.length (Seal key nonce plaintext name)) by (rewrite Seal_length; lia).
  apply substring_app_r.
Qed.

(** A value sealed under a key opens, under the same name, while that key is the
    current one, and while it is the previous one, unless the current one opens
    it too. *)
Lemma open_seal (keys : cookieKeys) (key nonce name plaintext : string) :
  String.length nonce = nonceSize ->
  (ck_current keys = key \/
   ck_previous keys = Some key /\ Open (ck_current keys) nonce (Seal key nonce plaintext name) name = None) ->
  open (Some keys) name (seal_bytes key nonce name plaintext) = Some plaintext.
Proof.
  intros Hn H. rewrite open_seal_bytes by done. unfold candidates. cbn [open_with].
  destruct H as [->|[-> ->]]; [by rewrite Open_Seal|]. cbn [open_with]. by rewrite Open_Seal.
Qed.

(** ** Decimal numbers *)

Lemma pretty_char_value (x : N) : (x < 10)%N -> Z.of_nat (nat_of_ascii (pretty_N_char x)) - 48 = Z.of_N x.
Proof.
  intros Hx. assert (exists n : nat, x = N.of_nat n /\ (n < 10)%nat) as (n & -> & Hn) by (exists (N.to_nat x); lia).
  do 10 (destruct n as [|n]; [by vm_compute|]). lia.
Qed.

Lemma digits_pretty_go (x : N) (s : string) :
  digits_value 0 (pretty_N_go x s) = digits_value (Z.of_N x) s.
Proof.
  revert s. induction (N.lt_wf_0 x) as [x _ IH]; intros s.
  destruct (decide (x = 0)%N) as [->|Hx]; [by rewrite pretty_N_go_0|].
  rewrite pretty_N_go_step by lia. rewrite IH by (apply N.div_lt; lia). cbn [digits_value].
  pose proof (N.mod_lt x 10 ltac:(lia)) as Hm. rewrite pretty_N_char_digit, pretty_char_value by done. f_equal.
  pose proof (N.div_mod x 10 ltac:(lia)). lia.
Qed.

Lemma digits_pretty (z : Z) : 0 <= z -> digits_value 0 (pretty z) = Some z.
Proof.
  intros Hz. destruct z as [|p|p]; [done| |lia].
  change (pretty (Z.pos p)) with (pretty_N_go (N.pos p) EmptyString). by rewrite digits_pretty_go.
Qed.

Lemma atoi_pretty (z : Z) : 0 <= z <= max_int64 -> atoi (pretty z) = Some z.
Proof.
  intros Hz. pose proof (pretty_Z_digits z ltac:(lia)) as Hd. pose proof (digits_pretty z ltac:(lia)) as Hv.
  destruct (pretty z) as [|c s] eqn:E.
  { destruct z as [|p|p]; [done| |lia]. by destruct (pretty_N_nonempty (N.pos p)). }
  cbn [all_bytes] in Hd. apply andb_true_iff in Hd as [Hc _]. unfold atoi.
  destruct c as [[] [] [] [] [] [] [] []]; try discriminate Hc; cbn iota; rewrite Hv;
    (destruct (Z.leb_spec min_int64 z); [|unfold min_int64 in *; lia]);
    (destruct (Z.leb_spec z max_int64); [done|lia]).
Qed.

Lemma pretty_go_length (k : nat) (x : N) (s : string) :
  (x < 10 ^ N.of_nat k)%N -> (String.length (pretty_N_go x s) <= k + String.length s)%nat.
Proof.
  revert x s. induction k as [|k IH]; intros x s Hx; destruct (decide (x = 0)%N) as [->|Hx0];
    try (rewrite pretty_N_go_0; lia); [simpl in Hx; lia|].
  rewrite pretty_N_go_step by lia. etrans; [apply IH|simpl; lia].
  apply N.Div0.div_lt_upper_bound. rewrite <-N.pow_succ_r'. by rewrite Nat2N.inj_succ in Hx.
Qed.

Lemma pretty_length (k : nat) (z : Z) : 0 <= z < 10 ^ Z.of_nat k -> (0 < k)%nat -> byte_len (pretty z) <= Z.of_nat k.
Proof.
  intros Hz Hk. unfold byte_len. destruct z as [|p|p]; [simpl; lia| |lia].
  change (pretty (Z.pos p)) with (pretty_N_go (N.pos p) EmptyString).
  pose proof (pretty_go_length k (N.pos p) EmptyString) as H. cbn [String.length] in H.
  assert (N.pos p < 10 ^ N.of_nat k)%N as Hp; [|specialize (H Hp); lia].
  apply N2Z.inj_lt. rewrite N2Z.inj_pow. simpl. rewrite nat_N_Z. lia.
Qed.

(** ** The plaintexts come back *)

Lemma time_of_unix_id (t : time) : 0 <= unix t <= max_int64 - 62135596800 -> time_of_unix (unix t) = unix t * second.
Proof. intros H. unfold time_of_unix. rewrite wrap64_id by (unfold in_int64, min_int64, max_int64 in *; lia). f_equal. lia. Qed.

Lemma take_digits_all (s : string) : all_bytes is_digit s = true -> take_digits s = (s, EmptyString).
Proof.
  induction s as [|c s IH]; cbn [all_bytes take_digits]; [done|]. intros [-> H]%andb_true_iff. by rewrite IH.
Qed.

Lemma pretty_go_head (x : N) (s : string) :
  (0 < x)%N -> exists c t, pretty_N_go x s = String c t /\ Ascii.eqb c "0" = false.
Proof.
  revert s. induction (N.lt_wf_0 x) as [x _ IH]; intros s Hx. rewrite pretty_N_go_step by done.
  destruct (decide (x / 10 = 0)%N) as [E|E]; [|apply IH; [by apply N.div_lt|by apply N.neq_0_lt_0]].
  rewrite E, pretty_N_go_0. eexists _, _. split; [reflexivity|]. apply N.div_small_iff in E; [|done].
  rewrite N.mod_small by done. apply Ascii.eqb_neq. intros Hc. pose proof (pretty_char_value x E) as Hv.
  rewrite Hc in Hv. change (Z.of_nat (nat_of_ascii "0") - 48) with 0 in Hv. lia.
Qed.

Lemma parse_number_pretty (z : Z) : 0 <= z -> parse_number (pretty z) = Some (pretty z, EmptyString).
Proof.
  intros Hz. destruct (Z.eqb_spec z 0) as [->|Hne]; [reflexivity|].
  pose proof (pretty_Z_digits z Hz) as Hd.
  assert (exists c t, pretty z = String c t /\ Ascii.eqb c "0" = false) as (c & t & E & Hc).
  { destruct z as [|p|p]; [done| |lia]. by apply (pretty_go_head (N.pos p) EmptyString). }
  rewrite E in *. unfold parse_number.
  assert (Ascii.eqb c "-" = false) as ->.
  { apply Ascii.eqb_neq. intros ->. done. }
  unfold int_part. rewrite Hc. unfold digits1. rewrite take_digits_all by done. cbn [String.eqb frac_part exp_part].
  by rewrite str_app_nil_r.
Qed.

Lemma field_of_name (names : list string) (k : string) : k ∈ names -> field_of names k = Some k.
Proof. intros H. unfold field_of. by rewrite bool_decide_true. Qed.
Lemma to_valid_name (k : string) : valid_utf8 k = true -> to_valid k = k.
Proof. apply String.eqb_eq. Qed.

(** The members of a struct that was printed, read one after the other. *)
Ltac read_back set :=
  cbn [to_valid_json map fst snd]; rewrite !to_valid_name by (assumption || (vm_compute; reflexivity));
  cbn [mbind option_bind to_struct read_struct];
  rewrite ?field_of_name by (rewrite !elem_of_cons; tauto); cbn [mbind option_bind];
  repeat (match goal with |- context [set ?w ?n ?v] =>
            let e := eval cbv beta iota delta [set] in (set w n v) in change (set w n v) with e end;
          closed_eqb; cbn [to_string to_int64]; rewrite ?atoi_pretty by (unfold max_int64 in *; lia);
          cbn [mbind option_bind read_struct]).

(** A session comes back with its expiry at whole seconds. *)
Lemma decode_encode_session (s : session) :
  valid_utf8 (s_Principal s) = true -> valid_utf8 (s_Realm s) = true ->
  0 <= unix (s_Exp s) <= max_int64 - 62135596800 ->
  decode_session (encode_session s) =
    Some {| s_Principal := s_Principal s; s_Realm := s_Realm s; s_Exp := unix (s_Exp s) * second |}.
Proof.
  intros Hp Hr He.
  unfold decode_session, encode_session. rewrite parse_print.
  2:{ cbn [writable forallb fst snd]. rewrite (bool_decide_true _ (parse_number_pretty _ (proj1 He))). done. }
  read_back set_session. cbn [sw_Principal sw_Realm sw_Exp]. by rewrite time_of_unix_id.
Qed.

(** Whatever name it carries, what a session decodes to is its realm. *)
Lemma decode_session_realm (s s' : session) :
  valid_utf8 (s_Realm s) = true -> 0 <= unix (s_Exp s) ->
  decode_session (encode_session s) = Some s' -> s_Realm s' = s_Realm s.
Proof.
  intros Hr He. unfold decode_session, encode_session. rewrite parse_print.
  2:{ cbn [writable forallb fst snd]. rewrite (bool_decide_true _ (parse_number_pretty _ He)). done. }
  cbn [to_valid_json map fst snd]. rewrite (to_valid_name (s_Realm s)) by done.
  rewrite !(to_valid_name "principal"), !(to_valid_name "realm"), !(to_valid_name "exp") by (vm_compute; reflexivity).
  cbn [mbind option_bind to_struct read_struct].
  rewrite ?field_of_name by (rewrite !elem_of_cons; tauto). cbn [mbind option_bind].
  repeat (match goal with |- context [set_session ?w ?n ?v] =>
            let e := eval cbv beta iota delta [set_session] in (set_session w n v) in change (set_session w n v) with e end;
          closed_eqb; cbn [to_string]; cbn [mbind option_bind read_struct]).
  destruct (to_int64 0 _); cbn [mbind option_bind]; [|done]. by intros [= <-].
Qed.

Lemma decode_encode_transaction (t : transaction) :
  valid_utf8 (t_State t) = true -> valid_utf8 (t_Nonce t) = true -> valid_utf8 (t_Verifier t) = true ->
  valid_utf8 (t_Return t) = true -> 0 <= unix (t_Exp t) <= max_int64 - 62135596800 ->
  decode_transaction (encode_transaction t) =
    Some {| t_State := t_State t; t_Nonce := t_Nonce t; t_Verifier := t_Verifier t; t_Return := t_Return t;
            t_Exp := unix (t_Exp t) * second |}.
Proof.
  intros Hs Hn Hv Hr He.
  unfold decode_transaction, encode_transaction. rewrite parse_print.
  2:{ cbn [writable forallb fst snd]. rewrite (bool_decide_true _ (parse_number_pretty _ (proj1 He))). done. }
  read_back set_transaction.
  cbn [tw_State tw_Nonce tw_Verifier tw_Return tw_Exp]. by rewrite time_of_unix_id.
Qed.

(** ** The size of a cookie *)

Lemma seal_bytes_length (key nonce name plaintext : string) :
  String.length nonce = nonceSize ->
  byte_len (seal_bytes key nonce name plaintext) = (4 * (byte_len plaintext + 28) + 2) / 3.
Proof.
  intros Hn. unfold seal_bytes. rewrite b64_length, byte_len_app. unfold byte_len. rewrite Hn, Seal_length.
  f_equal. unfold nonceSize, tagSize. lia.
Qed.

(** So the limit on a value is one of 2972 bytes on its plaintext. *)
Lemma setCookie_fits (key nonce name plaintext : string) (maxAge : duration) :
  String.length nonce = nonceSize ->
  (is_Some (setCookie name (seal_bytes key nonce name plaintext) maxAge) <-> byte_len plaintext <= 2972).
Proof.
  intros Hn. unfold setCookie. rewrite seal_bytes_length by done. unfold cookieMaxLen.
  destruct (Z.ltb_spec 4000 ((4 * (byte_len plaintext + 28) + 2) / 3)) as [H|H].
  - split; [intros []; done|]. intros Hl. exfalso.
    Z.div_mod_to_equations. lia.
  - split; [|by eexists]. intros _. Z.div_mod_to_equations. lia.
Qed.

Lemma escape_byte_length (c : ascii) : (String.length (escape_byte c) <= 6)%nat.
Proof. unfold escape_byte. repeat case_match; simpl; lia. Qed.

Lemma escape_length (f : nat) (s : string) : (String.length (escape_go f s) <= 6 * String.length s)%nat.
Proof.
  revert s. induction f as [|f IH]; intros s; [simpl; lia|]. destruct s as [|c s]; [simpl; lia|].
  cbn [escape_go]. destruct (decode_rune (String c s)) as [[[r w] rest]|] eqn:E.
  - destruct (decode_rune_app _ _ _ _ E) as [Hs Hw]. rewrite Hs. rewrite !str_length_app.
    specialize (IH rest). assert (0 < String.length w)%nat by (destruct w; [done|simpl; lia]).
    pose proof (escape_byte_length c). repeat case_match; simpl in *; lia.
  - rewrite str_length_app. specialize (IH s). change (String.length (u_escape RuneError)) with 6%nat. simpl. lia.
Qed.

Lemma print_string_length (s : string) : byte_len (print_string s) <= 6 * byte_len s + 2.
Proof.
  rewrite print_string_head. unfold byte_len. pose proof (escape_length (String.length s) s).
  cbn [String.length]. rewrite str_length_app. cbn [String.length]. lia.
Qed.

(** A session always fits: the verifier bounds the name and the realm is a DNS
    label. *)
Lemma session_fits (s : session) :
  byte_len (s_Principal s) <= 256 -> byte_len (s_Realm s) <= 63 -> 0 <= unix (s_Exp s) <= max_int64 ->
  byte_len (encode_session s) <= 2972.
Proof.
  intros Hp Hr He. pose proof (print_string_length (s_Principal s)). pose proof (print_string_length (s_Realm s)).
  assert (byte_len (pretty (unix (s_Exp s))) <= 19) by (apply (pretty_length 19); [unfold max_int64 in He; lia|lia]).
  unfold encode_session. cbn [print map join_with fst snd].
  assert (forall c t, byte_len (String c t) = 1 + byte_len t) as Hc by (intros; unfold byte_len; simpl; lia).
  rewrite !Hc, !byte_len_app, !Hc, !byte_len_app, !Hc, !byte_len_app.
  change (byte_len (print_string "principal")) with 11. change (byte_len (print_string "realm")) with 7.
  change (byte_len (print_string "exp")) with 5. change (byte_len EmptyString) with 0. rewrite ?Hc. change (byte_len EmptyString) with 0. lia.
Qed.

(** A sealed value is larger than what it seals, and a transaction than the return
    path it carries. *)
Lemma seal_bytes_large (key nonce name plaintext : string) :
  4 * byte_len plaintext <= 3 * byte_len (seal_bytes key nonce name plaintext).
Proof.
  unfold seal_bytes. rewrite b64_length, byte_len_app. unfold byte_len at 3. rewrite Seal_length.
  pose proof (byte_len_nonneg nonce) as Hn. unfold byte_len in Hn |- *. Z.div_mod_to_equations. lia.
Qed.

Lemma encode_transaction_return (t : transaction) :
  byte_len (print_string (t_Return t)) <= byte_len (encode_transaction t).
Proof.
  unfold encode_transaction. cbn [print map join_with fst snd].
  assert (forall c s, byte_len (String c s) = 1 + byte_len s) as Hc by (intros; unfold byte_len; simpl; lia).
  repeat rewrite ?Hc, ?byte_len_app. repeat match goal with |- context [byte_len ?s] =>
    lazymatch goal with H : 0 <= byte_len s |- _ => fail | _ => pose proof (byte_len_nonneg s) end end. lia.
Qed.
