(* ===== verification/Wire.v ===== *)
(** * Values of the browser flow on the wire

    src/internal/auth/wire.go: the random values, the PKCE challenge, and the
    return path a login carries, reduced to a path and a query on this host. *)

From S2P Require Import Prelude Sha256 Base64 Query Routes Auth Settings Url.

Definition wireBytes : Z := 32.
Definition maxReturnLen : Z := 1024.

(** [randomValue]; [entropy] is what [io.ReadFull] gives. *)
Definition randomValue (entropy : option string) : string + Failure :=
  match entropy with Some b => inl (b64_encode b) | None => inr (failed 503 ReasonEntropy) end.

(** [challenge]. *)
Definition sum_bytes (l : list Z) : string := fold_right (fun b s => String (of_byte b) s) EmptyString l.
Definition challenge (verifier : string) : string := b64_encode (sum_bytes (sha256 verifier)).

(** [plainBytes]. *)
Definition backslash : ascii := ascii_of_nat 92.
Definition plain (c : ascii) : bool := negb (Ascii.eqb c backslash) && (32 <=? byte_of c).
Definition plainBytes (s : string) : bool := all_bytes plain s.

(** [cleanPath]. *)
Definition cleanPath (p : string) : bool :=
  if negb (has_prefix "/" p) || has_prefix "//" p || negb (plainBytes p) then false
  else String.eqb (Clean p) p || String.eqb (Clean p +:+ "/") p.

(** [canonicalReturn]. *)
Section return_path.
  Variable parseHost : string -> string -> option string.

Definition foreign (u : URL) : bool :=
  negb (is_empty (u_Scheme u)) || negb (is_empty (u_Host u)) || u_User u || negb (is_empty (u_Opaque u)).
Definition canonicalReturn (raw : string) : string :=
  if is_empty raw || (maxReturnLen <? byte_len raw) then "/"
  else
    match Parse parseHost raw with
    | None => "/"
    | Some u =>
        if foreign u then "/"
        else if negb (cleanPath (u_Path u)) then "/"
        else
          match QueryUnescape (u_RawQuery u) with
          | Some q =>
              if negb (plainBytes q) then "/"
              else EscapedPath u +:+ (if is_empty (u_RawQuery u) then EmptyString else "?" +:+ u_RawQuery u)
          | None => "/"
          end
    end.

(** ** What a query holds *)

Definition no_fragment (c : ascii) : bool := negb (is_ctl c) && negb (Ascii.eqb c "#").

Lemma any_byte_all (f : ascii -> bool) (s : string) : any_byte f s = negb (all_bytes (fun c => negb (f c)) s).
Proof. induction s as [|c s IH]; [done|]. cbn [any_byte all_bytes]. rewrite IH. by destruct (f c). Qed.

Lemma all_bytes_and (f g : ascii -> bool) (s : string) :
  all_bytes (fun c => f c && g c) s = all_bytes f s && all_bytes g s.
Proof.
  induction s as [|c s IH]; [done|]. cbn [all_bytes]. rewrite IH.
  destruct (f c), (g c), (all_bytes f s); done.
Qed.

Lemma all_bytes_mono (f g : ascii -> bool) (s : string) :
  (forall c, f c = true -> g c = true) -> all_bytes f s = true -> all_bytes g s = true.
Proof using.
  intros H. induction s as [|c s IH]; [done|]. cbn [all_bytes]. rewrite !andb_true_iff. intros [H1 H2]. split; [by apply H|by apply IH].
Qed.

Lemma has_byte_all (c : ascii) (s : string) : has_byte c s = false -> all_bytes (fun d => negb (Ascii.eqb d c)) s = true.
Proof.
  induction s as [|d s IH]; [done|]. cbn [has_byte all_bytes]. case_decide as Hd; [done|]. intros H.
  rewrite IH by done. apply Ascii.eqb_neq in Hd. by rewrite Hd.
Qed.

Lemma scheme_go_bytes (f : ascii -> bool) (first : bool) (s scheme rest : string) :
  scheme_go first s = Some (Some (scheme, rest)) -> all_bytes f s = true -> all_bytes f rest = true.
Proof.
  revert first scheme. induction s as [|c s IH]; intros first scheme H Hf; [done|].
  cbn [scheme_go all_bytes] in *. apply andb_true_iff in Hf as [_ Hf].
  assert (forall scheme, match scheme_go false s with
    | Some (Some (scheme, rest)) => Some (Some (String c scheme, rest)) | o => o end = Some (Some (scheme, rest)) ->
    all_bytes f rest = true) as Hm.
  { intros sc Hs. destruct (scheme_go false s) as [[[a b]|]|] eqn:E; [|done|done]. injection Hs as _ <-. by eapply IH. }
  destruct (is_alpha c); [by eapply Hm|]. destruct (is_digit c || _).
  - destruct first; [done|]. by eapply Hm.
  - destruct (Ascii.eqb c ":"); [|done]. destruct first; [done|]. by injection H as _ <-.
Qed.

Lemma getScheme_bytes (f : ascii -> bool) (s scheme rest : string) :
  getScheme s = Some (scheme, rest) -> all_bytes f s = true -> all_bytes f rest = true.
Proof.
  unfold getScheme. destruct (scheme_go true s) as [[[a b]|]|] eqn:E; [| |done]; intros [= _ <-].
  - by eapply scheme_go_bytes.
  - done.
Qed.

Lemma cut_query_bytes (f : ascii -> bool) (s rest query : string) (force : bool) :
  cut_query s = (rest, query, force) -> all_bytes f s = true -> all_bytes f query = true.
Proof.
  unfold cut_query. destruct (cut "?" s) as [[p q]|] eqn:E; intros [= _ <- _]; [|done].
  apply cut_Some in E as [-> _]. rewrite all_bytes_app. by intros [_ [_ H]%andb_true_iff]%andb_true_iff.
Qed.

Lemma parse_query_bytes (f : ascii -> bool) (raw : string) (u : URL) :
  parse parseHost raw = Some u -> all_bytes f raw = true -> all_bytes f (u_RawQuery u) = true.
Proof.
  unfold parse. intros H Hf. destruct (any_byte is_ctl raw); [done|]. destruct (String.eqb raw "*"); [by injection H as <-|].
  destruct (getScheme raw) as [[scheme rest]|] eqn:Eg; cbn [mbind option_bind] in H; [|done].
  pose proof (getScheme_bytes f _ _ _ Eg Hf) as Hr. destruct (cut_query rest) as [[p q] force] eqn:Eq.
  pose proof (cut_query_bytes f _ _ _ _ Eq Hr) as Hq. destruct (_ && _); [by injection H as <-|].
  destruct (_ && _); [done|].
  assert (forall scheme user host rest, with_path scheme user host rest q force = Some u -> u_RawQuery u = q) as Hw.
  { intros sc us ho re. unfold with_path. destruct (unescape re); [|done]. by intros [= <-]. }
  destruct (_ && _); [|by rewrite (Hw _ _ _ _ H)].
  destruct (match cut "/" _ with Some _ => _ | None => _ end) as [a r]. destruct (parseAuthority _ _ _) as [[us ho]|]; [|done].
  cbn [mbind option_bind] in H. by rewrite (Hw _ _ _ _ H).
Qed.

Lemma Parse_query_bytes (raw : string) (u : URL) :
  Parse parseHost raw = Some u -> all_bytes no_fragment (u_RawQuery u) = true.
Proof.
  unfold Parse. assert (has_byte "#" (cut_pair "#" raw).1 = false) as Hh.
  { unfold cut_pair. destruct (cut "#" raw) as [[a b]|] eqn:E; [by apply cut_Some in E as [_ E]|by apply cut_None in E]. }
  destruct (cut_pair "#" raw) as [s frag]. cbn [fst] in Hh.
  destruct (parse parseHost s) as [p|] eqn:E; cbn [mbind option_bind]; [|done]. intros H.
  assert (all_bytes no_fragment (u_RawQuery p) = true) as Hp.
  { eapply parse_query_bytes; [exact E|]. unfold no_fragment. rewrite all_bytes_and, andb_true_iff.
    split; [|by apply has_byte_all]. unfold parse in E. rewrite any_byte_all in E.
    destruct (all_bytes _ s); [done|discriminate E]. }
  destruct (String.eqb frag EmptyString); [by injection H as <-|].
  unfold set_fragment in H. destruct (unescape frag); cbn [mbind option_bind] in H; [|done]. by injection H as <-.
Qed.

(** ** What an escaped path holds *)

(** The bytes of a path that is sent: none that ends it, none below a space and
    no backslash. *)
Definition path_byte (c : ascii) : bool := plain c && negb (Ascii.eqb c "#") && negb (Ascii.eqb c "?") && negb (is_ctl c).

Lemma on_bytes (f : ascii -> bool) : forallb (fun n => f (ascii_of_nat n)) (seq 0 256) = true -> forall c, f c = true.
Proof.
  intros H c. rewrite forallb_forall in H. rewrite <-(ascii_nat_embedding c). apply H, in_seq.
  pose proof (nat_ascii_bounded c). lia.
Qed.

Lemma valid_byte (c : ascii) :
  (one_of c "!$&'()*+,;=:@[]%" || negb (shouldEscape c encodePath)) = true -> path_byte c = true.
Proof.
  apply implb_true_iff. revert c. apply (on_bytes (fun c => implb _ (path_byte c))). vm_compute. reflexivity.
Qed.

Lemma escaped_byte (c : ascii) : all_bytes path_byte (escape_char encodePath c) = true.
Proof. revert c. apply (on_bytes (fun c => all_bytes path_byte (escape_char encodePath c))). vm_compute. reflexivity. Qed.

Lemma unescape_escaped_byte (c : ascii) (s : string) :
  unescape (escape_char encodePath c +:+ s) = String c <$> unescape s.
Proof. destruct c as [[] [] [] [] [] [] [] []]; reflexivity. Qed.

Lemma escape_bytes (s : string) : all_bytes path_byte (escape encodePath s) = true.
Proof. induction s as [|c s IH]; [done|]. cbn [escape]. by rewrite all_bytes_app, escaped_byte, IH. Qed.

Lemma unescape_escape (s : string) : unescape (escape encodePath s) = Some s.
Proof. induction s as [|c s IH]; [done|]. cbn [escape]. by rewrite unescape_escaped_byte, IH. Qed.

Lemma EscapedPath_bytes (u : URL) : all_bytes path_byte (EscapedPath u) = true.
Proof using.
  unfold EscapedPath. destruct (_ && _) eqn:E; [|destruct (String.eqb _ "*"); [done|apply escape_bytes]].
  to_prop. unfold validEncodedPath in *. eapply all_bytes_mono; [|eassumption]. apply valid_byte.
Qed.

Lemma EscapedPath_path (u : URL) : unescape (EscapedPath u) = Some (u_Path u).
Proof.
  unfold EscapedPath. destruct (_ && _) eqn:E; [by to_prop|].
  destruct (String.eqb_spec (u_Path u) "*") as [->|]; [done|apply unescape_escape].
Qed.

Lemma hex_value_bound (c : ascii) (n : nat) : hex_value c = Some n -> (n < 16)%nat.
Proof.
  intros H. assert (match hex_value c with Some n => Nat.ltb n 16 | None => true end = true) as Hb.
  { clear H. revert c. apply on_bytes. vm_compute. reflexivity. }
  rewrite H in Hb. by apply Nat.ltb_lt.
Qed.

(** The two ways a slash is escaped. *)
Lemma slash_digits (h l : ascii) (a b : nat) :
  hex_value h = Some a -> hex_value l = Some b -> ascii_of_nat (16 * a + b) = "/"%char ->
  h = "2"%char /\ (l = "F"%char \/ l = "f"%char).
Proof.
  intros Ha Hb Hc. pose proof (hex_value_bound _ _ Ha). pose proof (hex_value_bound _ _ Hb).
  apply (f_equal nat_of_ascii) in Hc. rewrite nat_ascii_embedding in Hc by lia.
  change (nat_of_ascii "/") with 47%nat in Hc. assert (a = 2%nat /\ b = 15%nat) as [-> ->] by lia.
  assert (implb (bool_decide (hex_value h = Some 2%nat)) (Ascii.eqb h "2") = true) as H1.
  { clear. revert h. apply on_bytes. vm_compute. reflexivity. }
  assert (implb (bool_decide (hex_value l = Some 15%nat)) (Ascii.eqb l "F" || Ascii.eqb l "f") = true) as H2.
  { clear. revert l. apply on_bytes. vm_compute. reflexivity. }
  rewrite bool_decide_true in H1, H2 by done. cbn [implb] in H1, H2. apply Ascii.eqb_eq in H1.
  apply orb_true_iff in H2. by rewrite !Ascii.eqb_eq in H2.
Qed.

(** A path whose decoding starts with one slash starts with that slash, written
    or escaped. *)
Definition rooted (s : string) : Prop := exists r, s = String "/" r /\ has_prefix "/" r = false.
Definition escaped_slash (s : string) : Prop := exists r, s = "%2F" +:+ r \/ s = "%2f" +:+ r.

Lemma unescape_rooted (s p : string) :
  unescape s = Some p -> has_prefix "/" p = true -> has_prefix "//" p = false -> rooted s \/ escaped_slash s.
Proof.
  intros Hs H1 H2. apply has_prefix_iff in H1 as [r ->]. destruct s as [|c s]; [done|]. cbn [unescape] in Hs.
  destruct (Ascii.eqb c "%") eqn:Ec.
  - apply Ascii.eqb_eq in Ec as ->. destruct s as [|h [|l t]]; [done..|].
    destruct (hex_value h) as [a|] eqn:Ea; [|done]. destruct (hex_value l) as [b|] eqn:Eb; [|done].
    destruct (unescape t) as [w|]; [|done]. injection Hs as Hc _. right. exists t.
    by destruct (slash_digits _ _ _ _ Ea Eb Hc) as [-> [-> | ->]]; [left|right].
  - left. exists s. destruct (unescape s) as [w|] eqn:Ew; [|done]. injection Hs as -> ->. split; [done|].
    destruct (has_prefix "/" s) eqn:E; [|done]. apply has_prefix_iff in E as [t ->]. simpl in Ew.
    destruct (unescape t) as [x|]; [|done]. injection Ew as <-. by rewrite (proj2 (has_prefix_iff _ _)) in H2 by (by exists x).
Qed.

(** ** A clean path has no dot segments *)

Definition dotted (e : string) : Prop := e = "."%string \/ e = ".."%string.

Lemma clean_go_kept (kept elems : list string) :
  Forall (fun e => e <> EmptyString /\ ~ dotted e /\ has_byte "/" e = false) kept ->
  Forall (fun e => has_byte "/" e = false) elems ->
  Forall (fun e => e <> EmptyString /\ ~ dotted e /\ has_byte "/" e = false) (clean_go kept elems).
Proof.
  revert kept. induction elems as [|e elems IH]; intros kept Hk He; cbn [clean_go]; [done|].
  apply Forall_cons in He as [He1 He].
  destruct (String.eqb e EmptyString || String.eqb e ".") eqn:E1; [by apply IH|].
  destruct (String.eqb e "..") eqn:E2.
  - apply IH; [|done]. destruct kept; [done|]. by apply Forall_cons in Hk as [_ Hk].
  - apply IH; [|done]. to_prop. constructor; [|done]. split; [done|]. split; [|done]. by intros [?|?].
Qed.

Lemma Clean_segments (p : string) : Forall (fun e => ~ dotted e) (split_at "/" (Clean p)).
Proof.
  unfold Clean. set (k := clean_go [] _).
  assert (Forall (fun e => e <> EmptyString /\ ~ dotted e /\ has_byte "/" e = false) (rev k)) as Hk.
  { apply Forall_rev. unfold k. apply clean_go_kept; [constructor|]. apply split_at_parts. }
  clearbody k. change (String "/" ?x) with (EmptyString +:+ String "/" x).
  rewrite split_at_app by done. constructor; [by intros [?|?]|].
  destruct (rev k) as [|e l] eqn:E; [by repeat constructor; intros [?|?]|]. rewrite <-E in *. rewrite split_join.
  - eapply Forall_impl; [exact Hk|]. naive_solver.
  - by rewrite E.
  - eapply Forall_impl; [exact Hk|]. naive_solver.
Qed.

Lemma cleanPath_segments (p : string) :
  cleanPath p = true -> has_prefix "/" p = true /\ has_prefix "//" p = false /\ plainBytes p = true /\
    Forall (fun e => ~ dotted e) (split_at "/" p).
Proof.
  unfold cleanPath. destruct (_ || _) eqn:E; [done|]. to_prop. intros Hc. repeat (split; [done|]).
  apply orb_true_iff in Hc as [Hc|Hc]; apply String.eqb_eq in Hc; rewrite <-Hc; [apply Clean_segments|].
  rewrite split_at_cons_app. apply Forall_app. split; [apply Clean_segments|]. by repeat constructor; intros [?|?].
Qed.

(** ** The return path *)

(** What a login carries and a landing page links to: a path and a query, without
    control bytes, backslashes or a fragment; the path decodes to one slash and
    segments of which none is a dot segment, and the text starts with that one
    slash, written or escaped, so no scheme and no authority can be read from
    it. *)
Theorem canonicalReturn_safe (raw : string) :
  exists path query p q,
    canonicalReturn raw = path +:+ query /\ (rooted path \/ escaped_slash path) /\
    all_bytes path_byte path = true /\ unescape path = Some p /\ has_prefix "/" p = true /\
    has_prefix "//" p = false /\ plainBytes p = true /\ Forall (fun e => ~ dotted e) (split_at "/" p) /\
    (query = EmptyString \/
     exists raw', query = String "?" raw' /\ all_bytes no_fragment raw' = true /\ QueryUnescape raw' = Some q /\ plainBytes q = true).
Proof.
  assert (exists path query p q, "/"%string = path +:+ query /\ (rooted path \/ escaped_slash path) /\
    all_bytes path_byte path = true /\ unescape path = Some p /\ has_prefix "/" p = true /\
    has_prefix "//" p = false /\ plainBytes p = true /\ Forall (fun e => ~ dotted e) (split_at "/" p) /\
    (query = EmptyString \/
     exists raw', query = String "?" raw' /\ all_bytes no_fragment raw' = true /\ QueryUnescape raw' = Some q /\ plainBytes q = true))
    as Hroot.
  { exists "/"%string, EmptyString, "/"%string, EmptyString. repeat (split; [done || (left; by exists EmptyString)|]).
    split; [by repeat constructor; intros [?|?]|by left]. }
  unfold canonicalReturn. destruct (_ || _); [done|]. destruct (Parse parseHost raw) as [u|] eqn:Eu; [|done].
  destruct (foreign u); [done|]. destruct (cleanPath (u_Path u)) eqn:Ec; [|done]. cbn [negb].
  destruct (QueryUnescape (u_RawQuery u)) as [q|] eqn:Eq; [|done]. destruct (plainBytes q) eqn:Ep; [|done]. cbn [negb].
  apply cleanPath_segments in Ec as (H1 & H2 & H3 & H4). pose proof (EscapedPath_path u) as Hp.
  eexists (EscapedPath u), _, (u_Path u), q. split; [reflexivity|]. split; [by eapply unescape_rooted|].
  split; [apply EscapedPath_bytes|]. repeat (split; [done|]).
  destruct (is_empty (u_RawQuery u)); [by left|right]. exists (u_RawQuery u).
  split; [done|]. split; [by eapply Parse_query_bytes|done].
Qed.
End return_path.

(** A clean path with an escaped first slash is kept as it is written: relative to
    the page, not to the host's root. *)
Example relative_return : canonicalReturn (fun _ h => Some h) "%2Fnamespaces" = "%2Fnamespaces"%string.
Proof. vm_compute. reflexivity. Qed.
Example foreign_returns :
  map (canonicalReturn (fun _ h => Some h))
    ["//evil.example/"; "https://evil.example/"; "/\evil.example"; "/a/../b"; "/%2F/evil"; "/%5Cevil"; "/a?x=%0A"; "/a#b"; ""]%string =
    ["/"; "/"; "/"; "/"; "/"; "/"; "/"; "/a"; "/"]%string.
Proof. vm_compute. reflexivity. Qed.

