(* ===== verification/Browser.v ===== *)
(** * The OIDC authenticator and the browser flow

    src/internal/auth/oidc.go and browser.go: the judgement of a request's
    credential, and the routes that start a login, complete it into a session
    cookie and end it.  The routes write nothing but their answer, so a route is
    a program that returns the answer it wrote.  The verification of a token and
    the request to the token endpoint are the programs of Verify.v and Issuer.v
    made through this interface of calls. *)

From S2P Require Import Prelude Base64 Keys Query Routes Config Auth Settings Utf8 Json Url Gcm Poller.
From S2P Require Import Interaction Issuer Jwks Claims Verify Cookie Wire.

(** ** Requests, answers, calls *)

(** What is read of a request; [rq_cookie] is [Request.Cookie]. *)
Record authRequest := {
  rq_Authorization : string;
  rq_FetchMode : string;
  rq_FetchDest : string;
  rq_FetchSite : string;
  rq_Path : string;
  rq_EscapedPath : string;
  rq_RawQuery : string;
  rq_cookie : string -> option string
}.

(** What a route wrote: the status, the headers it set beside the cookies, the
    cookies in order, the body. *)
Record response := {
  rs_Status : Z;
  rs_Headers : list (string * string);
  rs_Cookies : list cookie;
  rs_Body : string
}.

(** [browser], past its programmed parts: what [newBrowser] reads of the block. *)
Record browser := {
  b_clientID : string;
  b_redirectURL : string;
  b_secret : string;
  b_postLogoutURL : string;
  b_scopes : list string;
  b_sessionTTL : duration;
  b_transactionTTL : duration
}.

(** The state is the issuer's, [LoadCookieKeys] the sealer's snapshot; [Entropy]
    is a read of that many bytes of crypto/rand. *)
Inductive browserCall : Type -> Type :=
  | LoadIssuer : browserCall (option issuerState)
  | LoadCookieKeys : browserCall (option cookieKeys)
  | Entropy (n : nat) : browserCall (option string)
  | ReadClock : browserCall time
  | Verifying {R : Type} (c : verifyCall R) : browserCall R
  | ToIssuer {R : Type} (c : issuerCall R) : browserCall R
  | SessionIssued : browserCall unit.

Definition pathLogin : string := "/auth/login".
Definition pathCallback : string := "/auth/callback".
Definition pathLogout : string := "/auth/logout".

Section flow.
  Variable parseHost : string -> string -> option string.
  Variable parseSigned : string -> parsedJWS.
  Variable checkSignature : string -> keyMaterial -> option string.
  Variable v : verifier.

Definition verify_token (token : string) : itx browserCall (claims + Failure) :=
  lift (@Verifying) (verify parseSigned checkSignature v token).

(** ** Construction *)

Definition maxSecretBytes : Z := 1024.

(** [applyKeyFile] of the poller. *)
Definition keyFileEvent (read : option string) : pollEvent := {| ev_read := read; ev_apply := parseCookieKeys |}.

(** [newBrowser]: the relying party and its key file poller; [reads] answers the
    reads of its two files. *)
Definition read_secret (reads : string -> option string) (path : string) : option string :=
  if is_empty path then Some EmptyString
  else
    raw ← reads path;
    let secret := trim_space raw in
    if is_empty secret || (maxSecretBytes <? byte_len secret) then None else Some secret.
Definition newBrowser (reads : string -> option string) (bc : OIDCBrowser) : option (browser * filePoller cookieKeys) :=
  redirect ← Parse parseHost (br_RedirectURL bc);
  secret ← read_secret reads (br_ClientSecretFile bc);
  let '(ok, poller) := load (keyFileEvent (reads (br_CookieKeyFile bc))) newFilePoller in
  if negb ok then None
  else
    Some ({| b_clientID := br_ClientID bc; b_redirectURL := br_RedirectURL bc; b_secret := secret;
             b_postLogoutURL := u_Scheme redirect +:+ "://" +:+ u_Host redirect +:+ "/"; b_scopes := br_Scopes bc;
             b_sessionTTL := br_SessionTTL bc; b_transactionTTL := br_TransactionTTL bc |}, poller).

(** ** A request's credential *)

(** [isNavigation], [loginRedirect] and [redirect]; no relying party redirects
    nowhere. *)
Definition isNavigation (r : authRequest) : bool :=
  String.eqb (rq_FetchMode r) "navigate" && String.eqb (rq_FetchDest r) "document".
Definition loginRedirect (r : authRequest) : string :=
  let ret := rq_EscapedPath r +:+ (if is_empty (rq_RawQuery r) then EmptyString else "?" +:+ rq_RawQuery r) in
  pathLogin +:+ "?return=" +:+ QueryEscape ret.
Definition redirect (b : option browser) (r : authRequest) : string :=
  match b with
  | Some _ => if isNavigation r then loginRedirect r else EmptyString
  | None => EmptyString
  end.

(** [session]. *)
Definition session_refused (b : browser) (r : authRequest) : authAnswer :=
  AuthFailed {| af_Status := 401; af_Reason := ReasonSession; af_Redirect := redirect (Some b) r; af_ClearSession := true |}.
Definition session_site (r : authRequest) (s : Cookie.session) : authAnswer :=
  if negb (String.eqb (rq_FetchSite r) "same-origin") && negb (String.eqb (rq_FetchSite r) "none")
  then AuthFailed (failed 401 ReasonCSRF)
  else AuthOK {| p_Name := s_Principal s; p_Realm := s_Realm s |}.
Definition session (b : browser) (r : authRequest) (value : string) : itx browserCall authAnswer :=
  keys ← ask LoadCookieKeys;
  match (plain ← open keys cookieSession value; decode_session plain) with
  | None => mret (session_refused b r)
  | Some s =>
      now ← ask ReadClock;
      mret (if negb (now <? s_Exp s) then session_refused b r else session_site r s)
  end.

Definition bearerScheme : string := "Bearer".

(** [Authenticate] of oidc.go; [mapping] is the snapshot's, [None] when it has no
    OIDC block. *)
Definition judge_bearer (mapping : OIDCMapping) (c : claims + Failure) : authAnswer :=
  match c with
  | inr f => AuthFailed f
  | inl c =>
      match mapRealm mapping c with
      | Some realm => AuthOK {| p_Name := cl_Username c; p_Realm := realm |}
      | None => AuthFailed (failed 401 ReasonNoRealm)
      end
  end.
Definition no_credential (b : option browser) (r : authRequest) : authAnswer :=
  AuthFailed {| af_Status := 401; af_Reason := ReasonMissing; af_Redirect := redirect b r; af_ClearSession := false |}.
Definition Authenticate (b : option browser) (mapping : option OIDCMapping) (r : authRequest) :
    itx browserCall authAnswer :=
  match mapping with
  | None => mret AuthError
  | Some mapping =>
      if is_empty (rq_Authorization r) then
        match b, rq_cookie r cookieSession with
        | Some b, Some value => session b r value
        | _, _ => mret (no_credential b r)
        end
      else
        let '(scheme, token) := cut_pair " " (rq_Authorization r) in
        if negb (equal_fold scheme bearerScheme) then mret (AuthFailed (failed 401 ReasonScheme))
        else c ← verify_token (trim_space token); mret (judge_bearer mapping c)
  end.

(** ** Answers *)

(** [writeEnvelope]. *)
Definition envelope (code message : string) : string :=
  print (JObj [("error", JStr message); ("code", JStr code)])%string +:+ String (ascii_of_nat 10) EmptyString.
Definition json_headers : list (string * string) :=
  [("Content-Type", "application/json"); ("Cache-Control", "no-store")]%string.
Definition refusal (status : Z) (code message reason : string) (extra : list (string * string)) : response * authOutcome :=
  ({| rs_Status := status; rs_Headers := extra ++ json_headers; rs_Cookies := []; rs_Body := envelope code message |},
   {| ao_Status := status; ao_Code := code; ao_Reason := reason; ao_Principal := noPrincipal |}).

(** [fail]. *)
Definition failureMessage : string := "authentication required".
Definition fail (f : Failure) : response * authOutcome :=
  if af_Status f =? 503
  then refusal (af_Status f) "auth_unavailable" failureMessage (af_Reason f) [("Retry-After", "5")]%string
  else refusal (af_Status f) "unauthenticated" failureMessage (af_Reason f) [].

(** The cookies a handler set before the answer it gives. *)
Definition with_cookies (cs : list cookie) (a : response * authOutcome) : response * authOutcome :=
  let '(r, o) := a in
  ({| rs_Status := rs_Status r; rs_Headers := rs_Headers r; rs_Cookies := cs ++ rs_Cookies r; rs_Body := rs_Body r |}, o).

(** [failCallback] and [internal]. *)
Definition failCallback (f : Failure) : response * authOutcome := with_cookies [deleteCookie cookieTxn] (fail f).
Definition internal : response * authOutcome := fail (failed 503 ReasonInternal).

(** [redirectTo], with the cookies set before it. *)
Definition redirectTo (cs : list cookie) (location : string) : response * authOutcome :=
  ({| rs_Status := 302; rs_Headers := [("Location"%string, location)]; rs_Cookies := cs; rs_Body := EmptyString |},
   {| ao_Status := 302; ao_Code := "auth_redirect"; ao_Reason := EmptyString; ao_Principal := noPrincipal |}).

(** [withQuery]. *)
Definition withQuery (endpoint : string) (q : Values) : string :=
  endpoint +:+ (if has_byte "?" endpoint then "&" else "?") +:+ Encode q.

(** [html.EscapeString]. *)
Definition escape_html_byte (c : ascii) : string :=
  if Ascii.eqb c "&" then "&amp;" else if Ascii.eqb c "'" then "&#39;" else if Ascii.eqb c "<" then "&lt;"
  else if Ascii.eqb c ">" then "&gt;" else if Ascii.eqb c Json.dquote then "&#34;" else String c EmptyString.
Fixpoint escape_html (s : string) : string :=
  match s with EmptyString => EmptyString | String c s' => escape_html_byte c +:+ escape_html s' end.

(** [writeLanding]: the page. *)
Definition line (s : string) : string := s +:+ String (ascii_of_nat 10) EmptyString.
Definition q (s : string) : string := String Json.dquote (s +:+ String Json.dquote EmptyString).
Definition landing (ret : string) : string :=
  let escaped := escape_html ret in
  line "<!doctype html>" +:+ line ("<meta charset=" +:+ q "utf-8" +:+ ">") +:+
  line ("<meta http-equiv=" +:+ q "refresh" +:+ " content=" +:+ q ("0;url=" +:+ escaped) +:+ ">") +:+
  line "<title>Signed in</title>" +:+ line "<p>Signed in. Redirecting…</p>" +:+
  line ("<p><a href=" +:+ q escaped +:+ ">Continue</a></p>").
Definition landing_headers : list (string * string) :=
  [("Content-Type", "text/html; charset=utf-8"); ("Cache-Control", "no-store");
   ("Content-Security-Policy", "default-src 'none'")]%string.

(** ** Login *)


(** [url.Values.Get] on [r.URL.Query()]. *)
Definition url_query (raw : string) : Values := (foldl parse_pair (∅, false) (split_at "&" raw)).1.
Definition get (q : Values) (k : string) : string := default EmptyString (q !! k ≫= head).

Definition random_value : itx browserCall (string + Failure) :=
  b ← ask (Entropy 32); mret (randomValue b).

(** [seal] with its reads. *)
Definition seal_value (name plaintext : string) : itx browserCall (string + Failure) :=
  keys ← ask LoadCookieKeys;
  match keys with
  | None => mret (inr (failed 503 ReasonEntropy))
  | Some keys => nonce ← ask (Entropy nonceSize); mret (seal (Some keys) nonce name plaintext)
  end.

Definition login_query (b : browser) (t : transaction) : Values :=
  list_to_map [("response_type", ["code"]); ("client_id", [b_clientID b]); ("redirect_uri", [b_redirectURL b]);
               ("scope", [join_with " " (b_scopes b)]); ("state", [t_State t]); ("nonce", [t_Nonce t]);
               ("code_challenge", [challenge (t_Verifier t)]); ("code_challenge_method", ["S256"])]%string.

(** The transaction of a login. *)
Definition new_transaction (b : browser) (ret : string) : itx browserCall (transaction + Failure) :=
  s ← random_value;
  match s with
  | inr f => mret (inr f)
  | inl s =>
      n ← random_value;
      match n with
      | inr f => mret (inr f)
      | inl n =>
          k ← random_value;
          match k with
          | inr f => mret (inr f)
          | inl k =>
              now ← ask ReadClock;
              mret (inl {| t_State := s; t_Nonce := n; t_Verifier := k; t_Return := ret;
                           t_Exp := now + b_transactionTTL b |})
          end
      end
  end.

(** [login]. *)
Definition login (b : browser) (r : authRequest) (st : issuerState) : itx browserCall (response * authOutcome) :=
  let ret := canonicalReturn parseHost (get (url_query (rq_RawQuery r)) "return") in
  t ← new_transaction b ret;
  match t with
  | inr f => mret (fail f)
  | inl t =>
      value ← seal_value cookieTxn (encode_transaction t);
      mret (match value with
            | inr f => fail f
            | inl value =>
                match setCookie cookieTxn value (b_transactionTTL b) with
                | None => internal
                | Some c => redirectTo [c] (withQuery (doc_AuthorizationEndpoint (is_doc st)) (login_query b t))
                end
            end)
  end.

(** ** Callback *)

(** [openTransaction]. *)
Definition openTransaction (r : authRequest) : itx browserCall (option transaction) :=
  match rq_cookie r cookieTxn with
  | None => mret None
  | Some value =>
      keys ← ask LoadCookieKeys;
      match (plain ← open keys cookieTxn value; decode_transaction plain) with
      | None => mret None
      | Some t => now ← ask ReadClock; mret (if negb (now <? t_Exp t) then None else Some t)
      end
  end.

(** [exchange]. *)
Definition exchange_form (b : browser) (code verifier : string) : Values :=
  let form := list_to_map [("grant_type", ["authorization_code"]); ("code", [code]); ("redirect_uri", [b_redirectURL b]);
                           ("client_id", [b_clientID b]); ("code_verifier", [verifier])]%string in
  if is_empty (b_secret b) then form else <["client_secret"%string := [b_secret b]]> form.
Definition read_exchange (answer : option (Z * string)) : string + Failure :=
  match answer with
  | None => inr (failed 503 ReasonExchange)
  | Some (status, body) =>
      if 500 <=? status then inr (failed 503 ReasonExchange)
      else if negb (status =? 200) then inr (failed 401 ReasonExchangeDenied)
      else
        match (m ← decodeOne to_members body; asString (member "id_token" m)) with
        | Some idToken => if is_empty idToken then inr (failed 401 ReasonExchangeDenied) else inl idToken
        | None => inr (failed 401 ReasonExchangeDenied)
        end
  end.
Definition exchange (b : browser) (st : issuerState) (code verifier : string) : itx browserCall (string + Failure) :=
  answer ← lift (@ToIssuer) (postForm parseHost (doc_TokenEndpoint (is_doc st)) (exchange_form b code verifier));
  mret (read_exchange answer).

(** [callback] past the verified token. *)
Definition landed (b : browser) (t : transaction) (c : claims) (value : string) : itx browserCall (response * authOutcome) :=
  match setCookie cookieSession value (b_sessionTTL b) with
  | None => mret (with_cookies [deleteCookie cookieTxn] internal)
  | Some session =>
      _ ← ask SessionIssued;
      mret ({| rs_Status := 200; rs_Headers := landing_headers; rs_Cookies := [session; deleteCookie cookieTxn];
               rs_Body := landing (t_Return t) |},
            {| ao_Status := 200; ao_Code := "ok"; ao_Reason := EmptyString; ao_Principal := cl_Username c |})
  end.
Definition mint (b : browser) (t : transaction) (mapping : OIDCMapping) (c : claims) :
    itx browserCall (response * authOutcome) :=
  if negb (String.eqb (cl_Nonce c) (t_Nonce t)) then mret (failCallback (failed 401 ReasonNonce))
  else
    match mapRealm mapping c with
    | None => mret (failCallback (failed 401 ReasonNoRealm))
    | Some realm =>
        now ← ask ReadClock;
        value ← seal_value cookieSession
          (encode_session {| s_Principal := cl_Username c; s_Realm := realm; s_Exp := now + b_sessionTTL b |});
        match value with
        | inr f => mret (failCallback f)
        | inl value => landed b t c value
        end
    end.

(** [callback]. *)
Definition callback (b : browser) (r : authRequest) (st : issuerState) (mapping : OIDCMapping) :
    itx browserCall (response * authOutcome) :=
  let q := url_query (rq_RawQuery r) in
  t ← openTransaction r;
  match t with
  | None => mret (failCallback (failed 401 ReasonState))
  | Some t =>
      if negb (String.eqb (get q "state") (t_State t)) then mret (failCallback (failed 401 ReasonState))
      else if negb (is_empty (get q "error")) then mret (failCallback (failed 401 ReasonIssuerDenied))
      else
        token ← exchange b st (get q "code") (t_Verifier t);
        match token with
        | inr f => mret (failCallback f)
        | inl token =>
            c ← verify_token token;
            match c with
            | inr f => mret (failCallback f)
            | inl c => mint b t mapping c
            end
        end
  end.

(** ** Logout, and the dispatch *)

(** [logout]. *)
Definition logout (b : browser) (st : issuerState) : response * authOutcome :=
  let ending := doc_EndSessionEndpoint (is_doc st) in
  redirectTo [deleteCookie cookieSession]
    (if is_empty ending then "/"
     else withQuery ending (list_to_map [("post_logout_redirect_uri", [b_postLogoutURL b]);
                                         ("client_id", [b_clientID b])]%string)).

(** [ServeAuth]. *)
Definition ServeAuth (b : browser) (r : authRequest) (mapping : OIDCMapping) : itx browserCall (response * authOutcome) :=
  state ← ask LoadIssuer;
  match state with
  | None => mret (refusal 503 "not_ready" "issuer discovery has not completed" EmptyString [])
  | Some st =>
      if String.eqb (rq_Path r) pathLogin then login b r st
      else if String.eqb (rq_Path r) pathCallback then callback b r st mapping
      else if String.eqb (rq_Path r) pathLogout then mret (logout b st)
      else mret (refusal 404 "route_unknown" "no such route" EmptyString [])
  end.

(** ** What is admitted *)

(** A token that verified in a run, after the calls [before]: the calls of its
    verification are the next calls of the run's own log. *)
Definition admitted (h before : list (answered browserCall)) (token : string) (c : claims) : Prop :=
  exists after g, h = after ++ map (lift_answered (@Verifying)) g ++ before /\
    verified parseSigned checkSignature v token g c.

Lemma verify_token_admitted (token : string) (c : claims) h h' :
  runs (verify_token token) h h' (inl c) ->
  exists g, h' = map (lift_answered (@Verifying)) g ++ h /\ verified parseSigned checkSignature v token g c.
Proof using parseSigned checkSignature v.
  intros H. apply (runs_lift _ _ _ _ []) in H as (g & H & ->). rewrite app_nil_r in H. exists g.
  split; [done|]. by apply verify_runs.
Qed.

Lemma verify_token_refusal (token : string) (f : Failure) h h' :
  runs (verify_token token) h h' (inr f) -> exists g, runs (verify parseSigned checkSignature v token) [] g (inr f).
Proof using parseSigned checkSignature v. intros H. apply (runs_lift _ _ _ _ []) in H as (g & H & _). rewrite app_nil_r in H. by exists g. Qed.

(** A session cookie that is accepted: it opens under a key of the snapshot as a
    session cookie, has not expired, and comes from this origin or from no site. *)
Definition session_valid (r : authRequest) (value : string) (h : list (answered browserCall)) (s : Cookie.session) : Prop :=
  exists keys plain t, At LoadCookieKeys keys ∈ h /\ open keys cookieSession value = Some plain /\
    decode_session plain = Some s /\ At ReadClock t ∈ h /\ t < s_Exp s /\
    rq_FetchSite r ∈ ["same-origin"; "none"]%string.

Lemma session_admits (b : browser) (r : authRequest) (value : string) h h' (p : Principal) :
  runs (session b r value) h h' (AuthOK p) ->
  exists s, session_valid r value h' s /\ p = {| p_Name := s_Principal s; p_Realm := s_Realm s |}.
Proof using.
  unfold session. intros H. apply runs_ask in H as [keys H].
  destruct (open keys cookieSession value) as [plain|] eqn:Eo; cbn [mbind option_bind] in H; [|by destruct H].
  destruct (decode_session plain) as [s|] eqn:Ed; [|by destruct H]. apply runs_ask in H as [t H]. destruct H as [H <-].
  destruct (t <? s_Exp s) eqn:Et; cbn [negb] in H; [|done]. to_prop. unfold session_site in H.
  destruct (_ && _) eqn:Es; [done|]. injection H as <-. exists s. split; [|done]. exists keys, plain, t.
  split; [logged|]. split; [done|]. split; [done|]. split; [logged|]. split; [done|].
  apply andb_false_iff in Es as [Es|Es]; to_prop; rewrite Es; logged.
Qed.

Lemma bearer_realm (b : option browser) (mapping : OIDCMapping) (r : authRequest) h h' (p : Principal) :
  rq_Authorization r <> EmptyString -> runs (Authenticate b (Some mapping) r) h h' (AuthOK p) ->
  exists c, mapRealm mapping c = Some (p_Realm p).
Proof using parseSigned checkSignature v.
  intros Ha Hr. unfold Authenticate in Hr. apply String.eqb_neq in Ha. unfold is_empty in Hr. rewrite Ha in Hr.
  destruct (cut_pair _ _) as [scheme token]. destruct (negb _); [by destruct Hr|].
  apply runs_bind in Hr as (c & h1 & _ & Hr). destruct Hr as [Hr _]. unfold judge_bearer in Hr.
  destruct c as [c|f]; [|done]. destruct (mapRealm mapping c) eqn:Em; [|done]. injection Hr as <-. by exists c.
Qed.

(** C18: a request is admitted with a bearer token that verifies, by the issuer state,
    the keys and the clock this request itself read, which are all the calls it
    made, and maps to a realm, under the name the token carries; or, without an
    Authorization header, with a session cookie that is accepted, under the name
    and realm it was minted with. *)
Theorem oidc_admission (b : option browser) (mapping : OIDCMapping) (r : authRequest)
    (h' : list (answered browserCall)) (p : Principal) (Hr : runs (Authenticate b (Some mapping) r) [] h' (AuthOK p)) :
  (rq_Authorization r <> EmptyString /\ exists scheme token c,
     cut_pair " " (rq_Authorization r) = (scheme, token) /\ equal_fold scheme bearerScheme = true /\
     (exists g, h' = map (lift_answered (@Verifying)) g /\ verified parseSigned checkSignature v (trim_space token) g c) /\
     p_Name p = cl_Username c /\ mapRealm mapping c = Some (p_Realm p)) \/
  (rq_Authorization r = EmptyString /\ is_Some b /\ exists value s, rq_cookie r cookieSession = Some value /\
     session_valid r value h' s /\ p = {| p_Name := s_Principal s; p_Realm := s_Realm s |}).
Proof using parseSigned checkSignature v.
  unfold Authenticate in Hr. destruct (is_empty (rq_Authorization r)) eqn:Ea.
  - right. apply String.eqb_eq in Ea. split; [done|]. destruct b as [b|]; [|by destruct Hr].
    destruct (rq_cookie r cookieSession) as [value|]; [|by destruct Hr].
    apply session_admits in Hr as (s & Hs & ->). split; [by eexists|]. by exists value, s.
  - left. apply String.eqb_neq in Ea. split; [done|]. destruct (cut_pair _ _) as [scheme token].
    destruct (equal_fold scheme bearerScheme) eqn:Es; cbn [negb] in Hr; [|by destruct Hr].
    apply runs_bind in Hr as (c & h1 & Hv & Hr). destruct Hr as [Hr <-]. unfold judge_bearer in Hr.
    destruct c as [c|f]; [|done]. apply verify_token_admitted in Hv as (g & -> & Hv). rewrite app_nil_r.
    destruct (mapRealm mapping c) as [realm|] eqn:Em; [|done]. injection Hr as <-. exists scheme, token, c.
    split; [done|]. split; [done|]. split; [by exists g|done].
Qed.

(** ** Refusals *)

Lemma failed_ok (status : Z) (reason : string) : status ∈ [401; 429; 503] -> reason ∈ Reasons -> failure_ok (failed status reason).
Proof using. intros H1 H2. split; [done|]. split; [done|]. intros H. by destruct H. Qed.

Lemma redirect_login (b : option browser) (r : authRequest) :
  redirect b r <> EmptyString -> has_prefix "/auth/login?return=" (redirect b r) = true.
Proof using.
  unfold redirect, loginRedirect. destruct b; [|done]. destruct (isNavigation r); [|done]. intros _.
  apply has_prefix_iff. by eexists.
Qed.

(** Whatever it is asked, the authenticator refuses with a failure the server and
    the audit know: one of three statuses, a reason of the table, and a redirect
    only to the login and only beside a 401. *)
Theorem oidc_refusals (b : option browser) (mapping : option OIDCMapping) (r : authRequest)
    (h' : list (answered browserCall)) (f : Failure) (Hr : runs (Authenticate b mapping r) [] h' (AuthFailed f)) :
  failure_ok f.
Proof using parseSigned checkSignature v.
  assert (forall b status reason clear, status = 401 -> reason ∈ Reasons -> failure_ok {| af_Status := status;
    af_Reason := reason; af_Redirect := redirect b r; af_ClearSession := clear |}) as Hred.
  { intros b' status reason clear -> Hin. split; [logged|]. split; [done|]. cbn [af_Redirect af_Status].
    intros H. split; [done|]. by apply redirect_login. }
  unfold Authenticate in Hr. destruct mapping as [mapping|]; [|by destruct Hr].
  destruct (is_empty (rq_Authorization r)).
  - assert (no_credential b r = AuthFailed f -> failure_ok f) as Hno.
    { intros [= <-]. apply (Hred b 401 ReasonMissing false); [done|]. unfold Reasons. logged. }
    destruct b as [b|]; [|by destruct Hr as [Hr _]; apply Hno].
    destruct (rq_cookie r cookieSession) as [value|]; [|by destruct Hr as [Hr _]; apply Hno].
    unfold session in Hr. apply runs_ask in Hr as [keys Hr].
    assert (session_refused b r = AuthFailed f -> failure_ok f) as Href.
    { intros [= <-]. apply (Hred (Some b) 401 ReasonSession true); [done|]. unfold Reasons. logged. }
    destruct (_ ≫= _) as [s|]; [|by destruct Hr as [Hr _]; apply Href].
    apply runs_ask in Hr as [t Hr]. destruct Hr as [Hr _]. destruct (negb _); [by apply Href|].
    unfold session_site in Hr. destruct (_ && _); [|done]. injection Hr as <-. apply failed_ok; unfold Reasons; logged.
  - destruct (cut_pair _ _) as [scheme token]. destruct (negb _).
    { destruct Hr as [[= <-] _]. apply failed_ok; unfold Reasons; logged. }
    apply runs_bind in Hr as (c & h1 & Hv & Hr). destruct Hr as [Hr _]. unfold judge_bearer in Hr.
    destruct c as [c|g].
    + destruct (mapRealm mapping c); [done|]. injection Hr as <-. apply failed_ok; unfold Reasons; logged.
    + injection Hr as <-. apply verify_token_refusal in Hv as [g' Hv].
      apply verify_failure_ok in Hv. done.
Qed.

(** ** A session from its minting to its end *)

(** What [session] answers to a cookie, from the snapshot of the keys and the
    clock. *)
Definition session_answer (b : browser) (r : authRequest) (keys : option cookieKeys) (now : time) (value : string) :
    authAnswer :=
  match (plain ← open keys cookieSession value; decode_session plain) with
  | None => session_refused b r
  | Some s => if negb (now <? s_Exp s) then session_refused b r else session_site r s
  end.

(** A session that was minted is accepted by every request from this origin until
    the second its expiry falls in, while the key that sealed it is the current
    one or has become the previous one, and is refused and cleared after. *)
Theorem session_lives (b : browser) (r : authRequest) (keys : cookieKeys) (key nonce : string) (s : Cookie.session)
    (now : time) (Hn : String.length nonce = nonceSize)
    (Hk : ck_current keys = key \/ ck_previous keys = Some key /\
          Open (ck_current keys) nonce (Seal key nonce (encode_session s) cookieSession) cookieSession = None)
    (Hp : valid_utf8 (s_Principal s) = true) (Hrealm : valid_utf8 (s_Realm s) = true)
    (He : 0 <= unix (s_Exp s) <= max_int64 - 62135596800)
    (Hsite : rq_FetchSite r = "same-origin"%string) :
  session_answer b r (Some keys) now (seal_bytes key nonce cookieSession (encode_session s)) =
  if now <? unix (s_Exp s) * second then AuthOK {| p_Name := s_Principal s; p_Realm := s_Realm s |}
  else session_refused b r.
Proof using.
  unfold session_answer. rewrite open_seal by done. cbn [mbind option_bind].
  rewrite decode_encode_session by done. cbn [s_Exp]. destruct (now <? _); cbn [negb]; [|done].
  unfold session_site. rewrite Hsite. done.
Qed.

(** ** A login completed *)

Lemma exchange_token (b : browser) (st : issuerState) (code verifier token : string) h h' :
  runs (exchange b st code verifier) h h' (inl token) ->
  h ⊆ h' /\ requireHTTPS parseHost (doc_TokenEndpoint (is_doc st)) = true /\ token <> EmptyString /\
  exists body m, At (ToIssuer (Post (doc_TokenEndpoint (is_doc st)) (exchange_form b code verifier))) (Some (200, Some body)) ∈ h' /\
    decodeOne to_members body = Some m /\ asString (member "id_token" m) = Some token.
Proof.
  unfold exchange. intros H. apply runs_bind in H as (ans & h1 & Hp & H). destruct H as [H <-].
  apply (runs_lift _ _ _ _ []) in Hp as (g & Hp & ->). rewrite app_nil_r in Hp. unfold postForm in Hp.
  destruct (requireHTTPS _ _) eqn:E; cbn [negb] in Hp; [|by destruct Hp as [<- _]].
  apply runs_ask in Hp as [a Hp]. destruct Hp as [<- <-]. unfold read_exchange, read_body in H.
  destruct a as [[status body]|]; [|done]. cbn [mbind option_bind] in H.
  destruct (readLimited body) as [raw|] eqn:Er; cbn [mbind option_bind] in H; [|done].
  destruct (500 <=? status); [done|]. destruct (status =? 200) eqn:Es; cbn [negb] in H; [|done]. to_prop. subst status.
  destruct (decodeOne to_members raw) as [m|] eqn:Ed; cbn [mbind option_bind] in H; [|done].
  destruct (asString _) as [tok|] eqn:Et; [|done]. destruct (is_empty tok) eqn:Ee; [done|]. injection H as ->.
  apply String.eqb_neq in Ee. cbn [map lift_answered app]. unfold readLimited in Er.
  destruct body as [body|]; [|done]. cbn [mbind option_bind] in Er. destruct (_ <? _); [done|]. injection Er as ->.
  split; [set_solver|]. split; [done|]. split; [done|]. exists raw, m. split; [set_solver|done].
Qed.

(** The transaction cookie the callback completes. *)
Definition transaction_valid (r : authRequest) (h : list (answered browserCall)) (t : transaction) : Prop :=
  exists value keys plain now, rq_cookie r cookieTxn = Some value /\ At LoadCookieKeys keys ∈ h /\
    open keys cookieTxn value = Some plain /\ decode_transaction plain = Some t /\ At ReadClock now ∈ h /\ now < t_Exp t.

Lemma openTransaction_valid (r : authRequest) (t : option transaction) h h' :
  runs (openTransaction r) h h' t -> h ⊆ h' /\ forall x, t = Some x -> transaction_valid r h' x.
Proof.
  unfold openTransaction. destruct (rq_cookie r cookieTxn) as [value|] eqn:Ev; [|by intros [<- <-]].
  intros H. apply runs_ask in H as [keys H].
  destruct (open keys cookieTxn value) as [plain|] eqn:Eo; cbn [mbind option_bind] in H; [|destruct H as [<- <-]; split; [set_solver|done]].
  destruct (decode_transaction plain) as [x|] eqn:Ed; [|destruct H as [<- <-]; split; [set_solver|done]].
  apply runs_ask in H as [now H]. destruct H as [<- <-]. split; [set_solver|]. intros y Hy.
  destruct (now <? t_Exp x) eqn:Et; cbn [negb] in Hy; [|done]. injection Hy as <-. to_prop.
  exists value, keys, plain, now. split; [done|]. split; [set_solver|]. split; [done|]. split; [done|]. split; [set_solver|done].
Qed.

(** The session a callback mints. *)
Definition minted (b : browser) (h : list (answered browserCall)) (c : claims) (realm : string) (ck : cookie) : Prop :=
  exists keys nonce now, At LoadCookieKeys (Some keys) ∈ h /\ At (Entropy nonceSize) (Some nonce) ∈ h /\ At ReadClock now ∈ h /\
    setCookie cookieSession (seal_bytes (ck_current keys) nonce cookieSession
      (encode_session {| s_Principal := cl_Username c; s_Realm := realm; s_Exp := now + b_sessionTTL b |}))
      (b_sessionTTL b) = Some ck.

(** How [callback] can end: a refusal that deletes the transaction, or the
    session and the landing page. *)
Definition refused_callback (a : response * authOutcome) : Prop :=
  rs_Cookies a.1 = [deleteCookie cookieTxn] /\ rs_Status a.1 ∈ [401; 503] /\
  (forall l, ("Location"%string, l) ∉ rs_Headers a.1) /\ ao_Principal a.2 = noPrincipal.

Lemma failCallback_refused (f : Failure) : af_Status f ∈ [401; 503] -> refused_callback (failCallback f).
Proof.
  intros Hs. unfold refused_callback, failCallback, fail, refusal, with_cookies, json_headers.
  destruct (af_Status f =? 503); cbn; (split; [done|]; split; [done|]; split; [|done]); intros l H;
    repeat (apply elem_of_cons in H as [H|H]; [discriminate H|]); by apply elem_of_nil in H.
Qed.

Lemma mint_ends (b : browser) (t : transaction) (mapping : OIDCMapping) (c : claims) h h' (a : response * authOutcome) :
  runs (mint b t mapping c) h h' a ->
  h ⊆ h' /\ (refused_callback a \/
    (cl_Nonce c = t_Nonce t /\ exists realm ck, mapRealm mapping c = Some realm /\ minted b h' c realm ck /\
       a = ({| rs_Status := 200; rs_Headers := landing_headers; rs_Cookies := [ck; deleteCookie cookieTxn];
               rs_Body := landing (t_Return t) |},
            {| ao_Status := 200; ao_Code := "ok"; ao_Reason := EmptyString; ao_Principal := cl_Username c |}))).
Proof.
  assert (forall reason, refused_callback (failCallback (failed 401 reason))) as H401
    by (intros; apply failCallback_refused; set_solver).
  unfold mint. destruct (String.eqb (cl_Nonce c) (t_Nonce t)) eqn:En; cbn [negb]; [|intros [<- <-]; by auto].
  apply String.eqb_eq in En. destruct (mapRealm mapping c) as [realm|] eqn:Em; [|intros [<- <-]; by auto].
  intros H. apply runs_ask in H as [now H]. apply runs_bind in H as (value & h1 & Hs & H).
  unfold seal_value in Hs. apply runs_ask in Hs as [[keys|] Hs]; cycle 1.
  { destruct Hs as [<- <-]. destruct H as [<- <-]. split; [set_solver|]. left. apply failCallback_refused. set_solver. }
  apply runs_ask in Hs as [[nonce|] Hs]; destruct Hs as [<- <-]; cbn [seal] in H; cycle 1.
  { destruct H as [<- <-]. split; [set_solver|]. left. apply failCallback_refused. set_solver. }
  unfold landed in H. destruct (setCookie _ _ _) as [ck|] eqn:Ec.
  - apply runs_ask in H as [[] H]. destruct H as [<- <-]. split; [set_solver|]. right. split; [done|].
    exists realm, ck. split; [done|]. split; [|done]. exists keys, nonce, now. split; [set_solver|]. split; [set_solver|].
    split; [set_solver|done].
  - destruct H as [<- <-]. split; [set_solver|]. left.
    change (with_cookies [deleteCookie cookieTxn] internal) with (failCallback (failed 503 ReasonInternal)).
    apply failCallback_refused. set_solver.
Qed.

Lemma read_exchange_status (answer : option (Z * string)) (f : Failure) :
  read_exchange answer = inr f -> af_Status f ∈ [401; 503].
Proof. unfold read_exchange. intros H. repeat case_match; simplify_eq; set_solver. Qed.

(** How a callback can end. *)
Lemma callback_ends (b : browser) (r : authRequest) (st : issuerState) (mapping : OIDCMapping)
    (h' : list (answered browserCall)) (a : response * authOutcome)
    (Hr : runs (callback b r st mapping) [] h' a) :
  refused_callback a \/
  exists before t token c realm ck body m,
    transaction_valid r before t /\ get (url_query (rq_RawQuery r)) "state" = t_State t /\
    get (url_query (rq_RawQuery r)) "error" = EmptyString /\
    requireHTTPS parseHost (doc_TokenEndpoint (is_doc st)) = true /\
    At (ToIssuer (Post (doc_TokenEndpoint (is_doc st)) (exchange_form b (get (url_query (rq_RawQuery r)) "code") (t_Verifier t))))
      (Some (200, Some body)) ∈ before /\
    decodeOne to_members body = Some m /\ asString (member "id_token" m) = Some token /\
    admitted h' before token c /\ cl_Nonce c = t_Nonce t /\ mapRealm mapping c = Some realm /\ minted b h' c realm ck /\
    a = ({| rs_Status := 200; rs_Headers := landing_headers; rs_Cookies := [ck; deleteCookie cookieTxn];
            rs_Body := landing (t_Return t) |},
         {| ao_Status := 200; ao_Code := "ok"; ao_Reason := EmptyString; ao_Principal := cl_Username c |}).
Proof.
  assert (forall reason, refused_callback (failCallback (failed 401 reason))) as H401
    by (intros; apply failCallback_refused; set_solver).
  unfold callback in Hr. apply runs_bind in Hr as (t & h1 & Ht & Hr). apply openTransaction_valid in Ht as [_ Ht].
  destruct t as [t|]; [|destruct Hr as [<- _]; by left]. specialize (Ht t eq_refl).
  destruct (String.eqb (get _ "state") _) eqn:Es; cbn [negb] in Hr; [|destruct Hr as [<- _]; by left].
  destruct (is_empty (get _ "error")) eqn:Ee; cbn [negb] in Hr; [|destruct Hr as [<- _]; by left].
  apply String.eqb_eq in Es, Ee. apply runs_bind in Hr as (token & h2 & Hx & Hr). destruct token as [token|f]; cycle 1.
  { destruct Hr as [<- _]. left. apply failCallback_refused. unfold exchange in Hx.
    apply runs_bind in Hx as (ans & h3 & _ & [Hx _]). by eapply read_exchange_status. }
  apply exchange_token in Hx as (Hs & Hh & _ & body & m & Hp & Hd & Hi).
  apply runs_bind in Hr as (c & h3 & Hv & Hr). destruct c as [c|f]; cycle 1.
  { destruct Hr as [<- _]. left. apply failCallback_refused. apply verify_token_refusal in Hv as [g Hv].
    apply verify_status in Hv. done. }
  apply verify_token_admitted in Hv as (g & Hg & Hv). destruct (runs_grows _ _ _ _ Hr) as [after Hafter].
  apply mint_ends in Hr as [Hs' [Hr|(Hn & realm & ck & Hm & Hmint & ->)]]; [by left|right].
  exists h2, t, token, c, realm, ck, body, m.
  assert (admitted h' h2 token c) as Had by (exists after, g; split; [by rewrite Hafter, Hg|done]).
  assert (transaction_valid r h2 t) as Ht'.
  { destruct Ht as (value & keys & plain & now & H1 & H2 & H3 & H4 & H5 & H6). exists value, keys, plain, now. set_solver. }
  split; [done|]. split; [done|]. split; [done|]. split; [done|]. split; [set_solver|]. by repeat (split; [done|]).
Qed.

(** C19: a callback is answered with a session only when the transaction cookie of this
    browser opened and was in time, the state is the transaction's and the issuer
    reported no error, the code was exchanged at the issuer's https token endpoint
    with the transaction's verifier, the ID token answered there verified, by the calls the
    callback itself made for it after the exchange, its nonce is the
    transaction's and its claims map to a realm: the session is of that name and
    realm, sealed under the current key.  Any other callback is refused, without
    a redirect and with nobody named.  Either way the transaction is deleted. *)
Theorem callback_session (b : browser) (r : authRequest) (st : issuerState) (mapping : OIDCMapping)
    (h' : list (answered browserCall)) (a : response * authOutcome)
    (Hr : runs (callback b r st mapping) [] h' a) :
  refused_callback a \/
  exists before t token c realm ck body m,
    transaction_valid r before t /\ get (url_query (rq_RawQuery r)) "state" = t_State t /\
    get (url_query (rq_RawQuery r)) "error" = EmptyString /\
    requireHTTPS parseHost (doc_TokenEndpoint (is_doc st)) = true /\
    At (ToIssuer (Post (doc_TokenEndpoint (is_doc st)) (exchange_form b (get (url_query (rq_RawQuery r)) "code") (t_Verifier t))))
      (Some (200, Some body)) ∈ before /\
    decodeOne to_members body = Some m /\ asString (member "id_token" m) = Some token /\
    admitted h' before token c /\ cl_Nonce c = t_Nonce t /\ mapRealm mapping c = Some realm /\ minted b h' c realm ck /\
    a = ({| rs_Status := 200; rs_Headers := landing_headers; rs_Cookies := [ck; deleteCookie cookieTxn];
            rs_Body := landing (t_Return t) |},
         {| ao_Status := 200; ao_Code := "ok"; ao_Reason := EmptyString; ao_Principal := cl_Username c |}).
Proof. by apply callback_ends. Qed.

(** The realm a session gives is the one its callback mapped the token to. *)
Lemma session_realm (b b' : browser) (r r' : authRequest) (st : issuerState) (mapping : OIDCMapping)
    (h h' : list (answered browserCall)) (a : response * authOutcome) (ck : cookie) (keys : cookieKeys) (p : Principal) :
  runs (callback b r st mapping) [] h a -> ck ∈ rs_Cookies a.1 -> ck_Name ck = cookieSession ->
  (forall k, At LoadCookieKeys k ∈ h ++ h' -> k = Some keys) ->
  (forall n e, At (Entropy n) (Some e) ∈ h -> String.length e = n) ->
  (forall t, At ReadClock t ∈ h -> 0 <= t) -> 0 <= b_sessionTTL b ->
  (forall c realm, mapRealm mapping c = Some realm -> valid_utf8 realm = true) ->
  rq_cookie r' cookieSession = Some (ck_Value ck) -> rq_Authorization r' = EmptyString ->
  runs (Authenticate (Some b') (Some mapping) r') [] h' (AuthOK p) ->
  exists c, mapRealm mapping c = Some (p_Realm p).
Proof.
  intros Hc Hck Hname Hkeys Hent Hclock Httl Hutf Hv Ha Hr.
  apply callback_ends in Hc as [(Hck' & _)|(before & t & token & c & realm & ck' & body & m & _ & _ & _ & _ & _ & _ & _ & _ & _ & Hm & Hmint & ->)].
  { rewrite Hck' in Hck. apply list_elem_of_singleton in Hck as ->. discriminate Hname. }
  cbn [fst rs_Cookies] in Hck. apply elem_of_cons in Hck as [->|Hck];
    [|apply list_elem_of_singleton in Hck as ->; discriminate Hname].
  destruct Hmint as (keys0 & nonce & now & Hk & He & Ht & Hset).
  assert (keys0 = keys) as -> by (specialize (Hkeys _ ltac:(apply elem_of_app; left; exact Hk)); congruence).
  assert (ck_Value ck' = seal_bytes (ck_current keys) nonce cookieSession
    (encode_session {| s_Principal := cl_Username c; s_Realm := realm; s_Exp := now + b_sessionTTL b |})) as Hval.
  { unfold setCookie in Hset. destruct (_ <? _); [done|]. by injection Hset as <-. }
  unfold Authenticate in Hr. rewrite Ha, Hv in Hr. cbn [is_empty String.eqb] in Hr.
  apply session_admits in Hr as (s & (keys1 & plain & t1 & Hk1 & Hopen & Hdec & _) & ->).
  rewrite (Hkeys _ ltac:(apply elem_of_app; right; exact Hk1)), Hval in Hopen.
  rewrite open_seal in Hopen; [|by apply Hent|by left]. injection Hopen as <-.
  exists c. rewrite Hm. f_equal. cbn [p_Realm]. symmetry.
  apply decode_session_realm in Hdec; [done|by apply (Hutf c)|].
  cbn [s_Exp]. unfold unix. apply Z.div_pos; [|done]. specialize (Hclock _ Ht). lia.
Qed.

(** ** A login that cannot start *)

(** A return path of the permitted length every byte of which but two is written
    as six. *)
Fixpoint repeat_char (n : nat) (c : ascii) : string :=
  match n with O => EmptyString | S n' => String c (repeat_char n' c) end.
Definition long_return : string := "/?" +:+ repeat_char 1000 "&".

Lemma long_return_kept : canonicalReturn parseHost long_return = long_return.
Proof using parseHost. vm_compute. reflexivity. Qed.

(** With that return path no login starts: the transaction that would carry it is
    too large for a cookie, and the route answers 503 as it does to an internal
    fault, although the path is within the limit the flow sets. *)
Theorem login_too_large (b : browser) (r : authRequest) (st : issuerState) (h' : list (answered browserCall))
    (a : response * authOutcome) (Hret : get (url_query (rq_RawQuery r)) "return" = long_return)
    (Hr : runs (login b r st) [] h' a) :
  byte_len long_return <= maxReturnLen /\ (a = fail (failed 503 ReasonEntropy) \/ a = internal).
Proof using parseHost.
  split; [vm_compute; discriminate|]. unfold login in Hr. rewrite Hret, long_return_kept in Hr.
  assert (forall h1 h2 x, runs random_value h1 h2 x -> (exists s, x = inl s) \/ x = inr (failed 503 ReasonEntropy)) as Hrand.
  { intros h1 h2 x H. apply runs_ask in H as [e H]. destruct H as [<- _]. destruct e; [left; by eexists|by right]. }
  apply runs_bind in Hr as (t & h1 & Ht & Hr).
  assert ((exists x, t = inl x /\ t_Return x = long_return) \/ t = inr (failed 503 ReasonEntropy)) as Hcase.
  { unfold new_transaction in Ht. do 3 (apply runs_bind in Ht as (? & ? & Hi & Ht);
      destruct (Hrand _ _ _ Hi) as [[? ->] | ->]; [clear Hi|destruct Ht as [<- _]; by right]).
    apply runs_ask in Ht as [now Ht]. destruct Ht as [<- _]. left. by eexists. }
  destruct Hcase as [(x & -> & Hx)| ->]; [|destruct Hr as [<- _]; by left].
  apply runs_bind in Hr as (value & h2 & Hs & Hr). destruct Hr as [<- _].
  unfold seal_value in Hs. apply runs_ask in Hs as [[keys|] Hs]; [|destruct Hs as [<- _]; by left].
  apply runs_ask in Hs as [[nonce|] Hs]; destruct Hs as [<- _]; cbn [seal]; [right|by left].
  unfold setCookie. pose proof (seal_bytes_large (ck_current keys) nonce cookieTxn (encode_transaction x)) as H1.
  pose proof (encode_transaction_return x) as H2. rewrite Hx in H2.
  assert (byte_len (print_string long_return) = 6004) as H3 by (vm_compute; reflexivity).
  unfold cookieMaxLen. destruct (Z.ltb_spec 4000 (byte_len (seal_bytes (ck_current keys) nonce cookieTxn (encode_transaction x))));
    [done|lia].
Qed.

(** ** The landing page *)

Definition markup (c : ascii) : bool := one_of c "<>'" || Ascii.eqb c Json.dquote.

(** Nothing in an escaped return path ends the attribute it stands in or opens a
    tag. *)
Lemma escape_html_safe (s : string) : all_bytes (fun c => negb (markup c)) (escape_html s) = true.
Proof.
  induction s as [|c s IH]; [done|]. cbn [escape_html]. rewrite all_bytes_app, IH, andb_true_r. revert c.
  apply (on_bytes (fun c => all_bytes (fun c => negb (markup c)) (escape_html_byte c))). vm_compute. reflexivity.
Qed.
End flow.

(** ** Instances *)

Definition demo_browser : browser :=
  {| b_clientID := "profgate"; b_redirectURL := "https://gate.example/auth/callback"; b_secret := EmptyString;
     b_postLogoutURL := "https://gate.example/"; b_scopes := ["openid"%string]; b_sessionTTL := 8 * hour;
     b_transactionTTL := 10 * minute |}.
Definition demo_mapping : OIDCMapping :=
  {| map_Users := []; map_Groups := []; map_DefaultRealm := "default" |}.
Definition demo_issuer : issuerState :=
  {| is_doc := Build_discoveryDocument "https://id.example" "https://id.example/keys" "https://id.example/authorize"
                 "https://id.example/token" EmptyString; is_cache := 0; is_maxStale := 24 * hour |}.
Definition demo_key : string := sum_bytes (repeat 7 32).
Definition demo_keys : cookieKeys := {| ck_current := demo_key; ck_previous := None |}.
Definition demo_nonce : string := sum_bytes (repeat 9 12).
Definition demo_transaction : transaction :=
  {| t_State := "state"; t_Nonce := EmptyString; t_Verifier := "verifier"; t_Return := "/catalog"; t_Exp := 1500 * second |}.
Definition demo_token_answer : string := print (JObj [("id_token"%string, JStr demo_token)]).
Definition demo_flow (now : time) (R : Type) (c : browserCall R) (h : list (answered browserCall)) : R :=
  match c with
  | LoadIssuer => Some demo_issuer
  | LoadCookieKeys => Some demo_keys
  | Entropy n => Some (sum_bytes (repeat 9 n))
  | ReadClock => now
  | Verifying c => demo_answers now _ c []
  | ToIssuer c => match c with Get _ => None | Post _ _ => Some (200, Some demo_token_answer) end
  | SessionIssued => tt
  end.
Definition demo_request (path query authorization : string) (cookies : string -> option string) : authRequest :=
  {| rq_Authorization := authorization; rq_FetchMode := "navigate"; rq_FetchDest := "document";
     rq_FetchSite := "same-origin"; rq_Path := path; rq_EscapedPath := path; rq_RawQuery := query; rq_cookie := cookies |}.
Definition demo_parse (token : string) : parsedJWS := ParsedJWS [{| hd_KeyID := "a"; hd_typ := None |}].
Definition demo_check (token : string) (k : keyMaterial) : option string := Some (demo_payload "2000").
Definition with_transaction (name : string) : option string :=
  if String.eqb name cookieTxn
  then Some (seal_bytes demo_key demo_nonce cookieTxn (encode_transaction demo_transaction)) else None.
Definition demo_bearer : authRequest := demo_request "/api" EmptyString ("bearer " +:+ demo_token) (fun _ => None).
Definition demo_callback : authRequest := demo_request pathCallback "state=state&code=c" EmptyString with_transaction.
Definition demo_login : authRequest :=
  demo_request pathLogin ("return=" +:+ QueryEscape long_return) EmptyString (fun _ => None).

Lemma oidc_admission_witness :
  exists g c, (run (demo_flow (1000 * second))
    (Authenticate demo_parse demo_check demo_verifier None (Some demo_mapping) demo_bearer) []).2 =
      map (lift_answered (@Verifying)) g /\
    verified demo_parse demo_check demo_verifier demo_token g c /\ cl_Username c = "ana@example"%string.
Proof.
  pose proof (run_runs (demo_flow (1000 * second))
    (Authenticate demo_parse demo_check demo_verifier None (Some demo_mapping) demo_bearer) []) as H.
  assert ((run (demo_flow (1000 * second))
    (Authenticate demo_parse demo_check demo_verifier None (Some demo_mapping) demo_bearer) []).1 =
    AuthOK {| p_Name := "ana@example"; p_Realm := "default" |}) as E by (vm_compute; reflexivity). rewrite E in H.
  destruct (oidc_admission demo_parse demo_check demo_verifier None demo_mapping demo_bearer _ _ H)
    as [(_ & scheme & token & c & Hc & _ & (g & Hg & Ha) & Hn & _)|(Hx & _)];
    [|discriminate Hx].
  assert (cut_pair " " (rq_Authorization demo_bearer) = ("bearer"%string, demo_token)) as Hd by (vm_compute; reflexivity).
  rewrite Hd in Hc. injection Hc as <- <-. assert (trim_space demo_token = demo_token) as Ht by (vm_compute; reflexivity).
  rewrite Ht in Ha. exists g, c. split; [exact Hg|]. split; [exact Ha|]. symmetry. exact Hn.
Defined.

Lemma oidc_refusals_witness : failure_ok (failed 401 ReasonScheme).
Proof.
  pose proof (run_runs (demo_flow (1000 * second))
    (Authenticate demo_parse demo_check demo_verifier None (Some demo_mapping)
      (demo_request "/api" EmptyString "Basic eA==" (fun _ => None))) []) as H.
  exact (oidc_refusals demo_parse demo_check demo_verifier None (Some demo_mapping)
    (demo_request "/api" EmptyString "Basic eA==" (fun _ => None)) _ (failed 401 ReasonScheme) H).
Defined.

Lemma session_lives_witness :
  session_answer demo_browser (demo_request "/api" EmptyString EmptyString (fun _ => None)) (Some demo_keys) (999 * second)
    (seal_bytes demo_key demo_nonce cookieSession
      (encode_session {| s_Principal := "ana"; s_Realm := "default"; s_Exp := 1000 * second + 7 |})) =
  AuthOK {| p_Name := "ana"; p_Realm := "default" |}.
Proof.
  rewrite (session_lives demo_browser (demo_request "/api" EmptyString EmptyString (fun _ => None)) demo_keys demo_key
    demo_nonce {| s_Principal := "ana"; s_Realm := "default"; s_Exp := 1000 * second + 7 |} (999 * second)).
  - reflexivity.
  - reflexivity.
  - left. reflexivity.
  - vm_compute. reflexivity.
  - vm_compute. reflexivity.
  - vm_compute. split; discriminate.
  - reflexivity.
Defined.

Lemma callback_session_witness :
  exists before t token c, transaction_valid demo_callback before t /\
    admitted demo_parse demo_check demo_verifier (run (demo_flow (1000 * second))
      (callback demo_host demo_parse demo_check demo_verifier demo_browser demo_callback demo_issuer demo_mapping) []).2
      before token c /\ cl_Nonce c = t_Nonce t.
Proof.
  pose proof (run_runs (demo_flow (1000 * second))
    (callback demo_host demo_parse demo_check demo_verifier demo_browser demo_callback demo_issuer demo_mapping) []) as H.
  assert (rs_Status (run (demo_flow (1000 * second))
    (callback demo_host demo_parse demo_check demo_verifier demo_browser demo_callback demo_issuer demo_mapping) []).1.1 = 200)
    as E by (vm_compute; reflexivity).
  destruct (callback_session demo_host demo_parse demo_check demo_verifier demo_browser demo_callback demo_issuer
    demo_mapping _ _ H) as [(_ & Hx & _)|(before & t & token & c & realm & ck & body & m & H1 & _ & _ & _ & _ & _ & _ & H2 & H3 & _)].
  - rewrite E in Hx. exfalso. revert Hx. rewrite !elem_of_cons, elem_of_nil. intros [Hx|[Hx|[]]]; discriminate Hx.
  - exists before, t, token, c. split; [exact H1|]. split; [exact H2|exact H3].
Defined.

Lemma login_too_large_witness :
  rs_Status (run (demo_flow 0) (login demo_host demo_browser demo_login demo_issuer) []).1.1 = 503.
Proof.
  pose proof (run_runs (demo_flow 0) (login demo_host demo_browser demo_login demo_issuer) []) as H.
  assert (get (url_query (rq_RawQuery demo_login)) "return" = long_return) as Hret by (vm_compute; reflexivity).
  destruct (login_too_large demo_host demo_browser demo_login demo_issuer _ _ Hret H) as [_ [-> | ->]]; reflexivity.
Defined.
