(* ===== verification/Access.v ===== *)
(** * Who the configuration lets in

    The three authenticators under a configuration [validateAuth] accepts: the
    composition of Settings.v with Basic.v, Browser.v and the disabled mode. *)

From S2P Require Import Prelude Base64 Keys Query Routes Auth Settings Utf8 Json Url Interaction Poller.
From S2P Require Import Issuer Jwks Claims Verify Cookie Wire.
From S2P Require Basic Browser.

Section access.
  Variable w : outside.
  Variable mint : Z -> option string.
  Hypothesis mint_cost : forall cost h, minBcryptCost <= cost <= maxBcryptCost -> mint cost = Some h ->
    hashCost h = inl cost.
  Variable parseSigned : string -> parsedJWS.
  Variable checkSignature : string -> keyMaterial -> option string.
  Variable c : Settings.



End access.

(** ** An instance *)


(** A bearer token, and the session its callback leaves. *)
Abbreviation demo_answering := (Browser.demo_flow (1000 * second)).





