(* ===== verification/Proxy.v ===== *)
(** * The profile proxy

    src/internal/proxy/proxy.go: one upstream fetch, as a program over what it
    asks of its environment: the transport, the header timer, the two contexts,
    the clock and the client's connection.  Every answer is possible.  The
    upstream body is what it delivers before it ends or fails; the transport's
    own settings are modelled as the values [New] gives it. *)

From S2P Require Import Prelude Discovery Server Interaction.

Definition dialTimeout : duration := 5 * second.
Definition headerDeadlineGrace : duration := 10 * second.
Definition defaultHeaderDeadline : duration := 30 * second.
Definition maxIdleConns : Z := 100.
Definition defaultIdleConnTimeout : duration := 90 * second.
Definition redirectDrainLimit : Z := Z.shiftl 64 10.

Definition codeOK : string := "ok".
Definition codeUnreachable : string := "upstream_unreachable".
Definition codeTimeout : string := "upstream_timeout".
Definition codeRedirect : string := "upstream_redirect".
Definition codeStreamFailed : string := "upstream_stream_failed".
Definition codeClientGone : string := "client_gone".

(** The only upstream response headers forwarded. *)
Definition allowedHeaders : list string :=
  ["Content-Type"; "Content-Length"; "Content-Encoding"; "Content-Disposition"; "X-Content-Type-Options"]%string.

Abbreviation headers := (gmap string (list string)).

Record Request := { rq_Target : Target; rq_Path : string; rq_Seconds : Z; rq_TargetHeaders : gmap string string }.

(** [Options]; a nil [HeaderDeadline] is the rule of the specification. *)
Record Options := { op_HeaderDeadline : option (Z -> duration); op_IdleConnTimeout : duration }.

(** What [New] fixes for every fetch. *)
Record transport := {
  tr_DisableCompression : bool; tr_DialTimeout : duration; tr_MaxIdleConns : Z; tr_IdleConnTimeout : duration;
  tr_FollowRedirects : bool
}.
Record Proxy := { px_client : transport; px_headerDeadline : Z -> duration }.

Definition specHeaderDeadline (seconds : Z) : duration :=
  if seconds =? 0 then defaultHeaderDeadline else (seconds *! second) +! headerDeadlineGrace.

Definition New (opts : Options) : Proxy :=
  let idle := if op_IdleConnTimeout opts =? 0 then defaultIdleConnTimeout else op_IdleConnTimeout opts in
  {| px_client := {| tr_DisableCompression := true; tr_DialTimeout := dialTimeout; tr_MaxIdleConns := maxIdleConns;
                     tr_IdleConnTimeout := idle; tr_FollowRedirects := false |};
     px_headerDeadline := default specHeaderDeadline (op_HeaderDeadline opts) |}.

(** [net.JoinHostPort]. *)
Definition JoinHostPort (host port : string) : string :=
  if has_byte ":" host then "[" +:+ host +:+ "]:" +:+ port else host +:+ ":" +:+ port.

Definition upstreamURL (req : Request) : string :=
  "http://" +:+ JoinHostPort (tg_PodIP (rq_Target req)) (pretty (tg_Port (rq_Target req))) +:+ rq_Path req +:+
  (if 0 <? rq_Seconds req then "?seconds=" +:+ pretty (rq_Seconds req) else EmptyString).

(** ** The environment *)

Inductive ctxErr := Canceled | DeadlineExceeded.
#[export] Instance ctxErr_dec : EqDecision ctxErr.
Proof. solve_decision. Defined.

(** How a body ends: at its end, or with an error, which may be that of a
    passed deadline. *)
Inductive bodyEnd := EOF | BodyFailed (deadline : bool).

Record response := {
  resp_StatusCode : Z; resp_Header : headers; resp_Body : list string; resp_End : bodyEnd
}.

(** A call of [Do]; [RoundTrip] answers nothing when it fails, [StopTimer]
    that the timer had not fired, [WriteBody] an error that may be that of the
    write deadline. *)
Inductive proxyCall : Type -> Type :=
  | NewRequest (url : string) : proxyCall bool
  | StartTimer (d : duration) : proxyCall unit
  | RoundTrip (url : string) : proxyCall (option response)
  | StopTimer : proxyCall bool
  | CloseBody : proxyCall unit
  | Drain (limit : Z) : proxyCall unit
  | SetWriteDeadline (at_ : time) : proxyCall unit
  | WriteHeader (status : Z) (h : headers) : proxyCall unit
  | WriteBody (chunk : string) : proxyCall (option bool)
  | CtxErr : proxyCall (option ctxErr)
  | ReqCtxErr : proxyCall (option ctxErr)
  | CauseHeaderDeadline : proxyCall bool
  | Now : proxyCall time
  | CancelReq : proxyCall unit.

Abbreviation pxprog := (itx proxyCall).

(** ** One fetch *)

Definition outcome (code : string) (status : Z) (committed : bool) : Outcome :=
  {| out_Code := code; out_Status := status; out_Committed := committed |}.

Definition classifyBeforeHeaders : pxprog Outcome :=
  cause ← ask CauseHeaderDeadline;
  e ← ask CtxErr;
  if (cause : bool) || bool_decide (e = Some DeadlineExceeded) then mret (outcome codeTimeout 504 false)
  else if bool_decide (e = Some Canceled) then mret (outcome codeClientGone 0 false)
  else mret (outcome codeUnreachable 502 false).

(** [Header.Add] of every value of a name. *)
Definition addHeader (from : headers) (h : headers) (name : string) : headers :=
  match from !! name with
  | Some (v :: vs) => <[name := default [] (h !! name) ++ v :: vs]> h
  | _ => h
  end.
(** The header sent: what the server had set, the allowed ones added, then the
    target's set over them. *)
Definition forwardedHeader (resp : headers) (targets : gmap string string) (h : headers) : headers :=
  ((fun v => [v]) <$> targets) ∪ foldl (addHeader resp) h allowedHeaders.

(** [io.Copy] from a [contextReader]: nothing, or the error it stopped at and
    whether that is a passed deadline's. *)
Fixpoint copyBody (chunks : list string) (e : bodyEnd) : pxprog (option bool) :=
  done ← ask ReqCtxErr;
  match (done : option ctxErr) with
  | Some _ => mret (Some false)
  | None =>
      match chunks with
      | [] => mret (match e with EOF => None | BodyFailed d => Some d end)
      | c :: chunks =>
          w ← ask (WriteBody c);
          match (w : option bool) with Some d => mret (Some d) | None => copyBody chunks e end
      end
  end.

Section fetch.
  Variable p : Proxy.
  (** The end of the caller's budget, when its context has one. *)
  Variable budget : option time.

Definition budgetPassed : pxprog bool :=
  match budget with
  | None => mret false
  | Some e => now ← ask Now; mret (e <=? now)
  end.

(** What a copy that stopped is called. *)
Definition classifyCopy (deadline : bool) : pxprog string :=
  if deadline then mret codeStreamFailed
  else
    passed ← budgetPassed;
    if (passed : bool) then mret codeStreamFailed
    else
      e ← ask CtxErr;
      mret (if bool_decide ((e : option ctxErr) = Some Canceled) then codeClientGone else codeStreamFailed).

Definition statusCode (status : Z) : string :=
  if 400 <=? status then "upstream_" +:+ pretty status else codeOK.

Definition forward (h : headers) (req : Request) (resp : response) : pxprog Outcome :=
  let h := forwardedHeader (resp_Header resp) (rq_TargetHeaders req) h in
  _ ← match budget with Some e => ask (SetWriteDeadline e) | None => mret tt end;
  _ ← ask (WriteHeader (resp_StatusCode resp) h);
  e ← copyBody (resp_Body resp) (resp_End resp);
  code ← match e with None => mret (statusCode (resp_StatusCode resp)) | Some d => classifyCopy d end;
  mret (outcome code (resp_StatusCode resp) true).

(** What [Do] does between its deferred calls. *)
Definition fetch (h : headers) (req : Request) : pxprog Outcome :=
  let url := upstreamURL req in
  ok ← ask (NewRequest url);
  if negb ok then mret (outcome codeUnreachable 502 false)
  else
    _ ← ask (StartTimer (px_headerDeadline p (rq_Seconds req)));
    resp ← ask (RoundTrip url);
    stopped ← ask StopTimer;
    if negb stopped then
      _ ← match (resp : option response) with Some _ => ask CloseBody | None => mret tt end;
      mret (outcome codeTimeout 504 false)
    else
      match resp with
      | None => classifyBeforeHeaders
      | Some r =>
          o ← (if (300 <=? resp_StatusCode r) && (resp_StatusCode r <=? 399) then
                 _ ← ask (Drain redirectDrainLimit);
                 mret (outcome codeRedirect 502 false)
               else forward h req r);
          _ ← ask CloseBody;
          mret o
      end.

Definition Do (h : headers) (req : Request) : pxprog Outcome :=
  o ← fetch h req;
  _ ← ask CancelReq;
  mret o.
End fetch.

(** ** What reaches the client *)

Inductive wrote := WroteHeader (status : Z) (h : headers) | WroteChunk (c : string).

Definition wrote_by (e : answered proxyCall) : list wrote :=
  match e with
  | At (WriteHeader s h) _ => [WroteHeader s h]
  | At (WriteBody c) _ => [WroteChunk c]
  | _ => []
  end.
(** The writes of an execution, oldest first. *)
Fixpoint written (log : list (answered proxyCall)) : list wrote :=
  match log with [] => [] | e :: log => written log ++ wrote_by e end.

(** Why a copy stopped, [d] saying whether at a passed deadline: the request's
    context ended, the client could not be written to, or the upstream's body
    failed once all it delivered was written. *)
Definition stopped (cs : list string) (e : bodyEnd) (k : nat) (log : list (answered proxyCall)) (d : bool) : Prop :=
  (d = false /\ exists x, At ReqCtxErr (Some x) ∈ log) \/
  (exists c, At (WriteBody c) (Some d) ∈ log) \/
  (e = BodyFailed d /\ take k cs = cs).

(** How a copy that ended goes with what was written and what was left. *)
Lemma copyBody_writes (cs : list string) (e : bodyEnd) log log' r :
  runs (copyBody cs e) log log' r ->
  exists k, written log' = written log ++ (WroteChunk <$> take k cs) /\
    match r with None => take k cs = cs /\ e = EOF | Some d => stopped cs e k log' d end.
Proof.
  revert log. induction cs as [|c cs IH]; intros log H; cbn [copyBody] in H; apply runs_ask in H as [[x|] H].
  - destruct H as [<- <-]. exists O. cbn. rewrite !app_nil_r. split; [done|]. left. split; [done|]. exists x. left.
  - destruct H as [<- <-]. exists O. cbn. rewrite !app_nil_r. split; [done|].
    destruct e as [|d]; [done|]. right; right. done.
  - destruct H as [<- <-]. exists O. cbn. rewrite !app_nil_r. split; [done|]. left. split; [done|]. exists x. left.
  - apply runs_ask in H as [[d|] H].
    + destruct H as [<- <-]. exists 1%nat. cbn. rewrite !app_nil_r, take_0. split; [done|]. right; left. exists c. left.
    + destruct (IH _ H) as (k & Hw & Hn). exists (S k). cbn [written wrote_by take fmap list_fmap] in Hw |- *.
      rewrite app_nil_r, <-app_assoc in Hw. split; [done|]. destruct r as [d|].
      * destruct Hn as [Hn|[Hn|[-> Hn]]]; [by left|right; by left|right; right; split; [done|cbn; by rewrite Hn]].
      * destruct Hn as [-> ->]. done.
Qed.

Section outcomes.
  Variable p : Proxy.
  Variable budget : option time.

(** A client that left within the budget, and a copy that stopped for another
    reason. *)
Definition client_left (log : list (answered proxyCall)) : Prop :=
  At CtxErr (Some Canceled) ∈ log /\ forall e, budget = Some e -> exists now, At Now now ∈ log /\ now < e.
Definition otherwise (log : list (answered proxyCall)) (d : bool) : Prop :=
  d = true \/ (exists e now, budget = Some e /\ At Now now ∈ log /\ e <= now) \/
  (exists x, At CtxErr x ∈ log /\ x <> Some Canceled).

Lemma classifyCopy_code (d : bool) log log' code :
  runs (classifyCopy budget d) log log' code ->
  written log' = written log /\
  ((code = codeStreamFailed /\ otherwise log' d) \/ (code = codeClientGone /\ d = false /\ client_left log')).
Proof.
  unfold classifyCopy, client_left, otherwise. destruct d; [intros [<- <-]; auto|]. intros H.
  apply runs_bind in H as (passed & log1 & H1 & H).
  assert (written log1 = written log /\
    (if passed then exists e now, budget = Some e /\ At Now now ∈ log1 /\ e <= now
     else forall e, budget = Some e -> exists now, At Now now ∈ log1 /\ now < e)) as [Hw Hb].
  { unfold budgetPassed in H1. destruct budget as [e|]; [|destruct H1 as [<- <-]; naive_solver].
    apply runs_ask in H1 as [now [<- <-]]. cbn. rewrite app_nil_r. split; [done|].
    destruct (e <=? now) eqn:E; to_prop; [exists e, now; split; [done|split; [logged|done]]|].
    intros e' [= <-]. exists now. split; [logged|lia]. }
  destruct passed; [destruct H as [<- <-]; split; [done|]; left; split; [done|]; right; by left|].
  apply runs_ask in H as [x [<- <-]]. cbn [written wrote_by]. rewrite app_nil_r. split; [done|].
  case_bool_decide as Hx.
  - right. split; [done|]. split; [done|]. rewrite Hx. split; [logged|].
    intros e He. destruct (Hb e He) as (now & H1' & H2'). exists now. split; [by right|done].
  - left. split; [done|]. right; right. exists x. split; [logged|done].
Qed.

(** The outcomes that leave the answer to the caller, each with its cause. *)
Inductive unforwarded (req : Request) (log : list (answered proxyCall)) : Outcome -> Prop :=
  | no_request : At (NewRequest (upstreamURL req)) false ∈ log ->
      unforwarded req log (outcome codeUnreachable 502 false)
  | deadline_fired : At StopTimer false ∈ log -> unforwarded req log (outcome codeTimeout 504 false)
  | no_answer_in_time : At (RoundTrip (upstreamURL req)) None ∈ log -> At StopTimer true ∈ log ->
      At CauseHeaderDeadline true ∈ log \/ At CtxErr (Some DeadlineExceeded) ∈ log ->
      unforwarded req log (outcome codeTimeout 504 false)
  | no_answer_gone : At (RoundTrip (upstreamURL req)) None ∈ log -> At StopTimer true ∈ log ->
      At CauseHeaderDeadline false ∈ log -> At CtxErr (Some Canceled) ∈ log ->
      unforwarded req log (outcome codeClientGone 0 false)
  | no_answer : At (RoundTrip (upstreamURL req)) None ∈ log -> At StopTimer true ∈ log ->
      At CauseHeaderDeadline false ∈ log -> At CtxErr None ∈ log ->
      unforwarded req log (outcome codeUnreachable 502 false)
  | redirected resp : At (RoundTrip (upstreamURL req)) (Some resp) ∈ log -> At StopTimer true ∈ log ->
      300 <= resp_StatusCode resp <= 399 -> unforwarded req log (outcome codeRedirect 502 false).

(** What an outcome says of the execution [log] it ends. *)
Definition outcome_ok (h : headers) (req : Request) (log : list (answered proxyCall)) (o : Outcome) : Prop :=
  if out_Committed o then
    exists resp k, At (RoundTrip (upstreamURL req)) (Some resp) ∈ log /\ At StopTimer true ∈ log /\
      ~ 300 <= resp_StatusCode resp <= 399 /\ out_Status o = resp_StatusCode resp /\
      written log = WroteHeader (resp_StatusCode resp) (forwardedHeader (resp_Header resp) (rq_TargetHeaders req) h)
        :: (WroteChunk <$> take k (resp_Body resp)) /\
      ((out_Code o = statusCode (resp_StatusCode resp) /\ take k (resp_Body resp) = resp_Body resp /\
          resp_End resp = EOF) \/
       exists d, stopped (resp_Body resp) (resp_End resp) k log d /\
         ((out_Code o = codeStreamFailed /\ otherwise log d) \/
          (out_Code o = codeClientGone /\ d = false /\ client_left log)))
  else written log = [] /\ unforwarded req log o.

(** More calls that write nothing change nothing of it. *)
Lemma client_left_more log x : client_left log -> client_left (x :: log).
Proof.
  intros [H1 H2]. split; [by right|]. intros e He. destruct (H2 e He) as (now & ? & ?). exists now. split; [by right|done].
Qed.
Lemma otherwise_more log x (d : bool) : otherwise log d -> otherwise (x :: log) d.
Proof.
  intros [H|[(e & now & H1 & H2 & H3)|(y & H1 & H2)]]; [by left|right; left|right; right].
  - exists e, now. split; [done|]. split; [by right|done].
  - exists y. split; [by right|done].
Qed.
Lemma stopped_more cs e k g log (d : bool) : stopped cs e k log d -> stopped cs e k (g ++ log) d.
Proof.
  intros [[H (x & Hx)]|[(c & H)|H]]; [left|right; left|right; by right].
  - split; [done|]. exists x. apply elem_of_app. by right.
  - exists c. apply elem_of_app. by right.
Qed.
Lemma unforwarded_more req log x o : unforwarded req log o -> unforwarded req (x :: log) o.
Proof.
  intros [H|H|H1 H2 [H3|H3]|H1 H2 H3 H4|H1 H2 H3 H4|resp H1 H2 H3].
  - apply no_request. by right.
  - apply deadline_fired. by right.
  - apply no_answer_in_time; [by right|by right|left; by right].
  - apply no_answer_in_time; [by right|by right|right; by right].
  - apply no_answer_gone; by right.
  - apply no_answer; by right.
  - apply (redirected _ _ resp); [by right|by right|done].
Qed.
Lemma outcome_ok_quiet h req log o R (c : proxyCall R) (r : R) :
  wrote_by (At c r) = [] -> outcome_ok h req log o -> outcome_ok h req (At c r :: log) o.
Proof.
  unfold outcome_ok. cbn [written]. intros -> H. rewrite app_nil_r.
  destruct (out_Committed o); [|split; [apply H|apply unforwarded_more, H]].
  destruct H as (resp & k & H1 & H2 & H3 & H4 & H5 & H6). exists resp, k.
  split_and!; [by right|by right|done..|]. destruct H6 as [H6|(d & H6 & H7)]; [by left|right]. exists d.
  split; [by apply (stopped_more _ _ _ [_])|].
  destruct H7 as [[H7 H8]|(H7 & H8 & H9)].
  - left. split; [done|by apply otherwise_more].
  - right. split; [done|]. split; [done|by apply client_left_more].
Qed.

Lemma classifyBeforeHeaders_ok h req log log' o :
  written log = [] -> At (RoundTrip (upstreamURL req)) None ∈ log -> At StopTimer true ∈ log ->
  runs classifyBeforeHeaders log log' o -> outcome_ok h req log' o.
Proof.
  intros Hw H1 H2 H. unfold classifyBeforeHeaders in H. apply runs_ask in H as [cause H]. apply runs_ask in H as [e H].
  assert (forall x, x ∈ log -> x ∈ At CtxErr e :: At CauseHeaderDeadline cause :: log) as Hin by (intros; by do 2 right).
  destruct (cause || bool_decide (e = Some DeadlineExceeded)) eqn:E.
  - destruct H as [<- <-]. split; [cbn; by rewrite Hw|]. apply no_answer_in_time; [by apply Hin|by apply Hin|].
    apply orb_true_iff in E as [->|E]; to_prop; [left; logged|subst e; right; logged].
  - apply orb_false_iff in E as [-> E]. to_prop. case_bool_decide as Hc.
    + destruct H as [<- <-]. subst e. split; [cbn; by rewrite Hw|]. apply no_answer_gone; [by apply Hin|by apply Hin|logged|logged].
    + destruct H as [<- <-]. split; [cbn; by rewrite Hw|]. apply no_answer; [by apply Hin|by apply Hin|logged|].
      destruct e as [[|]|]; [done|done|logged].
Qed.

Lemma forward_ok h req resp log log' o :
  written log = [] -> At (RoundTrip (upstreamURL req)) (Some resp) ∈ log -> At StopTimer true ∈ log ->
  ~ 300 <= resp_StatusCode resp <= 399 -> runs (forward budget h req resp) log log' o -> outcome_ok h req log' o.
Proof.
  intros Hw H1 H2 H3 H. pose proof (runs_grows _ _ _ _ H) as [g Hg]. unfold forward in H.
  apply runs_bind in H as ([] & log1 & Hd & H).
  assert (written log1 = []) as Hw1.
  { destruct budget as [e|]; [|by destruct Hd as [_ <-]]. destruct Hd as [[] [_ <-]]. cbn. by rewrite Hw. }
  apply runs_ask in H as [[] H]. apply runs_bind in H as (r & log2 & Hc & H).
  apply copyBody_writes in Hc as (k & Hk & Hn). cbn [written wrote_by] in Hk.
  rewrite Hw1 in Hk. apply runs_bind in H as (code & log3 & Hf & [<- <-]).
  assert (exists g, log3 = g ++ log2) as [g3 Hg3] by by eapply runs_grows.
  assert (forall x, x ∈ log -> x ∈ log3) as Hsub by (intros x Hx; rewrite Hg; apply elem_of_app; by right).
  unfold outcome_ok. cbn [outcome out_Committed out_Status out_Code]. exists resp, k.
  split_and!; [by apply Hsub|by apply Hsub|done|done| |].
  - assert (written log3 = written log2) as ->; [|done].
    destruct r as [d|]; [by apply classifyCopy_code in Hf as [-> _]|by destruct Hf as [_ <-]].
  - destruct r as [d|]; [|destruct Hf as [<- <-]; by left]. right. exists d.
    split; [rewrite Hg3; by apply stopped_more|]. by apply classifyCopy_code in Hf as [_ Hf].
Qed.

(** C32: nothing is written of an upstream answer that is not forwarded, and the
    caller is left the outcome of its cause: a timeout when the header deadline
    fired or the budget passed, the client gone when its context was cancelled
    and neither had happened, a redirect when the upstream answered one, and
    unreachable otherwise.  An answer that is forwarded came before the header
    deadline fired, is no redirect, and goes out as its status, the forwarded
    header and then its body; the outcome has the upstream's code only when the
    body went out whole, and where the copy stopped it says the client is gone
    exactly when no deadline stopped it, the budget had not passed and its
    context was cancelled, and that the stream failed otherwise. *)
Theorem nothing_or_forwarded (h : headers) (req : Request) (log : list (answered proxyCall)) (o : Outcome)
    (Hr : runs (Do p budget h req) [] log o) : outcome_ok h req log o.
Proof.
  unfold Do in Hr. apply runs_bind in Hr as (o' & log1 & H & Hr). apply runs_ask in Hr as [[] [<- <-]].
  apply outcome_ok_quiet; [done|]. rename o' into o. unfold fetch in H.
  apply runs_ask in H as [[] H]; [|destruct H as [<- <-]; split; [done|apply no_request; logged]]. cbn [negb] in H.
  apply runs_ask in H as [[] H]. apply runs_ask in H as [resp H]. apply runs_ask in H as [[] H]; cbn [negb] in H.
  2: { destruct resp as [r|]; [destruct H as [[] [<- <-]]|destruct H as [<- <-]];
       (split; [done|apply deadline_fired; logged]). }
  destruct resp as [r|]; [|eapply classifyBeforeHeaders_ok; [..|exact H]; [done|logged|logged]].
  apply runs_bind in H as (o' & log2 & H & Hc). apply runs_ask in Hc as [[] [<- <-]].
  apply outcome_ok_quiet; [done|]. destruct (_ && _) eqn:E.
  - destruct H as [[] [<- <-]]. split; [done|]. apply (redirected _ _ r); [logged|logged|]. to_prop. lia.
  - eapply forward_ok; [..|exact H]; [done|logged|logged|]. apply andb_false_iff in E. to_prop. lia.
Qed.
End outcomes.

(** ** The header sent, and its deadline *)

Lemma addHeader_lookup (from : headers) (h : headers) (name key : string) :
  addHeader from h name !! key =
    if decide (name = key) then
      match from !! name with Some (v :: vs) => Some (default [] (h !! name) ++ v :: vs) | _ => h !! key end
    else h !! key.
Proof.
  unfold addHeader. destruct (from !! name) as [[|v vs]|]; case_decide as E; subst; try done.
  - by rewrite lookup_insert_eq.
  - by rewrite lookup_insert_ne.
Qed.

Lemma foldl_addHeader (from : headers) (names : list string) (h : headers) (key : string) :
  NoDup names ->
  foldl (addHeader from) h names !! key =
    if decide (key ∈ names) then
      match from !! key with Some (v :: vs) => Some (default [] (h !! key) ++ v :: vs) | _ => h !! key end
    else h !! key.
Proof.
  revert h. induction names as [|n names IH]; intros h Hd; cbn [foldl]; [by rewrite decide_False by set_solver|].
  apply NoDup_cons in Hd as [Hn Hd]. rewrite IH by done. rewrite addHeader_lookup.
  destruct (decide (n = key)) as [<-|Hne].
  - rewrite decide_False by done. by rewrite decide_True by set_solver.
  - destruct (decide (key ∈ names)); [by rewrite decide_True by set_solver|].
    by rewrite decide_False by set_solver.
Qed.

(** The header a client gets: the target's fields as set, the allowed fields of
    the upstream added to what the server had, and nothing else of the upstream. *)
Theorem forwardedHeader_spec (resp h : headers) (targets : gmap string string) (key : string) :
  forwardedHeader resp targets h !! key =
    match targets !! key, resp !! key with
    | Some v, _ => Some [v]
    | None, Some (v :: vs) =>
        if bool_decide (key ∈ allowedHeaders) then Some (default [] (h !! key) ++ v :: vs) else h !! key
    | None, _ => h !! key
    end.
Proof.
  unfold forwardedHeader. rewrite lookup_union, lookup_fmap, foldl_addHeader.
  - destruct (targets !! key) as [v|]; cbn; [by destruct (if decide _ then _ else _)|].
    rewrite (left_id_L None _). case_bool_decide as E; [rewrite decide_True by done|rewrite decide_False by done];
      by destruct (resp !! key) as [[|v vs]|].
  - apply (bool_decide_unpack _). by vm_compute.
Qed.

(** The deadline for headers outlasts the profile it waits for, for every
    duration that does not overflow. *)
Lemma specHeaderDeadline_exact (seconds : Z) :
  0 < seconds <= 9223372026 ->
  specHeaderDeadline seconds = seconds * second + 10 * second /\ seconds * second < specHeaderDeadline seconds.
Proof.
  intros H. unfold specHeaderDeadline, headerDeadlineGrace, second. rewrite (proj2 (Z.eqb_neq _ _)) by lia.
  rewrite (wrap64_id (seconds * _)) by in64. rewrite wrap64_id by in64. lia.
Qed.

(** ** Instances *)

Definition demo_target : Target :=
  {| tg_Namespace := "shop"; tg_Service := "api"; tg_Pod := "api-0"; tg_Node := "n1"; tg_PodIP := "10.0.0.7";
     tg_Port := 6060; tg_Version := "1"; tg_UID := "u1" |}.
Definition demo_request : Request :=
  {| rq_Target := demo_target; rq_Path := "/debug/pprof/profile"; rq_Seconds := 30;
     rq_TargetHeaders := {[ "X-Pprof-Target-Pod"%string := "api-0"%string ]} |}.
Definition demo_response : response :=
  {| resp_StatusCode := 200;
     resp_Header := {[ "Content-Type"%string := ["application/octet-stream"%string];
                       "Set-Cookie"%string := ["a=b"%string] ]};
     resp_Body := ["prof"; "ile"]%string; resp_End := EOF |}.

(** A client whose connection fails at the second chunk, having left. *)
Definition demo_answers (R : Type) (c : proxyCall R) (log : list (answered proxyCall)) : R :=
  match c in proxyCall R return R with
  | NewRequest _ => true
  | StartTimer _ => tt
  | RoundTrip _ => Some demo_response
  | StopTimer => true
  | CloseBody => tt
  | Drain _ => tt
  | SetWriteDeadline _ => tt
  | WriteHeader _ _ => tt
  | WriteBody c => if String.eqb c "ile" then Some false else None
  | CtxErr => Some Canceled
  | ReqCtxErr => None
  | CauseHeaderDeadline => false
  | Now => 10 * second
  | CancelReq => tt
  end.
Definition demo_proxy : Proxy := New {| op_HeaderDeadline := None; op_IdleConnTimeout := 0 |}.
Definition demo_run : Outcome * list (answered proxyCall) :=
  run demo_answers (Do demo_proxy (Some (60 * second)) ∅ demo_request) [].

Example demo_outcome : demo_run.1 = outcome codeClientGone 200 true.
Proof. by vm_compute. Qed.
Example demo_url : upstreamURL demo_request = "http://10.0.0.7:6060/debug/pprof/profile?seconds=30"%string.
Proof. by vm_compute. Qed.

Lemma nothing_or_forwarded_witness : outcome_ok (Some (60 * second)) ∅ demo_request demo_run.2 demo_run.1.
Proof.
  apply (nothing_or_forwarded demo_proxy (Some (60 * second)) ∅ demo_request demo_run.2 demo_run.1).
  exact (run_runs demo_answers (Do demo_proxy (Some (60 * second)) ∅ demo_request) []).
Defined.
