(* ===== verification/Memlimit.v ===== *)
(** * The soft memory limit

    src/internal/config/memlimit.go: the limit a collecting process sets, from
    the container figure and the memory limit of its own cgroup.  The file
    system is a function from a path to what a read of it gives. *)

From S2P Require Import Prelude Config Routes.

Definition softLimitNumerator : Z := 9.
Definition softLimitDenominator : Z := 10.
Definition cgroupV1Unlimited : Z := Z.shiftl 1 62.
Definition procCgroup : string := "proc/self/cgroup".
Definition procMountinfo : string := "proc/self/mountinfo".
Definition cgroupV2LimitFile : string := "memory.max".
Definition cgroupV1LimitFile : string := "memory.limit_in_bytes".

(** ** Text *)

Definition newline : ascii := ascii_of_nat 10.
Definition backslash : ascii := ascii_of_nat 92.

(** [strings.Fields]; [skip] bytes remain of the space being passed, [cur] is the
    field being read. *)
Definition space_length (s : string) : option nat :=
  first_some (fun r => if has_prefix r s then Some (String.length r) else None) space_runes.
Definition flush (cur : string) : list string := if String.eqb cur EmptyString then [] else [cur].
Fixpoint fields_go (skip : nat) (cur s : string) : list string :=
  match s with
  | EmptyString => flush cur
  | String c s' =>
      match skip with
      | S n => fields_go n cur s'
      | O =>
          match space_length s with
          | Some n => flush cur ++ fields_go (n - 1) EmptyString s'
          | None => fields_go 0 (cur +:+ String c EmptyString) s'
          end
      end
  end.
Definition Fields (s : string) : list string := fields_go 0 EmptyString s.

(** [path/filepath]'s [Clean] and [Join]; what is kept so far newest first. *)
Fixpoint clean_elems (rooted : bool) (kept elems : list string) : list string :=
  match elems with
  | [] => rev kept
  | e :: elems =>
      if String.eqb e EmptyString || String.eqb e "." then clean_elems rooted kept elems
      else if String.eqb e ".." then
        match kept with
        | k :: kept' => if String.eqb k ".." then clean_elems rooted (".." :: kept) elems
                        else clean_elems rooted kept' elems
        | [] => clean_elems rooted (if rooted then [] else [".."%string]) elems
        end
      else clean_elems rooted (e :: kept) elems
  end%string.
Definition fileClean (p : string) : string :=
  let rooted := has_prefix "/" p in
  let elems := clean_elems rooted [] (split_at "/" p) in
  if rooted then String "/" (join_with "/" elems)
  else match elems with [] => "." | _ => join_with "/" elems end.
Definition fileJoin (elems : list string) : string :=
  match filter (fun e => e <> EmptyString) elems with
  | [] => EmptyString
  | l => fileClean (join_with "/" l)
  end.

(** [hasOption]. *)
Definition hasOption (options name : string) : bool := existsb (fun o => String.eqb o name) (split_at "," options).

(** [pathComponents]. *)
Definition pathComponents (p : string) : list string :=
  filter (fun c => c <> EmptyString /\ c <> "."%string) (split_at "/" p).

(** [strconv.ParseUint(_, 8, 8)] of three bytes. *)
Definition octal_digit (c : ascii) : option nat :=
  let n := nat_of_ascii c in if (48 <=? n)%nat && (n <=? 55)%nat then Some (n - 48)%nat else None.
Definition octal3 (a b c : ascii) : option ascii :=
  x ← octal_digit a; y ← octal_digit b; z ← octal_digit c;
  let v := (64 * x + 8 * y + z)%nat in if (v <? 256)%nat then Some (ascii_of_nat v) else None.

(** [unescapeMountField]: the one pass, which copies a field without a
    backslash. *)
Fixpoint unescapeMountField (field : string) : string :=
  match field with
  | EmptyString => EmptyString
  | String d rest =>
      match rest with
      | String a (String b (String c rest')) =>
          if Ascii.eqb d backslash then
            match octal3 a b c with
            | Some v => String v (unescapeMountField rest')
            | None => String d (unescapeMountField rest)
            end
          else String d (unescapeMountField rest)
      | _ => String d (unescapeMountField rest)
      end
  end.

(** ** The cgroup of the process *)

Record cgroupMount := { m_root : string; m_point : string }.

(** [strings.SplitN(_, ":", 3)] of a line with three parts. *)
Definition split3 (line : string) : option (string * string * string) :=
  '(id, r) ← cut ":" line; '(controllers, path) ← cut ":" r; Some (id, controllers, path).

(** The loop of [cgroupMembership]: [unified] is the version 2 membership met so
    far; the answer is the path and whether it is of version 2. *)
Fixpoint membership_of (unified : option string) (lines : list string) : option (string * bool) :=
  match lines with
  | [] => path ← unified; Some (path, true)
  | line :: lines =>
      match split3 (trim_space line) with
      | None => membership_of unified lines
      | Some (id, controllers, path) =>
          if negb (String.eqb controllers EmptyString) then
            if hasOption controllers "memory" then Some (path, false) else membership_of unified lines
          else if String.eqb id "0" && bool_decide (unified = None) then membership_of (Some path) lines
          else membership_of unified lines
      end
  end.

(** The loop's body in [cgroupMounts]; [fields] past the separator's place. *)
Fixpoint index_of (f : string) (l : list string) : option nat :=
  match l with
  | [] => None
  | x :: l => if String.eqb x f then Some O else S <$> index_of f l
  end.
Definition mount_of (v2 : bool) (line : string) : option cgroupMount :=
  let fields := Fields line in
  sep ← index_of "-" fields;
  if (sep <? 6)%nat || (length fields <=? sep + 3)%nat then None
  else
    fstype ← fields !! (sep + 1)%nat;
    superopts ← fields !! (sep + 3)%nat;
    if (if v2 : bool then String.eqb fstype "cgroup2" else String.eqb fstype "cgroup" && hasOption superopts "memory")
    then
      root ← fields !! 3%nat;
      point ← fields !! 4%nat;
      Some {| m_root := unescapeMountField root; m_point := unescapeMountField point |}
    else None.

(** [cgroupPath]. *)
Definition cgroupPath (m : cgroupMount) (membership : string) : option string :=
  let mountRoot := pathComponents (m_root m) in
  let want := pathComponents membership in
  if (length want <? length mountRoot)%nat then None
  else if negb (bool_decide (take (length mountRoot) want = mountRoot)) then None
  else
    let suffix := drop (length mountRoot) want in
    if existsb (fun c => String.eqb c "..") suffix then None else Some (fileJoin (m_point m :: suffix)).

Section limits.
  (** What [os.ReadFile] gives; nothing when it fails. *)
  Variable ReadFile : string -> option string.

Definition readUnder (root name : string) : option string := ReadFile (fileJoin [root; name]).

Definition cgroupMembership (root : string) : option (string * bool) :=
  body ← readUnder root procCgroup; membership_of None (split_at newline body).

Definition cgroupMounts (root : string) (v2 : bool) : list cgroupMount :=
  match readUnder root procMountinfo with
  | None => []
  | Some body => omap (mount_of v2) (split_at newline body)
  end.

Definition readCgroupLimit (path : string) (v2 : bool) : option Z :=
  body ← ReadFile path;
  let text := trim_space body in
  if v2 && String.eqb text "max" then None
  else
    match atoi text with
    | None => None
    | Some value =>
        if value <=? 0 then None
        else if negb v2 && (cgroupV1Unlimited <=? value) then None
        else Some value
    end.

(** [cgroupMemoryLimit]: the first mount that exposes the membership decides. *)
Definition cgroupMemoryLimit (root : string) : option Z :=
  '(membership, v2) ← cgroupMembership root;
  let want := if (v2 : bool) then cgroupV2LimitFile else cgroupV1LimitFile in
  dir ← first_some (fun m => cgroupPath m membership) (cgroupMounts root v2);
  readCgroupLimit (fileJoin [root; dir; want]) v2.

(** [softMemoryLimit]; nothing where the process collects nothing. *)
Definition softMemoryLimit (p : PGOConfig) (root : string) : option Z :=
  if negb (pgo_Enabled p) then None
  else
    let figure := GatewayMemoryBytes p in
    let figure := match cgroupMemoryLimit root with
                  | Some limit => if limit <? figure then limit else figure
                  | None => figure
                  end in
    Some ((figure /! softLimitDenominator) *! softLimitNumerator).
End limits.

(** ** The membership *)

Lemma first_some_cons {A B} (f : A -> option B) (x : A) (l : list A) :
  first_some f (x :: l) = match f x with Some y => Some y | None => first_some f l end.
Proof. done. Qed.

(** The memberships a line names. *)
Definition v1_of (line : string) : option string :=
  '(_, controllers, path) ← split3 (trim_space line);
  if negb (String.eqb controllers EmptyString) && hasOption controllers "memory" then Some path else None.
Definition v2_of (line : string) : option string :=
  '(id, controllers, path) ← split3 (trim_space line);
  if String.eqb controllers EmptyString && String.eqb id "0" then Some path else None.

(** The first version 1 memory membership wins wherever it stands; without one,
    the first version 2 membership. *)
Lemma membership_of_spec (lines : list string) (unified : option string) :
  membership_of unified lines =
    match first_some v1_of lines with
    | Some path => Some (path, false)
    | None => path ← (match unified with Some p => Some p | None => first_some v2_of lines end); Some (path, true)
    end.
Proof.
  revert unified. induction lines as [|line lines IH]; intros unified; cbn [membership_of first_some].
  { by destruct unified. }
  unfold v1_of at 1, v2_of at 1. destruct (split3 (trim_space line)) as [[[id controllers] path]|]; cbn [mbind option_bind].
  2: { rewrite IH. by destruct unified. }
  destruct (String.eqb controllers EmptyString); cbn [negb andb].
  - destruct (String.eqb id "0"); cbn [andb]; [|rewrite IH; by destruct unified].
    case_bool_decide as E; [subst|]; rewrite IH; [done|]. by destruct unified.
  - destruct (hasOption controllers "memory"); [done|]. rewrite IH. by destruct unified.
Qed.

(** ** The directory *)

Lemma clean_elems_app (rooted : bool) (kept a b : list string) :
  clean_elems rooted kept (a ++ b) = clean_elems rooted (rev (clean_elems rooted kept a)) b.
Proof.
  revert kept. induction a as [|e a IH]; intros kept; cbn [clean_elems app]; [by rewrite rev_involutive|].
  repeat case_match; by rewrite ?IH.
Qed.

(** An element that stands for itself. *)
Definition proper (e : string) : Prop :=
  e <> EmptyString /\ e <> "."%string /\ e <> ".."%string /\ has_byte "/" e = false.

Lemma clean_elems_proper (rooted : bool) (kept l : list string) :
  Forall proper l -> clean_elems rooted kept l = rev kept ++ l.
Proof.
  intros H. revert kept. induction H as [|e l (H1 & H2 & H3 & _) _ IH]; intros kept; cbn [clean_elems].
  { by rewrite app_nil_r. }
  rewrite (proj2 (String.eqb_neq _ _) H1), (proj2 (String.eqb_neq _ _) H2), (proj2 (String.eqb_neq _ _) H3).
  cbn [orb]. rewrite IH. cbn [rev]. by rewrite <-app_assoc.
Qed.

Lemma split_at_joined (c : ascii) (p : string) (l : list string) :
  Forall (fun e => has_byte c e = false) l -> split_at c (join_with c (p :: l)) = split_at c p ++ l.
Proof.
  intros H. rewrite split_at_join by done. rewrite fmap_cons. cbn [mjoin list_join]. f_equal.
  induction H as [|e l He _ IH]; [done|]. rewrite fmap_cons. simpl. rewrite split_at_no_sep by done. simpl.
  by f_equal.
Qed.

Lemma fileJoin_below (point : string) (suffix : list string) :
  has_prefix "/" point = true -> Forall proper suffix ->
  fileJoin (point :: suffix) =
    String "/" (join_with "/" (clean_elems true [] (split_at "/" point) ++ suffix)).
Proof.
  intros Hp Hs. unfold fileJoin.
  assert (filter (fun e => e <> EmptyString) (point :: suffix) = point :: suffix) as ->.
  { rewrite filter_cons_True; [|by destruct point]. f_equal.
    induction Hs as [|e l He _ IH]; [done|]. rewrite filter_cons_True by apply He. by rewrite IH. }
  assert (exists r, join_with "/" (point :: suffix) = point +:+ r) as [r Hr].
  { cbn [join_with]. destruct suffix; [exists EmptyString; by rewrite str_app_nil_r|by eexists]. }
  assert (has_prefix "/" (join_with "/" (point :: suffix)) = true) as Hr'.
  { rewrite Hr. apply has_prefix_iff in Hp as [q ->]. apply has_prefix_iff. exists (q +:+ r).
    by rewrite str_app_assoc. }
  unfold fileClean. rewrite Hr'. rewrite split_at_joined by (eapply Forall_impl; [exact Hs|by intros e (_ & _ & _ & ?)]).
  by rewrite clean_elems_app, (clean_elems_proper true _ suffix), rev_involutive.
Qed.

Lemma pathComponents_parts (p : string) (c : string) :
  c ∈ pathComponents p -> c <> EmptyString /\ c <> "."%string /\ has_byte "/" c = false.
Proof.
  unfold pathComponents. rewrite list_elem_of_filter. intros [[H1 H2] H]. split_and!; [done..|].
  pose proof (split_at_parts "/" p) as Hf. rewrite Forall_forall in Hf. by apply Hf.
Qed.

(** A mount exposes exactly the memberships under its root, by whole components
    and with no [..] below it, and the directory is then the rest of the
    membership under the mount point. *)
Theorem cgroupPath_iff (m : cgroupMount) (membership dir : string) (Hp : has_prefix "/" (m_point m) = true) :
  cgroupPath m membership = Some dir <->
  exists suffix, pathComponents membership = pathComponents (m_root m) ++ suffix /\ ~ ".."%string ∈ suffix /\
    dir = String "/" (join_with "/" (clean_elems true [] (split_at "/" (m_point m)) ++ suffix)).
Proof.
  unfold cgroupPath. set (mr := pathComponents (m_root m)). set (want := pathComponents membership).
  assert (forall suffix, want = mr ++ suffix -> ~ ".."%string ∈ suffix -> Forall proper suffix) as Hprop.
  { intros suffix Hw Hd. apply Forall_forall. intros c Hc. destruct (pathComponents_parts membership c) as (H1 & H2 & H3).
    { fold want. rewrite Hw. apply elem_of_app. by right. }
    split_and!; [done..| |done]. intros ->. done. }
  assert (forall suffix, existsb (fun c => String.eqb c "..") suffix = true <-> ".."%string ∈ suffix) as Hdots.
  { intros suffix. rewrite existsb_exists. setoid_rewrite <-list_elem_of_In. split.
    - intros (x & Hx & He). by apply String.eqb_eq in He as ->.
    - intros H. by exists ".."%string. }
  split.
  - destruct (_ <? _)%nat; [done|]. case_bool_decide as Ht; [|done]. cbn [negb].
    destruct (existsb _ _) eqn:Ed; [done|]. intros [= <-]. exists (drop (length mr) want).
    assert (want = mr ++ drop (length mr) want) as Hw by (rewrite <-Ht at 1; by rewrite take_drop).
    assert (~ ".."%string ∈ drop (length mr) want) as Hn by (rewrite <-Hdots; by rewrite Ed).
    split; [done|]. split; [done|]. apply fileJoin_below; [done|]. by apply Hprop.
  - intros (suffix & Hw & Hn & ->). rewrite Hw.
    rewrite (proj2 (Nat.ltb_ge _ _)) by (rewrite length_app; lia). rewrite take_app_length, bool_decide_eq_true_2 by done.
    cbn [negb]. rewrite drop_app_length. destruct (existsb _ suffix) eqn:Ed; [by apply Hdots in Ed|].
    f_equal. apply fileJoin_below; [done|]. by apply Hprop.
Qed.

(** ** The limit *)

Lemma atoi_range (s : string) (v : Z) : atoi s = Some v -> min_int64 <= v <= max_int64.
Proof.
  unfold atoi. destruct (match s with EmptyString => _ | _ => _ end) as [neg body].
  destruct body; [done|]. destruct (digits_value 0 _) as [n|]; [|done]. destruct (_ && _) eqn:E; [|done].
  intros [= <-]. apply andb_true_iff in E as [H1 H2]. to_prop. lia.
Qed.

(** A limit that is read is a positive count, and no spelling of no limit. *)
Lemma readCgroupLimit_positive (ReadFile : string -> option string) (path : string) (v2 : bool) (v : Z) :
  readCgroupLimit ReadFile path v2 = Some v -> 0 < v <= max_int64 /\ (v2 = false -> v < cgroupV1Unlimited).
Proof.
  unfold readCgroupLimit. destruct (ReadFile path) as [body|]; [|done]. cbn [mbind option_bind].
  destruct (v2 && _); [done|]. destruct (atoi _) as [n|] eqn:E; [|done]. apply atoi_range in E.
  destruct (n <=? 0) eqn:E1; [done|]. to_prop. destruct (negb v2 && _) eqn:E2; [done|]. intros [= <-].
  split; [lia|]. intros ->. cbn [negb andb] in E2. to_prop. lia.
Qed.

(** Of a configuration that is accepted, a collecting process sets nine tenths of
    the smaller of its container figure and the limit of its own cgroup, to a
    whole multiple of nine and without overflow, so the limit leaves a tenth of
    both; it is positive unless the cgroup's is below ten bytes. *)
Theorem softMemoryLimit_within (opens : string -> bool) (ReadFile : string -> option string) (cfg : Config)
    (root : string) (Ht : pgo_tags (cfg_PGO cfg) = true) (Hen : pgo_Enabled (cfg_PGO cfg) = true)
    (Hv : validatePGO opens cfg = None) :
  exists limit, softMemoryLimit ReadFile (cfg_PGO cfg) root = Some limit /\ 0 <= limit /\
    let figure := match cgroupMemoryLimit ReadFile root with
                  | Some c => Z.min c (GatewayMemoryBytes (cfg_PGO cfg))
                  | None => GatewayMemoryBytes (cfg_PGO cfg)
                  end in
    limit = 9 * (figure / 10) /\ 10 * limit <= 9 * figure /\ 9 * figure < 10 * limit + 90 /\
    (10 <= figure -> 0 < limit).
Proof.
  destruct (GatewayMemoryBytes_exact opens cfg Ht Hen Hv) as [_ Hg]. unfold softMemoryLimit. rewrite Hen. cbn [negb].
  set (g := GatewayMemoryBytes (cfg_PGO cfg)) in *.
  assert (forall c, cgroupMemoryLimit ReadFile root = Some c -> 0 < c <= max_int64) as Hc.
  { intros c. unfold cgroupMemoryLimit. destruct (cgroupMembership _ _) as [[membership v2]|]; [|done].
    cbn [mbind option_bind]. destruct (first_some _ _) as [dir|]; [|done]. cbn [mbind option_bind]. intros H.
    by apply readCgroupLimit_positive in H as [H _]. }
  set (figure := match cgroupMemoryLimit ReadFile root with Some c => if c <? g then c else g | None => g end).
  assert (figure = match cgroupMemoryLimit ReadFile root with Some c => Z.min c g | None => g end) as Hf.
  { unfold figure. destruct (cgroupMemoryLimit _ _) as [c|]; [|done]. destruct (Z.ltb_spec c g); lia. }
  assert (0 < figure <= max_int64) as Hr.
  { unfold figure. destruct (cgroupMemoryLimit _ _) as [c|]; [|done]. specialize (Hc c eq_refl). destruct (c <? g); lia. }
  exists ((figure /! softLimitDenominator) *! softLimitNumerator). split; [done|]. cbv zeta. rewrite <-Hf.
  unfold softLimitDenominator, softLimitNumerator. rewrite Z.quot_div_nonneg by lia.
  clearbody figure. pose proof (Z.div_mod figure 10 ltac:(lia)) as H1.
  pose proof (Z.mod_pos_bound figure 10 ltac:(lia)) as H2. clear Hc Hf.
  unfold max_int64 in Hr. rewrite (wrap64_id (figure / 10)) by in64. rewrite wrap64_id by in64.
  split; [lia|]. split_and!; lia.
Qed.

(** ** The escapes *)

(** How the kernel writes a field: the bytes that would break it up, and the
    backslash, as three octal digits. *)
Definition octal_of (c : ascii) : string :=
  let n := nat_of_ascii c in
  let d k := ascii_of_nat (48 + k) in
  String backslash (String (d (n / 64)) (String (d (n / 8 mod 8)) (String (d (n mod 8)) EmptyString)))%nat.
Fixpoint mangle (f : ascii -> bool) (s : string) : string :=
  match s with
  | EmptyString => EmptyString
  | String c s => if f c then octal_of c +:+ mangle f s else String c (mangle f s)
  end.

Lemma octal3_of (c : ascii) :
  octal3 (ascii_of_nat (48 + nat_of_ascii c / 64)) (ascii_of_nat (48 + nat_of_ascii c / 8 mod 8))
    (ascii_of_nat (48 + nat_of_ascii c mod 8)) = Some c.
Proof. by destruct c as [[] [] [] [] [] [] [] []]. Qed.

Lemma unescape_plain (d : ascii) (s : string) :
  d <> backslash -> unescapeMountField (String d s) = String d (unescapeMountField s).
Proof.
  intros Hd. cbn [unescapeMountField]. rewrite (proj2 (Ascii.eqb_neq _ _) Hd).
  by destruct s as [|a [|b [|c s]]].
Qed.

Lemma unescape_mangle (f : ascii -> bool) (s : string) :
  f backslash = true -> unescapeMountField (mangle f s) = s.
Proof.
  intros Hf. induction s as [|c s IH]; [done|]. cbn [mangle]. destruct (f c) eqn:E.
  - unfold octal_of. cbn [String.append unescapeMountField]. rewrite Ascii.eqb_refl, octal3_of. by rewrite IH.
  - rewrite unescape_plain by congruence. by rewrite IH.
Qed.

(** ** Instances *)

Definition lines (l : list string) : string := join_with newline l.
(** A container of a pod: the mount shows a parent, and its own limit is below it. *)
Definition demo_files (path : string) : option string :=
  if String.eqb path "/proc/self/cgroup" then Some (lines ["4:cpu,cpuacct:/x"; "0::/../../pod7/app"; ""])
  else if String.eqb path "/proc/self/mountinfo" then
    Some (lines
      ["22 1 0:21 / /sys rw,nosuid - sysfs sysfs rw";
       "30 22 0:26 / /sys/fs/cgroup rw,nosuid - cgroup2 cgroup2 rw";
       "31 22 0:26 /../../pod7 /mnt/pod\040seven rw shared:9 - cgroup2 cgroup2 rw"])
  else if String.eqb path "/mnt/pod seven/app/memory.max" then Some (lines ["1073741824"; ""])
  else None%string.

Example demo_limit : cgroupMemoryLimit demo_files "/" = Some 1073741824.
Proof. by vm_compute. Qed.
Example demo_soft : softMemoryLimit demo_files (cfg_PGO shipped_config) "/" = Some 966367638.
Proof. by vm_compute. Qed.
(** The version 1 membership wins, wherever its line is, and a prefix is one of
    whole components. *)
Example v1_wins :
  membership_of None ["0::/init"; "7:memory:/pod:7"]%string = Some ("/pod:7"%string, false).
Proof. by vm_compute. Qed.
Example whole_components :
  cgroupPath {| m_root := "/tenant"; m_point := "/sys/fs/cgroup" |} "/tenantry/a" = None.
Proof. by vm_compute. Qed.

Lemma cgroupPath_iff_witness :
  cgroupPath {| m_root := "/../../pod7"; m_point := "/mnt/pod seven" |} "/../../pod7/app" =
    Some "/mnt/pod seven/app"%string <->
  exists suffix, pathComponents "/../../pod7/app" = pathComponents "/../../pod7" ++ suffix /\
    ~ ".."%string ∈ suffix /\
    "/mnt/pod seven/app"%string =
      String "/" (join_with "/" (clean_elems true [] (split_at "/" "/mnt/pod seven") ++ suffix)).
Proof.
  exact (cgroupPath_iff {| m_root := "/../../pod7"; m_point := "/mnt/pod seven" |} "/../../pod7/app"
    "/mnt/pod seven/app" eq_refl).
Defined.

Lemma softMemoryLimit_within_witness :
  exists limit, softMemoryLimit demo_files (cfg_PGO shipped_config) "/" = Some limit /\ 0 <= limit /\
    let figure := match cgroupMemoryLimit demo_files "/" with
                  | Some c => Z.min c (GatewayMemoryBytes (cfg_PGO shipped_config))
                  | None => GatewayMemoryBytes (cfg_PGO shipped_config)
                  end in
    limit = 9 * (figure / 10) /\ 10 * limit <= 9 * figure /\ 9 * figure < 10 * limit + 90 /\
    (10 <= figure -> 0 < limit).
Proof.
  apply (softMemoryLimit_within (fun _ => false) demo_files shipped_config "/"); by vm_compute.
Defined.
