(* ===== verification/TlsCert.v ===== *)
(** * The served certificate

    src/internal/tlscert/loader.go: the pair of files the API listener serves its
    certificate from, read again and again.  What each read of the two files
    gives is an event; the parser of key pairs and a certificate's expiry are
    arguments. *)

From S2P Require Import Prelude Sha256.

Definition refreshInterval : duration := 30 * second.

(** [Options], and the constants of crypto/tls. *)
Record Options := { op_MinVersion : string; op_Interval : duration }.
Definition VersionTLS12 : Z := 771.
Definition VersionTLS13 : Z := 772.

(** [parseMinVersion]. *)
Definition parseMinVersion (name : string) : Z := if String.eqb name "1.3" then VersionTLS13 else VersionTLS12.

(** One digest per file. *)
Record fingerprint := { f_cert : list Z; f_key : list Z }.
#[export] Instance fingerprint_dec : EqDecision fingerprint.
Proof. solve_decision. Defined.

Inductive reload := Applied | Unchanged | Failed.

#[local] Opaque sha256.

Section loader.
  Context {Cert : Type} (X509KeyPair : string -> string -> option Cert) (NotAfter : Cert -> time).

(** The loader and what it has recorded: the reloads, newest first, and the
    expiry gauge. *)
Record Loader := {
  l_minVersion : Z; l_interval : duration; l_cur : Cert; l_sum : fingerprint;
  l_reloads : list reload; l_expiry : time
}.

(** What one read of the two files gives. *)
Record disk := { d_cert : option string; d_key : option string }.

(** [read]. *)
Definition read (d : disk) : option (Cert * fingerprint) :=
  certPEM ← d_cert d;
  keyPEM ← d_key d;
  cert ← X509KeyPair certPEM keyPEM;
  Some (cert, {| f_cert := sha256 certPEM; f_key := sha256 keyPEM |}).

Definition apply (cert : Cert) (sum : fingerprint) (minVersion : Z) (interval : duration) (past : list reload) : Loader :=
  {| l_minVersion := minVersion; l_interval := interval; l_cur := cert; l_sum := sum;
     l_reloads := Applied :: past; l_expiry := NotAfter cert |}.
Definition reloaded (r : reload) (l : Loader) : Loader :=
  {| l_minVersion := l_minVersion l; l_interval := l_interval l; l_cur := l_cur l; l_sum := l_sum l;
     l_reloads := r :: l_reloads l; l_expiry := l_expiry l |}.

(** [New]: nothing where the pair cannot be loaded. *)
Definition New (opts : Options) (d : disk) : option Loader :=
  '(cert, sum) ← read d;
  Some (apply cert sum (parseMinVersion (op_MinVersion opts))
    (if op_Interval opts =? 0 then refreshInterval else op_Interval opts) []).

Definition refresh (l : Loader) (d : disk) : Loader :=
  match read d with
  | None => reloaded Failed l
  | Some (cert, sum) =>
      if decide (sum = l_sum l) then reloaded Unchanged l
      else apply cert sum (l_minVersion l) (l_interval l) (l_reloads l)
  end.

(** [Run], past its ticker. *)
Definition Run (l : Loader) (ds : list disk) : Loader := foldl refresh l ds.

(** [TLSConfig] and [GetCertificate]: the floor, and what a handshake is given. *)
Definition TLSConfig (l : Loader) : Z * (Loader -> Cert) := (l_minVersion l, l_cur).
Definition GetCertificate (l : Loader) : Cert := l_cur l.

(** The certificate is that of a read, both of whose files were read together,
    and every later read of a pair that parses gave files of the same digests. *)
Definition in_force (ds : list disk) (l : Loader) : Prop :=
  exists ds1 d ds2 cert sum, ds = ds1 ++ d :: ds2 /\ read d = Some (cert, sum) /\ l_cur l = cert /\
    l_sum l = sum /\ l_expiry l = NotAfter cert /\
    Forall (fun d' => forall c s, read d' = Some (c, s) -> s = sum) ds2.

Lemma refresh_in_force (ds : list disk) (d : disk) (l : Loader) :
  in_force ds l -> in_force (ds ++ [d]) (refresh l d).
Proof.
  intros (ds1 & d0 & ds2 & cert & sum & -> & Hr & Hc & Hs & He & Hf).
  assert ((forall c s, read d = Some (c, s) -> s = sum) -> forall r, in_force ((ds1 ++ d0 :: ds2) ++ [d]) (reloaded r l))
    as Hkeep.
  { intros Hd r. exists ds1, d0, (ds2 ++ [d]), cert, sum. rewrite <-app_assoc.
    split_and!; [done..|]. apply Forall_app. split; [done|]. by apply Forall_singleton. }
  unfold refresh. destruct (read d) as [[c s]|] eqn:E; [|by apply Hkeep].
  destruct (decide (s = l_sum l)) as [Heq|Hne].
  - apply Hkeep. intros c' s' [= <- <-]. congruence.
  - exists (ds1 ++ d0 :: ds2), d, [], c, s. by split_and!.
Qed.

(** From a start that succeeded, whatever the disk holds in between: a handshake
    is given the certificate of one complete read, the gauge is its expiry, the
    floor stays, and of every read since that parses the contents are the same. *)
Theorem pair_in_force (opts : Options) (first : disk) (ds : list disk) (l : Loader)
    (Hn : New opts first = Some l) :
  in_force (first :: ds) (Run l ds) /\ GetCertificate (Run l ds) = l_cur (Run l ds) /\
  VersionTLS12 <= l_minVersion (Run l ds) /\ length (l_reloads (Run l ds)) = S (length ds).
Proof.
  unfold New in Hn. destruct (read first) as [[cert sum]|] eqn:E; [|done]. cbn [mbind option_bind] in Hn.
  injection Hn as <-. set (l := apply _ _ _ _ _).
  assert (in_force [first] l) as H0 by (exists [], first, [], cert, sum; by split_and!).
  assert (VersionTLS12 <= l_minVersion l /\ length (l_reloads l) = 1%nat) as [Hv Hl].
  { split; [|done]. cbn. unfold parseMinVersion. by case_match. }
  clearbody l. clear E. change (first :: ds) with ([first] ++ ds). revert H0. generalize [first].
  rewrite <-(Nat.add_1_l (length ds)), <-Hl. clear Hl first cert sum opts. revert l Hv.
  induction ds as [|d ds IH]; intros l Hv pre H0; cbn [Run foldl length].
  { rewrite app_nil_r, Nat.add_0_r. by split_and!. }
  change (d :: ds) with ([d] ++ ds). rewrite app_assoc.
  assert (VersionTLS12 <= l_minVersion (refresh l d)) as Hv' by (unfold refresh; repeat case_match; done).
  destruct (IH (refresh l d) Hv' (pre ++ [d])) as (H1 & H2 & H3 & H4); [by apply refresh_in_force|].
  split_and!; [done..|]. unfold Run in H4. rewrite H4.
  assert (length (l_reloads (refresh l d)) = S (length (l_reloads l))) as ->; [|lia].
  unfold refresh. by repeat case_match.
Qed.

(** A failed read, of half a written file or of a pair that does not match,
    leaves what is served. *)
Lemma refresh_failed (l : Loader) (d : disk) :
  read d = None -> GetCertificate (refresh l d) = GetCertificate l /\ l_sum (refresh l d) = l_sum l.
Proof. unfold refresh. by intros ->. Qed.
End loader.
Arguments Loader : clear implicits.

(** ** Instances *)

(** A pair parses when the two files name the same key. *)
Definition demo_parse (c k : string) : option string := if String.eqb c k then Some c else None.
Definition demo_disk (c k : string) : disk := {| d_cert := Some c; d_key := Some k |}.
Definition demo_options : Options := {| op_MinVersion := "1.3"; op_Interval := 0 |}.
(** A rotation seen halfway, then whole. *)
Definition demo_reads : list disk := [demo_disk "k2" "k1"; demo_disk "k2" "k2"; {| d_cert := None; d_key := None |}].
Definition demo_loader : Loader string :=
  default {| l_minVersion := 0; l_interval := 0; l_cur := EmptyString; l_sum := {| f_cert := []; f_key := [] |};
             l_reloads := []; l_expiry := 0 |}
    (New demo_parse byte_len demo_options (demo_disk "k1" "k1")).

Lemma pair_in_force_witness :
  GetCertificate (Run demo_parse byte_len demo_loader demo_reads) = "k2"%string /\
  in_force demo_parse byte_len (demo_disk "k1" "k1" :: demo_reads) (Run demo_parse byte_len demo_loader demo_reads).
Proof.
  split; [by vm_compute|].
  exact (proj1 (pair_in_force demo_parse byte_len demo_options (demo_disk "k1" "k1") demo_reads demo_loader eq_refl)).
Defined.
