(* ===== verification/Contexts.v ===== *)
(** * The contexts of the command line

    src/internal/client/contexts.go: the contexts file, what makes it valid, the
    resolution of one command's settings from file, environment and flags, and
    the origin a credential is bound to.  The YAML codec is outside; the host
    grammar of net/url, [strings.ToLower] past ASCII, [URL.String] and the check
    of a certificate file are arguments. *)

From S2P Require Import Prelude Base64 Sha256 Query Routes Json Url Memlimit.

(** [File], [Context], [AuthSnap], [Overrides] and [Settings]. *)
Record AuthSnap := {
  as_Mode : string; as_Issuer : string; as_ClientID : string; as_TokenType : string;
  as_Scopes : list string; as_PKCE : bool; as_IssuerCAFile : string
}.
Record GatewayContext := {
  gc_Server : string; gc_CAFile : string; gc_ServerName : string; gc_Namespace : string; gc_Auth : AuthSnap
}.
Record File := { fl_CurrentContext : string; fl_Contexts : gmap string GatewayContext }.
Record Overrides := {
  o_Context : string; o_Server : string; o_CAFile : string; o_IssuerCAFile : string; o_ServerName : string;
  o_Namespace : string; o_Output : string
}.
Record Settings := {
  s_ContextName : string; s_Context : GatewayContext; s_Server : URL; s_Origin : string; s_CacheName : string;
  s_CAFile : string; s_IssuerCAFile : string; s_ServerName : string; s_Namespace : string; s_Output : string
}.

Definition no_auth : AuthSnap :=
  {| as_Mode := ""; as_Issuer := ""; as_ClientID := ""; as_TokenType := ""; as_Scopes := []; as_PKCE := false;
     as_IssuerCAFile := "" |}.
Definition no_context : GatewayContext :=
  {| gc_Server := ""; gc_CAFile := ""; gc_ServerName := ""; gc_Namespace := ""; gc_Auth := no_auth |}.

Definition maxClientIDBytes : Z := 256.
Definition maxScopeBytes : Z := 64.
Definition maxDNSNameBytes : Z := 253.
Definition maxDNSLabelBytes : Z := 63.

Definition empty (s : string) : bool := String.eqb s EmptyString.

(** The two regular expressions: one byte of the class, then, past any of the
    class and hyphens, one of the class. *)
Definition is_lower_alnum (c : ascii) : bool := ((97 <=? byte_of c) && (byte_of c <=? 122)) || is_digit c.
Definition last_byte (s : string) : option ascii := String.get (String.length s - 1) s.
Definition hyphenated (f : ascii -> bool) (s : string) : bool :=
  match s, last_byte s with
  | String a _, Some z => f a && f z && all_bytes (fun c => f c || Ascii.eqb c "-") s
  | _, _ => false
  end.

Definition isDNSLabel (s : string) : bool := (byte_len s <=? maxDNSLabelBytes) && hyphenated is_lower_alnum s.
Definition isDNSName (s : string) : bool :=
  if empty s || (maxDNSNameBytes <? byte_len s) then false
  else forallb (fun label => (byte_len label <=? maxDNSLabelBytes) && hyphenated is_alnum label) (split_at "." s).

(** ** Hosts and origins *)

(** [url.URL]'s [Hostname] and [Port]. *)
Definition validOptionalPort (port : string) : bool :=
  match port with
  | EmptyString => true
  | String c rest => Ascii.eqb c ":" && all_bytes is_digit rest
  end.
Definition splitHostPort (hostPort : string) : string * string :=
  let '(host, port) :=
    match cut_last ":" hostPort with
    | Some (h, p) => if validOptionalPort (String ":" p) then (h, p) else (hostPort, EmptyString)
    | None => (hostPort, EmptyString)
    end in
  match cut_prefix "[" host with
  | Some inner => match cut_suffix "]" inner with Some h => (h, port) | None => (host, port) end
  | None => (host, port)
  end.
Definition Hostname (u : URL) : string := (splitHostPort (u_Host u)).1.
Definition Port (u : URL) : string := (splitHostPort (u_Host u)).2.

(** [strings.Trim(_, "[]")] and [net.JoinHostPort]. *)
Definition bracket (c : ascii) : bool := Ascii.eqb c "[" || Ascii.eqb c "]".
Fixpoint trim_left (f : ascii -> bool) (s : string) : string :=
  match s with EmptyString => EmptyString | String c s' => if f c then trim_left f s' else s end.
Fixpoint trim_right (f : ascii -> bool) (s : string) : string :=
  match s with
  | EmptyString => EmptyString
  | String c s' => let r := trim_right f s' in if f c && empty r then EmptyString else String c r
  end.
Definition trim_brackets (s : string) : string := trim_right bracket (trim_left bracket s).
Definition JoinHostPort (host port : string) : string :=
  if has_byte ":" host then "[" +:+ host +:+ "]:" +:+ port else host +:+ ":" +:+ port.

Section client.
  Variable parseHost : string -> string -> option string.
  Variable ToLower : string -> string.
  Variable urlString : URL -> string.
  (** Whether a file holds a certificate. *)
  Variable certFile : string -> bool.

(** [parseServer]. *)
Definition parseServer (s : string) : option URL :=
  u ← Parse parseHost s;
  if negb (String.eqb (u_Scheme u) "https" || String.eqb (u_Scheme u) "http") || empty (u_Host u) then None
  else if u_User u then None
  else if negb (empty (u_RawQuery u)) || u_ForceQuery u then None
  else if negb (empty (u_Fragment u)) || negb (empty (u_RawFragment u)) then None
  else Some u.

Definition CanonicalOrigin (u : URL) : string :=
  let scheme := ToLower (u_Scheme u) in
  let host := ToLower (Hostname u) in
  let host := if has_byte ":" host then "[" +:+ host +:+ "]" else host in
  let port := if empty (Port u) then (if String.eqb scheme "http" then "80" else "443") else Port u in
  scheme +:+ "://" +:+ JoinHostPort (trim_brackets host) port.

(** ** The file *)

(** The key a check refuses. *)
Inductive fileFault :=
  | BadName (name : string) | BadContext (name key : string) | BadCurrent (name : string).

Definition validateOIDC (a : AuthSnap) : option string :=
  if empty (as_Issuer a) then Some "issuer"%string
  else if negb (match Parse parseHost (as_Issuer a) with
                | Some u => String.eqb (u_Scheme u) "https" && negb (empty (u_Host u))
                | None => false
                end) then Some "issuer"%string
  else if (byte_len (as_ClientID a) <? 1) || (maxClientIDBytes <? byte_len (as_ClientID a)) then Some "clientID"%string
  else if negb (String.eqb (as_TokenType a) "id") && negb (String.eqb (as_TokenType a) "access")
  then Some "tokenType"%string
  else if negb (existsb (fun s => String.eqb s "openid") (as_Scopes a)) then Some "scopes"%string
  else if existsb (fun s => (byte_len s <? 1) || (maxScopeBytes <? byte_len s)) (as_Scopes a) then Some "scopes"%string
  else None.

Definition validateAuth (a : AuthSnap) : option string :=
  match
    (if existsb (String.eqb (as_Mode a)) [""; "disabled"; "basic"]%string then None
     else if String.eqb (as_Mode a) "oidc" then validateOIDC a
     else Some "mode"%string)
  with
  | Some k => Some k
  | None =>
      if negb (empty (as_IssuerCAFile a)) && negb (certFile (as_IssuerCAFile a)) then Some "issuerCAFile"%string
      else None
  end.

Definition validateContext (c : GatewayContext) : option string :=
  match parseServer (gc_Server c) with
  | None => Some "server"%string
  | Some _ =>
      if negb (empty (gc_CAFile c)) && negb (certFile (gc_CAFile c)) then Some "caFile"%string
      else if negb (empty (gc_ServerName c)) && negb (isDNSName (gc_ServerName c)) then Some "serverName"%string
      else if negb (empty (gc_Namespace c)) && negb (isDNSLabel (gc_Namespace c)) then Some "namespace"%string
      else match validateAuth (gc_Auth c) with Some k => Some ("auth." +:+ k) | None => None end
  end.

(** [validateFile]; Go ranges over the map in any order, here the one given. *)
Fixpoint check_contexts (l : list (string * GatewayContext)) : option fileFault :=
  match l with
  | [] => None
  | (name, c) :: l =>
      if negb (isDNSLabel name) then Some (BadName name)
      else match validateContext c with Some k => Some (BadContext name k) | None => check_contexts l end
  end.
Definition validateFile (order : list (string * GatewayContext)) (f : File) : option fileFault :=
  match check_contexts order with
  | Some e => Some e
  | None =>
      if negb (empty (fl_CurrentContext f)) && bool_decide (fl_Contexts f !! fl_CurrentContext f = None)
      then Some (BadCurrent (fl_CurrentContext f)) else None
  end.

(** [RecordLogin], [requireContext], [UseContext]. *)
Definition RecordLogin (f : File) (s : Settings) (snap : AuthSnap) : File :=
  let c := default {| gc_Server := urlString (s_Server s); gc_CAFile := s_CAFile s; gc_ServerName := s_ServerName s;
                      gc_Namespace := s_Namespace s; gc_Auth := no_auth |}
             (fl_Contexts f !! s_ContextName s) in
  {| fl_CurrentContext := fl_CurrentContext f;
     fl_Contexts := <[s_ContextName s := {| gc_Server := gc_Server c; gc_CAFile := gc_CAFile c;
       gc_ServerName := gc_ServerName c; gc_Namespace := gc_Namespace c; gc_Auth := snap |}]> (fl_Contexts f) |}.
Definition requireContext (f : option File) (name : string) : bool :=
  match f with Some f => bool_decide (is_Some (fl_Contexts f !! name)) | None => false end.
Definition UseContext (f : File) (name : string) : option File :=
  if requireContext (Some f) name
  then Some {| fl_CurrentContext := name; fl_Contexts := fl_Contexts f |} else None.

(** ** Resolution *)

Inductive resolveErr :=
  | BadContextName | NoSuchContext | NoGateway | BadServer | BadServerName | BadNamespace | BadOutput.

Section resolve.
  Variable getenv : string -> option string.

Definition lookup_env (name : string) : string := default EmptyString (getenv name).
Definition pick (file variable flag : string) : string :=
  let v := if empty (lookup_env variable) then file else lookup_env variable in
  if empty flag then v else flag.

(** The context's name, and the entry it selects. *)
Definition context_name (f : option File) (o : Overrides) : string :=
  if negb (empty (o_Context o)) then o_Context o
  else if negb (empty (lookup_env "PROFGATE_CONTEXT")) then lookup_env "PROFGATE_CONTEXT"
  else match f with Some f => fl_CurrentContext f | None => EmptyString end.
Definition context_entry (f : option File) (name : string) : option GatewayContext :=
  f ← f; fl_Contexts f !! name.

Definition cache_name (name origin : string) : string :=
  if empty name then "adhoc-" +:+ String.substring 0 32 (hex_encode (sha256 origin)) else name.

(** What [Resolve] does once it has a context. *)
Definition resolve_in (name : string) (c : GatewayContext) (o : Overrides) : Settings + resolveErr :=
  let server := pick (gc_Server c) "PROFGATE_SERVER" (o_Server o) in
  if empty server then inr NoGateway
  else
    match parseServer server with
    | None => inr BadServer
    | Some u =>
        let origin := CanonicalOrigin u in
        let serverName := pick (gc_ServerName c) "PROFGATE_SERVER_NAME" (o_ServerName o) in
        if negb (empty serverName) && negb (isDNSName serverName) then inr BadServerName
        else
          let namespace := pick (gc_Namespace c) "PROFGATE_NAMESPACE" (o_Namespace o) in
          if negb (empty namespace) && negb (isDNSLabel namespace) then inr BadNamespace
          else
            let output := pick "table" "PROFGATE_OUTPUT" (o_Output o) in
            if negb (String.eqb output "table") && negb (String.eqb output "json") then inr BadOutput
            else inl {| s_ContextName := name; s_Context := c; s_Server := u; s_Origin := origin;
                        s_CacheName := cache_name name origin;
                        s_CAFile := pick (gc_CAFile c) "PROFGATE_CA_FILE" (o_CAFile o);
                        s_IssuerCAFile := pick (as_IssuerCAFile (gc_Auth c)) "PROFGATE_ISSUER_CA_FILE" (o_IssuerCAFile o);
                        s_ServerName := serverName; s_Namespace := namespace; s_Output := output |}
    end.

Definition Resolve (f : option File) (o : Overrides) : Settings + resolveErr :=
  let name := context_name f o in
  if negb (empty name) then
    if negb (isDNSLabel name) then inr BadContextName
    else
      match context_entry f name with
      | None =>
          if empty (o_Server o) && empty (lookup_env "PROFGATE_SERVER") then inr NoSuchContext
          else resolve_in name no_context o
      | Some c => resolve_in name c o
      end
  else resolve_in name no_context o.

(** [xdgBase], [ConfigPath] and [StatePath]. *)
Definition xdgBase (variable fallback : string) : option string :=
  match getenv variable with
  | Some v => if has_prefix "/" v then Some v
              else home ← getenv "HOME"; if empty home then None else Some (fileJoin [home; fallback])
  | None => home ← getenv "HOME"; if empty home then None else Some (fileJoin [home; fallback])
  end.
Definition ConfigPath : option string :=
  base ← xdgBase "XDG_CONFIG_HOME" ".config"; Some (fileJoin [base; "profgate"; "config.yaml"]%string).
Definition StatePath : option string :=
  base ← xdgBase "XDG_STATE_HOME" (fileJoin [".local"; "state"]%string);
  Some (fileJoin [base; "profgate"; "tokens"]%string).
End resolve.
End client.

(** ** Names *)

Lemma empty_true (s : string) : empty s = true <-> s = EmptyString.
Proof. apply String.eqb_eq. Qed.
Lemma empty_false (s : string) : empty s = false <-> s <> EmptyString.
Proof. apply String.eqb_neq. Qed.

Lemma hyphenated_bytes (f : ascii -> bool) (s : string) :
  hyphenated f s = true ->
  s <> EmptyString /\ (forall c, f c = false -> c <> "-"%char -> has_byte c s = false) /\
  exists a r, s = String a r /\ f a = true.
Proof.
  unfold hyphenated. destruct s as [|a r] eqn:E; [done|]. destruct (last_byte _) as [z|]; [|done].
  rewrite !andb_true_iff. intros [[Ha _] Hall]. split; [done|]. split; [|by exists a, r].
  intros c Hc Hne. rewrite <-E in *. clear E. induction s as [|d s IH]; [done|]. cbn [all_bytes has_byte] in *.
  apply andb_true_iff in Hall as [Hd Hall]. rewrite decide_False; [by apply IH|]. intros ->.
  rewrite Hc in Hd. by apply Ascii.eqb_eq in Hd.
Qed.

(** A DNS label, and a name made of labels, is no path: one element, and not a
    relative one. *)
Lemma isDNSLabel_element (s : string) : isDNSLabel s = true -> proper s.
Proof.
  unfold isDNSLabel. rewrite andb_true_iff. intros [_ H].
  destruct (hyphenated_bytes _ _ H) as (H1 & H2 & a & r & -> & Ha). split; [done|].
  assert (a <> "."%char) by (intros ->; done). split_and!; [by intros [= -> _]..|].
  apply H2; done.
Qed.

(** The hexadecimal digits of a digest. *)
Definition is_hex (c : ascii) : bool := is_digit c || ((97 <=? byte_of c) && (byte_of c <=? 102)).

Lemma get_byte (f : ascii -> bool) (s : string) (n : nat) (c : ascii) :
  all_bytes f s = true -> String.get n s = Some c -> f c = true.
Proof.
  revert n. induction s as [|d s IH]; intros n; [done|]. cbn [all_bytes String.get]. rewrite andb_true_iff.
  intros [Hd Hs]. destruct n as [|n]; [by intros [= <-]|by apply IH].
Qed.

Lemma hex_encode_hex (l : list Z) : all_bytes is_hex (hex_encode l) = true.
Proof.
  assert (forall z, is_hex (hex_digit z) = true) as H.
  { intros z. unfold hex_digit. destruct (String.get _ _) eqn:E; [|done]. by eapply get_byte in E. }
  induction l as [|b l IH]; [done|]. cbn [hex_encode all_bytes]. by rewrite !H, IH.
Qed.

Lemma substring_bytes (f : ascii -> bool) (s : string) (n : nat) :
  all_bytes f s = true -> all_bytes f (String.substring 0 n s) = true.
Proof.
  revert n. induction s as [|c s IH]; intros [|n]; cbn [String.substring all_bytes]; [done..|].
  rewrite andb_true_iff. intros [-> Hs]. by apply IH.
Qed.

Lemma substring_length (s : string) (n : nat) :
  (n <= String.length s)%nat -> String.length (String.substring 0 n s) = n.
Proof.
  revert n. induction s as [|c s IH]; intros [|n] H; cbn [String.substring String.length] in *; [done|lia|done|].
  rewrite IH by lia. done.
Qed.

(** The name of a server's own entry: 32 digits of the origin's digest. *)
Lemma cache_name_digest (origin : string) :
  exists d, cache_name EmptyString origin = "adhoc-" +:+ d /\ String.length d = 32%nat /\ all_bytes is_hex d = true.
Proof.
  eexists. split; [done|]. split; [|apply substring_bytes, hex_encode_hex].
  apply substring_length. rewrite hex_encode_length, length_sha256. lia.
Qed.

(** ** Origins *)

Lemma cut_last_app (c : ascii) (a b : string) : has_byte c b = false -> cut_last c (a +:+ String c b) = Some (a, b).
Proof.
  intros Hb. induction a as [|d a IH].
  - assert (forall s, has_byte c s = false -> cut_last c s = None) as Hn.
    { induction s as [|e s IH]; [done|]. cbn [has_byte cut_last]. case_decide; [done|]. intros Hs. rewrite IH by done.
      by rewrite (proj2 (Ascii.eqb_neq _ _)). }
    cbn [String.append cut_last]. rewrite Hn by done. by rewrite Ascii.eqb_refl.
  - cbn [String.append cut_last]. by rewrite IH.
Qed.

Lemma cut_last_Some (c : ascii) (s a b : string) : cut_last c s = Some (a, b) -> s = a +:+ String c b /\ has_byte c b = false.
Proof.
  revert a b. induction s as [|d s IH]; intros a b H; [done|]. cbn [cut_last] in H.
  destruct (cut_last c s) as [[x y]|] eqn:E.
  - injection H as <- <-. destruct (IH x y eq_refl) as [-> ?]. done.
  - destruct (Ascii.eqb d c) eqn:Ed; [|done]. injection H as <- <-. apply Ascii.eqb_eq in Ed as ->. split; [done|].
    clear IH. induction s as [|e s IH]; [done|]. cbn [cut_last has_byte] in *.
    destruct (cut_last c s) as [[]|]; [done|]. destruct (Ascii.eqb e c) eqn:Ee; [done|]. apply Ascii.eqb_neq in Ee.
    rewrite decide_False by done. by apply IH.
Qed.

Lemma all_digits_no_colon (s : string) : all_bytes is_digit s = true -> has_byte ":" s = false.
Proof.
  induction s as [|c s IH]; [done|]. cbn [all_bytes has_byte]. rewrite andb_true_iff. intros [Hc Hs].
  rewrite decide_False; [by apply IH|]. by intros ->.
Qed.

Lemma Port_digits (u : URL) : has_byte ":" (Port u) = false.
Proof.
  unfold Port, splitHostPort. destruct (cut_last ":" (u_Host u)) as [[h p]|] eqn:E; [|by repeat case_match].
  destruct (validOptionalPort (String ":" p)) eqn:Ev; [|by repeat case_match].
  apply cut_last_Some in E as [_ E]. by repeat case_match.
Qed.

Lemma trim_left_head (s r : string) (c : ascii) : trim_left bracket s = String c r -> bracket c = false.
Proof.
  revert r. induction s as [|d s IH]; intros r; cbn [trim_left]; [done|].
  destruct (bracket d) eqn:E; [apply IH|]. by intros [= <- _].
Qed.

Lemma trim_brackets_head (s r : string) (c : ascii) : trim_brackets s = String c r -> c <> "["%char.
Proof.
  unfold trim_brackets. destruct (trim_left bracket s) as [|d t] eqn:E; [done|]. apply trim_left_head in E.
  cbn [trim_right]. rewrite E. cbn [andb]. by intros [= <- _] ->.
Qed.

Lemma JoinHostPort_inj (h h' p p' : string) :
  has_byte ":" p = false -> has_byte ":" p' = false ->
  (forall r c, h = String c r -> c <> "["%char) -> (forall r c, h' = String c r -> c <> "["%char) ->
  JoinHostPort h p = JoinHostPort h' p' -> h = h' /\ p = p'.
Proof.
  intros Hp Hp' Hh Hh' E.
  assert (forall x q, JoinHostPort x q = (if has_byte ":" x then "[" +:+ x +:+ "]" else x) +:+ String ":" q) as Hj.
  { intros x q. unfold JoinHostPort. destruct (has_byte ":" x); [|done]. cbn [String.append]. by rewrite !str_app_assoc. }
  rewrite !Hj in E. apply (f_equal (cut_last ":")) in E. rewrite !cut_last_app in E by done.
  injection E as E ->. split; [|done].
  destruct (has_byte ":" h) eqn:E1, (has_byte ":" h') eqn:E2.
  - cbn [String.append] in E. injection E as E. by apply str_app_inj_r in E.
  - exfalso. destruct h' as [|c r]; [done|]. cbn [String.append] in E. injection E as Ec _. by apply (Hh' r c eq_refl).
  - exfalso. destruct h as [|c r]; [done|]. cbn [String.append] in E. injection E as Ec _. by apply (Hh r c eq_refl).
  - done.
Qed.

Section client_facts.
  Variable parseHost : string -> string -> option string.
  Variable ToLower : string -> string.
  Variable urlString : URL -> string.
  Variable certFile : string -> bool.
  Hypothesis ToLower_ascii : forall s, all_bytes (fun c => byte_of c <? 128) s = true -> ToLower s = lower s.

Lemma parseServer_ok (s : string) (u : URL) :
  parseServer parseHost s = Some u <->
  Parse parseHost s = Some u /\ (u_Scheme u = "https"%string \/ u_Scheme u = "http"%string) /\
    u_Host u <> EmptyString /\ u_User u = false /\ u_RawQuery u = EmptyString /\ u_ForceQuery u = false /\
    u_Fragment u = EmptyString /\ u_RawFragment u = EmptyString.
Proof using.
  unfold parseServer. destruct (Parse parseHost s) as [v|]; cbn [mbind option_bind]; [|split; [done|by intros [? _]]].
  split.
  - destruct (String.eqb (u_Scheme v) "https" || String.eqb (u_Scheme v) "http") eqn:Es; [|done].
    destruct (empty (u_Host v)) eqn:Eh; [done|]. destruct (u_User v) eqn:Eu; [done|].
    destruct (empty (u_RawQuery v)) eqn:Eq; [|done]. destruct (u_ForceQuery v) eqn:Ef; [done|].
    destruct (empty (u_Fragment v)) eqn:Eg; [|done]. destruct (empty (u_RawFragment v)) eqn:Er; [|done].
    intros [= <-]. apply orb_true_iff in Es. rewrite !String.eqb_eq in Es. rewrite empty_false in Eh.
    rewrite !empty_true in *. by split_and!.
  - intros ([= ->] & Hs & Hh & -> & -> & -> & -> & ->). apply empty_false in Hh. rewrite Hh.
    by destruct Hs as [-> | ->].
Qed.

(** What an origin is made of. *)
Definition origin_host (u : URL) : string :=
  let host := ToLower (Hostname u) in trim_brackets (if has_byte ":" host then "[" +:+ host +:+ "]" else host).
Definition origin_port (u : URL) : string :=
  if empty (Port u) then (if String.eqb (u_Scheme u) "http" then "80" else "443") else Port u.

Lemma CanonicalOrigin_parts (u : URL) :
  u_Scheme u = "https"%string \/ u_Scheme u = "http"%string ->
  CanonicalOrigin ToLower u = u_Scheme u +:+ "://" +:+ JoinHostPort (origin_host u) (origin_port u).
Proof using ToLower_ascii.
  intros [H|H]; unfold CanonicalOrigin, origin_host, origin_port; rewrite H, ToLower_ascii by done; done.
Qed.

(** Two accepted servers share an origin, and so a credential, exactly when they
    are one scheme, one host up to case and brackets, and one port, the default
    spelled out. *)
Theorem CanonicalOrigin_iff (a b : string) (u v : URL)
    (Ha : parseServer parseHost a = Some u) (Hb : parseServer parseHost b = Some v) :
  CanonicalOrigin ToLower u = CanonicalOrigin ToLower v <->
  u_Scheme u = u_Scheme v /\ origin_host u = origin_host v /\ origin_port u = origin_port v.
Proof using ToLower_ascii.
  apply parseServer_ok in Ha as (_ & Hu & _). apply parseServer_ok in Hb as (_ & Hv & _).
  rewrite !CanonicalOrigin_parts by done. split; [|by intros (-> & -> & ->)].
  assert (forall w, has_byte ":" (origin_port w) = false) as Hp.
  { intros w. unfold origin_port. destruct (empty (Port w)); [by case_match|apply Port_digits]. }
  intros E. assert (u_Scheme u = u_Scheme v) as Hs.
  { destruct Hu as [Hu|Hu], Hv as [Hv|Hv]; rewrite Hu, Hv in *; done. }
  rewrite Hs in E. split; [done|].
  assert (forall p x y, p +:+ x = p +:+ y -> x = y) as Hinj.
  { intros p x y. induction p as [|c p IH]; [done|]. cbn [String.append]. intros [= H]. by apply IH. }
  apply Hinj, Hinj in E. apply JoinHostPort_inj in E; [done|apply Hp|apply Hp|..];
    intros r c H; by eapply trim_brackets_head.
Qed.

(** ** The file and the resolution *)

(** Whether a file is refused does not depend on the order its contexts are
    ranged over: it is accepted exactly when every context is valid under a
    DNS label and the selected one exists. *)
Lemma validateFile_iff (f : File) (order : list (string * GatewayContext)) :
  order ≡ₚ map_to_list (fl_Contexts f) ->
  validateFile parseHost certFile order f = None <->
  map_Forall (fun name c => isDNSLabel name = true /\ validateContext parseHost certFile c = None) (fl_Contexts f) /\
  (fl_CurrentContext f = EmptyString \/ is_Some (fl_Contexts f !! fl_CurrentContext f)).
Proof using.
  intros Ho. unfold validateFile.
  assert (check_contexts parseHost certFile order = None <->
    map_Forall (fun name c => isDNSLabel name = true /\ validateContext parseHost certFile c = None) (fl_Contexts f)) as Hc.
  { rewrite map_Forall_to_list. rewrite <-Ho. clear Ho. induction order as [|[name c] l IH]; cbn [check_contexts]; [by rewrite Forall_nil|].
    rewrite Forall_cons, <-IH. cbn [curry uncurry]. destruct (isDNSLabel name); cbn [negb]; [|split; [done|intros [[? _] _]; done]].
    destruct (validateContext parseHost certFile c); split; [done|intros [[_ ?] _]; done|done|by intros [_ ?]]. }
  rewrite <-Hc. destruct (check_contexts _ _ order) as [e|]; [split; [done|by intros [? _]]|].
  rewrite <-empty_true, <-not_eq_None_Some. destruct (empty (fl_CurrentContext f)) eqn:Ee; cbn [negb andb].
  { split; [auto|done]. }
  case_bool_decide as Hd; [rewrite Hd|]; (split; [|try done]); try done; [|auto].
  intros [_ [?|H]]; done.
Qed.

(** What a resolution that succeeds gives: the context named by the flag, the
    environment or the file, in that order, which need not exist when a server
    was given; each value of the flag, the environment, or the file, in that
    order, and checked; and a name for the cached token that is one plain path
    element, so no entry lies outside the directory. *)
Theorem Resolve_sound (getenv : string -> option string) (f : option File) (o : Overrides) (s : Settings)
    (H : Resolve parseHost ToLower getenv f o = inl s) :
  s_ContextName s = context_name getenv f o /\
  s_Context s = default no_context (if empty (s_ContextName s) then None else context_entry f (s_ContextName s)) /\
  (s_ContextName s <> EmptyString -> isDNSLabel (s_ContextName s) = true) /\
  (s_ContextName s <> EmptyString -> context_entry f (s_ContextName s) = None ->
     o_Server o <> EmptyString \/ lookup_env getenv "PROFGATE_SERVER" <> EmptyString) /\
  parseServer parseHost (pick getenv (gc_Server (s_Context s)) "PROFGATE_SERVER" (o_Server o)) = Some (s_Server s) /\
  s_Origin s = CanonicalOrigin ToLower (s_Server s) /\ proper (s_CacheName s) /\
  s_CAFile s = pick getenv (gc_CAFile (s_Context s)) "PROFGATE_CA_FILE" (o_CAFile o) /\
  s_ServerName s = pick getenv (gc_ServerName (s_Context s)) "PROFGATE_SERVER_NAME" (o_ServerName o) /\
  (s_ServerName s = EmptyString \/ isDNSName (s_ServerName s) = true) /\
  s_Namespace s = pick getenv (gc_Namespace (s_Context s)) "PROFGATE_NAMESPACE" (o_Namespace o) /\
  (s_Namespace s = EmptyString \/ isDNSLabel (s_Namespace s) = true) /\
  (s_Output s = "table"%string \/ s_Output s = "json"%string).
Proof using.
  unfold Resolve in H. set (name := context_name getenv f o) in *.
  assert (forall c, resolve_in parseHost ToLower getenv name c o = inl s ->
    s_ContextName s = name /\ s_Context s = c /\
    parseServer parseHost (pick getenv (gc_Server c) "PROFGATE_SERVER" (o_Server o)) = Some (s_Server s) /\
    s_Origin s = CanonicalOrigin ToLower (s_Server s) /\ s_CacheName s = cache_name name (s_Origin s) /\
    s_CAFile s = pick getenv (gc_CAFile c) "PROFGATE_CA_FILE" (o_CAFile o) /\
    s_ServerName s = pick getenv (gc_ServerName c) "PROFGATE_SERVER_NAME" (o_ServerName o) /\
    (s_ServerName s = EmptyString \/ isDNSName (s_ServerName s) = true) /\
    s_Namespace s = pick getenv (gc_Namespace c) "PROFGATE_NAMESPACE" (o_Namespace o) /\
    (s_Namespace s = EmptyString \/ isDNSLabel (s_Namespace s) = true) /\
    (s_Output s = "table"%string \/ s_Output s = "json"%string)) as Hin.
  { clear H. intros c. unfold resolve_in. destruct (empty (pick _ _ _ _)); [done|].
    destruct (parseServer _ _) as [u|]; [|done].
    case_match eqn:E1; [done|]. case_match eqn:E2; [done|]. destruct (negb (String.eqb _ "table") && _) eqn:E3; [done|]. intros [= <-]. cbn.
    apply andb_false_iff in E1, E2, E3. rewrite !negb_false_iff in E1, E2, E3. rewrite empty_true in E1, E2.
    rewrite !String.eqb_eq in E3. by split_and!. }
  assert (forall x, name = EmptyString \/ isDNSLabel name = true -> proper (cache_name name x)) as Hn.
  { intros x [->|Hl].
    - destruct (cache_name_digest x) as (d & -> & _ & Hd). split_and!; [done..|].
      rewrite has_byte_app. apply orb_false_iff. split; [done|]. by eapply all_bytes_no_byte.
    - unfold cache_name. destruct (empty name) eqn:E; [apply empty_true in E; by rewrite E in Hl|].
      by apply isDNSLabel_element. }
  destruct (empty name) eqn:Ee; cbn [negb] in H.
  - apply Hin in H as (-> & -> & H1 & -> & -> & H2). rewrite Ee. apply empty_true in Ee.
    split_and!; try done; try apply H2. apply Hn. by left.
  - destruct (isDNSLabel name) eqn:El; [|done]. cbn [negb] in H.
    destruct (context_entry f name) as [c|] eqn:Ec.
    + apply Hin in H as (-> & -> & H1 & -> & -> & H2). rewrite Ee, Ec.
      split_and!; try done; try apply H2. apply Hn. by right.
    + destruct (empty (o_Server o) && _) eqn:Es; [done|].
      apply Hin in H as (-> & -> & H1 & -> & -> & H2). rewrite Ee, Ec.
      apply andb_false_iff in Es. rewrite !empty_false in Es.
      split_and!; try done; try apply H2. apply Hn. by right.
Qed.
End client_facts.

(** ** Instances *)

(** The host grammar that takes every authority as it stands. *)
Definition any_host (scheme authority : string) : option string := Some authority.
Definition demo_context : GatewayContext :=
  {| gc_Server := "https://gw.example"; gc_CAFile := ""; gc_ServerName := ""; gc_Namespace := "shop";
     gc_Auth := no_auth |}.
Definition demo_contexts : File := {| fl_CurrentContext := "prod"; fl_Contexts := {[ "prod"%string := demo_context ]} |}.
Definition no_overrides : Overrides :=
  {| o_Context := ""; o_Server := ""; o_CAFile := ""; o_IssuerCAFile := ""; o_ServerName := ""; o_Namespace := "";
     o_Output := "" |}.
Definition demo_env (name : string) : option string :=
  if String.eqb name "PROFGATE_NAMESPACE" then Some "cart"%string else None.
Definition demo_url (s : string) : URL :=
  default (bare_url EmptyString EmptyString EmptyString EmptyString false) (parseServer any_host s).
Definition demo_settings : Settings :=
  {| s_ContextName := "prod"; s_Context := demo_context; s_Server := demo_url "https://gw.example";
     s_Origin := "https://gw.example:443"; s_CacheName := "prod"; s_CAFile := ""; s_IssuerCAFile := "";
     s_ServerName := ""; s_Namespace := "cart"; s_Output := "table" |}.

Example demo_origins :
  map (fun s => CanonicalOrigin lower (demo_url s))
    ["https://GW.example"; "http://[::1]:8080/x"; "http://10.0.0.1"]%string =
  ["https://gw.example:443"; "http://[::1]:8080"; "http://10.0.0.1:80"]%string.
Proof. by vm_compute. Qed.
Example demo_names :
  map isDNSLabel ["prod"; "adhoc-0a"; "-x"; "a.b"; ""; "Prod"]%string = [true; true; false; false; false; false].
Proof. by vm_compute. Qed.

Lemma CanonicalOrigin_iff_witness :
  CanonicalOrigin lower (demo_url "https://GW.example/x") = CanonicalOrigin lower (demo_url "https://gw.example:443").
Proof.
  apply (CanonicalOrigin_iff any_host lower (fun s _ => eq_refl) "https://GW.example/x" "https://gw.example:443"
    (demo_url "https://GW.example/x") (demo_url "https://gw.example:443")); [by vm_compute..|].
  split; [reflexivity|]. split; vm_compute; reflexivity.
Defined.

Lemma Resolve_sound_witness :
  Resolve any_host lower demo_env (Some demo_contexts) no_overrides = inl demo_settings /\
  s_ContextName demo_settings = context_name demo_env (Some demo_contexts) no_overrides.
Proof.
  assert (Resolve any_host lower demo_env (Some demo_contexts) no_overrides = inl demo_settings) as H
    by (vm_compute; reflexivity).
  split; [exact H|]. exact (proj1 (Resolve_sound any_host lower demo_env (Some demo_contexts) no_overrides demo_settings H)).
Defined.
