(* ===== verification/ClientIssuer.v ===== *)
(** * The command line's client of the issuer

    src/internal/client/issuer.go and device.go: discovery, the form posts and
    the device grant, over requests, clock readings and sleeps as calls.  What a
    redirect check admits is a function of its own; the host grammar of net/url,
    [URL.String] and [strings.ToLower] past ASCII are arguments. *)

From S2P Require Import Prelude Base64 Sha256 Config Query Routes Json Url Interaction Contexts.

Definition issuerRequestTimeout : duration := 10 * second.
Definition maxIssuerBodyBytes : Z := Z.shiftl 1 20.
Definition maxIssuerRedirects : nat := 3.
Definition discoveryPath : string := "/.well-known/openid-configuration".
Definition deviceGrantType : string := "urn:ietf:params:oauth:grant-type:device_code".
Definition defaultPollInterval : duration := 5 * second.
Definition slowDownIncrement : duration := 5 * second.
Definition verifierBytes : Z := 32.

Record Metadata := {
  md_Issuer : string; md_DeviceAuthorizationEndpoint : string; md_TokenEndpoint : string;
  md_RevocationEndpoint : string
}.
Record TokenResponse := {
  tr_IDToken : string; tr_AccessToken : string; tr_RefreshToken : string; tr_ExpiresIn : Z; tr_RefreshExpiresIn : Z
}.
Record DeviceAuth := {
  da_DeviceCode : string; da_UserCode : string; da_VerificationURI : string; da_VerificationURIComplete : string;
  da_Interval : Z; da_ExpiresIn : Z; da_verifier : string
}.

(** The errors of the package, by the type a caller tells them apart with;
    [OtherError] is one of none of them. *)
Inductive clientErr :=
  | Usage | Transport | StatusError (status : Z) | IssuerError (status : Z) (code : string)
  | DeviceError (code : string) | DeadlineError | ContextError | LoginNeeded | OtherError.
#[export] Instance clientErr_dec : EqDecision clientErr.
Proof. solve_decision. Defined.

(** A response: the status, the content type, and the body, unless reading it
    fails. *)
Record httpAnswer := { ha_Status : Z; ha_ContentType : string; ha_Body : option string }.

Inductive issuerCall : Type -> Type :=
  | SendGet (url : string) : issuerCall (option httpAnswer)
  | SendPost (url : string) (form : Values) : issuerCall (option httpAnswer)
  | Clock : issuerCall time
  | Sleep (d : duration) : issuerCall bool
  | CtxDone : issuerCall bool
  | Entropy : issuerCall (option string).
Abbreviation iprog := (itx issuerCall).

(** The two [CheckRedirect] functions: discovery's, of the requests already sent
    and the scheme redirected to, and that of the posts, which follow none. *)
Definition followDiscovery (via : nat) (scheme : string) : bool :=
  (via <=? maxIssuerRedirects)%nat && String.eqb scheme "https".
Definition followPost (via : nat) (scheme : string) : bool := false.

(** [readIssuerBody]. *)
Definition readIssuerBody (body : option string) : option string :=
  b ← body; if maxIssuerBodyBytes <? byte_len b then None else Some b.

(** [decodeOne]; [into] is what the type decoded into makes of the value. *)
Definition decodeOne {A} (into : json -> option A) (body : string) : option A :=
  v ← parse_json body; into v.

(** [encoding/json] into the documents. *)
Definition set_metadata (m : Metadata) (name : string) (v : json) : option Metadata :=
  let '(Build_Metadata i d t r) := m in
  if String.eqb name "issuer" then x ← to_string i v; Some (Build_Metadata x d t r)
  else if String.eqb name "device_authorization_endpoint" then x ← to_string d v; Some (Build_Metadata i x t r)
  else if String.eqb name "token_endpoint" then x ← to_string t v; Some (Build_Metadata i d x r)
  else x ← to_string r v; Some (Build_Metadata i d t x).
Definition to_metadata : json -> option Metadata :=
  to_struct ["issuer"; "device_authorization_endpoint"; "token_endpoint"; "revocation_endpoint"]%string
    set_metadata (Build_Metadata "" "" "" "").
Definition set_token (m : TokenResponse) (name : string) (v : json) : option TokenResponse :=
  let '(Build_TokenResponse i a r e f) := m in
  if String.eqb name "id_token" then x ← to_string i v; Some (Build_TokenResponse x a r e f)
  else if String.eqb name "access_token" then x ← to_string a v; Some (Build_TokenResponse i x r e f)
  else if String.eqb name "refresh_token" then x ← to_string r v; Some (Build_TokenResponse i a x e f)
  else if String.eqb name "expires_in" then x ← to_int64 e v; Some (Build_TokenResponse i a r x f)
  else x ← to_int64 f v; Some (Build_TokenResponse i a r e x).
Definition to_token : json -> option TokenResponse :=
  to_struct ["id_token"; "access_token"; "refresh_token"; "expires_in"; "refresh_expires_in"]%string
    set_token (Build_TokenResponse "" "" "" 0 0).
Definition set_device (m : DeviceAuth) (name : string) (v : json) : option DeviceAuth :=
  let '(Build_DeviceAuth d u i c n e w) := m in
  if String.eqb name "device_code" then x ← to_string d v; Some (Build_DeviceAuth x u i c n e w)
  else if String.eqb name "user_code" then x ← to_string u v; Some (Build_DeviceAuth d x i c n e w)
  else if String.eqb name "verification_uri" then x ← to_string i v; Some (Build_DeviceAuth d u x c n e w)
  else if String.eqb name "verification_uri_complete" then x ← to_string c v; Some (Build_DeviceAuth d u i x n e w)
  else if String.eqb name "expires_in" then x ← to_int64 e v; Some (Build_DeviceAuth d u i c n x w)
  else x ← to_int64 n v; Some (Build_DeviceAuth d u i c x e w).
Definition to_device : json -> option DeviceAuth :=
  to_struct ["device_code"; "user_code"; "verification_uri"; "verification_uri_complete"; "expires_in"; "interval"]%string
    set_device (Build_DeviceAuth "" "" "" "" 0 0 "").

Section issuer.
  Variable parseHost : string -> string -> option string.
  Variable ToLower : string -> string.
  Variable urlString : URL -> string.

(** [checkEndpoint]. *)
Definition checkEndpoint (raw : string) : option URL :=
  u ← Parse parseHost raw;
  if empty (u_Scheme u) || empty (u_Host u) then None
  else if negb (String.eqb (u_Scheme u) "https") then None
  else if u_User u then None
  else if negb (empty (u_Fragment u)) || negb (empty (u_RawFragment u)) then None
  else Some u.

(** The media type of a [Content-Type]. *)
Definition is_json_type (contentType : string) : bool :=
  String.eqb (trim_space (ToLower (cut_pair ";" contentType).1)) "application/json".

(** [issuerCode]. *)
Definition to_error : json -> option string := to_struct ["error"%string] (fun e _ v => to_string e v) EmptyString.
Definition issuerCode (contentType : string) (body : option string) : string :=
  if negb (is_json_type contentType) then EmptyString
  else default EmptyString (b ← body; v ← parse_json b; to_error v).

(** [do] past the request. *)
Definition judge_answer (r : option httpAnswer) : string + clientErr :=
  match r with
  | None => inr Transport
  | Some a =>
      if (300 <=? ha_Status a) && (ha_Status a <? 400) then inr OtherError
      else if ha_Status a =? 200 then
        match readIssuerBody (ha_Body a) with Some b => inl b | None => inr OtherError end
      else if (400 <=? ha_Status a) && (ha_Status a <? 500) then
        inr (IssuerError (ha_Status a) (issuerCode (ha_ContentType a) (readIssuerBody (ha_Body a))))
      else inr (StatusError (ha_Status a))
  end.

(** [postFormBody] and [postForm]; a bad endpoint is no typed error. *)
Definition postFormBody (endpoint : string) (form : Values) : iprog (string + clientErr) :=
  match checkEndpoint endpoint with
  | None => mret (inr OtherError)
  | Some _ => r ← ask (SendPost endpoint form); mret (judge_answer r)
  end.
Definition postForm (endpoint : string) (form : Values) : iprog (TokenResponse + clientErr) :=
  r ← postFormBody endpoint form;
  mret (match r with
        | inr e => inr e
        | inl body => match decodeOne to_token body with Some t => inl t | None => inr (StatusError 200) end
        end).

(** [Discover] past the fetch. *)
Definition check_metadata (issuer : string) (doc : Metadata) : Metadata + clientErr :=
  if negb (String.eqb (md_Issuer doc) issuer) then inr OtherError
  else if empty (md_TokenEndpoint doc) then inr OtherError
  else if existsb (fun url => negb (empty url) && negb (bool_decide (is_Some (checkEndpoint url))))
            [md_TokenEndpoint doc; md_DeviceAuthorizationEndpoint doc; md_RevocationEndpoint doc]
  then inr OtherError
  else inl doc.
Definition Discover (issuer : string) : iprog (Metadata + clientErr) :=
  match checkEndpoint issuer with
  | None => mret (inr OtherError)
  | Some base =>
      r ← ask (SendGet (default (urlString base) (cut_suffix "/" (urlString base)) +:+ discoveryPath));
      mret (match judge_answer r with
            | inr e => inr e
            | inl body =>
                match decodeOne to_metadata body with
                | None => inr OtherError
                | Some doc => check_metadata issuer doc
                end
            end)
  end.

(** [Refresh] and [Revoke], of refresh.go. *)
Definition form_of (l : list (string * string)) : Values := list_to_map (map (fun x => (x.1, [x.2])) l).
Definition Refresh (m : Metadata) (clientID refreshToken : string) : iprog (TokenResponse + clientErr) :=
  postForm (md_TokenEndpoint m)
    (form_of [("grant_type", "refresh_token"); ("refresh_token", refreshToken); ("client_id", clientID)]%string).
Definition Revoke (m : Metadata) (clientID refreshToken : string) : iprog (option clientErr) :=
  if empty (md_RevocationEndpoint m) then mret (Some OtherError)
  else
    r ← postFormBody (md_RevocationEndpoint m)
          (form_of [("token", refreshToken); ("token_type_hint", "refresh_token"); ("client_id", clientID)]%string);
    mret (match r with inl _ => None | inr e => Some e end).

(** ** The device grant *)

(** [challengeOf]. *)
Definition sum_bytes (l : list Z) : string := fold_right (fun b s => String (of_byte b) s) EmptyString l.
Definition challengeOf (verifier : string) : string := b64_encode (sum_bytes (sha256 verifier)).

(** [newVerifier]: what of 32 random bytes. *)
Definition newVerifier : iprog (string + clientErr) :=
  b ← ask Entropy;
  mret (match (b : option string) with Some b => inl (b64_encode b) | None => inr OtherError end).

(** The checks of [Authorize] on the response. *)
Definition check_device (verifier : string) (dr : DeviceAuth) : DeviceAuth + clientErr :=
  if empty (da_DeviceCode dr) || empty (da_UserCode dr) || empty (da_VerificationURI dr) then inr OtherError
  else if da_ExpiresIn dr <=? 0 then inr OtherError
  else inl {| da_DeviceCode := da_DeviceCode dr; da_UserCode := da_UserCode dr;
              da_VerificationURI := da_VerificationURI dr;
              da_VerificationURIComplete := da_VerificationURIComplete dr; da_Interval := da_Interval dr;
              da_ExpiresIn := da_ExpiresIn dr; da_verifier := verifier |}.

Definition device_form (clientID : string) (scopes : list string) (verifier : option string) : Values :=
  form_of ([("client_id"%string, clientID)] ++
    (match scopes with [] => [] | _ => [("scope"%string, join_with " " scopes)] end) ++
    (match verifier with
     | Some v => [("code_challenge"%string, challengeOf v); ("code_challenge_method"%string, "S256"%string)]
     | None => []
     end)).

Definition device_request (m : Metadata) (clientID : string) (scopes : list string) (verifier : option string) :
    iprog (DeviceAuth + clientErr) :=
  r ← postFormBody (md_DeviceAuthorizationEndpoint m) (device_form clientID scopes verifier);
  mret (match r with
        | inr e => inr e
        | inl body =>
            match decodeOne to_device body with
            | None => inr (StatusError 200)
            | Some dr => check_device (default EmptyString verifier) dr
            end
        end).

Definition Authorize (m : Metadata) (clientID : string) (scopes : list string) (pkce : bool) :
    iprog (DeviceAuth + clientErr) :=
  if empty (md_DeviceAuthorizationEndpoint m) then mret (inr Usage)
  else if pkce then
    v ← newVerifier;
    match (v : string + clientErr) with
    | inr e => mret (inr e)
    | inl v => device_request m clientID scopes (Some v)
    end
  else device_request m clientID scopes None.

(** [classifyPoll]: a poll that is retried, raising the interval or not, or the
    error that stops. *)
Definition classifyPoll (e : clientErr) : bool + clientErr :=
  match e with
  | IssuerError status code =>
      if String.eqb code "authorization_pending" then inl false
      else if String.eqb code "slow_down" then inl true
      else if empty code then inr e
      else inr (DeviceError code)
  | StatusError status => if 500 <=? status then inl false else inr e
  | Transport => inl false
  | _ => inr e
  end.

Definition poll_form (clientID : string) (d : DeviceAuth) : Values :=
  form_of ([("grant_type"%string, deviceGrantType); ("device_code"%string, da_DeviceCode d); ("client_id"%string, clientID)] ++
    (if empty (da_verifier d) then [] else [("code_verifier"%string, da_verifier d)])).

Section poll.
  Variable m : Metadata.
  Variable form : Values.
  Variable deadline : time.

(** The loop of [Poll]; nothing when the fuel runs out. *)
Fixpoint poll_loop (fuel : nat) (interval : duration) : iprog (option (TokenResponse + clientErr)) :=
  match fuel with
  | O => mret None
  | S fuel =>
      now ← ask Clock;
      if negb (now <? deadline) then mret (Some (inr DeadlineError))
      else
        r ← postForm (md_TokenEndpoint m) form;
        match (r : TokenResponse + clientErr) with
        | inl t => mret (Some (inl t))
        | inr e =>
            gone ← ask CtxDone;
            if (gone : bool) then mret (Some (inr ContextError))
            else
              match classifyPoll e with
              | inr stop => mret (Some (inr stop))
              | inl raise =>
                  let interval := if (raise : bool) then interval +! slowDownIncrement else interval in
                  now ← ask Clock;
                  if negb (now + interval <? deadline) then mret (Some (inr DeadlineError))
                  else
                    slept ← ask (Sleep interval);
                    if negb (slept : bool) then mret (Some (inr ContextError)) else poll_loop fuel interval
              end
        end
  end.
End poll.

Definition poll_interval (d : DeviceAuth) : duration :=
  let interval := da_Interval d *! second in if interval <=? 0 then defaultPollInterval else interval.
Definition Poll (fuel : nat) (m : Metadata) (clientID : string) (d : DeviceAuth) (deadline : time) :
    iprog (option (TokenResponse + clientErr)) :=
  poll_loop m (poll_form clientID d) deadline fuel (poll_interval d).
End issuer.

(** ** The polling loop *)

Section polling.
  Variable parseHost : string -> string -> option string.
  Variable ToLower : string -> string.
  Variables (m : Metadata) (form : Values) (deadline : time) (interval0 : duration).

(** What a post's answer is to the loop. *)
Definition polled (r : option httpAnswer) : TokenResponse + clientErr :=
  match judge_answer ToLower r with
  | inr e => inr e
  | inl body => match decodeOne to_token body with Some t => inl t | None => inr (StatusError 200) end
  end.
Definition slowed (e : answered issuerCall) : Z :=
  match e with
  | At (SendPost _ _) r => match polled r with inr e => if decide (classifyPoll e = inl true) then 1 else 0 | inl _ => 0 end
  | _ => 0
  end.
(** The interval after the answers of a history. *)
Fixpoint raised (h : list (answered issuerCall)) : duration :=
  match h with [] => interval0 | e :: h => raised h + slowed e * slowDownIncrement end.

(** A post follows a clock reading before the deadline, and the sleep of a whole
    interval unless it is the first; a sleep is the interval raised by every
    slow_down so far, and ends before the deadline. *)
Definition starts_poll (h : list (answered issuerCall)) : Prop :=
  exists now h', h = At Clock now :: h' /\ now < deadline /\
    (h' = [] \/ exists d h'', h' = At (Sleep d) true :: h'' /\ d = raised h'').
Definition poll_ok (h : list (answered issuerCall)) (R : Type) (c : issuerCall R) : Prop :=
  match c with
  | SendPost url f => url = md_TokenEndpoint m /\ f = form /\ starts_poll h
  | SendGet _ | Entropy => False
  | Sleep d => d = raised h /\ exists now h', h = At Clock now :: h' /\ now + d < deadline
  | _ => True
  end.

Lemma postForm_eq (endpoint : string) (f : Values) :
  postForm parseHost ToLower endpoint f =
    match checkEndpoint parseHost endpoint with
    | None => mret (inr OtherError)
    | Some _ => r ← ask (SendPost endpoint f); mret (polled r)
    end.
Proof. unfold postForm, postFormBody. by destruct (checkEndpoint parseHost endpoint). Qed.

(** A token is one the last post was answered with. *)
Definition polled_token (h : list (answered issuerCall)) (t : TokenResponse) : Prop :=
  exists url f r h', h = At (SendPost url f) r :: h' /\ polled r = inl t.

Lemma poll_loop_ok (fuel : nat) (interval : duration) (h : list (answered issuerCall)) :
  interval = raised h -> 0 <= interval -> interval + Z.of_nat fuel * slowDownIncrement <= max_int64 ->
  (h = [] \/ exists d h'', h = At (Sleep d) true :: h'' /\ d = raised h'') ->
  pre poll_ok (poll_loop parseHost ToLower m form deadline fuel interval) h
    (fun r h' => forall t, r = Some (inl t) -> polled_token h' t).
Proof.
  revert interval h. induction fuel as [|fuel IH]; intros interval h Hi H0 Hmax Hh; [done|].
  cbn [poll_loop]. apply pre_ask; [done|]. intros now.
  destruct (now <? deadline) eqn:Ed; cbn [negb]; [|done]. to_prop.
  apply pre_bind. rewrite postForm_eq. destruct (checkEndpoint parseHost (md_TokenEndpoint m)) as [u|].
  2: { apply pre_ask; [done|]. by intros [|]. }
  apply pre_ask. { split; [done|]. split; [done|]. exists now, h. split_and!; [done..|exact Hh]. }
  intros r. cbn [pre mret itx_mret].
  destruct (polled r) as [t|e] eqn:Er.
  { intros t' [= <-]. by exists (md_TokenEndpoint m), form, r, (At Clock now :: h). }
  apply pre_ask; [done|]. intros [|]; [done|]. destruct (classifyPoll e) as [raise|stop] eqn:Ec; [|done].
  set (h2 := At CtxDone false :: At (SendPost (md_TokenEndpoint m) form) r :: At Clock now :: h).
  assert ((if raise then interval +! slowDownIncrement else interval) = raised h2 /\ 0 <= raised h2 /\
    raised h2 + Z.of_nat fuel * slowDownIncrement <= max_int64) as (Hr & Hr0 & Hrm).
  { subst h2. cbn [raised]. unfold slowed. rewrite Er, <-Hi, Ec. unfold slowDownIncrement, second in *. destruct raise.
    - rewrite decide_True by done. rewrite wrap64_id by in64. lia.
    - rewrite decide_False by done. lia. }
  apply pre_ask; [done|]. intros now2. rewrite Hr. destruct (now2 + raised h2 <? deadline) eqn:E2; cbn [negb]; [|done].
  to_prop. apply pre_ask.
  { split; [cbn [raised slowed]; lia|]. by exists now2, h2. }
  intros [|]; [|done]. cbn [negb].
  assert (raised (At (Sleep (raised h2)) true :: At Clock now2 :: h2) = raised h2) as Hs by (cbn [raised slowed]; lia).
  apply IH; [exact (eq_sym Hs)|done|done|]. right. exists (raised h2), (At Clock now2 :: h2). split; [done|].
  cbn [raised slowed]. lia.
Qed.
End polling.

(** ** Its end *)

(** A clock that never reads less than what it read before and what was slept
    since; [start] bounds the first reading. *)
Fixpoint clock_at (start : time) (h : list (answered issuerCall)) : time :=
  match h with
  | [] => start
  | At Clock t :: _ => t
  | At (Sleep d) _ :: h => clock_at start h + d
  | _ :: h => clock_at start h
  end.
Fixpoint honest (start : time) (h : list (answered issuerCall)) : Prop :=
  match h with
  | [] => True
  | At Clock t :: h => clock_at start h <= t /\ honest start h
  | _ :: h => honest start h
  end.

Lemma honest_app (start : time) (g h : list (answered issuerCall)) : honest start (g ++ h) -> honest start h.
Proof.
  induction g as [|[R [url|url form| |d| |] r] g IH]; cbn [app honest]; auto. intros [_ H]. auto.
Qed.

Section ending.
  Variable parseHost : string -> string -> option string.
  Variable ToLower : string -> string.

Lemma poll_loop_out (m : Metadata) (form : Values) (deadline start : time) (fuel : nat) (interval : duration) h log :
  0 < interval -> interval + Z.of_nat fuel * slowDownIncrement <= max_int64 ->
  runs (poll_loop parseHost ToLower m form deadline fuel interval) h log None -> honest start log ->
  fuel = O \/ clock_at start h + Z.of_nat fuel * interval < deadline.
Proof.
  revert interval h. induction fuel as [|fuel IH]; intros interval h H0 Hmax H Hl; [by left|right].
  cbn [poll_loop] in H. apply runs_ask in H as [now H]. destruct (now <? deadline); cbn [negb] in H; [|by destruct H].
  rewrite postForm_eq in H. destruct (checkEndpoint parseHost (md_TokenEndpoint m)) as [u|].
  2: { apply runs_bind in H as (r & h1 & [<- <-] & H). by apply runs_ask in H as [[|] [? _]]. }
  apply runs_bind in H as (r & h1 & Hp & H). apply runs_ask in Hp as [a [<- <-]].
  destruct (polled ToLower a) as [t|e]; [by destruct H|]. apply runs_ask in H as [[|] H]; [by destruct H|].
  destruct (classifyPoll e) as [raise|stop]; [|by destruct H]. apply runs_ask in H as [now2 H].
  set (i' := if raise then interval +! slowDownIncrement else interval) in H.
  destruct (now2 + i' <? deadline) eqn:E2; cbn [negb] in H; [|by destruct H]. to_prop.
  apply runs_ask in H as [[|] H]; cbn [negb] in H; [|by destruct H].
  assert (interval <= i' /\ i' + Z.of_nat fuel * slowDownIncrement <= max_int64) as [Hi Him].
  { subst i'. unfold slowDownIncrement, second in *. destruct raise; [rewrite wrap64_id by in64|]; lia. }
  pose proof (runs_grows _ _ _ _ H) as [g ->]. pose proof (honest_app _ _ _ Hl) as Hh.
  cbn [honest] in Hh. destruct Hh as (Hh1 & Hh2 & _). cbn [clock_at] in Hh1.
  apply IH in H; [|lia|done|done]. cbn [clock_at] in H. destruct H as [->|H]; nia.
Qed.

(** C27: polling keeps to its schedule: every post goes to the token endpoint, is sent
    before the deadline, and waits a whole interval after the one before, raised
    by every slow_down; a token is what the last post was answered; and on a
    clock that does not run backwards it ends, with the fuel of one round for
    each interval up to the deadline. *)
Theorem Poll_paced (fuel : nat) (m : Metadata) (clientID : string) (d : DeviceAuth) (deadline : time)
    (log : list (answered issuerCall)) (r : option (TokenResponse + clientErr))
    (Hmax : poll_interval d + Z.of_nat fuel * slowDownIncrement <= max_int64)
    (Hr : runs (Poll parseHost ToLower fuel m clientID d deadline) [] log r) :
  grew (poll_ok ToLower m (poll_form clientID d) deadline (poll_interval d)) [] log /\
  (forall t, r = Some (inl t) -> polled_token ToLower log t) /\
  (forall start, honest start log -> (0 < fuel)%nat -> deadline - start <= Z.of_nat fuel * poll_interval d -> r <> None).
Proof.
  assert (0 < poll_interval d) as Hp.
  { unfold poll_interval. destruct (_ <=? 0) eqn:E; [done|]. to_prop. done. }
  pose proof Hr as Hrun. unfold Poll in Hr. eapply pre_runs in Hr as [Hq Hg].
  2: { apply poll_loop_ok with (interval0 := poll_interval d); [done|lia|done|by left]. }
  split; [exact Hg|]. split; [exact Hq|]. intros start Hh Hf Hd ->.
  apply (poll_loop_out _ _ _ start) in Hrun; [|done..]. cbn [clock_at] in Hrun. destruct Hrun; lia.
Qed.
End ending.

(** ** Discovery and the verifier *)

Section documents.
  Variable parseHost : string -> string -> option string.
  Variable ToLower : string -> string.
  Variable urlString : URL -> string.

(** An endpoint that is requested: absolute, https, without userinfo or fragment. *)
Lemma checkEndpoint_ok (raw : string) (u : URL) :
  checkEndpoint parseHost raw = Some u ->
  Parse parseHost raw = Some u /\ u_Scheme u = "https"%string /\ u_Host u <> EmptyString /\ u_User u = false /\
  u_Fragment u = EmptyString /\ u_RawFragment u = EmptyString.
Proof.
  unfold checkEndpoint. destruct (Parse parseHost raw) as [v|]; [|done]. cbn [mbind option_bind].
  destruct (empty (u_Scheme v) || empty (u_Host v)) eqn:E1; [done|].
  destruct (String.eqb (u_Scheme v) "https") eqn:E2; [|done]. cbn [negb]. destruct (u_User v) eqn:E3; [done|].
  destruct (empty (u_Fragment v)) eqn:E4; [|done]. destruct (empty (u_RawFragment v)) eqn:E5; [|done].
  intros [= <-]. apply orb_false_iff in E1 as [_ E1]. apply String.eqb_eq in E2.
  rewrite empty_false in E1. rewrite empty_true in E4, E5. by split_and!.
Qed.

Definition endpoint_ok (raw : string) : Prop := is_Some (checkEndpoint parseHost raw).

(** Every request goes to such an endpoint. *)
Definition safe_request (h : list (answered issuerCall)) (R : Type) (c : issuerCall R) : Prop :=
  match c with SendPost url _ => endpoint_ok url | _ => True end.

Lemma postFormBody_safe (endpoint : string) (form : Values) h :
  pre safe_request (postFormBody parseHost ToLower endpoint form) h (fun _ _ => True).
Proof.
  unfold postFormBody. destruct (checkEndpoint parseHost endpoint) as [u|] eqn:E; [|done].
  apply pre_ask; [|done]. simpl. unfold endpoint_ok. rewrite E. by eexists.
Qed.

(** Discovery gives a document of the issuer asked for, byte for byte, with a
    token endpoint, each endpoint it names one that may be requested. *)
Lemma Discover_sound (issuer : string) h h' (doc : Metadata) :
  runs (Discover parseHost ToLower urlString issuer) h h' (inl doc) ->
  md_Issuer doc = issuer /\ endpoint_ok issuer /\ endpoint_ok (md_TokenEndpoint doc) /\
  (md_DeviceAuthorizationEndpoint doc = EmptyString \/ endpoint_ok (md_DeviceAuthorizationEndpoint doc)) /\
  (md_RevocationEndpoint doc = EmptyString \/ endpoint_ok (md_RevocationEndpoint doc)).
Proof.
  unfold Discover, endpoint_ok. destruct (checkEndpoint parseHost issuer) as [u|]; [|by intros [? _]].
  intros H. apply runs_ask in H as [r [H _]]. destruct (judge_answer ToLower r) as [body|]; [|done].
  destruct (decodeOne to_metadata body) as [d|]; [|done]. unfold check_metadata in H.
  destruct (String.eqb (md_Issuer d) issuer) eqn:E1; [|done]. destruct (empty (md_TokenEndpoint d)) eqn:E2; [done|].
  destruct (existsb _ _) eqn:E3; [done|]. injection H as <-. apply String.eqb_eq in E1. cbn [existsb] in E3.
  rewrite E2 in E3. cbn [negb andb] in E3. rewrite !orb_false_iff, !andb_false_iff in E3.
  rewrite !negb_false_iff, !bool_decide_eq_true in E3. rewrite !empty_true in E3.
  split; [done|]. split; [by eexists|]. tauto.
Qed.

Lemma b64_encode_nonempty (b : string) : b <> EmptyString -> b64_encode b <> EmptyString.
Proof. intros Hb E. by destruct b as [|x [|y [|z b]]]. Qed.

(** Under PKCE the verifier every poll carries is the one whose challenge the
    device endpoint was given. *)
Lemma verifier_bound (m : Metadata) (clientID : string) (scopes : list string) h h' (d : DeviceAuth) :
  runs (Authorize parseHost ToLower m clientID scopes true) h h' (inl d) ->
  exists b f, At Entropy (Some b) ∈ h' /\ da_verifier d = b64_encode b /\
    f !! "code_challenge"%string = Some [challengeOf (b64_encode b)] /\
    f !! "code_challenge_method"%string = Some ["S256"%string] /\
    (exists r, At (SendPost (md_DeviceAuthorizationEndpoint m) f) r ∈ h') /\
    (b <> EmptyString -> poll_form clientID d !! "code_verifier"%string = Some [b64_encode b]).
Proof.
  unfold Authorize. destruct (empty _); [by intros [? _]|]. intros H. apply runs_bind in H as (v & h1 & Hv & H).
  apply runs_ask in Hv as [[b|] [<- <-]]; [|by destruct H]. unfold device_request, postFormBody in H.
  destruct (checkEndpoint parseHost _) as [u|]; [|by destruct H].
  apply runs_bind in H as (r & h2 & Hr & [H <-]). apply runs_ask in Hr as [a [<- <-]].
  destruct (judge_answer ToLower a) as [body|]; [|done]. destruct (decodeOne to_device body) as [dr|]; [|done].
  unfold check_device in H. destruct (_ || _); [done|]. destruct (_ <=? 0); [done|]. injection H as <-.
  exists b, (device_form clientID scopes (Some (b64_encode b))). cbn [da_verifier default].
  split; [logged|]. split; [done|]. unfold device_form, form_of.
  split_and!.
  - by destruct scopes.
  - by destruct scopes.
  - exists a. logged.
  - intros Hb. unfold poll_form. cbn [da_verifier da_DeviceCode default].
    rewrite (proj2 (empty_false _) (b64_encode_nonempty b Hb)). done.
Qed.
End documents.

(** ** Instances *)

Definition demo_metadata : Metadata :=
  Build_Metadata "https://id.example" "https://id.example/device" "https://id.example/token" "".
Definition demo_device : DeviceAuth := Build_DeviceAuth "dc" "ABCD" "https://id.example/activate" "" 2 600 "".
Definition refusal_of (code : string) : option httpAnswer :=
  Some {| ha_Status := 400; ha_ContentType := "application/json; charset=utf-8";
          ha_Body := Some (print (JObj [("error"%string, JStr code)])) |}.
Definition token_of (t : string) : option httpAnswer :=
  Some {| ha_Status := 200; ha_ContentType := "application/json";
          ha_Body := Some (print (JObj [("access_token"%string, JStr t); ("expires_in"%string, JNum "300")])) |}.

(** An issuer that asks to wait, then to slow down, then answers; the clock is
    the time slept. *)
Fixpoint slept (h : list (answered issuerCall)) : duration :=
  match h with [] => 0 | At (Sleep d) _ :: h => d + slept h | _ :: h => slept h end.
Fixpoint posts (h : list (answered issuerCall)) : nat :=
  match h with [] => O | At (SendPost _ _) _ :: h => S (posts h) | _ :: h => posts h end.
Definition demo_issuer (R : Type) (c : issuerCall R) (h : list (answered issuerCall)) : R :=
  match c in issuerCall R return R with
  | SendGet _ => None
  | SendPost _ _ => match posts h with O => refusal_of "authorization_pending" | 1%nat => refusal_of "slow_down" | _ => token_of "tok" end
  | Clock => slept h
  | Sleep _ => true
  | CtxDone => false
  | Entropy => None
  end.
Definition demo_poll : option (TokenResponse + clientErr) * list (answered issuerCall) :=
  run demo_issuer (Poll any_host lower 5 demo_metadata "cli" demo_device (600 * second)) [].

Example demo_token : demo_poll.1 = Some (inl (Build_TokenResponse "" "tok" "" 300 0)).
Proof. by vm_compute. Qed.
(** Two seconds, then seven. *)
Example demo_waits : slept demo_poll.2 = 9 * second.
Proof. by vm_compute. Qed.

Lemma Poll_paced_witness :
  grew (poll_ok lower demo_metadata (poll_form "cli" demo_device) (600 * second) (poll_interval demo_device)) []
    demo_poll.2 /\ polled_token lower demo_poll.2 (Build_TokenResponse "" "tok" "" 300 0).
Proof.
  assert (poll_interval demo_device + Z.of_nat 5 * slowDownIncrement <= max_int64) as Hmax
    by (apply Z.leb_le; vm_compute; reflexivity).
  destruct (Poll_paced any_host lower 5 demo_metadata "cli" demo_device (600 * second) demo_poll.2 demo_poll.1 Hmax
    (run_runs demo_issuer (Poll any_host lower 5 demo_metadata "cli" demo_device (600 * second)) [])) as (H1 & H2 & _).
  split; [exact H1|]. apply H2. vm_compute. reflexivity.
Defined.
