(* ===== verification/TokenCache.v ===== *)
(** * The token cache of the command line

    src/internal/client/cache.go, refresh.go, expiry.go, and what logout, the
    deletion of a context and a login do to an entry: programs over the file
    system's calls, clock readings, sleeps and the requests to the issuer, which
    ClientIssuer.v models.  A file of the cache is the [Entry] its JSON holds;
    the bound on the rounds of a lock is fuel. *)

From S2P Require Import Prelude Base64 Sha256 Config Query Routes Json Claims Url Interaction Contexts ClientIssuer.

Definition lockTimeout : duration := 30 * second.
Definition millisecond : duration := 1000000.
Definition lockInterval : duration := 100 * millisecond.
Definition refreshWindow : duration := 30 * second.
Definition maxTokenBytes : Z := Z.shiftl 16 10.

Record Entry := {
  e_Origin : string; e_Issuer : string; e_ClientID : string; e_TokenType : string; e_Token : string;
  e_ExpiresAt : time; e_RefreshToken : string; e_RefreshExpiresAt : time; e_ObtainedAt : time
}.
#[export] Instance Entry_dec : EqDecision Entry.
Proof. solve_decision. Defined.

(** ** The file system *)

Inductive storePath := Dir | EntryFile (name : string) | LockFile (name : string).
Inductive statAnswer := NoFile | StatFailed | Perm (bits : Z).
Inductive readAnswer := Absent | Broken | Found (e : Entry).
Inductive removeAnswer := Removed | Missing | RemoveFailed.
Inductive lockAnswer := Created | Held | CreateFailed.

Inductive cacheCall : Type -> Type :=
  | Stat (p : storePath) : cacheCall statAnswer
  | MkdirAll : cacheCall bool
  | ReadEntry (name : string) : cacheCall readAnswer
  | WriteEntry (name : string) (e : Entry) : cacheCall bool
  | RemoveEntry (name : string) : cacheCall removeAnswer
  | CreateLock (name : string) : cacheCall lockAnswer
  | RemoveLock (name : string) : cacheCall bool
  | Now : cacheCall time
  | Pause (d : duration) : cacheCall bool
  | OnIssuer {R : Type} (c : issuerCall R) : cacheCall R
  | SaveFile (f : File) : cacheCall bool.
Abbreviation cprog := (itx cacheCall).

(** What a call of the package returns; nothing when the fuel runs out. *)
Abbreviation res A := (option (A + clientErr)).
Definition ok {A} (a : A) : res A := Some (inl a).
Definition err {A} (e : clientErr) : res A := Some (inr e).
Definition try {A B} (p : cprog (res A)) (k : A -> cprog (res B)) : cprog (res B) :=
  r ← p;
  match r with
  | None => mret None
  | Some (inr e) => mret (err e)
  | Some (inl a) => k a
  end.
Notation "x ←! p ; k" := (try p (fun x => k)) (at level 20, p at level 100, k at level 200) : go_scope.

(** ** The store *)

(** [checkName]: a context's label or a digest's name. *)
Definition digestName (name : string) : bool :=
  match cut_prefix "adhoc-" name with
  | Some d => (String.length d =? 32)%nat && all_bytes is_hex d
  | None => false
  end.
Definition checkName (name : string) : bool := isDNSLabel name || digestName name.

(** [checkMode]: a path that grants nothing to group or other. *)
Definition checkMode (p : storePath) : cprog (res unit) :=
  a ← ask (Stat p);
  mret (match (a : statAnswer) with
        | NoFile => ok tt
        | StatFailed => err OtherError
        | Perm bits => if Z.land bits 63 =? 0 then ok tt else err Usage
        end).

Definition check (name : string) : cprog (res unit) :=
  if negb (checkName name) then mret (err Usage)
  else
    _ ←! checkMode Dir;
    _ ←! checkMode (EntryFile name);
    checkMode (LockFile name).

Definition storeRead (name : string) : cprog (res (option Entry)) :=
  _ ←! check name;
  a ← ask (ReadEntry name);
  mret (match (a : readAnswer) with
        | Absent => ok None
        | Broken => err OtherError
        | Found e => ok (Some e)
        end).

Definition storeWrite (name : string) (e : Entry) : cprog (res unit) :=
  if negb (checkName name) then mret (err Usage)
  else
    made ← ask MkdirAll;
    if negb (made : bool) then mret (err OtherError)
    else
      _ ←! check name;
      w ← ask (WriteEntry name e);
      mret (if (w : bool) then ok tt else err OtherError).

Definition storeDelete (name : string) : cprog (res unit) :=
  _ ←! check name;
  a ← ask (RemoveEntry name);
  mret (match (a : removeAnswer) with Removed | Missing => ok tt | RemoveFailed => err OtherError end).

(** The loop of [Lock]. *)
Fixpoint lock_loop (fuel : nat) (name : string) (deadline : time) : cprog (res unit) :=
  match fuel with
  | O => mret None
  | S fuel =>
      _ ←! check name;
      a ← ask (CreateLock name);
      match (a : lockAnswer) with
      | Created => mret (ok tt)
      | CreateFailed => mret (err OtherError)
      | Held =>
          now ← ask Now;
          if negb (now <? deadline) then mret (err OtherError)
          else
            slept ← ask (Pause lockInterval);
            if negb (slept : bool) then mret (err ContextError) else lock_loop fuel name deadline
      end
  end.
Definition Lock (fuel : nat) (name : string) : cprog (res unit) :=
  if negb (checkName name) then mret (err Usage)
  else
    made ← ask MkdirAll;
    if negb (made : bool) then mret (err OtherError)
    else now ← ask Now; lock_loop fuel name (now + lockTimeout).

(** What runs under the lock, and the deferred release, whose failure is the
    error of a call that had none. *)
Definition locked_by {A} (fuel : nat) (name : string) (body : cprog (res A)) : cprog (res A) :=
  _ ←! Lock fuel name;
  r ← body;
  released ← ask (RemoveLock name);
  mret (match r with Some (inl _) => if (released : bool) then r else err OtherError | _ => r end).

(** [Usable]. *)
Definition Usable (e : Entry) (s : Settings) : bool :=
  String.eqb (e_Origin e) (s_Origin s) &&
  (let a := gc_Auth (s_Context s) in
   empty (as_Mode a) ||
   (String.eqb (e_Issuer e) (as_Issuer a) && String.eqb (e_ClientID e) (as_ClientID a)
    && String.eqb (e_TokenType e) (as_TokenType a))).

(** ** Expiry *)

Section expiry.
  (** The [int64] of a double out of its range, which the language leaves open. *)
  Variable wild : Z -> Z.

(** The number of seconds in a literal; [ParseFloat] refuses one past the
    largest double. *)
Definition exp_seconds (lit : string) : option Z :=
  let '(neg, m, e) := decimal lit in
  let t := magnitude m e in
  if 2 ^ 1024 <=? t then None
  else
    let v := if neg : bool then - t else t in
    Some (if (min_int64 <=? v) && (v <=? max_int64) then v else wild v).
(** [time.Unix(sec, 0)]: the seconds since year 1 are an [int64]. *)
Definition unix_time (sec : Z) : time := (wrap64 (sec + 62135596800) - 62135596800) * second.

Definition tokenExp (token : string) : option time :=
  if maxTokenBytes <? byte_len token then None
  else
    match split_at "." token with
    | _ :: payload :: _ :: _ =>
        b ← b64_decode payload;
        '(v, _) ← parse_prefix b;
        claims ← to_members v;
        match member "exp" claims with
        | Some (JNum lit) => sec ← exp_seconds lit; Some (unix_time sec)
        | _ => None
        end
    | _ => None
    end.

Definition ExpiryOf (tokenType token : string) (expiresIn : Z) (obtainedAt : time) : option time :=
  if String.eqb tokenType "access" then Some (obtainedAt + (expiresIn *! second))
  else if String.eqb tokenType "id" then tokenExp token
  else None.
Definition RefreshExpiryOf (refreshExpiresIn : Z) (obtainedAt : time) : time :=
  if refreshExpiresIn <=? 0 then zero_time else obtainedAt + (refreshExpiresIn *! second).

(** ** The cached credential *)

Section credential.
  Variable parseHost : string -> string -> option string.
  Variable ToLower : string -> string.
  Variable urlString : URL -> string.
  Variable fuel : nat.
  Variable s : Settings.

(** A call of the issuer's client made through the cache's. *)
Definition on_issuer {A} (p : itx issuerCall (A + clientErr)) : cprog (res A) :=
  r ← lift (fun R c => OnIssuer c) p; mret (Some r).

Definition fresh (e : Entry) (now : time) : bool := now + refreshWindow <? e_ExpiresAt e.

(** [permanent]: an issuer's 4xx that ends the refresh token's life. *)
Definition permanent (e : clientErr) : bool := match e with IssuerError status _ => negb (status =? 429) | _ => false end.

(** [refused]. *)
Definition refused (e : Entry) (failure : clientErr) : cprog (res string) :=
  if negb (permanent failure) then mret (err failure)
  else
    current ←! storeRead (s_CacheName s);
    match current with
    | Some c =>
        if e_ObtainedAt c =? e_ObtainedAt e
        then _ ←! storeDelete (s_CacheName s); mret (err LoginNeeded)
        else mret (err LoginNeeded)
    | None => mret (err LoginNeeded)
    end.

(** The entry [record] writes: the fresh token with its expiry, if there is one,
    and the refresh token with its own. *)
Definition refreshed_token (e : Entry) (tr : TokenResponse) : string :=
  if String.eqb (e_TokenType e) "id" then tr_IDToken tr else tr_AccessToken tr.
Definition refreshed (e : Entry) (tr : TokenResponse) (now : time) : option Entry :=
  let token := refreshed_token e tr in
  expiry ← (if empty token then Some (e_ExpiresAt e) else ExpiryOf (e_TokenType e) token (tr_ExpiresIn tr) now);
  Some {| e_Origin := e_Origin e; e_Issuer := e_Issuer e; e_ClientID := e_ClientID e; e_TokenType := e_TokenType e;
          e_Token := if empty token then e_Token e else token;
          e_ExpiresAt := expiry;
          e_RefreshToken := if empty (tr_RefreshToken tr) then e_RefreshToken e else tr_RefreshToken tr;
          e_RefreshExpiresAt := if negb (empty (tr_RefreshToken tr)) || (0 <? tr_RefreshExpiresIn tr)
                                then RefreshExpiryOf (tr_RefreshExpiresIn tr) now else e_RefreshExpiresAt e;
          e_ObtainedAt := now |}.
Definition record (e : Entry) (tr : TokenResponse) : cprog (res string) :=
  now ← ask Now;
  match refreshed e tr now with
  | None => mret (err LoginNeeded)
  | Some e' =>
      _ ←! storeWrite (s_CacheName s) e';
      if empty (refreshed_token e tr) && negb (now <? e_ExpiresAt e') then mret (err LoginNeeded)
      else mret (ok (e_Token e'))
  end.

(** [refresh], under the lock. *)
Definition refresh_body : cprog (res string) :=
  entry ←! storeRead (s_CacheName s);
  match entry with
  | None => mret (err LoginNeeded)
  | Some e =>
      if negb (Usable e s) then mret (err LoginNeeded)
      else
        now ← ask Now;
        if fresh e now then mret (ok (e_Token e))
        else if empty (e_RefreshToken e) then mret (err LoginNeeded)
        else
          m ←! on_issuer (Discover parseHost ToLower urlString (e_Issuer e));
          r ← lift (fun R c => OnIssuer c) (Refresh parseHost ToLower m (e_ClientID e) (e_RefreshToken e));
          match (r : TokenResponse + clientErr) with
          | inr failure => refused e failure
          | inl tr => record e tr
          end
  end.
Definition refresh : cprog (res string) := locked_by fuel (s_CacheName s) refresh_body.

(** [Apply]: the bearer token of a request. *)
Definition Apply : cprog (res string) :=
  entry ←! storeRead (s_CacheName s);
  match entry with
  | None => mret (err LoginNeeded)
  | Some e =>
      if negb (Usable e s) then mret (err LoginNeeded)
      else
        now ← ask Now;
        if fresh e now then mret (ok (e_Token e))
        else if empty (e_RefreshToken e) then mret (err LoginNeeded)
        else if e_RefreshExpiresAt e =? zero_time then refresh
        else
          now ← ask Now;
          if negb (now <? e_RefreshExpiresAt e) then mret (err LoginNeeded) else refresh
  end.

(** [writeEntry] of a login, [Logout] and [DeleteContext]. *)
Definition writeEntry (e : Entry) : cprog (res unit) :=
  locked_by fuel (s_CacheName s) (storeWrite (s_CacheName s) e).

Definition revoke (e : Entry) : cprog unit :=
  m ← lift (fun R c => OnIssuer c) (Discover parseHost ToLower urlString (e_Issuer e));
  match (m : Metadata + clientErr) with
  | inr _ => mret tt
  | inl m =>
      if empty (md_RevocationEndpoint m) then mret tt
      else
        _ ← lift (fun R c => OnIssuer c) (Revoke parseHost ToLower m (e_ClientID e) (e_RefreshToken e));
        mret tt
  end.
Definition logout_body : cprog (res unit) :=
  entry ←! storeRead (s_CacheName s);
  match entry with
  | None => mret (ok tt)
  | Some e =>
      _ ← (if empty (e_RefreshToken e) then mret tt else revoke e);
      storeDelete (s_CacheName s)
  end.
Definition Logout : cprog (res unit) := locked_by fuel (s_CacheName s) logout_body.

Definition without_context (f : File) (name : string) : File :=
  {| fl_CurrentContext := if String.eqb (fl_CurrentContext f) name then EmptyString else fl_CurrentContext f;
     fl_Contexts := delete name (fl_Contexts f) |}.
Definition DeleteContext (f : File) (name : string) : cprog (res bool) :=
  if negb (requireContext (Some f) name) then mret (err Usage)
  else
    locked_by fuel name
      (_ ←! storeDelete name;
       saved ← ask (SaveFile (without_context f name));
       mret (if (saved : bool) then ok (String.eqb (fl_CurrentContext f) name) else err OtherError)).
End credential.
End expiry.

(** ** The discipline of the lock *)

Lemma pre_try {A B} ok0 (p : cprog (res A)) (k : A -> cprog (res B)) h Q :
  pre ok0 p h (fun r h' => match r with
                           | Some (inl a) => pre ok0 (k a) h' Q
                           | Some (inr e) => Q (err e) h'
                           | None => Q None h'
                           end) ->
  pre ok0 (try p k) h Q.
Proof. intros H. unfold try. apply pre_bind. eapply pre_mono; [exact H|]. by intros [[a|e]|] h'. Qed.

Section discipline.
  Variable name : string.

(** Whether the calls of a history have left the lock with their process. *)
Fixpoint holding (h : list (answered cacheCall)) : bool :=
  match h with
  | [] => false
  | At (CreateLock _) Created :: _ => true
  | At (RemoveLock _) _ :: _ => false
  | _ :: h => holding h
  end.

(** What the process knows the entry's file to hold: what it last read, wrote
    or removed since it has the lock. *)
Fixpoint view (h : list (answered cacheCall)) : option (option Entry) :=
  match h with
  | [] => None
  | At (CreateLock _) _ :: _ | At (RemoveLock _) _ :: _ => None
  | At (ReadEntry _) Absent :: _ => Some None
  | At (ReadEntry _) (Found e) :: _ => Some (Some e)
  | At (WriteEntry _ e) true :: _ => Some (Some e)
  | At (RemoveEntry _) Removed :: _ | At (RemoveEntry _) Missing :: _ => Some None
  | _ :: h => view h
  end.

(** An entry is changed under its lock, the lock is taken once and given back by
    the process that has it. *)
Definition disciplined (h : list (answered cacheCall)) (R : Type) (c : cacheCall R) : Prop :=
  match c with
  | ReadEntry n => n = name
  | WriteEntry n _ | RemoveEntry n => n = name /\ holding h = true
  | CreateLock n => n = name /\ holding h = false
  | RemoveLock n => n = name /\ holding h = true
  | _ => True
  end.

(** A program that leaves the lock as it found it. *)
Definition keeps {A} (p : cprog A) (h : list (answered cacheCall)) : Prop :=
  pre disciplined p h (fun _ h' => holding h' = holding h).

Lemma keeps_try {A B} (p : cprog (res A)) (k : A -> cprog (res B)) h :
  keeps p h -> (forall a h', holding h' = holding h -> keeps (k a) h') -> keeps (try p k) h.
Proof.
  intros Hp Hk. apply pre_try. eapply pre_mono; [exact Hp|]. intros [[a|e]|] h' Hh; [|done..].
  eapply pre_mono; [by apply Hk|]. by intros r h'' ->.
Qed.
Lemma keeps_bind {A B} (p : cprog A) (k : A -> cprog B) h :
  keeps p h -> (forall a h', holding h' = holding h -> keeps (k a) h') -> keeps (p ≫= k) h.
Proof.
  intros Hp Hk. apply pre_bind. eapply pre_mono; [exact Hp|]. intros a h' Hh.
  eapply pre_mono; [by apply Hk|]. by intros r h'' ->.
Qed.
Lemma keeps_ask {R B} (c : cacheCall R) (k : R -> cprog B) h :
  disciplined h R c -> (forall r, holding (At c r :: h) = holding h) -> (forall r, keeps (k r) (At c r :: h)) ->
  keeps (ask c ≫= k) h.
Proof.
  intros Hc Hr Hk. apply pre_ask; [done|]. intros r. eapply pre_mono; [apply Hk|]. cbn beta. intros a h'. by rewrite Hr.
Qed.
Lemma keeps_ret {A} (a : A) h : keeps (mret a) h.
Proof. done. Qed.
Lemma keeps_lift {A} (p : itx issuerCall A) h : keeps (lift (fun R c => OnIssuer c) p) h.
Proof.
  revert h. induction p as [a|R c k IH]; intros h; [done|]. split; [done|]. intros r.
  eapply pre_mono; [apply IH|]. by intros a h' ->.
Qed.
Lemma keeps_on_issuer {A} (p : itx issuerCall (A + clientErr)) h : keeps (on_issuer p) h.
Proof. apply keeps_bind; [apply keeps_lift|]. intros. apply keeps_ret. Qed.

Lemma check_keeps h : keeps (check name) h.
Proof.
  unfold check. destruct (negb _); [done|]. apply keeps_try; [by split|]. intros _ h1 _.
  apply keeps_try; [by split|]. intros _ h2 _. by split.
Qed.
Lemma storeRead_keeps h : keeps (storeRead name) h.
Proof.
  apply keeps_try; [apply check_keeps|]. intros _ h' _. apply pre_ask; [done|]. by intros [].
Qed.

(** What changes the entry needs the lock. *)
Lemma storeWrite_keeps (e : Entry) h : holding h = true -> keeps (storeWrite name e) h.
Proof.
  intros Hh. unfold storeWrite. destruct (negb _); [done|]. apply keeps_bind; [by split|].
  intros made h1 H1. destruct made; [|done]. apply keeps_try; [apply check_keeps|]. intros _ h2 H2.
  apply pre_ask; [split; [done|congruence]|]. by intros [].
Qed.
Lemma storeDelete_keeps h : holding h = true -> keeps (storeDelete name) h.
Proof.
  intros Hh. apply keeps_try; [apply check_keeps|]. intros _ h2 H2.
  apply pre_ask; [split; [done|congruence]|]. by intros [].
Qed.

Definition taken (r : res unit) : bool := match r with Some (inl _) => true | _ => false end.
Lemma lock_loop_takes (fuel : nat) (deadline : time) h :
  holding h = false ->
  pre disciplined (lock_loop fuel name deadline) h (fun r h' => holding h' = taken r).
Proof.
  revert h. induction fuel as [|fuel IH]; intros h Hh; [done|].
  cbn [lock_loop]. apply pre_try. eapply pre_mono; [apply check_keeps|]. cbn beta.
  intros [[[]|e]|] h1 H1; [|by rewrite Hh in H1..].
  apply pre_ask; [split; [done|congruence]|]. intros [| |]; [done| |simpl; congruence].
  apply pre_ask; [done|]. intros now. destruct (negb _); [simpl; congruence|].
  apply pre_ask; [done|]. intros [|]; cbn [negb]; [|simpl; congruence]. apply IH. simpl. congruence.
Qed.

Lemma locked_by_disciplined {A} (fuel : nat) (body : cprog (res A)) h :
  holding h = false -> (forall h', holding h' = true -> keeps body h') ->
  pre disciplined (locked_by fuel name body) h (fun _ h' => holding h' = false).
Proof.
  intros Hh Hb. apply pre_try. unfold Lock.
  assert (forall (r : res unit) h', holding h' = taken r ->
    match r with
    | Some (inl a) =>
        pre disciplined (r ← body; released ← ask (RemoveLock name);
          mret (match r with Some (inl _) => if (released : bool) then r else err OtherError | _ => r end)) h'
          (fun _ h' => holding h' = false)
    | Some (inr e) => holding h' = false
    | None => holding h' = false
    end) as Hend.
  { intros [[[]|e]|] h' H'; cbn [taken] in H'; [|done..].
    apply pre_bind. eapply pre_mono; [by apply Hb|]. cbn beta. intros r h1 H1.
    apply pre_ask; [split; [done|congruence]|]. done. }
  destruct (negb _).
  { simpl. done. }
  apply pre_ask; [done|]. intros [|]; cbn [negb]; [|simpl; done].
  apply pre_ask; [done|]. intros now. eapply pre_mono; [by apply lock_loop_takes|]. exact Hend.
Qed.
End discipline.

(** ** The verbs *)

Section verbs.
  Variable wild : Z -> Z.
  Variable parseHost : string -> string -> option string.
  Variable ToLower : string -> string.
  Variable urlString : URL -> string.
  Variable fuel : nat.
  Variable s : Settings.

Abbreviation name := (s_CacheName s).

Lemma refused_keeps (e : Entry) (failure : clientErr) h :
  holding h = true -> keeps name (refused s e failure) h.
Proof.
  intros Hh. unfold refused. destruct (negb _); [done|]. apply keeps_try; [apply storeRead_keeps|].
  intros [c|] h1 H1; [|done]. destruct (_ =? _); [|done].
  apply keeps_try; [apply storeDelete_keeps; congruence|done].
Qed.

Lemma record_keeps (e : Entry) (tr : TokenResponse) h :
  holding h = true -> keeps name (record wild s e tr) h.
Proof.
  intros Hh. apply keeps_ask; [done..|]. intros now. destruct (refreshed wild e tr now) as [e'|]; [|done].
  apply keeps_try; [by apply storeWrite_keeps|]. intros _ h1 _. by destruct (_ && _).
Qed.

Lemma refresh_body_keeps h : holding h = true -> keeps name (refresh_body wild parseHost ToLower urlString s) h.
Proof.
  intros Hh. apply keeps_try; [apply storeRead_keeps|]. intros [e|] h1 H1; [|done].
  destruct (negb (Usable e s)); [done|]. apply keeps_ask; [done..|]. intros now.
  destruct (fresh e now); [done|]. destruct (empty _); [done|].
  apply keeps_try; [apply keeps_on_issuer|]. intros m h2 H2. apply keeps_bind; [apply keeps_lift|].
  intros [tr|failure] h3 H3; cbn [holding] in *; [apply record_keeps|apply refused_keeps]; congruence.
Qed.

Lemma refresh_disciplined h :
  holding h = false ->
  pre (disciplined name) (refresh wild parseHost ToLower urlString fuel s) h (fun _ h' => holding h' = false).
Proof. intros Hh. apply locked_by_disciplined; [done|]. intros. by apply refresh_body_keeps. Qed.

Lemma Apply_disciplined h :
  holding h = false ->
  pre (disciplined name) (Apply wild parseHost ToLower urlString fuel s) h (fun _ h' => holding h' = false).
Proof.
  intros Hh. apply pre_try. eapply pre_mono; [apply storeRead_keeps|]. cbn beta.
  intros [[[e|]|e]|] h1 H1; [|simpl; congruence..]. destruct (negb (Usable e s)); [simpl; congruence|].
  apply pre_ask; [done|]. intros now. destruct (fresh e now); [simpl; congruence|].
  destruct (empty _); [simpl; congruence|]. destruct (_ =? _).
  - apply refresh_disciplined. simpl. congruence.
  - apply pre_ask; [done|]. intros now2. destruct (negb _); [simpl; congruence|].
    apply refresh_disciplined. simpl. congruence.
Qed.

Lemma writeEntry_disciplined (e : Entry) h :
  holding h = false -> pre (disciplined name) (writeEntry fuel s e) h (fun _ h' => holding h' = false).
Proof. intros Hh. apply locked_by_disciplined; [done|]. intros. by apply storeWrite_keeps. Qed.

Lemma revoke_keeps (e : Entry) h : keeps name (revoke parseHost ToLower urlString e) h.
Proof.
  apply keeps_bind; [apply keeps_lift|]. intros [m|] h1 H1; [|done]. destruct (empty _); [done|].
  apply keeps_bind; [apply keeps_lift|done].
Qed.

Lemma Logout_disciplined h :
  holding h = false ->
  pre (disciplined name) (Logout parseHost ToLower urlString fuel s) h (fun _ h' => holding h' = false).
Proof.
  intros Hh. apply locked_by_disciplined; [done|]. intros h' H'. apply keeps_try; [apply storeRead_keeps|].
  intros [e|] h1 H1; [|done]. apply keeps_bind; [destruct (empty _); [done|apply revoke_keeps]|].
  intros [] h2 H2. apply storeDelete_keeps. congruence.
Qed.

Lemma DeleteContext_disciplined (f : File) (n : string) h :
  holding h = false -> pre (disciplined n) (DeleteContext fuel f n) h (fun _ h' => holding h' = false).
Proof.
  intros Hh. unfold DeleteContext. destruct (negb _); [done|]. apply locked_by_disciplined; [done|].
  intros h' H'. apply keeps_try; [by apply storeDelete_keeps|]. intros _ h1 H1. apply pre_ask; [done|]. by intros [].
Qed.
End verbs.

(** ** What is sent *)

Lemma runs_try {A B} (p : cprog (res A)) (k : A -> cprog (res B)) h h' r :
  runs (try p k) h h' r ->
  exists x h1, runs p h h1 x /\
    match x with
    | None => r = None /\ h1 = h'
    | Some (inr e) => r = err e /\ h1 = h'
    | Some (inl a) => runs (k a) h1 h' r
    end.
Proof.
  unfold try. intros H. apply runs_bind in H as (x & h1 & Hx & H). exists x, h1. split; [done|].
  destruct x as [[a|e]|]; [done|by destruct H as [<- <-]..].
Qed.

Lemma runs_keep {A} (p : cprog A) h h' a (x : answered cacheCall) : runs p h h' a -> x ∈ h -> x ∈ h'.
Proof. intros H Hx. destruct (runs_grows _ _ _ _ H) as [g ->]. apply elem_of_app. by right. Qed.

Lemma storeRead_found (n : string) h h' (e : Entry) :
  runs (storeRead n) h h' (ok (Some e)) -> At (ReadEntry n) (Found e) ∈ h'.
Proof.
  intros H. apply runs_try in H as ([[[]|x]|] & h1 & _ & H); [|by destruct H..].
  apply runs_ask in H as [[| |e'] [H <-]]; [done|done|]. injection H as ->. logged.
Qed.

Lemma storeWrite_wrote (n : string) (e : Entry) h h' :
  runs (storeWrite n e) h h' (ok tt) -> At (WriteEntry n e) true ∈ h'.
Proof.
  unfold storeWrite. destruct (negb _); [by intros [? _]|]. intros H. apply runs_ask in H as [[|] H]; [|by destruct H].
  cbn [negb] in H. apply runs_try in H as ([[[]|x]|] & h1 & _ & H); [|by destruct H..].
  apply runs_ask in H as [[|] [H <-]]; [logged|done].
Qed.

Section sent.
  Variable wild : Z -> Z.
  Variable parseHost : string -> string -> option string.
  Variable ToLower : string -> string.
  Variable urlString : URL -> string.
  Variable fuel : nat.
  Variable s : Settings.

(** An entry of this context: of its gateway's origin and, when the context records
    how its gateway authenticates, of its issuer, client and kind of token. *)
Definition of_context (e : Entry) : Prop :=
  e_Origin e = s_Origin s /\
  (as_Mode (gc_Auth (s_Context s)) <> EmptyString ->
    e_Issuer e = as_Issuer (gc_Auth (s_Context s)) /\ e_ClientID e = as_ClientID (gc_Auth (s_Context s)) /\
    e_TokenType e = as_TokenType (gc_Auth (s_Context s))).

Lemma Usable_context (e : Entry) : Usable e s = true -> of_context e.
Proof.
  unfold Usable, of_context, empty. intros H. apply andb_true_iff in H as [Ho%String.eqb_eq H]. split; [done|].
  intros Hm. apply orb_true_iff in H as [H%String.eqb_eq|H]; [done|]. to_prop. done.
Qed.

(** What the entry's issuer answered to the entry's refresh token in this log. *)
Definition refreshed_by (log : list (answered cacheCall)) (e : Entry) (tr : TokenResponse) : Prop :=
  exists m after g before, log = after ++ map (lift_answered (fun R c => OnIssuer c)) g ++ before /\
    runs (Refresh parseHost ToLower m (e_ClientID e) (e_RefreshToken e)) [] g (inl tr).

(** A token that may be sent: of an entry read under the context's name, which is
    of the context, and either more than the window from its expiry at a clock
    read, or what the issuer answered to its refresh in this very log, written
    before it is sent; a refresh without a token leaves the old one only until
    its expiry. *)
Definition sendable (log : list (answered cacheCall)) (token : string) : Prop :=
  exists e, At (ReadEntry (s_CacheName s)) (Found e) ∈ log /\ of_context e /\
    ((token = e_Token e /\ exists now, At Now now ∈ log /\ now + refreshWindow < e_ExpiresAt e) \/
     exists tr now e', refreshed_by log e tr /\ At Now now ∈ log /\ refreshed wild e tr now = Some e' /\
       At (WriteEntry (s_CacheName s) e') true ∈ log /\ token = e_Token e' /\ of_context e' /\
       ((refreshed_token e tr <> EmptyString /\ token = refreshed_token e tr) \/
        (token = e_Token e /\ now < e_ExpiresAt e))).

Lemma refreshed_by_more g (log : list (answered cacheCall)) (e : Entry) (tr : TokenResponse) :
  refreshed_by log e tr -> refreshed_by (g ++ log) e tr.
Proof. intros (m & after & g' & before & -> & H). exists m, (g ++ after), g', before. by rewrite <-app_assoc. Qed.

Lemma refreshed_context (e e' : Entry) (tr : TokenResponse) (now : time) :
  refreshed wild e tr now = Some e' -> of_context e -> of_context e'.
Proof.
  unfold refreshed. destruct (if empty _ then Some _ else _) as [x|]; cbn [mbind option_bind]; [|done].
  by intros [= <-].
Qed.

Lemma record_sendable (e : Entry) (tr : TokenResponse) h h' token :
  At (ReadEntry (s_CacheName s)) (Found e) ∈ h -> of_context e -> refreshed_by h e tr ->
  runs (record wild s e tr) h h' (ok token) -> sendable h' token.
Proof.
  intros Hin Hu Hby H. pose proof (runs_grows _ _ _ _ H) as [more Hmore].
  assert (refreshed_by h' e tr) as Hby' by (rewrite Hmore; by apply refreshed_by_more). apply runs_ask in H as [now H]. destruct (refreshed wild e tr now) as [e'|] eqn:E; [|by destruct H].
  apply runs_try in H as ([[[]|x]|] & h1 & Hw & H); [|by destruct H..].
  pose proof (storeWrite_wrote _ _ _ _ Hw) as Hwr. pose proof (refreshed_context _ _ _ _ E Hu) as Hu'.
  assert (forall x, x ∈ At Now now :: h -> x ∈ h1) as Hk by (intros x; by eapply runs_keep).
  exists e. destruct (empty (refreshed_token e tr)) eqn:Et; cbn [andb] in H.
  - destruct (now <? e_ExpiresAt e') eqn:En; cbn [negb] in H; [|by destruct H]. destruct H as [[= <-] <-].
    split; [apply Hk; by right|]. split; [done|]. right. exists tr, now, e'.
    split; [done|]. split; [apply Hk; left|]. split; [done|]. split; [done|]. split; [done|]. split; [done|]. right.
    unfold refreshed in E. rewrite Et in E. injection E as <-. cbn in *. to_prop. done.
  - destruct H as [[= <-] <-]. split; [apply Hk; by right|]. split; [done|]. right. exists tr, now, e'.
    split; [done|]. split; [apply Hk; left|]. split; [done|]. split; [done|]. split; [done|]. split; [done|]. left.
    unfold refreshed in E. rewrite Et in E. destruct (ExpiryOf _ _ _ _ _); [|done]. injection E as <-.
    by rewrite <-empty_false.
Qed.

Lemma refresh_body_sendable h h' token :
  runs (refresh_body wild parseHost ToLower urlString s) h h' (ok token) -> sendable h' token.
Proof.
  intros H. apply runs_try in H as ([[[e|]|x]|] & h1 & Hr & H); [|by destruct H..].
  apply storeRead_found in Hr. destruct (Usable e s) eqn:Hu; cbn [negb] in H; [|by destruct H].
  apply runs_ask in H as [now H]. destruct (fresh e now) eqn:Ef.
  { destruct H as [[= <-] <-]. exists e. split; [by right|]. split; [by apply Usable_context|]. left. split; [done|]. exists now.
    split; [left|]. unfold fresh in Ef. to_prop. done. }
  destruct (empty _); [by destruct H|]. apply runs_try in H as ([[m|x]|] & h2 & Hm & H); [|by destruct H..].
  apply runs_bind in H as (r & h3 & Hl & H).
  assert (At (ReadEntry (s_CacheName s)) (Found e) ∈ h3) as Hin.
  { eapply runs_keep; [exact Hl|]. eapply runs_keep; [exact Hm|]. by right. }
  destruct r as [tr|failure].
  { eapply record_sendable; [exact Hin|by apply Usable_context| |exact H].
    apply (runs_lift _ _ _ _ []) in Hl as (g & Hl & ->). rewrite app_nil_r in Hl. by exists m, [], g, h2. }
  unfold refused in H.
  destruct (negb _); [by destruct H|]. apply runs_try in H as ([[[c|]|x]|] & h4 & _ & H); [|by destruct H..].
  destruct (_ =? _); [|by destruct H]. apply runs_try in H as ([[[]|x]|] & h5 & _ & H); by destruct H.
Qed.

Lemma sendable_more log x token : sendable log token -> sendable (x :: log) token.
Proof.
  intros (e & H1 & H2 & H3). exists e. split; [by right|]. split; [done|].
  destruct H3 as [[H3 (now & H4 & H5)]|(tr & now & e' & H0 & H3 & H4 & H5 & H6 & H7 & H8)].
  - left. split; [done|]. exists now. split; [by right|done].
  - right. exists tr, now, e'. split_and!; [by apply (refreshed_by_more [_])|by right|done|by right|done..].
Qed.

Lemma refresh_sendable h h' token :
  runs (refresh wild parseHost ToLower urlString fuel s) h h' (ok token) -> sendable h' token.
Proof.
  intros H. apply runs_try in H as ([[[]|x]|] & h1 & _ & H); [|by destruct H..].
  apply runs_bind in H as (r & h2 & Hr & H). apply runs_ask in H as [released [H <-]].
  apply sendable_more. destruct r as [[t|e]|]; [|done..]. destruct released; [|done]. injection H as ->.
  by eapply refresh_body_sendable.
Qed.

(** A cached credential sends only such a token. *)
Theorem Apply_sendable (log : list (answered cacheCall)) (token : string)
    (Hr : runs (Apply wild parseHost ToLower urlString fuel s) [] log (ok token)) : sendable log token.
Proof.
  apply runs_try in Hr as ([[[e|]|x]|] & h1 & He & H); [|by destruct H..].
  apply storeRead_found in He. destruct (Usable e s) eqn:Hu; cbn [negb] in H; [|by destruct H].
  apply runs_ask in H as [now H]. destruct (fresh e now) eqn:Ef.
  { destruct H as [[= <-] <-]. exists e. split; [by right|]. split; [by apply Usable_context|]. left. split; [done|]. exists now.
    split; [left|]. unfold fresh in Ef. to_prop. done. }
  destruct (empty _); [by destruct H|]. destruct (_ =? _); [by eapply refresh_sendable|].
  apply runs_ask in H as [now2 H]. destruct (negb _); [by destruct H|]. by eapply refresh_sendable.
Qed.
End sent.

(** Where the gateway takes a token's expiry, the client reads the same second:
    the gateway refuses every number on which Go leaves the conversion open. *)
Lemma exp_agrees (wild : Z -> Z) (lit : string) (n : Z) : date_of lit = Some n -> exp_seconds wild lit = Some n.
Proof.
  intros H. pose proof (date_of_range _ _ H) as Hr. unfold date_of in H. unfold exp_seconds.
  destruct (decimal lit) as [[neg m] e]. cbv zeta in *. set (t := magnitude m e) in *. clearbody t.
  assert (2 ^ 63 < 2 ^ 1024) as Hp by (apply Z.ltb_lt; vm_compute; reflexivity).
  assert (t <= 2 ^ 63 /\ (if neg then - t else t) = n) as [Ht Hn].
  { destruct neg; case_match; to_prop; try done; injection H as <-; lia. }
  rewrite (proj2 (Z.leb_gt (2 ^ 1024) t)) by lia. rewrite Hn.
  rewrite (proj2 (Z.leb_le _ _) (proj1 Hr)), (proj2 (Z.leb_le _ _) (proj2 Hr)). done.
Qed.

(** ** The lock's end *)

(** A clock that never reads less than it read before and was slept since. *)
Fixpoint cache_clock (start : time) (h : list (answered cacheCall)) : time :=
  match h with
  | [] => start
  | At Now t :: _ => t
  | At (Pause d) _ :: h => cache_clock start h + d
  | _ :: h => cache_clock start h
  end.
Fixpoint steady (start : time) (h : list (answered cacheCall)) : Prop :=
  match h with
  | [] => True
  | At Now t :: h => cache_clock start h <= t /\ steady start h
  | _ :: h => steady start h
  end.
Lemma steady_app (start : time) (g h : list (answered cacheCall)) : steady start (g ++ h) -> steady start h.
Proof. induction g as [|[R [p| |n|n e|n|n|n| |d|R' c|f] r] g IH]; cbn [app steady]; auto. intros [_ H]. auto. Qed.

Definition untimed {A} (start : time) (p : cprog (res A)) (h : list (answered cacheCall)) : Prop :=
  pre any_call p h (fun r h' => cache_clock start h' = cache_clock start h /\ r <> None).
Lemma checkMode_untimed (start : time) (p : storePath) h : untimed start (checkMode p) h.
Proof. apply pre_ask; [done|]. intros [| |bits]; simpl; [done..|]. by destruct (_ =? _). Qed.
Lemma untimed_try {A B} (start : time) (p : cprog (res A)) (k : A -> cprog (res B)) h :
  untimed start p h -> (forall a h', untimed start (k a) h') -> untimed start (try p k) h.
Proof.
  intros Hp Hk. apply pre_try. eapply pre_mono; [exact Hp|]. intros [[a|e]|] h1 [H1 H2]; [|done|done].
  eapply pre_mono; [apply Hk|]. cbn beta. by intros r h2 [-> ?].
Qed.
Lemma check_untimed (start : time) (n : string) h h' r :
  runs (check n) h h' r -> cache_clock start h' = cache_clock start h /\ r <> None.
Proof.
  assert (untimed start (check n) h) as Hu.
  { unfold check. destruct (negb _); [done|]. repeat (apply untimed_try; [apply checkMode_untimed|]; intros _ ?).
    apply checkMode_untimed. }
  intros H. by apply (pre_runs _ _ _ _ _ _ Hu) in H as [H _].
Qed.

Lemma lock_loop_out (start deadline : time) (fuel : nat) (n : string) h log :
  runs (lock_loop fuel n deadline) h log None -> steady start log ->
  fuel = O \/ cache_clock start h + (Z.of_nat fuel - 1) * lockInterval < deadline.
Proof.
  revert h. induction fuel as [|fuel IH]; intros h H Hl; [by left|right]. cbn [lock_loop] in H.
  apply runs_try in H as (x & h1 & Hx & H). pose proof (check_untimed start _ _ _ _ Hx) as [Hc Hn].
  destruct x as [[[]|e]|]; [|by destruct H|by destruct (Hn eq_refl)].
  apply runs_ask in H as [[| |] H]; [by destruct H| |by destruct H].
  apply runs_ask in H as [now H]. destruct (now <? deadline) eqn:E; cbn [negb] in H; [|by destruct H].
  apply runs_ask in H as [[|] H]; cbn [negb] in H; [|by destruct H].
  pose proof (runs_grows _ _ _ _ H) as [g ->]. pose proof (steady_app _ _ _ Hl) as Hs. cbn [steady] in Hs.
  destruct Hs as [Hs _]. cbn [cache_clock] in Hs. rewrite Hc in Hs. to_prop.
  apply IH in H; [|done]. cbn [cache_clock] in H. unfold lockInterval, millisecond in *. destruct H as [->|H]; lia.
Qed.

(** On a clock that does not run backwards a lock is taken or given up within 30
    seconds: three hundred and one rounds are enough. *)
Lemma Lock_ends (start : time) (n : string) h log r :
  runs (Lock 301 n) h log r -> steady start log -> r <> None.
Proof.
  intros H Hs ->. unfold Lock in H. destruct (negb _); [by destruct H|]. apply runs_ask in H as [[|] H]; [|by destruct H].
  cbn [negb] in H. apply runs_ask in H as [now H]. apply (lock_loop_out start) in H; [|done].
  cbn [cache_clock] in H. unfold lockTimeout, lockInterval, second, millisecond in H. destruct H; lia.
Qed.

(** Whatever else a verb does ends. *)
Definition settles {A} (p : cprog (res A)) : Prop := forall h h' r, runs p h h' r -> r <> None.
Lemma settles_try {A B} (p : cprog (res A)) (k : A -> cprog (res B)) :
  settles p -> (forall a, settles (k a)) -> settles (try p k).
Proof.
  intros Hp Hk h h' r H. apply runs_try in H as (x & h1 & Hx & H). pose proof (Hp _ _ _ Hx) as Hn.
  destruct x as [[a|e]|]; [by eapply Hk|by destruct H as [-> _]|done].
Qed.
Lemma settles_bind {A B} (p : cprog A) (k : A -> cprog (res B)) : (forall a, settles (k a)) -> settles (p ≫= k).
Proof. intros Hk h h' r H. apply runs_bind in H as (a & h1 & _ & H). by eapply Hk. Qed.
Lemma settles_ret {A} (r : res A) : r <> None -> settles (mret r).
Proof. by intros Hr h h' r' [<- _]. Qed.
Lemma check_settles (n : string) : settles (check n).
Proof. intros h h' r H. by apply (check_untimed 0) in H as [_ H]. Qed.
Lemma storeRead_settles (n : string) : settles (storeRead n).
Proof. apply settles_try; [apply check_settles|]. intros _. apply settles_bind. intros [| |e]; by apply settles_ret. Qed.
Lemma storeDelete_settles (n : string) : settles (storeDelete n).
Proof. apply settles_try; [apply check_settles|]. intros _. apply settles_bind. intros [| |]; by apply settles_ret. Qed.
Lemma storeWrite_settles (n : string) (e : Entry) : settles (storeWrite n e).
Proof.
  unfold storeWrite. destruct (negb _); [by apply settles_ret|]. apply settles_bind. intros [|]; [|by apply settles_ret].
  apply settles_try; [apply check_settles|]. intros _. apply settles_bind. intros [|]; by apply settles_ret.
Qed.

Section settled.
  Variable wild : Z -> Z.
  Variable parseHost : string -> string -> option string.
  Variable ToLower : string -> string.
  Variable urlString : URL -> string.
  Variable s : Settings.

Lemma record_settles (e : Entry) (tr : TokenResponse) : settles (record wild s e tr).
Proof.
  apply settles_bind. intros now. destruct (refreshed wild e tr now) as [e'|]; [|by apply settles_ret].
  apply settles_try; [apply storeWrite_settles|]. intros _. destruct (_ && _); by apply settles_ret.
Qed.
Lemma refused_settles (e : Entry) (failure : clientErr) : settles (refused s e failure).
Proof.
  unfold refused. destruct (negb _); [by apply settles_ret|]. apply settles_try; [apply storeRead_settles|].
  intros [c|]; [|by apply settles_ret]. destruct (_ =? _); [|by apply settles_ret].
  apply settles_try; [apply storeDelete_settles|]. intros _. by apply settles_ret.
Qed.
Lemma on_issuer_settles {A} (p : itx issuerCall (A + clientErr)) : settles (on_issuer p).
Proof. apply settles_bind. intros r. by apply settles_ret. Qed.
Lemma refresh_body_settles : settles (refresh_body wild parseHost ToLower urlString s).
Proof.
  apply settles_try; [apply storeRead_settles|]. intros [e|]; [|by apply settles_ret].
  destruct (negb _); [by apply settles_ret|]. apply settles_bind. intros now.
  destruct (fresh e now); [by apply settles_ret|]. destruct (empty _); [by apply settles_ret|].
  apply settles_try; [apply on_issuer_settles|]. intros m. apply settles_bind. intros [tr|failure].
  - apply record_settles.
  - apply refused_settles.
Qed.

(** A cached credential is applied or refused, on such a clock. *)
Lemma Apply_ends (start : time) h log r :
  runs (Apply wild parseHost ToLower urlString 301 s) h log r -> steady start log -> r <> None.
Proof.
  intros H Hs. apply runs_try in H as (x & h1 & Hx & H). pose proof (storeRead_settles _ _ _ _ Hx) as Hn.
  destruct x as [[[e|]|x]|]; [|by destruct H as [<- _]|by destruct H as [-> _]|done].
  destruct (negb _); [by destruct H as [<- _]|]. apply runs_ask in H as [now H].
  destruct (fresh e now); [by destruct H as [<- _]|]. destruct (empty _); [by destruct H as [<- _]|].
  assert (forall h2, runs (refresh wild parseHost ToLower urlString 301 s) h2 log r -> r <> None) as Hr.
  { intros h2 H2. apply runs_try in H2 as (y & h3 & Hy & H2).
    assert (exists g, log = g ++ h3) as [g ->].
    { destruct y as [[[]|e']|]; [by eapply runs_grows|by destruct H2 as [_ <-]; exists []..]. }
    pose proof (Lock_ends start _ _ _ _ Hy (steady_app _ _ _ Hs)) as Hl.
    destruct y as [[[]|e']|]; [|by destruct H2 as [-> _]|done].
    apply runs_bind in H2 as (z & h4 & Hz & H2). apply runs_ask in H2 as [released [<- _]].
    apply refresh_body_settles in Hz. destruct z as [[t|e'']|]; [by destruct released|done..]. }
  destruct (_ =? _); [by eapply Hr|]. apply runs_ask in H as [now2 H]. destruct (negb _); [by destruct H as [<- _]|].
  by eapply Hr.
Qed.
End settled.

(** ** Instances *)

Definition demo_entry : Entry :=
  {| e_Origin := "https://gw.example:443"; e_Issuer := "https://id.example"; e_ClientID := "cli"; e_TokenType := "access";
     e_Token := "t0"; e_ExpiresAt := 300 * second; e_RefreshToken := "r0"; e_RefreshExpiresAt := zero_time;
     e_ObtainedAt := 0 |}.
(** What amd64 gives. *)
Definition no_wild (z : Z) : Z := min_int64.

(** An issuer that refreshes, and a clock inside the window. *)
Definition demo_cache (R : Type) (c : cacheCall R) (h : list (answered cacheCall)) : R :=
  match c in cacheCall R return R with
  | Stat _ => Perm 448
  | MkdirAll => true
  | ReadEntry _ => Found demo_entry
  | WriteEntry _ _ => true
  | RemoveEntry _ => Removed
  | CreateLock _ => Created
  | RemoveLock _ => true
  | Now => 280 * second
  | Pause _ => true
  | OnIssuer c =>
      match c in issuerCall R return R with
      | SendGet _ =>
          Some {| ha_Status := 200; ha_ContentType := "application/json";
                  ha_Body := Some (print (JObj [("issuer"%string, JStr "https://id.example");
                                                ("token_endpoint"%string, JStr "https://id.example/token")])) |}
      | SendPost _ _ => token_of "t1"
      | Clock => 0
      | Sleep _ => true
      | CtxDone => false
      | Entropy => None
      end
  | SaveFile _ => true
  end.
Definition demo_apply : cprog (res string) :=
  Apply no_wild any_host lower (fun _ => "https://id.example"%string) 301 demo_settings.
Definition demo_apply_run : res string * list (answered cacheCall) := run demo_cache demo_apply [].

Example demo_applied : demo_apply_run.1 = ok "t1"%string.
Proof. by vm_compute. Qed.

Lemma Apply_sendable_witness : sendable no_wild any_host lower demo_settings demo_apply_run.2 "t1".
Proof.
  apply (Apply_sendable no_wild any_host lower (fun _ => "https://id.example"%string) 301 demo_settings
    demo_apply_run.2 "t1").
  assert (demo_apply_run.1 = ok "t1"%string) as E by (vm_compute; reflexivity). rewrite <-E.
  exact (run_runs demo_cache demo_apply []).
Defined.
