(* ===== verification/CacheProcs.v ===== *)
(** * Processes sharing a token cache

    Any number of command lines over one directory: each runs a verb of
    TokenCache.v call by call, in any interleaving, on a file system whose
    exclusive create is atomic.  Any call may fail. *)

From S2P Require Import Prelude Url Interaction Contexts ClientIssuer TokenCache.

(** What is on the disk, and what it answers to a call. *)
Record disk := { dk_entries : gmap string Entry; dk_locks : gset string }.

Definition put_entry (n : string) (e : option Entry) (d : disk) : disk :=
  {| dk_entries := match e with Some e => <[n := e]> (dk_entries d) | None => delete n (dk_entries d) end;
     dk_locks := dk_locks d |}.
Definition set_locks (l : gset string) (d : disk) : disk := {| dk_entries := dk_entries d; dk_locks := l |}.

Definition answers (d : disk) {R : Type} (c : cacheCall R) : R -> disk -> Prop :=
  match c in cacheCall R return R -> disk -> Prop with
  | ReadEntry n => fun a d' =>
      d' = d /\ match a with Absent => dk_entries d !! n = None | Broken => True | Found e => dk_entries d !! n = Some e end
  | WriteEntry n e => fun written d' => d' = if (written : bool) then put_entry n (Some e) d else d
  | RemoveEntry n => fun a d' =>
      match a with
      | Removed => is_Some (dk_entries d !! n) /\ d' = put_entry n None d
      | Missing => dk_entries d !! n = None /\ d' = d
      | RemoveFailed => d' = d
      end
  | CreateLock n => fun a d' =>
      match a with
      | Created => n ∉ dk_locks d /\ d' = set_locks ({[n]} ∪ dk_locks d) d
      | Held => n ∈ dk_locks d /\ d' = d
      | CreateFailed => d' = d
      end
  | RemoveLock n => fun removed d' =>
      if (removed : bool) then n ∈ dk_locks d /\ d' = set_locks (dk_locks d ∖ {[n]}) d else d' = d
  | _ => fun _ d' => d' = d
  end.

(** What a call does to the entries and the locks, of a process that keeps the
    discipline under [n]. *)
Lemma call_effect (n : string) h R (c : cacheCall R) (r : R) (d d' : disk) :
  disciplined n h R c -> answers d c r d' ->
  (holding h = true -> n ∈ dk_locks d /\ forall v, view h = Some v -> dk_entries d !! n = v) ->
  (forall m, m <> n -> dk_entries d' !! m = dk_entries d !! m /\ (m ∈ dk_locks d' <-> m ∈ dk_locks d)) /\
  (holding h = false -> dk_entries d' = dk_entries d /\ dk_locks d ⊆ dk_locks d') /\
  (holding (At c r :: h) = true ->
     n ∈ dk_locks d' /\ (forall v, view (At c r :: h) = Some v -> dk_entries d' !! n = v) /\
     (holding h = true \/ n ∉ dk_locks d)).
Proof.
  intros Hd Ha Hh. destruct c; cbn [disciplined answers] in Hd, Ha; try (subst d'; split_and!; [done|done|];
    cbn [holding view]; intros H; split_and!; [by apply Hh|by apply Hh|by left]).
  - destruct Ha as [-> Ha]. subst name. split_and!; [done|done|]. cbn [holding view]. intros H.
    split; [by apply Hh|]. split; [|by left]. destruct r; [by intros v [= <-]|by apply Hh|by intros v [= <-]].
  - destruct Hd as [-> Hd]. destruct r; subst d'; cbn [put_entry dk_entries dk_locks holding view].
    + split_and!; [|congruence|].
      * intros m Hm. by rewrite lookup_insert_ne.
      * intros H. split; [by apply Hh|]. split; [|by left]. intros v [= <-]. by rewrite lookup_insert_eq.
    + split_and!; [done|done|]. intros H. split; [by apply Hh|]. split; [by apply Hh|by left].
  - destruct Hd as [-> Hd]. destruct r; cbn [put_entry dk_entries dk_locks holding view].
    + destruct Ha as [_ ->]. cbn [put_entry dk_entries dk_locks]. split_and!; [|congruence|].
      * intros m Hm. by rewrite lookup_delete_ne.
      * intros H. split; [by apply Hh|]. split; [|by left]. intros v [= <-]. by rewrite lookup_delete_eq.
    + destruct Ha as [Ha ->]. split_and!; [done|done|]. intros H. split; [by apply Hh|]. split; [|by left].
      by intros v [= <-].
    + subst d'. split_and!; [done|done|]. intros H. split; [by apply Hh|]. split; [by apply Hh|by left].
  - destruct Hd as [-> Hd]. destruct r; cbn [holding view].
    + destruct Ha as [Hn ->]. cbn [set_locks dk_entries dk_locks]. split_and!; [set_solver|set_solver|].
      intros _. split; [set_solver|]. split; [done|by right].
    + destruct Ha as [Hn ->]. split_and!; [done|done|congruence].
    + subst d'. split_and!; [done|done|congruence].
  - destruct Hd as [-> Hd]. destruct r; cbn [holding view].
    + destruct Ha as [Hn ->]. cbn [set_locks dk_entries dk_locks]. split_and!; [set_solver|congruence|done].
    + subst d'. split_and!; [done|done|done].
Qed.

(** ** The processes *)

Section procs.
  Variable wild : Z -> Z.
  Variable parseHost : string -> string -> option string.
  Variable ToLower : string -> string.
  Variable urlString : URL -> string.

(** A verb, and the name of the entry it works on. *)
Definition ignoring {A} (p : cprog A) : cprog unit := _ ← p; mret tt.
Inductive verb : string -> cprog unit -> Prop :=
  | verb_apply fuel s : verb (s_CacheName s) (ignoring (Apply wild parseHost ToLower urlString fuel s))
  | verb_login fuel s e : verb (s_CacheName s) (ignoring (writeEntry fuel s e))
  | verb_logout fuel s : verb (s_CacheName s) (ignoring (Logout parseHost ToLower urlString fuel s))
  | verb_delete fuel f n : verb n (ignoring (DeleteContext fuel f n)).

Record proc := { pr_name : string; pr_prog : cprog unit; pr_log : list (answered cacheCall) }.
Definition world : Type := disk * list proc.

(** One call of one process, [c] and its answer. *)
Inductive call_step (i : nat) (p : proc) (d : disk) (l : list proc) : world -> Prop :=
  | do_call R (c : cacheCall R) k r d' :
      l !! i = Some p -> pr_prog p = Ask c k -> answers d c r d' ->
      call_step i p d l (d', <[i := {| pr_name := pr_name p; pr_prog := k r; pr_log := At c r :: pr_log p |}]> l).

Inductive reachable (d0 : disk) : world -> Prop :=
  | reach_start : reachable d0 (d0, [])
  | reach_spawn d l n p : reachable d0 (d, l) -> verb n p ->
      reachable d0 (d, l ++ [{| pr_name := n; pr_prog := p; pr_log := [] |}])
  | reach_call d l i p w : reachable d0 (d, l) -> call_step i p d l w -> reachable d0 w.

Definition holds (p : proc) : Prop := holding (pr_log p) = true.

Definition kept (p : proc) : Prop :=
  pre (disciplined (pr_name p)) (pr_prog p) (pr_log p) (fun _ h => holding h = false).
(** What holds of a world: the discipline of each process, one holder of a lock,
    whose file is there, and what it knows of the entry. *)
Definition sound (w : world) : Prop :=
  Forall kept w.2 /\
  (forall i j p q, w.2 !! i = Some p -> w.2 !! j = Some q -> holds p -> holds q -> pr_name p = pr_name q -> i = j) /\
  (forall i p, w.2 !! i = Some p -> holds p ->
     pr_name p ∈ dk_locks w.1 /\ forall v, view (pr_log p) = Some v -> dk_entries w.1 !! pr_name p = v).

Lemma verb_kept (n : string) (p : cprog unit) :
  verb n p -> kept {| pr_name := n; pr_prog := p; pr_log := [] |}.
Proof.
  intros H. unfold kept. cbn [pr_name pr_prog pr_log].
  assert (forall A (q : cprog A), pre (disciplined n) q [] (fun _ h => holding h = false) ->
    pre (disciplined n) (ignoring q) [] (fun _ h => holding h = false)) as Hi.
  { intros A q Hq. apply pre_bind. eapply pre_mono; [exact Hq|done]. }
  destruct H; apply Hi; [by apply Apply_disciplined|by apply writeEntry_disciplined|by apply Logout_disciplined|
    by apply DeleteContext_disciplined].
Qed.

Lemma spawn_sound (d : disk) (l : list proc) (n : string) (p : cprog unit) :
  sound (d, l) -> verb n p -> sound (d, l ++ [{| pr_name := n; pr_prog := p; pr_log := [] |}]).
Proof.
  intros (H1 & H2 & H3) Hv. unfold sound in *. cbn [fst snd] in *.
  assert (forall i q, (l ++ [{| pr_name := n; pr_prog := p; pr_log := [] |}]) !! i = Some q -> holds q ->
    l !! i = Some q) as Hold.
  { intros i q Hq Hh. apply lookup_app_Some in Hq as [?|[_ Hq]]; [done|].
    apply list_lookup_singleton_Some in Hq as [_ <-]. done. }
  split_and!.
  - apply Forall_app. split; [done|]. apply Forall_singleton. by apply verb_kept.
  - intros i j q1 q2 Hi Hj Hh1 Hh2. by eapply H2; [eapply Hold|eapply Hold|..].
  - intros i q Hi Hh. by eapply H3; [eapply Hold|].
Qed.

Lemma call_sound (i : nat) (p : proc) (d : disk) (l : list proc) (w : world) :
  sound (d, l) -> call_step i p d l w -> sound w.
Proof.
  intros (H1 & H2 & H3) Hs. destruct Hs as [R c k r d' Hi Hp Ha]. cbn [fst snd] in *.
  pose proof (Forall_lookup_1 _ _ _ _ H1 Hi) as Hk. unfold kept in Hk. rewrite Hp in Hk. destruct Hk as [Hd Hk].
  set (p' := {| pr_name := pr_name p; pr_prog := k r; pr_log := At c r :: pr_log p |}).
  destruct (call_effect (pr_name p) (pr_log p) R c r d d' Hd Ha (H3 i p Hi)) as (Eo & En & Eh).
  assert (i < length l)%nat as Hlt by by eapply lookup_lt_Some.
  assert (forall j q, <[i:=p']> l !! j = Some q -> (j = i /\ q = p') \/ (j <> i /\ l !! j = Some q)) as Hlook.
  { intros j q Hq. destruct (decide (j = i)) as [->|Hne].
    - rewrite list_lookup_insert_eq in Hq by done. left. by injection Hq.
    - rewrite list_lookup_insert_ne in Hq by done. by right. }
  (* Another process that holds the caller's name excludes the caller. *)
  assert (forall j q, j <> i -> l !! j = Some q -> holds q -> pr_name q = pr_name p -> holding (pr_log p) = false) as Hexcl.
  { intros j q Hne Hj Hq Hn. destruct (holding (pr_log p)) eqn:E; [|done]. exfalso. apply Hne. by eapply H2. }
  split_and!; cbn [fst snd].
  - apply Forall_insert; [done|]. unfold kept. apply Hk.
  - assert (forall j q, j <> i -> l !! j = Some q -> holds q -> holds p' -> pr_name q = pr_name p -> False) as Hno.
    { intros j q Hne Hj Hq Hp' Hn. destruct (Eh Hp') as (_ & _ & [Hh|Hh]).
      - by rewrite (Hexcl j q) in Hh.
      - apply Hh. rewrite <-Hn. by apply (H3 j q). }
    intros j1 j2 q1 q2 Hq1 Hq2 Hh1 Hh2 Hn.
    apply Hlook in Hq1 as [[-> ->]|[Hn1 Hq1]], Hq2 as [[-> ->]|[Hn2 Hq2]]; [done|..].
    + by destruct (Hno j2 q2).
    + by destruct (Hno j1 q1).
    + by eapply H2.
  - intros j q Hq Hh. apply Hlook in Hq as [[-> ->]|[Hne Hq]].
    + destruct (Eh Hh) as (E1 & E2 & _). done.
    + destruct (H3 j q Hq Hh) as [Hl Hv]. destruct (decide (pr_name q = pr_name p)) as [Hn|Hn].
      * destruct (En (Hexcl j q Hne Hq Hh Hn)) as [-> Hsub]. split; [by apply Hsub|done].
      * destruct (Eo _ Hn) as [-> ->]. done.
Qed.

Lemma reachable_sound (d0 : disk) (w : world) : reachable d0 w -> sound w.
Proof.
  induction 1 as [|d l n p _ IH Hv|d l i p w _ IH Hs].
  - split_and!; [constructor|done|done].
  - by apply spawn_sound.
  - by eapply call_sound.
Qed.

(** C24: an entry changes only by a process that has its lock: no other process has
    it then, and the file holds what that process last saw it to hold. *)
Theorem one_writer (d0 d : disk) (l : list proc) (i : nat) (p : proc) (w : world) (n : string)
    (Hr : reachable d0 (d, l)) (Hs : call_step i p d l w) (Hc : dk_entries w.1 !! n <> dk_entries d !! n) :
  n = pr_name p /\ holds p /\
  (forall j q, l !! j = Some q -> pr_name q = n -> holds q -> j = i) /\
  (forall v, view (pr_log p) = Some v -> dk_entries d !! n = v).
Proof.
  pose proof (reachable_sound _ _ Hr) as (H1 & H2 & H3). destruct Hs as [R c k r d' Hi Hp Ha]. cbn [fst snd] in *.
  pose proof (Forall_lookup_1 _ _ _ _ H1 Hi) as Hk. unfold kept in Hk. rewrite Hp in Hk. destruct Hk as [Hd _].
  destruct (call_effect (pr_name p) (pr_log p) R c r d d' Hd Ha (H3 i p Hi)) as (Eo & En & _).
  destruct (decide (n = pr_name p)) as [->|Hn]; [|by destruct (Eo n Hn) as [? _]].
  destruct (holding (pr_log p)) eqn:Eh; [|destruct (En eq_refl) as [E _]; by rewrite E in Hc].
  split_and!; [done|done| |].
  - intros j q Hj Hn Hq. by eapply H2.
  - by apply (H3 i p).
Qed.
End procs.

(** ** Instances *)

Definition idle_issuer (R : Type) (c : issuerCall R) : R :=
  match c in issuerCall R return R with
  | SendGet _ | SendPost _ _ => None
  | Clock => 0
  | Sleep _ => true
  | CtxDone => false
  | Entropy => None
  end.
(** A file system on which no call fails. *)
Definition serve (d : disk) {R : Type} (c : cacheCall R) : R * disk :=
  match c in cacheCall R return R * disk with
  | Stat _ => (NoFile, d)
  | MkdirAll => (true, d)
  | ReadEntry n => (match dk_entries d !! n with None => Absent | Some e => Found e end, d)
  | WriteEntry n e => (true, put_entry n (Some e) d)
  | RemoveEntry n => match dk_entries d !! n with Some _ => (Removed, put_entry n None d) | None => (Missing, d) end
  | CreateLock n => if decide (n ∈ dk_locks d) then (Held, d) else (Created, set_locks ({[n]} ∪ dk_locks d) d)
  | RemoveLock n => if decide (n ∈ dk_locks d) then (true, set_locks (dk_locks d ∖ {[n]}) d) else (false, d)
  | Now => (0, d)
  | Pause _ => (true, d)
  | OnIssuer c => (idle_issuer _ c, d)
  | SaveFile _ => (true, d)
  end.

Lemma serve_answers (d : disk) R (c : cacheCall R) : answers d c (serve d c).1 (serve d c).2.
Proof.
  destruct c; cbn [serve answers fst snd]; try done.
  - split; [done|]. by destruct (dk_entries d !! name).
  - destruct (dk_entries d !! name) eqn:E; (split; [|done]); [by eexists|done].
  - case_decide; by split.
  - case_decide; by split.
Qed.

(** Some calls of the one process there is. *)
Fixpoint drive (n : nat) (d : disk) (p : proc) : disk * proc :=
  match n with
  | O => (d, p)
  | S n =>
      match pr_prog p with
      | Done _ => (d, p)
      | Ask c k =>
          let a := serve d c in
          drive n a.2 {| pr_name := pr_name p; pr_prog := k a.1; pr_log := At c a.1 :: pr_log p |}
      end
  end.

Lemma drive_done (n : nat) (d : disk) (p : proc) (a : unit) : pr_prog p = Done a -> drive n d p = (d, p).
Proof. destruct n as [|n]; [done|]. cbn [drive]. by intros ->. Qed.
Lemma drive_ask (n : nat) (d : disk) (p : proc) R (c : cacheCall R) k :
  pr_prog p = Ask c k ->
  drive (S n) d p = drive n (serve d c).2
    {| pr_name := pr_name p; pr_prog := k (serve d c).1; pr_log := At c (serve d c).1 :: pr_log p |}.
Proof. cbn [drive]. by intros ->. Qed.
Lemma drive_last (n : nat) (d : disk) (p : proc) : drive (S n) d p = drive 1 (drive n d p).1 (drive n d p).2.
Proof.
  revert d p. induction n as [|n IH]; intros d p; [done|]. destruct (pr_prog p) as [a|R c k] eqn:E.
  - by rewrite !(drive_done _ d p a) by done.
  - rewrite !(drive_ask _ d p R c k) by done. apply IH.
Qed.

Section drive.
  Variable wild : Z -> Z.
  Variable parseHost : string -> string -> option string.
  Variable ToLower : string -> string.
  Variable urlString : URL -> string.

Lemma drive_reachable (n : nat) (d0 d : disk) (p : proc) :
  reachable wild parseHost ToLower urlString d0 (d, [p]) ->
  reachable wild parseHost ToLower urlString d0 ((drive n d p).1, [(drive n d p).2]).
Proof.
  revert d p. induction n as [|n IH]; intros d p H; [done|]. cbn [drive].
  destruct (pr_prog p) as [a|R c k] eqn:E; [done|]. apply IH.
  eapply reach_call; [exact H|]. apply (do_call 0 p d [p] R c k (serve d c).1 (serve d c).2); [done|done|].
  apply serve_answers.
Qed.
End drive.

Definition empty_disk : disk := {| dk_entries := ∅; dk_locks := ∅ |}.
Definition login_start : proc :=
  {| pr_name := "prod"; pr_prog := ignoring (writeEntry 1 demo_settings demo_entry); pr_log := [] |}.
(** A login up to its write. *)
Definition login_disk : disk := (drive 10 empty_disk login_start).1.
Definition login_proc : proc := (drive 10 empty_disk login_start).2.
Definition login_world : world := ((drive 11 empty_disk login_start).1, [(drive 11 empty_disk login_start).2]).

Example demo_write : dk_entries login_world.1 !! "prod"%string = Some demo_entry.
Proof. by vm_compute. Qed.

Lemma one_writer_witness : holds login_proc /\ dk_entries login_disk !! "prod"%string = None.
Proof.
  split; [|vm_compute; reflexivity].
  apply (one_writer no_wild any_host lower (fun _ => EmptyString) empty_disk login_disk [login_proc] 0 login_proc
    login_world "prod"%string).
  - apply (drive_reachable no_wild any_host lower (fun _ => EmptyString) 10 empty_disk empty_disk login_start).
    apply (reach_spawn _ _ _ _ empty_disk empty_disk [] "prod"%string); [constructor|].
    exact (verb_login no_wild any_host lower (fun _ => EmptyString) 1 demo_settings demo_entry).
  - destruct (pr_prog login_proc) as [a|R c k] eqn:E; [by vm_compute in E|].
    assert (login_world = ((serve login_disk c).2, <[0%nat := {| pr_name := pr_name login_proc;
      pr_prog := k (serve login_disk c).1; pr_log := At c (serve login_disk c).1 :: pr_log login_proc |}]> [login_proc]))
      as ->.
    { unfold login_world. rewrite (drive_last 10). fold login_disk. fold login_proc.
      rewrite (drive_ask 0 login_disk login_proc R c k E). reflexivity. }
    apply (do_call 0 login_proc login_disk [login_proc] R c k); [reflexivity|exact E|apply serve_answers].
  - vm_compute. discriminate.
Defined.
