(* ===== verification/DurationText.v ===== *)
(** * The text of a duration, read back

    src/internal/pgo/policy.go, the text methods of [Duration]: [MarshalText] is
    the text of Policy.v, [UnmarshalText] is [time.ParseDuration], which is
    written out here: the digits over an unsigned 64-bit integer, and a fraction
    in binary64, with the rounding of Claims.v. *)

From S2P Require Import Prelude Config Policy Cookie Claims.

(** ** [time.ParseDuration] *)

Definition two63 : Z := 2 ^ 63.
Definition digit (c : ascii) : Z := Z.of_nat (nat_of_ascii c) - 48.

(** [leadingInt]. *)
Fixpoint leadingInt (x : Z) (s : string) : option (Z * string) :=
  match s with
  | EmptyString => Some (x, EmptyString)
  | String.String c r =>
      if is_digit c then
        if two63 / 10 <? x then None
        else
          let x := x * 10 + digit c in
          if two63 <? x then None else leadingInt x r
      else Some (x, s)
  end.

(** Doubles that are not negative: a mantissa and an exponent of two. *)
Definition double_of (n : Z) : Z * Z := nearest n 1.
Definition round_to (m u : Z) : Z * Z := if 0 <=? u then nearest (m * 2 ^ u) 1 else nearest m (2 ^ (- u)).
Definition double_mul (a b : Z * Z) : Z * Z := round_to (a.1 * b.1) (a.2 + b.2).
Definition double_div (n : Z) (b : Z * Z) : Z * Z :=
  if 0 <=? b.2 then nearest n (b.1 * 2 ^ b.2) else nearest (n * 2 ^ (- b.2)) b.1.

(** [leadingFraction]: digits past the largest [int64] are dropped. *)
Fixpoint leadingFraction (x : Z) (scale : Z * Z) (overflow : bool) (s : string) : Z * (Z * Z) * string :=
  match s with
  | EmptyString => (x, scale, EmptyString)
  | String.String c r =>
      if is_digit c then
        if overflow then leadingFraction x scale true r
        else if max_int64 / 10 <? x then leadingFraction x scale true r
        else
          let y := x * 10 + digit c in
          if two63 <? y then leadingFraction x scale true r
          else leadingFraction y (double_mul scale (double_of 10)) false r
      else (x, scale, s)
  end.

Definition micro : string := String.string_of_list_byte [Byte.xc2; Byte.xb5; Byte.x73].
Definition micro_greek : string := String.string_of_list_byte [Byte.xce; Byte.xbc; Byte.x73].
Definition unitMap (u : string) : option Z :=
  if String.eqb u "ns" then Some 1
  else if String.eqb u "us" || String.eqb u micro || String.eqb u micro_greek then Some 1000
  else if String.eqb u "ms" then Some 1000000
  else if String.eqb u "s" then Some second
  else if String.eqb u "m" then Some minute
  else if String.eqb u "h" then Some hour
  else None.

Definition unit_byte (c : ascii) : bool := negb (Ascii.eqb c "." || is_digit c).
Fixpoint take_unit (s : string) : string * string :=
  match s with
  | EmptyString => (EmptyString, EmptyString)
  | String.String c r => if unit_byte c then let '(u, r) := take_unit r in (String.String c u, r) else (EmptyString, s)
  end.

(** One component: its value and what follows it. *)
Definition fraction (s : string) : Z * (Z * Z) * bool * string :=
  match s with
  | String.String c r =>
      if Ascii.eqb c "." then
        let '(f, scale, r') := leadingFraction 0 (double_of 1) false r in (f, scale, negb (byte_len r' =? byte_len r), r')
      else (0, double_of 1, false, s)
  | EmptyString => (0, double_of 1, false, s)
  end.
Definition in_unit (v f : Z) (scale : Z * Z) (unit : Z) : option Z :=
  if two63 / unit <? v then None
  else
    let v := v * unit in
    if 0 <? f then
      let v := v + truncate (double_mul (double_of f) (double_div unit scale)) in
      if two63 <? v then None else Some v
    else Some v.
Definition component (s : string) : option (Z * string) :=
  match s with
  | EmptyString => None
  | String.String c _ =>
      if Ascii.eqb c "." || is_digit c then
        '(v, s1) ← leadingInt 0 s;
        let '(f, scale, post, s2) := fraction s1 in
        if (byte_len s1 =? byte_len s) && negb post then None
        else
          let '(u, s3) := take_unit s2 in
          if String.eqb u "" then None
          else
            unit ← unitMap u;
            v ← in_unit v f scale unit;
            Some (v, s3)
      else None
  end.
Fixpoint components (fuel : nat) (d : Z) (s : string) : option Z :=
  match fuel with
  | O => None
  | S fuel =>
      match s with
      | EmptyString => Some d
      | _ =>
          '(v, r) ← component s;
          let d := (d + v) mod 2 ^ 64 in
          if two63 <? d then None else components fuel d r
      end
  end.
Definition sign_of (s : string) : bool * string :=
  match s with
  | String.String c r => if Ascii.eqb c "-" then (true, r) else if Ascii.eqb c "+" then (false, r) else (false, s)
  | EmptyString => (false, s)
  end.
Definition ParseDuration (s : string) : option duration :=
  let '(neg, s) := sign_of s in
  if String.eqb s "0" then Some 0
  else if String.eqb s "" then None
  else
    d ← components (S (String.length s)) 0 s;
    if neg : bool then Some (wrap64 (- wrap64 d))
    else if max_int64 <? d then None else Some d.

(** [UnmarshalText] of the policy's [Duration]. *)
Definition UnmarshalText (s : string) : option duration := ParseDuration s.

Example parse_examples :
  map ParseDuration ["0"; "1h30m"; "-1.5s"; "1.5"; "s"; ".5m"; ".s"; "1h-1m"; "2562047h47m16.854775807s"; "2562047h47m16.854775808s"; ""]%string =
  [Some 0; Some (90 * minute); Some (- 1500000000); None; None; Some (30 * second); None; None; Some max_int64; None; None].
Proof. vm_compute. reflexivity. Qed.

(** ** Doubles that hold a whole number *)

Definition holds (p : Z * Z) (q : Z) : Prop := p.2 <= 0 /\ p.1 = q * 2 ^ (- p.2).

Lemma nearest_ratio (q d : Z) : 0 < q < 2 ^ 53 -> 0 < d -> holds (nearest (q * d) d) q.
Proof.
  intros Hq Hd. unfold nearest. set (u := Z.max _ _).
  assert (u <= 0) as Hu.
  { unfold u. apply Z.max_lub; [|lia]. apply Z.le_sub_le_add_r. change (0 + 52) with 52.
    unfold log2_ratio, over_pow2. set (k := Z.log2 (q * d) - Z.log2 d).
    assert (Z.log2 q <= 52) as Hl by (apply Z.lt_succ_r, Z.log2_lt_pow2; lia).
    pose proof (Z.log2_mul_above q d ltac:(lia) ltac:(lia)) as Ha.
    assert (0 <= k) as Hk by (unfold k; pose proof (Z.log2_mul_below q d ltac:(lia) ltac:(lia)); pose proof (Z.log2_nonneg q); lia).
    rewrite (proj2 (Z.leb_le 0 k)) by done. destruct (Z.ltb_spec (q * d) (d * 2 ^ k)) as [|Hge]; [unfold k; lia|].
    assert (2 ^ k <= q) as Hp by nia. assert (k < 53); [|lia]. apply (Z.pow_lt_mono_r_iff 2); lia. }
  clearbody u. unfold over_pow2, round_half_even. destruct (Z.leb_spec 0 u).
  - replace u with 0 by lia. change (2 ^ 0) with 1. rewrite Z.mul_1_r, Z.mod_mul, Z.div_mul by lia. change (2 * 0) with 0.
    rewrite (proj2 (Z.ltb_lt 0 d)) by done. split; cbn [fst snd]; [lia|]. change (2 ^ (- 0)) with 1. lia.
  - replace (q * d * 2 ^ (- u)) with (q * 2 ^ (- u) * d) by ring. rewrite Z.mod_mul, Z.div_mul by lia. change (2 * 0) with 0.
    rewrite (proj2 (Z.ltb_lt 0 d)) by done. by split.
Qed.

Lemma double_of_exact (q : Z) : 0 < q < 2 ^ 53 -> holds (double_of q) q.
Proof. intros Hq. pose proof (nearest_ratio q 1 Hq ltac:(lia)) as H. by rewrite Z.mul_1_r in H. Qed.
Lemma round_to_exact (q u : Z) : 0 < q < 2 ^ 53 -> u <= 0 -> holds (round_to (q * 2 ^ (- u)) u) q.
Proof.
  intros Hq Hu. unfold round_to. destruct (Z.leb_spec 0 u).
  - replace u with 0 by lia. change (- 0) with 0. change (2 ^ 0) with 1. rewrite !Z.mul_1_r. by apply double_of_exact.
  - apply nearest_ratio; [done|]. apply Z.pow_pos_nonneg; lia.
Qed.
Lemma double_mul_exact (a b : Z * Z) (p q : Z) : holds a p -> holds b q -> 0 < p * q < 2 ^ 53 -> holds (double_mul a b) (p * q).
Proof.
  intros [Ha1 Ha2] [Hb1 Hb2] H. unfold double_mul. rewrite Ha2, Hb2.
  replace (p * 2 ^ (- a.2) * (q * 2 ^ (- b.2))) with (p * q * 2 ^ (- (a.2 + b.2))); [apply round_to_exact; [done|lia]|].
  rewrite Z.opp_add_distr, Z.pow_add_r by lia. ring.
Qed.
Lemma double_div_exact (q d : Z) (b : Z * Z) : holds b d -> 0 < d -> 0 < q < 2 ^ 53 -> holds (double_div (q * d) b) q.
Proof.
  intros [Hb1 Hb2] Hd Hq. unfold double_div. rewrite Hb2. destruct (Z.leb_spec 0 b.2) as [H|H].
  - replace b.2 with 0 by lia. change (- 0) with 0. change (2 ^ 0) with 1. rewrite !Z.mul_1_r. by apply nearest_ratio.
  - rewrite <-Z.mul_assoc. apply nearest_ratio; [done|]. apply Z.mul_pos_pos; [done|]. apply Z.pow_pos_nonneg; lia.
Qed.
Lemma truncate_holds (p : Z * Z) (q : Z) : holds p q -> truncate p = q.
Proof.
  destruct p as [m u]. intros [Hu Hm]. cbn [fst snd] in *. unfold truncate. destruct (Z.leb_spec 0 u).
  - replace u with 0 in * by lia. change (2 ^ 0) with 1. change (2 ^ (- 0)) with 1 in Hm. lia.
  - rewrite Hm. apply Z.div_mul, Z.pow_nonzero; lia.
Qed.

(** ** Digits *)

Lemma digit_range (c : ascii) : is_digit c = true -> 0 <= digit c <= 9.
Proof. unfold is_digit, digit. intros [H1%Nat.leb_le H2%Nat.leb_le]%andb_true_iff. lia. Qed.

Lemma digits_value_grows (x : Z) (w : string) (n : Z) : 0 <= x -> digits_value x w = Some n -> x <= n.
Proof.
  revert x. induction w as [|c w IH]; intros x Hx H; cbn [digits_value] in H; [by injection H as ->|].
  destruct (is_digit c) eqn:E; [|done]. apply digit_range in E. fold (digit c) in H. apply IH in H; lia.
Qed.
Lemma digits_value_app (x : Z) (a b : string) : digits_value x (a +:+ b) = y ← digits_value x a; digits_value y b.
Proof. revert x. induction a as [|c a IH]; intros x; [done|]. cbn. destruct (is_digit c); [apply IH|done]. Qed.
Lemma digits_value_bound (x : Z) (w : string) (n : Z) (j : Z) :
  0 <= j -> 0 <= x < 10 ^ j -> digits_value x w = Some n -> n < 10 ^ (j + byte_len w).
Proof.
  revert x j. induction w as [|c w IH]; intros x j Hj Hx H; cbn [digits_value] in H.
  { injection H as <-. change (byte_len EmptyString) with 0. rewrite Z.add_0_r; lia. }
  destruct (is_digit c) eqn:E; [|done]. apply digit_range in E. fold (digit c) in H.
  unfold byte_len in *. cbn [String.length]. apply (IH _ (j + 1)) in H; [|lia|].
  - by replace (j + Z.of_nat (S (String.length w))) with (j + 1 + Z.of_nat (String.length w)) by lia.
  - rewrite Z.pow_add_r by lia. change (10 ^ 1) with 10. lia.
Qed.

(** What follows a run of digits, and a unit. *)
Definition after_digits (s : string) : bool := match s with String.String c _ => negb (is_digit c) | EmptyString => true end.
Definition after_unit (s : string) : bool := match s with String.String c _ => negb (unit_byte c) | EmptyString => true end.

Lemma leadingInt_digits (x : Z) (w rest : string) (n : Z) :
  0 <= x -> digits_value x w = Some n -> n <= two63 -> after_digits rest = true -> leadingInt x (w +:+ rest) = Some (n, rest).
Proof.
  intros Hx H Hn Hr. revert x Hx H. induction w as [|c w IH]; intros x Hx H; cbn [digits_value] in H.
  { injection H as ->. destruct rest as [|c r]; [done|]. cbn [after_digits] in Hr. apply negb_true_iff in Hr.
    change (EmptyString +:+ String.String c r) with (String.String c r). cbn [leadingInt]. by rewrite Hr. }
  destruct (is_digit c) eqn:E; [|done]. fold (digit c) in H. change (String.String c w +:+ rest) with (String.String c (w +:+ rest)).
  cbn [leadingInt]. rewrite E. pose proof (digit_range c E). assert (10 * x + digit c <= n) by (eapply digits_value_grows; [|exact H]; lia).
  unfold two63 in *. rewrite (proj2 (Z.ltb_ge (2 ^ 63 / 10) x)) by (apply Z.div_le_lower_bound; lia).
  replace (x * 10 + digit c) with (10 * x + digit c) by lia.
  rewrite (proj2 (Z.ltb_ge (2 ^ 63) (10 * x + digit c))) by lia. apply IH; [lia|done].
Qed.

Lemma leadingFraction_digits (x : Z) (scale : Z * Z) (j : Z) (w rest : string) (n : Z) :
  0 <= j -> 0 <= x < 10 ^ j -> holds scale (10 ^ j) -> j + byte_len w <= 9 -> digits_value x w = Some n -> after_digits rest = true ->
  exists sc, leadingFraction x scale false (w +:+ rest) = (n, sc, rest) /\ holds sc (10 ^ (j + byte_len w)).
Proof.
  intros Hj Hx Hs Hl H Hr. revert x j scale Hj Hx Hs Hl H. induction w as [|c w IH]; intros x j scale Hj Hx Hs Hl H; cbn [digits_value] in H.
  { injection H as ->. exists scale. change (byte_len EmptyString) with 0. rewrite Z.add_0_r. split; [|done].
    destruct rest as [|c r]; [done|]. cbn [after_digits] in Hr. apply negb_true_iff in Hr.
    change (EmptyString +:+ String.String c r) with (String.String c r). cbn [leadingFraction]. by rewrite Hr. }
  destruct (is_digit c) eqn:E; [|done]. fold (digit c) in H. change (String.String c w +:+ rest) with (String.String c (w +:+ rest)).
  cbn [leadingFraction]. rewrite E. pose proof (digit_range c E) as Hc.
  assert (byte_len (String.String c w) = byte_len w + 1) as Hb by (unfold byte_len; cbn [String.length]; lia). rewrite Hb in *.
  assert (0 <= byte_len w) as Hw by (unfold byte_len; lia).
  assert (10 ^ (j + 1) = 10 ^ j * 10) as Hp by (rewrite Z.pow_add_r by lia; done).
  assert (10 ^ (j + 1) <= 10 ^ 9) as Hq by (apply Z.pow_le_mono_r; lia). change (10 ^ 9) with 1000000000 in Hq.
  unfold max_int64, two63. rewrite (proj2 (Z.ltb_ge _ x)) by (apply Z.div_le_lower_bound; lia). replace (x * 10 + digit c) with (10 * x + digit c) by lia.
  rewrite (proj2 (Z.ltb_ge (2 ^ 63) _)) by lia.
  replace (j + (byte_len w + 1)) with (j + 1 + byte_len w) by lia. apply IH; [lia|lia| |lia|done].
  rewrite Hp. apply double_mul_exact; [done|by apply double_of_exact|lia].
Qed.

Lemma take_unit_app (u rest : string) : all_bytes unit_byte u = true -> after_unit rest = true -> take_unit (u +:+ rest) = (u, rest).
Proof.
  intros Hu Hr. induction u as [|c u IH].
  { destruct rest as [|c r]; [done|]. cbn [after_unit] in Hr. apply negb_true_iff in Hr.
    change (EmptyString +:+ String.String c r) with (String.String c r). cbn [take_unit]. by rewrite Hr. }
  cbn [all_bytes] in Hu. apply andb_true_iff in Hu as [Hc Hu].
  change (String.String c u +:+ rest) with (String.String c (u +:+ rest)). cbn [take_unit]. by rewrite Hc, IH.
Qed.

(** ** Components *)

Lemma unit_byte_after (u rest : string) : all_bytes unit_byte u = true -> u <> EmptyString -> after_digits (u +:+ rest) = true.
Proof.
  destruct u as [|c u]; [done|]. cbn [all_bytes]. intros [H _]%andb_true_iff _.
  change (String.String c u +:+ rest) with (String.String c (u +:+ rest)). cbn [after_digits].
  unfold unit_byte in H. rewrite negb_orb in H. by apply andb_true_iff in H as [_ H].
Qed.
Lemma no_fraction (u rest : string) :
  all_bytes unit_byte u = true -> u <> EmptyString -> fraction (u +:+ rest) = (0, double_of 1, false, u +:+ rest).
Proof.
  destruct u as [|c u]; [done|]. cbn [all_bytes]. intros [H _]%andb_true_iff _.
  change (String.String c u +:+ rest) with (String.String c (u +:+ rest)). unfold fraction.
  unfold unit_byte in H. rewrite negb_orb in H. apply andb_true_iff in H as [H _]. apply negb_true_iff in H. by rewrite H.
Qed.
Lemma fraction_reads (w rest : string) (f : Z) :
  digits_value 0 w = Some f -> w <> EmptyString -> byte_len w <= 9 -> after_digits rest = true ->
  exists sc, fraction ("." +:+ w +:+ rest) = (f, sc, true, rest) /\ holds sc (10 ^ byte_len w).
Proof.
  intros H Hw Hl Hr. destruct (leadingFraction_digits 0 (double_of 1) 0 w rest f) as (sc & E & Hs);
    [done|done|by apply (double_of_exact 1)|lia|done|done|].
  exists sc. split; [|exact Hs]. change ("." +:+ w +:+ rest) with (String.String "." (w +:+ rest)). unfold fraction.
  change (Ascii.eqb "." ".") with true. cbn iota. rewrite E. do 2 f_equal.
  unfold byte_len. rewrite str_length_app. destruct w as [|c w]; [done|]. cbn [String.length].
  apply negb_true_iff, Z.eqb_neq. lia.
Qed.

(** A number of units, with a fraction of them or not. *)
Lemma component_read (n f : Z) (sc : Z * Z) (post : bool) (tl u rest : string) (unit v : Z) :
  0 <= n <= two63 -> after_digits tl = true -> fraction tl = (f, sc, post, u +:+ rest) ->
  all_bytes unit_byte u = true -> u <> EmptyString -> after_unit rest = true ->
  unitMap u = Some unit -> in_unit n f sc unit = Some v ->
  component (pretty n +:+ tl) = Some (v, rest).
Proof.
  intros Hn Ht Hf Hu Hne Hr Hunit Hv.
  pose proof (leadingInt_digits 0 (pretty n) tl n ltac:(lia) (digits_pretty n (proj1 Hn)) (proj2 Hn) Ht) as Hi.
  pose proof (pretty_Z_digits n (proj1 Hn)) as Hd. pose proof (pretty_Z_nonempty n) as Hp.
  assert (byte_len tl =? byte_len (pretty n +:+ tl) = false) as Hlen.
  { unfold byte_len. rewrite str_length_app. destruct (pretty n); [done|]. cbn [String.length]. apply Z.eqb_neq. lia. }
  destruct (pretty n) as [|c w] eqn:E; [done|]. cbn [all_bytes] in Hd. apply andb_true_iff in Hd as [Hc _].
  change (String.String c w +:+ tl) with (String.String c (w +:+ tl)) in *. cbn [component]. rewrite Hc, orb_true_r, Hi.
  cbn [mbind option_bind]. rewrite Hf, Hlen. cbn [andb]. rewrite take_unit_app by done.
  destruct (String.eqb_spec u ""); [done|]. rewrite Hunit. cbn [mbind option_bind]. by rewrite Hv.
Qed.

Lemma whole_component (n unit : Z) (u rest : string) :
  0 <= n -> 0 < unit -> n * unit <= two63 -> all_bytes unit_byte u = true -> u <> EmptyString -> after_unit rest = true ->
  unitMap u = Some unit -> component (pretty n +:+ u +:+ rest) = Some (n * unit, rest).
Proof.
  intros Hn Hunit Hle Hu Hne Hr Hm. eapply component_read; [|by apply unit_byte_after|by apply no_fraction|done..|].
  - split; [done|]. nia.
  - unfold in_unit. rewrite (proj2 (Z.ltb_ge (two63 / unit) n)) by (apply Z.div_le_lower_bound; lia). done.
Qed.
Lemma fraction_component (n f g unit : Z) (w u rest : string) :
  0 <= n -> 0 < f -> digits_value 0 w = Some f -> w <> EmptyString -> byte_len w <= 9 ->
  unit = g * 10 ^ byte_len w -> 0 < g -> unit <= second -> n * unit + f * g <= two63 ->
  all_bytes unit_byte u = true -> u <> EmptyString -> after_unit rest = true -> unitMap u = Some unit ->
  component (pretty n +:+ "." +:+ w +:+ u +:+ rest) = Some (n * unit + f * g, rest).
Proof.
  intros Hn Hf Hw Hwn Hl Hg Hg0 Hs Hle Hu Hne Hr Hm.
  destruct (fraction_reads w (u +:+ rest) f) as (sc & Hfr & Hsc); [done..|by apply unit_byte_after|].
  assert (0 < 10 ^ byte_len w) as Hp by (apply Z.pow_pos_nonneg; [lia|unfold byte_len; lia]).
  assert (f < 10 ^ byte_len w) as Hlt by (by apply (digits_value_bound 0 w f 0)).
  unfold second in Hs.
  eapply component_read; [|done|exact Hfr|done..|].
  - split; [done|]. unfold two63 in *. nia.
  - unfold in_unit. rewrite (proj2 (Z.ltb_ge (two63 / unit) n)) by (apply Z.div_le_lower_bound; nia).
    rewrite (proj2 (Z.ltb_lt 0 f)) by done.
    rewrite (truncate_holds _ (f * g)); [by rewrite (proj2 (Z.ltb_ge two63 _)) by lia|].
    apply double_mul_exact; [apply double_of_exact; nia| |nia].
    rewrite Hg. apply double_div_exact; [done|done|nia].
Qed.

(** ** The fraction a duration is written with *)

Lemma pretty_digit (x d : Z) : 0 <= d <= 9 ->
  digits_value x (pretty d) = Some (10 * x + d) /\ byte_len (pretty d) = 1 /\ all_bytes is_digit (pretty d) = true.
Proof.
  intros Hd. assert (d = 0 \/ d = 1 \/ d = 2 \/ d = 3 \/ d = 4 \/ d = 5 \/ d = 6 \/ d = 7 \/ d = 8 \/ d = 9) as H by lia.
  split; [|by destruct_or! H; subst d].
  assert (pretty d = String.String (ascii_of_nat (48 + Z.to_nat d)) EmptyString) as -> by (by destruct_or! H; subst d).
  destruct_or! H; subst d; cbn; f_equal; lia.
Qed.

(** The digits [w] of the last [prec] of [v]: all of them once one is printed,
    up to the last that is not zero before. *)
Definition frac_digits (printing : bool) (prec : nat) (v : Z) (p : bool) (w : string) : Prop :=
  exists f, digits_value 0 w = Some f /\
    if printing then p = true /\ byte_len w = Z.of_nat prec /\ f = v mod 10 ^ Z.of_nat prec
    else byte_len w <= Z.of_nat prec /\ f * 10 ^ (Z.of_nat prec - byte_len w) = v mod 10 ^ Z.of_nat prec /\
         if p then w <> EmptyString /\ 0 < f else w = EmptyString.

Lemma fmtFrac_go_spec (prec : nat) (v : Z) (printing : bool) (acc : string) :
  0 <= v -> exists p w, Durations.fmtFrac_go prec v printing acc = (p, w +:+ acc, v / 10 ^ Z.of_nat prec) /\ frac_digits printing prec v p w.
Proof.
  revert v printing acc. induction prec as [|prec IH]; intros v printing acc Hv.
  { exists printing, EmptyString. cbn [Durations.fmtFrac_go]. rewrite Z.div_1_r. split; [done|]. exists 0. split; [done|].
    change (Z.of_nat 0) with 0. rewrite Z.mod_1_r. by destruct printing. }
  cbn [Durations.fmtFrac_go]. set (d := v mod 10). pose proof (Z.mod_pos_bound v 10 ltac:(lia)) as Hd'. assert (0 <= d <= 9) as Hd by (fold d in Hd'; lia).
  assert (0 < 10 ^ Z.of_nat prec) as Hp by (apply Z.pow_pos_nonneg; lia).
  assert (10 ^ Z.of_nat (S prec) = 10 * 10 ^ Z.of_nat prec) as Hpow by (rewrite Nat2Z.inj_succ, Z.pow_succ_r by lia; done).
  assert (v / 10 ^ Z.of_nat (S prec) = v / 10 / 10 ^ Z.of_nat prec) as Hdiv by (rewrite Hpow, Z.div_div by lia; done).
  assert (v mod 10 ^ Z.of_nat (S prec) = 10 * ((v / 10) mod 10 ^ Z.of_nat prec) + d) as Hmod
    by (rewrite Hpow, Z.rem_mul_r by lia; unfold d; ring).
  destruct (IH (v / 10) (printing || negb (d =? 0)) (if printing || negb (d =? 0) then pretty d +:+ acc else acc)) as (p & w & -> & f & Hf & Hw);
    [apply Z.div_pos; lia|].
  exists p. rewrite Hdiv. unfold frac_digits. rewrite Hmod. destruct (printing || negb (d =? 0)) eqn:E.
  - destruct Hw as (-> & Hl & ->). destruct (pretty_digit ((v / 10) mod 10 ^ Z.of_nat prec) d Hd) as (Hx & Hb & _).
    exists (w +:+ pretty d). split; [by rewrite str_app_assoc|].
    exists (10 * ((v / 10) mod 10 ^ Z.of_nat prec) + d). split; [by rewrite digits_value_app, Hf|].
    assert (byte_len (w +:+ pretty d) = Z.of_nat (S prec)) as Hlen by (unfold byte_len in *; rewrite str_length_app; lia).
    rewrite Hlen, Z.sub_diag. change (10 ^ 0) with 1. rewrite Z.mul_1_r. destruct printing; [done|].
    split; [lia|]. split; [done|]. split.
    + intros H. rewrite H in Hlen. change (byte_len EmptyString) with 0 in Hlen. lia.
    + cbn [orb] in E. apply negb_true_iff, Z.eqb_neq in E. pose proof (Z.mod_pos_bound (v / 10) _ Hp). lia.
  - apply orb_false_iff in E as [-> E]. apply negb_false_iff, Z.eqb_eq in E. destruct Hw as (Hl & Hm & Hw).
    exists w. split; [done|]. exists f. split; [done|]. split; [lia|]. split; [|done].
    rewrite <-Hm, E. replace (Z.of_nat (S prec) - byte_len w) with (1 + (Z.of_nat prec - byte_len w)) by lia.
    rewrite Z.pow_add_r by lia. change (10 ^ 1) with 10. lia.
Qed.

Lemma digits_nonneg (w : string) (f : Z) : digits_value 0 w = Some f -> 0 <= f.
Proof. apply digits_value_grows. lia. Qed.

(** A value of at most nine places after the unit, as it is written. *)
Lemma frac_component (prec : nat) (v : Z) (u : string) :
  (prec <= 9)%nat -> 0 <= v <= two63 -> all_bytes unit_byte u = true -> u <> EmptyString ->
  unitMap u = Some (10 ^ Z.of_nat prec) ->
  exists s, Durations.fmtFrac prec v u = (s, v / 10 ^ Z.of_nat prec) /\
    component (pretty (v / 10 ^ Z.of_nat prec) +:+ s) = Some (v, EmptyString).
Proof.
  intros Hprec Hv Hu Hne Hm. unfold Durations.fmtFrac.
  destruct (fmtFrac_go_spec prec v false u) as (p & w & -> & f & Hf & Hl & Hx & Hw); [lia|].
  assert (0 < 10 ^ Z.of_nat prec) as Hp by (apply Z.pow_pos_nonneg; lia).
  pose proof (Z.div_mod v (10 ^ Z.of_nat prec) ltac:(lia)) as Hdm.
  assert (0 <= v / 10 ^ Z.of_nat prec) as Hq by (apply Z.div_pos; lia). destruct p.
  - destruct Hw as [Hwn Hf0]. exists ("." +:+ w +:+ u). split; [done|].
    assert (0 <= byte_len w) as Hb by (unfold byte_len; lia).
    assert (10 ^ Z.of_nat prec = 10 ^ (Z.of_nat prec - byte_len w) * 10 ^ byte_len w) as Hsplit
      by (rewrite <-Z.pow_add_r by lia; f_equal; lia).
    pose proof (fraction_component (v / 10 ^ Z.of_nat prec) f (10 ^ (Z.of_nat prec - byte_len w)) (10 ^ Z.of_nat prec) w u EmptyString) as H.
    rewrite str_app_nil_r in H. rewrite H; clear H; try done.
    + f_equal. f_equal. rewrite Hx. lia.
    + lia.
    + apply Z.pow_pos_nonneg; lia.
    + change second with (10 ^ 9). apply Z.pow_le_mono_r; lia.
    + rewrite Hx. lia.
  - subst w. exists u. split; [done|]. injection Hf as <-.
    pose proof (whole_component (v / 10 ^ Z.of_nat prec) (10 ^ Z.of_nat prec) u EmptyString Hq Hp) as H. rewrite str_app_nil_r in H.
    rewrite H; try done; [f_equal; f_equal; lia|lia].
Qed.

(** [std_string] of less than a minute is one component. *)
Lemma std_string_component (v : Z) : 0 < v < minute -> component (Durations.std_string v) = Some (v, EmptyString).
Proof.
  intros Hv. unfold minute, second in Hv. unfold Durations.std_string. rewrite Z.abs_eq by lia. rewrite (proj2 (Z.ltb_ge v 0)) by lia.
  assert (v <= two63) as Hle by (unfold two63; lia).
  destruct (Z.ltb_spec v second) as [H1|H1]; unfold second in H1.
  - rewrite (proj2 (Z.eqb_neq v 0)) by lia. destruct (Z.ltb_spec v 1000); [|destruct (Z.ltb_spec v 1000000)].
    + destruct (frac_component 0 v "ns") as (s & -> & Hc); [lia|lia|done|done|done|]. exact Hc.
    + destruct (frac_component 3 v micro) as (s & E & Hc); [lia|lia|by vm_compute|done|by vm_compute|].
      fold micro. rewrite E. exact Hc.
    + destruct (frac_component 6 v "ms") as (s & -> & Hc); [lia|lia|done|done|done|]. exact Hc.
  - destruct (frac_component 9 v "s") as (s & -> & Hc); [lia|lia|done|done|done|].
    change (10 ^ Z.of_nat 9) with second in Hc |- *. assert (v / second < 60) as Hs by (apply Z.div_lt_upper_bound; unfold second; lia).
    assert (0 <= v / second) as Hs0 by (apply Z.div_pos; unfold second; lia).
    rewrite (Z.mod_small (v / second)) by lia. rewrite (Z.div_small (v / second)) by lia.
    change (0 <? 0) with false. cbn iota zeta. exact Hc.
Qed.

(** ** The whole text *)

Lemma components_step (fuel : nat) (d v : Z) (s r : string) :
  component s = Some (v, r) -> 0 <= d -> 0 <= v -> d + v <= two63 -> components (S fuel) d s = components fuel (d + v) r.
Proof.
  intros H Hd Hv Hle. cbn [components]. destruct s as [|c s]; [done|]. rewrite H. cbn [mbind option_bind].
  unfold two63 in *. rewrite Z.mod_small by lia. by rewrite (proj2 (Z.ltb_ge (2 ^ 63) (d + v))) by lia.
Qed.

(** A count of one unit ahead of what is left, when there is one. *)
Definition part (v unit : Z) (u : string) : string := if 0 <? v / unit then pretty (v / unit) +:+ u else EmptyString.
Definition text_of (v : Z) : string :=
  part v hour "h" +:+ part (v mod hour) minute "m" +:+
  (if 0 <? v mod hour mod minute then Durations.std_string (v mod hour mod minute) else EmptyString).

Lemma part_read (v unit : Z) (u rest : string) (fuel : nat) (d : Z) (Q : option Z -> Prop) :
  0 <= v -> 0 < unit -> 0 <= d -> d + v <= two63 -> all_bytes unit_byte u = true -> u <> EmptyString -> unitMap u = Some unit ->
  after_unit rest = true ->
  (forall f, (String.length rest < f)%nat -> Q (components f (d + unit * (v / unit)) rest)) ->
  (String.length (part v unit u +:+ rest) < fuel)%nat -> Q (components fuel d (part v unit u +:+ rest)).
Proof.
  intros Hv Hunit Hd Hle Hu Hne Hm Hr HQ Hf. unfold part in *. pose proof (Z.div_pos v unit Hv Hunit) as Hq.
  pose proof (Z.mul_div_le v unit Hunit) as Hmul.
  destruct (Z.ltb_spec 0 (v / unit)) as [H|H].
  - destruct fuel as [|fuel]; [lia|]. rewrite str_app_assoc in *.
    rewrite (components_step fuel d (v / unit * unit) _ rest); [|apply whole_component; [lia|done|lia|done..]|done|lia|lia].
    rewrite (Z.mul_comm (v / unit)). apply HQ. rewrite !str_length_app in Hf.
    destruct u; [done|]. cbn [String.length] in Hf. lia.
  - replace (v / unit) with 0 in HQ by lia. rewrite Z.mul_0_r, Z.add_0_r in HQ. by apply HQ.
Qed.

Lemma digit_after_unit (z : Z) (s : string) : 0 <= z -> after_unit (pretty z +:+ s) = true.
Proof.
  intros Hz. pose proof (pretty_Z_digits z Hz) as Hd. pose proof (pretty_Z_nonempty z) as Hn. destruct (pretty z) as [|c w]; [done|].
  cbn [all_bytes] in Hd. apply andb_true_iff in Hd as [Hc _]. change (String.String c w +:+ s) with (String.String c (w +:+ s)).
  cbn [after_unit]. unfold unit_byte. by rewrite Hc, orb_true_r.
Qed.
Lemma std_string_starts (v : Z) (r : string) (f : Z) : component (Durations.std_string v) = Some (f, r) -> after_unit (Durations.std_string v) = true.
Proof.
  destruct (Durations.std_string v) as [|c s]; [done|]. cbn [component after_unit]. unfold unit_byte.
  by destruct (Ascii.eqb c "." || is_digit c).
Qed.

Lemma text_read (v : Z) (fuel : nat) : 0 <= v <= two63 -> (String.length (text_of v) < fuel)%nat -> components fuel 0 (text_of v) = Some v.
Proof.
  intros Hv. pose proof (Z.div_mod v hour ltac:(done)) as E1.
  pose proof (Z.mod_pos_bound v hour ltac:(done)) as B1. pose proof (Z.div_pos v hour ltac:(lia) ltac:(done)) as D1.
  set (w := v mod hour) in *. pose proof (Z.div_mod w minute ltac:(done)) as E2.
  pose proof (Z.mod_pos_bound w minute ltac:(done)) as B2. pose proof (Z.div_pos w minute ltac:(lia) ltac:(done)) as D2.
  pose proof (Z.mul_nonneg_nonneg hour _ ltac:(done) D1). pose proof (Z.mul_nonneg_nonneg minute _ ltac:(done) D2).
  unfold text_of. fold w. set (x := w mod minute) in *.
  set (tl := if 0 <? x then Durations.std_string x else EmptyString).
  assert (after_unit tl = true) as Ht.
  { unfold tl. destruct (Z.ltb_spec 0 x); [|reflexivity]. eapply std_string_starts, std_string_component. lia. }
  assert (after_unit (part w minute "m" +:+ tl) = true) as Ht2.
  { unfold part. destruct (0 <? w / minute); [|exact Ht]. rewrite str_app_assoc. by apply digit_after_unit. }
  apply (part_read v hour "h" _ fuel 0 (fun r => r = Some v)); [lia|reflexivity|lia|lia|done|done|done|exact Ht2|].
  intros f1. apply (part_read w minute "m" tl f1 _ (fun r => r = Some v)); [lia|reflexivity|lia|lia|done|done|done|exact Ht|].
  intros f2 Hf2. unfold tl in *. destruct (Z.ltb_spec 0 x) as [Hx|Hx].
  - pose proof (std_string_component x ltac:(lia)) as Hc. destruct f2 as [|[|f2]]; [lia| |].
    { destruct (Durations.std_string x) as [|c s]; [done|]. cbn [String.length] in Hf2. lia. }
    rewrite (components_step _ _ x _ _ Hc); [|lia|lia|lia]. cbn [components]. f_equal. lia.
  - destruct f2 as [|f2]; [lia|]. cbn [components]. f_equal. lia.
Qed.

(** The count of a unit and what it leaves, as the code computes them. *)
Lemma unit_parts (v unit : Z) : 0 <= v <= max_int64 -> 0 < unit ->
  v /! unit = v / unit /\ (if 0 <? v /! unit then v -! (v /! unit *! unit) else v) = v mod unit.
Proof.
  intros Hv Hunit. rewrite quot64_div by done. split; [done|].
  pose proof (Z.div_mod v unit ltac:(lia)). pose proof (Z.mod_pos_bound v unit Hunit). pose proof (Z.div_pos v unit ltac:(lia) Hunit).
  unfold max_int64 in Hv. assert (0 <= unit * (v / unit) <= v) as Hm by (split; [by apply Z.mul_nonneg_nonneg; lia|lia]).
  rewrite (wrap64_id (v / unit * unit)) by (unfold in_int64, min_int64, max_int64; lia).
  rewrite wrap64_id by (unfold in_int64, min_int64, max_int64; lia).
  destruct (Z.ltb_spec 0 (v / unit)); [lia|]. replace (v / unit) with 0 in * by lia. lia.
Qed.
Lemma String_text (d : Z) : min_int64 < d <= max_int64 -> d <> 0 ->
  Durations.String d = (if d <? 0 then "-" else "") +:+ text_of (Z.abs d).
Proof.
  intros Hd H0. unfold Durations.String. rewrite (proj2 (Z.eqb_neq d 0)) by done.
  assert (forall v sign, 0 < v <= max_int64 ->
    (let h := v /! hour in
     let '(hs, v) := if 0 <? h then (pretty h +:+ "h", v -! (h *! hour)) else ("", v) in
     let m := v /! minute in
     let '(ms, v) := if 0 <? m then (pretty m +:+ "m", v -! (m *! minute)) else ("", v) in
     let ss := if 0 <? v then Durations.std_string v else "" in
     sign +:+ hs +:+ ms +:+ ss) = sign +:+ text_of v) as Ht.
  { intros v sign Hv. destruct (unit_parts v hour ltac:(lia) ltac:(done)) as [E1 E2]. unfold text_of, part.
    pose proof (Z.mod_pos_bound v hour ltac:(done)) as B1. assert (v mod hour <= v) as B2 by (apply Z.mod_le; [lia|done]).
    cbv zeta. rewrite E1 in *. rewrite <-E2. rewrite <-E2 in B1, B2. revert B1 B2. clear E2. destruct (0 <? v / hour); intros B1 B2; [set (w := v -! _) in *|set (w := v) in *];
      (destruct (unit_parts w minute ltac:(lia) ltac:(done)) as [F1 F2]; rewrite F1 in *; rewrite <-F2; by destruct (0 <? w / minute)). }
  destruct (Z.ltb_spec d 0) as [Hn|Hn].
  - unfold min_int64, max_int64 in *. rewrite (wrap64_id (- d)) by (unfold in_int64, min_int64, max_int64; lia).
    rewrite (Z.abs_neq d) by lia. apply Ht. lia.
  - rewrite (Z.abs_eq d) by lia. apply Ht. lia.
Qed.

Lemma part_start (v unit : Z) (u : string) : 0 < v / unit -> part v unit u = pretty (v / unit) +:+ u.
Proof. intros H. unfold part. by rewrite (proj2 (Z.ltb_lt 0 (v / unit))) by done. Qed.
Lemma text_starts (v : Z) : 0 <= v <= two63 -> v <> 0 -> exists c s, text_of v = String.String c s /\ unit_byte c = false.
Proof.
  intros Hv H0. pose proof (text_read v (S (String.length (text_of v))) Hv ltac:(lia)) as H.
  destruct (text_of v) as [|c s]; [by injection H as <-|]. exists c, s. split; [done|].
  cbn [components component] in H. unfold unit_byte. by destruct (Ascii.eqb c "." || is_digit c).
Qed.
Lemma text_not_zero (v : Z) : 0 <= v <= two63 -> text_of v <> "0"%string.
Proof. intros Hv E. pose proof (text_read v 2 Hv) as H. rewrite E in H. vm_compute in H. by discriminate H. Qed.

(** Every duration but the least is read back from the text it is written as:
    the whole hours and minutes, and the seconds with their fraction, come back
    exactly, through the unsigned sum and the binary64 fraction of
    [time.ParseDuration].  The least one is written as a sign alone, which is
    refused. *)
Theorem duration_text_roundtrip (d : duration) (Hd : in_int64 d) :
  if d =? min_int64 then Durations.String d = "-"%string /\ UnmarshalText (Durations.String d) = None
  else UnmarshalText (Durations.String d) = Some d.
Proof.
  destruct (Z.eqb_spec d min_int64) as [->|Hm]; [by vm_compute|]. unfold in_int64 in Hd.
  destruct (decide (d = 0)) as [->|H0]; [by vm_compute|]. rewrite String_text by (first [done|lia]).
  assert (0 <= Z.abs d <= two63) as Ha by (unfold two63, min_int64, max_int64 in *; lia).
  destruct (text_starts (Z.abs d) Ha ltac:(lia)) as (c & s & Ht & Hc).
  pose proof (text_read (Z.abs d) (S (String.length (text_of (Z.abs d)))) Ha ltac:(lia)) as Hr. pose proof (text_not_zero _ Ha) as Hz.
  assert (sign_of ((if d <? 0 then "-" else "") +:+ text_of (Z.abs d)) = (d <? 0, text_of (Z.abs d))) as Hs.
  { destruct (d <? 0); [done|]. change ("" +:+ text_of (Z.abs d)) with (text_of (Z.abs d)). rewrite Ht. cbn [sign_of].
    unfold unit_byte in Hc. destruct (Ascii.eqb_spec c "-") as [->|]; [discriminate Hc|]. by destruct (Ascii.eqb_spec c "+") as [->|]. }
  unfold UnmarshalText, ParseDuration. rewrite Hs. destruct (String.eqb_spec (text_of (Z.abs d)) "0"); [done|].
  assert (String.eqb (text_of (Z.abs d)) "" = false) as -> by (by rewrite Ht). rewrite Hr. cbn [mbind option_bind].
  unfold min_int64, max_int64 in *. destruct (Z.ltb_spec d 0) as [Hn|Hn].
  - rewrite (wrap64_id (Z.abs d)) by (unfold in_int64, min_int64, max_int64; lia).
    rewrite wrap64_id by (unfold in_int64, min_int64, max_int64; lia). f_equal. lia.
  - rewrite (proj2 (Z.ltb_ge _ (Z.abs d))) by lia. f_equal. lia.
Qed.
Lemma duration_text_roundtrip_witness : UnmarshalText (Durations.String (minute + 1500000007)) = Some (minute + 1500000007).
Proof.
  exact (duration_text_roundtrip (minute + 1500000007) (conj (proj1 (Z.leb_le min_int64 (minute + 1500000007)) eq_refl) (proj1 (Z.leb_le (minute + 1500000007) max_int64) eq_refl))).
Defined.
