(* ===== verification/PolicyBody.v ===== *)
(** * Bodies of the PGO routes

    src/internal/httpapi/pgo.go, [decodeBody] and what it calls, the JSON methods
    of src/internal/pgo/policy.go, and the policy route's read
    (pgo_policy.go): which bodies a write route accepts, the first field it
    refuses by name, the override a body means, and the body a read answers,
    which the same route reads back. *)

From S2P Require Import Prelude Config Effects Keys Policy Records Caches Timestamp Runtime Api Base64 Utf8 Json Cookie Claims DurationText.

(** ** The names a type declares

    A type is a struct of declared names, or one the walk does not enter. *)

Inductive shape := Leaf | Fields (l : list (string * shape)).

(** [PolicyOverride] and its blocks; [Duration] and [Replicas] decode themselves. *)
Definition leaves (names : list string) : shape := Fields (map (fun n => (n, Leaf)) names).
Definition schedule_names : list string := ["every"; "jitter"]%string.
Definition sampling_names : list string := ["duration"; "rounds"; "roundInterval"; "replicas"; "maxParallel"]%string.
Definition override_names : list string := ["enabled"; "schedule"; "sampling"; "target"; "artifact"]%string.
Definition override_shape : shape :=
  Fields [("enabled", Leaf); ("schedule", leaves schedule_names); ("sampling", leaves sampling_names);
          ("target", leaves ["version"]); ("artifact", leaves ["retention"])]%string.

Fixpoint assoc {A} (k : string) (l : list (string * A)) : option A :=
  match l with [] => None | (k', a) :: l => if String.eqb k k' then Some a else assoc k l end.
(** [declaredField]: the name exactly, then without regard to case. *)
Definition declaredField (l : list (string * shape)) (name : string) : option shape :=
  k ← field_of (map fst l) name; assoc k l.

(** [escapePointer]. *)
Fixpoint escapePointer (name : string) : string :=
  match name with
  | EmptyString => EmptyString
  | String c r =>
      (if Ascii.eqb c "~" then "~0" else if Ascii.eqb c "/" then "~1" else String c EmptyString) +:+ escapePointer r
  end.

(** [walkObject], over the text a value starts in: a value that was read whole
    ends where the walk of it does. *)
Fixpoint walkObject (fuel : nat) (raw : string) (t : shape) (prefix : string) : option string :=
  match fuel, t with
  | S fuel, Fields l =>
      match skip_ws raw with
      | String c r =>
          if Ascii.eqb c "{" then
            match skip_ws r with
            | String e r' => if Ascii.eqb e "}" || Ascii.eqb e "]" then None else walkMember fuel (String e r') l prefix
            | EmptyString => None
            end
          else None
      | EmptyString => None
      end
  | _, _ => None
  end
with walkMember (fuel : nat) (s : string) (l : list (string * shape)) (prefix : string) : option string :=
  match fuel, s with
  | S fuel, String q r =>
      if negb (Ascii.eqb q dquote) then None
      else
        match parse_string r with
        | None => None
        | Some (name, r1) =>
            let pointer := prefix +:+ "/" +:+ escapePointer name in
            match declaredField l name with
            | None => Some pointer
            | Some t =>
                match skip_ws r1 with
                | String c r2 =>
                    if negb (Ascii.eqb c ":") then None
                    else
                      match parse_prefix r2 with
                      | None => None
                      | Some (v, r3) =>
                          match walkObject fuel r2 t pointer with
                          | Some p => Some p
                          | None =>
                              match skip_ws r3 with
                              | String e r4 => if Ascii.eqb e "," then walkMember fuel (skip_ws r4) l prefix else None
                              | EmptyString => None
                              end
                          end
                      end
                | EmptyString => None
                end
            end
        end
  | _, _ => None
  end.
(** [firstUnknownField]. *)
Definition firstUnknownField (raw : string) (t : shape) : option string :=
  walkObject (S (String.length raw)) raw t EmptyString.

(** ** The values *)

(** A pointer: null unsets it, anything else is read into what it points to. *)
Definition to_ptr {A} (read : A -> json -> option A) (zero : A) (old : option A) (v : json) : option (option A) :=
  match v with JNull => Some None | _ => a ← read (default zero old) v; Some (Some a) end.
Definition to_bool (old : bool) (v : json) : option bool := match v with JBool b => Some b | JNull => Some old | _ => None end.
(** [Duration.UnmarshalText] of a string. *)
Definition to_duration (old : duration) (v : json) : option duration :=
  match v with JStr s => UnmarshalText s | JNull => Some old | _ => None end.
(** [Replicas.UnmarshalJSON]; null reads as the count of an int left as it was. *)
Definition to_replicas (old : Replicas) (v : json) : option Replicas :=
  match v with
  | JStr s => if String.eqb s replicasAll then Some AllReplicas else None
  | v => n ← to_int64 0 v; Some (ReplicaCount n)
  end.

Definition set_schedule (s : ScheduleOverride) (name : string) (v : json) : option ScheduleOverride :=
  if String.eqb name "every" then x ← to_ptr to_duration 0 (o_Every s) v; Some {| o_Every := x; o_Jitter := o_Jitter s |}
  else x ← to_ptr to_duration 0 (o_Jitter s) v; Some {| o_Every := o_Every s; o_Jitter := x |}.
Definition set_sampling (s : SamplingOverride) (name : string) (v : json) : option SamplingOverride :=
  let '(Build_SamplingOverride d r i n m) := s in
  if String.eqb name "duration" then x ← to_ptr to_duration 0 d v; Some (Build_SamplingOverride x r i n m)
  else if String.eqb name "rounds" then x ← to_ptr to_int64 0 r v; Some (Build_SamplingOverride d x i n m)
  else if String.eqb name "roundInterval" then x ← to_ptr to_duration 0 i v; Some (Build_SamplingOverride d r x n m)
  else if String.eqb name "replicas" then x ← to_ptr to_replicas (ReplicaCount 0) n v; Some (Build_SamplingOverride d r i x m)
  else x ← to_ptr to_int64 0 m v; Some (Build_SamplingOverride d r i n x).
Definition set_target (t : TargetOverride) (name : string) (v : json) : option TargetOverride :=
  x ← to_ptr to_string EmptyString (o_Version t) v; Some {| o_Version := x |}.
Definition set_artifact (a : ArtifactOverride) (name : string) (v : json) : option ArtifactOverride :=
  x ← to_ptr to_duration 0 (o_Retention a) v; Some {| o_Retention := x |}.

Definition no_schedule : ScheduleOverride := {| o_Every := None; o_Jitter := None |}.
Definition no_sampling : SamplingOverride := Build_SamplingOverride None None None None None.
Definition no_override : PolicyOverride :=
  {| o_Enabled := None; o_Schedule := None; o_Sampling := None; o_Target := None; o_Artifact := None |}.
Definition to_block {A} (names : list string) (set : A -> string -> json -> option A) (zero : A) (v : json) : option A :=
  to_struct names set zero v.
Definition set_override (o : PolicyOverride) (name : string) (v : json) : option PolicyOverride :=
  let '(Build_PolicyOverride e sc sa t a) := o in
  if String.eqb name "enabled" then x ← to_ptr to_bool false e v; Some (Build_PolicyOverride x sc sa t a)
  else if String.eqb name "schedule" then
    x ← to_ptr (to_block schedule_names set_schedule) no_schedule sc v; Some (Build_PolicyOverride e x sa t a)
  else if String.eqb name "sampling" then
    x ← to_ptr (to_block sampling_names set_sampling) no_sampling sa v; Some (Build_PolicyOverride e sc x t a)
  else if String.eqb name "target" then
    x ← to_ptr (to_block ["version"%string] set_target) {| o_Version := None |} t v; Some (Build_PolicyOverride e sc sa x a)
  else x ← to_ptr (to_block ["retention"%string] set_artifact) {| o_Retention := None |} a v; Some (Build_PolicyOverride e sc sa t x).
Definition to_override : json -> option PolicyOverride := to_struct override_names set_override no_override.

(** ** The body *)

(** What a client sends before the read ends: at the end of the body, at the
    deadline, or because the connection fails. *)
Inductive ending := EndOfBody | DeadlineExceeded | ReadError.
Record sent := { sn_Bytes : string; sn_Ends : ending }.

Inductive bodyErr := UnknownField (pointer : string) | BodyMalformed | BodyTooLarge | BodyDeadline | BodyNotAllowed.
(** Every one is a parameter of the request that is refused. *)
Definition body_refusal (e : bodyErr) : requestError := invalidParameter.

Definition maxBodyBytes : Z := Z.shiftl 64 10.

(** [io.ReadAll] of a [MaxBytesReader], and [bodyUnreadable]. *)
Definition read_all (limit : Z) (b : sent) : string + bodyErr :=
  if limit <? byte_len (sn_Bytes b) then inr BodyTooLarge
  else match sn_Ends b with EndOfBody => inl (sn_Bytes b) | DeadlineExceeded => inr BodyDeadline | ReadError => inr BodyMalformed end.

(** [decodeBody] into an override. *)
Definition decodeBody (allowEmpty : bool) (b : sent) : PolicyOverride + bodyErr :=
  match read_all maxBodyBytes b with
  | inr e => inr e
  | inl raw =>
      if allowEmpty && String.eqb (trim_space raw) "" then inl no_override
      else
        match firstUnknownField raw override_shape with
        | Some pointer => inr (UnknownField pointer)
        | None =>
            match parse_prefix raw with
            | None => inr BodyMalformed
            | Some (v, rest) =>
                match to_override v with
                | None => inr BodyMalformed
                | Some o => if String.eqb (skip_ws rest) "" then inl o else inr BodyMalformed
                end
            end
        end
  end.
(** As the handlers take it. *)
Definition body_of (allowEmpty : bool) (b : sent) : PolicyOverride + requestError :=
  match decodeBody allowEmpty b with inl o => inl o | inr e => inr (body_refusal e) end.

(** [rejectBody]: nothing when the route may go on. *)
Definition rejectBody (b : sent) : option bodyErr :=
  match sn_Bytes b with
  | String _ _ => Some BodyNotAllowed
  | EmptyString => match sn_Ends b with EndOfBody => None | DeadlineExceeded => Some BodyDeadline | ReadError => Some BodyMalformed end
  end.

Definition text (s : string) : sent := {| sn_Bytes := s; sn_Ends := EndOfBody |}.
Definition dq (s : string) : string := String dquote (s +:+ String dquote EmptyString).
Example decode_examples :
  map (fun s => decodeBody true (text s))
    [""; "null"; "{" +:+ dq "bogus" +:+ ":1"; "{" +:+ dq "sampling" +:+ ":{" +:+ dq "ro~/x" +:+ ":1}}"; "[]";
     "{" +:+ dq "Sampling" +:+ ":{" +:+ dq "rounds" +:+ ":3," +:+ dq "duration" +:+ ":" +:+ dq "1m30s" +:+ "}} {}";
     "{" +:+ dq "Sampling" +:+ ":{" +:+ dq "rounds" +:+ ":3," +:+ dq "duration" +:+ ":" +:+ dq "1m30s" +:+ "}}"]%string =
  [inl no_override; inl no_override; inr (UnknownField "/bogus"); inr (UnknownField "/sampling/ro~0~1x"); inr BodyMalformed;
   inr BodyMalformed;
   inl {| o_Enabled := None; o_Schedule := None; o_Target := None; o_Artifact := None;
          o_Sampling := Some (Build_SamplingOverride (Some (90 * second)) (Some 3) None None None) |}].
Proof. vm_compute. reflexivity. Qed.

(** ** What the walk finds *)

(** The first member no type declares, in a value. *)
Definition members_unknown (find : json -> shape -> string -> option string) (l : list (string * shape)) (prefix : string) :
    list (string * json) -> option string :=
  fix go m :=
    match m with
    | [] => None
    | (k, x) :: m =>
        let pointer := prefix +:+ "/" +:+ escapePointer k in
        match declaredField l k with
        | None => Some pointer
        | Some t => match find x t pointer with Some p => Some p | None => go m end
        end
    end.
Fixpoint unknown (v : json) (t : shape) (prefix : string) : option string :=
  match t, v with
  | Fields l, JObj m =>
      (fix go m :=
        match m with
        | [] => None
        | (k, x) :: m =>
            let pointer := prefix +:+ "/" +:+ escapePointer k in
            match declaredField l k with
            | None => Some pointer
            | Some t => match unknown x t pointer with Some p => Some p | None => go m end
            end
        end) m
  | _, _ => None
  end.

Lemma unknown_leaf (v : json) (p : string) : unknown v Leaf p = None.
Proof. by destruct v. Qed.
Lemma unknown_fields (l : list (string * shape)) (m : list (string * json)) (p : string) :
  unknown (JObj m) (Fields l) p = members_unknown unknown l p m.
Proof. reflexivity. Qed.
Lemma unknown_other (v : json) (t : shape) (p : string) : (forall m, v <> JObj m) -> unknown v t p = None.
Proof. intros H. destruct v, t; try reflexivity. by destruct (H m). Qed.

Lemma walk_spec (g : nat) :
  (forall d s v r, 0 <= d -> value g d s = Some (v, r) ->
     forall fuel s0 t p, skip_ws s0 = s -> (String.length s0 < fuel)%nat -> walkObject fuel s0 t p = unknown v t p) /\
  (forall d s m r, 0 <= d -> members g d s = Some (m, r) ->
     forall fuel l p, (String.length s < fuel)%nat -> walkMember fuel s l p = members_unknown unknown l p m).
Proof.
  induction g as [|g [IHv IHm]]; [by split; intros d [|c s] ? ?|]. split.
  - intros d s v r Hd H fuel s0 t p Hs Hf. destruct t as [|l]; [rewrite unknown_leaf; by destruct fuel|].
    destruct fuel as [|fuel]; [lia|]. cbn [walkObject]. rewrite Hs. destruct s as [|c s]; [done|]. cbn [value] in H.
    destruct (Ascii.eqb_spec c "{") as [->|Hc].
    + change (Ascii.eqb "{" dquote) with false in H. change (Ascii.eqb "{" "[") with false in H. cbn iota in H.
      destruct (_ <=? d); [done|]. pose proof (skip_ws_len s0) as Hl0. pose proof (skip_ws_len s) as Hl1. rewrite Hs in Hl0. cbn [String.length] in Hl0.
      destruct (skip_ws s) as [|e s'] eqn:E; [done|]. destruct (Ascii.eqb_spec e "}") as [->|He].
      * injection H as <- _. reflexivity.
      * destruct (members g (d + 1) (String e s')) as [[m r']|] eqn:Em; [|done]. injection H as <- _.
        destruct (Ascii.eqb_spec e "]") as [->|]; [by destruct g|]. cbn [orb]. rewrite unknown_fields.
        apply (IHm (d + 1) _ _ r'); [lia|done|lia].
    + rewrite unknown_other; [done|]. intros m ->.
      destruct (Ascii.eqb c dquote); [by destruct (parse_string s) as [[]|]|].
      destruct (Ascii.eqb c "["); [|destruct (cut_prefix "null" _); [done|]; destruct (cut_prefix "true" _); [done|];
        destruct (cut_prefix "false" _); [done|]; by destruct (parse_number _) as [[]|]].
      destruct (_ <=? d); [done|]. destruct (skip_ws s); [done|]. destruct (Ascii.eqb _ "]"); [done|].
      by destruct (elements _ _ _) as [[]|].
  - intros d s m r Hd H fuel l p Hf. destruct s as [|q s]; [done|]. destruct fuel as [|fuel]; [cbn [String.length] in Hf; lia|].
    cbn [members] in H. cbn [walkMember]. destruct (negb (Ascii.eqb q dquote)); [done|].
    destruct (parse_string s) as [[k r0]|] eqn:Ek; [|done]. apply parse_string_len in Ek.
    pose proof (skip_ws_len r0) as L1. destruct (skip_ws r0) as [|c r1] eqn:E1; [done|].
    destruct (negb (Ascii.eqb c ":")); [done|]. destruct (value g d (skip_ws r1)) as [[v r2]|] eqn:Ev; [|done].
    rewrite (value_prefix g d r1 r2 v Hd Ev).
    pose proof (proj1 (reads_len g) _ _ _ _ Ev) as L2. pose proof (skip_ws_len r1) as L3. pose proof (skip_ws_len r2) as L4.
    cbn [String.length] in *.
    assert (forall t pointer, walkObject fuel r1 t pointer = unknown v t pointer) as Hw
      by (intros t pointer; apply (IHv d _ v r2 Hd Ev); [done|lia]).
    destruct (skip_ws r2) as [|e r3] eqn:E2; [done|]. cbn [String.length] in L4. pose proof (skip_ws_len r3) as L5.
    destruct (Ascii.eqb_spec e "}") as [->|].
    + injection H as <- _. cbn [members_unknown]. destruct (declaredField l k) as [t|]; [|done]. by rewrite Hw.
    + destruct (Ascii.eqb e ","); [|done]. destruct (members g d (skip_ws r3)) as [[m' r4]|] eqn:Em; [|done]. injection H as <- _.
      cbn [members_unknown]. destruct (declaredField l k) as [t|]; [|done]. rewrite Hw.
      destruct (unknown v t _); [done|]. apply (IHm d _ _ r4); [done|done|lia].
Qed.

(** Of a text that starts with a whole value, the walk finds what its value has. *)
Lemma firstUnknownField_spec (raw : string) (v : json) (rest : string) (t : shape) :
  parse_prefix raw = Some (v, rest) -> firstUnknownField raw t = unknown v t "".
Proof.
  intros H. unfold parse_prefix in H. cbn zeta in H.
  by apply (proj1 (walk_spec _) 0 _ v rest (Z.le_refl 0) H (S (String.length raw)) raw t "" eq_refl (Nat.lt_succ_diag_r _)).
Qed.

(** Any more fuel finds the same. *)
Lemma walk_enough (f : nat) :
  (forall g s t p, (String.length s < f)%nat -> (String.length s < g)%nat -> walkObject f s t p = walkObject g s t p) /\
  (forall g s l p, (String.length s < f)%nat -> (String.length s < g)%nat -> walkMember f s l p = walkMember g s l p).
Proof.
  induction f as [|f [IHo IHm]]; [split; intros; lia|]. split; intros [|g] s x p Hf Hg; try lia.
  - cbn [walkObject]. destruct x as [|l]; [done|]. pose proof (skip_ws_len s) as L0. destruct (skip_ws s) as [|c r]; [done|].
    destruct (Ascii.eqb c "{"); [|done]. pose proof (skip_ws_len r) as L1. destruct (skip_ws r) as [|e r']; [done|].
    destruct (_ || _); [done|]. cbn [String.length] in *. apply IHm; cbn [String.length]; lia.
  - cbn [walkMember]. destruct s as [|q r]; [done|]. destruct (negb _); [done|]. destruct (parse_string r) as [[k r1]|] eqn:E; [|done].
    apply parse_string_len in E. destruct (declaredField x k) as [t|]; [|done]. pose proof (skip_ws_len r1) as L1.
    destruct (skip_ws r1) as [|c r2]; [done|]. destruct (negb _); [done|]. destruct (parse_prefix r2) as [[v r3]|] eqn:Ev; [|done].
    unfold parse_prefix in Ev. cbn zeta in Ev. pose proof (proj1 (reads_len _) _ _ _ _ Ev) as L2. pose proof (skip_ws_len r2) as L3. cbn [String.length] in *.
    rewrite (IHo g r2) by lia. destruct (walkObject g r2 t _); [done|]. pose proof (skip_ws_len r3) as L4.
    destruct (skip_ws r3) as [|e r4]; [done|]. destruct (Ascii.eqb e ","); [|done]. pose proof (skip_ws_len r4) as L5.
    cbn [String.length] in *. apply IHm; lia.
Qed.

(** A body within its bound that arrived whole. *)
Definition arrived (b : sent) : Prop := sn_Ends b = EndOfBody /\ byte_len (sn_Bytes b) <= maxBodyBytes.
Definition blank (allowEmpty : bool) (raw : string) : bool := allowEmpty && String.eqb (trim_space raw) "".

Lemma read_all_inl (limit : Z) (b : sent) (raw : string) :
  read_all limit b = inl raw <-> raw = sn_Bytes b /\ sn_Ends b = EndOfBody /\ byte_len (sn_Bytes b) <= limit.
Proof.
  unfold read_all. destruct (Z.ltb_spec limit (byte_len (sn_Bytes b))); [split; [done|lia]|].
  destruct (sn_Ends b); naive_solver.
Qed.

Lemma parse_json_prefix (raw : string) (v : json) : parse_json raw = Some v -> exists rest, parse_prefix raw = Some (v, rest).
Proof. unfold parse_json. destruct (parse_prefix raw) as [[w r]|]; [|done]. case_match; [|done]. intros [= ->]. by exists r. Qed.

Lemma decode_accepts (allowEmpty : bool) (b : sent) (v : json) (o : PolicyOverride) :
  arrived b -> blank allowEmpty (sn_Bytes b) = false -> parse_json (sn_Bytes b) = Some v ->
  unknown v override_shape "" = None -> to_override v = Some o -> decodeBody allowEmpty b = inl o.
Proof.
  intros [H1 H2] Hb Hp Hu Ho. unfold decodeBody. rewrite (proj2 (read_all_inl maxBodyBytes b (sn_Bytes b))) by done.
  fold (blank allowEmpty (sn_Bytes b)). rewrite Hb. unfold parse_json in Hp. destruct (parse_prefix (sn_Bytes b)) as [[w rest]|] eqn:E; [|done].
  rewrite (firstUnknownField_spec _ _ _ _ E). destruct (String.eqb (skip_ws rest) "") eqn:Er; [|done]. injection Hp as ->.
  rewrite Hu, Ho. done.
Qed.

(** C35: the bodies a write route accepts are the ones that arrive whole within the
    bound and are one JSON value: no member of it, at any level, is of a name its
    type does not declare, and every value is one its field can hold; or, where
    the route allows it, nothing but space.  A refusal that names a field names the
    first, in the order of the text, of any body that starts with a value. *)
Theorem decodeBody_exact (allowEmpty : bool) (b : sent) :
  (forall o, decodeBody allowEmpty b = inl o <->
     arrived b /\
     if blank allowEmpty (sn_Bytes b) then o = no_override
     else exists v, parse_json (sn_Bytes b) = Some v /\ unknown v override_shape "" = None /\ to_override v = Some o) /\
  (forall pointer, decodeBody allowEmpty b = inr (UnknownField pointer) ->
     arrived b /\ forall v rest, parse_prefix (sn_Bytes b) = Some (v, rest) -> unknown v override_shape "" = Some pointer) /\
  (decodeBody allowEmpty b = inr BodyTooLarge <-> maxBodyBytes < byte_len (sn_Bytes b)) /\
  (decodeBody allowEmpty b = inr BodyDeadline <-> byte_len (sn_Bytes b) <= maxBodyBytes /\ sn_Ends b = DeadlineExceeded) /\
  decodeBody allowEmpty b <> inr BodyNotAllowed.
Proof.
  assert (forall raw, read_all maxBodyBytes b = inl raw -> arrived b /\ raw = sn_Bytes b) as Hin
    by (intros raw (-> & H1 & H2)%read_all_inl; done).
  unfold decodeBody. destruct (read_all maxBodyBytes b) as [raw|e] eqn:E.
  - destruct (Hin _ eq_refl) as [Ha ->]. clear Hin. destruct Ha as [Ha1 Ha2]. fold (blank allowEmpty (sn_Bytes b)).
    set (raw := sn_Bytes b) in *. rewrite Ha1.
    assert (forall X : Prop, (X <-> byte_len raw <= maxBodyBytes /\ EndOfBody = DeadlineExceeded) <-> ~ X) as Hno by naive_solver.
    assert (forall X : Prop, (X <-> maxBodyBytes < byte_len raw) <-> ~ X) as Hno2 by (intros X; split; [intros HX ?%HX; lia|intros HX; split; [done|lia]]).
    rewrite Hno, Hno2. destruct (blank allowEmpty raw).
    { split_and!; try done. intros o. split; [by intros [= <-]|by intros [_ ->]]. }
    destruct (firstUnknownField raw override_shape) as [p|] eqn:Eu.
    { split_and!; try done.
      - intros o. split; [done|]. intros (_ & v & (rest & Hp)%parse_json_prefix & Hv & _).
        rewrite (firstUnknownField_spec _ _ _ _ Hp), Hv in Eu. done.
      - intros p' [= <-]. split; [done|]. intros v rest Hp. by rewrite <-(firstUnknownField_spec _ _ _ _ Hp). }
    unfold parse_json. destruct (parse_prefix raw) as [[v rest]|] eqn:Ep.
    + rewrite (firstUnknownField_spec _ _ _ _ Ep) in Eu. destruct (to_override v) as [o'|] eqn:Eo; destruct (String.eqb (skip_ws rest) "");
        split_and!; try done; intros o; (split; [try done|intros (_ & w & [= <-] & _ & Hw); congruence]).
      intros [= <-]. split; [done|]. by exists v.
    + split_and!; try done. intros o. split; [done|]. by intros (_ & v & ? & _).
  - assert (~ arrived b) as Hna.
    { intros [H1 H2]. pose proof (proj2 (read_all_inl maxBodyBytes b (sn_Bytes b)) (conj eq_refl (conj H1 H2))). congruence. }
    clear Hin. unfold read_all in E. destruct (Z.ltb_spec maxBodyBytes (byte_len (sn_Bytes b))) as [Hl|Hl]; [injection E as <-|].
    + split_and!; try done; [naive_solver|]. split; [done|lia].
    + destruct (sn_Ends b) eqn:Ee; [discriminate E|injection E as <-..]; (split_and!; try done; [naive_solver|split; [done|lia]|..]); try (split; [done|naive_solver]).
Qed.

(** ** The body of a read *)

(** A pointer tagged omitempty, and the JSON of each type. *)
Definition opt_member {A} (name : string) (f : A -> json) (o : option A) : list (string * json) :=
  match o with Some a => [(name, f a)] | None => [] end.
Definition duration_json (d : duration) : json := JStr (Durations.String d).
Definition int_json (n : Z) : json := JNum (pretty n).
(** [Replicas.MarshalJSON]. *)
Definition replicas_json (r : Replicas) : json := if r_all r then JStr replicasAll else int_json (r_count r).
Definition schedule_json (s : ScheduleOverride) : json :=
  JObj (opt_member "every" duration_json (o_Every s) ++ opt_member "jitter" duration_json (o_Jitter s)).
Definition sampling_json (s : SamplingOverride) : json :=
  JObj (opt_member "duration" duration_json (o_Duration s) ++ opt_member "rounds" int_json (o_Rounds s) ++
        opt_member "roundInterval" duration_json (o_RoundInterval s) ++ opt_member "replicas" replicas_json (o_Replicas s) ++
        opt_member "maxParallel" int_json (o_MaxParallel s)).
Definition target_json (t : TargetOverride) : json := JObj (opt_member "version" JStr (o_Version t)).
Definition artifact_json (a : ArtifactOverride) : json := JObj (opt_member "retention" duration_json (o_Retention a)).
Definition override_json (o : PolicyOverride) : json :=
  JObj (opt_member "enabled" JBool (o_Enabled o) ++ opt_member "schedule" schedule_json (o_Schedule o) ++
        opt_member "sampling" sampling_json (o_Sampling o) ++ opt_member "target" target_json (o_Target o) ++
        opt_member "artifact" artifact_json (o_Artifact o)).

(** The effective policy: every member is there. *)
Definition policy_json (p : Policy) : json :=
  JObj [("enabled", JBool (Policy.Enabled p));
        ("schedule", JObj [("every", duration_json (Every (PSchedule p))); ("jitter", duration_json (Jitter (PSchedule p)))]);
        ("sampling", JObj [("duration", duration_json (Duration (PSampling p))); ("rounds", int_json (Rounds (PSampling p)));
                           ("roundInterval", duration_json (RoundInterval (PSampling p)));
                           ("replicas", replicas_json (SReplicas (PSampling p)));
                           ("maxParallel", int_json (SMaxParallel (PSampling p)))]);
        ("target", JObj [("version", JStr (Version (PTarget p)))]);
        ("artifact", JObj [("retention", duration_json (Retention (PArtifact p)))])]%string.

(** A value within what its Go type holds that has a text: the least duration has
    none, and counts are not negative. *)
Definition wf_duration (d : duration) : Prop := min_int64 < d <= max_int64.
Definition wf_int (n : Z) : Prop := 0 <= n <= max_int64.
Definition wf_replicas (r : Replicas) : Prop := if r_all r then r_count r = 0 else wf_int (r_count r).
Definition on_some {A} (P : A -> Prop) (o : option A) : Prop := match o with Some a => P a | None => True end.
Definition wf_schedule (s : ScheduleOverride) : Prop := on_some wf_duration (o_Every s) /\ on_some wf_duration (o_Jitter s).
Definition wf_sampling (s : SamplingOverride) : Prop :=
  on_some wf_duration (o_Duration s) /\ on_some wf_int (o_Rounds s) /\ on_some wf_duration (o_RoundInterval s) /\
  on_some wf_replicas (o_Replicas s) /\ on_some wf_int (o_MaxParallel s).
Definition wf_override (o : PolicyOverride) : Prop :=
  on_some wf_schedule (o_Schedule o) /\ on_some wf_sampling (o_Sampling o) /\
  on_some (fun t => on_some (fun v => to_valid v = v) (o_Version t)) (o_Target o) /\
  on_some (fun a => on_some wf_duration (o_Retention a)) (o_Artifact o).

(** ** The text of a duration is well formed *)

Definition low (c : ascii) : bool := byte_of c <? 128.
Lemma to_valid_low (a s : string) : all_bytes low a = true -> to_valid (a +:+ s) = a +:+ to_valid s.
Proof.
  induction a as [|c a IH]; [done|]. cbn [all_bytes]. intros [Hc%Z.ltb_lt Ha]%andb_true_iff.
  change (String c a +:+ s) with (String c (a +:+ s)). rewrite (to_valid_step _ _ _ _ (decode_rune_ascii c (a +:+ s) Hc)). by rewrite (IH Ha).
Qed.
Lemma digits_low (w : string) : all_bytes is_digit w = true -> all_bytes low w = true.
Proof.
  assert (forall c, is_digit c = true -> low c = true) as Hc by (intros [[] [] [] [] [] [] [] []]; vm_compute; congruence).
  induction w as [|c w IH]; [done|]. cbn [all_bytes]. intros [H1%Hc H2%IH]%andb_true_iff. by rewrite H1, H2.
Qed.
Lemma digits_value_digits (x : Z) (w : string) (n : Z) : digits_value x w = Some n -> all_bytes is_digit w = true.
Proof. revert x. induction w as [|c w IH]; intros x; [done|]. cbn. destruct (is_digit c); [apply IH|done]. Qed.

Lemma pretty_text (z : Z) (s : string) : 0 <= z -> to_valid s = s -> to_valid (pretty z +:+ s) = pretty z +:+ s.
Proof. intros Hz Hs. rewrite to_valid_low by (by apply digits_low, pretty_Z_digits). by rewrite Hs. Qed.
Lemma fmtFrac_text (prec : nat) (v : Z) (u : string) : 0 <= v -> to_valid u = u ->
  0 <= (Durations.fmtFrac prec v u).2 /\ to_valid (Durations.fmtFrac prec v u).1 = (Durations.fmtFrac prec v u).1.
Proof.
  intros Hv Hu. unfold Durations.fmtFrac. destruct (fmtFrac_go_spec prec v false u Hv) as (p & w & -> & f & Hf & _).
  split; [apply Z.div_pos; [done|]; apply Z.pow_pos_nonneg; lia|]. apply digits_value_digits, digits_low in Hf. cbn [fst snd].
  destruct p; [change ("." +:+ w +:+ u) with (("." +:+ w) +:+ u)|]; by rewrite to_valid_low, Hu.
Qed.
Lemma std_string_text (v : Z) : 0 < v < minute -> to_valid (Durations.std_string v) = Durations.std_string v.
Proof.
  intros Hv. unfold minute, second in Hv. unfold Durations.std_string. rewrite Z.abs_eq by lia. rewrite (proj2 (Z.ltb_ge v 0)) by lia.
  destruct (Z.ltb_spec v second) as [H1|H1].
  - destruct (v =? 0); [done|]. destruct (if v <? 1000 then _ else _) as [prec u] eqn:E.
    assert (to_valid u = u) as Hu by (destruct (v <? 1000), (v <? 1000000); injection E as <- <-; by vm_compute).
    pose proof (fmtFrac_text prec v u ltac:(lia) Hu) as [H2 H3]. destruct (Durations.fmtFrac prec v u) as [s w]. by apply pretty_text.
  - pose proof (fmtFrac_text 9 v "s" ltac:(lia) eq_refl) as [H2 H3].
    pose proof (fmtFrac_go_spec 9 v false "s" ltac:(lia)) as (p & w & E & _). unfold Durations.fmtFrac in *. rewrite E in *.
    cbn [fst snd] in *. change (10 ^ Z.of_nat 9) with second in *.
    assert (v / second < 60) as Hs by (apply Z.div_lt_upper_bound; unfold second; lia).
    rewrite (Z.mod_small (v / second)) by lia. rewrite (Z.div_small (v / second)) by lia. change (0 <? 0) with false. cbn iota zeta.
    by apply pretty_text.
Qed.
Lemma duration_text_valid (d : duration) : wf_duration d -> to_valid (Durations.String d) = Durations.String d.
Proof.
  intros Hd. destruct (decide (d = 0)) as [->|H0]; [by vm_compute|]. rewrite String_text by done.
  rewrite to_valid_low by (by destruct (d <? 0)). f_equal. set (v := Z.abs d). assert (0 <= v) as Hv by (unfold v; lia). clearbody v.
  unfold text_of, part. pose proof (Z.div_pos v hour Hv ltac:(done)) as D1. pose proof (Z.mod_pos_bound v hour ltac:(done)) as B1.
  pose proof (Z.div_pos (v mod hour) minute ltac:(lia) ltac:(done)) as D2. pose proof (Z.mod_pos_bound (v mod hour) minute ltac:(done)) as B2.
  set (tl := if 0 <? v mod hour mod minute then _ else _). assert (to_valid tl = tl) as Ht.
  { unfold tl. destruct (Z.ltb_spec 0 (v mod hour mod minute)); [|done]. apply std_string_text. lia. }
  assert (forall q u s, 0 <= q -> all_bytes low u = true -> to_valid s = s ->
    to_valid ((if 0 <? q then pretty q +:+ u else "") +:+ s) = (if 0 <? q then pretty q +:+ u else "") +:+ s) as Hp.
  { intros q u s Hq Hu Hs. destruct (0 <? q); [|done]. rewrite str_app_assoc. apply pretty_text; [done|]. by rewrite to_valid_low, Hs. }
  by apply Hp, Hp.
Qed.

(** ** Read back *)

Lemma text_unmarshal (d : duration) : wf_duration d -> UnmarshalText (Durations.String d) = Some d.
Proof.
  intros Hd. pose proof (duration_text_roundtrip d ltac:(unfold in_int64; unfold wf_duration in Hd; lia)) as H.
  rewrite (proj2 (Z.eqb_neq d min_int64)) in H by (unfold wf_duration in Hd; lia). exact H.
Qed.
Lemma duration_back (old : option duration) (d : duration) : wf_duration d ->
  to_ptr to_duration 0 old (to_valid_json (duration_json d)) = Some (Some d).
Proof. intros Hd. cbn [to_ptr to_valid_json duration_json to_duration]. by rewrite duration_text_valid, text_unmarshal. Qed.
Lemma int_back (old : option Z) (n : Z) : wf_int n -> to_ptr to_int64 0 old (to_valid_json (int_json n)) = Some (Some n).
Proof. intros Hn. cbn [to_ptr to_valid_json int_json to_int64]. by rewrite atoi_pretty. Qed.
Lemma replicas_back (old : option Replicas) (r : Replicas) : wf_replicas r ->
  to_ptr to_replicas (ReplicaCount 0) old (to_valid_json (replicas_json r)) = Some (Some r).
Proof.
  destruct r as [[] n]; unfold wf_replicas, replicas_json; cbn [r_all r_count]; intros H; [by subst n|].
  cbn [to_ptr to_valid_json int_json to_replicas to_int64]. by rewrite atoi_pretty.
Qed.

(** One member ahead of the rest, set or not. *)
Lemma read_member {A B} (names : list string) (set : A -> string -> json -> option A) (name : string) (f : B -> json)
    (o : option B) (m : list (string * json)) (a a' : A) :
  name ∈ names -> to_valid name = name ->
  (forall b, o = Some b -> set a name (to_valid_json (f b)) = Some a') -> (o = None -> a' = a) ->
  read_struct names set (map (fun x => (to_valid x.1, to_valid_json x.2)) (opt_member name f o ++ m)) a =
  read_struct names set (map (fun x => (to_valid x.1, to_valid_json x.2)) m) a'.
Proof.
  intros Hn Hv Hs H0. destruct o as [b|]; [|by rewrite H0]. cbn [opt_member app map fst snd read_struct].
  rewrite Hv, field_of_name by done. by rewrite (Hs b eq_refl).
Qed.

Ltac name_in := apply (bool_decide_unpack _); vm_compute; exact I.
Ltac member_back a' lem :=
  rewrite (read_member _ _ _ _ _ _ _ a');
  [|name_in|by vm_compute|intros ? ->; try unfold set_artifact; cbn -[to_valid_json to_ptr to_int64 to_duration to_replicas to_bool to_block]; by rewrite lem
   |by intros ->].

Lemma schedule_back (s : ScheduleOverride) : wf_schedule s ->
  to_block schedule_names set_schedule no_schedule (to_valid_json (schedule_json s)) = Some s.
Proof.
  destruct s as [e j]. intros [He Hj]. unfold schedule_json, to_block. cbn [o_Every o_Jitter to_valid_json to_struct] in *.
  rewrite <-(app_nil_r (opt_member "jitter" _ _)).
  member_back {| o_Every := e; o_Jitter := None |} duration_back. member_back {| o_Every := e; o_Jitter := j |} duration_back. done.
Qed.
Lemma sampling_back (s : SamplingOverride) : wf_sampling s ->
  to_block sampling_names set_sampling no_sampling (to_valid_json (sampling_json s)) = Some s.
Proof.
  destruct s as [d r i n m]. intros (Hd & Hr & Hi & Hn & Hm). unfold sampling_json, to_block.
  cbn [o_Duration o_Rounds o_RoundInterval o_Replicas o_MaxParallel to_valid_json to_struct] in *.
  rewrite <-(app_nil_r (opt_member "maxParallel" _ _)).
  member_back (Build_SamplingOverride d None None None None) duration_back.
  member_back (Build_SamplingOverride d r None None None) int_back.
  member_back (Build_SamplingOverride d r i None None) duration_back.
  member_back (Build_SamplingOverride d r i n None) replicas_back.
  member_back (Build_SamplingOverride d r i n m) int_back. done.
Qed.
Lemma target_back (t : TargetOverride) : on_some (fun v => to_valid v = v) (o_Version t) ->
  to_block ["version"%string] set_target {| o_Version := None |} (to_valid_json (target_json t)) = Some t.
Proof.
  destruct t as [[v|]]; [|done]. cbn [on_some o_Version]. intros Hv. unfold to_block, target_json.
  cbn [o_Version opt_member to_valid_json map fst snd to_struct read_struct]. rewrite Hv. reflexivity.
Qed.
Lemma artifact_back (a : ArtifactOverride) : on_some wf_duration (o_Retention a) ->
  to_block ["retention"%string] set_artifact {| o_Retention := None |} (to_valid_json (artifact_json a)) = Some a.
Proof.
  destruct a as [r]. cbn [o_Retention]. intros Hr. unfold artifact_json, to_block. cbn [o_Retention to_valid_json to_struct].
  rewrite <-(app_nil_r (opt_member "retention" _ _)). member_back {| o_Retention := r |} duration_back. done.
Qed.

Lemma block_back {A} (names : list string) (set : A -> string -> json -> option A) (zero : A) (f : A -> json) (P : A -> Prop) (a : A) :
  (forall a, P a -> to_block names set zero (to_valid_json (f a)) = Some a) -> (forall a, exists m, to_valid_json (f a) = JObj m) ->
  P a -> to_ptr (to_block names set) zero None (to_valid_json (f a)) = Some (Some a).
Proof.
  intros Hb Hm Ha. destruct (Hm a) as [m E]. specialize (Hb a Ha). rewrite E in *. cbn [to_ptr default]. by rewrite Hb.
Qed.
Lemma override_back (o : PolicyOverride) : wf_override o -> to_override (to_valid_json (override_json o)) = Some o.
Proof.
  destruct o as [e sc sa t a]. intros (Hsc & Hsa & Ht & Ha). unfold override_json, to_override.
  cbn [o_Enabled o_Schedule o_Sampling o_Target o_Artifact to_valid_json to_struct] in *.
  rewrite <-(app_nil_r (opt_member "artifact" _ _)).
  assert (forall b old, to_ptr to_bool false old (to_valid_json (JBool b)) = Some (Some b)) as bool_back by done.
  pose proof (fun s => block_back _ _ _ schedule_json wf_schedule s schedule_back (fun x => ex_intro _ _ eq_refl)) as schedule_ptr.
  pose proof (fun s => block_back _ _ _ sampling_json wf_sampling s sampling_back (fun x => ex_intro _ _ eq_refl)) as sampling_ptr.
  pose proof (fun s => block_back _ _ _ target_json _ s target_back (fun x => ex_intro _ _ eq_refl)) as target_ptr.
  pose proof (fun s => block_back _ _ _ artifact_json _ s artifact_back (fun x => ex_intro _ _ eq_refl)) as artifact_ptr.
  member_back (Build_PolicyOverride e None None None None) bool_back.
  member_back (Build_PolicyOverride e sc None None None) schedule_ptr.
  member_back (Build_PolicyOverride e sc sa None None) sampling_ptr.
  member_back (Build_PolicyOverride e sc sa t None) target_ptr.
  member_back (Build_PolicyOverride e sc sa t a) artifact_ptr.
  done.
Qed.

Lemma opt_all {A} (P : string * json -> Prop) (name : string) (f : A -> json) (o : option A) (m : list (string * json)) :
  (forall a, o = Some a -> P (name, f a)) -> Forall P m -> Forall P (opt_member name f o ++ m).
Proof. intros Ho Hm. destruct o; [|done]. constructor; [by apply Ho|done]. Qed.
Lemma writable_obj (d : Z) (m : list (string * json)) :
  d < maxNestingDepth -> Forall (fun x => writable (d + 1) x.2 = true) m -> writable d (JObj m) = true.
Proof.
  intros Hd Hm. cbn [writable]. rewrite (proj2 (Z.ltb_lt _ _) Hd). cbn [andb].
  induction Hm as [|x m Hx _ IH]; [done|]. cbn [forallb]. by rewrite Hx.
Qed.
(** A member of a declared name with nothing unknown in it, once its strings are
    made well formed. *)
Definition known (l : list (string * shape)) (x : string * json) : Prop :=
  to_valid x.1 = x.1 /\ exists t, declaredField l x.1 = Some t /\ forall p, unknown (to_valid_json x.2) t p = None.
Lemma unknown_obj (l : list (string * shape)) (m : list (string * json)) (p : string) :
  Forall (known l) m -> unknown (to_valid_json (JObj m)) (Fields l) p = None.
Proof.
  cbn [to_valid_json]. rewrite unknown_fields. induction 1 as [|[k x] m (Hk & t & Ht & Hu) _ IH]; [done|].
  cbn [members_unknown map fst snd] in *. by rewrite Hk, Ht, Hu.
Qed.

(** The writer of a block and its declared names, together. *)
Definition fits (l : list (string * shape)) (v : json) : Prop :=
  exists m, v = JObj m /\ Forall (fun x => writable 2 x.2 = true /\ known l x) m.
Ltac opt_leaf_by tac := apply opt_all; [intros ? ->; cbn [fst snd]; split; [tac|split; [by vm_compute|]; eexists; split; [reflexivity|intros ?; apply unknown_leaf]]|].
Ltac opt_leaf := opt_leaf_by ltac:(reflexivity).
Lemma int_writable (n : Z) (d : Z) : wf_int n -> writable d (int_json n) = true.
Proof. intros [H _]. cbn [int_json writable]. by rewrite bool_decide_true by (by apply parse_number_pretty). Qed.

Lemma schedule_fits (s : ScheduleOverride) : fits [("every", Leaf); ("jitter", Leaf)]%string (schedule_json s).
Proof.
  destruct s as [e j]. eexists. split; [reflexivity|]. cbn [o_Every o_Jitter].
  rewrite <-(app_nil_r (opt_member "jitter" _ _)). do 2 opt_leaf. constructor.
Qed.
Lemma sampling_fits (s : SamplingOverride) : wf_sampling s ->
  fits (map (fun n => (n, Leaf)) sampling_names) (sampling_json s).
Proof.
  destruct s as [d r i n m]. intros (_ & Hr & _ & Hn & Hm). eexists. split; [reflexivity|].
  cbn [o_Duration o_Rounds o_RoundInterval o_Replicas o_MaxParallel on_some] in *. rewrite <-(app_nil_r (opt_member "maxParallel" _ _)).
  opt_leaf. opt_leaf_by ltac:(by apply int_writable). opt_leaf.
  opt_leaf_by ltac:(cbn [on_some] in Hn; unfold wf_replicas, replicas_json in *; destruct (r_all _); [reflexivity|by apply int_writable]).
  opt_leaf_by ltac:(by apply int_writable). constructor.
Qed.
Lemma target_fits (t : TargetOverride) : fits [("version", Leaf)]%string (target_json t).
Proof.
  destruct t as [v]. eexists. split; [reflexivity|]. cbn [o_Version]. rewrite <-(app_nil_r (opt_member _ _ _)). opt_leaf. constructor.
Qed.
Lemma artifact_fits (a : ArtifactOverride) : fits [("retention", Leaf)]%string (artifact_json a).
Proof.
  destruct a as [r]. eexists. split; [reflexivity|]. cbn [o_Retention]. rewrite <-(app_nil_r (opt_member _ _ _)). opt_leaf. constructor.
Qed.

Lemma fits_block (l : list (string * shape)) (v : json) :
  fits l v -> writable 1 v = true /\ forall p, unknown (to_valid_json v) (Fields l) p = None.
Proof.
  intros (m & -> & Hm). split.
  - apply writable_obj; [by vm_compute|]. eapply Forall_impl; [exact Hm|]. by intros x [H _].
  - intros p. apply unknown_obj. eapply Forall_impl; [exact Hm|]. by intros x [_ H].
Qed.

Ltac opt_block lem :=
  apply opt_all;
  [intros x Hx; cbn [fst snd]; destruct (fits_block _ _ (lem x Hx)) as [Hw Hu]; split;
    [exact Hw|split; [by vm_compute|]; eexists; split; [reflexivity|exact Hu]]|].
Lemma override_fits (o : PolicyOverride) : wf_override o ->
  writable 0 (override_json o) = true /\ unknown (to_valid_json (override_json o)) override_shape "" = None.
Proof.
  destruct o as [e sc sa t a]. intros (_ & Hsa & _ & _). unfold override_json, override_shape.
  cbn [o_Enabled o_Schedule o_Sampling o_Target o_Artifact on_some] in *. set (l := [("enabled"%string, Leaf); _; _; _; _]).
  set (m := _ ++ _).
  assert (forall x, sa = Some x -> wf_sampling x) as Hs by (intros x ->; exact Hsa).
  assert (Forall (fun x => writable 1 x.2 = true /\ known l x) m) as H.
  { unfold m. rewrite <-(app_nil_r (opt_member "artifact" _ _)). opt_leaf. opt_block (fun x (_ : sc = Some x) => schedule_fits x).
    opt_block (fun x E => sampling_fits x (Hs x E)).
    opt_block (fun x (_ : t = Some x) => target_fits x). opt_block (fun x (_ : a = Some x) => artifact_fits x). constructor. }
  split.
  - apply writable_obj; [by vm_compute|]. eapply Forall_impl; [exact H|]. by intros x [Hx _].
  - apply unknown_obj. eapply Forall_impl; [exact H|]. by intros x [_ Hx].
Qed.

(** An object is not blank. *)
Lemma trimmed_object (fuel : nat) (s : string) : exists s', trim_with cut_suffix fuel (String "{" s) = String "{" s'.
Proof.
  revert s. induction fuel as [|fuel IH]; intros s; [by exists s|]. cbn [trim_with].
  destruct (first_some _ space_runes) as [s'|] eqn:E; [|by exists s].
  assert (exists r, r ∈ space_runes /\ cut_suffix r (String "{" s) = Some s') as (r & Hr & Hs).
  { revert E. generalize space_runes. intros l. induction l as [|r l IHl]; [done|]. cbn [first_some].
    destruct (cut_suffix r _) as [x|] eqn:Ex; [intros [= ->]; exists r; split; [by left|done]|].
    intros E. destruct (IHl E) as (r' & Hr' & Hc). exists r'. split; [by right|done]. }
  apply cut_suffix_Some in Hs. destruct s' as [|c s'].
  - exfalso. change (EmptyString +:+ r) with r in Hs. subst r. revert Hr.
    assert (Forall (fun r => match r with String "{" _ => False | _ => True end) space_runes) as H by (repeat constructor).
    rewrite Forall_forall in H. intros Hr. exact (H _ Hr).
  - injection Hs as <- _. apply IH.
Qed.
Lemma object_not_blank (allowEmpty : bool) (s : string) : blank allowEmpty (String "{" s) = false.
Proof.
  unfold blank, trim_space. assert (forall n, trim_with cut_prefix n (String "{" s) = String "{" s) as -> by (by intros []).
  destruct (trimmed_object (String.length (String "{" s)) s) as [s' ->]. apply andb_false_r.
Qed.

(** A version of eleven thousand bytes that are written as six each, and the body
    that sets it. *)
Fixpoint repeated (n : nat) (c : ascii) : string := match n with O => EmptyString | S n => String c (repeated n c) end.
Definition wide_version : string := repeated 11000 "<".
Definition wide_override : PolicyOverride :=
  {| o_Enabled := None; o_Schedule := None; o_Sampling := None; o_Target := Some {| o_Version := Some wide_version |}; o_Artifact := None |}.
Definition wide_body : string := "{" +:+ dq "target" +:+ ":{" +:+ dq "version" +:+ ":" +:+ dq wide_version +:+ "}}".

(** C36: what the read of the policy route writes as the override, sent to the write of
    the same route.  For an override whose durations have a text (every one but
    the least), whose counts are not negative and whose version is well-formed
    UTF-8, the body is accepted and means the same override, every block, field
    and duration come back, set or not, when the text is within the 64 KiB of a
    body, and it is refused as too large when it is not.  That does happen to an override
    the write accepted: a version of 11,000 less-than signs arrives in a body
    of 11 KiB and is written back as 66 KiB. *)
Theorem override_body_roundtrip (allowEmpty : bool) :
  (forall o, wf_override o ->
     decodeBody allowEmpty (text (print (override_json o))) =
     if byte_len (print (override_json o)) <=? maxBodyBytes then inl o else inr BodyTooLarge) /\
  (wf_override wide_override /\ decodeBody allowEmpty (text wide_body) = inl wide_override /\
   decodeBody allowEmpty (text (print (override_json wide_override))) = inr BodyTooLarge).
Proof.
  assert (forall o, wf_override o ->
     decodeBody allowEmpty (text (print (override_json o))) =
     if byte_len (print (override_json o)) <=? maxBodyBytes then inl o else inr BodyTooLarge) as Hall.
  { intros o Ho. destruct (Z.leb_spec (byte_len (print (override_json o))) maxBodyBytes) as [Hlen|Hlen].
    - destruct (override_fits o Ho) as [Hw Hu].
      apply (decode_accepts _ _ (to_valid_json (override_json o))); [done| |by apply parse_print|exact Hu|by apply override_back].
      apply object_not_blank.
    - unfold decodeBody, read_all, text. cbn [sn_Bytes]. by rewrite (proj2 (Z.ltb_lt _ _) Hlen). }
  assert (wf_override wide_override) as Hwide.
  { unfold wf_override, wide_override. cbn [on_some o_Schedule o_Sampling o_Target o_Artifact o_Version].
    split; [done|]. split; [done|]. split; [vm_compute; reflexivity|done]. }
  split; [exact Hall|]. split; [exact Hwide|]. split.
  - destruct allowEmpty; vm_compute; reflexivity.
  - rewrite Hall by exact Hwide.
    assert ((byte_len (print (override_json wide_override)) <=? maxBodyBytes) = false) as -> by (vm_compute; reflexivity).
    reflexivity.
Qed.
Definition demo_stored : PolicyOverride :=
  {| o_Enabled := Some true; o_Schedule := Some no_schedule; o_Target := Some {| o_Version := Some "v<1>" |}; o_Artifact := None;
     o_Sampling := Some (Build_SamplingOverride (Some (minute + 1500000007)) None (Some 1200) (Some AllReplicas) (Some 4)) |}.
Lemma override_body_roundtrip_witness : decodeBody false (text (print (override_json demo_stored))) = inl demo_stored.
Proof.
  assert (byte_len (print (override_json demo_stored)) <=? maxBodyBytes = true) as Hlen by (vm_compute; reflexivity).
  pose proof (proj1 (override_body_roundtrip false) demo_stored) as H. rewrite Hlen in H. apply H.
  unfold wf_override, wf_schedule, wf_sampling, wf_duration, wf_int, wf_replicas. cbn [on_some demo_stored o_Schedule o_Sampling o_Target
    o_Artifact o_Every o_Jitter no_schedule o_Duration o_Rounds o_RoundInterval o_Replicas o_MaxParallel o_Version r_all AllReplicas r_count].
  repeat split; try (apply Z.ltb_lt; vm_compute; reflexivity); try (apply Z.leb_le; vm_compute; reflexivity); vm_compute; reflexivity.
Defined.

(** ** The read of the policy route *)

(** [policyBody]. *)
Record policyBody := {
  pb_Namespace : string; pb_Service : string; pb_Source : string; pb_Override : option PolicyOverride;
  pb_Effective : Policy; pb_Violations : list Violation; pb_UpdatedBy : string; pb_UpdatedAt : option time
}.
Definition sourceOverride : string := "override".
Definition sourceDefaults : string := "defaults".
(** [storedPolicyBody]. *)
Definition storedPolicyBody (ns svc : string) (stored : StoredOverride) (effective : Policy) (violations : list Violation) : policyBody :=
  {| pb_Namespace := ns; pb_Service := svc; pb_Source := sourceOverride; pb_Override := so_Policy stored;
     pb_Effective := effective; pb_Violations := violations; pb_UpdatedBy := so_UpdatedBy stored;
     pb_UpdatedAt := Some (so_UpdatedAt stored) |}.

Section read.
  Context {V St : Type} `{HW : Wire V}.
  Variables (defaults : Policy) (limits : PGOLimits) (ns svc : string).

(** [servePolicyRead]: the body and the entity tag, if there is one. *)
Definition servePolicyRead : Effects.prog V St (answer (policyBody * option string)) :=
  r ← ReadOverride ns svc;
  mret match r with
       | Err ErrKeyNotFound =>
           let '(effective, violations) := SessionEffective defaults limits [] in
           Served ({| pb_Namespace := ns; pb_Service := svc; pb_Source := sourceDefaults; pb_Override := None;
                      pb_Effective := effective; pb_Violations := violations; pb_UpdatedBy := EmptyString; pb_UpdatedAt := None |}, None)
       | Err _ => Refused errPGOUnavailable
       | Ok (stored, revision) =>
           let '(effective, violations) := SessionEffective defaults limits [so_Policy stored] in
           Served (storedPolicyBody ns svc stored effective violations, Some (etagOf revision))
       end.
End read.

(** The body of the read as it is written: an override that is not there is null,
    no violation is an empty list. *)
Definition violation_json (v : Violation) : json :=
  JObj [("field"%string, JStr (v_Field v)); ("code"%string, JStr (v_Code v)); ("ceiling"%string, JStr (v_Ceiling v)); ("detail"%string, JStr (v_Detail v))].
Definition policyBody_json (b : policyBody) : json :=
  JObj ([("namespace"%string, JStr (pb_Namespace b)); ("service"%string, JStr (pb_Service b)); ("source"%string, JStr (pb_Source b));
         ("override"%string, default JNull (override_json <$> pb_Override b)); ("effective"%string, policy_json (pb_Effective b));
         ("violations"%string, JArr (map violation_json (pb_Violations b)))]
        ++ (if String.eqb (pb_UpdatedBy b) "" then [] else [("updatedBy"%string, JStr (pb_UpdatedBy b))])
        ++ opt_member "updatedAt" (fun t => JStr (format_rfc3339 t)) (pb_UpdatedAt b)).
