(* ===== verification/UrlText.v ===== *)
(** * A URL written out

    net/url as the client builds a request with it: [URL.JoinPath], [URL.String]
    of a URL without userinfo, [url.PathEscape], the Host of a request, and that
    what is written is read back with the scheme, the host, the path and the
    query it was written with. *)

From S2P Require Import Prelude Base64 Query Routes Settings Url Wire.

(** [escape] of a host; 34 is the double quote. *)
Definition host_byte (c : ascii) : bool :=
  is_alnum c || one_of c "!$&'()*+,;=:[]<>-_.~" || (byte_of c =? 34).
Fixpoint escape_host (s : string) : string :=
  match s with
  | EmptyString => EmptyString
  | String c s' => (if host_byte c then String c EmptyString else percent c) +:+ escape_host s'
  end.

(** [url.PathEscape]: a segment. *)
Definition segment_escape (c : ascii) : string :=
  if is_alnum c || one_of c "-_.~$&+:=@" then String c EmptyString else percent c.
Fixpoint PathEscape (s : string) : string :=
  match s with EmptyString => EmptyString | String c s' => segment_escape c +:+ PathEscape s' end.

(** [URL.String] of a URL without userinfo and without a fragment. *)
Definition URLString (u : URL) : string :=
  let path := EscapedPath u in
  (if is_empty (u_Scheme u) then EmptyString else u_Scheme u +:+ ":") +:+
  (if negb (is_empty (u_Opaque u)) then u_Opaque u
   else
     (if negb (is_empty (u_Scheme u)) || negb (is_empty (u_Host u)) then
        (if negb (is_empty (u_Host u)) || negb (is_empty (u_Path u)) then "//" else EmptyString)
        +:+ escape_host (u_Host u)
      else EmptyString) +:+
     (if negb (is_empty path) && negb (has_prefix "/" path) && negb (is_empty (u_Host u)) then "/" else EmptyString)
     +:+ path) +:+
  (if u_ForceQuery u || negb (is_empty (u_RawQuery u)) then "?" +:+ u_RawQuery u else EmptyString).

(** [setPath], which a text that does not decode leaves as it was. *)
Definition setPath (u : URL) (p : string) : URL :=
  match unescape p with
  | None => u
  | Some path =>
      {| u_Scheme := u_Scheme u; u_Opaque := u_Opaque u; u_User := u_User u; u_Host := u_Host u; u_Path := path;
         u_RawPath := raw_of encodePath p path; u_ForceQuery := u_ForceQuery u; u_RawQuery := u_RawQuery u;
         u_Fragment := u_Fragment u; u_RawFragment := u_RawFragment u |}
  end.

(** [URL.JoinPath] of one element; [path.Join] of two is [Clean] of both about a
    slash. *)
Definition has_suffix (suf s : string) : bool := bool_decide (is_Some (cut_suffix suf s)).
Definition join2 (base elem : string) : string :=
  Clean (if is_empty elem then base else base +:+ "/" +:+ elem).
Definition JoinPath (u : URL) (elem : string) : URL :=
  let base := EscapedPath u in
  let p := if has_prefix "/" base then join2 base elem
           else default EmptyString (cut_prefix "/" (join2 ("/" +:+ base) elem)) in
  setPath u (if has_suffix "/" elem && negb (has_suffix "/" p) then p +:+ "/" else p).

(** [RawQuery] set. *)
Definition with_query (u : URL) (q : string) : URL :=
  {| u_Scheme := u_Scheme u; u_Opaque := u_Opaque u; u_User := u_User u; u_Host := u_Host u; u_Path := u_Path u;
     u_RawPath := u_RawPath u; u_ForceQuery := u_ForceQuery u; u_RawQuery := q;
     u_Fragment := u_Fragment u; u_RawFragment := u_RawFragment u |}.

(** ** Bytes *)

(** The bytes of a host that is written: none that ends an authority. *)
Definition authority_byte (c : ascii) : bool := negb (is_ctl c) && negb (one_of c "/?#@").

Lemma escape_host_bytes (s : string) : all_bytes authority_byte (escape_host s) = true.
Proof.
  induction s as [|c s IH]; [done|]. cbn [escape_host]. rewrite all_bytes_app, IH, andb_true_r. clear IH s.
  revert c. apply (on_bytes (fun c => all_bytes authority_byte (if host_byte c then String c EmptyString else percent c))).
  vm_compute. reflexivity.
Qed.

Lemma join_bytes (f : ascii -> bool) (c : ascii) (l : list string) :
  f c = true -> Forall (fun s => all_bytes f s = true) l -> all_bytes f (join_with c l) = true.
Proof.
  intros Hc. induction 1 as [|s l Hs Hl IH]; [done|]. cbn [join_with]. destruct l; [done|].
  rewrite all_bytes_app, Hs. cbn [all_bytes]. by rewrite Hc, IH.
Qed.

Lemma split_bytes (f : ascii -> bool) (c : ascii) (s : string) :
  all_bytes f s = true -> Forall (fun w => all_bytes f w = true) (split_at c s).
Proof.
  induction s as [|d s IH]; cbn [split_at all_bytes]; intros H; [by repeat constructor|].
  apply andb_true_iff in H as [Hd H]. specialize (IH H). case_decide; [by constructor|].
  destruct (split_at c s); [by repeat constructor; cbn; rewrite Hd|]. apply Forall_cons in IH as [H1 H2].
  constructor; [cbn; by rewrite Hd|done].
Qed.

Lemma clean_go_incl (P : string -> Prop) (kept elems : list string) :
  Forall P kept -> Forall P elems -> Forall P (clean_go kept elems).
Proof.
  revert kept. induction elems as [|e elems IH]; intros kept Hk He; [done|]. apply Forall_cons in He as [He1 He].
  cbn [clean_go]. destruct (_ || _); [by apply IH|]. destruct (String.eqb e ".."); apply IH; try done.
  - by destruct Hk.
  - by constructor.
Qed.

Lemma Clean_bytes (f : ascii -> bool) (p : string) :
  f "/"%char = true -> all_bytes f p = true -> all_bytes f (Clean p) = true.
Proof.
  intros Hf Hp. unfold Clean. cbn [all_bytes]. rewrite Hf. apply join_bytes; [done|]. apply Forall_rev, clean_go_incl; [constructor|].
  apply split_bytes. destruct (cut_prefix "/" p) as [r|] eqn:E; [|done]. apply cut_prefix_Some in E as ->.
  rewrite all_bytes_app in Hp. by apply andb_true_iff in Hp as [_ Hp].
Qed.

Lemma QueryEscape_bytes (s : string) : all_bytes no_fragment (QueryEscape s) = true.
Proof.
  unfold QueryEscape. induction s as [|c s IH]; [done|]. cbn [escape]. rewrite all_bytes_app, IH, andb_true_r. clear IH s.
  revert c. apply (on_bytes (fun c => all_bytes no_fragment (escape_char encodeQueryComponent c))). vm_compute. reflexivity.
Qed.

Lemma Encode_bytes (v : Values) : all_bytes no_fragment (Encode v) = true.
Proof.
  unfold Encode. apply join_bytes; [done|]. apply Forall_forall. intros s Hs. apply list_elem_of_join in Hs as (l & Hs & Hl).
  apply list_elem_of_fmap in Hl as (k & -> & _). apply list_elem_of_fmap in Hs as (w & -> & _).
  rewrite all_bytes_app. cbn [all_bytes]. by rewrite !QueryEscape_bytes.
Qed.

(** ** Read back *)

Lemma no_byte_app (c : ascii) (a b : string) : has_byte c a = false -> has_byte c b = false -> has_byte c (a +:+ b) = false.
Proof. intros Ha Hb. by rewrite has_byte_app, Ha, Hb. Qed.

Lemma cut_pair_none (c : ascii) (s : string) : has_byte c s = false -> cut_pair c s = (s, EmptyString).
Proof. unfold cut_pair. intros H. by rewrite (proj2 (cut_None c s) H). Qed.

Lemma cut_last_none (c : ascii) (s : string) : has_byte c s = false -> cut_last c s = None.
Proof.
  induction s as [|d s IH]; [done|]. cbn [has_byte cut_last]. case_decide as E; [done|]. intros H. rewrite IH by done.
  by rewrite (proj2 (Ascii.eqb_neq _ _) E).
Qed.

Lemma any_byte_ctl (f : ascii -> bool) (s : string) :
  all_bytes f s = true -> (forall c, f c = true -> is_ctl c = false) -> any_byte is_ctl s = false.
Proof.
  intros H Hf. rewrite any_byte_all. apply negb_false_iff. eapply (all_bytes_mono); [|exact H].
  intros c Hc. by rewrite (Hf c Hc).
Qed.

Lemma getScheme_web (scheme rest : string) :
  scheme = "https"%string \/ scheme = "http"%string -> getScheme (scheme +:+ ":" +:+ rest) = Some (scheme, rest).
Proof. by intros [-> | ->]. Qed.

Section written.
  Variable parseHost : string -> string -> option string.

(** A URL of the web, written out of its parts. *)
Lemma parse_written (scheme host path query h p : string) :
  scheme = "https"%string \/ scheme = "http"%string -> all_bytes authority_byte host = true ->
  parseHost scheme host = Some h -> path = EmptyString \/ has_prefix "/" path = true ->
  all_bytes path_byte path = true -> unescape path = Some p -> all_bytes no_fragment query = true ->
  Parse parseHost (scheme +:+ ":" +:+ "//" +:+ host +:+ path +:+ (if is_empty query then EmptyString else "?" +:+ query)) =
  Some {| u_Scheme := scheme; u_Opaque := EmptyString; u_User := false; u_Host := h; u_Path := p;
          u_RawPath := raw_of encodePath path p; u_ForceQuery := false; u_RawQuery := query;
          u_Fragment := EmptyString; u_RawFragment := EmptyString |}.
Proof.
  intros Hs Hh Hp Hr Hb Hu Hq. set (tail := if is_empty query then EmptyString else "?" +:+ query).
  assert (forall c, authority_byte c = true -> no_fragment c = true) as A1.
  { intros c Hc. eapply (proj1 (implb_true_iff _ _)); [|exact Hc]. revert c Hc. intros c _. revert c.
    apply on_bytes. vm_compute. reflexivity. }
  assert (forall c, path_byte c = true -> no_fragment c = true) as A2.
  { intros c Hc. eapply (proj1 (implb_true_iff _ _)); [|exact Hc]. revert c Hc. intros c _. revert c.
    apply on_bytes. vm_compute. reflexivity. }
  set (raw := scheme +:+ ":" +:+ "//" +:+ host +:+ path +:+ tail).
  assert (all_bytes no_fragment raw = true) as Hraw.
  { unfold raw. rewrite !all_bytes_app. rewrite (all_bytes_mono _ _ _ A1 Hh), (all_bytes_mono _ _ _ A2 Hb).
    assert (all_bytes no_fragment tail = true) as -> by (unfold tail; destruct (is_empty query); [done|cbn; exact Hq]).
    by destruct Hs as [-> | ->]. }
  unfold Parse. rewrite cut_pair_none by (eapply all_bytes_no_byte; [exact Hraw|done]).
  unfold parse. rewrite (any_byte_ctl no_fragment) by (done || (intros c Hc; unfold no_fragment in Hc; to_prop; done)).
  assert (String.eqb raw "*" = false) as -> by (by destruct Hs as [-> | ->]).
  unfold raw. rewrite getScheme_web by done. cbn [mbind option_bind]. cbv zeta.
  assert (lower scheme = scheme) as -> by (by destruct Hs as [-> | ->]).
  assert (cut_query ("//" +:+ host +:+ path +:+ tail) = ("//" +:+ host +:+ path, query, false)) as ->.
  { assert (has_byte "?" ("//" +:+ host +:+ path) = false) as Hn.
    { apply no_byte_app; [done|]. apply no_byte_app; (eapply all_bytes_no_byte; [eassumption|done]). }
    unfold cut_query, tail. destruct (is_empty query) eqn:Eq.
    - apply String.eqb_eq in Eq as ->. rewrite str_app_nil_r. by rewrite (proj2 (cut_None _ _) Hn).
    - replace ("//" +:+ host +:+ path +:+ "?" +:+ query) with (("//" +:+ host +:+ path) +:+ String "?" query)
        by (by rewrite !str_app_assoc).
      rewrite cut_app by done. by rewrite (proj2 (String.eqb_neq _ _) (proj1 (String.eqb_neq _ _) Eq)). }
  assert (String.eqb scheme EmptyString = false) as -> by (by destruct Hs as [-> | ->]).
  change (has_prefix "/" ("//" +:+ host +:+ path)) with true. change (has_prefix "//" ("//" +:+ host +:+ path)) with true.
  cbn [negb andb orb]. rewrite cut_prefix_app. cbn [default id].
  assert (match cut "/" (host +:+ path) with Some (a, r) => (a, String "/" r) | None => (host +:+ path, EmptyString) end
          = (host, path)) as ->.
  { assert (has_byte "/" host = false) as Hn by (eapply all_bytes_no_byte; [exact Hh|done]).
    destruct Hr as [-> | Hr]; [rewrite str_app_nil_r; by rewrite (proj2 (cut_None _ _) Hn)|].
    apply has_prefix_iff in Hr as [r ->]. change ("/" +:+ r) with (String "/" r). by rewrite cut_app. }
  unfold parseAuthority. rewrite cut_last_none by (eapply all_bytes_no_byte; [exact Hh|done]).
  rewrite Hp. cbn [mbind option_bind]. unfold with_path. rewrite Hu. cbn [mbind option_bind]. done.
Qed.
End written.

(** What the program sends requests to: a URL of the web with a host, without
    userinfo or fragment. *)
Definition web_url (u : URL) : Prop :=
  (u_Scheme u = "https"%string \/ u_Scheme u = "http"%string) /\ u_Opaque u = EmptyString /\ u_User u = false /\
  u_Host u <> EmptyString /\ u_ForceQuery u = false /\ u_Fragment u = EmptyString /\ u_RawFragment u = EmptyString.

(** The path as it is written, rooted where there is one. *)
Definition written_path (u : URL) : string :=
  (if negb (is_empty (EscapedPath u)) && negb (has_prefix "/" (EscapedPath u)) then "/" else EmptyString) +:+ EscapedPath u.
Definition rooted_path (u : URL) : string :=
  (if negb (is_empty (EscapedPath u)) && negb (has_prefix "/" (EscapedPath u)) then "/" else EmptyString) +:+ u_Path u.

Lemma URLString_web (u : URL) :
  web_url u ->
  URLString u = u_Scheme u +:+ ":" +:+ "//" +:+ escape_host (u_Host u) +:+ written_path u +:+
                (if is_empty (u_RawQuery u) then EmptyString else "?" +:+ u_RawQuery u).
Proof.
  intros (Hs & Ho & _ & Hh & Hf & _ & _). unfold URLString, written_path. rewrite Ho, Hf.
  assert (is_empty (u_Scheme u) = false) as -> by (by destruct Hs as [-> | ->]).
  assert (is_empty (u_Host u) = false) as -> by (by apply String.eqb_neq).
  cbn [negb orb is_empty String.eqb]. rewrite andb_true_r.
  destruct (is_empty (u_RawQuery u)); cbn [negb]; by rewrite !str_app_assoc.
Qed.

Lemma written_path_facts (u : URL) :
  (written_path u = EmptyString \/ has_prefix "/" (written_path u) = true) /\
  all_bytes path_byte (written_path u) = true /\ unescape (written_path u) = Some (rooted_path u).
Proof.
  unfold written_path, rooted_path. pose proof (EscapedPath_bytes u) as Hb. pose proof (EscapedPath_path u) as Hp.
  destruct (is_empty (EscapedPath u)) eqn:Ee; cbn [negb andb].
  - apply String.eqb_eq in Ee. cbn. split; [by left|]. done.
  - destruct (has_prefix "/" (EscapedPath u)) eqn:Er; cbn [negb]; [split; [by right|done]|].
    split; [by right|]. split; [exact Hb|].
    change (unescape ("/" +:+ EscapedPath u)) with (String "/" <$> unescape (EscapedPath u)). by rewrite Hp.
Qed.

Section sent.
  Variable parseHost : string -> string -> option string.

(** A URL that is written and read again: the scheme, the host, where net/url
    reads the host it writes, the path and the query stay. *)
Lemma Parse_URLString (u : URL) :
  web_url u -> parseHost (u_Scheme u) (escape_host (u_Host u)) = Some (u_Host u) ->
  all_bytes no_fragment (u_RawQuery u) = true ->
  exists r, Parse parseHost (URLString u) = Some r /\ u_Scheme r = u_Scheme u /\ u_Host r = u_Host u /\
    u_User r = false /\ u_Path r = rooted_path u /\ u_RawQuery r = u_RawQuery u /\ u_Fragment r = EmptyString.
Proof using.
  intros Hw Hh Hq. rewrite URLString_web by done. destruct Hw as (Hs & _). destruct (written_path_facts u) as (H1 & H2 & H3).
  erewrite parse_written; [by eexists|done|apply escape_host_bytes|exact Hh|exact H1|exact H2|exact H3|exact Hq].
Qed.
End sent.

Lemma JoinPath_web (u : URL) (elem : string) : web_url u -> web_url (JoinPath u elem).
Proof. unfold JoinPath, setPath. by destruct (unescape _). Qed.
Lemma JoinPath_host (u : URL) (elem : string) :
  u_Scheme (JoinPath u elem) = u_Scheme u /\ u_Host (JoinPath u elem) = u_Host u.
Proof. unfold JoinPath, setPath. by destruct (unescape _). Qed.
