(* ===== verification/GatewayClient.v ===== *)
(** * The gateway client

    src/internal/client/client.go, credential.go and the plaintext rule of
    transport.go: one request of one principal as a program over the calls it
    makes, and the choice of the credential it is sent with.  The transport's own
    TLS settings and the verbose line are left out; of the diagnosis of a 401 that
    it is made, not its text.  Methods are written out by the callers. *)

From S2P Require Import Prelude Config Base64 Query Settings Auth Basic Json Url Wire UrlText Interaction.
From S2P Require Import Contexts ClientIssuer TokenCache.

Definition maxResponseBytes : Z := Z.shiftl 1 20.
Definition maxPasswordBytes : Z := 72.

Abbreviation headers := (gmap string (list string)).
Record Request := { rq_Method : string; rq_Path : string; rq_Query : Values; rq_Body : option string; rq_Header : headers }.

(** What is sent: an [http.Request]. *)
Record httpRequest := { hr_Method : string; hr_URL : URL; hr_Body : option string; hr_Header : headers }.
(** What comes back; the body is nothing where reading it fails. *)
Record gwAnswer := { ga_Status : Z; ga_Header : headers; ga_Body : option string }.

(** The errors of the package, as [errors.As] and [errors.Is] tell them apart: an
    envelope with its bytes, the diagnosis about another error, a body over the
    bound, one cut off, and what waiting ends with beside an error of the
    credential or a local one. *)
Inductive gwErr :=
  | Failed (e : clientErr)
  | APIError (status : Z) (code message body : string)
  | AuthDiagnostic (e : gwErr)
  | ResponseTooLarge | AnswerIncomplete | WaitTimeout | UnknownState (state : string).
#[export] Instance gwErr_dec : EqDecision gwErr.
Proof. solve_decision. Defined.

Inductive gwCall : Type -> Type :=
  | OnCache {R : Type} (c : cacheCall R) : gwCall R
  | ReadTokenFile (path : string) : gwCall (option string)
  | ReadStdin (limit : Z) : gwCall (option string)
  | PromptPassword (user : string) : gwCall (option string)
  | Warn (url : string) : gwCall unit
  | Send (r : httpRequest) : gwCall (option gwAnswer)
  | Clock : gwCall time
  | Wait (d : duration) : gwCall bool
  | ShowProgress (round rounds samplesOK samplesFailed : Z) : gwCall unit.
Abbreviation gprog := (itx gwCall).

(** What a call answers; nothing when fuel runs out. *)
Abbreviation gres A := (option (A + gwErr)).
Definition done {A} (a : A) : gres A := Some (inl a).
Definition fails {A} (e : gwErr) : gres A := Some (inr e).
Definition gtry {A B} (p : gprog (gres A)) (k : A -> gprog (gres B)) : gprog (gres B) :=
  r ← p;
  match r with
  | None => mret None
  | Some (inr e) => mret (fails e)
  | Some (inl a) => k a
  end.
Notation "x ←? p ; k" := (gtry p (fun x => k)) (at level 20, p at level 100, k at level 200) : go_scope.

(** The three credentials; [Cached] is the cached token of the gateway. *)
Inductive Credential := TokenOf (token : string) | BasicOf (user password : string) | Cached.
#[export] Instance Credential_dec : EqDecision Credential.
Proof. solve_decision. Defined.

(** ** Headers *)

(** [Header.Get], [Header.Set]. *)
Definition header_get (h : headers) (name : string) : string :=
  match h !! name with Some (v :: _) => v | _ => EmptyString end.
Definition header_set (name v : string) (h : headers) : headers := <[name := [v]]> h.

(** ** The plaintext rule *)

Section client.
  Variable wild : Z -> Z.
  Variable parseHost : string -> string -> option string.
  Variable ToLower : string -> string.
  (** The rounds of the loop that waits for a lock. *)
  Variable lock_rounds : nat.
  Variable s : Settings.

Definition isLoopbackHost (host : string) : bool :=
  bool_decide (ToLower host ∈ ["127.0.0.1"; "::1"; "localhost"]%string).
(** [checkPlaintext]: whether the send is the loopback exception; nothing when it
    is refused. *)
Definition checkPlaintext (u : URL) : option bool :=
  if equal_fold (u_Scheme u) "https" then Some false
  else if isLoopbackHost (Hostname u) then Some true
  else None.

(** ** Credentials *)

Definition TokenCredential (token : string) : Credential + gwErr :=
  let token := trim_space token in
  if empty token then inr (Failed Usage) else inl (TokenOf token).
Definition BasicCredential (user password : string) : Credential + gwErr :=
  if has_byte ":" user then inr (Failed Usage)
  else if maxPasswordBytes <? byte_len password then inr (Failed Usage)
  else inl (BasicOf user password).

(** [Apply]: the header with the Authorization field set. *)
Definition bearer (token : string) : string := "Bearer " +:+ token.
Definition basicHeader (user password : string) : string := "Basic " +:+ std_encode (user +:+ ":" +:+ password).
Definition of_cache {A} (p : cprog (res A)) : gprog (gres A) :=
  r ← lift (fun R c => OnCache c) p;
  mret (match (r : res A) with
        | None => None
        | Some (inl a) => done a
        | Some (inr e) => fails (Failed e)
        end).
Definition applyCredential (cred : Credential) (h : headers) : gprog (gres headers) :=
  match cred with
  | TokenOf t => mret (done (header_set "Authorization" (bearer t) h))
  | BasicOf user password => mret (done (header_set "Authorization" (basicHeader user password) h))
  | Cached =>
      t ←? of_cache (Apply wild parseHost ToLower URLString lock_rounds s);
      mret (done (header_set "Authorization" (bearer t) h))
  end.

(** ** One request *)

(** [removeEmptyPort] of net/http. *)
Definition removeEmptyPort (host : string) : string :=
  match cut_last ":" host with
  | Some (h, EmptyString) => h
  | _ => host
  end.
Definition with_host (u : URL) (host : string) : URL :=
  {| u_Scheme := u_Scheme u; u_Opaque := u_Opaque u; u_User := u_User u; u_Host := host; u_Path := u_Path u;
     u_RawPath := u_RawPath u; u_ForceQuery := u_ForceQuery u; u_RawQuery := u_RawQuery u;
     u_Fragment := u_Fragment u; u_RawFragment := u_RawFragment u |}.

(** [http.NewRequestWithContext]. *)
Definition newRequest (method url : string) (body : option string) (h : headers) : option httpRequest :=
  u ← Parse parseHost url;
  Some {| hr_Method := method; hr_URL := with_host u (removeEmptyPort (u_Host u)); hr_Body := body; hr_Header := h |}.

Definition target (req : Request) : URL :=
  with_query (JoinPath (s_Server s) (rq_Path req)) (Encode (rq_Query req)).
Definition with_header (r : httpRequest) (h : headers) : httpRequest :=
  {| hr_Method := hr_Method r; hr_URL := hr_URL r; hr_Body := hr_Body r; hr_Header := h |}.

Section principal.
  Variable credential : option Credential.

Definition build (req : Request) : gprog (gres httpRequest) :=
  match newRequest (rq_Method req) (URLString (target req)) (rq_Body req) (rq_Header req) with
  | None => mret (fails (Failed Usage))
  | Some r =>
      match credential with
      | None => mret (done r)
      | Some cred =>
          match checkPlaintext (target req) with
          | None => mret (fails (Failed Usage))
          | Some loopback =>
              h ←? applyCredential cred (hr_Header r);
              _ ← (if loopback then ask (Warn (URLString (target req))) else mret tt);
              mret (done (with_header r h))
          end
      end
  end.

(** [readBounded]. *)
Inductive bodyFault := ReadFailed | OverBound.
Definition readBounded (body : option string) : string + bodyFault :=
  match body with
  | None => inr ReadFailed
  | Some b => if maxResponseBytes <? byte_len b then inr OverBound else inl b
  end.

(** [envelope]; the message is a pointer. *)
Definition set_envelope (e : option string * string) (name : string) (v : json) : option (option string * string) :=
  if String.eqb name "error" then
    match v with JNull => Some (None, e.2) | _ => m ← to_string EmptyString v; Some (Some m, e.2) end
  else c ← to_string e.2 v; Some (e.1, c).
Definition to_envelope : json -> option (option string * string) :=
  to_struct ["error"; "code"]%string set_envelope (None, EmptyString).
Definition decodeEnvelope (status : Z) (h : headers) (body : string) : option gwErr :=
  if negb (is_json_type ToLower (header_get h "Content-Type")) then None
  else
    v ← parse_json body;
    '(message, code) ← to_envelope v;
    if empty code then None else m ← message; Some (APIError status code m body).

(** [Do] past the request: a 2xx as it came, or the error the answer is. *)
Definition refusal (a : gwAnswer) : gwErr :=
  let failure :=
    match readBounded (ga_Body a) with
    | inl b => default (Failed (StatusError (ga_Status a))) (decodeEnvelope (ga_Status a) (ga_Header a) b)
    | inr _ => Failed (StatusError (ga_Status a))
    end in
  if bool_decide (credential = Some Cached) && (ga_Status a =? 401) then AuthDiagnostic failure else failure.
Definition judge (a : option gwAnswer) : gwAnswer + gwErr :=
  match a with
  | None => inr (Failed Transport)
  | Some a => if (200 <=? ga_Status a) && (ga_Status a <? 300) then inl a else inr (refusal a)
  end.
Definition Do (req : Request) : gprog (gres gwAnswer) :=
  r ←? build req;
  a ← ask (Send r);
  mret (Some (judge a)).

(** [JSON]: the body and the header. *)
Definition with_accept (req : Request) : Request :=
  {| rq_Method := rq_Method req; rq_Path := rq_Path req; rq_Query := rq_Query req; rq_Body := rq_Body req;
     rq_Header := if empty (header_get (rq_Header req) "Accept")
                  then header_set "Accept" "application/json" (rq_Header req) else rq_Header req |}.
Definition read_document (a : gwAnswer) : (string * headers) + gwErr :=
  match readBounded (ga_Body a) with
  | inr OverBound => inr (Failed (StatusError (ga_Status a)))
  | inr ReadFailed => inr (Failed OtherError)
  | inl b =>
      match parse_json b with
      | None => inr (Failed (StatusError (ga_Status a)))
      | Some _ => inl (b, ga_Header a)
      end
  end.
Definition JSON (req : Request) : gprog (gres (string * headers)) :=
  a ←? Do (with_accept req);
  mret (Some (read_document a)).
End principal.

(** ** The choice of the credential *)

Record CredentialInput := { ci_TokenFile : string; ci_TokenStdin : bool; ci_User : string; ci_Prompt : bool }.
Variable getenv : string -> option string.

Definition tokenFrom (data : string) : Credential + gwErr :=
  if maxTokenBytes <? byte_len data then inr (Failed Usage)
  else match TokenCredential data with inl c => inl c | inr _ => inr (Failed Usage) end.
Definition chosen (c : Credential + gwErr) : gres (option Credential) :=
  match c with inl c => done (Some c) | inr e => fails e end.

(** [cachedCredentialFor]. *)
Definition cachedCredentialFor (required : bool) : gprog (gres (option Credential)) :=
  e ←? of_cache (storeRead (s_CacheName s));
  mret (match (e : option Entry) with
        | Some _ => done (Some Cached)
        | None => if required then fails (Failed LoginNeeded) else done None
        end).
(** [basicCredentialFor]. *)
Definition basicCredentialFor (ci : CredentialInput) : gprog (gres (option Credential)) :=
  let user := if empty (ci_User ci) then lookup_env getenv "PROFGATE_USER" else ci_User ci in
  if empty user then mret (fails (Failed Usage))
  else
    match getenv "PROFGATE_PASSWORD" with
    | Some password => mret (chosen (BasicCredential user password))
    | None =>
        if negb (ci_Prompt ci) then mret (fails (Failed Usage))
        else
          p ← ask (PromptPassword user);
          mret (match (p : option string) with
                | None => fails (Failed Usage)
                | Some password => chosen (BasicCredential user password)
                end)
    end.

Definition from_read (data : option string) : gres (option Credential) :=
  match data with None => fails (Failed Usage) | Some data => chosen (tokenFrom data) end.
(** [ResolveCredential]; no credential is the inner nothing. *)
Definition ResolveCredential (ci : CredentialInput) : gprog (gres (option Credential)) :=
  if negb (empty (ci_TokenFile ci)) && ci_TokenStdin ci then mret (fails (Failed Usage))
  else if ci_TokenStdin ci && negb (empty (ci_User ci)) && bool_decide (getenv "PROFGATE_PASSWORD" = None)
  then mret (fails (Failed Usage))
  else if negb (empty (ci_TokenFile ci)) then data ← ask (ReadTokenFile (ci_TokenFile ci)); mret (from_read data)
  else if ci_TokenStdin ci then data ← ask (ReadStdin (maxTokenBytes + 1)); mret (from_read data)
  else
    match getenv "PROFGATE_TOKEN" with
    | Some v => mret (chosen (tokenFrom v))
    | None =>
        let mode := as_Mode (gc_Auth (s_Context s)) in
        if String.eqb mode "disabled" then mret (done None)
        else if String.eqb mode "oidc" then cachedCredentialFor true
        else if String.eqb mode "basic" then basicCredentialFor ci
        else
          c ←? cachedCredentialFor false;
          match (c : option Credential) with
          | Some c => mret (done (Some c))
          | None =>
              if empty (ci_User ci) && bool_decide (getenv "PROFGATE_USER" = None) then mret (done None)
              else basicCredentialFor ci
          end
    end.
End client.

(** ** The Basic header at the gateway *)

Lemma trim_with_none (cutter : string -> string -> option string) (fuel : nat) (s : string) :
  first_some (fun r => cutter r s) space_runes = None -> trim_with cutter fuel s = s.
Proof. intros H. destruct fuel; [done|]. cbn [trim_with]. by rewrite H. Qed.
Lemma first_some_none {A B} (f : A -> option B) (l : list A) : Forall (fun x => f x = None) l -> first_some f l = None.
Proof. induction 1 as [|x l Hx _ IH]; [done|]. cbn [first_some]. by rewrite Hx. Qed.

(** Text of graphic ASCII is its own trimming. *)
Definition graphic (c : ascii) : bool := (32 <? byte_of c) && (byte_of c <? 128).
Lemma trim_graphic (s : string) : all_bytes graphic s = true -> trim_space s = s.
Proof.
  intros H.
  assert (Forall (fun r => all_bytes graphic r = false) space_runes) as Hr.
  { apply Forall_forall. intros r Hr. apply (Forall_forall (fun r => all_bytes graphic r = false) space_runes); [|done].
    repeat (constructor; [vm_compute; reflexivity|]). constructor. }
  assert (forall fuel, trim_with cut_prefix fuel s = s) as Hp.
  { intros fuel. apply trim_with_none, first_some_none. eapply Forall_impl; [exact Hr|]. intros r Hn. cbn beta in *.
    destruct (cut_prefix r s) eqn:E; [|done]. apply cut_prefix_Some in E as ->. rewrite all_bytes_app, Hn in H. done. }
  assert (forall fuel, trim_with cut_suffix fuel s = s) as Hq.
  { intros fuel. apply trim_with_none, first_some_none. eapply Forall_impl; [exact Hr|]. intros r Hn. cbn beta in *.
    destruct (cut_suffix r s) eqn:E; [|done]. apply cut_suffix_Some in E as ->.
    rewrite all_bytes_app, Hn, andb_false_r in H. done. }
  unfold trim_space. by rewrite Hp, Hq.
Qed.

Lemma nth_graphic (n : nat) (al : string) : all_bytes graphic al = true -> graphic (nth_byte n al) = true.
Proof.
  revert n. induction al as [|c al IH]; intros n H; [by destruct n|]. cbn [all_bytes] in H. to_prop.
  destruct n as [|n]; [done|]. by apply IH.
Qed.
Lemma std_encode_graphic (s : string) : all_bytes graphic (std_encode s) = true.
Proof.
  assert (forall v, graphic (b64_char std_alphabet v) = true) as Hc by (intros v; by apply nth_graphic).
  unfold std_encode. induction s as [|a|a b|a b c s IH] using string_triples; cbn [encode_with all_bytes]; rewrite ?Hc; try done.
Qed.

(** What the client takes for a user name and a password, the gateway reads from
    the header as that name and that password, for the pairs whose header is
    within its bound. *)
Theorem basic_header_roundtrip (user password : string) (cred : Credential)
    (Hc : BasicCredential user password = inl cred)
    (Hlen : byte_len (basicHeader user password) <= maxBasicHeaderBytes) :
  cred = BasicOf user password /\ parseBasic (basicHeader user password) = inl (user, password).
Proof.
  unfold BasicCredential in Hc. destruct (has_byte ":" user) eqn:Hu; [done|].
  destruct (maxPasswordBytes <? byte_len password) eqn:Hp; [done|]. injection Hc as <-. split; [done|].
  unfold parseBasic. change (is_empty (basicHeader user password)) with false.
  set (enc := std_encode (user +:+ ":" +:+ password)).
  assert (cut_pair " " (basicHeader user password) = ("Basic"%string, enc)) as ->.
  { unfold basicHeader. fold enc. change ("Basic " +:+ enc) with ("Basic" +:+ String " " enc).
    unfold cut_pair. by rewrite cut_app. }
  change (equal_fold "Basic" basicScheme) with true. cbn [negb].
  rewrite (proj2 (Z.ltb_ge _ _) Hlen). unfold enc. rewrite trim_graphic by apply std_encode_graphic.
  rewrite std_roundtrip. change (user +:+ ":" +:+ password) with (user +:+ String ":" password).
  rewrite cut_app by done. change Basic.maxPasswordBytes with maxPasswordBytes. by rewrite Hp.
Qed.

Lemma basic_header_roundtrip_witness :
  parseBasic (basicHeader "ada" "s3cret:") = inl ("ada", "s3cret:")%string.
Proof.
  assert (byte_len (basicHeader "ada" "s3cret:") <= maxBasicHeaderBytes) as H by (apply Z.leb_le; vm_compute; reflexivity).
  exact (proj2 (basic_header_roundtrip "ada" "s3cret:" (BasicOf "ada" "s3cret:") eq_refl H)).
Defined.

(** ** Where a credential goes *)

(** The calls of the credential cache in a history. *)
Definition on_cache (x : answered gwCall) : option (answered cacheCall) :=
  match x with
  | At c r =>
      match c in gwCall R return R -> option (answered cacheCall) with
      | OnCache c => fun r => Some (At c r)
      | _ => fun _ => None
      end r
  end.
Definition cache_log (log : list (answered gwCall)) : list (answered cacheCall) := omap on_cache log.
Definition quiet (x : answered gwCall) : Prop := match x with At (Send _) _ => False | _ => True end.

Lemma cache_log_lift (g : list (answered cacheCall)) (h : list (answered gwCall)) :
  cache_log (map (lift_answered (fun R c => OnCache c)) g ++ h) = g ++ cache_log h.
Proof. induction g as [|[R c r] g IH]; [done|]. cbn. by f_equal. Qed.
Lemma lifted_quiet (g : list (answered cacheCall)) : Forall quiet (map (lift_answered (fun R c => OnCache c)) g).
Proof. induction g as [|[R c r] g IH]; by constructor. Qed.

Lemma runs_gtry {A B} (p : gprog (gres A)) (k : A -> gprog (gres B)) h h' r :
  runs (gtry p k) h h' r ->
  exists x h1, runs p h h1 x /\
    match x with
    | Some (inl a) => runs (k a) h1 h' r
    | Some (inr e) => r = fails e /\ h1 = h'
    | None => r = None /\ h1 = h'
    end.
Proof.
  intros H. apply runs_bind in H as (x & h1 & H1 & H). exists x, h1. split; [done|].
  destruct x as [[a|e]|]; [done|by destruct H..].
Qed.

Lemma runs_of_cache {A} (p : cprog (res A)) h h' (x : gres A) :
  runs (of_cache p) h h' x ->
  exists g r, h' = map (lift_answered (fun R c => OnCache c)) g ++ h /\ runs p [] g r /\
    x = match r with None => None | Some (inl a) => done a | Some (inr e) => fails (Failed e) end.
Proof.
  intros H. apply runs_bind in H as (r & h1 & H1 & [<- <-]). apply (runs_lift _ _ _ _ []) in H1 as (g & H1 & ->).
  rewrite app_nil_r in H1. by exists g, r.
Qed.

Lemma Parse_opaque (parseHost : string -> string -> option string) (raw : string) (u : URL) :
  Parse parseHost raw = Some u -> u_Host u <> EmptyString -> u_Opaque u = EmptyString.
Proof.
  unfold Parse. destruct (cut_pair "#" raw) as [w frag]. destruct (parse parseHost w) as [p|] eqn:E; [|done].
  cbn [mbind option_bind]. intros H.
  assert (u_Host u = u_Host p /\ u_Opaque u = u_Opaque p) as [-> ->].
  { destruct (String.eqb frag EmptyString); [by injection H as <-|]. unfold set_fragment in H.
    destruct (unescape frag); [|done]. by injection H as <-. }
  clear H. unfold parse in E. destruct (any_byte is_ctl w); [done|].
  destruct (String.eqb w "*"); [by injection E as <-|]. destruct (getScheme w) as [[scheme rest]|]; [|done].
  cbn [mbind option_bind] in E. destruct (cut_query rest) as [[rest' query] force].
  destruct (_ && _); [by injection E as <-|]. destruct (_ && _); [done|].
  assert (forall user host path, with_path (lower scheme) user host path query force = Some p -> u_Opaque p = EmptyString) as Hp.
  { intros user host path. unfold with_path. destruct (unescape path); [|done]. by intros [= <-]. }
  destruct (_ && _); [|intros _; by eapply Hp].
  destruct (match cut "/" _ with Some _ => _ | None => _ end) as [authority path].
  destruct (parseAuthority _ _ _) as [[user host]|]; [|done]. intros _. by eapply Hp.
Qed.
Lemma parseServer_web (parseHost : string -> string -> option string) (raw : string) (u : URL) :
  parseServer parseHost raw = Some u -> web_url u.
Proof.
  intros H. apply parseServer_ok in H as (Hp & Hs & Hh & Hu & _ & Hf & Hg & Hr). split; [done|].
  split; [by eapply Parse_opaque|done].
Qed.

Section confined.
  Variable wild : Z -> Z.
  Variable parseHost : string -> string -> option string.
  Variable ToLower : string -> string.
  Variable lock_rounds : nat.
  Variable s : Settings.

(** A request to the gateway the settings name, as the caller asked for it. *)
Definition addressed (req : Request) (r : httpRequest) : Prop :=
  u_Scheme (hr_URL r) = u_Scheme (s_Server s) /\ u_Host (hr_URL r) = removeEmptyPort (u_Host (s_Server s)) /\
  u_User (hr_URL r) = false /\ u_Path (hr_URL r) = rooted_path (target s req) /\
  u_RawQuery (hr_URL r) = Encode (rq_Query req) /\ u_Fragment (hr_URL r) = EmptyString /\
  hr_Method r = rq_Method req /\ hr_Body r = rq_Body req.

(** What a credential is sent as: the token of the cache is one obtained for this
    gateway's origin and still good. *)
Definition carries (cred : Credential) (log : list (answered gwCall)) (v : string) : Prop :=
  match cred with
  | TokenOf t => v = bearer t
  | BasicOf user password => v = basicHeader user password
  | Cached => exists token, v = bearer token /\ sendable wild parseHost ToLower s (cache_log log) token
  end.

Lemma target_web (req : Request) : web_url (s_Server s) -> web_url (target s req).
Proof using. intros H. by apply (JoinPath_web _ (rq_Path req)) in H. Qed.
Lemma target_host (req : Request) :
  u_Scheme (target s req) = u_Scheme (s_Server s) /\ u_Host (target s req) = u_Host (s_Server s).
Proof using. apply JoinPath_host. Qed.
Lemma target_plaintext (req : Request) : checkPlaintext ToLower (target s req) = checkPlaintext ToLower (s_Server s).
Proof using. unfold checkPlaintext, Hostname. by destruct (target_host req) as [-> ->]. Qed.

Lemma newRequest_addressed (req : Request) (r : httpRequest) :
  web_url (s_Server s) -> parseHost (u_Scheme (s_Server s)) (escape_host (u_Host (s_Server s))) = Some (u_Host (s_Server s)) ->
  newRequest parseHost (rq_Method req) (URLString (target s req)) (rq_Body req) (rq_Header req) = Some r ->
  addressed req r /\ hr_Header r = rq_Header req.
Proof using.
  intros Hw Hh H. destruct (target_host req) as [Hts Hth].
  destruct (Parse_URLString parseHost (target s req)) as (u & Hu & H1 & H2 & H3 & H4 & H5 & H6).
  { by apply target_web. } { by rewrite Hts, Hth. } { apply Encode_bytes. }
  unfold newRequest in H. rewrite Hu in H. cbn [mbind option_bind] in H. injection H as <-.
  unfold addressed. cbn. rewrite H1, H2, H3, H4, H5, H6, Hts, Hth. by split_and!.
Qed.

Lemma applyCredential_carries (cred : Credential) (hd : headers) h h' (x : gres headers) :
  runs (applyCredential wild parseHost ToLower lock_rounds s cred hd) h h' x ->
  exists g, h' = map (lift_answered (fun R c => OnCache c)) g ++ h /\
    forall hd', x = done hd' ->
      exists v, hd' = header_set "Authorization" v hd /\ carries cred (map (lift_answered (fun R c => OnCache c)) g) v.
Proof.
  intros H. destruct cred as [t|user password|]; cbn [applyCredential] in H.
  - destruct H as [<- <-]. exists []. split; [done|]. intros hd' [= <-]. by exists (bearer t).
  - destruct H as [<- <-]. exists []. split; [done|]. intros hd' [= <-]. by exists (basicHeader user password).
  - apply runs_gtry in H as (y & h1 & H1 & H). apply runs_of_cache in H1 as (g & r & -> & Hg & ->). exists g.
    destruct r as [[token|e]|].
    + destruct H as [<- <-]. split; [done|]. intros hd' [= <-]. exists (bearer token). split; [done|].
      exists token. split; [done|]. rewrite <-(app_nil_r (map _ g)), cache_log_lift, app_nil_r. by eapply Apply_sendable.
    + destruct H as [-> <-]. by split.
    + destruct H as [-> <-]. by split.
Qed.

(** One request, from any history: refused before it is sent, or sent once. *)
Definition sent_as (credential : option Credential) (req : Request) (r : httpRequest) (g : list (answered gwCall)) : Prop :=
  (credential = None /\ hr_Header r = rq_Header req /\ g = []) \/
  exists cred v, credential = Some cred /\ hr_Header r = header_set "Authorization" v (rq_Header req) /\ carries cred g v /\
    (u_Scheme (s_Server s) = "https"%string \/
     isLoopbackHost ToLower (Hostname (s_Server s)) = true /\
     exists g', g = At (Warn (URLString (target s req))) tt :: g').
Lemma Do_shape (credential : option Credential) (req : Request) h log (a : gres gwAnswer) :
  web_url (s_Server s) ->
  parseHost (u_Scheme (s_Server s)) (escape_host (u_Host (s_Server s))) = Some (u_Host (s_Server s)) ->
  runs (Do wild parseHost ToLower lock_rounds s credential req) h log a ->
  (is_Some credential -> checkPlaintext ToLower (s_Server s) = None -> log = h /\ a = fails (Failed Usage)) /\
  exists g, Forall quiet g /\
    ((log = g ++ h /\ forall x, a <> done x) \/
     exists r ans, log = At (Send r) ans :: g ++ h /\ a = Some (judge ToLower credential ans) /\ addressed req r /\
       sent_as credential req r g).
Proof.
  intros Hw Hread Hr. unfold Do in Hr. apply runs_gtry in Hr as (b & h1 & Hb & Hr). unfold build in Hb.
  destruct (newRequest _ _ _ _ _) as [r|] eqn:En.
  2: { destruct Hb as [<- <-]. destruct Hr as [-> <-]. split; [done|]. exists []. split; [constructor|]. by left. }
  destruct (newRequest_addressed req r Hw Hread En) as [Ha Hh].
  destruct credential as [cred|].
  2: { destruct Hb as [<- <-]. cbn [done] in Hr. apply runs_ask in Hr as [ans [<- <-]].
       split; [by intros [? ?]|]. exists []. split; [constructor|]. right. exists r, ans. split_and!; [done..|by left]. }
  rewrite target_plaintext in Hb. destruct (checkPlaintext ToLower (s_Server s)) as [loopback|] eqn:Ec.
  2: { destruct Hb as [<- <-]. destruct Hr as [-> <-]. split; [done|]. exists []. split; [constructor|]. by left. }
  split; [done|]. apply runs_gtry in Hb as (x & h2 & Hx & Hb).
  apply applyCredential_carries in Hx as (g & -> & Hx). pose proof (lifted_quiet g) as Hq.
  set (G := map (lift_answered (fun R c => OnCache c)) g) in *. clearbody G.
  destruct x as [[hd|e]|].
  2: { destruct Hb as [-> <-]. destruct Hr as [-> <-]. exists G. split; [done|]. by left. }
  2: { destruct Hb as [-> <-]. destruct Hr as [-> <-]. exists G. split; [done|]. by left. }
  destruct (Hx hd eq_refl) as (v & -> & Hv). apply runs_bind in Hb as ([] & h3 & Hl & [<- <-]).
  cbn [done] in Hr. apply runs_ask in Hr as [ans [<- <-]].
  set (W := if loopback then [At (Warn (URLString (target s req))) tt] else []).
  assert (h3 = W ++ G ++ h) as -> by (unfold W; destruct loopback; [by destruct Hl as [[] [_ <-]]|by destruct Hl as [_ <-]]).
  exists (W ++ G). split; [unfold W; destruct loopback; [by constructor|done]|]. right.
  exists (with_header r (header_set "Authorization" v (hr_Header r))), ans.
  split_and!; [by rewrite app_assoc|done|done|]. right. exists cred, v. split_and!; [done|by rewrite <-Hh| |].
  - unfold W. by destruct loopback, cred.
  - unfold checkPlaintext in Ec. destruct Hw as ([-> | Hs] & _); [by left|right]. rewrite Hs in Ec.
    change (equal_fold "http" "https") with false in Ec. destruct (isLoopbackHost _ _); [|done].
    injection Ec as <-. split; [done|]. by exists G.
Qed.

(** C25: a request goes to the gateway the settings name and nowhere else, once at most,
    and as it was asked for but for one header; that header is the credential,
    unless there is none, and it is sent over https, or in the clear to a
    loopback host right after the warning.  With a credential and a gateway in
    the clear that is not loopback nothing is asked of anything.  The bearer token
    of the cache is of the context: of this gateway's origin and, when the context
    records how its gateway authenticates, of its issuer, client and kind of
    token.  It is a cached one more than the refresh window from its expiry
    when the clock was read, or the one the issuer answered, among the calls of
    this request, to the refresh token of such an entry, written to the cache
    before it is sent (for which no expiry is compared again), or, when that
    answer had no token, the cached one before its expiry. *)
Theorem credential_confined (credential : option Credential) (req : Request) (log : list (answered gwCall))
    (a : gres gwAnswer) (Hw : web_url (s_Server s))
    (Hread : parseHost (u_Scheme (s_Server s)) (escape_host (u_Host (s_Server s))) = Some (u_Host (s_Server s)))
    (Hr : runs (Do wild parseHost ToLower lock_rounds s credential req) [] log a) :
  (is_Some credential -> checkPlaintext ToLower (s_Server s) = None -> log = [] /\ a = fails (Failed Usage)) /\
  ((Forall quiet log /\ forall x, a <> done x) \/
   exists r ans h, log = At (Send r) ans :: h /\ Forall quiet h /\ a = Some (judge ToLower credential ans) /\
     addressed req r /\ sent_as credential req r h).
Proof.
  destruct (Do_shape credential req [] log a Hw Hread Hr) as [H1 (g & Hq & H2)]. split; [exact H1|].
  rewrite app_nil_r in H2. destruct H2 as [[-> H2]|(r & ans & -> & H2 & H3 & H4)]; [by left|right].
  exists r, ans, g. by split_and!.
Qed.
End confined.

(** ** Instances *)

Definition demo_answer : gwAnswer :=
  {| ga_Status := 200; ga_Header := {[ "Content-Type"%string := ["application/json"%string] ]};
     ga_Body := Some (print (JObj [("principal"%string, JStr "ada")])) |}.
Definition demo_gateway (R : Type) (c : gwCall R) (h : list (answered gwCall)) : R :=
  match c in gwCall R return R with
  | OnCache c => demo_cache _ c (cache_log h)
  | ReadTokenFile _ | ReadStdin _ | PromptPassword _ => None
  | Warn _ => tt
  | Send _ => Some demo_answer
  | Clock => 0
  | Wait _ => true
  | ShowProgress _ _ _ _ => tt
  end.
Definition demo_whoami : Request :=
  {| rq_Method := "GET"; rq_Path := "/v1/whoami"; rq_Query := ∅; rq_Body := None; rq_Header := ∅ |}.
Definition demo_do (s : Settings) (cred : option Credential) : gres gwAnswer * list (answered gwCall) :=
  run demo_gateway (Do no_wild any_host lower 301 s cred demo_whoami) [].

(** The requests of a history, newest first. *)
Definition sends (log : list (answered gwCall)) : list httpRequest :=
  omap (fun x => match x with At (Send r) _ => Some r | _ => None end) log.

Example demo_sent :
  map (fun r => (URLString (hr_URL r), header_get (hr_Header r) "Authorization"))
    (sends (demo_do demo_settings (Some Cached)).2) =
  [("https://gw.example/v1/whoami", "Bearer t1")]%string.
Proof. vm_compute. reflexivity. Qed.

Lemma credential_confined_witness :
  exists r ans h, (demo_do demo_settings (Some Cached)).2 = At (Send r) ans :: h /\
    u_Host (hr_URL r) = "gw.example"%string /\ u_Path (hr_URL r) = "/v1/whoami"%string.
Proof.
  assert (web_url (s_Server demo_settings)) as Hw by (apply (parseServer_web any_host "https://gw.example"); vm_compute; reflexivity).
  destruct (credential_confined no_wild any_host lower 301 demo_settings (Some Cached) demo_whoami
    (demo_do demo_settings (Some Cached)).2 (demo_do demo_settings (Some Cached)).1 Hw eq_refl
    (run_runs demo_gateway (Do no_wild any_host lower 301 demo_settings (Some Cached) demo_whoami) []))
    as [_ [[_ H]|(r & ans & h & H1 & _ & _ & (_ & H2 & _ & H3 & _) & _)]].
  - exfalso. apply (H demo_answer). vm_compute. reflexivity.
  - exists r, ans, h. split; [exact H1|]. rewrite H2, H3. split; vm_compute; reflexivity.
Defined.
