(* ===== verification/ClientCollect.v ===== *)
(** * Collections from the command line

    src/internal/client/collect.go, with what the command line makes of it in
    src/cmd/profgate/collect.go and exit.go: the create and its retry under one
    key, the wait for a record to end, the cancel, the walk of a listing, the
    identifiers and keys, and the exit code of an error.  The loops take fuel. *)

From S2P Require Import Prelude Base64 Sha256 Ident Query Json Url UrlText Interaction Contexts ClientIssuer TokenCache.
From S2P Require Import GatewayClient.

(** [Created]. *)
Record Created := { cr_ID : string; cr_State : string; cr_Status : Z; cr_Location : string; cr_Body : string }.

Definition createRetryFirst : duration := second.
Definition createRetryMax : duration := 8 * second.
Definition createRetryWindow : duration := 30 * second.

(** [createdBody]. *)
Definition set_created (c : string * string) (name : string) (v : json) : option (string * string) :=
  if String.eqb name "id" then x ← to_string c.1 v; Some (x, c.2) else x ← to_string c.2 v; Some (c.1, x).
Definition to_created : json -> option (string * string) := to_struct ["id"; "state"]%string set_created (EmptyString, EmptyString).

(** [CreateIndeterminate]. *)
Fixpoint CreateIndeterminate (e : gwErr) : bool :=
  match e with
  | AnswerIncomplete | Failed Transport => true
  | Failed (StatusError status) => 500 <=? status
  | APIError status _ _ _ => 500 <=? status
  | AuthDiagnostic e => CreateIndeterminate e
  | _ => false
  end.

(** [isCode]. *)
Fixpoint isCode (e : gwErr) (status : Z) (code : string) : bool :=
  match e with
  | APIError st c _ _ => (st =? status) && String.eqb c code
  | AuthDiagnostic e => isCode e status code
  | _ => false
  end.

(** ** Identifiers and keys *)

Definition collectionIDAlphabet : string := "0123456789abcdefghjkmnpqrstvwxyz".
Definition collectionIDLength : Z := 20.
Definition IsCollectionID (s : string) : bool :=
  (byte_len s =? collectionIDLength) && all_bytes (fun c => has_byte c collectionIDAlphabet) s.
Definition CollectionPath (id : string) : string := "/v1/collections/" +:+ PathEscape id.

(** [NewKey], of what [io.ReadFull] reads. *)
Definition at_byte (n : nat) (f : Z -> Z) (l : list Z) : list Z :=
  match l !! n with Some b => <[n := f b]> l | None => l end.
Definition NewKey (random : option (list Z)) : option string :=
  b ← random;
  let b := at_byte 6 (fun x => Z.lor (Z.land x 15) 64) b in
  let b := at_byte 8 (fun x => Z.lor (Z.land x 63) 128) b in
  let h := hex_encode b in
  Some (String.substring 0 8 h +:+ "-" +:+ String.substring 8 4 h +:+ "-" +:+ String.substring 12 4 h +:+ "-" +:+
        String.substring 16 4 h +:+ "-" +:+ String.substring 20 (String.length h - 20) h).

(** ** The record *)

Record CollectionProgress := { pg_Round : Z; pg_Rounds : Z; pg_SamplesOK : Z; pg_SamplesFailed : Z }.
#[export] Instance CollectionProgress_dec : EqDecision CollectionProgress.
Proof. solve_decision. Defined.
Record CollectionArtifact := { ca_Object : string; ca_Bytes : Z }.
Record CollectionRecord := {
  cl_ID : string; cl_State : string; cl_Origin : string; cl_Reason : string; cl_Progress : CollectionProgress;
  cl_ResolvedVersion : string; cl_FinishedAt : string; cl_ExpiresAt : string; cl_Artifact : option CollectionArtifact
}.
Definition no_progress : CollectionProgress := {| pg_Round := 0; pg_Rounds := 0; pg_SamplesOK := 0; pg_SamplesFailed := 0 |}.
Definition no_record : CollectionRecord :=
  {| cl_ID := ""; cl_State := ""; cl_Origin := ""; cl_Reason := ""; cl_Progress := no_progress;
     cl_ResolvedVersion := ""; cl_FinishedAt := ""; cl_ExpiresAt := ""; cl_Artifact := None |}.

Definition set_progress (p : CollectionProgress) (name : string) (v : json) : option CollectionProgress :=
  let '(Build_CollectionProgress r n k f) := p in
  if String.eqb name "round" then x ← to_int64 r v; Some (Build_CollectionProgress x n k f)
  else if String.eqb name "rounds" then x ← to_int64 n v; Some (Build_CollectionProgress r x k f)
  else if String.eqb name "samplesOK" then x ← to_int64 k v; Some (Build_CollectionProgress r n x f)
  else x ← to_int64 f v; Some (Build_CollectionProgress r n k x).
Definition to_progress (old : CollectionProgress) : json -> option CollectionProgress :=
  to_struct ["round"; "rounds"; "samplesOK"; "samplesFailed"]%string set_progress old.
Definition set_artifact (a : CollectionArtifact) (name : string) (v : json) : option CollectionArtifact :=
  if String.eqb name "object" then x ← to_string (ca_Object a) v; Some {| ca_Object := x; ca_Bytes := ca_Bytes a |}
  else x ← to_int64 (ca_Bytes a) v; Some {| ca_Object := ca_Object a; ca_Bytes := x |}.
(** The artifact is a pointer: null is nil, and a member met again goes on from
    what is there. *)
Definition to_artifact (old : option CollectionArtifact) (v : json) : option (option CollectionArtifact) :=
  match v with
  | JNull => Some None
  | _ => a ← to_struct ["object"; "bytes"]%string set_artifact
             (default {| ca_Object := EmptyString; ca_Bytes := 0 |} old) v; Some (Some a)
  end.
Definition set_record (c : CollectionRecord) (name : string) (v : json) : option CollectionRecord :=
  let '(Build_CollectionRecord i s o r p rv f e a) := c in
  if String.eqb name "id" then x ← to_string i v; Some (Build_CollectionRecord x s o r p rv f e a)
  else if String.eqb name "state" then x ← to_string s v; Some (Build_CollectionRecord i x o r p rv f e a)
  else if String.eqb name "origin" then x ← to_string o v; Some (Build_CollectionRecord i s x r p rv f e a)
  else if String.eqb name "reason" then x ← to_string r v; Some (Build_CollectionRecord i s o x p rv f e a)
  else if String.eqb name "progress" then x ← to_progress p v; Some (Build_CollectionRecord i s o r x rv f e a)
  else if String.eqb name "resolvedVersion" then x ← to_string rv v; Some (Build_CollectionRecord i s o r p x f e a)
  else if String.eqb name "finishedAt" then x ← to_string f v; Some (Build_CollectionRecord i s o r p rv x e a)
  else if String.eqb name "expiresAt" then x ← to_string e v; Some (Build_CollectionRecord i s o r p rv f x a)
  else x ← to_artifact a v; Some (Build_CollectionRecord i s o r p rv f e x).
Definition to_record : json -> option CollectionRecord :=
  to_struct ["id"; "state"; "origin"; "reason"; "progress"; "resolvedVersion"; "finishedAt"; "expiresAt"; "artifact"]%string
    set_record no_record.

Definition terminal_states : list string := ["completed"; "failed"; "cancelled"; "expired"]%string.
Definition running_states : list string := ["initializing"; "pending"; "running"]%string.

(** ** The listing *)

Record CollectionSummary := { cs_ID : string; cs_State : string; cs_Origin : string; cs_CreatedAt : string }.
Record CollectionsResponse := { cs_Collections : list CollectionSummary; cs_NextCursor : string }.
Definition no_summary : CollectionSummary := {| cs_ID := ""; cs_State := ""; cs_Origin := ""; cs_CreatedAt := "" |}.
Definition set_summary (c : CollectionSummary) (name : string) (v : json) : option CollectionSummary :=
  let '(Build_CollectionSummary i s o t) := c in
  if String.eqb name "id" then x ← to_string i v; Some (Build_CollectionSummary x s o t)
  else if String.eqb name "state" then x ← to_string s v; Some (Build_CollectionSummary i x o t)
  else if String.eqb name "origin" then x ← to_string o v; Some (Build_CollectionSummary i s x t)
  else x ← to_string t v; Some (Build_CollectionSummary i s o x).
Definition to_summary : json -> option CollectionSummary :=
  to_struct ["id"; "state"; "origin"; "createdAt"]%string set_summary no_summary.

(** A slice: null is nil, and an array of a member met again is decoded over the
    elements that are there. *)
Fixpoint over_elements {A} (into : A -> json -> option A) (zero : A) (old : list A) (l : list json) : option (list A) :=
  match l with
  | [] => Some []
  | v :: l => x ← into (default zero (head old)) v; r ← over_elements into zero (tail old) l; Some (x :: r)
  end.
Definition to_summaries (old : list CollectionSummary) (v : json) : option (list CollectionSummary) :=
  match v with
  | JNull => Some []
  | JArr l => over_elements (fun c => to_struct ["id"; "state"; "origin"; "createdAt"]%string set_summary c) no_summary old l
  | _ => None
  end.
Definition set_collections (c : CollectionsResponse) (name : string) (v : json) : option CollectionsResponse :=
  if String.eqb name "collections" then x ← to_summaries (cs_Collections c) v; Some {| cs_Collections := x; cs_NextCursor := cs_NextCursor c |}
  else x ← to_string (cs_NextCursor c) v; Some {| cs_Collections := cs_Collections c; cs_NextCursor := x |}.
Definition to_collections : json -> option CollectionsResponse :=
  to_struct ["collections"; "nextCursor"]%string set_collections {| cs_Collections := []; cs_NextCursor := "" |}.

(** ** The programs *)

Section programs.
  Variable wild : Z -> Z.
  Variable parseHost : string -> string -> option string.
  Variable ToLower : string -> string.
  Variable lock_rounds : nat.
  Variable s : Settings.
  Variable credential : option Credential.

Definition gw_do : Request -> gprog (gres gwAnswer) := Do wild parseHost ToLower lock_rounds s credential.
Definition gw_json : Request -> gprog (gres (string * headers)) := JSON wild parseHost ToLower lock_rounds s credential.

(** *** Create *)

Definition collectionsPath (ns svc : string) : string :=
  "/v1/namespaces/" +:+ PathEscape ns +:+ "/services/" +:+ PathEscape svc +:+ "/collections".
Definition create_request (ns svc : string) (body : option string) (key : string) : Request :=
  {| rq_Method := "POST"; rq_Path := collectionsPath ns svc; rq_Query := ∅;
     rq_Body := Some (default "{}"%string body);
     rq_Header := header_set "Content-Type" "application/json" (header_set "Accept" "application/json"
                    (header_set "Idempotency-Key" key ∅)) |}.

(** [create] past the response. *)
Definition read_created (a : gwAnswer) : Created + gwErr :=
  match readBounded (ga_Body a) with
  | inr OverBound => inr ResponseTooLarge
  | inr ReadFailed => inr AnswerIncomplete
  | inl raw =>
      match (v ← parse_json raw; to_created v) with
      | None => inr (Failed (StatusError (ga_Status a)))
      | Some (id, state) =>
          if empty id then inr (Failed (StatusError (ga_Status a)))
          else inl {| cr_ID := id; cr_State := state; cr_Status := ga_Status a;
                      cr_Location := header_get (ga_Header a) "Location"; cr_Body := raw |}
      end
  end.
Definition create (req : Request) : gprog (gres Created) :=
  a ←? gw_do req; mret (Some (read_created a)).

(** The loop of [Create]. *)
Fixpoint create_loop (fuel : nat) (req : Request) (deadline : time) (wait : duration) : gprog (gres Created) :=
  match fuel with
  | O => mret None
  | S fuel =>
      r ← create req;
      match (r : gres Created) with
      | Some (inr e) =>
          if negb (CreateIndeterminate e) then mret (fails e)
          else
            now ← ask Clock;
            let remaining := time_sub deadline now in
            if remaining <=? 0 then mret (fails e)
            else
              slept ← ask (Wait (Z.min wait remaining));
              if negb (slept : bool) then mret (fails e)
              else create_loop fuel req deadline (Z.min (wait *! 2) createRetryMax)
      | _ => mret r
      end
  end.
Definition Create (fuel : nat) (ns svc : string) (body : option string) (key : string) : gprog (gres Created) :=
  now ← ask Clock;
  create_loop fuel (create_request ns svc body key) (now + createRetryWindow) createRetryFirst.

(** *** Wait *)

Definition get_request (path : string) (query : Values) : Request :=
  {| rq_Method := "GET"; rq_Path := path; rq_Query := query; rq_Body := None; rq_Header := ∅ |}.

(** The line of a progress that changed. *)
Definition show_progress (last p : CollectionProgress) : gprog CollectionProgress :=
  if negb (bool_decide (p = last)) && (0 <? pg_Rounds p) then
    _ ← ask (ShowProgress (wrap64 (pg_Round p + 1)) (pg_Rounds p) (pg_SamplesOK p) (pg_SamplesFailed p));
    mret p
  else mret last.

Section wait.
  Variable id : string.
  Variable interval : duration.

Fixpoint wait_loop (fuel : nat) (deadline : time) (last : CollectionProgress) : gprog (gres (CollectionRecord * string)) :=
  match fuel with
  | O => mret None
  | S fuel =>
      let pace (last : CollectionProgress) :=
        now ← ask Clock;
        let remaining := time_sub deadline now in
        if remaining <=? 0 then mret (fails WaitTimeout)
        else
          slept ← ask (Wait (Z.min interval remaining));
          if negb (slept : bool) then mret (fails (Failed ContextError)) else wait_loop fuel deadline last in
      r ← gw_json (get_request (CollectionPath id) ∅);
      match (r : gres (string * headers)) with
      | None => mret None
      | Some (inl (body, _)) =>
          match decodeOne to_record body with
          | None => mret (fails (Failed OtherError))
          | Some rec =>
              last ← show_progress last (cl_Progress rec);
              if bool_decide (cl_State rec ∈ terminal_states) then mret (done (rec, body))
              else if bool_decide (cl_State rec ∈ running_states) then pace last
              else mret (fails (UnknownState (cl_State rec)))
          end
      | Some (inr e) => if isCode e 503 "pgo_unavailable" then pace last else mret (fails e)
      end
  end.
End wait.
Definition WaitFor (fuel : nat) (id : string) (interval timeout : duration) : gprog (gres (CollectionRecord * string)) :=
  now ← ask Clock; wait_loop id interval fuel (now + timeout) no_progress.

(** *** Cancel *)

Definition cancelRetryInterval : duration := second.
Definition cancelRetryWindow : duration := 10 * second.
Definition cancel_request (id : string) : Request :=
  {| rq_Method := "POST"; rq_Path := CollectionPath id +:+ "/cancel"; rq_Query := ∅; rq_Body := None;
     rq_Header := header_set "Content-Type" "application/json" ∅ |}.
Fixpoint cancel_loop (fuel : nat) (id : string) (deadline : time) : gprog (gres string) :=
  match fuel with
  | O => mret None
  | S fuel =>
      r ← gw_json (cancel_request id);
      match (r : gres (string * headers)) with
      | None => mret None
      | Some (inl (body, _)) => mret (done body)
      | Some (inr e) =>
          if negb (isCode e 409 "collection_initializing") then mret (fails e)
          else
            now ← ask Clock;
            if negb (now <? deadline) then mret (fails e)
            else
              slept ← ask (Wait cancelRetryInterval);
              if negb (slept : bool) then mret (fails (Failed ContextError)) else cancel_loop fuel id deadline
      end
  end.
Definition Cancel (fuel : nat) (id : string) : gprog (gres string) :=
  now ← ask Clock; cancel_loop fuel id (now + cancelRetryWindow).

(** *** The walk of a listing *)

(** [walkCollections]: the pages and the rows so far, and the cursors asked for. *)
Definition row (c : CollectionSummary) : list string := [cs_ID c; cs_State c; cs_Origin c; cs_CreatedAt c].
Fixpoint walk_loop (fuel : nat) (path next : string) (pages : list string) (rows : list (list string))
    (requested : gset string) : gprog (gres (list string * list (list string))) :=
  match fuel with
  | O => mret None
  | S fuel =>
      r ←? gw_json (get_request path (if empty next then ∅ else {[ "cursor"%string := [next] ]}));
      match decodeOne to_collections r.1 with
      | None => mret (fails (Failed OtherError))
      | Some c =>
          let pages := pages ++ [r.1] in
          let rows := rows ++ map row (cs_Collections c) in
          if empty (cs_NextCursor c) then mret (done (pages, rows))
          else if bool_decide (cs_NextCursor c ∈ requested) then mret (fails (Failed OtherError))
          else walk_loop fuel path (cs_NextCursor c) pages rows ({[ cs_NextCursor c ]} ∪ requested)
      end
  end.
Definition walkCollections (fuel : nat) (path : string) : gprog (gres (list string * list (list string))) :=
  walk_loop fuel path EmptyString [] [] ∅.
End programs.

(** ** The command's exit *)

Definition exitOK : Z := 0.
Definition exitRefused : Z := 1.
Definition exitUsage : Z := 2.
Definition exitLogin : Z := 3.
Fixpoint unauthorized (e : gwErr) : bool :=
  match e with
  | APIError status _ _ _ | Failed (StatusError status) => status =? 401
  | AuthDiagnostic e => unauthorized e
  | _ => false
  end.
Fixpoint is_local (e : gwErr) (l : clientErr) : bool :=
  match e with Failed e => bool_decide (e = l) | AuthDiagnostic e => is_local e l | _ => false end.
Definition exitCode (e : option gwErr) : Z :=
  match e with
  | None => exitOK
  | Some e =>
      if is_local e Usage then exitUsage
      else if is_local e LoginNeeded || unauthorized e then exitLogin
      else exitRefused
  end.

(** ** A create under one key *)

(** The requests of a history with their answers, newest first. *)
Definition exchange (x : answered gwCall) : option (httpRequest * option gwAnswer) :=
  match x with
  | At c r =>
      match c in gwCall R return R -> option (httpRequest * option gwAnswer) with
      | Send rq => fun a => Some (rq, a)
      | _ => fun _ => None
      end r
  end.
Definition exchanges (log : list (answered gwCall)) : list (httpRequest * option gwAnswer) := omap exchange log.

Lemma exchanges_quiet (g : list (answered gwCall)) : Forall quiet g -> exchanges g = [].
Proof. induction 1 as [|[R c r] g Hx _ IH]; [done|]. unfold exchanges in *. destruct c; cbn; try done. Qed.
Lemma exchanges_app (g h : list (answered gwCall)) : exchanges (g ++ h) = exchanges g ++ exchanges h.
Proof. apply omap_app. Qed.

(** A clock of the process that never reads less than it read before and was
    waited since, the one the cache reads as well. *)
Fixpoint gw_clock (start : time) (h : list (answered gwCall)) : time :=
  match h with
  | [] => start
  | At Clock t :: _ => t
  | At (Wait d) _ :: h => gw_clock start h + d
  | _ :: h => gw_clock start h
  end.
Fixpoint gw_steady (start : time) (h : list (answered gwCall)) : Prop :=
  match h with
  | [] => True
  | At Clock t :: h => gw_clock start h <= t /\ gw_steady start h
  | _ :: h => gw_steady start h
  end.
Definition one_clock (start : time) (h : list (answered gwCall)) : Prop :=
  gw_steady start h /\ steady start (cache_log h).

Lemma gw_steady_app (start : time) (g h : list (answered gwCall)) : gw_steady start (g ++ h) -> gw_steady start h.
Proof. induction g as [|[R [] r] g IH]; cbn [app gw_steady]; auto. intros [_ H]. auto. Qed.
Lemma one_clock_app (start : time) (g h : list (answered gwCall)) : one_clock start (g ++ h) -> one_clock start h.
Proof.
  intros [H1 H2]. split; [by eapply gw_steady_app|]. unfold cache_log in *. rewrite omap_app in H2. by eapply steady_app.
Qed.
Lemma lifted_clock (start : time) (g : list (answered cacheCall)) (h : list (answered gwCall)) :
  gw_clock start (map (lift_answered (fun R c => OnCache c)) g ++ h) = gw_clock start h.
Proof. by induction g as [|[R c r] g IH]. Qed.

Section clocked.
  Variable wild : Z -> Z.
  Variable parseHost : string -> string -> option string.
  Variable ToLower : string -> string.
  Variable s : Settings.
  Variable credential : option Credential.

(** A request ends, and takes no time the client counts. *)
Lemma Do_ends (start : time) (req : Request) h log a :
  runs (Do wild parseHost ToLower 301 s credential req) h log a -> one_clock start log ->
  a <> None /\ gw_clock start log = gw_clock start h.
Proof.
  intros H Hc. unfold Do in H. apply runs_gtry in H as (b & h1 & Hb & H).
  assert (b <> None /\ gw_clock start h1 = gw_clock start h) as [Hn Hk].
  { assert (exists g, log = g ++ h1) as [g ->].
    { destruct b as [[x|e]|]; [by eapply runs_grows|by destruct H as [_ <-]; exists []..]. }
    apply one_clock_app in Hc. unfold build in Hb. destruct (newRequest _ _ _ _ _) as [r|]; [|by destruct Hb as [<- <-]].
    destruct credential as [cred|]; [|by destruct Hb as [<- <-]].
    destruct (checkPlaintext _ _) as [loopback|]; [|by destruct Hb as [<- <-]].
    apply runs_gtry in Hb as (x & h2 & Hx & Hb).
    assert (exists g2, h1 = g2 ++ h2) as [g2 Hg2].
    { destruct x as [[x|e]|]; [by eapply runs_grows|by destruct Hb as [_ <-]; exists []..]. }
    rewrite Hg2 in Hc. apply one_clock_app in Hc as [_ Hc].
    assert (x <> None /\ gw_clock start h2 = gw_clock start h) as [Hxn Hxk].
    { destruct cred as [t|user password|]; [by destruct Hx as [<- <-]..|]. cbn [applyCredential] in Hx.
      apply runs_gtry in Hx as (y & h3 & Hy & Hx). apply runs_bind in Hy as (z & h4 & Hz & [<- <-]).
      apply (runs_lift _ _ _ _ (cache_log h)) in Hz as (g3 & Hz & ->).
      assert (h2 = map (lift_answered (fun R c => OnCache c)) g3 ++ h) as ->.
      { destruct z as [[t|e]|]; [by destruct Hx as [_ <-]|by destruct Hx as [_ <-]..]. }
      rewrite lifted_clock. split; [|done]. rewrite cache_log_lift in Hc. apply (Apply_ends _ _ _ _ _ start) in Hz; [|done].
      destruct z as [[t|e]|]; [by destruct Hx as [<- _]|by destruct Hx as [-> _]|done]. }
    destruct x as [[hd|e]|]; [|by destruct Hb as [-> <-]|done].
    apply runs_bind in Hb as ([] & h5 & Hl & [<- <-]). split; [done|].
    destruct loopback; [destruct Hl as [[] [_ <-]]|destruct Hl as [_ <-]]; done. }
  destruct b as [[r|e]|]; [|destruct H as [-> <-]; done|done].
  apply runs_ask in H as [ans [<- <-]]. done.
Qed.
End clocked.

Section creating.
  Variable wild : Z -> Z.
  Variable parseHost : string -> string -> option string.
  Variable ToLower : string -> string.
  Variable s : Settings.
  Variable credential : option Credential.
  Hypothesis server_web : web_url (s_Server s).
  (** net/url reads the host it writes. *)
  Hypothesis server_read : parseHost (u_Scheme (s_Server s)) (escape_host (u_Host (s_Server s))) = Some (u_Host (s_Server s)).
  Variables (ns svc key : string) (body : option string).

Abbreviation the_create := (create_request ns svc body key).

(** What an answer to the create says. *)
Definition create_answer (ans : option gwAnswer) : Created + gwErr :=
  match judge ToLower credential ans with inr e => inr e | inl a => read_created a end.
Definition unsettled (x : httpRequest * option gwAnswer) : Prop :=
  exists e, create_answer x.2 = inr e /\ CreateIndeterminate e = true.
(** The create, whatever credential it carries. *)
Definition same_create (r : httpRequest) : Prop :=
  addressed s the_create r /\ hr_Header r !! "Idempotency-Key"%string = Some [key].

Lemma create_shape h log (r : gres Created) :
  runs (create wild parseHost ToLower 301 s credential the_create) h log r ->
  exists g, Forall quiet g /\
    ((log = g ++ h /\ forall c, r <> done c) \/
     exists rq ans, log = At (Send rq) ans :: g ++ h /\ r = Some (create_answer ans) /\ same_create rq).
Proof.
  intros H. unfold create in H. apply runs_gtry in H as (a & h1 & Ha & H).
  assert (log = h1 /\ r = match a with None => None | Some (inr e) => fails e | Some (inl a) => Some (read_created a) end)
    as [-> ->].
  { destruct a as [[a|e]|]; destruct H as [H1 H2]; split; congruence. }
  apply Do_shape in Ha as [_ (g & Hq & Ha)]; [|done..]. exists g. split; [done|].
  destruct Ha as [[-> Hn]|(rq & ans & -> & -> & Had & Hs)].
  - left. split; [done|]. destruct a as [[a|e]|]; [by destruct (Hn a)|done..].
  - right. exists rq, ans. split; [done|]. split; [unfold create_answer; by destruct (judge _ _ _)|]. split; [done|].
    destruct Hs as [(_ & -> & _)|(cred & v & _ & -> & _)]; [done|].
    unfold header_set. by rewrite lookup_insert_ne.
Qed.

Lemma create_answer_named (ans : option gwAnswer) (c : Created) : create_answer ans = inl c -> cr_ID c <> EmptyString.
Proof using.
  unfold create_answer, read_created. destruct (judge _ _ _) as [g|]; [|done].
  destruct (readBounded _) as [raw|[|]]; [|done..].
  destruct (v ← parse_json raw; to_created v) as [[id state]|]; [|done]. destruct (empty id) eqn:Ei; [done|].
  intros [= <-]. by apply empty_false in Ei.
Qed.

(** A pause between two attempts: a look at the clock, or a wait. *)
Definition pause (x : answered gwCall) : Prop :=
  match x with At Clock _ | At (Wait _) _ => True | _ => False end.

(** How a create ends: with what its last attempt came to, and nothing else.  The
    attempt is the newest calls of the log but for a pause: it was sent, as its
    last call, and the result is what the answer says, or it was not sent and
    failed.  A pause follows only a failure that leaves the result unknown, which
    is the failure returned, be the window over or the wait interrupted. *)
Definition create_ended (log : list (answered gwCall)) (a : gres Created) : Prop :=
  exists after g before, log = after ++ g ++ before /\ Forall pause after /\
    (after <> [] -> exists e, a = fails e /\ CreateIndeterminate e = true) /\
    runs (create wild parseHost ToLower 301 s credential the_create) before (g ++ before) a /\
    ((exists rq ans g', g = At (Send rq) ans :: g' /\ Forall quiet g' /\ a = Some (create_answer ans)) \/
     (Forall quiet g /\ forall c, a <> done c)).

Lemma create_loop_ended (fuel : nat) (deadline : time) (wait : duration) h log r :
  runs (create_loop wild parseHost ToLower 301 s credential fuel the_create deadline wait) h log r ->
  r = None \/ create_ended log r.
Proof.
  revert wait h. induction fuel as [|fuel IH]; intros wait h H; cbn [create_loop] in H; [left; destruct H as [H _]; symmetry; exact H|].
  apply runs_bind in H as (x & h1 & Hx & H). pose proof (create_shape _ _ _ Hx) as (g & Hq & Hs).
  assert (exists g1, h1 = g1 ++ h /\
    ((exists rq ans g', g1 = At (Send rq) ans :: g' /\ Forall quiet g' /\ x = Some (create_answer ans)) \/
     (Forall quiet g1 /\ forall c, x <> done c))) as (g1 & -> & Hg1).
  { destruct Hs as [[-> Hn]|(rq & ans & -> & -> & _)]; [exists g; split; [reflexivity|right; split; [exact Hq|exact Hn]]|].
    exists (At (Send rq) ans :: g). split; [reflexivity|]. left. exists rq, ans, g. split; [reflexivity|]. split; [exact Hq|reflexivity]. }
  assert (forall after, Forall pause after -> (after <> [] -> exists e, x = fails e /\ CreateIndeterminate e = true) ->
    r = x -> log = after ++ g1 ++ h -> create_ended log r) as Hend.
  { intros after Ha He -> ->. exists after, g1, h. split; [reflexivity|]. split; [exact Ha|]. split; [exact He|].
    split; [exact Hx|exact Hg1]. }
  destruct x as [[c|e]|]; [|destruct (CreateIndeterminate e) eqn:Ee; cbn [negb] in H|];
    try (right; destruct H as [Hr Hl]; apply (Hend []); [constructor|intros Hn; by destruct Hn|symmetry; exact Hr|symmetry; exact Hl]).
  apply runs_ask in H as [now H]. destruct (time_sub deadline now <=? 0).
  { right. destruct H as [Hr Hl]. apply (Hend [At Clock now]); [repeat constructor| |symmetry; exact Hr|symmetry; exact Hl]. intros _. exists e. split; [reflexivity|exact Ee]. }
  apply runs_ask in H as [sl H]. destruct sl; cbn [negb] in H; [eapply IH; exact H|].
  right. destruct H as [Hr Hl]. eapply (Hend [_; _]); [| |symmetry; exact Hr|symmetry; exact Hl]; [repeat constructor|].
  intros _. exists e. split; [reflexivity|exact Ee].
Qed.

Lemma create_loop_result (fuel : nat) (deadline : time) (wait : duration) h log r :
  runs (create_loop wild parseHost ToLower 301 s credential fuel the_create deadline wait) h log r ->
  exists xs, exchanges log = xs ++ exchanges h /\ (length xs <= fuel)%nat /\ Forall (fun x => same_create x.1) xs /\
    Forall unsettled (tail xs) /\
    match r with
    | Some (inl c) => exists rq ans xs', xs = (rq, ans) :: xs' /\ create_answer ans = inl c
    | _ => True
    end.
Proof.
  revert wait h. induction fuel as [|fuel IH]; intros wait h H; cbn [create_loop] in H.
  { destruct H as [<- <-]. exists []. by split_and!; try constructor. }
  apply runs_bind in H as (x & h1 & Hx & H). apply create_shape in Hx as (g & Hq & Hx).
  assert (exists ys, exchanges h1 = ys ++ exchanges h /\ Forall (fun x => same_create x.1) ys /\
    (ys = [] \/ exists rq ans, ys = [(rq, ans)] /\ x = Some (create_answer ans)) /\ (ys = [] -> forall c, x <> done c))
    as (ys & Hys & Hsame & Hone & Hnd).
  { destruct Hx as [[-> Hn]|(rq & ans & -> & -> & Hs)].
    - exists []. rewrite exchanges_app, (exchanges_quiet g) by done. split_and!; [done|constructor|by left|done].
    - exists [(rq, ans)]. split_and!; [|constructor; [exact Hs|constructor]|right; by exists rq, ans|done].
      change (exchanges (At (Send rq) ans :: g ++ h)) with ((rq, ans) :: exchanges (g ++ h)).
      by rewrite exchanges_app, (exchanges_quiet g). }
  clear Hx.
  assert (log = h1 /\ r = x -> exists xs, exchanges log = xs ++ exchanges h /\ (length xs <= S fuel)%nat /\
    Forall (fun x => same_create x.1) xs /\ Forall unsettled (tail xs) /\
    match r with Some (inl c) => exists rq ans xs', xs = (rq, ans) :: xs' /\ create_answer ans = inl c | _ => True end) as Hend.
  { intros [-> ->]. exists ys. split; [done|].
    destruct Hone as [->|(rq & ans & -> & ->)]; split_and!; try (simpl; lia); try done; try constructor.
    - destruct x as [[c|e]|]; [by destruct (Hnd eq_refl c)|done..].
    - destruct (create_answer ans) eqn:E; [|done]. by exists rq, ans, []. }
  destruct x as [[c|e]|]; [by destruct H as [<- <-]; apply Hend| |by destruct H as [<- <-]; apply Hend].
  destruct (CreateIndeterminate e) eqn:Ee; cbn [negb] in H; [|by destruct H as [<- <-]; apply Hend].
  apply runs_ask in H as [now H].
  assert (Forall unsettled ys) as Huns.
  { destruct Hone as [->|(rq & ans & -> & He)]; [constructor|]. injection He as He. constructor; [by exists e|constructor]. }
  assert (forall h2, exchanges h2 = exchanges h1 -> forall r', r' = fails e -> r = r' -> log = h2 ->
    exists xs, exchanges log = xs ++ exchanges h /\ (length xs <= S fuel)%nat /\
      Forall (fun x => same_create x.1) xs /\ Forall unsettled (tail xs) /\
      match r with Some (inl c) => exists rq ans xs', xs = (rq, ans) :: xs' /\ create_answer ans = inl c | _ => True end) as Hstop.
  { intros h2 Hh2 r' -> -> ->. exists ys. rewrite Hh2. split; [done|].
    assert (length ys <= S fuel)%nat as Hl by (destruct Hone as [->|(? & ? & -> & _)]; simpl; lia).
    split_and!; [done|done|by destruct Huns|done]. }
  destruct (time_sub deadline now <=? 0).
  { destruct H as [<- <-]. by apply (Hstop (At Clock now :: h1) eq_refl (fails e)). }
  apply runs_ask in H as [sl H]. destruct sl; cbn [negb] in H.
  2: { destruct H as [<- <-]. by apply (Hstop (At (Wait (Z.min wait (time_sub deadline now))) false :: At Clock now :: h1) eq_refl (fails e)). }
  apply IH in H as (xs & Hxs & Hl & Hf & Ht & Hr). exists (xs ++ ys).
  assert (length ys <= 1)%nat as Hl1 by (destruct Hone as [->|(? & ? & -> & _)]; simpl; lia).
  split_and!.
  - rewrite Hxs, <-app_assoc. f_equal. exact Hys.
  - rewrite length_app. lia.
  - by apply Forall_app.
  - destruct xs as [|x xs]; [by destruct Huns|]. apply Forall_app. by split.
  - destruct r as [[c|e']|]; [|done..]. destruct Hr as (rq & ans & xs' & -> & Hc). by exists rq, ans, (xs' ++ ys).
Qed.

(** What the rounds left wait for together. *)
Fixpoint waits (fuel : nat) (wait : duration) : duration :=
  match fuel with
  | O | 1%nat => 0
  | S fuel => wait + waits fuel (Z.min (2 * wait) createRetryMax)
  end.
Lemma waits_nonneg (fuel : nat) (wait : duration) : 0 <= wait -> 0 <= waits fuel wait.
Proof using.
  revert wait. induction fuel as [|[|fuel] IH]; intros wait Hw; [done..|].
  change (0 <= wait + waits (S fuel) (Z.min (2 * wait) createRetryMax)).
  assert (0 <= waits (S fuel) (Z.min (2 * wait) createRetryMax)); [|lia]. apply IH. unfold createRetryMax, second. lia.
Qed.

Lemma create_loop_out (start : time) (fuel : nat) (deadline : time) (wait : duration) h log :
  0 < wait <= createRetryMax -> in_int64 deadline ->
  runs (create_loop wild parseHost ToLower 301 s credential fuel the_create deadline wait) h log None ->
  one_clock start log -> fuel = O \/ gw_clock start h + waits fuel wait < deadline.
Proof using.
  revert wait h. induction fuel as [|fuel IH]; intros wait h Hw Hd H Hc; [by left|right]. cbn [create_loop] in H.
  apply runs_bind in H as (x & h1 & Hx & H). assert (exists g, log = g ++ h1) as [g Hg] by by eapply runs_grows.
  assert (x <> None /\ gw_clock start h1 = gw_clock start h) as [Hn Hk].
  { rewrite Hg in Hc. apply one_clock_app in Hc. unfold create in Hx. apply runs_gtry in Hx as (a & h2 & Ha & Hx).
    assert (h1 = h2 /\ x = match a with None => None | Some (inr e) => fails e | Some (inl a) => Some (read_created a) end)
      as [-> ->] by (destruct a as [[a|e]|]; destruct Hx as [Hx1 Hx2]; rewrite ?Hx1, ?Hx2; (split; reflexivity) || (split; congruence)).
    apply (Do_ends _ _ _ _ _ start) in Ha as [Ha Hk]; [|exact Hc]. split; [|exact Hk].
    destruct a as [[a|e]|]; [discriminate..|destruct (Ha eq_refl)]. }
  destruct x as [[c|e]|]; [destruct H; discriminate| |destruct (Hn eq_refl)]. destruct (negb _); [destruct H; discriminate|].
  apply runs_ask in H as [now H]. destruct (time_sub deadline now <=? 0) eqn:Er; [destruct H; discriminate|]. to_prop.
  apply runs_ask in H as [[|] H]; cbn [negb] in H; [|destruct H; discriminate].
  assert (exists g2, log = g2 ++ At (Wait (Z.min wait (time_sub deadline now))) true :: At Clock now :: h1) as [g2 Hg2]
    by by eapply runs_grows.
  pose proof Hc as Hc2. rewrite Hg2 in Hc2. apply one_clock_app in Hc2 as [Hc2 _]. cbn [gw_steady] in Hc2.
  destruct Hc2 as [Hnow _]. rewrite Hk in Hnow. pose proof (proj1 (time_sub_pos _ _) Er) as Hlt.
  assert (wait *! 2 = 2 * wait) as Hw2 by (unfold createRetryMax, second in Hw; rewrite wrap64_id by in64; lia).
  rewrite Hw2 in H. apply IH in H; [|unfold createRetryMax, second in *; lia|done|done].
  destruct fuel as [|fuel]; [cbn [waits]; lia|]. destruct H as [H|H]; [discriminate H|]. cbn [gw_clock] in H.
  change (waits (S (S fuel)) wait) with (wait + waits (S fuel) (Z.min (2 * wait) createRetryMax)).
  assert (0 <= waits (S fuel) (Z.min (2 * wait) createRetryMax)) as Hnn
    by (apply waits_nonneg; unfold createRetryMax, second in *; lia).
  set (w := waits _ _) in *. clearbody w.
  assert (time_sub deadline now = deadline - now \/ wait <= time_sub deadline now) as Hs.
  { unfold time_sub, max_int64, min_int64, createRetryMax, second in *. lia. }
  destruct Hs as [Hs|Hs]; [rewrite Hs in H|]; lia.
Qed.

(** A run of more rounds is one of fewer, or goes on from where those ran out. *)
Lemma create_loop_cut (n fuel : nat) (deadline : time) (wait : duration) h log r :
  (n <= fuel)%nat ->
  runs (create_loop wild parseHost ToLower 301 s credential fuel the_create deadline wait) h log r ->
  runs (create_loop wild parseHost ToLower 301 s credential n the_create deadline wait) h log r \/
  exists g log', log = g ++ log' /\
    runs (create_loop wild parseHost ToLower 301 s credential n the_create deadline wait) h log' None.
Proof using.
  revert fuel wait h. induction n as [|n IH]; intros fuel wait h Hle H.
  { right. destruct (runs_grows _ _ _ _ H) as [g ->]. exists g, h. split; [reflexivity|split; reflexivity]. }
  destruct fuel as [|fuel]; [lia|]. cbn [create_loop] in H |- *.
  apply runs_bind in H as (x & h1 & Hx & H).
  assert (forall log' r', runs (match x with
      | Some (inr e) =>
          if negb (CreateIndeterminate e) then mret (fails e)
          else now ← ask Clock;
               let remaining := time_sub deadline now in
               if remaining <=? 0 then mret (fails e)
               else slept ← ask (Wait (Z.min wait remaining));
                    if negb (slept : bool) then mret (fails e)
                    else create_loop wild parseHost ToLower 301 s credential n the_create deadline (Z.min (wait *! 2) createRetryMax)
      | _ => mret x
      end) h1 log' r' ->
    runs (create_loop wild parseHost ToLower 301 s credential (S n) the_create deadline wait) h log' r') as Hback.
  { intros log' r' Hr. apply (runs_bind (create wild parseHost ToLower 301 s credential the_create)). exists x, h1. split; [exact Hx|exact Hr]. }
  destruct x as [[c|e]|]; [left; apply Hback; exact H| |left; apply Hback; exact H].
  destruct (CreateIndeterminate e) eqn:Ee; cbn [negb] in H; [|left; apply Hback; exact H].
  cbn [negb] in Hback. apply runs_ask in H as [now H].
  destruct (time_sub deadline now <=? 0) eqn:Er.
  { left. apply Hback. exists now. cbn [mbind itx_mbind itx_bind]. cbv zeta. rewrite Er. exact H. }
  apply runs_ask in H as [sl H]. destruct sl; cbn [negb] in H.
  2: { left. apply Hback. exists now. cbn [mbind itx_mbind itx_bind]. cbv zeta. rewrite Er. exists false. exact H. }
  apply IH in H as [H|(g & log' & -> & H)]; [| |lia].
  - left. apply Hback. exists now. cbn [mbind itx_mbind itx_bind]. cbv zeta. rewrite Er. exists true. exact H.
  - right. exists g, log'. split; [reflexivity|]. apply Hback. exists now. cbn [mbind itx_mbind itx_bind]. cbv zeta. rewrite Er. exists true. exact H.
Qed.

(** C28: a create is one request, sent again and again under its one key only while
    the answers leave its result unknown, and what it comes to is what its last
    attempt came to: what the answer to it says, a Collection with its identifier
    or an error, or the error it met before it was sent.  An interrupted wait and
    a window that is over return that attempt's own failure.  On a clock that
    does not run backwards the window ends it after seven attempts at most,
    whatever the fuel, and with that much fuel it does end. *)
Theorem Create_settles (fuel : nat) (log : list (answered gwCall)) (a : gres Created)
    (Hr : runs (Create wild parseHost ToLower 301 s credential fuel ns svc body key) [] log a) :
  Forall (fun x => same_create x.1) (exchanges log) /\
  Forall unsettled (tail (exchanges log)) /\
  (a = None \/ create_ended log a) /\
  (forall c, a = done c -> cr_ID c <> EmptyString) /\
  (forall start, one_clock start log -> (forall now, At Clock now ∈ log -> 0 <= now <= max_int64 - createRetryWindow) ->
    (length (exchanges log) <= 7)%nat /\ ((7 <= fuel)%nat -> a <> None)).
Proof.
  unfold Create in Hr. apply runs_ask in Hr as [now Hr].
  pose proof (create_loop_result _ _ _ _ _ _ Hr) as (xs & Hxs & H1 & H2 & H3 & H4). rewrite app_nil_r in Hxs. rewrite Hxs.
  split_and!; [done|done|by eapply create_loop_ended| |].
  - intros c ->. destruct H4 as (rq & ans & xs' & _ & H). by apply create_answer_named in H.
  - intros start Hc Hnow.
    assert (At Clock now ∈ log) as Hin.
    { destruct (runs_grows _ _ _ _ Hr) as [g ->]. apply elem_of_app. right. left. }
    specialize (Hnow now Hin).
    assert (in_int64 (now + createRetryWindow)) as Hd.
    { unfold in_int64, max_int64, min_int64, createRetryWindow, second in Hnow |- *. lia. }
    assert (forall log', one_clock start log' ->
      ~ runs (create_loop wild parseHost ToLower 301 s credential 7 the_create (now + createRetryWindow) createRetryFirst)
          [At Clock now] log' None) as Hin7.
    { intros log' Hc' H. apply (create_loop_out start) in H; [|split; [reflexivity|discriminate]|exact Hd|exact Hc'].
      cbn [gw_clock] in H. destruct H as [H|H]; [done|].
      assert (createRetryWindow < waits 7 createRetryFirst) as Hw by (apply Z.ltb_lt; vm_compute; reflexivity). lia. }
    destruct (Nat.le_gt_cases 7 fuel) as [Hf|Hf]; [|split; [lia|intros ?; lia]].
    destruct (create_loop_cut 7 _ _ _ _ _ _ Hf Hr) as [H7|(g & log' & -> & H7)].
    + split; [|intros _ ->; by apply (Hin7 log)].
      apply create_loop_result in H7 as (ys & Hys & Hl & _). rewrite app_nil_r, Hxs in Hys. by subst ys.
    + destruct (Hin7 log'); [by eapply one_clock_app|done].
Qed.
End creating.

(** ** Instances *)

Definition created_answer : gwAnswer :=
  {| ga_Status := 202; ga_Header := {[ "Location"%string := ["/v1/collections/0123456789abcdefghjk"%string] ]};
     ga_Body := Some (print (JObj [("id"%string, JStr "0123456789abcdefghjk"); ("state"%string, JStr "pending")])) |}.
(** A gateway whose first answer is lost. *)
Definition demo_lossy (R : Type) (c : gwCall R) (h : list (answered gwCall)) : R :=
  match c in gwCall R return R with
  | OnCache c => demo_cache _ c (cache_log h)
  | ReadTokenFile _ | ReadStdin _ | PromptPassword _ => None
  | Warn _ => tt
  | Send _ => match exchanges h with [] => None | _ => Some created_answer end
  | Clock => gw_clock 0 h
  | Wait _ => true
  | ShowProgress _ _ _ _ => tt
  end.
Definition demo_token : option Credential := Some (TokenOf "t").
Definition demo_create : gres Created * list (answered gwCall) :=
  run demo_lossy (Create no_wild any_host lower 301 demo_settings demo_token 7 "shop" "cart" None "k1") [].

Example demo_created : option_map (fun r => match r with inl c => cr_ID c | inr _ => "-"%string end) demo_create.1 =
  Some "0123456789abcdefghjk"%string /\ length (exchanges demo_create.2) = 2%nat /\
  map (fun x => URLString (hr_URL x.1)) (exchanges demo_create.2) =
    ["https://gw.example/v1/namespaces/shop/services/cart/collections";
     "https://gw.example/v1/namespaces/shop/services/cart/collections"]%string.
Proof. by vm_compute. Qed.

Lemma demo_server_web : web_url (s_Server demo_settings).
Proof. apply (parseServer_web any_host "https://gw.example"). vm_compute. reflexivity. Qed.

Lemma Create_settles_witness :
  ((length (exchanges demo_create.2) <= 7)%nat /\ demo_create.1 <> None) /\
  Forall (fun x => hr_Header x.1 !! "Idempotency-Key"%string = Some ["k1"%string]) (exchanges demo_create.2).
Proof.
  destruct (Create_settles no_wild any_host lower demo_settings demo_token demo_server_web eq_refl "shop" "cart" "k1" None
    7 demo_create.2 demo_create.1
    (run_runs demo_lossy (Create no_wild any_host lower 301 demo_settings demo_token 7 "shop" "cart" None "k1") []))
    as (H1 & _ & _ & _ & H2).
  split.
  - destruct (H2 0) as [H3 H4]; [split; vm_compute; repeat split; discriminate| |split; [exact H3|apply H4; lia]].
    set (chk := fun x : answered gwCall =>
      match x with At Clock t => (0 <=? t) && (t <=? max_int64 - createRetryWindow) | _ => true end).
    assert (forallb chk demo_create.2 = true) as Hall by (vm_compute; reflexivity).
    intros now Hnow. rewrite forallb_forall in Hall. pose proof (Hall _ (proj1 (list_elem_of_In _ _) Hnow)) as Hc.
    apply andb_true_iff in Hc as [Hlo Hhi]. split; [exact (Zle_bool_imp_le _ _ Hlo)|exact (Zle_bool_imp_le _ _ Hhi)].
  - eapply Forall_impl; [exact H1|]. intros x [_ H]. exact H.
Defined.

(** ** A create that is misjudged *)

(** An issuer that cannot be reached, of a token that needs it. *)
Definition issuer_down (R : Type) (c : gwCall R) (h : list (answered gwCall)) : R :=
  match c in gwCall R return R with
  | OnCache c =>
      match c in cacheCall R return R with
      | OnIssuer c =>
          match c in issuerCall R return R with
          | SendGet _ | SendPost _ _ => None
          | ClientIssuer.Clock => 0
          | Sleep _ => true
          | CtxDone => false
          | Entropy => None
          end
      | c => demo_cache _ c (cache_log h)
      end
  | ReadTokenFile _ | ReadStdin _ | PromptPassword _ => None
  | Warn _ => tt
  | Send _ => Some created_answer
  | Clock => gw_clock 0 h
  | Wait _ => true
  | ShowProgress _ _ _ _ => tt
  end.
(** A token without a refresh token that runs out after the first attempt, whose
    answer is lost. *)
Definition expiring_entry : Entry :=
  {| e_Origin := "https://gw.example:443"; e_Issuer := "https://id.example"; e_ClientID := "cli"; e_TokenType := "access";
     e_Token := "t0"; e_ExpiresAt := 300 * second; e_RefreshToken := ""; e_RefreshExpiresAt := zero_time; e_ObtainedAt := 0 |}.
Definition token_expires (R : Type) (c : gwCall R) (h : list (answered gwCall)) : R :=
  match c in gwCall R return R with
  | OnCache c =>
      match c in cacheCall R return R with
      | ReadEntry _ => Found expiring_entry
      | TokenCache.Now => match exchanges h with [] => 269 * second | _ => 270 * second end
      | c => demo_cache _ c (cache_log h)
      end
  | ReadTokenFile _ | ReadStdin _ | PromptPassword _ => None
  | Warn _ => tt
  | Send _ => None
  | Clock => 269 * second
  | Wait _ => true
  | ShowProgress _ _ _ _ => tt
  end.

Abbreviation the_demo := (Create no_wild any_host lower 301 demo_settings (Some Cached) 7 "shop" "cart" None "k1").

(** What decides an attempt, in the order it happened: the entry read, the clock of
    the cache, whether the issuer answered, whether the gateway did. *)
Inductive sight := SawEntry (e : Entry) | SawClock (t : time) | SawIssuer (answers : bool) | SawGateway (answers : bool).
Definition sight_of (x : answered gwCall) : option sight :=
  match x with
  | At (Send _) r => Some (SawGateway (bool_decide (is_Some r)))
  | At (OnCache (ReadEntry _)) (Found e) => Some (SawEntry e)
  | At (OnCache TokenCache.Now) t => Some (SawClock t)
  | At (OnCache (OnIssuer (SendGet _))) r => Some (SawIssuer (bool_decide (is_Some r)))
  | At (OnCache (OnIssuer (SendPost _ _))) r => Some (SawIssuer (bool_decide (is_Some r)))
  | _ => None
  end.
Definition sights (log : list (answered gwCall)) : list sight := omap sight_of (rev log).

(** C39: the test of an unknown result errs both ways, in these two ways.  A cached
    credential has to be refreshed and the issuer answers nothing: each of the
    seven attempts reads the entry, asks the issuer and sends no create, and
    what is returned is the transport failure that stands for a create whose
    result is unknown.  And a cached credential without a refresh token is still
    fresh for the first attempt, whose answer is lost, and no longer for the
    second, which is not sent: what is returned is a login that is needed, which
    stands for a create that settled, and the lost answer is not reported. *)
Theorem Create_misjudged :
  (exists e t log,
     Usable e demo_settings = true /\ fresh e t = false /\ e_RefreshToken e <> EmptyString /\
     runs the_demo [] log (fails (Failed Transport)) /\
     sights log = mjoin (repeat [SawEntry e; SawClock t; SawClock t; SawEntry e; SawClock t; SawIssuer false] 7) /\
     CreateIndeterminate (Failed Transport) = true) /\
  (exists e t1 t2 log,
     Usable e demo_settings = true /\ e_RefreshToken e = EmptyString /\ fresh e t1 = true /\ fresh e t2 = false /\
     runs the_demo [] log (fails (Failed LoginNeeded)) /\
     sights log = [SawEntry e; SawClock t1; SawGateway false; SawEntry e; SawClock t2] /\
     create_answer lower (Some Cached) None = inr (Failed Transport) /\
     CreateIndeterminate (Failed LoginNeeded) = false).
Proof.
  split.
  - exists demo_entry, (280 * second), (run issuer_down the_demo []).2.
    assert ((run issuer_down the_demo []).1 = fails (Failed Transport)) as E by (vm_compute; reflexivity).
    pose proof (run_runs issuer_down the_demo []) as H. rewrite E in H.
    split; [vm_compute; reflexivity|]. split; [vm_compute; reflexivity|]. split; [discriminate|]. split; [exact H|].
    split; vm_compute; reflexivity.
  - exists expiring_entry, (269 * second), (270 * second), (run token_expires the_demo []).2.
    assert ((run token_expires the_demo []).1 = fails (Failed LoginNeeded)) as E by (vm_compute; reflexivity).
    pose proof (run_runs token_expires the_demo []) as H. rewrite E in H.
    do 4 (split; [vm_compute; reflexivity|]). split; [exact H|]. split; [vm_compute; reflexivity|].
    split; vm_compute; reflexivity.
Qed.
