(* ===== verification/ListingWalk.v ===== *)
(** * A listing walked from the command line

    The gateway's Collection listing (src/internal/httpapi/pgo_collections.go), as
    the document it writes, and the walk of src/cmd/profgate/collect.go, together:
    what the one answers, the other reads whole. *)

From Stdlib Require Import Sorted.
From S2P Require Import Prelude Base64 Cookie Ident Keys Records Caches Timestamp Query Routes Cursor Json Utf8 Settings Url Wire UrlText.
From S2P Require Import Interaction Contexts ClientIssuer TokenCache GatewayClient ClientCollect.

(** ** The document of a page *)

(** [collectionView] and [collectionsBody], as [encoding/json] writes them.  A
    time is written in UTC: every writer of a record takes its times in UTC
    ([clock.Now().UTC()]), and reading the record back keeps their zone. *)
Definition time_member (name : string) (t : option time) : list (string * json) :=
  match t with Some t => [(name, JStr (format_rfc3339 t))] | None => [] end.
Definition text_member (name s : string) : list (string * json) :=
  if String.eqb s EmptyString then [] else [(name, JStr s)].
Definition collectionView (v : CollectionView) : json :=
  JObj ([("id"%string, JStr (vw_ID v)); ("origin"%string, JStr (origin_name (Some (vw_Origin v))));
         ("state"%string, JStr (state_name (vw_State v))); ("attempt"%string, JNum (pretty (vw_Attempt v)))]
        ++ text_member "resolvedVersion" (vw_ResolvedVersion v)
        ++ [("createdAt"%string, JStr (format_rfc3339 (vw_CreatedAt v)))]
        ++ time_member "finishedAt" (vw_FinishedAt v) ++ time_member "expiresAt" (vw_ExpiresAt v)).
Definition collectionsBody (ns svc : string) (views : list CollectionView) (next : string) : json :=
  JObj ([("namespace"%string, JStr ns); ("service"%string, JStr svc);
         ("collections"%string, JArr (map collectionView views))] ++ text_member "nextCursor" next).

(** [writeJSON]: with the newline of [Encoder.Encode]. *)
Definition writeJSON (status : Z) (body : json) : gwAnswer :=
  {| ga_Status := status; ga_Header := header_set "Content-Type" "application/json" ∅;
     ga_Body := Some (print body +:+ String newline EmptyString) |}.

(** What the gateway answers to a request for a listing that was let in; refusals
    of the request are not written out. *)
Section gateway.
  Variable IsDNS1123Label : string -> bool.
  Variables (cur g : N) (c : Caches).

Definition refused_with (status : Z) : gwAnswer := {| ga_Status := status; ga_Header := ∅; ga_Body := None |}.
Definition listing_answer (r : httpRequest) : gwAnswer :=
  match match_path IsDNS1123Label (u_Path (hr_URL r)) with
  | None => refused_with 404
  | Some (rt, _) =>
      if negb (bool_decide (rt_kind rt = kindCollections) && String.eqb (hr_Method r) MethodGet) then refused_with 405
      else
        match parseCollectionList (u_RawQuery (hr_URL r)) with
        | inr _ => refused_with 400
        | inl q =>
            match serveCollectionList cur g (rt_namespace rt) (rt_service rt) q c with
            | None => refused_with 503
            | Some (views, next) => writeJSON 200 (collectionsBody (rt_namespace rt) (rt_service rt) views next)
            end
        end
  end.
End gateway.

(** ** The document read *)

Lemma parse_json_line (v : json) : Json.writable 0 v = true -> parse_json (print v +:+ String newline EmptyString) = Some (to_valid_json v).
Proof.
  intros Hw. unfold parse_json, parse_prefix, json_fuel. rewrite (skip_ws_start _ _ (print_start _ _ Hw)).
  rewrite value_read; [done|done| |done]. rewrite str_length_app. lia.
Qed.

Lemma encode_graphic (s : string) : all_bytes graphic (b64_encode s) = true.
Proof.
  assert (forall v, graphic (b64_char url_alphabet v) = true) as Hc by (intros v; by apply nth_graphic).
  unfold b64_encode. induction s as [|a|a b|a b c s IH] using string_triples; cbn [encode_with all_bytes]; rewrite ?Hc; try done.
Qed.
Lemma graphic_valid (s : string) : all_bytes graphic s = true -> to_valid s = s.
Proof.
  intros H. apply valid_ascii. eapply all_bytes_mono; [|exact H]. intros c Hc. apply andb_true_iff in Hc as [_ Hc]. exact Hc.
Qed.

(** The row of a record, as the table prints it. *)
Definition row_of (v : CollectionView) : list string :=
  [to_valid (vw_ID v); to_valid (state_name (vw_State v)); to_valid (origin_name (Some (vw_Origin v)));
   to_valid (format_rfc3339 (vw_CreatedAt v))].
Definition summary_of (v : CollectionView) : CollectionSummary :=
  {| cs_ID := to_valid (vw_ID v); cs_State := to_valid (state_name (vw_State v));
     cs_Origin := to_valid (origin_name (Some (vw_Origin v))); cs_CreatedAt := to_valid (format_rfc3339 (vw_CreatedAt v)) |}.

Lemma view_read (v : CollectionView) :
  to_struct ["id"; "state"; "origin"; "createdAt"]%string set_summary no_summary (to_valid_json (collectionView v)) =
  Some (summary_of v).
Proof.
  unfold collectionView, text_member, time_member.
  destruct (String.eqb (vw_ResolvedVersion v) EmptyString), (vw_FinishedAt v), (vw_ExpiresAt v); reflexivity.
Qed.

Lemma views_read (l : list CollectionView) :
  over_elements (fun c => to_struct ["id"; "state"; "origin"; "createdAt"]%string set_summary c) no_summary []
    (map to_valid_json (map collectionView l)) = Some (map summary_of l).
Proof.
  induction l as [|v l IH]; [done|]. cbn [map over_elements]. change (default no_summary (head [])) with no_summary.
  rewrite view_read. cbn [mbind option_bind tail]. rewrite IH. done.
Qed.

Lemma body_members (ns svc : string) (v : json) (m : list (string * json)) :
  to_collections (JObj ([("namespace"%string, JStr ns); ("service"%string, JStr svc); ("collections"%string, v)] ++ m)) =
  (x ← to_summaries [] v;
   read_struct ["collections"; "nextCursor"]%string set_collections m {| cs_Collections := x; cs_NextCursor := "" |}).
Proof.
  set (names := ["collections"; "nextCursor"]%string).
  assert (field_of names "namespace" = None) as H1 by (vm_compute; reflexivity).
  assert (field_of names "service" = None) as H2 by (vm_compute; reflexivity).
  assert (field_of names "collections" = Some "collections"%string) as H3 by (vm_compute; reflexivity).
  unfold to_collections. fold names. cbn [to_struct app read_struct]. rewrite H1, H2, H3. clearbody names.
  assert (forall z, set_collections z "collections" v = x ← to_summaries (cs_Collections z) v;
    Some {| cs_Collections := x; cs_NextCursor := cs_NextCursor z |}) as H4 by reflexivity.
  rewrite H4. cbn [cs_Collections cs_NextCursor]. by destruct (to_summaries [] v).
Qed.

Lemma body_read (ns svc : string) (l : list CollectionView) (next : string) :
  all_bytes graphic next = true ->
  to_collections (to_valid_json (collectionsBody ns svc l next)) =
  Some {| cs_Collections := map summary_of l; cs_NextCursor := next |}.
Proof.
  intros Hn. unfold collectionsBody, text_member.
  assert (to_summaries [] (JArr (map to_valid_json (map collectionView l))) = Some (map summary_of l)) as Hl by apply views_read.
  set (w := JArr (map to_valid_json (map collectionView l))) in Hl.
  transitivity (to_collections (JObj ([("namespace"%string, JStr (to_valid ns)); ("service"%string, JStr (to_valid svc));
    ("collections"%string, w)] ++
    (if String.eqb next EmptyString then [] else [("nextCursor"%string, JStr (to_valid next))])))).
  { by destruct (String.eqb next EmptyString). }
  rewrite body_members, Hl. cbn [mbind option_bind]. destruct (String.eqb next EmptyString) eqn:E.
  - by apply String.eqb_eq in E as ->.
  - rewrite graphic_valid by done. reflexivity.
Qed.

Lemma body_writable (ns svc : string) (l : list CollectionView) (next : string) :
  Forall (fun v => 0 <= vw_Attempt v) l -> Json.writable 0 (collectionsBody ns svc l next) = true.
Proof.
  intros H. unfold collectionsBody, text_member.
  assert (forallb (Json.writable 2) (map collectionView l) = true) as Hl.
  { induction H as [|v l Hv _ IH]; [done|]. cbn [map forallb]. rewrite IH, andb_true_r.
    unfold collectionView, text_member, time_member.
    destruct (String.eqb (vw_ResolvedVersion v) EmptyString), (vw_FinishedAt v), (vw_ExpiresAt v);
      cbn [Json.writable app forallb snd]; by rewrite bool_decide_true by by apply parse_number_pretty. }
  destruct (String.eqb next EmptyString); cbn [Json.writable app forallb snd];
    change (0 + 1) with 1; change (1 + 1) with 2; by rewrite Hl.
Qed.

(** ** The request of a page *)

Lemma unescape_query_byte (c : ascii) (s : string) :
  QueryUnescape (escape_char encodeQueryComponent c +:+ s) = String c <$> QueryUnescape s.
Proof. destruct c as [[] [] [] [] [] [] [] []]; reflexivity. Qed.
Lemma query_unescape_escape (s : string) : QueryUnescape (QueryEscape s) = Some s.
Proof.
  unfold QueryEscape. induction s as [|c s IH]; [done|]. cbn [escape]. by rewrite unescape_query_byte, IH.
Qed.
Definition pair_byte (c : ascii) : bool := negb (one_of c "&;=").
Lemma query_escape_plain (s : string) : all_bytes pair_byte (QueryEscape s) = true.
Proof.
  unfold QueryEscape. induction s as [|c s IH]; [done|]. cbn [escape]. rewrite all_bytes_app, IH, andb_true_r. clear IH s.
  revert c. apply (on_bytes (fun c => all_bytes pair_byte (escape_char encodeQueryComponent c))). vm_compute. reflexivity.
Qed.

(** One parameter, written and read. *)
Lemma ParseQuery_one (k v : string) : k <> EmptyString -> ParseQuery (Encode {[ k := [v] ]}) = Some {[ k := [v] ]}.
Proof.
  intros Hk.
  assert (Encode {[ k := [v] ]} = QueryEscape k +:+ String "=" (QueryEscape v)) as ->.
  { unfold Encode, sorted_names. rewrite dom_singleton_L, elements_singleton. cbn. by rewrite lookup_singleton_eq. }
  set (ek := QueryEscape k). set (ev := QueryEscape v).
  assert (forall b, pair_byte b = false -> Ascii.eqb b "=" = false -> has_byte b (ek +:+ String "=" ev) = false) as Hb.
  { intros b H1 H2. apply no_byte_app; [by eapply all_bytes_no_byte; [apply query_escape_plain|]|].
    cbn [has_byte]. rewrite decide_False by (intros <-; done). by eapply all_bytes_no_byte; [apply query_escape_plain|]. }
  unfold ParseQuery. rewrite split_at_no_sep by by apply Hb. cbn [foldl]. unfold parse_pair.
  rewrite Hb by done. destruct (String.eqb_spec (ek +:+ String "=" ev) EmptyString) as [E|_].
  { exfalso. apply (f_equal String.length) in E. rewrite str_length_app in E. simpl in E. lia. }
  unfold cut_pair. rewrite cut_app by (by eapply all_bytes_no_byte; [apply query_escape_plain|]).
  unfold ek, ev. rewrite !query_unescape_escape. rewrite lookup_empty. done.
Qed.

(** The bytes of a name and of a path of names. *)
Definition name_byte (c : ascii) : bool := is_lower_alnum c || Ascii.eqb c "-".
Definition names_byte (c : ascii) : bool := name_byte c || Ascii.eqb c "/".

Lemma plain_escape (s : string) : all_bytes names_byte s = true -> escape encodePath s = s.
Proof.
  induction s as [|c s IH]; [done|]. cbn [all_bytes escape]. intros [Hc Hs]%andb_true_iff. rewrite IH by done.
  assert (escape_char encodePath c = String c EmptyString) as ->; [|done].
  apply (bool_decide_eq_true_1 _). revert Hc. apply implb_true_iff.
  revert c. apply on_bytes. vm_compute. reflexivity.
Qed.
Lemma plain_unescape (s : string) : all_bytes names_byte s = true -> unescape s = Some s.
Proof. intros H. rewrite <-(plain_escape s H) at 1. apply unescape_escape. Qed.

Definition segment (e : string) : Prop := e <> EmptyString /\ all_bytes name_byte e = true.

Lemma label_segment (s : string) : isDNSLabel s = true -> segment s.
Proof.
  unfold isDNSLabel. intros [_ H]%andb_true_iff. unfold hyphenated in H. destruct s as [|c s]; [done|].
  destruct (last_byte _); [|done]. split; [done|]. by apply andb_true_iff in H as [_ H].
Qed.
Lemma segment_no_slash (e : string) : segment e -> has_byte "/" e = false.
Proof. intros [_ H]. by eapply all_bytes_no_byte. Qed.

Lemma segment_path_escape (s : string) : segment s -> PathEscape s = s.
Proof.
  intros [_ H]. induction s as [|c s IH]; [done|]. cbn [all_bytes PathEscape] in *. apply andb_true_iff in H as [Hc Hs].
  rewrite IH by done. assert (segment_escape c = String c EmptyString) as ->; [|done].
  apply (bool_decide_eq_true_1 _). revert Hc. apply implb_true_iff. revert c. apply on_bytes. vm_compute. reflexivity.
Qed.

Lemma last_byte_app (s : string) (c : ascii) : last_byte (s +:+ String c EmptyString) = Some c.
Proof.
  unfold last_byte. rewrite str_length_app. cbn [String.length]. rewrite Nat.add_sub.
  induction s as [|d s IH]; [done|]. exact IH.
Qed.

(** A rooted path of segments, with a slash before it, is clean but for the slash. *)
Lemma clean_go_segments (kept l : list string) : Forall segment l -> clean_go kept l = rev l ++ kept.
Proof.
  intros H. revert kept. induction H as [|e l [He Hb] _ IH]; intros kept; [done|]. cbn [clean_go].
  assert (String.eqb e EmptyString = false) as -> by by apply String.eqb_neq.
  assert (String.eqb e "." = false) as -> by (apply String.eqb_neq; by intros ->).
  assert (String.eqb e ".." = false) as -> by (apply String.eqb_neq; by intros ->).
  cbn [orb]. rewrite IH. cbn [rev]. by rewrite <-app_assoc.
Qed.
Lemma split_segments (l : list string) : l <> [] -> Forall segment l -> split_at "/" (join_with "/" l) = l.
Proof.
  intros Hl H. rewrite split_at_join by done. clear Hl. induction H as [|e l He _ IH]; [done|].
  cbn [fmap list_fmap mjoin list_join]. rewrite split_at_no_sep by by apply segment_no_slash.
  cbn. f_equal. exact IH.
Qed.
Lemma Clean_rooted (l : list string) :
  l <> [] -> Forall segment l -> Clean ("//" +:+ String "/" (join_with "/" l)) = String "/" (join_with "/" l).
Proof.
  intros Hl H. unfold Clean. change (cut_prefix "/" ("//" +:+ String "/" (join_with "/" l))) with
    (Some (String "/" (String "/" (join_with "/" l)))). cbn [default id split_at].
  rewrite !decide_True by done. rewrite split_segments by done. cbn [clean_go String.eqb orb].
  rewrite clean_go_segments by done. by rewrite app_nil_r, rev_involutive.
Qed.

Definition listing_segments (ns svc : string) : list string := ["v1"; "namespaces"; ns; "services"; svc; "collections"]%string.
Definition listing_path (ns svc : string) : string := String "/" (join_with "/" (listing_segments ns svc)).

Lemma listing_segments_ok (ns svc : string) : segment ns -> segment svc -> Forall segment (listing_segments ns svc).
Proof. intros Hn Hs. repeat (constructor; [done|]). by constructor. Qed.
Lemma collectionsPath_listing (ns svc : string) :
  segment ns -> segment svc -> collectionsPath ns svc = listing_path ns svc.
Proof. intros Hn Hs. unfold collectionsPath. by rewrite !segment_path_escape. Qed.
Lemma listing_path_bytes (ns svc : string) : segment ns -> segment svc -> all_bytes names_byte (listing_path ns svc) = true.
Proof.
  intros Hn Hs. unfold listing_path. cbn [all_bytes]. change (names_byte "/") with true. apply join_bytes; [done|].
  eapply Forall_impl; [by apply listing_segments_ok|]. intros e [_ He]. eapply all_bytes_mono; [|exact He].
  intros c Hc. unfold names_byte. by rewrite Hc.
Qed.

(** The route of the path, whatever the rest of the table. *)
Lemma listing_route (IsDNS1123Label : string -> bool) (ns svc : string) :
  segment ns -> segment svc -> IsDNS1123Label ns = true -> IsDNS1123Label svc = true ->
  exists d, match_path IsDNS1123Label (listing_path ns svc) = Some (service_route kindCollections ns svc, d).
Proof.
  intros Hn Hs Dn Ds. set (d := declare "/v1/namespaces/{namespace}/services/{service}/collections" kindCollections [MethodGet; MethodPost]).
  assert (d ∈ routeTable) as Hd by (unfold routeTable; set_solver).
  exists d. unfold match_path. apply match_in_unique; [|exact Hd|].
  - intros d' Hd'. pose proof (proj1 (Forall_forall _ _) table_clash d' Hd') as Hc. rewrite Forall_forall in Hc. by apply Hc.
  - unfold bind, listing_path. cbn [split_at]. rewrite decide_True by done.
    rewrite split_segments by (done || by apply listing_segments_ok).
    change (split_at "/" (Template d)) with
      [""; "v1"; "namespaces"; "{namespace}"; "services"; "{service}"; "collections"]%string.
    assert (String.eqb ns EmptyString = false) as En by (apply String.eqb_neq, Hn).
    assert (String.eqb svc EmptyString = false) as Es by (apply String.eqb_neq, Hs).
    unfold listing_segments. set (rt := empty_route (Kind d)).
    cbn. unfold capture. rewrite En, Es. cbn. rewrite Dn. cbn. by rewrite Ds.
Qed.

Section at_root.
  Variable s : Settings.
  Hypothesis root : u_Path (s_Server s) = EmptyString /\ u_RawPath (s_Server s) = EmptyString.

(** Asked of a server without a path of its own. *)
Lemma listing_target (ns svc : string) (q : Values) :
  segment ns -> segment svc ->
  rooted_path (target s (get_request (collectionsPath ns svc) q)) = listing_path ns svc.
Proof using root.
  intros Hn Hs. destruct root as [Hp Hr]. rewrite collectionsPath_listing by done.
  set (p := join_with "/" (listing_segments ns svc)).
  pose proof (listing_path_bytes ns svc Hn Hs) as Hb. unfold listing_path in Hb. fold p in Hb. cbn [all_bytes] in Hb.
  apply andb_true_iff in Hb as [_ Hb].
  assert (EscapedPath (s_Server s) = EmptyString) as He by (unfold EscapedPath; by rewrite Hr, Hp).
  unfold target, with_query, JoinPath, get_request. cbn [rq_Path]. rewrite He. change (has_prefix "/" EmptyString) with false.
  assert (join2 ("/" +:+ EmptyString) (listing_path ns svc) = String "/" p) as ->.
  { apply (Clean_rooted (listing_segments ns svc)); [done|by apply listing_segments_ok]. }
  change (cut_prefix "/" (String "/" p)) with (Some p). cbn [default id].
  assert (has_suffix "/" (listing_path ns svc) = false) as ->.
  { apply bool_decide_eq_false_2. intros [r Hc]. apply cut_suffix_Some in Hc.
    assert (exists x, listing_path ns svc = x +:+ "s") as [x Hx].
    { exists ("/v1/namespaces/" +:+ ns +:+ "/services/" +:+ svc +:+ "/collection"). unfold listing_path, listing_segments.
      cbn [join_with]. by rewrite !str_app_assoc. }
    rewrite Hc in Hx. apply (f_equal last_byte) in Hx. rewrite !last_byte_app in Hx. done. }
  cbn [andb negb]. unfold setPath. rewrite (plain_unescape p Hb). unfold rooted_path, EscapedPath, raw_of.
  cbn [u_RawPath u_Path]. rewrite plain_escape, String.eqb_refl by done. unfold listing_path. fold p.
  assert (exists p', p = String "v" p') as [p' ->] by (eexists; reflexivity). reflexivity.
Qed.
End at_root.

(** ** The walk *)

(** Asked with a credential of its own a request is always sent. *)
Definition self_sent (ToLower : string -> string) (s : Settings) (credential : option Credential) : Prop :=
  credential = None \/
  credential <> Some Cached /\ checkPlaintext ToLower (s_Server s) <> None.
Definition answers_by (answer : httpRequest -> gwAnswer) (log : list (answered gwCall)) : Prop :=
  Forall (fun x => x.2 = Some (answer x.1)) (exchanges log).

Section walk.
  Variable wild : Z -> Z.
  Variable parseHost : string -> string -> option string.
  Variable ToLower : string -> string.
  Variable lock_rounds : nat.
  Variable s : Settings.
  Variable credential : option Credential.
  Hypothesis server_web : web_url (s_Server s).
  Hypothesis server_read : parseHost (u_Scheme (s_Server s)) (escape_host (u_Host (s_Server s))) = Some (u_Host (s_Server s)).
  Hypothesis server_root : u_Path (s_Server s) = EmptyString /\ u_RawPath (s_Server s) = EmptyString.
  Hypothesis sent : self_sent ToLower s credential.

Lemma Do_sent (req : Request) h log a :
  runs (Do wild parseHost ToLower lock_rounds s credential req) h log a ->
  exists r ans, exchanges log = (r, ans) :: exchanges h /\ a = Some (judge ToLower credential ans) /\ addressed s req r.
Proof using server_web server_read sent.
  intros Hr. pose proof (Do_shape wild parseHost ToLower lock_rounds s credential req h log a server_web server_read Hr)
    as [_ (g & Hq & [[-> Hn]|(r & ans & -> & -> & Ha & _)])].
  2: { exists r, ans. split; [|done]. change (exchanges (At (Send r) ans :: g ++ h)) with ((r, ans) :: exchanges (g ++ h)).
       by rewrite exchanges_app, exchanges_quiet. }
  exfalso. unfold Do in Hr. apply runs_gtry in Hr as (b & h1 & Hb & Hr).
  assert (exists r, b = done r) as [r ->].
  { unfold build, newRequest in Hb.
    destruct (Parse_URLString parseHost (target s req)) as (u & Hu & _).
    { by apply target_web. } { by destruct (target_host s req) as [-> ->]. } { apply Encode_bytes. }
    rewrite Hu in Hb. cbn [mbind option_bind] in Hb. destruct sent as [-> | [Hc Hp]]; [destruct Hb as [<- _]; by eexists|].
    destruct credential as [[t|user password|]|]; [| |done|destruct Hb as [<- _]; by eexists];
      rewrite target_plaintext in Hb; (destruct (checkPlaintext ToLower (s_Server s)) as [loopback|]; [|done]);
      cbn [applyCredential] in Hb; apply runs_gtry in Hb as (x & h2 & [<- <-] & Hb);
      apply runs_bind in Hb as (y & h3 & _ & [<- _]); by eexists. }
  cbn [done] in Hr. apply runs_ask in Hr as [ans [<- He]]. apply (f_equal exchanges) in He.
  assert (exists g', h1 = g' ++ h) as [g' ->] by by eapply runs_grows.
  change (exchanges (At (Send r) ans :: g' ++ h)) with ((r, ans) :: exchanges (g' ++ h)) in He.
  rewrite !exchanges_app, (exchanges_quiet g Hq) in He. apply (f_equal length) in He. cbn in He. rewrite length_app in He. lia.
Qed.

  Variable IsDNS1123Label : string -> bool.
  Variables (cur g : N) (c : Caches) (ns svc : string).
  Hypothesis labels : isDNSLabel ns = true /\ isDNSLabel svc = true /\ IsDNS1123Label ns = true /\ IsDNS1123Label svc = true.

Abbreviation the_path := (collectionsPath ns svc).
Abbreviation the_answer := (listing_answer IsDNS1123Label cur g c).
Definition all_query : CollectionQuery := ls_query list_start.
Definition all_filters : listFilters := filtersOf all_query.

(** One page asked for and answered, of a query the gateway accepts. *)
Lemma page_read (next : string) (q : CollectionQuery) (page : list CollectionView) (more : string) h log a :
  parseCollectionList (Encode (if empty next then ∅ else {[ cursorParam := [next] ]})) = inl q ->
  serveCollectionList cur g ns svc q c = Some (page, more) ->
  Forall (fun v => 0 <= vw_Attempt v) page ->
  byte_len (print (collectionsBody ns svc page more) +:+ String newline EmptyString) <= maxResponseBytes ->
  runs (gw_json wild parseHost ToLower lock_rounds s credential
    (get_request the_path (if empty next then ∅ else {[ cursorParam := [next] ]}))) h log a ->
  answers_by the_answer log ->
  exists body hd rq x, a = done (body, hd) /\ exchanges log = (rq, x) :: exchanges h /\
    parse_json body = Some (to_valid_json (collectionsBody ns svc page more)).
Proof using server_web server_read server_root sent labels.
  intros Hq Hp Ha Hb Hr Hans. destruct labels as (Ln & Ls & Dn & Ds). apply label_segment in Ln, Ls.
  unfold gw_json, JSON in Hr. apply runs_gtry in Hr as (b & h1 & Hd & Hr). apply Do_sent in Hd as (rq & ans & He & -> & Had).
  assert (exists p, h1 = log /\ a = Some (match judge ToLower credential ans with inr e => inr e | inl x => p x end) /\
    p = read_document) as (p & -> & -> & ->).
  { exists read_document. destruct (judge ToLower credential ans); cbn in Hr; [by destruct Hr as [<- ->]|by destruct Hr as [-> ->]]. }
  unfold answers_by in Hans. rewrite He in Hans. apply Forall_cons in Hans as [Hans _]. cbn [fst snd] in Hans. subst ans.
  destruct Had as (_ & _ & _ & Hpath & Hquery & _ & Hmethod & _).
  assert (the_answer rq = writeJSON 200 (collectionsBody ns svc page more)) as Hw.
  { unfold listing_answer. rewrite Hpath, Hquery, Hmethod.
    change (target s (with_accept _)) with (target s (get_request the_path (if empty next then ∅ else {[ cursorParam := [next] ]}))).
    rewrite listing_target by done. destruct (listing_route IsDNS1123Label ns svc) as [d ->]; [done..|].
    change (rq_Query (with_accept _)) with (if empty next then ∅ else {[ cursorParam := [next] ]} : Values).
    cbn [rt_kind rt_namespace rt_service service_route]. rewrite bool_decide_true by done. rewrite Hq. by rewrite Hp. }
  rewrite Hw.
  assert (forall b, judge ToLower credential (Some (writeJSON 200 b)) = inl (writeJSON 200 b)) as -> by reflexivity.
  unfold read_document, readBounded, writeJSON. cbn [ga_Body].
  rewrite (proj2 (Z.ltb_ge _ _) Hb). rewrite parse_json_line by by apply body_writable.
  eexists _, _, rq, _. split_and!; [reflexivity|exact He|]. by apply parse_json_line, body_writable.
Qed.

  Hypothesis indexed : index_ok c.
  Hypothesis keyed : keys_valid c.
  Hypothesis replayed : syncedLocked cur g [cacheJobs] c = true.

Abbreviation all := (matching ns svc all_query c).
(** What is asked for past the views read so far. *)
Definition query_after (l : list CollectionView) : CollectionQuery :=
  match last l with None => all_query | Some v => after v all_query end.
Definition next_after (l : list CollectionView) : string :=
  match last l with None => EmptyString | Some v => encodeCursor (view_pos v) all_filters end.

(** The records the listing shows carry a time that can be written and a count of
    attempts, and a page of them is within what the client reads. *)
Record listable : Prop := {
  lb_times : Forall (fun v => Cursor.writable (vw_CreatedAt v) = true) all;
  lb_attempts : Forall (fun v => 0 <= vw_Attempt v) all;
  lb_pages : forall k page more, serveCollectionList cur g ns svc (query_after (take k all)) c = Some (page, more) ->
    byte_len (print (collectionsBody ns svc page more) +:+ String newline EmptyString) <= maxResponseBytes
}.
  Hypothesis shown : listable.

Lemma filters_after (l : list CollectionView) : filtersOf (query_after l) = all_filters.
Proof using. unfold query_after. by destruct (last l). Qed.

Lemma matching_query_after (l1 l2 : list CollectionView) : all = l1 ++ l2 -> matching ns svc (query_after l1) c = l2.
Proof using indexed keyed.
  intros H. unfold query_after. destruct (last l1) as [v|] eqn:E; [|by apply last_None in E as ->].
  apply last_Some in E as [l ->]. rewrite <-app_assoc in H. by eapply matching_after.
Qed.

Lemma cursor_after (v : CollectionView) :
  v ∈ all -> decodeCursor (encodeCursor (view_pos v) all_filters) = Some (view_pos v, all_filters).
Proof using indexed keyed shown.
  intros Hv. apply (cursor_of_query ∅); [done|done|done| | |by left]; [by eapply matching_view|].
  pose proof (lb_times shown) as Ht. rewrite Forall_forall in Ht. by apply Ht.
Qed.

Lemma query_after_parse (l1 l2 : list CollectionView) :
  all = l1 ++ l2 ->
  parseCollectionList (Encode (if empty (next_after l1) then ∅ else {[ cursorParam := [next_after l1] ]})) = inl (query_after l1).
Proof using indexed keyed shown.
  intros H. unfold next_after, query_after. destruct (last l1) as [v|] eqn:E; [|vm_compute; reflexivity].
  assert (v ∈ all) as Hv by (rewrite H; apply elem_of_app; left; by apply last_Some_elem_of).
  apply cursor_after in Hv. set (tok := encodeCursor (view_pos v) all_filters) in *.
  assert (tok <> EmptyString) as Hn by apply encode_nonempty.
  rewrite (proj2 (empty_false tok) Hn). unfold parseCollectionList.
  assert (Encode {[ cursorParam := [tok] ]} <> EmptyString) as He.
  { intros He. pose proof (ParseQuery_one cursorParam tok ltac:(done)) as Hp. rewrite He in Hp. change (Some (∅ : Values) = Some {[cursorParam := [tok]]}) in Hp.
    apply (inj Some) in Hp. apply (f_equal (lookup cursorParam)) in Hp. rewrite lookup_singleton_eq in Hp. discriminate Hp. }
  rewrite (proj2 (String.eqb_neq _ _) He), ParseQuery_one by done.
  change {[ cursorParam := [tok] ]} with (<[cursorParam := [tok]]> (∅ : Values)).
  rewrite (parse_list_cursor ∅ all_query tok (view_pos v) all_filters) by done. by rewrite filters_equal_refl.
Qed.

(** What the gateway serves there. *)
Lemma serve_after (l1 l2 : list CollectionView) :
  all = l1 ++ l2 ->
  serveCollectionList cur g ns svc (query_after l1) c = Some (l2, EmptyString) \/
  exists page rest v, l2 = page ++ rest /\ last page = Some v /\
    serveCollectionList cur g ns svc (query_after l1) c = Some (page, next_after (l1 ++ page)).
Proof using indexed keyed replayed.
  intros H. apply matching_query_after in H. unfold serveCollectionList.
  destruct (page_step cur g ns svc (query_after l1) c indexed keyed replayed) as [->|(page & v & rest & -> & Hl & Hm & _)].
  - left. by rewrite H.
  - right. rewrite H in Hm. exists page, rest, v. split_and!; [done|done|]. cbn [negb]. rewrite Hl, filters_after.
    unfold next_after. apply last_Some in Hl as [p ->]. by rewrite app_assoc, last_snoc.
Qed.

Lemma token_fresh (l1 page rest : list CollectionView) (v w : CollectionView) :
  all = l1 ++ page ++ rest -> last page = Some v -> w ∈ l1 ->
  encodeCursor (view_pos v) all_filters <> encodeCursor (view_pos w) all_filters.
Proof using All.
  intros H Hl Hw He. assert (v ∈ page) as Hv by by apply last_Some_elem_of.
  assert (decodeCursor (encodeCursor (view_pos v) all_filters) = Some (view_pos v, all_filters)) as H1
    by (apply cursor_after; rewrite H; set_solver).
  rewrite He, cursor_after in H1 by (rewrite H; set_solver).
  assert (view_pos w = view_pos v) as Hp by congruence.
  pose proof (matching_sorted ns svc all_query c) as Hs. rewrite H in Hs.
  pose proof (StronglySorted_app_1_elem_of _ _ _ w v Hs Hw ltac:(set_solver)) as Hb. unfold listed_before in Hb.
  rewrite Hp, (proj2 (compareListing_eq _ _) eq_refl) in Hb. lia.
Qed.

Lemma next_graphic (l : list CollectionView) : all_bytes graphic (next_after l) = true.
Proof using. unfold next_after. destruct (last l); [apply encode_graphic|done]. Qed.

Lemma walk_pages (fuel : nat) (l1 l2 : list CollectionView) (pages : list string) (requested : gset string) h log r :
  all = l1 ++ l2 -> (forall t, t ∈ requested -> exists w, w ∈ l1 /\ t = encodeCursor (view_pos w) all_filters) ->
  (length l2 < fuel)%nat ->
  runs (walk_loop wild parseHost ToLower lock_rounds s credential fuel the_path (next_after l1) pages (map row_of l1) requested)
    h log r ->
  answers_by the_answer log ->
  exists bodies, r = done (pages ++ bodies, map row_of (l1 ++ l2)) /\
    (length (exchanges log) = length bodies + length (exchanges h))%nat.
Proof using All.
  revert l1 l2 pages requested h. induction fuel as [|fuel IH]; intros l1 l2 pages requested h H Hreq Hf Hr Hans; [lia|].
  cbn [walk_loop] in Hr. apply runs_gtry in Hr as (a & h1 & Ha & Hr).
  assert (exists g1, log = g1 ++ h1) as [g1 Hg].
  { destruct a as [[a|e]|]; [by eapply runs_grows|by destruct Hr as [_ <-]; exists []..]. }
  assert (answers_by the_answer h1) as Hans1.
  { unfold answers_by in *. rewrite Hg, exchanges_app in Hans. by apply Forall_app in Hans as [_ Hans]. }
  assert (take (length l1) all = l1) as Htake by (rewrite H; apply take_app_length).
  pose proof (lb_attempts shown) as Hatt. rewrite H in Hatt.
  destruct (serve_after l1 l2 H) as [Hs|(page & rest & v & -> & Hl & Hs)];
    pose proof (lb_pages shown (length l1)) as Hb; rewrite Htake in Hb; specialize (Hb _ _ Hs).
  - eapply page_read in Ha as (body & hd & rq & x & -> & He & Hp);
      [|by eapply query_after_parse|exact Hs|by apply Forall_app in Hatt as [_ ?]|exact Hb|exact Hans1].
    cbn [fst done] in Hr. unfold decodeOne in Hr. rewrite Hp in Hr. cbn [mbind option_bind] in Hr.
    rewrite body_read in Hr by done. cbn [cs_NextCursor cs_Collections] in Hr. destruct Hr as [<- <-].
    exists [body]. rewrite map_app, map_map, He. done.
  - eapply page_read in Ha as (body & hd & rq & x & -> & He & Hp);
      [|by eapply query_after_parse|exact Hs|by apply Forall_app in Hatt as [_ [? _]%Forall_app]|exact Hb|exact Hans1].
    cbn [fst done] in Hr. unfold decodeOne in Hr. rewrite Hp in Hr. cbn [mbind option_bind] in Hr.
    rewrite body_read in Hr by apply next_graphic. cbn [cs_NextCursor cs_Collections] in Hr.
    assert (next_after (l1 ++ page) = encodeCursor (view_pos v) all_filters) as Hn.
    { unfold next_after. apply last_Some in Hl as [p ->]. by rewrite app_assoc, last_snoc. }
    rewrite (proj2 (empty_false (next_after (l1 ++ page)))) in Hr by (rewrite Hn; apply encode_nonempty).
    rewrite bool_decide_false in Hr.
    2: { intros Hin. apply Hreq in Hin as (w & Hw & Ht). rewrite Hn in Ht. by eapply token_fresh. }
    rewrite map_map in Hr. change (map (fun x => row (summary_of x)) page) with (map row_of page) in Hr. rewrite <-map_app in Hr.
    eapply (IH (l1 ++ page) rest) in Hr as (bodies & -> & Hk); [| | | |exact Hans].
    + exists (body :: bodies). rewrite <-!app_assoc, Hk, He. cbn [app length]. split; [done|lia].
    + by rewrite H, <-app_assoc.
    + intros t [->%elem_of_singleton|Ht]%elem_of_union.
      * exists v. split; [|done]. apply elem_of_app. right. by apply last_Some_elem_of.
      * destruct (Hreq t Ht) as (w & Hw & ->). exists w. split; [|done]. apply elem_of_app. by left.
    + rewrite length_app in Hf. destruct page; [done|]. simpl in Hf. lia.
Qed.

(** C29: the table the command line prints is the gateway's listing.  Walking the
    Collections of a Service against a replica whose cache has replayed and stays
    as it is, the client is answered every page it asks for, never asks for a page
    twice, takes no answer for a walk that would not end, and ends; its rows are
    every record of the Service, each once, newest first, with the identifier,
    the state, the origin and the time the gateway wrote; and it sends a request
    for each page and nothing else. *)
Theorem walk_reads_listing (fuel : nat) (log : list (answered gwCall)) (r : gres (list string * list (list string)))
    (Hr : runs (walkCollections wild parseHost ToLower lock_rounds s credential fuel the_path) [] log r)
    (Hans : answers_by the_answer log) (Hf : (length all < fuel)%nat) :
  exists pages l, r = done (pages, map row_of l) /\ length (exchanges log) = length pages /\
    StronglySorted listed_before l /\
    forall v, v ∈ l <-> exists id j, jobs c !! jobKey id = Some j /\ job_ref j = (ns, svc) /\ v = view_of id j.
Proof using All.
  apply (walk_pages fuel [] all) in Hr as (pages & -> & He); [|done|set_solver|done|done].
  exists pages, all. split; [done|]. split; [by rewrite He, Nat.add_0_r|]. split; [apply matching_sorted|].
  intros v. rewrite elem_of_matching by done. split; [naive_solver|].
  intros (id & j & H1 & H2 & ->). exists id, j. split_and!; [done..|by left].
Qed.
End walk.

(** ** Instances *)

Definition any_label (s : string) : bool := true.
Definition listing_gateway (R : Type) (c : gwCall R) (h : list (answered gwCall)) : R :=
  match c in gwCall R return R with
  | OnCache c => demo_cache _ c (cache_log h)
  | ReadTokenFile _ | ReadStdin _ | PromptPassword _ => None
  | Warn _ => tt
  | Send r => Some (listing_answer any_label 1 1 demo_caches r)
  | Clock => 0
  | Wait _ => true
  | ShowProgress _ _ _ _ => tt
  end.
Abbreviation demo_walk := (walkCollections no_wild any_host lower 301 demo_settings (Some (TokenOf "t")) 3 (collectionsPath "shop" "cart")).
Definition demo_walked : gres (list string * list (list string)) * list (answered gwCall) := run listing_gateway demo_walk [].

Example demo_rows : option_map (fun r => match r with inl (_, rows) => map (take 2) rows | inr _ => [] end) demo_walked.1 =
  Some [["0123456789abcdefghjm"; "pending"]; ["0123456789abcdefghjk"; "pending"]]%string.
Proof. vm_compute. reflexivity. Qed.

(** The answers of a run are its answerer's. *)
Lemma run_answered {E : Type -> Type} {A} (answer : forall R, E R -> list (answered E) -> R) (P : answered E -> Prop)
    (p : itx E A) (h : list (answered E)) :
  (forall R c h, P (At c (answer R c h))) -> Forall P h -> Forall P (run answer p h).2.
Proof. intros HP. revert h. induction p as [a|R c k IH]; intros h Hh; [done|]. apply IH. by constructor. Qed.

Lemma demo_answers : answers_by (listing_answer any_label 1 1 demo_caches) demo_walked.2.
Proof.
  pose proof (run_answered listing_gateway
    (fun x => match exchange x with Some (r, a) => a = Some (listing_answer any_label 1 1 demo_caches r) | None => True end)
    demo_walk [] ltac:(by intros R []) ltac:(constructor)) as H.
  change (run listing_gateway demo_walk []) with demo_walked in H. revert H. generalize (demo_walked.2). intros log H.
  unfold answers_by, exchanges. induction H as [|x log Hx _ IH]; [constructor|]. cbn [omap list_omap].
  destruct (exchange x) as [[r a]|]; [by constructor|done].
Qed.
Definition demo_page_fits (l : list CollectionView) : bool :=
  match serveCollectionList 1 1 "shop" "cart" (query_after l) demo_caches with
  | Some (page, more) => byte_len (print (collectionsBody "shop" "cart" page more) +:+ String newline EmptyString) <=? maxResponseBytes
  | None => true
  end.
Abbreviation demo_all := (matching "shop" "cart" all_query demo_caches).
Lemma demo_all_length : (length demo_all <= 2)%nat.
Proof. apply Nat.leb_le. vm_compute. reflexivity. Qed.
Definition demo_fit_at (k : nat) : bool := demo_page_fits (take k demo_all).
Lemma demo_fit_eq (k : nat) :
  demo_fit_at k = match serveCollectionList 1 1 "shop" "cart" (query_after (take k demo_all)) demo_caches with
    | Some (page, more) => byte_len (print (collectionsBody "shop" "cart" page more) +:+ String newline EmptyString) <=? maxResponseBytes
    | None => true
    end.
Proof. reflexivity. Qed.
Lemma demo_fits (k : nat) : demo_fit_at k = true.
Proof.
  assert (demo_fit_at 0 = true) as H0 by (vm_compute; reflexivity).
  assert (demo_fit_at 1 = true) as H1 by (vm_compute; reflexivity).
  assert (demo_fit_at 2 = true) as H2 by (vm_compute; reflexivity).
  assert (forall n, demo_fit_at (S (S n)) = demo_fit_at 2) as Hn.
  { intros n. unfold demo_fit_at. f_equal. pose proof demo_all_length as Hl.
    rewrite (take_ge demo_all 2 Hl). apply take_ge. lia. }
  destruct k as [|[|n]]; [exact H0|exact H1|]. rewrite Hn. exact H2.
Qed.
Lemma demo_times : Forall (fun v => Cursor.writable (vw_CreatedAt v) = true) demo_all.
Proof. apply List.Forall_forall, List.forallb_forall. vm_compute. reflexivity. Qed.
Lemma demo_attempts : Forall (fun v => 0 <= vw_Attempt v) demo_all.
Proof. apply (bool_decide_eq_true_1 _). vm_compute. reflexivity. Qed.
Lemma demo_fits_page (k : nat) (page : list CollectionView) (more : string) :
  serveCollectionList 1 1 "shop" "cart" (query_after (take k demo_all)) demo_caches = Some (page, more) ->
  byte_len (print (collectionsBody "shop" "cart" page more) +:+ String newline EmptyString) <= maxResponseBytes.
Proof.
  intros H. pose proof (demo_fits k) as Hf. rewrite demo_fit_eq, H in Hf. exact (proj1 (Z.leb_le _ _) Hf).
Qed.
Lemma demo_listable : listable 1 1 demo_caches "shop" "cart".
Proof. exact (Build_listable 1 1 demo_caches "shop" "cart" demo_times demo_attempts demo_fits_page). Qed.

Lemma walk_reads_listing_witness :
  exists pages l, demo_walked.1 = done (pages, map row_of l) /\ length (exchanges demo_walked.2) = length pages /\
    StronglySorted listed_before l.
Proof.
  assert (u_Path (s_Server demo_settings) = EmptyString /\ u_RawPath (s_Server demo_settings) = EmptyString) as Hroot
    by (split; vm_compute; reflexivity).
  assert (self_sent lower demo_settings (Some (TokenOf "t"))) as Hsent by (right; split; vm_compute; discriminate).
  assert (isDNSLabel "shop" = true /\ isDNSLabel "cart" = true /\ any_label "shop" = true /\ any_label "cart" = true) as Hl
    by (split_and!; vm_compute; reflexivity).
  assert (syncedLocked 1 1 [cacheJobs] demo_caches = true) as Hy by (vm_compute; reflexivity).
  assert (length (matching "shop" "cart" all_query demo_caches) < 3)%nat as Hf by (apply Nat.ltb_lt; vm_compute; reflexivity).
  destruct (walk_reads_listing no_wild any_host lower 301 demo_settings (Some (TokenOf "t")) demo_server_web eq_refl Hroot Hsent
    any_label 1 1 demo_caches "shop" "cart" Hl demo_index demo_keys Hy demo_listable 3 demo_walked.2 demo_walked.1
    (run_runs listing_gateway demo_walk []) demo_answers Hf) as (pages & l & H1 & H2 & H3 & _).
  exists pages, l. split_and!; [exact H1|exact H2|exact H3].
Defined.
