(* ===== verification/Startup.v ===== *)
(** * What starts before the gateway serves

    src/cmd/profgate/backoff.go, the retry loops of serve.go and the preflight of
    src/internal/k8s/client.go: the wait between two attempts, the loops that
    retry until their dependency is there or cannot come, and the seven calls
    that say whether the ClusterRole is granted.  The loops take fuel; a context
    that ends shows as the answer of a call. *)

From S2P Require Import Prelude Config Interaction.

(** ** The backoff *)

Definition preflightBackoffFirst : duration := second.
Definition preflightBackoffCap : duration := 30 * second.

(** [backoff] is its place on the schedule; the generator and the sleep are calls. *)
Record backoff := { bo_next : duration }.
Definition newBackoff : backoff := {| bo_next := preflightBackoffFirst |}.

(** What the loops call: an attempt, [ctx.Err() != nil], the generator, and the
    wait, which says whether it was waited out. *)
Inductive retryCall (A : Type) : Type -> Type :=
  | Attempt : retryCall A A
  | CtxErr : retryCall A bool
  | Int64N (n : Z) : retryCall A Z
  | SleepFor (d : duration) : retryCall A bool.
Arguments Attempt {A}.
Arguments CtxErr {A}.
Arguments Int64N {A} n.
Arguments SleepFor {A} d.
Abbreviation rprog A := (itx (retryCall A)).

Section retry.
  Context {A : Type}.

(** [draw]. *)
Definition draw (b : backoff) : rprog A (duration * backoff) :=
  let d := bo_next b in
  r ← ask (Int64N (d / 2 +! 1));
  mret (d / 2 +! r, {| bo_next := Z.min (d *! 2) preflightBackoffCap |}).

(** [draw] and [wait], as each loop makes them. *)
Definition pause (b : backoff) : rprog A (bool * backoff) :=
  p ← draw b;
  waited ← ask (SleepFor p.1);
  mret (waited, p.2).
End retry.

(** ** The loops *)

(** [preflight]: what [rt.Preflight] answers, and what the loop does. *)
Inductive kubeAnswer := KubePassed | KubeForbidden (resource verb : string) | KubeError.
Inductive loopResult (E : Type) := Passed | Refused (e : E) | Ended.
Arguments Passed {E}.
Arguments Refused {E} e.
Arguments Ended {E}.
#[export] Instance loopResult_dec {E} `{EqDecision E} : EqDecision (loopResult E).
Proof. solve_decision. Defined.

Fixpoint preflight (fuel : nat) (b : backoff) : rprog kubeAnswer (option (loopResult (string * string))) :=
  match fuel with
  | O => mret None
  | S fuel =>
      err ← ask Attempt;
      match (err : kubeAnswer) with
      | KubePassed => mret (Some Passed)
      | KubeForbidden resource verb => mret (Some (Refused (resource, verb)))
      | KubeError =>
          ended ← ask CtxErr;
          if ended : bool then mret (Some Ended)
          else
            w ← pause b;
            if negb w.1 then mret (Some Ended) else preflight fuel w.2
      end
  end.

(** [discoverIssuer]: the attempt says whether it failed; its context is the one
    with the timeout. *)
Fixpoint discoverIssuer (fuel : nat) (b : backoff) : rprog bool (option bool) :=
  match fuel with
  | O => mret None
  | S fuel =>
      failed ← ask Attempt;
      if negb failed then mret (Some true)
      else
        ended ← ask CtxErr;
        if ended : bool then mret (Some false)
        else
          w ← pause b;
          if negb w.1 then mret (Some false) else discoverIssuer fuel w.2
  end.

(** [natsPreflight], past the options it is called with. *)
Inductive natsAnswer := NatsPassed | NatsUnavailable | NatsFatal.
Fixpoint natsPreflight (fuel : nat) (b : backoff) : rprog natsAnswer (option (loopResult unit)) :=
  match fuel with
  | O => mret None
  | S fuel =>
      err ← ask Attempt;
      match (err : natsAnswer) with
      | NatsPassed => mret (Some Passed)
      | _ =>
          ended ← ask CtxErr;
          if ended : bool then mret (Some Ended)
          else if match err with NatsUnavailable => false | _ => true end then mret (Some (Refused tt))
          else
            w ← pause b;
            if negb w.1 then mret (Some Ended) else natsPreflight fuel w.2
      end
  end.

(** [runCaches]: every attempt is a run of the caches that has ended. *)
Fixpoint runCaches (fuel : nat) (b : backoff) : rprog unit (option unit) :=
  match fuel with
  | O => mret None
  | S fuel =>
      _ ← ask Attempt;
      ended ← ask CtxErr;
      if ended : bool then mret (Some tt)
      else
        w ← pause b;
        if negb w.1 then mret (Some tt) else runCaches fuel w.2
  end.

(** ** The Kubernetes preflight *)

(** How one call ends: answered, refused, for a Pod that is not there, or
    otherwise, its deadline included. *)
Inductive kubeStatus := StatusOK | StatusForbidden | StatusNotFound | StatusOther.
#[export] Instance kubeStatus_dec : EqDecision kubeStatus.
Proof. solve_decision. Defined.
Inductive kubeCall : Type -> Type :=
  | List (resource : string) : kubeCall kubeStatus
  | Watch (resource : string) : kubeCall kubeStatus
  | GetPod (namespace name : string) : kubeCall kubeStatus.
Definition preflightPodName : string := "profgate-preflight".
Definition preflight_resources : list string := ["services"; "pods"; "endpointslices"]%string.

(** [OwnNamespace], of the file's content. *)
Definition OwnNamespace (content : option string) : option string := Config.trim_space <$> content.

(** The closure [call]: a refusal names its tuple. *)
Definition classify (verb resource : string) (s : kubeStatus) : kubeAnswer :=
  match s with
  | StatusOK => KubePassed
  | StatusForbidden => KubeForbidden resource verb
  | _ => KubeError
  end.
Fixpoint preflight_calls (l : list string) (rest : itx kubeCall kubeAnswer) : itx kubeCall kubeAnswer :=
  match l with
  | [] => rest
  | resource :: l =>
      s ← ask (List resource);
      match classify "list" resource s with
      | KubePassed =>
          s ← ask (Watch resource);
          match classify "watch" resource s with
          | KubePassed => preflight_calls l rest
          | e => mret e
          end
      | e => mret e
      end
  end.
(** [Preflight]. *)
Definition Preflight (ownNamespace : string) : itx kubeCall kubeAnswer :=
  preflight_calls preflight_resources
    (s ← ask (GetPod ownNamespace preflightPodName);
     mret (match (s : kubeStatus) with StatusNotFound => KubePassed | s => classify "get" "pods" s end)).
(** [clusterRuntime.Preflight]. *)
Definition runtimePreflight (namespaceFile : option string) : itx kubeCall kubeAnswer :=
  match OwnNamespace namespaceFile with
  | None => mret KubeError
  | Some ns => Preflight ns
  end.

(** ** The loops in general

    Every loop is the following, of an attempt that may end it at once, or once
    the context has been looked at, and of what it answers when the context has
    ended. *)
Section loop.
  Context {A R : Type} (early late : A -> option R) (ended : A -> R).

Fixpoint retry (fuel : nat) (b : backoff) : rprog A (option R) :=
  match fuel with
  | O => mret None
  | S fuel =>
      a ← ask Attempt;
      match early a with
      | Some r => mret (Some r)
      | None =>
          e ← ask CtxErr;
          if e : bool then mret (Some (ended a))
          else
            match late a with
            | Some r => mret (Some r)
            | None => w ← pause b; if negb w.1 then mret (Some (ended a)) else retry fuel w.2
            end
      end
  end.

(** What was attempted and what was waited, newest first. *)
Definition tries (log : list (answered (retryCall A))) : list A :=
  omap (fun x => match x with At c r => match c in retryCall _ B return B -> option A with Attempt => Some | _ => fun _ => None end r end) log.
Definition sleeps (log : list (answered (retryCall A))) : list duration :=
  omap (fun x => match x with At (SleepFor d) _ => Some d | _ => None end) log.
(** The generator answers within what it was asked for. *)
Definition within (x : answered (retryCall A)) : Prop :=
  match x with At c r => match c in retryCall _ B return B -> Prop with Int64N n => fun r => 0 <= r < n | _ => fun _ => True end r end.

(** The waits a loop has made, newest first, from the first of the schedule on. *)
Definition step_of (i : nat) : duration := Z.min (2 ^ Z.of_nat i * preflightBackoffFirst) preflightBackoffCap.
Fixpoint paced (l : list duration) : Prop :=
  match l with
  | [] => True
  | d :: l => step_of (length l) / 2 <= d <= step_of (length l) /\ paced l
  end.

Lemma step_of_bounds (i : nat) : second <= step_of i <= preflightBackoffCap.
Proof.
  unfold step_of, preflightBackoffFirst, preflightBackoffCap, second. pose proof (Z.pow_pos_nonneg 2 (Z.of_nat i) ltac:(lia) ltac:(lia)).
  lia.
Qed.
Lemma step_of_next (i : nat) : Z.min (step_of i *! 2) preflightBackoffCap = step_of (S i).
Proof.
  pose proof (step_of_bounds i) as H. rewrite wrap64_id.
  - unfold step_of. rewrite Nat2Z.inj_succ, Z.pow_succ_r by lia. unfold preflightBackoffFirst, preflightBackoffCap, second. lia.
  - unfold in_int64, min_int64, max_int64, preflightBackoffCap, second in *. lia.
Qed.

Lemma runs_pause (i : nat) h h' w :
  runs (pause {| bo_next := step_of i |}) h h' w -> Forall within h' ->
  exists d n, h' = At (SleepFor d) w.1 :: At (Int64N n) (d - step_of i / 2) :: h /\ w.2 = {| bo_next := step_of (S i) |} /\
    step_of i / 2 <= d <= step_of i.
Proof.
  intros H Hw. unfold pause, draw in H. apply runs_bind in H as (p & h1 & Hd & H). cbn [bo_next] in Hd.
  apply runs_ask in Hd as [r [<- <-]]. cbn [fst snd] in H. apply runs_ask in H as [waited [<- <-]].
  apply Forall_cons in Hw as [_ Hw]. apply Forall_cons in Hw as [Hr _]. cbn in Hr.
  pose proof (step_of_bounds i) as Hb. unfold preflightBackoffCap, second in Hb.
  assert (forall z, 0 <= z <= 100 * 10 ^ 9 -> in_int64 z) as Hin.
  { intros z Hz. unfold in_int64, min_int64, max_int64. lia. }
  assert (0 <= step_of i / 2 <= 15 * 10 ^ 9) as Hh by (Z.div_mod_to_equations; lia).
  rewrite wrap64_id in Hr by (apply Hin; lia). rewrite (wrap64_id (step_of i / 2 + r)) by (apply Hin; lia).
  exists (step_of i / 2 + r), (step_of i / 2 +! 1). cbn [fst snd].
  replace (step_of i / 2 + r - step_of i / 2) with r by lia. rewrite step_of_next. split_and!; [done|done|lia|].
  Z.div_mod_to_equations; lia.
Qed.

(** From any place of a loop: the waits go on along the schedule, one between two
    attempts; every attempt but the last lets the loop go on; and the last is what
    it ends with, unless the context ended. *)
Definition goes_on (a : A) : Prop := early a = None /\ late a = None.
Definition loop_ends (l : list A) (r : option R) : Prop :=
  match r with
  | None => Forall goes_on l
  | Some r => exists a rest, l = a :: rest /\ Forall goes_on rest /\
      (early a = Some r \/ early a = None /\ (late a = Some r \/ r = ended a))
  end.

Lemma retry_runs (fuel i : nat) h log r :
  runs (retry fuel {| bo_next := step_of i |}) h log r -> Forall within log ->
  length (sleeps h) = i -> paced (sleeps h) ->
  length (tries h) = i -> Forall goes_on (tries h) ->
  paced (sleeps log) /\ loop_ends (tries log) r /\ (length (sleeps log) <= length (tries log) <= S (length (sleeps log)))%nat /\
  (r = None -> length (tries log) = fuel + i)%nat.
Proof.
  revert i h. induction fuel as [|fuel IH]; intros i h H Hw Hs Hp Ht Hg; cbn [retry] in H.
  { destruct H as [<- <-]. split_and!; [done|done|lia|lia|lia]. }
  apply runs_ask in H as [a H]. destruct (early a) as [x|] eqn:Ee.
  { destruct H as [<- <-]. change (sleeps (At Attempt a :: h)) with (sleeps h).
    change (tries (At Attempt a :: h)) with (a :: tries h). cbn [length]. split_and!; [done| |lia|lia|done].
    exists a, (tries h). split_and!; [done|done|by left]. }
  apply runs_ask in H as [e H].
  assert (forall h1 x, (x = ended a \/ late a = Some x) -> sleeps h1 = sleeps h -> tries h1 = a :: tries h ->
    paced (sleeps h1) /\ loop_ends (tries h1) (Some x) /\ (length (sleeps h1) <= length (tries h1) <= S (length (sleeps h1)))%nat /\
    (Some x = None -> length (tries h1) = S fuel + i)%nat) as Hend.
  { intros h1 x Hx -> ->. cbn [length]. split_and!; [done| |lia|lia|done].
    exists a, (tries h). split_and!; [done|done|right]. split; [done|]. destruct Hx; [by right|by left]. }
  destruct e.
  { destruct H as [<- <-]. apply (Hend (At CtxErr true :: At Attempt a :: h)); [by left|done|done]. }
  destruct (late a) as [x|] eqn:El.
  { destruct H as [<- <-]. apply (Hend (At CtxErr false :: At Attempt a :: h)); [by right|done|done]. }
  apply runs_bind in H as (w & h1 & Hq & H).
  assert (Forall within h1) as Hw1.
  { assert (exists g, log = g ++ h1) as [g ->].
    { destruct (negb w.1); [destruct H as [_ <-]; by exists []|by eapply runs_grows]. }
    by apply Forall_app in Hw as [_ Hw]. }
  apply runs_pause in Hq as (d & n & -> & Hb & Hd); [|done].
  assert (paced (d :: sleeps h)) as Hp' by (split; [by rewrite Hs|done]).
  destruct (negb w.1).
  - destruct H as [<- <-]. set (h1 := At (SleepFor d) _ :: _).
    change (sleeps h1) with (d :: sleeps h). change (tries h1) with (a :: tries h). cbn [length].
    split_and!; [apply Hp'..| |lia|lia|done]. exists a, (tries h). split_and!; [done|done|right]. split; [done|by right].
  - rewrite Hb in H. apply IH in H as (H1 & H2 & H3 & H4); [|done| | | |].
    + split_and!; [done|done|lia|lia|]. intros Hr. specialize (H4 Hr). lia.
    + change (length (d :: sleeps h) = S i). simpl. lia.
    + done.
    + change (length (a :: tries h) = S i). simpl. lia.
    + change (Forall goes_on (a :: tries h)). by constructor.
Qed.

Lemma retry_result (fuel : nat) log r :
  runs (retry fuel newBackoff) [] log r -> Forall within log ->
  paced (sleeps log) /\ loop_ends (tries log) r /\ (length (sleeps log) <= length (tries log) <= S (length (sleeps log)))%nat /\
  (r = None -> length (tries log) = fuel)%nat.
Proof.
  intros H Hw. change newBackoff with {| bo_next := step_of 0 |} in H.
  apply retry_runs in H as (H1 & H2 & H3 & H4); [|done..]. rewrite Nat.add_0_r in H4. done.
Qed.
End loop.

(** ** The four loops *)

Definition kube_early (a : kubeAnswer) : option (loopResult (string * string)) :=
  match a with
  | KubePassed => Some Passed
  | KubeForbidden resource verb => Some (Refused (resource, verb))
  | KubeError => None
  end.
Definition nats_early (a : natsAnswer) : option (loopResult unit) :=
  match a with NatsPassed => Some Passed | _ => None end.
Definition nats_late (a : natsAnswer) : option (loopResult unit) :=
  match a with NatsFatal => Some (Refused tt) | _ => None end.
Definition issuer_early (failed : bool) : option bool := if failed then None else Some true.

Lemma preflight_retry (fuel : nat) (b : backoff) h h' r :
  runs (preflight fuel b) h h' r -> runs (retry kube_early (fun _ => None) (fun _ => Ended) fuel b) h h' r.
Proof.
  revert b h. induction fuel as [|fuel IH]; intros b h H; [exact H|]. cbn [preflight retry] in *.
  apply runs_ask in H as [a H]. exists a. destruct a; [exact H..|]. cbn [kube_early].
  apply runs_ask in H as [e H]. exists e. destruct e; [exact H|]. apply runs_bind in H as (w & h1 & Hw & H).
  apply (runs_bind (pause b)). exists w, h1. split; [exact Hw|]. destruct (negb w.1); [exact H|by apply IH].
Qed.
Lemma natsPreflight_retry (fuel : nat) (b : backoff) h h' r :
  runs (natsPreflight fuel b) h h' r -> runs (retry nats_early nats_late (fun _ => Ended) fuel b) h h' r.
Proof.
  revert b h. induction fuel as [|fuel IH]; intros b h H; [exact H|]. cbn [natsPreflight retry] in *.
  apply runs_ask in H as [a H]. exists a.
  destruct a; cbn [nats_early]; [exact H|..]; apply runs_ask in H as [e H]; exists e; (destruct e; [exact H|]); [|exact H].
  cbn [nats_late]. apply runs_bind in H as (w & h1 & Hw & H).
  apply (runs_bind (pause b)). exists w, h1. split; [exact Hw|]. destruct (negb w.1); [exact H|by apply IH].
Qed.
Lemma discoverIssuer_retry (fuel : nat) (b : backoff) h h' r :
  runs (discoverIssuer fuel b) h h' r -> runs (retry issuer_early (fun _ => None) (fun _ => false) fuel b) h h' r.
Proof.
  revert b h. induction fuel as [|fuel IH]; intros b h H; [exact H|]. cbn [discoverIssuer retry] in *.
  apply runs_ask in H as [a H]. exists a. destruct a; cbn [negb issuer_early] in *; [|exact H].
  apply runs_ask in H as [e H]. exists e. destruct e; [exact H|]. apply runs_bind in H as (w & h1 & Hw & H).
  apply (runs_bind (pause b)). exists w, h1. split; [exact Hw|]. destruct (negb w.1); [exact H|by apply IH].
Qed.
Lemma runCaches_retry (fuel : nat) (b : backoff) h h' r :
  runs (runCaches fuel b) h h' r -> runs (retry (fun _ => None) (fun _ => None) (fun _ => tt) fuel b) h h' r.
Proof.
  revert b h. induction fuel as [|fuel IH]; intros b h H; [exact H|]. cbn [runCaches retry] in *.
  apply runs_ask in H as [a H]. exists a.
  apply runs_ask in H as [e H]. exists e. destruct e; [exact H|]. apply runs_bind in H as (w & h1 & Hw & H).
  apply (runs_bind (pause b)). exists w, h1. split; [exact Hw|]. destruct (negb w.1); [exact H|by apply IH].
Qed.

(** How each loop ends, by what was attempted, newest first. *)
Definition kube_ended (l : list kubeAnswer) (r : option (loopResult (string * string))) : Prop :=
  match r with
  | None => Forall (fun a => a = KubeError) l
  | Some Passed => exists rest, l = KubePassed :: rest /\ Forall (fun a => a = KubeError) rest
  | Some (Refused (resource, verb)) => exists rest, l = KubeForbidden resource verb :: rest /\ Forall (fun a => a = KubeError) rest
  | Some Ended => l <> [] /\ Forall (fun a => a = KubeError) l
  end.
Definition nats_ended (l : list natsAnswer) (r : option (loopResult unit)) : Prop :=
  match r with
  | None => Forall (fun a => a = NatsUnavailable) l
  | Some Passed => exists rest, l = NatsPassed :: rest /\ Forall (fun a => a = NatsUnavailable) rest
  | Some (Refused _) => exists rest, l = NatsFatal :: rest /\ Forall (fun a => a = NatsUnavailable) rest
  | Some Ended => exists a rest, l = a :: rest /\ a <> NatsPassed /\ Forall (fun a => a = NatsUnavailable) rest
  end.
Definition issuer_ended (l : list bool) (r : option bool) : Prop :=
  match r with
  | Some true => exists rest, l = false :: rest /\ Forall (fun failed => failed = true) rest
  | Some false => l <> [] /\ Forall (fun failed => failed = true) l
  | None => Forall (fun failed => failed = true) l
  end.

(** One wait between two attempts, in the upper half of a step that doubles from a
    second to half a minute: so wait the four loops, for as long as they go on;
    and each ends with the first attempt whose answer is final, be it the pass, the
    tuple the role lacks or what no wait turns into a pass, with a context that
    has ended, or not at all: no number of failures makes them give up. *)
Theorem retries_spaced :
  (forall fuel log r, runs (preflight fuel newBackoff) [] log r -> Forall within log ->
     paced (sleeps log) /\ kube_ended (tries log) r /\ (r = None -> length (tries log) = fuel)) /\
  (forall fuel log r, runs (natsPreflight fuel newBackoff) [] log r -> Forall within log ->
     paced (sleeps log) /\ nats_ended (tries log) r /\ (r = None -> length (tries log) = fuel)) /\
  (forall fuel log r, runs (discoverIssuer fuel newBackoff) [] log r -> Forall within log ->
     paced (sleeps log) /\ issuer_ended (tries log) r /\ (r = None -> length (tries log) = fuel)) /\
  (forall fuel log r, runs (runCaches fuel newBackoff) [] log r -> Forall within log ->
     paced (sleeps log) /\ (r = None -> length (tries log) = fuel)).
Proof.
  split_and!; intros fuel log r H Hw.
  - apply preflight_retry, retry_result in H as (H1 & H2 & _ & H3); [|done]. split_and!; [done| |done].
    assert (forall l, Forall (goes_on kube_early (fun _ => None)) l -> Forall (fun a => a = KubeError) l) as Hg.
    { intros l Hl. eapply Forall_impl; [exact Hl|]. by intros [] [? _]. }
    destruct r as [[|[resource verb]|]|]; cbn in H2 |- *; [| | |by apply Hg];
      destruct H2 as (a & rest & -> & Hr & [Ha|[Ha [Hl|Hl]]]); try done; apply Hg in Hr.
    + exists rest. split; [|done]. by destruct a.
    + exists rest. split; [|done]. destruct a; cbn in Ha; congruence.
    + by destruct a.
    + split; [done|]. constructor; [by destruct a|done].
  - apply natsPreflight_retry, retry_result in H as (H1 & H2 & _ & H3); [|done]. split_and!; [done| |done].
    assert (forall l, Forall (goes_on nats_early nats_late) l -> Forall (fun a => a = NatsUnavailable) l) as Hg.
    { intros l Hl. eapply Forall_impl; [exact Hl|]. by intros [] [? ?]. }
    destruct r as [[|[]|]|]; cbn in H2 |- *; [| | |by apply Hg];
      destruct H2 as (a & rest & -> & Hr & [Ha|[Ha [Hl|Hl]]]); try done; apply Hg in Hr; try (by destruct a).
    + exists rest. split; [|done]. by destruct a.
    + exists rest. split; [|done]. by destruct a.
    + exists a, rest. split_and!; [done|by intros ->|done].
  - apply discoverIssuer_retry, retry_result in H as (H1 & H2 & _ & H3); [|done]. split_and!; [done| |done].
    assert (forall l, Forall (goes_on issuer_early (fun _ => None)) l -> Forall (fun f => f = true) l) as Hg.
    { intros l Hl. eapply Forall_impl; [exact Hl|]. by intros [] [? ?]. }
    destruct r as [[|]|]; cbn in H2 |- *; [| |by apply Hg];
      destruct H2 as (a & rest & -> & Hr & [Ha|[Ha [Hl|Hl]]]); try done; apply Hg in Hr; try (by destruct a).
    + exists rest. split; [|done]. by destruct a.
    + split; [done|]. constructor; [by destruct a|done].
  - apply runCaches_retry, retry_result in H as (H1 & _ & _ & H3); done.
Qed.

(** ** The seven calls *)

Definition asked_tuple (x : answered kubeCall) : string * string * kubeStatus :=
  match x with
  | At c r =>
      match c in kubeCall R return R -> string * string * kubeStatus with
      | List resource => fun s => ("list"%string, resource, s)
      | Watch resource => fun s => ("watch"%string, resource, s)
      | GetPod _ _ => fun s => ("get"%string, "pods"%string, s)
      end r
  end.
(** The tuples of the ClusterRole, in the order they are exercised. *)
Definition granted_tuples : list (string * string) :=
  [("list", "services"); ("watch", "services"); ("list", "pods"); ("watch", "pods"); ("list", "endpointslices");
   ("watch", "endpointslices"); ("get", "pods")]%string.

(** The preflight passes when every tuple of the role was exercised, once and in
    order, and granted, the probe Pod being there or not; and it stops at the
    first that is not, which it names if it is forbidden. *)
Theorem Preflight_tuples (ns : string) (log : list (answered kubeCall)) (r : kubeAnswer)
    (Hr : runs (Preflight ns) [] log r) :
  let l := rev (map asked_tuple log) in
  (exists k, map fst l = take k granted_tuples) /\
  exists pre verb resource s, l = pre ++ [(verb, resource, s)] /\ Forall (fun x => x.2 = StatusOK) pre /\
    match r with
    | KubePassed => map fst l = granted_tuples /\ (s = StatusOK \/ s = StatusNotFound)
    | KubeForbidden res v => s = StatusForbidden /\ res = resource /\ v = verb
    | KubeError => (s = StatusNotFound /\ verb <> "get"%string) \/ s = StatusOther
    end.
Proof.
  cbv zeta. unfold Preflight, preflight_resources in Hr. cbn [preflight_calls] in Hr.
  repeat (apply runs_ask in Hr as [[] Hr]; cbn [classify] in Hr; [|destruct Hr as [<- <-]..]);
  try (destruct Hr as [<- <-]);
  (split; [match goal with |- exists k, map fst ?l = _ => exists (length l); reflexivity end|]);
  match goal with |- exists pre verb resource s, ?l = _ /\ _ => exists (removelast l) end;
  do 3 eexists; (split; [reflexivity|]); (split; [by repeat constructor|]); split_and?; auto; try (by left); left; split; done.
Qed.
