(* ===== verification/StorePreflight.v ===== *)
(** * The preflight of the store

    src/internal/natskv/preflight.go and [connect] of client.go: the connection,
    the contract of the three buckets, and the probes that say whether this
    account may do what the gateway does, as a program over the calls of the
    views.  A loop that waits for a revision takes fuel; its deadline is one of
    the answers it waits for. *)

From S2P Require Import Prelude Effects StoreViews Startup Interaction.

Definition configBucket : string := "PROFGATE_CONFIG".
Definition jobsBucket : string := "PROFGATE_JOBS".
Definition probeTimeout : duration := 30 * second.
Definition defaultReconnectWait : duration := 2 * second.

(** An entry the probe watch delivers: a tombstone has no value. *)
Record probeEntry := { pe_Synced : bool; pe_Key : string; pe_Value : option string; pe_Revision : N }.
(** What the select of [awaitRevision] receives: the deadline or a closed watch, or
    an entry. *)
Inductive received := WaitEnded | Delivered (e : probeEntry).

Inductive probeCall : Type -> Type :=
  | Dial : probeCall bool
  | NewJetStream : probeCall bool
  | OpenBucket (bucket : string) : probeCall (result unit)
  | CloseConn : probeCall unit
  | ReportConnected : probeCall unit
  | ViewCurrent : probeCall (result unit)
  | StatusOf (bucket : string) : probeCall (result Status)
  | TakeViolation : probeCall bool
  | IsConnected : probeCall bool
  | WatchKey (bucket key : string) : probeCall (result unit)
  | Receive (bucket key : string) : probeCall received
  | CreateKey (bucket key value : string) : probeCall (result N)
  | UpdateKey (bucket key value : string) (expected : N) : probeCall (result N)
  | GetKey (bucket key : string) : probeCall (result N)
  | DeleteKey (bucket key : string) (expected : N) : probeCall (result unit)
  | PutObject (name body : string) : probeCall (result unit)
  | GetObject (name : string) : probeCall (result unit)
  | ReadObject (name : string) : probeCall (result string)
  | CloseObject (name : string) : probeCall (result unit)
  | ListObjects : probeCall (result (list string))
  | DeleteObject (name : string) : probeCall (result unit).
Abbreviation vprog := (itx probeCall).

(** Why a preflight fails. *)
Inductive preflightErr :=
  | DialFailed | JetStreamFailed
  | StoreFailed (bucket op : string) (e : store_err)
  | OutsideContract (bucket : string) (f : contract_fault)
  | ProbeDenied (bucket op : string)
  | NotDelivered (bucket key : string) | ConnectionLost (bucket key : string)
  | ObjectMismatch | ObjectNotListed.
(** [errors.Is(err, ErrUnavailable)]. *)
Definition unavailable (e : preflightErr) : bool :=
  match e with DialFailed | ConnectionLost _ _ => true | StoreFailed _ _ e => bool_decide (e = ErrUnavailable) | _ => false end.

(** Nothing when fuel runs out. *)
Abbreviation pres A := (option (A + preflightErr)).
Definition passes {A} (a : A) : pres A := Some (inl a).
Definition failed_with {A} (e : preflightErr) : pres A := Some (inr e).
Definition ptry {A B} (p : vprog (pres A)) (k : A -> vprog (pres B)) : vprog (pres B) :=
  r ← p;
  match r with
  | None => mret None
  | Some (inr e) => mret (failed_with e)
  | Some (inl a) => k a
  end.
#[local] Notation "x ←! p ; k" := (ptry p (fun x => k)) (at level 20, p at level 100, k at level 200).

Section preflight.
  (** The entries a wait looks at before its fuel ends. *)
  Variable rounds : nat.
  Variable instanceID : string.

(** [probeErr]. *)
Definition probeErr {A} (bucket op : string) (e : store_err) : vprog (pres A) :=
  denied ← ask TakeViolation;
  mret (failed_with (if denied : bool then ProbeDenied bucket op else StoreFailed bucket op e)).

(** [awaitRevision]. *)
Fixpoint awaitRevision (fuel : nat) (bucket key : string) (match_ : probeEntry -> bool) : vprog (option bool) :=
  match fuel with
  | O => mret None
  | S fuel =>
      r ← ask (Receive bucket key);
      match (r : received) with
      | WaitEnded => mret (Some false)
      | Delivered e =>
          if pe_Synced e || negb (String.eqb (pe_Key e) key) then awaitRevision fuel bucket key match_
          else if match_ e then mret (Some true)
          else awaitRevision fuel bucket key match_
      end
  end.

(** [probeWatchErr]. *)
Definition probeWatchErr (bucket key : string) : vprog (pres unit) :=
  up ← ask IsConnected;
  mret (failed_with (if up : bool then NotDelivered bucket key else ConnectionLost bucket key)).

(** [cleanupProbeKey]. *)
Definition cleanupProbeKey (bucket key : string) : vprog unit :=
  e ← ask (GetKey bucket key);
  match (e : result N) with
  | Ok revision => _ ← ask (DeleteKey bucket key revision); mret tt
  | Err _ => mret tt
  end.

(** [probeKV]. *)
Definition probe_key : string := "probe." +:+ instanceID.
Definition probe_value : string := "profgate preflight probe".
Definition probe_update : string := "profgate preflight probe update".
(** A step that failed once the key is there. *)
Definition failed_step (bucket op : string) (e : store_err) : vprog (pres unit) :=
  _ ← cleanupProbeKey bucket probe_key; probeErr bucket op e.
Definition delivered (bucket : string) (match_ : probeEntry -> bool) (clean : bool) (k : vprog (pres unit)) : vprog (pres unit) :=
  d ← awaitRevision rounds bucket probe_key match_;
  match (d : option bool) with
  | None => mret None
  | Some true => k
  | Some false =>
      _ ← (if clean then cleanupProbeKey bucket probe_key else mret tt);
      probeWatchErr bucket probe_key
  end.
Definition probeKV (bucket : string) : vprog (pres unit) :=
  w ← ask (WatchKey bucket probe_key);
  match (w : result unit) with
  | Err e => probeErr bucket ("watch of " +:+ probe_key) e
  | Ok _ =>
      c ← ask (CreateKey bucket probe_key probe_value);
      match (c : result N) with
      | Err e => probeErr bucket ("create of " +:+ probe_key) e
      | Ok createRev =>
          delivered bucket (fun e => (pe_Revision e =? createRev)%N) true
            (u ← ask (UpdateKey bucket probe_key probe_update createRev);
             match (u : result N) with
             | Err e => failed_step bucket ("update of " +:+ probe_key) e
             | Ok updateRev =>
                 delivered bucket (fun e => (pe_Revision e =? updateRev)%N) true
                   (g ← ask (GetKey bucket probe_key);
                    match (g : result N) with
                    | Err e => failed_step bucket ("get of " +:+ probe_key) e
                    | Ok _ =>
                        d ← ask (DeleteKey bucket probe_key updateRev);
                        match (d : result unit) with
                        | Err e => failed_step bucket ("delete of " +:+ probe_key) e
                        | Ok _ =>
                            delivered bucket (fun e => bool_decide (pe_Value e = None) && (updateRev <? pe_Revision e)%N) false
                              (mret (passes tt))
                        end
                    end)
             end)
      end
  end.

(** [probeObjects]. *)
Definition probe_name : string := "probe-" +:+ instanceID.
Definition cleanupProbeObject : vprog unit := _ ← ask (DeleteObject probe_name); mret tt.
Definition failed_object (op : string) (e : store_err) : vprog (pres unit) := _ ← cleanupProbeObject; probeErr artifactsBucket op e.
Definition probeObjects : vprog (pres unit) :=
  p ← ask (PutObject probe_name probe_value);
  match (p : result unit) with
  | Err e => probeErr artifactsBucket ("put of " +:+ probe_name) e
  | Ok _ =>
      r ← ask (GetObject probe_name);
      match (r : result unit) with
      | Err e => failed_object ("get of " +:+ probe_name) e
      | Ok _ =>
          got ← ask (ReadObject probe_name);
          closed ← ask (CloseObject probe_name);
          match (got : result string), (closed : result unit) with
          | Err e, _ | Ok _, Err e => failed_object ("get of " +:+ probe_name) e
          | Ok got, Ok _ =>
              if negb (String.eqb got probe_value) then _ ← cleanupProbeObject; mret (failed_with ObjectMismatch)
              else
                infos ← ask ListObjects;
                match (infos : result (list string)) with
                | Err e => failed_object "list" e
                | Ok infos =>
                    if negb (bool_decide (probe_name ∈ infos)) then _ ← cleanupProbeObject; mret (failed_with ObjectNotListed)
                    else
                      d ← ask (DeleteObject probe_name);
                      match (d : result unit) with
                      | Err e => probeErr artifactsBucket ("delete of " +:+ probe_name) e
                      | Ok _ => mret (passes tt)
                      end
                end
          end
      end
  end.

(** [runPreflight]: the contract of each bucket, then the probes. *)
Definition contract : list (string * Z * bool) :=
  [(configBucket, minKVMaxBytes, true); (jobsBucket, minKVMaxBytes, true); (artifactsBucket, minObjectMaxBytes, false)].
Fixpoint check_contract (l : list (string * Z * bool)) (k : vprog (pres unit)) : vprog (pres unit) :=
  match l with
  | [] => k
  | (bucket, floor, sized) :: l =>
      st ← ask (StatusOf bucket);
      match (st : result Status) with
      | Err e => mret (failed_with (StoreFailed bucket "status" e))
      | Ok st =>
          match checkBucketContract st floor sized with
          | Some f => mret (failed_with (OutsideContract bucket f))
          | None => check_contract l k
          end
      end
  end.
Definition runPreflight : vprog (pres unit) :=
  v ← ask ViewCurrent;
  match (v : result unit) with
  | Err e => mret (failed_with (StoreFailed "" "view" e))
  | Ok _ =>
      check_contract contract
        (_ ← ask TakeViolation;
         _ ←! probeKV configBucket;
         _ ←! probeKV jobsBucket;
         probeObjects)
  end.

(** [connect]: what was opened is closed where it fails. *)
Fixpoint open_buckets (l : list string) : vprog (pres unit) :=
  match l with
  | [] => mret (passes tt)
  | bucket :: l =>
      r ← ask (OpenBucket bucket);
      match (r : result unit) with
      | Err e => _ ← ask CloseConn; mret (failed_with (StoreFailed bucket "open" e))
      | Ok _ => open_buckets l
      end
  end.
Definition connect : vprog (pres unit) :=
  nc ← ask Dial;
  if negb nc then mret (failed_with DialFailed)
  else
    js ← ask NewJetStream;
    if negb js then _ ← ask CloseConn; mret (failed_with JetStreamFailed)
    else open_buckets [configBucket; jobsBucket; artifactsBucket].

(** [Preflight]. *)
Definition Preflight : vprog (pres unit) :=
  _ ←! connect;
  _ ← ask ReportConnected;
  r ← runPreflight;
  match (r : pres unit) with
  | Some (inr e) => _ ← ask CloseConn; mret (failed_with e)
  | r => mret r
  end.
End preflight.

(** What the loop that retries it makes of it. *)
Definition nats_answer (r : unit + preflightErr) : natsAnswer :=
  match r with inl _ => NatsPassed | inr e => if unavailable e then NatsUnavailable else NatsFatal end.

(** ** What a run is seen to do *)

(** Calls with their answers, in this order, among those that took [h] to [h']. *)
Definition seen (l h h' : list (answered probeCall)) : Prop := exists g, h' = g ++ h /\ sublist l (rev g).
Lemma seen_nil h h' : (exists g, h' = g ++ h) -> seen [] h h'.
Proof. intros [g ->]. exists g. split; [done|apply sublist_nil_l]. Qed.
Lemma seen_cons x l h h' : seen l (x :: h) h' -> seen (x :: l) h h'.
Proof.
  intros (g & -> & Hs). exists (g ++ [x]). split; [by rewrite <-app_assoc|]. rewrite rev_app_distr. by apply sublist_skip.
Qed.
Lemma seen_skip l h g h' : seen l (g ++ h) h' -> seen l h h'.
Proof. intros (g' & -> & Hs). exists (g' ++ g). split; [by rewrite app_assoc|]. rewrite rev_app_distr. by apply sublist_inserts_l. Qed.
Lemma seen_app l l' h h1 h' : seen l h h1 -> seen l' h1 h' -> seen (l ++ l') h h'.
Proof.
  intros (g & -> & Hs) (g' & -> & Hs'). exists (g' ++ g). split; [by rewrite app_assoc|]. rewrite rev_app_distr. by apply sublist_app.
Qed.
Lemma seen_in l x h h' : seen l h h' -> x ∈ l -> x ∈ h'.
Proof.
  intros (g & -> & Hs) Hx. apply elem_of_app. left. eapply elem_of_submseteq in Hx; [|by apply sublist_submseteq].
  apply list_elem_of_In, in_rev. by apply list_elem_of_In.
Qed.

Lemma runs_ptry {A B} (p : vprog (pres A)) (k : A -> vprog (pres B)) h h' r :
  runs (ptry p k) h h' r ->
  exists x h1, runs p h h1 x /\
    match x with
    | Some (inl a) => runs (k a) h1 h' r
    | Some (inr e) => r = failed_with e /\ h1 = h'
    | None => r = None /\ h1 = h'
    end.
Proof.
  intros H. apply runs_bind in H as (x & h1 & H1 & H). exists x, h1. split; [done|].
  destruct x as [[a|e]|]; [exact H|destruct H as [<- <-]; by split..].
Qed.

Section sound.
  Variable rounds : nat.
  Variable instanceID : string.
  Abbreviation key := (probe_key instanceID).
  Abbreviation object := (probe_name instanceID).

(** An entry of this key that is not the replay marker. *)
Definition of_key (e : probeEntry) : Prop := pe_Synced e = false /\ pe_Key e = key.

Lemma awaited (fuel : nat) (bucket : string) (m : probeEntry -> bool) h h' r :
  runs (awaitRevision fuel bucket key m) h h' r ->
  match r with
  | Some true => exists e g, h' = At (Receive bucket key) (Delivered e) :: g ++ h /\ of_key e /\ m e = true
  | _ => exists g, h' = g ++ h
  end.
Proof.
  revert h. induction fuel as [|fuel IH]; intros h H; cbn [awaitRevision] in H.
  { destruct H as [<- <-]. by exists []. }
  apply runs_ask in H as [x H]. destruct x as [|e]; [destruct H as [<- <-]; by exists [At (Receive bucket key) WaitEnded]|].
  assert (runs (awaitRevision fuel bucket key m) (At (Receive bucket key) (Delivered e) :: h) h' r ->
    match r with
    | Some true => exists e g, h' = At (Receive bucket key) (Delivered e) :: g ++ h /\ of_key e /\ m e = true
    | _ => exists g, h' = g ++ h
    end) as Hgo.
  { intros Hr. apply IH in Hr. destruct r as [[]|].
    - destruct Hr as (e' & g & -> & Hx). exists e', (g ++ [At (Receive bucket key) (Delivered e)]). split; [by rewrite <-app_assoc|done].
    - destruct Hr as [g ->]. exists (g ++ [At (Receive bucket key) (Delivered e)]). by rewrite <-app_assoc.
    - destruct Hr as [g ->]. exists (g ++ [At (Receive bucket key) (Delivered e)]). by rewrite <-app_assoc. }
  destruct (pe_Synced e || negb (String.eqb (pe_Key e) key)) eqn:E; [by apply Hgo|]. destruct (m e) eqn:Em; [|by apply Hgo].
  destruct H as [<- <-]. exists e, []. apply orb_false_iff in E as [E1 E2]. apply negb_false_iff, String.eqb_eq in E2. by split_and!.
Qed.

Lemma delivered_passes (bucket : string) (m : probeEntry -> bool) (clean : bool) (k : vprog (pres unit)) h h' :
  runs (delivered rounds instanceID bucket m clean k) h h' (passes tt) ->
  exists e g, runs k (At (Receive bucket key) (Delivered e) :: g ++ h) h' (passes tt) /\ of_key e /\ m e = true.
Proof.
  intros H. apply runs_bind in H as (d & h1 & Hd & H). apply awaited in Hd. destruct d as [[]|].
  - destruct Hd as (e & g & -> & He & Hm). by exists e, g.
  - apply runs_bind in H as ([] & h2 & _ & H). apply runs_ask in H as [up [H _]]. discriminate H.
  - by destruct H.
Qed.
Lemma failed_step_fails (bucket op : string) (e : store_err) h h' : ~ runs (failed_step instanceID bucket op e) h h' (passes tt).
Proof. intros H. apply runs_bind in H as ([] & h2 & _ & H). apply runs_ask in H as [up [H _]]. discriminate H. Qed.
Lemma probeErr_fails {A} (bucket op : string) (e : store_err) (a : A) h h' : ~ runs (probeErr bucket op e) h h' (passes a).
Proof. intros H. apply runs_ask in H as [up [H _]]. discriminate H. Qed.

(** A bucket that was probed: every operation the gateway makes on it answered, and
    the watch delivered what each write wrote. *)
Definition exercised (bucket : string) (h h' : list (answered probeCall)) : Prop :=
  exists r1 r2 r3 e1 e2 e3,
    seen [At (WatchKey bucket key) (Ok tt); At (CreateKey bucket key probe_value) (Ok r1); At (Receive bucket key) (Delivered e1);
          At (UpdateKey bucket key probe_update r1) (Ok r2); At (Receive bucket key) (Delivered e2); At (GetKey bucket key) (Ok r3);
          At (DeleteKey bucket key r2) (Ok tt); At (Receive bucket key) (Delivered e3)] h h' /\
    Forall of_key [e1; e2; e3] /\ pe_Revision e1 = r1 /\ pe_Revision e2 = r2 /\ pe_Value e3 = None /\ (r2 < pe_Revision e3)%N.

Lemma probeKV_passes (bucket : string) h h' : runs (probeKV rounds instanceID bucket) h h' (passes tt) -> exercised bucket h h'.
Proof.
  intros H. apply runs_ask in H as [[[]|e] H]; [|by apply probeErr_fails in H].
  apply runs_ask in H as [[r1|e] H]; [|by apply probeErr_fails in H].
  apply delivered_passes in H as (e1 & g1 & H & K1 & M1). apply runs_ask in H as [[r2|e] H]; [|by apply failed_step_fails in H].
  apply delivered_passes in H as (e2 & g2 & H & K2 & M2). apply runs_ask in H as [[r3|e] H]; [|by apply failed_step_fails in H].
  apply runs_ask in H as [[[]|e] H]; [|by apply failed_step_fails in H].
  apply delivered_passes in H as (e3 & g3 & H & K3 & M3). destruct H as [_ <-].
  apply andb_true_iff in M3 as [M3 M4]. apply bool_decide_eq_true in M3. apply N.eqb_eq in M1, M2. apply N.ltb_lt in M4.
  exists r1, r2, r3, e1, e2, e3. split; [|split_and!; [by apply Forall_cons; split; [|apply Forall_cons; split; [|apply Forall_cons; split; [|constructor]]]|done..]].
  do 2 apply seen_cons. apply (seen_skip _ _ g1), seen_cons, seen_cons, (seen_skip _ _ g2). do 3 apply seen_cons.
  apply (seen_skip _ _ g3), seen_cons, seen_nil. by exists [].
Qed.

Definition object_exercised (h h' : list (answered probeCall)) : Prop :=
  exists names,
    seen [At (PutObject object probe_value) (Ok tt); At (GetObject object) (Ok tt); At (ReadObject object) (Ok probe_value);
          At (CloseObject object) (Ok tt); At ListObjects (Ok names); At (DeleteObject object) (Ok tt)] h h' /\ object ∈ names.
Lemma probeObjects_passes h h' : runs (probeObjects instanceID) h h' (passes tt) -> object_exercised h h'.
Proof.
  assert (forall op e h h', ~ runs (failed_object instanceID op e) h h' (passes tt)) as Hf.
  { intros op e g g' H. apply runs_bind in H as ([] & h2 & _ & H). by apply probeErr_fails in H. }
  intros H. apply runs_ask in H as [[[]|e] H]; [|by apply probeErr_fails in H].
  apply runs_ask in H as [[[]|e] H]; [|by apply Hf in H].
  apply runs_ask in H as [got H]. apply runs_ask in H as [closed H]. destruct got as [got|e]; [|by apply Hf in H].
  destruct closed as [[]|e]; [|by apply Hf in H]. destruct (String.eqb got probe_value) eqn:Eg; cbn [negb] in H.
  - apply String.eqb_eq in Eg. subst got. apply runs_ask in H as [[names|e] H]; [|by apply Hf in H]. destruct (bool_decide (object ∈ names)) eqn:E; cbn [negb] in H.
    + apply runs_ask in H as [[[]|e] H]; [|by apply probeErr_fails in H]. destruct H as [_ <-]. apply bool_decide_eq_true in E.
      exists names. split; [|done]. do 6 apply seen_cons. apply seen_nil. by exists [].
    + apply runs_bind in H as ([] & h2 & _ & [H _]). discriminate H.
  - apply runs_bind in H as ([] & h2 & _ & [H _]). discriminate H.
Qed.

Definition within_contract (h : list (answered probeCall)) : Prop :=
  Forall (fun x => exists st, At (StatusOf x.1.1) (Ok st) ∈ h /\ checkBucketContract st x.1.2 x.2 = None) contract.
Lemma check_contract_passes (l : list (string * Z * bool)) (k : vprog (pres unit)) h h' :
  runs (check_contract l k) h h' (passes tt) ->
  exists g, runs k (g ++ h) h' (passes tt) /\
    Forall (fun x => exists st, At (StatusOf x.1.1) (Ok st) ∈ g /\ checkBucketContract st x.1.2 x.2 = None) l.
Proof.
  revert h. induction l as [|[[bucket floor] sized] l IH]; intros h H; cbn [check_contract] in H; [by exists []|].
  apply runs_ask in H as [[st|e] H]; [|by destruct H]. destruct (checkBucketContract st floor sized) eqn:E; [by destruct H|].
  apply IH in H as (g & H & Hl). exists (g ++ [At (StatusOf bucket) (Ok st)]). split; [by rewrite <-app_assoc|].
  constructor.
  - exists st. split; [|done]. apply elem_of_app. right. by left.
  - eapply Forall_impl; [exact Hl|]. intros x (st' & Hx & Hc). exists st'. split; [|done]. apply elem_of_app. by left.
Qed.

(** *** What a run leaves behind *)

(** The operations on the probe key of a bucket, newest first. *)
Inductive touch := TCreate (ok : bool) | TUpdate | TGet (ok : bool) | TDelete.
Definition is_ok {A} (r : result A) : bool := match r with Ok _ => true | Err _ => false end.
Definition touch_of (bucket : string) (x : answered probeCall) : option touch :=
  match x with
  | At c r =>
      match c in probeCall R return R -> option touch with
      | CreateKey b _ _ => fun r => if String.eqb b bucket then Some (TCreate (is_ok r)) else None
      | UpdateKey b _ _ _ => fun _ => if String.eqb b bucket then Some TUpdate else None
      | GetKey b _ => fun r => if String.eqb b bucket then Some (TGet (is_ok r)) else None
      | DeleteKey b _ _ => fun _ => if String.eqb b bucket then Some TDelete else None
      | _ => fun _ => None
      end r
  end.
Definition touches (bucket : string) (h : list (answered probeCall)) : list touch := omap (touch_of bucket) h.

Lemma touches_app (bucket : string) g h : touches bucket (g ++ h) = touches bucket g ++ touches bucket h.
Proof. apply omap_app. Qed.

(** A probe that ended: where the create was acknowledged, the last operation on the
    key is its delete, or a read that failed on the way to one. *)
Definition cleaned (l : list touch) : Prop :=
  TCreate true ∈ l -> exists l', l = TDelete :: l' \/ l = TGet false :: l'.
Definition touched (bucket : string) (X : list touch) h h' : Prop :=
  touches bucket h' = X ++ touches bucket h /\ forall b, b <> bucket -> touches b h' = touches b h.

Lemma touched_nil bucket h : touched bucket [] h h.
Proof. by split. Qed.
Lemma touched_app bucket X Y h h1 h' : touched bucket X h h1 -> touched bucket Y h1 h' -> touched bucket (Y ++ X) h h'.
Proof. intros [H1 H2] [H3 H4]. split; [by rewrite H3, H1, app_assoc|]. intros b Hb. by rewrite H4, H2. Qed.
Lemma touched_cons bucket X x h h' :
  touched bucket X (x :: h) h' -> (forall b, b <> bucket -> touch_of b x = None) -> touched bucket (X ++ option_list (touch_of bucket x)) h h'.
Proof.
  intros [H1 H2] Hx. assert (forall b, touches b (x :: h) = option_list (touch_of b x) ++ touches b h) as Hc
    by (intros b; unfold touches; cbn; by destruct (touch_of b x)).
  split; [by rewrite H1, Hc, app_assoc|]. intros b Hb. rewrite H2, Hc, Hx by done. done.
Qed.

Lemma awaited_touches (bucket bucket' : string) (fuel : nat) (m : probeEntry -> bool) h h' r :
  runs (awaitRevision fuel bucket key m) h h' r -> touched bucket' [] h h'.
Proof.
  revert h. induction fuel as [|fuel IH]; intros h H; cbn [awaitRevision] in H; [destruct H as [_ <-]; apply touched_nil|].
  apply runs_ask in H as [x H].
  assert (runs (awaitRevision fuel bucket key m) (At (Receive bucket key) x :: h) h' r -> touched bucket' [] h h') as Hgo.
  { intros Hr. apply IH in Hr. apply (touched_cons bucket' [] _ h h') in Hr; [exact Hr|done]. }
  destruct x as [|e]; [destruct H as [_ <-]; by split|]. destruct (_ || _); [by apply Hgo|]. destruct (m e); [|by apply Hgo].
  destruct H as [_ <-]. by split.
Qed.
Lemma cleanup_touches (bucket : string) h h' r : runs (cleanupProbeKey bucket key) h h' r ->
  exists X, touched bucket X h h' /\ exists l, X = TDelete :: l \/ X = TGet false :: l.
Proof.
  intros H. apply runs_ask in H as [[rev|e] H].
  - apply runs_ask in H as [d [_ <-]]. exists [TDelete; TGet true]. split; [|by eexists; left].
    split; [unfold touches; cbn; by rewrite String.eqb_refl|]. intros b Hb. unfold touches. cbn.
    rewrite (proj2 (String.eqb_neq bucket b)) by done. done.
  - destruct H as [_ <-]. exists [TGet false]. split; [|by eexists; right].
    split; [unfold touches; cbn; by rewrite String.eqb_refl|]. intros b Hb. unfold touches. cbn.
    rewrite (proj2 (String.eqb_neq bucket b)) by done. done.
Qed.
Definition ends_clean (X : list touch) : Prop := exists l, X = TDelete :: l \/ X = TGet false :: l.
Lemma ends_clean_app X Y : ends_clean X -> ends_clean (X ++ Y).
Proof. intros [l [-> | ->]]; exists (l ++ Y); [by left|by right]. Qed.
Lemma probeErr_touches {A} (bucket bucket' op : string) (e : store_err) h h' (r : pres A) :
  runs (probeErr bucket' op e) h h' r -> touched bucket [] h h'.
Proof. intros H. apply runs_ask in H as [x [_ <-]]. by split. Qed.
Lemma failed_step_touches (bucket op : string) (e : store_err) h h' r :
  runs (failed_step instanceID bucket op e) h h' r -> exists X, touched bucket X h h' /\ ends_clean X.
Proof.
  intros H. apply runs_bind in H as ([] & h1 & Hc & H). apply cleanup_touches in Hc as (X & HX & Hl).
  apply (probeErr_touches bucket) in H. exists X. split; [exact (touched_app _ _ _ _ _ _ HX H)|exact Hl].
Qed.
Lemma delivered_touches (bucket : string) (m : probeEntry -> bool) (clean : bool) (k : vprog (pres unit)) h h' r :
  runs (delivered rounds instanceID bucket m clean k) h h' (Some r) ->
  (exists h1, touched bucket [] h h1 /\ runs k h1 h' (Some r)) \/
  (exists X, touched bucket X h h' /\ if clean then ends_clean X else X = []).
Proof.
  intros H. apply runs_bind in H as (d & h1 & Hd & H). apply (awaited_touches bucket bucket) in Hd. destruct d as [[]|].
  - left. by exists h1.
  - right. apply runs_bind in H as ([] & h2 & Hc & H). apply runs_ask in H as [up [_ <-]].
    assert (touched bucket [] h2 (At IsConnected up :: h2)) as Hup by by split. destruct clean.
    + apply cleanup_touches in Hc as (X & HX & Hl). exists X. split; [|exact Hl].
      pose proof (touched_app _ _ _ _ _ _ Hd HX) as H1. rewrite app_nil_r in H1. exact (touched_app _ _ _ _ _ _ H1 Hup).
    + destruct Hc as [_ <-]. exists []. split; [exact (touched_app _ _ _ _ _ _ Hd Hup)|done].
  - by destruct H.
Qed.

Lemma touched_call (bucket : string) (X Y : list touch) x h h1 h' :
  touched bucket X h h1 -> touched bucket Y (x :: h1) h' -> (forall b, b <> bucket -> touch_of b x = None) ->
  touched bucket (Y ++ option_list (touch_of bucket x) ++ X) h h'.
Proof.
  intros HX HY Hx. apply touched_cons in HY; [|done]. rewrite app_assoc. exact (touched_app _ _ _ _ _ _ HX HY).
Qed.
Lemma other_key (bucket b : string) {A} (a : A) : b <> bucket -> (if String.eqb bucket b then Some a else None) = None.
Proof. intros H. by rewrite (proj2 (String.eqb_neq bucket b)) by done. Qed.

(** The writes of a probe are cleaned up however it ends. *)
Lemma probeKV_cleaned (bucket : string) h h' r :
  runs (probeKV rounds instanceID bucket) h h' (Some r) -> exists X, touched bucket X h h' /\ cleaned X.
Proof.
  assert (forall X, ends_clean X -> cleaned X) as Hclean by (intros X [l Hl] _; by exists l).
  assert (forall Y X : list touch, ends_clean Y -> cleaned (Y ++ X)) as Hclean2 by (intros; by apply Hclean, ends_clean_app).
  intros H. apply runs_ask in H as [[[]|e] H].
  2:{ apply (probeErr_touches bucket) in H. apply (touched_cons _ _ _ _ _) in H; [|done]. exists []. split; [exact H|by intros ?%not_elem_of_nil]. }
  assert (touched bucket [] h (At (WatchKey bucket key) (Ok tt) :: h)) as T0 by by split.
  apply runs_ask in H as [[r1|e] H].
  2:{ apply (probeErr_touches bucket) in H. pose proof (touched_call _ _ _ _ _ _ _ T0 H (fun b Hb => other_key _ _ _ Hb)) as T.
      cbn in T. rewrite String.eqb_refl in T. eexists. split; [exact T|]. intros Hin. apply list_elem_of_singleton in Hin. discriminate Hin. }
  apply delivered_touches in H as [(h1 & T1 & H)|(X & HX & Hl)].
  2:{ pose proof (touched_call _ _ _ _ _ _ _ T0 HX (fun b Hb => other_key _ _ _ Hb)) as T. eexists. split; [exact T|]. by apply Hclean2. }
  pose proof (touched_call _ _ _ _ _ _ _ T0 T1 (fun b Hb => other_key _ _ _ Hb)) as T2. clear T0 T1.
  apply runs_ask in H as [[r2|e] H].
  2:{ apply failed_step_touches in H as (X & HX & Hl). pose proof (touched_call _ _ _ _ _ _ _ T2 HX (fun b Hb => other_key _ _ _ Hb)) as T.
      eexists. split; [exact T|]. by apply Hclean2. }
  apply delivered_touches in H as [(h2 & T3 & H)|(X & HX & Hl)].
  2:{ pose proof (touched_call _ _ _ _ _ _ _ T2 HX (fun b Hb => other_key _ _ _ Hb)) as T. eexists. split; [exact T|]. by apply Hclean2. }
  pose proof (touched_call _ _ _ _ _ _ _ T2 T3 (fun b Hb => other_key _ _ _ Hb)) as T4. clear T2 T3.
  apply runs_ask in H as [[r3|e] H].
  2:{ apply failed_step_touches in H as (X & HX & Hl). pose proof (touched_call _ _ _ _ _ _ _ T4 HX (fun b Hb => other_key _ _ _ Hb)) as T.
      eexists. split; [exact T|]. by apply Hclean2. }
  pose proof (touched_call _ _ _ _ _ _ _ T4 (touched_nil bucket (At (GetKey bucket key) (Ok r3) :: h2)) (fun b Hb => other_key _ _ _ Hb)) as T5.
  apply runs_ask in H as [[[]|e] H].
  2:{ apply failed_step_touches in H as (X & HX & Hl). pose proof (touched_call _ _ _ _ _ _ _ T5 HX (fun b Hb => other_key _ _ _ Hb)) as T.
      eexists. split; [exact T|]. by apply Hclean2. }
  assert (forall h'', touched bucket [] (At (DeleteKey bucket key r2) (Ok tt) :: At (GetKey bucket key) (Ok r3) :: h2) h'' ->
    exists X, touched bucket X h h'' /\ cleaned X) as Hend.
  { intros h'' T. pose proof (touched_call _ _ _ _ _ _ _ T5 T (fun b Hb => other_key _ _ _ Hb)) as T6. eexists. split; [exact T6|].
    cbn. rewrite String.eqb_refl. intros _. eexists. by left. }
  apply delivered_touches in H as [(h3 & T6 & [_ <-])|(X & HX & ->)]; by apply Hend.
Qed.

(** A program that makes no call on a key leaves every key as it found it. *)
Definition keyless (h : list (answered probeCall)) (R : Type) (c : probeCall R) : Prop := forall b r, touch_of b (At c r) = None.
Lemma keyless_touches {A} (p : vprog A) h h' a :
  pre keyless p h (fun _ _ => True) -> runs p h h' a -> forall b, touches b h' = touches b h.
Proof.
  intros Hp Hr b. destruct (pre_runs _ _ _ _ _ _ Hp Hr) as [_ Hg]. clear Hp Hr.
  induction Hg as [|h' R c r Hg IH Hc]; [done|]. unfold touches in *. cbn [omap list_omap]. by rewrite (Hc b r).
Qed.
Lemma ptry_touches {A B} (p : vprog (pres A)) (k : A -> vprog (pres B)) h h' r :
  pre keyless p h (fun _ _ => True) -> runs (ptry p k) h h' (Some r) ->
  exists h1, (forall b, touches b h1 = touches b h) /\ ((exists a, runs (k a) h1 h' (Some r)) \/ h1 = h').
Proof.
  intros Hp H. apply runs_ptry in H as (x & h1 & Hx & H). exists h1. split; [exact (keyless_touches _ _ _ _ Hp Hx)|].
  destruct x as [[a|e]|]; [left; by exists a|by right; destruct H|by destruct H].
Qed.

Ltac keyless_run := repeat (first [split; [intros ? ?; reflexivity|intros ?] | exact I | case_match]; cbn).
Lemma open_buckets_keyless (l : list string) h : pre keyless (open_buckets l) h (fun _ _ => True).
Proof.
  revert h. induction l as [|bucket l IH]; intros h; [exact I|]. split; [intros ? ?; reflexivity|]. intros [u|e]; [apply IH|].
  split; [intros ? ?; reflexivity|]. intros ?. exact I.
Qed.
Lemma connect_keyless h : pre keyless connect h (fun _ _ => True).
Proof.
  split; [intros ? ?; reflexivity|]. intros []; [|exact I]. split; [intros ? ?; reflexivity|]. intros []; [apply open_buckets_keyless|].
  split; [intros ? ?; reflexivity|]. intros ?. exact I.
Qed.
Lemma probeObjects_keyless h : pre keyless (probeObjects instanceID) h (fun _ _ => True).
Proof. unfold probeObjects, failed_object, cleanupProbeObject, probeErr. cbn. keyless_run. Qed.

Lemma check_contract_touches (l : list (string * Z * bool)) (k : vprog (pres unit)) h h' r :
  runs (check_contract l k) h h' r ->
  exists h1, (forall b, touches b h1 = touches b h) /\ (runs k h1 h' r \/ h1 = h').
Proof.
  revert h. induction l as [|[[bucket floor] sized] l IH]; intros h H; cbn [check_contract] in H; [exists h; by split; [|left]|].
  apply runs_ask in H as [[st|e] H]; [|destruct H as [_ <-]; exists (At (StatusOf bucket) (Err e) :: h); by split; [|right]].
  destruct (checkBucketContract st floor sized); [destruct H as [_ <-]; exists (At (StatusOf bucket) (Ok st) :: h); by split; [|right]|].
  apply IH in H as (h1 & H1 & H). exists h1. split; [intros b; by rewrite H1|done].
Qed.

(** Every key a run creates, in either bucket, is cleaned up before it ends. *)
Lemma runPreflight_cleaned h h' r :
  runs (runPreflight rounds instanceID) h h' (Some r) -> (forall b, touches b h = []) -> forall b, cleaned (touches b h').
Proof.
  assert (forall g, (forall b, touches b g = []) -> forall b, cleaned (touches b g)) as Hnil
    by (intros g Hg b; rewrite Hg; by intros ?%not_elem_of_nil).
  intros H H0. apply runs_ask in H as [[[]|e] H]; [|destruct H as [_ <-]; by apply Hnil].
  apply check_contract_touches in H as (h1 & T1 & [H| ->]); [|apply Hnil; intros b; by rewrite T1; apply H0].
  apply runs_ask in H as [v H]. apply runs_ptry in H as (x & h2 & Hx & H).
  assert (exists x', x = Some x') as [x' ->] by (destruct x as [x|]; [by exists x|by destruct H]).
  apply probeKV_cleaned in Hx as (X & [HX HX'] & Cx).
  assert (forall b, touches b (At TakeViolation v :: h1) = []) as T2 by (intros b; change (touches b h1 = []); rewrite T1; apply H0).
  rewrite T2, app_nil_r in HX. setoid_rewrite T2 in HX'. clear T1 T2 H0.
  assert (forall g, (forall b, touches b g = touches b h2) -> forall b, cleaned (touches b g)) as Hone.
  { intros g Hg b. rewrite Hg. destruct (decide (b = configBucket)) as [->|Hb]; [by rewrite HX|]. rewrite HX' by exact Hb. by intros ?%not_elem_of_nil. }
  destruct x' as [[]|e]; [|destruct H as [_ <-]; by apply Hone].
  apply runs_ptry in H as (y & h3 & Hy & H). assert (exists y', y = Some y') as [y' ->] by (destruct y as [y|]; [by exists y|by destruct H]).
  apply probeKV_cleaned in Hy as (Y & [HY HY'] & Cy).
  assert (forall g, (forall b, touches b g = touches b h3) -> forall b, cleaned (touches b g)) as Htwo.
  { intros g Hg b. rewrite Hg. destruct (decide (b = jobsBucket)) as [->|Hb].
    - rewrite HY, HX' by (intros E; discriminate E). by rewrite app_nil_r.
    - rewrite HY' by exact Hb. by apply Hone. }
  destruct y' as [[]|e]; [|destruct H as [_ <-]; by apply Htwo].
  apply Htwo. exact (keyless_touches _ _ _ _ (probeObjects_keyless h3) H).
Qed.

Lemma open_buckets_fails (l : list string) h h' e :
  runs (open_buckets l) h h' (failed_with e) -> exists g, h' = At CloseConn tt :: g.
Proof.
  revert h. induction l as [|bucket l IH]; intros h H; [by destruct H|]. apply runs_ask in H as [[u|e'] H]; [exact (IH _ H)|].
  apply runs_ask in H as [[] [_ <-]]. by eexists.
Qed.
Lemma connect_fails h h' e :
  runs connect h h' (failed_with e) -> (exists g, h' = At CloseConn tt :: g) \/ h' = At Dial false :: h.
Proof.
  intros H. apply runs_ask in H as [[] H]; [|destruct H as [_ <-]; by right]. left.
  apply runs_ask in H as [[] H]; [exact (open_buckets_fails _ _ _ _ H)|]. apply runs_ask in H as [[] [_ <-]]. by eexists.
Qed.

(** What the parts of a run saw, its whole log saw. *)
Lemma seen_grows l h h1 h' : seen l h h1 -> (exists g, h' = g ++ h1) -> seen l h h'.
Proof. intros H1 Hg. rewrite <-(app_nil_r l). exact (seen_app _ _ _ _ _ H1 (seen_nil _ _ Hg)). Qed.
Lemma seen_before l h0 h h' : (exists g, h = g ++ h0) -> seen l h h' -> seen l h0 h'.
Proof. intros [g ->]. apply seen_skip. Qed.
Lemma exercised_widens bucket h0 h h1 h' :
  (exists g, h = g ++ h0) -> (exists g, h' = g ++ h1) -> exercised bucket h h1 -> exercised bucket h0 h'.
Proof.
  intros H0 H1 (r1 & r2 & r3 & e1 & e2 & e3 & Hs & Hr). exists r1, r2, r3, e1, e2, e3. split; [|exact Hr].
  exact (seen_before _ _ _ _ H0 (seen_grows _ _ _ _ Hs H1)).
Qed.

(** What a run that passes has seen of the store. *)
Definition store_usable (h : list (answered probeCall)) : Prop :=
  within_contract h /\ exercised configBucket [] h /\ exercised jobsBucket [] h /\ object_exercised [] h.
Lemma runPreflight_passes h h' : runs (runPreflight rounds instanceID) h h' (passes tt) -> store_usable h'.
Proof.
  intros H. apply runs_ask in H as [[[]|e] H]; [|by destruct H]. apply check_contract_passes in H as (g & H & Hc).
  set (hc := g ++ _) in H. apply runs_ask in H as [v H]. set (hv := At TakeViolation v :: hc) in H.
  pose proof (runs_grows _ _ _ _ H) as Gv.
  apply runs_ptry in H as ([[[]|e]|] & h1 & Hx & H); [|by destruct H..].
  apply runs_ptry in H as ([[[]|e]|] & h2 & Hy & H); [|by destruct H..].
  pose proof (runs_grows _ _ _ _ Hx) as G1. pose proof (runs_grows _ _ _ _ Hy) as G2. pose proof (runs_grows _ _ _ _ H) as G3.
  apply probeKV_passes in Hx, Hy. apply probeObjects_passes in H as (names & Hs & Hn).
  assert (forall g' : list (answered probeCall), exists g0, g' = g0 ++ []) as Hall by (intros g'; exists g'; by rewrite app_nil_r).
  assert (exists g', h' = g' ++ h1) as G13 by (destruct G2 as [g2 ->], G3 as [g3 ->]; exists (g3 ++ g2); by rewrite app_assoc).
  split; [|split_and!].
  - destruct Gv as [gv ->]. eapply Forall_impl; [exact Hc|]. intros x (st & Hx' & He). exists st. split; [|exact He].
    apply elem_of_app. right. right. apply elem_of_app. by left.
  - exact (exercised_widens _ _ _ _ _ (Hall hv) G13 Hx).
  - exact (exercised_widens _ _ _ _ _ (Hall h1) G3 Hy).
  - exists names. split; [exact (seen_before _ _ _ _ (Hall h2) Hs)|exact Hn].
Qed.

(** *** The fuel

    The waits of a run: it has no result only where one of them looked at as many
    entries as its fuel. *)
Definition is_wait (x : answered probeCall) : bool :=
  match x with At c _ => match c with Receive _ _ => true | _ => false end end.
Definition waits (h : list (answered probeCall)) : nat := length (List.filter is_wait h).

Lemma awaitRevision_out (fuel : nat) (bucket : string) (m : probeEntry -> bool) h h' :
  runs (awaitRevision fuel bucket key m) h h' None -> (fuel + waits h <= waits h')%nat.
Proof.
  revert h. induction fuel as [|fuel IH]; intros h H; cbn [awaitRevision] in H; [destruct H as [_ <-]; lia|].
  apply runs_ask in H as [x H].
  assert (waits (At (Receive bucket key) x :: h) = S (waits h)) as Hw by done.
  assert (runs (awaitRevision fuel bucket key m) (At (Receive bucket key) x :: h) h' None -> (S fuel + waits h <= waits h')%nat) as Hgo
    by (intros Hr; apply IH in Hr; lia).
  destruct x as [|e]; [by destruct H|]. destruct (_ || _); [by apply Hgo|]. destruct (m e); [by destruct H|by apply Hgo].
Qed.
Lemma delivered_out (bucket : string) (m : probeEntry -> bool) (clean : bool) (k : vprog (pres unit)) h h' :
  runs (delivered rounds instanceID bucket m clean k) h h' None -> (rounds <= waits h')%nat \/ exists h1, runs k h1 h' None.
Proof.
  intros H. apply runs_bind in H as (d & h1 & Hd & H). destruct d as [[]|].
  - right. by exists h1.
  - apply runs_bind in H as ([] & h2 & _ & H). apply runs_ask in H as [up [H _]]. discriminate H.
  - left. apply awaitRevision_out in Hd. destruct H as [_ <-]. lia.
Qed.
Lemma failed_step_settles (bucket op : string) (e : store_err) h h' : ~ runs (failed_step instanceID bucket op e) h h' None.
Proof. intros H. apply runs_bind in H as ([] & h2 & _ & H). apply runs_ask in H as [up [H _]]. discriminate H. Qed.
Lemma probeErr_settles {A} (bucket op : string) (e : store_err) h h' : ~ runs (@probeErr A bucket op e) h h' None.
Proof. intros H. apply runs_ask in H as [up [H _]]. discriminate H. Qed.
Lemma probeKV_out (bucket : string) h h' : runs (probeKV rounds instanceID bucket) h h' None -> (rounds <= waits h')%nat.
Proof.
  intros H. apply runs_ask in H as [[[]|e] H]; [|by apply probeErr_settles in H].
  apply runs_ask in H as [[r1|e] H]; [|by apply probeErr_settles in H].
  apply delivered_out in H as [H|[h1 H]]; [exact H|]. apply runs_ask in H as [[r2|e] H]; [|by apply failed_step_settles in H].
  apply delivered_out in H as [H|[h2 H]]; [exact H|]. apply runs_ask in H as [[r3|e] H]; [|by apply failed_step_settles in H].
  apply runs_ask in H as [[[]|e] H]; [|by apply failed_step_settles in H].
  apply delivered_out in H as [H|[h3 [H _]]]; [exact H|discriminate H].
Qed.
Definition settled (r : pres unit) (h : list (answered probeCall)) : Prop := r <> None.
Lemma probeObjects_settles h h' : ~ runs (probeObjects instanceID) h h' None.
Proof.
  assert (pre any_call (probeObjects instanceID) h settled) as Hp.
  { unfold probeObjects, failed_object, cleanupProbeObject, probeErr, settled. cbn.
    repeat (first [split; [exact I|intros ?] | discriminate | case_match]; cbn). }
  intros H. destruct (pre_runs _ _ _ _ _ _ Hp H) as [Hn _]. by apply Hn.
Qed.
Lemma check_contract_out (l : list (string * Z * bool)) (k : vprog (pres unit)) h h' :
  runs (check_contract l k) h h' None -> exists h1, runs k h1 h' None.
Proof.
  revert h. induction l as [|[[bucket floor] sized] l IH]; intros h H; cbn [check_contract] in H; [by exists h|].
  apply runs_ask in H as [[st|e] H]; [|by destruct H]. destruct (checkBucketContract st floor sized); [by destruct H|exact (IH _ H)].
Qed.
Lemma runPreflight_out h h' : runs (runPreflight rounds instanceID) h h' None -> (rounds <= waits h')%nat.
Proof.
  intros H. apply runs_ask in H as [[[]|e] H]; [|by destruct H]. apply check_contract_out in H as [h1 H]. apply runs_ask in H as [v H].
  apply runs_ptry in H as ([[[]|e]|] & h2 & Hx & H); [|by destruct H|destruct H as [_ <-]; exact (probeKV_out _ _ _ Hx)].
  apply runs_ptry in H as ([[[]|e]|] & h3 & Hy & H); [|by destruct H|destruct H as [_ <-]; exact (probeKV_out _ _ _ Hy)].
  by apply probeObjects_settles in H.
Qed.
Lemma connect_settles h h' : ~ runs connect h h' None.
Proof.
  assert (forall l h, pre any_call (open_buckets l) h settled) as Ho.
  { induction l as [|bucket l IH]; intros g; [discriminate|]. split; [exact I|]. intros [u|e]; [apply IH|]. split; [exact I|]. discriminate. }
  assert (pre any_call connect h settled) as Hp.
  { split; [exact I|]. intros []; [|discriminate]. split; [exact I|]. intros []; [apply Ho|]. split; [exact I|]. discriminate. }
  intros H. destruct (pre_runs _ _ _ _ _ _ Hp H) as [Hn _]. by apply Hn.
Qed.
Lemma Preflight_out h : runs (Preflight rounds instanceID) [] h None -> (rounds <= waits h)%nat.
Proof.
  intros H. apply runs_ptry in H as ([[[]|e]|] & h1 & Hc & H); [|by destruct H|by apply connect_settles in Hc].
  apply runs_ask in H as [[] H]. apply runs_bind in H as ([[[]|e]|] & h2 & Hr & H);
    [by destruct H|apply runs_ask in H as [[] [H _]]; discriminate H|].
  destruct H as [_ <-]. exact (runPreflight_out _ _ Hr).
Qed.

(** C38: a preflight that passes has seen every bucket within its contract and every
    operation the gateway makes on it answered: on a key the watch delivered the
    create, the update and the delete it had made, each before the next operation,
    and an object was listed and read back as it was written; a run that fails has
    closed the connection, unless there never was one; and however it ends, no probe
    key it created is left without a try at its removal.  A run whose waits look at
    fewer entries than their fuel has one of these results. *)
Theorem Preflight_settles h r :
  runs (Preflight rounds instanceID) [] h r -> (waits h < rounds)%nat ->
  exists r', r = Some r' /\ (forall bucket, cleaned (touches bucket h)) /\
    match r' with
    | inl _ => store_usable h
    | inr e => (exists g, h = At CloseConn tt :: g) \/ h = [At Dial false]
    end.
Proof.
  intros H Hw. destruct r as [r|]; [|apply Preflight_out in H; lia]. exists r. split; [reflexivity|].
  clear Hw. revert H.
  intros H. apply runs_ptry in H as (x & h1 & Hc & H). pose proof (keyless_touches _ _ _ _ (connect_keyless []) Hc) as T1.
  destruct x as [[[]|e]|]; [|destruct H as [H <-]; injection H as ->|by destruct H].
  2:{ split; [intros b; rewrite T1; by intros ?%not_elem_of_nil|]. exact (connect_fails _ _ _ Hc). }
  apply runs_ask in H as [[] H]. apply runs_bind in H as (x & h2 & Hr & H).
  destruct x as [x|]; [|by destruct H]. pose proof (runPreflight_cleaned _ _ _ Hr T1) as C.
  destruct x as [[]|e]; [destruct H as [H <-]; injection H as <-|apply runs_ask in H as [[] [H <-]]; injection H as <-].
  - split; [exact C|exact (runPreflight_passes _ _ Hr)].
  - split; [exact C|]. left. by exists h2.
Qed.
End sound.

(** The store of one instance that may do everything. *)
Definition usable_status (bytes : Z) : Status :=
  {| st_TTL := 0; st_MaxValueSize := -1; st_MaxBytes := bytes; st_Storage := "file"; st_Discard := "new" |}.
Definition probe_entry (value : option string) (revision : N) : probeEntry :=
  {| pe_Synced := false; pe_Key := "probe.i1"; pe_Value := value; pe_Revision := revision |}.
Definition probed_key (bucket : string) (n : N) : list (answered probeCall) :=
  rev [At (WatchKey bucket "probe.i1") (Ok tt); At (CreateKey bucket "probe.i1" probe_value) (Ok n);
       At (Receive bucket "probe.i1") (Delivered (probe_entry (Some probe_value) n));
       At (UpdateKey bucket "probe.i1" probe_update n) (Ok (n + 1)%N);
       At (Receive bucket "probe.i1") (Delivered (probe_entry (Some probe_update) (n + 1)));
       At (GetKey bucket "probe.i1") (Ok (n + 1)%N); At (DeleteKey bucket "probe.i1" (n + 1)) (Ok tt);
       At (Receive bucket "probe.i1") (Delivered (probe_entry None (n + 2)))].
Definition probed : list (answered probeCall) :=
  rev [At (PutObject "probe-i1" probe_value) (Ok tt); At (GetObject "probe-i1") (Ok tt); At (ReadObject "probe-i1") (Ok probe_value);
       At (CloseObject "probe-i1") (Ok tt); At ListObjects (Ok ["probe-i1"]); At (DeleteObject "probe-i1") (Ok tt)] ++
  probed_key jobsBucket 4 ++ probed_key configBucket 1 ++
  rev [At Dial true; At NewJetStream true; At (OpenBucket configBucket) (Ok tt); At (OpenBucket jobsBucket) (Ok tt);
       At (OpenBucket artifactsBucket) (Ok tt); At ReportConnected tt; At ViewCurrent (Ok tt);
       At (StatusOf configBucket) (Ok (usable_status minKVMaxBytes)); At (StatusOf jobsBucket) (Ok (usable_status minKVMaxBytes));
       At (StatusOf artifactsBucket) (Ok (usable_status minObjectMaxBytes)); At TakeViolation false].
Example probed_runs : runs (Preflight 9 "i1") [] probed (passes tt).
Proof.
  do 2 exists true. do 3 exists (Ok tt). exists tt, (Ok tt).
  do 2 exists (Ok (usable_status minKVMaxBytes)). exists (Ok (usable_status minObjectMaxBytes)), false.
  exists (Ok tt), (Ok 1%N), (Delivered (probe_entry (Some probe_value) 1)), (Ok 2%N), (Delivered (probe_entry (Some probe_update) 2)),
    (Ok 2%N), (Ok tt), (Delivered (probe_entry None 3)).
  exists (Ok tt), (Ok 4%N), (Delivered (probe_entry (Some probe_value) 4)), (Ok 5%N), (Delivered (probe_entry (Some probe_update) 5)),
    (Ok 5%N), (Ok tt), (Delivered (probe_entry None 6)).
  exists (Ok tt), (Ok tt), (Ok probe_value), (Ok tt), (Ok ["probe-i1"]), (Ok tt). split; reflexivity.
Qed.

Lemma Preflight_settles_witness :
  (waits probed < 9)%nat /\
  exists r', passes tt = Some r' /\ (forall bucket, cleaned (touches bucket probed)) /\
    match r' with
    | inl _ => store_usable "i1" probed
    | inr e => (exists g, probed = At CloseConn tt :: g) \/ probed = [At Dial false]
    end.
Proof.
  assert (waits probed < 9)%nat as H by (vm_compute; lia).
  split; [exact H|]. exact (Preflight_settles 9 "i1" probed (passes tt) probed_runs H).
Defined.
