(* ===== verification/Serve.v ===== *)
(** * The process that serves

    src/cmd/profgate/serve.go: startup in its order, the loop over what the
    goroutines report, and the drain, as a program over what it calls and what it
    starts.  A goroutine is a call that starts it and the event it sends; the two
    drains that run side by side are interleaved by the scheduler.  The probes
    read the flags the loop has stored. *)

From S2P Require Import Worker.
From S2P Require Import Prelude Config Policy Query Settings Interaction.
From S2P Require Import Startup.

Definition drainSlack : duration := 30 * second.
Definition opsDrainTimeout : duration := 5 * second.
Definition syncedPollInterval : duration := 50 * 10 ^ 6.
Definition instanceSuffixBytes : Z := 4.

(** [shutdownMode]. *)
Inductive shutdownMode := drainEndpoints | listenerFailed.
#[export] Instance shutdownMode_dec : EqDecision shutdownMode.
Proof. solve_decision. Defined.

(** The goroutines serve starts. *)
Inductive goroutine :=
  | ServeAPI | ServeOps | CertsRun | BasicRun | KubePreflight | IssuerDiscovery | NATSPreflight
  | IssuerRun | Informers | WaitSynced | PGOLoops.
#[export] Instance goroutine_dec : EqDecision goroutine.
Proof. solve_decision. Defined.

(** What the select of the loop receives. *)
Inductive event :=
  | Discovered (ok : bool)
  | PreflightDone (r : loopResult (string * string))
  | SyncedNow
  | NATSDone (ok : bool)
  | ServeReturned (closed : bool)
  | StopRequested.
#[export] Instance event_dec : EqDecision event.
Proof. solve_decision. Defined.
Inductive drained := Completed | DeadlineClosed | ShutdownFailed.
#[export] Instance drained_dec : EqDecision drained.
Proof. solve_decision. Defined.
Inductive flag := Draining | IssuerReady | NATSReady.
#[export] Instance flag_dec : EqDecision flag.
Proof. solve_decision. Defined.

Inductive serveCall : Type -> Type :=
  | LoadConfig : serveCall (option Settings)
  | NewAuthenticator (mode : string) : serveCall bool
  | NewRuntime : serveCall bool
  | SoftLimit : serveCall (option Z)
  | SetMemoryLimit (n : Z) : serveCall Z
  | NewConsole : serveCall bool
  | NewCertificates : serveCall bool
  | Listen (address : string) : serveCall bool
  | CloseListener (address : string) : serveCall unit
  | Start (g : goroutine) : serveCall unit
  | Select : serveCall event
  | Store (f : flag) : serveCall unit
  | AnsweredReady : serveCall bool
  | DiscoverySynced : serveCall unit
  | CloseDrainSignal : serveCall unit
  | CancelRun : serveCall unit
  | Sleep (d : duration) : serveCall unit
  | ShutdownAPI (bound : duration) : serveCall drained
  | CutInFlight : serveCall unit
  | CloseAPI : serveCall unit
  | DrainWorker : serveCall bool
  | Sched : serveCall bool
  | CancelInformers : serveCall unit
  | WaitInformers : serveCall unit
  | ShutdownOps (bound : duration) : serveCall unit
  | WaitServing : serveCall unit
  | LogComplete (api : drained) (pgo : option bool) : serveCall unit.
Abbreviation sprog := (itx serveCall).

(** ** The drain *)

(** Two goroutines that are waited for together. *)
Fixpoint par {A B} (fuel : nat) (p : sprog A) (q : sprog B) : sprog (option (A * B)) :=
  match fuel with
  | O => mret None
  | S fuel =>
      match p, q with
      | Done a, Done b => mret (Some (a, b))
      | Ask c k, Done b => r ← ask c; par fuel (k r) (Done b)
      | Done a, Ask c k => r ← ask c; par fuel (Done a) (k r)
      | Ask c k, Ask c' k' =>
          first ← ask Sched;
          if first : bool then r ← ask c; par fuel (k r) (Ask c' k')
          else r ← ask c'; par fuel (Ask c k) (k' r)
      end
  end.

Section serving.
  Variable cfg : Settings.
  Variable mode : shutdownMode.
  (** [informersStarted] and [worker != nil]. *)
  Variables informers worker : bool.

Definition drainBound : duration := (Z.max (CPUSeconds (s_Limits cfg)) (TraceSeconds (s_Limits cfg)) *! second) +! drainSlack.
Definition drain_api : sprog drained :=
  err ← ask (ShutdownAPI drainBound);
  match (err : drained) with
  | DeadlineClosed => _ ← ask CutInFlight; _ ← ask CloseAPI; mret DeadlineClosed
  | err => mret err
  end.
Definition drain_pgo : sprog (option bool) :=
  if worker then ok ← ask DrainWorker; mret (Some ok) else mret None.

(** Three calls of the one and one of the other. *)
Definition drain_fuel : nat := 5.

(** The closure [shutdown]. *)
Definition window : sprog unit :=
  let delay := srv_DrainDelay (s_Server cfg) in
  if (0 <? delay) && bool_decide (mode = drainEndpoints) then
    answered ← ask AnsweredReady;
    if answered : bool then ask (Sleep delay) else mret tt
  else mret tt.
Definition shutdown : sprog (option unit) :=
  _ ← ask (Store Draining);
  _ ← ask CloseDrainSignal;
  _ ← ask CancelRun;
  _ ← window;
  outcomes ← par drain_fuel drain_api drain_pgo;
  match (outcomes : option (drained * option bool)) with
  | None => mret None
  | Some (api, pgo) =>
      _ ← ask CancelInformers;
      _ ← (if informers then ask WaitInformers else mret tt);
      _ ← ask (ShutdownOps opsDrainTimeout);
      _ ← ask WaitServing;
      _ ← ask (LogComplete api pgo);
      mret (Some tt)
  end.
End serving.

(** ** The loop *)

Definition exit_after (p : sprog (option unit)) (code : Z) : sprog (option Z) :=
  r ← p; mret (match (r : option unit) with None => None | Some _ => Some code end).

Section gateway.
  Variable cfg : Settings.

Definition is_oidc : bool := String.eqb (auth_Mode (s_Auth cfg)) ModeOIDC.
Definition is_basic : bool := String.eqb (auth_Mode (s_Auth cfg)) ModeBasic.
Definition with_tls : bool := Enabled (srv_TLS (s_Server cfg)).
Definition with_pgo : bool := pgo_Enabled (s_PGO cfg).

(** [startPGO]. *)
Definition startPGO : sprog bool :=
  match DefaultPolicy (pgo_Defaults (s_PGO cfg)) with
  | None => mret false
  | Some _ => _ ← ask (Start PGOLoops); mret true
  end.

Fixpoint serve_loop (fuel : nat) (informers worker : bool) : sprog (option Z) :=
  match fuel with
  | O => mret None
  | S fuel =>
      e ← ask Select;
      match (e : event) with
      | Discovered false => exit_after (shutdown cfg drainEndpoints informers worker) 1
      | Discovered true =>
          _ ← ask (Store IssuerReady);
          _ ← ask (Start IssuerRun);
          _ ← ask (Start KubePreflight);
          serve_loop fuel informers worker
      | PreflightDone Passed =>
          _ ← ask (Start Informers);
          _ ← ask (Start WaitSynced);
          serve_loop fuel true worker
      | PreflightDone _ => exit_after (shutdown cfg drainEndpoints informers worker) 1
      | SyncedNow => _ ← ask DiscoverySynced; serve_loop fuel informers worker
      | NATSDone false => exit_after (shutdown cfg drainEndpoints informers worker) 1
      | NATSDone true =>
          _ ← ask (Store NATSReady);
          ok ← startPGO;
          if ok : bool then serve_loop fuel informers true
          else exit_after (shutdown cfg drainEndpoints informers worker) 1
      | ServeReturned true => serve_loop fuel informers worker
      | ServeReturned false => exit_after (shutdown cfg listenerFailed informers worker) 1
      | StopRequested => exit_after (shutdown cfg drainEndpoints informers worker) 0
      end
  end.

(** ** Startup *)

(** One of discovery, the preflight it makes wait, the two preflights and each of
    the two listeners, and the stop. *)
Definition loop_fuel : nat := 7.

Definition when (b : bool) (p : sprog unit) : sprog unit := if b then p else mret tt.
Definition start_all : sprog (option Z) :=
  _ ← ask (Start ServeAPI);
  _ ← ask (Start ServeOps);
  _ ← when with_tls (ask (Start CertsRun));
  _ ← when is_basic (ask (Start BasicRun));
  _ ← (if is_oidc then ask (Start IssuerDiscovery) else ask (Start KubePreflight));
  _ ← when with_pgo (ask (Start NATSPreflight));
  serve_loop loop_fuel false false.

Definition set_soft_limit : sprog unit :=
  l ← ask SoftLimit;
  match (l : option Z) with
  | None => mret tt
  | Some limit =>
      current ← ask (SetMemoryLimit (-1));
      if limit <? current then _ ← ask (SetMemoryLimit limit); mret tt else mret tt
  end.

(** What can end startup before anything is bound, in order. *)
Definition guarded (needed : bool) (c : serveCall bool) (k : sprog (option Z)) : sprog (option Z) :=
  if needed then ok ← ask c; if ok : bool then k else mret (Some 1) else k.
Definition serve_loaded : sprog (option Z) :=
  guarded (is_basic || is_oidc) (NewAuthenticator (auth_Mode (s_Auth cfg)))
    (guarded true NewRuntime
      (_ ← set_soft_limit;
       guarded (s_UI cfg) NewConsole
         (guarded with_tls NewCertificates
           (guarded true (Listen (srv_Listen (s_Server cfg)))
             (ok ← ask (Listen (srv_OpsListen (s_Server cfg)));
              if ok : bool then start_all
              else _ ← ask (CloseListener (srv_Listen (s_Server cfg))); mret (Some 1)))))).
End gateway.

(** [serve]. *)
Definition serve : sprog (option Z) :=
  c ← ask LoadConfig;
  match (c : option Settings) with
  | None => mret (Some 2)
  | Some cfg => serve_loaded cfg
  end.

(** ** What a run is seen to do

    The calls that matter to anyone but serve itself, in the order they are made. *)
Inductive mark :=
  | Bound (address : string) (ok : bool) | Released (address : string) | Started (g : goroutine) | Received (e : event)
  | Stored (f : flag) | SignalClosed | RunCancelled | Slept (d : duration) | APIDrained (bound : duration) (r : drained)
  | RequestsCut | APIClosed | WorkerDrained (ok : bool) | InformersCancelled | InformersStopped
  | OpsShutdown (bound : duration) | ServingDone.
#[export] Instance mark_dec : EqDecision mark.
Proof. solve_decision. Defined.

Definition mark_of (x : answered serveCall) : option mark :=
  match x with
  | At c r =>
      match c in serveCall R return R -> option mark with
      | Listen a => fun ok => Some (Bound a ok)
      | CloseListener a => fun _ => Some (Released a)
      | Start g => fun _ => Some (Started g)
      | Select => fun e => Some (Received e)
      | Store f => fun _ => Some (Stored f)
      | CloseDrainSignal => fun _ => Some SignalClosed
      | CancelRun => fun _ => Some RunCancelled
      | Sleep d => fun _ => Some (Slept d)
      | ShutdownAPI b => fun r => Some (APIDrained b r)
      | CutInFlight => fun _ => Some RequestsCut
      | CloseAPI => fun _ => Some APIClosed
      | DrainWorker => fun ok => Some (WorkerDrained ok)
      | CancelInformers => fun _ => Some InformersCancelled
      | WaitInformers => fun _ => Some InformersStopped
      | ShutdownOps b => fun _ => Some (OpsShutdown b)
      | WaitServing => fun _ => Some ServingDone
      | _ => fun _ => None
      end r
  end.
Definition trace (h : list (answered serveCall)) : list mark := omap mark_of (rev h).

Lemma trace_app (g h : list (answered serveCall)) : trace (g ++ h) = trace h ++ trace g.
Proof. unfold trace. by rewrite rev_app_distr, omap_app. Qed.
Lemma trace_cons (x : answered serveCall) (h : list (answered serveCall)) : trace (x :: h) = trace h ++ option_list (mark_of x).
Proof. change (x :: h) with ([x] ++ h). rewrite trace_app. done. Qed.

(** Two sequences of steps side by side. *)
Inductive interleaved {A} : list A -> list A -> list A -> Prop :=
  | both_ended : interleaved [] [] []
  | of_first a l l' m : interleaved l l' m -> interleaved (a :: l) l' (a :: m)
  | of_second a l l' m : interleaved l l' m -> interleaved l (a :: l') (a :: m).

Lemma interleaved_nil_l {A} (m : list A) : interleaved [] m m.
Proof. induction m; by constructor. Qed.
Lemma interleaved_nil_r {A} (m : list A) : interleaved m [] m.
Proof. induction m; by constructor. Qed.

Definition api_marks (bound : duration) (r : drained) : list mark :=
  APIDrained bound r :: match r with DeadlineClosed => [RequestsCut; APIClosed] | _ => [] end.
(** The drain, from the flag to the last wait. *)
Definition drains (cfg : Settings) (mode : shutdownMode) (informers worker : bool) (tr : list mark) : Prop :=
  exists answered r ok l,
    interleaved (api_marks (drainBound cfg) r) (if worker then [WorkerDrained ok] else []) l /\
    tr = [Stored Draining; SignalClosed; RunCancelled]
         ++ (if (0 <? srv_DrainDelay (s_Server cfg)) && bool_decide (mode = drainEndpoints) && answered
             then [Slept (srv_DrainDelay (s_Server cfg))] else [])
         ++ l ++ [InformersCancelled] ++ (if informers then [InformersStopped] else [])
         ++ [OpsShutdown opsDrainTimeout; ServingDone].

(** What a history has before an older one. *)
Ltac prefix_of l h :=
  match l with
  | h => constr:(@nil (answered serveCall))
  | ?x :: ?l' => let p := prefix_of l' h in constr:(x :: p)
  end.

Section shape.
  Variable cfg : Settings.

Lemma window_runs (mode : shutdownMode) h h' r :
  runs (window cfg mode) h h' r ->
  exists answered g, h' = g ++ h /\
    trace g = if (0 <? srv_DrainDelay (s_Server cfg)) && bool_decide (mode = drainEndpoints) && answered
              then [Slept (srv_DrainDelay (s_Server cfg))] else [].
Proof.
  unfold window. destruct (_ && _); intros H.
  - apply runs_ask in H as [[] H].
    + destruct H as [[] [<- <-]]. by exists true, [At (Sleep (srv_DrainDelay (s_Server cfg))) tt; At AnsweredReady true].
    + destruct H as [_ <-]. by exists false, [At AnsweredReady false].
  - destruct H as [_ <-]. by exists true, [].
Qed.

Lemma par_runs (worker : bool) h h' r :
  runs (par drain_fuel (drain_api cfg) (drain_pgo worker)) h h' r ->
  exists api pgo ok g, r = Some (api, pgo) /\ h' = g ++ h /\
    interleaved (api_marks (drainBound cfg) api) (if worker then [WorkerDrained ok] else []) (trace g).
Proof.
  intros H. unfold drain_fuel, drain_pgo in H.
  destruct worker; cbn in H;
    repeat match type of H with
      | exists x : ?T, _ => let x := fresh "x" in destruct H as [x H]; try (destruct x; [..]); cbn in H
      end;
    destruct H as [<- <-].
  all: match goal with |- exists api pgo ok g, _ /\ ?l = _ /\ _ =>
    let g := prefix_of l h in
    do 2 eexists; first [exists true; exists g; split_and!; [reflexivity|reflexivity|by cbn; repeat constructor]
                        |exists false; exists g; split_and!; [reflexivity|reflexivity|by cbn; repeat constructor]] end.
Qed.

Lemma shutdown_runs (mode : shutdownMode) (informers worker : bool) h h' r :
  runs (shutdown cfg mode informers worker) h h' r ->
  r = Some tt /\ exists g, h' = g ++ h /\ drains cfg mode informers worker (trace g).
Proof.
  intros H. unfold shutdown in H. do 3 apply runs_ask in H as [[] H].
  apply runs_bind in H as ([] & h1 & Hw & H). apply window_runs in Hw as (answered & gw & -> & Hw).
  apply runs_bind in H as (o & h2 & Hp & H). apply par_runs in Hp as (api & pgo & ok & gp & -> & -> & Hp).
  apply runs_ask in H as [[] H]. apply runs_bind in H as ([] & h3 & Hi & H).
  assert (exists gi, h3 = gi ++ At CancelInformers tt :: gp ++ gw ++ At CancelRun tt :: At CloseDrainSignal tt :: At (Store Draining) tt :: h
    /\ trace gi = if informers then [InformersStopped] else []) as (gi & -> & Ht).
  { destruct informers; [destruct Hi as [[] [_ <-]]; by exists [At WaitInformers tt]|destruct Hi as [_ <-]; by exists []]. }
  do 3 apply runs_ask in H as [[] H]. destruct H as [<- <-]. split; [done|].
  exists ([At (LogComplete api pgo) tt; At WaitServing tt; At (ShutdownOps opsDrainTimeout) tt] ++ gi ++ [At CancelInformers tt]
    ++ gp ++ gw ++ [At CancelRun tt; At CloseDrainSignal tt; At (Store Draining) tt]).
  split; [by rewrite <-!app_assoc|]. exists answered, api, ok, (trace gp). split; [done|].
  rewrite !trace_app, Ht, Hw. rewrite <-!app_assoc. done.
Qed.

(** What the loop does on an event it goes on after, and on one it ends with. *)
Definition policy_ok : bool := bool_decide (is_Some (DefaultPolicy (pgo_Defaults (s_PGO cfg)))).
Definition goes_on (e : event) : bool :=
  match e with
  | Discovered ok | ServeReturned ok => ok
  | PreflightDone Passed | SyncedNow => true
  | NATSDone ok => ok && policy_ok
  | _ => false
  end.
Definition reaction (e : event) : list mark :=
  Received e ::
  match e with
  | Discovered true => [Stored IssuerReady; Started IssuerRun; Started KubePreflight]
  | PreflightDone Passed => [Started Informers; Started WaitSynced]
  | NATSDone true => Stored NATSReady :: (if policy_ok then [Started PGOLoops] else [])
  | _ => []
  end.
Definition exit_mode (e : event) : shutdownMode := match e with ServeReturned _ => listenerFailed | _ => drainEndpoints end.
Definition exit_code (e : event) : Z := match e with StopRequested => 0 | _ => 1 end.

(** The loop past events it went on after: it goes on, or has drained. *)
Definition loop_trace (informers worker : bool) (es : list event) (last : option event) (tr : list mark) : Prop :=
  Forall (fun e => goes_on e = true) es /\
  match last with
  | None => tr = mjoin (reaction <$> es)
  | Some e =>
      goes_on e = false /\ exists d,
        drains cfg (exit_mode e) (informers || bool_decide (PreflightDone Passed ∈ es)) (worker || bool_decide (NATSDone true ∈ es)) d /\
        tr = mjoin (reaction <$> es) ++ reaction e ++ d
  end.

Lemma exit_after_runs (mode : shutdownMode) (code : Z) (informers worker : bool) h h' r :
  runs (exit_after (shutdown cfg mode informers worker) code) h h' r ->
  r = Some code /\ exists g, h' = g ++ h /\ drains cfg mode informers worker (trace g).
Proof.
  intros H. apply runs_bind in H as (x & h1 & Hx & H). apply shutdown_runs in Hx as (-> & g & -> & Hd).
  destruct H as [<- <-]. split; [done|]. by exists g.
Qed.

Lemma loop_trace_cons (informers worker : bool) (e : event) (es : list event) (last : option event) (tr : list mark) :
  goes_on e = true ->
  loop_trace (informers || bool_decide (e = PreflightDone Passed)) (worker || bool_decide (e = NATSDone true)) es last tr ->
  loop_trace informers worker (e :: es) last (reaction e ++ tr).
Proof.
  intros He [H1 H2]. split; [by constructor|]. rewrite fmap_cons. change (mjoin (reaction e :: (reaction <$> es))) with
    (reaction e ++ mjoin (reaction <$> es)).
  assert (forall x, bool_decide (x ∈ e :: es) = bool_decide (e = x) || bool_decide (x ∈ es)) as Hx.
  { intros x. apply eq_bool_prop_intro. rewrite orb_True, !bool_decide_spec, elem_of_cons. naive_solver. }
  destruct last as [e'|]; [|by rewrite H2]. destruct H2 as (H2 & d & Hd & ->). split; [done|]. exists d.
  rewrite !Hx, !orb_assoc. split; [exact Hd|by rewrite app_assoc].
Qed.

Lemma loop_runs (fuel : nat) (informers worker : bool) h h' r :
  runs (serve_loop cfg fuel informers worker) h h' r ->
  exists g es last, h' = g ++ h /\ loop_trace informers worker es last (trace g) /\
    r = (exit_code <$> last) /\ (last = None -> length es = fuel).
Proof.
  revert informers worker h. induction fuel as [|fuel IH]; intros informers worker h H; cbn [serve_loop] in H.
  { destruct H as [<- <-]. exists [], [], None. by split_and!. }
  apply runs_ask in H as [e H].
  assert (forall mode code, runs (exit_after (shutdown cfg mode informers worker) code) (At Select e :: h) h' r ->
    goes_on e = false -> mode = exit_mode e -> code = exit_code e -> reaction e = [Received e] ->
    exists g es last, h' = g ++ h /\ loop_trace informers worker es last (trace g) /\
    r = (exit_code <$> last) /\ (last = None -> length es = S fuel)) as Hexit.
  { intros mode code Hr Hg -> -> Hre. apply exit_after_runs in Hr as (-> & g & -> & Hd).
    exists (g ++ [At Select e]), [], (Some e). split_and!; [by rewrite <-app_assoc| |done|done].
    split; [constructor|]. split; [done|]. exists (trace g). rewrite Hre, trace_app. cbn. rewrite !orb_false_r. done. }
  assert (forall g0 inf' wk', runs (serve_loop cfg fuel inf' wk') (g0 ++ h) h' r ->
    goes_on e = true -> trace g0 = reaction e ->
    inf' = informers || bool_decide (e = PreflightDone Passed) -> wk' = worker || bool_decide (e = NATSDone true) ->
    exists g es last, h' = g ++ h /\ loop_trace informers worker es last (trace g) /\
    r = (exit_code <$> last) /\ (last = None -> length es = S fuel)) as Hgo.
  { intros g0 inf' wk' Hr Hg Ht -> ->. apply IH in Hr as (g & es & last & -> & Hl & -> & Hn).
    exists (g ++ g0), (e :: es), last. split_and!; [by rewrite <-app_assoc| |done|].
    - rewrite trace_app, Ht. by apply loop_trace_cons.
    - intros Hx. simpl. by rewrite Hn. }
  destruct e as [[|]|[|t|]| |[|]|[|]|].
  - do 3 apply runs_ask in H as [[] H].
    apply (Hgo [At (Start KubePreflight) tt; At (Start IssuerRun) tt; At (Store IssuerReady) tt; At Select (Discovered true)]
      informers worker H); by rewrite ?orb_false_r.
  - by eapply Hexit.
  - do 2 apply runs_ask in H as [[] H].
    apply (Hgo [At (Start WaitSynced) tt; At (Start Informers) tt; At Select (PreflightDone Passed)] true worker H);
      by rewrite ?orb_false_r, ?orb_true_r.
  - by eapply Hexit.
  - by eapply Hexit.
  - apply runs_ask in H as [[] H].
    apply (Hgo [At DiscoverySynced tt; At Select SyncedNow] informers worker H); by rewrite ?orb_false_r.
  - apply runs_ask in H as [[] H]. apply runs_bind in H as (ok & h1 & Hs & H). unfold startPGO in Hs.
    assert (policy_ok = match DefaultPolicy (pgo_Defaults (s_PGO cfg)) with Some _ => true | None => false end) as Hpol
      by (unfold policy_ok; by destruct (DefaultPolicy _)).
    destruct (DefaultPolicy _).
    + apply runs_ask in Hs as [[] [<- <-]].
      apply (Hgo [At (Start PGOLoops) tt; At (Store NATSReady) tt; At Select (NATSDone true)] informers true H);
        unfold goes_on, reaction; rewrite ?Hpol, ?orb_false_r, ?orb_true_r; done.
    + destruct Hs as [<- <-]. apply exit_after_runs in H as (-> & g & -> & Hd).
      exists (g ++ [At (Store NATSReady) tt; At Select (NATSDone true)]), [], (Some (NATSDone true)).
      split_and!; [by rewrite <-app_assoc| |done|done]. split; [constructor|]. split; [cbn; by rewrite Hpol|].
      exists (trace g). rewrite trace_app. unfold reaction. rewrite Hpol. cbn. rewrite !orb_false_r. done.
  - by eapply Hexit.
  - apply (Hgo [At Select (ServeReturned true)] informers worker H); by rewrite ?orb_false_r.
  - by eapply Hexit.
  - by eapply Hexit.
Qed.
End shape.

(** ** What can be received

    A channel gets what its goroutines send, each once at most and only when it
    was started; the stop is closed from outside. *)
Inductive chan := discoverCh | preflightCh | syncedCh | natsCh | errCh | stop.
#[export] Instance chan_dec : EqDecision chan.
Proof. solve_decision. Defined.
Definition chan_of (e : event) : chan :=
  match e with
  | Discovered _ => discoverCh
  | PreflightDone _ => preflightCh
  | SyncedNow => syncedCh
  | NATSDone _ => natsCh
  | ServeReturned _ => errCh
  | StopRequested => stop
  end.
Definition sender (g : goroutine) : option chan :=
  match g with
  | IssuerDiscovery => Some discoverCh
  | KubePreflight => Some preflightCh
  | WaitSynced => Some syncedCh
  | NATSPreflight => Some natsCh
  | ServeAPI | ServeOps => Some errCh
  | _ => None
  end.
Definition count (f : mark -> bool) (tr : list mark) : nat := length (List.filter f tr).
Definition received_on (c : chan) (m : mark) : bool := match m with Received e => bool_decide (chan_of e = c) | _ => false end.
Definition started_for (c : chan) (m : mark) : bool := match m with Started g => bool_decide (sender g = Some c) | _ => false end.
Definition sent_once (tr : list mark) : Prop :=
  forall c, c <> stop -> (count (received_on c) tr <= count (started_for c) tr)%nat.

Lemma count_app (f : mark -> bool) (a b : list mark) : count f (a ++ b) = (count f a + count f b)%nat.
Proof. unfold count. by rewrite List.filter_app, length_app. Qed.

(** The decisions of a goal that are settled. *)
Ltac decided :=
  repeat match goal with
  | |- context [bool_decide ?P] => let b := eval vm_compute in (bool_decide P) in change (bool_decide P) with b; cbn iota
  end.

Lemma reactions_count (cfg : Settings) (es : list event) :
  Forall (fun e => goes_on cfg e = true) es ->
  let tr := mjoin (reaction cfg <$> es) in
  length es = (count (received_on discoverCh) tr + count (received_on preflightCh) tr + count (received_on syncedCh) tr
               + count (received_on natsCh) tr + count (received_on errCh) tr)%nat /\
  count (started_for discoverCh) tr = 0%nat /\ count (started_for preflightCh) tr = count (received_on discoverCh) tr /\
  count (started_for syncedCh) tr = count (received_on preflightCh) tr /\ count (started_for natsCh) tr = 0%nat /\
  count (started_for errCh) tr = 0%nat.
Proof.
  induction 1 as [|e es He _ IH]; [done|]. cbv zeta in *. rewrite fmap_cons.
  change (mjoin (reaction cfg e :: (reaction cfg <$> es))) with (reaction cfg e ++ mjoin (reaction cfg <$> es)).
  set (tr := mjoin (reaction cfg <$> es)) in *. clearbody tr. rewrite !count_app. cbn [length].
  destruct IH as (IH & H1 & H2 & H3 & H4 & H5). rewrite IH, H1, H2, H3, H4, H5.
  generalize (count (received_on discoverCh) tr), (count (received_on preflightCh) tr), (count (received_on syncedCh) tr),
    (count (received_on natsCh) tr), (count (received_on errCh) tr). clear -He. intros a b c d f.
  unfold goes_on, reaction in *. destruct e as [[|]|[|t|]| |[|]|[|]|]; try discriminate He;
    cbn [andb] in He; rewrite ?He; cbn; decided; cbn; lia.
Qed.

(** ** Startup *)

Definition startup (cfg : Settings) : list mark :=
  [Bound (srv_Listen (s_Server cfg)) true; Bound (srv_OpsListen (s_Server cfg)) true; Started ServeAPI; Started ServeOps]
  ++ (if with_tls cfg then [Started CertsRun] else []) ++ (if is_basic cfg then [Started BasicRun] else [])
  ++ [Started (if is_oidc cfg then IssuerDiscovery else KubePreflight)]
  ++ (if with_pgo cfg then [Started NATSPreflight] else []).

Lemma loop_bounded (cfg : Settings) (es : list event) :
  Forall (fun e => goes_on cfg e = true) es ->
  sent_once (startup cfg ++ mjoin (reaction cfg <$> es)) -> (length es < loop_fuel)%nat.
Proof.
  intros Hg Hs. destruct (reactions_count cfg es Hg) as (Hl & H1 & H2 & H3 & H4 & H5).
  set (tr := mjoin (reaction cfg <$> es)) in *. clearbody tr.
  assert (forall c, count (received_on c) (startup cfg) = 0%nat /\
    count (started_for c) (startup cfg) =
      match c with
      | discoverCh => if is_oidc cfg then 1 else 0
      | preflightCh => if is_oidc cfg then 0 else 1
      | natsCh => if with_pgo cfg then 1 else 0
      | errCh => 2
      | _ => 0
      end%nat) as Hstart.
  { intros c. unfold startup. destruct (with_tls cfg), (is_basic cfg), (is_oidc cfg), (with_pgo cfg), c; by vm_compute. }
  assert (forall c, c <> stop -> (count (received_on c) tr <= match c with
      | discoverCh => if is_oidc cfg then 1 else 0
      | preflightCh => if is_oidc cfg then 0 else 1
      | natsCh => if with_pgo cfg then 1 else 0
      | errCh => 2
      | _ => 0
      end + count (started_for c) tr)%nat) as Hc.
  { intros c Hne. specialize (Hs c Hne). rewrite !count_app in Hs. destruct (Hstart c) as [E1 E2]. rewrite E1, E2 in Hs. lia. }
  pose proof (Hc discoverCh ltac:(done)) as C1. pose proof (Hc preflightCh ltac:(done)) as C2.
  pose proof (Hc syncedCh ltac:(done)) as C3. pose proof (Hc natsCh ltac:(done)) as C4. pose proof (Hc errCh ltac:(done)) as C5.
  cbv iota in C1, C2, C3, C4, C5. unfold loop_fuel. destruct (is_oidc cfg), (with_pgo cfg); lia.
Qed.

Lemma guarded_runs (needed : bool) (c : serveCall bool) (k : sprog (option Z)) h h' r :
  runs (guarded needed c k) h h' r ->
  (exists h1, h1 = (if needed then At c true :: h else h) /\ runs k h1 h' r) \/
  needed = true /\ r = Some 1 /\ h' = At c false :: h.
Proof.
  unfold guarded. destruct needed; intros H; [|left; by exists h].
  apply runs_ask in H as [[] H]; [left; by exists (At c true :: h)|right]. by destruct H as [<- <-].
Qed.
Lemma when_runs (b : bool) (g : goroutine) h h' r :
  runs (when b (ask (Start g))) h h' r -> exists x, h' = x ++ h /\ trace x = if b then [Started g] else [].
Proof.
  unfold when. destruct b; intros H; [destruct H as [[] [_ <-]]; by exists [At (Start g) tt]|destruct H as [_ <-]; by exists []].
Qed.
Lemma set_soft_limit_runs h h' r : runs set_soft_limit h h' r -> exists x, h' = x ++ h /\ trace x = [].
Proof.
  unfold set_soft_limit. intros H. apply runs_ask in H as [[limit|] H].
  - apply runs_ask in H as [current H]. destruct (limit <? current).
    + destruct H as [z [_ <-]]. by exists [At (SetMemoryLimit limit) z; At (SetMemoryLimit (-1)) current; At SoftLimit (Some limit)].
    + destruct H as [_ <-]. by exists [At (SetMemoryLimit (-1)) current; At SoftLimit (Some limit)].
  - destruct H as [_ <-]. by exists [At SoftLimit None].
Qed.

Lemma start_all_runs (cfg : Settings) h h' r :
  trace h = [Bound (srv_Listen (s_Server cfg)) true; Bound (srv_OpsListen (s_Server cfg)) true] ->
  runs (start_all cfg) h h' r ->
  exists es last tr, trace h' = startup cfg ++ tr /\ loop_trace cfg false false es last tr /\ r = (exit_code <$> last) /\
    (last = None -> length es = loop_fuel).
Proof.
  intros Ht H. unfold start_all in H. do 2 apply runs_ask in H as [[] H].
  apply runs_bind in H as ([] & h1 & H1 & H). apply when_runs in H1 as (x1 & -> & T1).
  apply runs_bind in H as ([] & h2 & H2 & H). apply when_runs in H2 as (x2 & -> & T2).
  apply runs_bind in H as ([] & h3 & H3 & H).
  assert (exists x3, h3 = x3 ++ x2 ++ x1 ++ At (Start ServeOps) tt :: At (Start ServeAPI) tt :: h /\
    trace x3 = [Started (if is_oidc cfg then IssuerDiscovery else KubePreflight)]) as (x3 & -> & T3).
  { destruct (is_oidc cfg); destruct H3 as [[] [_ <-]];
      [by exists [At (Start IssuerDiscovery) tt]|by exists [At (Start KubePreflight) tt]]. }
  apply runs_bind in H as ([] & h4 & H4 & H). apply when_runs in H4 as (x4 & -> & T4).
  apply loop_runs in H as (g & es & last & -> & Hl & Hr & Hn). exists es, last, (trace g). split_and!; [|done..].
  change (At (Start ServeOps) tt :: At (Start ServeAPI) tt :: h) with ([At (Start ServeOps) tt; At (Start ServeAPI) tt] ++ h).
  rewrite !trace_app, Ht, T1, T2, T3, T4. unfold startup. by rewrite <-!app_assoc.
Qed.

Definition unbound (cfg : Settings) : list (list mark) :=
  let api := srv_Listen (s_Server cfg) in
  [[]; [Bound api false]; [Bound api true; Bound (srv_OpsListen (s_Server cfg)) false; Released api]].

Lemma loaded_runs (cfg : Settings) h log r :
  trace h = [] -> runs (serve_loaded cfg) h log r ->
  (r = Some 1 /\ trace log ∈ unbound cfg) \/
  exists es last tr, trace log = startup cfg ++ tr /\ loop_trace cfg false false es last tr /\ r = (exit_code <$> last) /\
    (sent_once (trace log) -> is_Some last).
Proof.
  intros H0 Hr. unfold serve_loaded in Hr. unfold unbound.
  apply guarded_runs in Hr as [(h1 & Hh1 & Hr)|(_ & -> & ->)]; [|left; split; [done|]; rewrite trace_cons, H0; logged].
  assert (trace h1 = []) as H1 by (subst h1; destruct (_ || _); [by rewrite trace_cons, H0|done]). clear Hh1 H0.
  apply guarded_runs in Hr as [(h2 & Hh2 & Hr)|(_ & -> & ->)]; [|left; split; [done|]; rewrite trace_cons, H1; logged].
  assert (trace h2 = []) as H2 by (subst h2; by rewrite trace_cons, H1). clear Hh2 H1.
  apply runs_bind in Hr as ([] & h3 & Hs & Hr). apply set_soft_limit_runs in Hs as (x & -> & Hx).
  assert (trace (x ++ h2) = []) as H3 by (by rewrite trace_app, Hx, H2). set (h3 := x ++ h2) in *. clearbody h3. clear H2 Hx x h2.
  apply guarded_runs in Hr as [(h4 & Hh4 & Hr)|(_ & -> & ->)]; [|left; split; [done|]; rewrite trace_cons, H3; logged].
  assert (trace h4 = []) as H4 by (subst h4; destruct (s_UI cfg); [by rewrite trace_cons, H3|done]). clear Hh4 H3.
  apply guarded_runs in Hr as [(h5 & Hh5 & Hr)|(_ & -> & ->)]; [|left; split; [done|]; rewrite trace_cons, H4; logged].
  assert (trace h5 = []) as H5 by (subst h5; destruct (with_tls cfg); [by rewrite trace_cons, H4|done]). clear Hh5 H4.
  apply guarded_runs in Hr as [(h6 & Hh6 & Hr)|(_ & -> & ->)]; [|left; split; [done|]; rewrite trace_cons, H5; cbv zeta; logged].
  cbv iota in Hh6. apply runs_ask in Hr as [[|] Hr].
  - right. apply start_all_runs in Hr as (es & last & tr & Ht & Hl & -> & Hn); [|by rewrite Hh6, !trace_cons, H5].
    exists es, last, tr. split_and!; [done..|]. intros Hsent. destruct last as [e|]; [by eexists|exfalso].
    specialize (Hn eq_refl). destruct Hl as [Hg ->]. rewrite Ht in Hsent. apply loop_bounded in Hsent; [|done]. lia.
  - left. apply runs_ask in Hr as [[] [<- <-]]. split; [done|]. rewrite Hh6, !trace_cons, H5. cbv zeta. logged.
Qed.

(** C16: the run of a replica, from its configuration to its exit.  It is one of three:
    the configuration cannot be read, and nothing is done; something fails before
    the second listener is bound, and then nothing was started and a listener that
    was bound is closed again; or both listeners serve, and what is seen is the
    startup, the loop's reaction to every event it goes on after, in the order
    they were received, its reaction to the one it ends with, and one drain, from
    the readiness flag to the wait for both Serve calls, which knows of the
    informers and of the loops that were started; the code is zero for a requested
    stop alone.  The channels hold no more than six events to go on after, so the
    loop ends. *)
Theorem serve_trace (log : list (answered serveCall)) (r : option Z) (Hr : runs serve [] log r) :
  (r = Some 2 /\ log = [At LoadConfig None]) \/
  exists cfg, At LoadConfig (Some cfg) ∈ log /\
    ((r = Some 1 /\ trace log ∈ unbound cfg) \/
     exists es last tr, trace log = startup cfg ++ tr /\ loop_trace cfg false false es last tr /\ r = (exit_code <$> last) /\
       (sent_once (trace log) -> is_Some last)).
Proof.
  unfold serve in Hr. apply runs_ask in Hr as [[cfg|] Hr]; [right|left; by destruct Hr as [<- <-]].
  exists cfg. assert (exists g, log = g ++ [At LoadConfig (Some cfg)]) as [g0 Hg0] by by eapply runs_grows.
  split; [rewrite Hg0; apply elem_of_app; right; logged|]. by apply loaded_runs in Hr.
Qed.

(** ** Readiness

    What the probes read: the flags stored so far, and whether the caches have
    synced, which the informers alone report. *)
Definition stored (f : flag) (p : list mark) : bool := bool_decide (Stored f ∈ p).
Definition handlersReady (cfg : Settings) (p : list mark) (synced : bool) : bool :=
  (negb (is_oidc cfg) || stored IssuerReady p) && synced.
Definition ready (cfg : Settings) (p : list mark) (synced : bool) : bool :=
  negb (stored Draining p) && (negb (is_oidc cfg) || stored IssuerReady p) && synced
  && (negb (with_pgo cfg) || stored NATSReady p).

(** The event a mark answers. *)
Definition cause (m : mark) : option event :=
  match m with
  | Stored IssuerReady | Started IssuerRun => Some (Discovered true)
  | Started Informers | Started WaitSynced => Some (PreflightDone Passed)
  | Stored NATSReady | Started PGOLoops => Some (NATSDone true)
  | _ => None
  end.
Definition explained (p : list mark) : Prop := forall m e, m ∈ p -> cause m = Some e -> Received e ∈ p.
Definition prefixes (P : list mark -> Prop) (l : list mark) : Prop := forall p q, l = p ++ q -> P p.

Lemma explained_app (a b : list mark) : explained a -> explained b -> explained (a ++ b).
Proof. intros Ha Hb m e Hm Hc. apply elem_of_app in Hm as [Hm|Hm]; apply elem_of_app; [left|right]; eauto. Qed.
Lemma prefixes_app (a b : list mark) : prefixes explained a -> prefixes explained b -> prefixes explained (a ++ b).
Proof.
  intros Ha Hb p q H. apply app_eq_app in H as (l & [[-> ->]|[-> ->]]); [by eapply Ha|].
  apply explained_app; [by apply (Ha a []); rewrite app_nil_r|by eapply Hb].
Qed.
Lemma prefixes_uncaused (l : list mark) : Forall (fun m => cause m = None) l -> prefixes explained l.
Proof.
  intros H p q -> m e Hm Hc. apply Forall_app in H as [H _]. rewrite Forall_forall in H. rewrite H in Hc by done. done.
Qed.
Lemma prefixes_reaction (cfg : Settings) (e : event) : prefixes explained (reaction cfg e).
Proof.
  intros p q H m e' Hm Hc. destruct p as [|x p]; [by apply elem_of_nil in Hm|].
  assert (x = Received e) as -> by (unfold reaction in H; by injection H).
  assert (m ∈ reaction cfg e) as Hr by (rewrite H; apply elem_of_app; by left).
  assert (e' = e) as ->; [|by left].
  unfold reaction in Hr. destruct e as [[|]|[|t|]| |[|]|[|]|];
    repeat match goal with H : _ ∈ _ :: _ |- _ => apply elem_of_cons in H as [->|H]; [first [discriminate Hc|injection Hc as <-; reflexivity]|] end;
    try (by apply elem_of_nil in Hr). destruct (policy_ok cfg); [|by apply elem_of_nil in Hr].
  apply list_elem_of_singleton in Hr as ->. by injection Hc as <-.
Qed.
Lemma prefixes_reactions (cfg : Settings) (es : list event) : prefixes explained (mjoin (reaction cfg <$> es)).
Proof.
  induction es as [|e es IH]; [by apply prefixes_uncaused|]. rewrite fmap_cons.
  change (mjoin (reaction cfg e :: (reaction cfg <$> es))) with (reaction cfg e ++ mjoin (reaction cfg <$> es)).
  apply prefixes_app; [apply prefixes_reaction|exact IH].
Qed.

Lemma interleaved_in {A} (l l' m : list A) (x : A) : interleaved l l' m -> x ∈ m -> x ∈ l \/ x ∈ l'.
Proof.
  induction 1 as [|a l l' m _ IH|a l l' m _ IH]; [by right| |]; intros [->|Hx]%elem_of_cons;
    try (by left; left); try (by right; left); destruct (IH Hx); [left; by right|by right|by left|right; by right].
Qed.
Lemma drains_uncaused (cfg : Settings) (mode : shutdownMode) (informers worker : bool) (tr : list mark) :
  drains cfg mode informers worker tr -> Forall (fun m => cause m = None) tr.
Proof.
  intros (answered & r & ok & l & Hi & ->). apply Forall_forall. intros m Hm.
  assert (m ∈ l -> cause m = None) as Hl.
  { intros H. apply (interleaved_in _ _ _ _ Hi) in H as [H|H]; [destruct r|destruct worker];
      repeat (apply elem_of_cons in H as [->|H]; [done|]); by apply elem_of_nil in H. }
  rewrite !elem_of_app in Hm.
  destruct Hm as [Hm|[Hm|[Hm|[Hm|[Hm|Hm]]]]]; [|destruct (_ && _)|by apply Hl| |destruct informers|];
    repeat (apply elem_of_cons in Hm as [->|Hm]; [done|]); by apply elem_of_nil in Hm.
Qed.

(** The steps of a run before its drain. *)
Lemma before_drain (cfg : Settings) (es : list event) (last : list event) (m : mark) :
  m ∈ startup cfg ++ mjoin (reaction cfg <$> es) ++ mjoin (reaction cfg <$> last) ->
  m <> RunCancelled /\ (forall b d, m <> APIDrained b d).
Proof.
  intros Hm. rewrite !elem_of_app in Hm.
  assert (forall l, m ∈ mjoin (reaction cfg <$> l) -> m <> RunCancelled /\ (forall b d, m <> APIDrained b d)) as Hr.
  { intros l H. apply list_elem_of_join in H as (x & H & Hx). apply list_elem_of_fmap in Hx as (e & -> & _).
    unfold reaction in H. destruct e as [[|]|[|t|]| |[|]|[|]|];
      repeat (apply elem_of_cons in H as [->|H]; [by split|]); try (by apply elem_of_nil in H).
    destruct (policy_ok cfg); [|by apply elem_of_nil in H]. apply list_elem_of_singleton in H as ->. by split. }
  destruct Hm as [Hm|[Hm|Hm]]; [|by eapply Hr..]. unfold startup in Hm. rewrite !elem_of_app in Hm.
  destruct Hm as [Hm|[Hm|[Hm|[Hm|Hm]]]];
    [|destruct (with_tls cfg)|destruct (is_basic cfg)| |destruct (with_pgo cfg)];
    repeat (apply elem_of_cons in Hm as [->|Hm]; [by split|]); by apply elem_of_nil in Hm.
Qed.

(** A run is a startup, a loop, and a drain or nothing. *)
Lemma run_parts (cfg : Settings) h log r :
  trace h = [] -> runs (serve_loaded cfg) h log r ->
  trace log ∈ unbound cfg \/
  exists es last d, trace log = (startup cfg ++ mjoin (reaction cfg <$> es) ++ mjoin (reaction cfg <$> last)) ++ d /\
    (d = [] \/ exists mode informers worker, drains cfg mode informers worker d).
Proof.
  intros H0 Hr. apply loaded_runs in Hr as [[_ H]|(es & last & tr & Ht & [_ Hl] & _ & _)]; [by left| |exact H0]. right.
  destruct last as [e|].
  - destruct Hl as (_ & d & Hd & ->). exists es, [e], d.
    change (mjoin (reaction cfg <$> [e])) with (reaction cfg e ++ []). rewrite app_nil_r, Ht, <-!app_assoc. split; [done|right].
    by do 3 eexists.
  - exists es, [], []. change (mjoin (reaction cfg <$> [])) with (@nil mark).
    rewrite !app_nil_r, Ht, Hl. split; [done|by left].
Qed.

Lemma run_explained (cfg : Settings) h log r :
  trace h = [] -> runs (serve_loaded cfg) h log r -> prefixes explained (trace log).
Proof.
  intros H0 Hr. apply run_parts in Hr as [Hu|(es & last & d & -> & Hd)]; [| |done].
  - apply prefixes_uncaused. unfold unbound in Hu. repeat (apply elem_of_cons in Hu as [->|Hu]; [by repeat constructor|]).
    by apply elem_of_nil in Hu.
  - apply prefixes_app.
    + apply prefixes_app; [|by apply prefixes_app; apply prefixes_reactions].
      apply prefixes_uncaused. unfold startup. destruct (with_tls cfg), (is_basic cfg), (is_oidc cfg), (with_pgo cfg);
        by repeat constructor.
    + apply prefixes_uncaused. destruct Hd as [->|(mode & informers & worker & Hd)]; [constructor|by eapply drains_uncaused].
Qed.

Lemma needed_stored (b : bool) (P : Prop) `{Decision P} : negb b || bool_decide P = true -> b = true -> P.
Proof. intros Hb ->. by apply bool_decide_eq_true in Hb. Qed.

(** C17: what a probe can count on, asked at any moment of a run.  A replica that
    answers ready serves both listeners, its ClusterRole was exercised, and under
    oidc its issuer and with collection the NATS buckets were reached, each of
    which the loop has been told; nothing has been cancelled and no listener shut.
    Once it has begun to drain it never answers ready again, while its handlers go
    on answering as long as the caches stand. *)
Theorem ready_replica (cfg : Settings) (log : list (answered serveCall)) (r : option Z) (p q : list mark) (synced : bool)
    (Hr : runs (serve_loaded cfg) [] log r) (Hp : trace log = p ++ q)
    (Hsynced : synced = true -> Started Informers ∈ p) (Hready : ready cfg p synced = true) :
  (exists p', p = startup cfg ++ p') /\
  Received (PreflightDone Passed) ∈ p /\
  (is_oidc cfg = true -> Received (Discovered true) ∈ p) /\
  (with_pgo cfg = true -> Received (NATSDone true) ∈ p) /\
  RunCancelled ∉ p /\ (forall b d, APIDrained b d ∉ p) /\
  (forall q1 synced', Stored Draining ∈ q1 -> ready cfg (p ++ q1) synced' = false /\ handlersReady cfg (p ++ q1) synced' = synced').
Proof.
  unfold ready in Hready. to_prop. unfold stored in *. to_prop.
  assert (Started Informers ∈ p) as Hinf by by apply Hsynced.
  pose proof (run_explained cfg [] log r eq_refl Hr p q Hp) as He.
  apply run_parts in Hr as [Hu|(es & last & d & Ht & Hd)]; [| |done].
  { exfalso. assert (Started Informers ∈ trace log) as Hin by (rewrite Hp; apply elem_of_app; by left).
    assert (Forall (fun l => Started Informers ∉ l) (unbound cfg)) as Hf.
    { repeat constructor; apply (bool_decide_unpack _); vm_compute; exact I. }
    rewrite Forall_forall in Hf. by apply (Hf _ Hu). }
  set (b := startup cfg ++ mjoin (reaction cfg <$> es) ++ mjoin (reaction cfg <$> last)) in *.
  assert (exists l, b = p ++ l) as [l Hl].
  { rewrite Ht in Hp. apply app_eq_app in Hp as (l & [[-> _]|[-> Hq]]); [by exists l|]. exists []. rewrite app_nil_r.
    destruct l as [|m l]; [by rewrite app_nil_r|exfalso].
    destruct Hd as [->|(mode & informers & worker & answered & x & ok & y & _ & Hd)]; [done|].
    rewrite Hd in Hq. injection Hq as <- _. match goal with H : Stored Draining ∉ _ |- _ => apply H end.
    apply elem_of_app. right. by left. }
  assert (forall m, m ∈ p -> m <> RunCancelled /\ (forall b d, m <> APIDrained b d)) as Hb.
  { intros m Hm. apply (before_drain cfg es last). fold b. rewrite Hl. apply elem_of_app. by left. }
  split_and!.
  - unfold b in Hl. apply app_eq_app in Hl as (x & [[Hx _]|[Hx _]]); [exfalso|by exists x].
    assert (Started Informers ∈ startup cfg) as Hst by (rewrite Hx; apply elem_of_app; by left). revert Hst.
    apply (bool_decide_unpack _). unfold startup. destruct (with_tls cfg), (is_basic cfg), (is_oidc cfg), (with_pgo cfg); vm_compute; exact I.
  - by apply (He (Started Informers)).
  - intros Ho. apply (He (Stored IssuerReady)); [|done]. by apply (needed_stored _ _ H2).
  - intros Ho. apply (He (Stored NATSReady)); [|done]. by apply (needed_stored _ _ H0).
  - intros Hm. by destruct (Hb _ Hm).
  - intros x d' Hm. destruct (Hb _ Hm) as [_ Hx]. by apply (Hx x d').
  - intros q1 synced' Hq. unfold ready, handlersReady, stored. split.
    + by rewrite bool_decide_true by (apply elem_of_app; by right).
    + rewrite bool_decide_decide. destruct (is_oidc cfg) eqn:Eo; [|done]. cbn [negb orb].
      rewrite decide_True; [done|]. apply elem_of_app. left. by apply (needed_stored _ _ H2).
Qed.

(** ** The time of a drain *)









(** ** A run *)

Definition demo_events : list event := [PreflightDone Passed; SyncedNow; NATSDone true; StopRequested].
Definition selects (h : list (answered serveCall)) : nat :=
  length (omap (fun x => match mark_of x with Some (Received e) => Some e | _ => None end) h).
Definition demo_replica : Settings :=
  let c := demo_settings anonymous_auth in
  {| s_Server := s_Server c; s_Discovery := s_Discovery c; s_Limits := s_Limits c; s_Auth := s_Auth c; s_NATS := s_NATS c;
     s_PGO := {| pgo_Enabled := true; pgo_LeaseTTL := pgo_LeaseTTL demo_pgo; pgo_MaxAttempts := pgo_MaxAttempts demo_pgo;
                 pgo_JobRetention := pgo_JobRetention demo_pgo; pgo_Limits := pgo_Limits demo_pgo; pgo_Defaults := pgo_Defaults demo_pgo |};
     s_UI := s_UI c; s_Realms := s_Realms c |}.
(** A replica that starts, is stopped, and whose API drain runs out of time. *)
Definition demo_world (R : Type) (c : serveCall R) (h : list (answered serveCall)) : R :=
  match c in serveCall R return R with
  | LoadConfig => Some demo_replica
  | NewAuthenticator _ | NewRuntime | NewConsole | NewCertificates | Listen _ => true
  | SoftLimit => None
  | SetMemoryLimit _ => 0
  | Select => default StopRequested (demo_events !! selects h)
  | AnsweredReady | DrainWorker => true
  | Sched => false
  | ShutdownAPI _ => DeadlineClosed
  | CloseListener _ | Start _ | Store _ | DiscoverySynced | CloseDrainSignal | CancelRun | Sleep _ | CutInFlight | CloseAPI
  | CancelInformers | WaitInformers | ShutdownOps _ | WaitServing | LogComplete _ _ => tt
  end.
Definition demo_run : option Z * list (answered serveCall) := run demo_world serve [].

Example demo_trace : demo_run.1 = Some 0 /\ trace demo_run.2 =
  startup demo_replica ++ mjoin (reaction demo_replica <$> demo_events) ++
  [Stored Draining; SignalClosed; RunCancelled; Slept (5 * second); WorkerDrained true; APIDrained (90 * second) DeadlineClosed;
   RequestsCut; APIClosed; InformersCancelled; InformersStopped; OpsShutdown (5 * second); ServingDone].
Proof. split; vm_compute; reflexivity. Qed.

Lemma serve_trace_witness :
  exists cfg es last tr, trace demo_run.2 = startup cfg ++ tr /\ loop_trace cfg false false es last tr /\
    demo_run.1 = (exit_code <$> last).
Proof.
  destruct (serve_trace demo_run.2 demo_run.1 (run_runs demo_world serve []))
    as [[H _]|(cfg & _ & [[H _]|(es & last & tr & H1 & H2 & H3 & _)])]; [vm_compute in H; discriminate H..|].
  exists cfg, es, last, tr. split; [exact H1|]. split; [exact H2|exact H3].
Defined.

(** The moment after the third event. *)
Definition demo_prefix : list mark := startup demo_replica ++ mjoin (reaction demo_replica <$> take 3 demo_events).
Definition demo_loaded : option Z * list (answered serveCall) := run demo_world (serve_loaded demo_replica) [].
Lemma ready_replica_witness :
  ready demo_replica demo_prefix true = true /\ Received (PreflightDone Passed) ∈ demo_prefix /\ RunCancelled ∉ demo_prefix.
Proof.
  assert (ready demo_replica demo_prefix true = true) as Hready by (vm_compute; reflexivity).
  assert (trace demo_loaded.2 = demo_prefix ++ drop (length demo_prefix) (trace demo_loaded.2)) as Hp by (vm_compute; reflexivity).
  assert (true = true -> Started Informers ∈ demo_prefix) as Hs.
  { intros _. apply (bool_decide_unpack _). vm_compute. exact I. }
  split; [exact Hready|].
  destruct (ready_replica demo_replica demo_loaded.2 demo_loaded.1 demo_prefix (drop (length demo_prefix) (trace demo_loaded.2)) true
    (run_runs demo_world (serve_loaded demo_replica) []) Hp Hs Hready) as (_ & H1 & _ & _ & H2 & _).
  split; [exact H1|exact H2].
Defined.

