(* ===== verification/Login.v ===== *)
(** * Logging in

    src/internal/client/login.go: what a gateway says of its authentication, the
    device grant with the token it caches, the basic check that stores nothing,
    and the context that is recorded, as a program over the calls of the gateway
    client.  Messages are lines that are shown. *)

From S2P Require Import Prelude Base64 Json Url Query UrlText Interaction Contexts ClientIssuer TokenCache GatewayClient ClientCollect.

Definition defaultLoginTimeout : duration := 10 * minute.
Definition minLoginTimeout : duration := minute.
Definition maxLoginTimeout : duration := 30 * minute.
Definition defaultScopes : list string := ["openid"; "offline_access"]%string.

Record Whoami := { wh_Principal : string; wh_Realm : string }.
Definition nobody : Whoami := {| wh_Principal := ""; wh_Realm := "" |}.
Record LoginFlags := {
  fg_Issuer : string; fg_ClientID : string; fg_TokenType : string; fg_IssuerCAFile : string;
  fg_Scopes : list string; fg_PKCE : option bool; fg_LoginTimeout : duration
}.

(** [PKCEFlag]. *)
Definition PKCEFlag (pkce noPKCE : bool) : option bool + gwErr :=
  if pkce && noPKCE then inr (Failed Usage)
  else if pkce then inl (Some true)
  else if noPKCE then inl (Some false)
  else inl None.

(** The lines of the two writers. *)
Inductive line :=
  | EnterCode (userCode uri : string) | OrOpen (uri : string) | Identified (w : Whoami) | AuthenticatesNobody
  | NothingStored | NotSelected (name : string).
Inductive loginCall : Type -> Type :=
  | OnGateway {R : Type} (c : gwCall R) : loginCall R
  | AskBasic : loginCall (option (string * string))
  | Show (l : line) : loginCall unit.
Abbreviation lprog := (itx loginCall).
Definition ltry {A B} (p : lprog (gres A)) (k : A -> lprog (gres B)) : lprog (gres B) :=
  r ← p;
  match r with
  | None => mret None
  | Some (inr e) => mret (fails e)
  | Some (inl a) => k a
  end.
#[local] Notation "x ←# p ; k" := (ltry p (fun x => k)) (at level 20, p at level 100, k at level 200).
Definition on_gateway {A} (p : gprog A) : lprog A := lift (fun R c => OnGateway c) p.

(** ** The documents *)

(** [authInfo]: the oidc object is a pointer. *)
Record oidcInfo := { oi_Issuer : string; oi_ClientID : string; oi_TokenType : string; oi_Scopes : list string; oi_PKCE : bool }.
Definition no_oidc : oidcInfo := {| oi_Issuer := ""; oi_ClientID := ""; oi_TokenType := ""; oi_Scopes := []; oi_PKCE := false |}.
Definition to_bool (old : bool) (v : json) : option bool :=
  match v with JBool b => Some b | JNull => Some old | _ => None end.
Definition to_list (old : list string) (v : json) : option (list string) :=
  match v with
  | JNull => Some []
  | JArr l => over_elements (fun s v => to_string s v) EmptyString old l
  | _ => None
  end.
Definition set_oidc (o : oidcInfo) (name : string) (v : json) : option oidcInfo :=
  let '(Build_oidcInfo i c t s p) := o in
  if String.eqb name "issuer" then x ← to_string i v; Some (Build_oidcInfo x c t s p)
  else if String.eqb name "clientID" then x ← to_string c v; Some (Build_oidcInfo i x t s p)
  else if String.eqb name "tokenType" then x ← to_string t v; Some (Build_oidcInfo i c x s p)
  else if String.eqb name "scopes" then x ← to_list s v; Some (Build_oidcInfo i c t x p)
  else x ← to_bool p v; Some (Build_oidcInfo i c t s x).
Definition to_oidc (old : option oidcInfo) (v : json) : option (option oidcInfo) :=
  match v with
  | JNull => Some None
  | _ => o ← to_struct ["issuer"; "clientID"; "tokenType"; "scopes"; "pkce"]%string set_oidc (default no_oidc old) v; Some (Some o)
  end.
Definition set_auth (a : string * option oidcInfo) (name : string) (v : json) : option (string * option oidcInfo) :=
  if String.eqb name "mode" then x ← to_string a.1 v; Some (x, a.2) else x ← to_oidc a.2 v; Some (a.1, x).
Definition to_auth : json -> option (string * option oidcInfo) := to_struct ["mode"; "oidc"]%string set_auth (EmptyString, None).

(** [whoamiBody]. *)
Definition set_who (w : Whoami) (name : string) (v : json) : option Whoami :=
  if String.eqb name "principal" then x ← to_string (wh_Principal w) v; Some {| wh_Principal := x; wh_Realm := wh_Realm w |}
  else x ← to_struct ["name"%string] (fun e _ v => to_string e v) (wh_Realm w) v;
       Some {| wh_Principal := wh_Principal w; wh_Realm := x |}.
Definition to_who : json -> option Whoami := to_struct ["principal"; "realm"]%string set_who nobody.

(** ** The login *)

Section login.
  Variable wild : Z -> Z.
  Variable parseHost : string -> string -> option string.
  Variable ToLower : string -> string.
  Variable certFile : string -> bool.
  (** The rounds of the lock and of the poll. *)
  Variables lock_rounds poll_rounds : nat.
  (** [in]: the settings, the flags, whether there is a prompt, the file to save
      in, if any, with what it holds. *)
  Variable s : Settings.
  Variable flags : LoginFlags.
  Variable prompts : bool.
  Variable saves : bool.
  Variable file : option File.

Definition as_principal (credential : option Credential) (req : Request) : lprog (gres (string * headers)) :=
  on_gateway (JSON wild parseHost ToLower lock_rounds s credential req).
Definition on_cache {A} (p : cprog (res A)) : lprog (gres A) := on_gateway (of_cache p).

(** [timeout]. *)
Definition timeout : duration + gwErr :=
  if fg_LoginTimeout flags =? 0 then inl defaultLoginTimeout
  else if (fg_LoginTimeout flags <? minLoginTimeout) || (maxLoginTimeout <? fg_LoginTimeout flags) then inr (Failed Usage)
  else inl (fg_LoginTimeout flags).

(** [apply] of the flags. *)
Definition over (flag old : string) : string := if empty flag then old else flag.
Definition apply_flags (a : AuthSnap) : AuthSnap :=
  {| as_Mode := as_Mode a; as_Issuer := over (fg_Issuer flags) (as_Issuer a);
     as_ClientID := over (fg_ClientID flags) (as_ClientID a); as_TokenType := over (fg_TokenType flags) (as_TokenType a);
     as_Scopes := match fg_Scopes flags with [] => as_Scopes a | l => l end;
     as_PKCE := default (as_PKCE a) (fg_PKCE flags); as_IssuerCAFile := over (fg_IssuerCAFile flags) (as_IssuerCAFile a) |}.

(** [readAuthInfo]: what the gateway reports, nothing where it does not. *)
Definition mode_only (mode : string) : AuthSnap :=
  {| as_Mode := mode; as_Issuer := ""; as_ClientID := ""; as_TokenType := ""; as_Scopes := []; as_PKCE := false;
     as_IssuerCAFile := "" |}.
Definition judge_auth (body : string) : option AuthSnap + gwErr :=
  match decodeOne to_auth body with
  | None => inr (Failed OtherError)
  | Some (mode, oidc) =>
      if String.eqb mode "disabled" || String.eqb mode "basic" then inl (Some (mode_only mode))
      else if String.eqb mode "oidc" then
        match oidc with
        | None => inl None
        | Some o => inl (Some {| as_Mode := "oidc"; as_Issuer := oi_Issuer o; as_ClientID := oi_ClientID o;
                                 as_TokenType := oi_TokenType o; as_Scopes := oi_Scopes o; as_PKCE := oi_PKCE o;
                                 as_IssuerCAFile := "" |})
        end
      else inr (Failed OtherError)
  end.
Definition readAuthInfo : lprog (gres (option AuthSnap)) :=
  r ← as_principal None (get_request "/v1/auth" ∅);
  mret (match (r : gres (string * headers)) with
        | None => None
        | Some (inl (body, _)) => Some (judge_auth body)
        | Some (inr (APIError status code m b)) =>
            if (status =? 404) && String.eqb code "route_unknown" then done None else fails (APIError status code m b)
        | Some (inr e) => fails e
        end).

(** [gatewayAuth] past the report. *)
Definition complete (reported : option AuthSnap) : AuthSnap + gwErr :=
  let snap := default (gc_Auth (s_Context s)) reported in
  if negb (String.eqb (as_Mode snap) "oidc") && negb (empty (as_Mode snap)) then inl (mode_only (as_Mode snap))
  else
    let snap := apply_flags {| as_Mode := "oidc"; as_Issuer := as_Issuer snap; as_ClientID := as_ClientID snap;
                               as_TokenType := as_TokenType snap; as_Scopes := as_Scopes snap; as_PKCE := as_PKCE snap;
                               as_IssuerCAFile := as_IssuerCAFile snap |} in
    if empty (as_Issuer snap) || empty (as_ClientID snap) then inr (Failed Usage)
    else
      let snap := {| as_Mode := as_Mode snap; as_Issuer := as_Issuer snap; as_ClientID := as_ClientID snap;
                     as_TokenType := over (as_TokenType snap) "id";
                     as_Scopes := match as_Scopes snap with [] => defaultScopes | l => l end; as_PKCE := as_PKCE snap;
                     as_IssuerCAFile := over (as_IssuerCAFile snap) (s_IssuerCAFile s) |} in
      match Contexts.validateAuth parseHost certFile snap with
      | Some _ => inr (Failed Usage)
      | None => inl snap
      end.
Definition gatewayAuth : lprog (gres AuthSnap) :=
  reported ←# readAuthInfo; mret (Some (complete reported)).

(** [fetchWhoami]. *)
Definition fetchWhoami (credential : option Credential) : lprog (gres Whoami) :=
  r ←# as_principal credential (get_request "/v1/whoami" ∅);
  mret (match decodeOne to_who r.1 with Some w => done w | None => fails (Failed OtherError) end).

(** [loginBasic]. *)
Definition loginBasic : lprog (gres Whoami) :=
  if negb prompts then mret (fails (Failed Usage))
  else
    answer ← ask AskBasic;
    match (answer : option (string * string)) with
    | None => mret (fails (Failed Usage))
    | Some (user, password) =>
        match BasicCredential user password with
        | inr e => mret (fails e)
        | inl cred =>
            w ←# fetchWhoami (Some cred);
            _ ← ask (Show (Identified w));
            _ ← ask (Show NothingStored);
            mret (done w)
        end
    end.

(** [loginOIDC]: the grant, the entry it comes to, and what is done with it. *)
Definition issued {A} (p : itx issuerCall (A + clientErr)) : lprog (gres A) := on_cache (on_issuer p).
Definition polled_issuer (p : itx issuerCall (option (TokenResponse + clientErr))) : cprog (res TokenResponse) :=
  lift (fun R c => OnIssuer c) p.
Definition now : lprog time := ask (OnGateway (OnCache Now)).
Definition grant_deadline (start : time) (d : DeviceAuth) (limit : duration) : time :=
  Z.min (start + (da_ExpiresIn d *! second)) (start + limit).
Definition grant (snap : AuthSnap) (limit : duration) : lprog (gres TokenResponse) :=
  m ←# issued (Discover parseHost ToLower URLString (as_Issuer snap));
  d ←# issued (Authorize parseHost ToLower m (as_ClientID snap) (as_Scopes snap) (as_PKCE snap));
  _ ← ask (Show (EnterCode (da_UserCode d) (da_VerificationURI d)));
  _ ← (if empty (da_VerificationURIComplete d) then mret tt else ask (Show (OrOpen (da_VerificationURIComplete d))));
  start ← now;
  on_cache (polled_issuer (Poll parseHost ToLower poll_rounds m (as_ClientID snap) d (grant_deadline start d limit))).

Definition granted_token (snap : AuthSnap) (tr : TokenResponse) : string :=
  if String.eqb (as_TokenType snap) "id" then tr_IDToken tr else tr_AccessToken tr.
Definition entry_of (snap : AuthSnap) (tr : TokenResponse) (at_ : time) : Entry + gwErr :=
  let token := granted_token snap tr in
  match ExpiryOf wild (as_TokenType snap) token (tr_ExpiresIn tr) at_ with
  | None => inr (Failed LoginNeeded)
  | Some expiresAt =>
      inl {| e_Origin := s_Origin s; e_Issuer := as_Issuer snap; e_ClientID := as_ClientID snap;
             e_TokenType := as_TokenType snap; e_Token := token; e_ExpiresAt := expiresAt;
             e_RefreshToken := tr_RefreshToken tr; e_RefreshExpiresAt := RefreshExpiryOf (tr_RefreshExpiresIn tr) at_;
             e_ObtainedAt := at_ |}
  end.
Definition diagnosed (e : gwErr) : gwErr := if unauthorized e then AuthDiagnostic e else e.
Definition loginOIDC (snap : AuthSnap) (limit : duration) : lprog (gres Whoami) :=
  tr ←# grant snap limit;
  if empty (granted_token snap tr) then mret (fails (Failed OtherError))
  else
    at_ ← now;
    match entry_of snap tr at_ with
    | inr e => mret (fails e)
    | inl e =>
        _ ←# on_cache (writeEntry lock_rounds s e);
        r ← fetchWhoami (Some (TokenOf (e_Token e)));
        match (r : gres Whoami) with
        | None => mret None
        | Some (inr e) => mret (fails (diagnosed e))
        | Some (inl w) => _ ← ask (Show (Identified w)); mret (done w)
        end
    end.

(** [recordLogin]. *)
Definition recordLogin (snap : AuthSnap) : lprog (gres unit) :=
  if negb saves || empty (s_ContextName s) then mret (done tt)
  else
    let f := default {| fl_CurrentContext := EmptyString; fl_Contexts := ∅ |} file in
    let f := RecordLogin URLString f s snap in
    saved ← ask (OnGateway (OnCache (SaveFile f)));
    if negb (saved : bool) then mret (fails (Failed OtherError))
    else
      _ ← (if String.eqb (s_ContextName s) (fl_CurrentContext f) then mret tt else ask (Show (NotSelected (s_ContextName s))));
      mret (done tt).

(** [Login]. *)
Definition by_mode (snap : AuthSnap) (limit : duration) : lprog (gres Whoami) :=
  if String.eqb (as_Mode snap) "disabled" then _ ← ask (Show AuthenticatesNobody); mret (done nobody)
  else if String.eqb (as_Mode snap) "basic" then loginBasic
  else loginOIDC snap limit.
Definition Login : lprog (gres Whoami) :=
  match timeout with
  | inr e => mret (fails e)
  | inl limit =>
      match checkPlaintext ToLower (s_Server s) with
      | None => mret (fails (Failed Usage))
      | Some _ =>
          snap ←# gatewayAuth;
          w ←# by_mode snap limit;
          _ ←# recordLogin snap;
          mret (done w)
      end
  end.
End login.

(** ** What a login comes to *)

(** What a history has of the cache, and of the requests to the gateway. *)
Definition writes_entry (x : answered loginCall) : Prop :=
  match x with At (OnGateway (OnCache (WriteEntry _ _))) _ => True | _ => False end.
Definition silent (g : list (answered loginCall)) : Prop := Forall (fun x => ~ writes_entry x) g.

Lemma runs_ltry {A B} (p : lprog (gres A)) (k : A -> lprog (gres B)) h h' r :
  runs (ltry p k) h h' r ->
  exists x h1, runs p h h1 x /\
    match x with
    | Some (inl a) => runs (k a) h1 h' r
    | Some (inr e) => r = fails e /\ h1 = h'
    | None => r = None /\ h1 = h'
    end.
Proof.
  intros H. apply runs_bind in H as (x & h1 & H1 & H). exists x, h1. split; [done|].
  destruct x as [[a|e]|]; [done|by destruct H..].
Qed.

(** Past an answer. *)
Lemma runs_ltry_done {A B} (p : lprog (gres A)) (k : A -> lprog (gres B)) h h' b :
  runs (ltry p k) h h' (done b) -> exists a h1, runs p h h1 (done a) /\ runs (k a) h1 h' (done b).
Proof.
  intros H. apply runs_ltry in H as ([[a|e]|] & h1 & H1 & H); [by exists a, h1|by destruct H..].
Qed.

Lemma silent_app (g h : list (answered loginCall)) : silent g -> silent h -> silent (g ++ h).
Proof. intros. by apply Forall_app. Qed.
Lemma plain_silent (g : list (answered gwCall)) :
  cache_log g = [] -> silent (map (lift_answered (fun R c => OnGateway c)) g).
Proof.
  unfold cache_log. induction g as [|[R c r] g IH]; [by constructor|]. intros H. destruct c; cbn in H |- *; try discriminate H;
    (constructor; [exact (fun x => x)|by apply IH]).
Qed.

Section sound.
  Variable wild : Z -> Z.
  Variable parseHost : string -> string -> option string.
  Variable ToLower : string -> string.
  Variable certFile : string -> bool.
  Variables lock_rounds poll_rounds : nat.
  Variable s : Settings.
  Variable flags : LoginFlags.
  Variables prompts saves : bool.
  Variable file : option File.
  Hypothesis server_web : web_url (s_Server s).
  Hypothesis server_read : parseHost (u_Scheme (s_Server s)) (escape_host (u_Host (s_Server s))) = Some (u_Host (s_Server s)).

(** With a credential of its own a request asks nothing of the cache. *)
Lemma uncached_quiet (credential : option Credential) (req : Request) h h' r :
  credential <> Some Cached -> runs (Do wild parseHost ToLower lock_rounds s credential req) h h' r ->
  exists g, h' = g ++ h /\ cache_log g = [].
Proof using.
  intros Hc H. unfold Do in H. apply runs_gtry in H as (b & h1 & Hb & H).
  assert (exists g, h1 = g ++ h /\ cache_log g = []) as (g & -> & Hg).
  { unfold build in Hb. destruct (newRequest _ _ _ _ _) as [rq|]; [|destruct Hb as [_ <-]; by exists []].
    destruct credential as [cred|]; [|destruct Hb as [_ <-]; by exists []].
    destruct (checkPlaintext _ _) as [loopback|]; [|destruct Hb as [_ <-]; by exists []].
    apply runs_gtry in Hb as (x & h2 & Hx & Hb).
    assert (h2 = h) as -> by (destruct cred; [by destruct Hx as [_ <-]..|done]).
    destruct x as [[hd|e]|]; [|destruct Hb as [_ <-]; by exists []..].
    apply runs_bind in Hb as ([] & h3 & Hl & [_ <-]). destruct loopback.
    - destruct Hl as [[] [_ <-]]. by exists [At (Warn (URLString (target s req))) tt].
    - destruct Hl as [_ <-]. by exists []. }
  destruct b as [[rq|e]|]; [|destruct H as [_ <-]; by exists g..].
  apply runs_ask in H as [ans [_ <-]]. exists (At (Send rq) ans :: g). split; [done|]. exact Hg.
Qed.

(** A document the gateway answered, and the request it answered. *)
Definition asked (credential : option Credential) (req : Request) (body : string) (log : list (answered loginCall)) : Prop :=
  exists rq ans, At (OnGateway (Send rq)) (Some ans) ∈ log /\ addressed s (with_accept req) rq /\
    200 <= ga_Status ans < 300 /\ ga_Body ans = Some body /\
    match credential with
    | Some (TokenOf t) => hr_Header rq !! "Authorization"%string = Some [bearer t]
    | Some (BasicOf user password) => hr_Header rq !! "Authorization"%string = Some [basicHeader user password]
    | _ => True
    end.

Lemma principal_runs (credential : option Credential) (req : Request) h h' body hd :
  credential <> Some Cached ->
  runs (as_principal wild parseHost ToLower lock_rounds s credential req) h h' (done (body, hd)) ->
  exists g, h' = g ++ h /\ silent g /\ asked credential req body h'.
Proof using server_web server_read.
  intros Hc H. apply (runs_lift _ _ _ _ []) in H as (g & H & ->). rewrite app_nil_r in H.
  exists (map (lift_answered (fun R c => OnGateway c)) g). split; [done|].
  unfold JSON in H. apply runs_gtry in H as (a & h1 & Hd & H).
  destruct a as [[a|e]|]; [|by destruct H..]. destruct H as [Ha <-].
  pose proof (uncached_quiet _ _ _ _ _ Hc Hd) as (g' & Hg' & Hq). rewrite app_nil_r in Hg'. subst g'.
  split; [by apply plain_silent|].
  pose proof (Do_shape wild parseHost ToLower lock_rounds s _ _ _ _ _ server_web server_read Hd) as [_ (g2 & _ & [[_ Hn]|Hs])];
    [by destruct (Hn a)|]. destruct Hs as (rq & ans & Hl & Hj & Had & Hsent). rewrite app_nil_r in Hl.
  injection Hj as Hj. destruct ans as [ans|]; [|done]. unfold judge in Hj.
  destruct ((200 <=? ga_Status ans) && (ga_Status ans <? 300)) eqn:Est; [|done]. injection Hj as ->. to_prop.
  exists rq, ans. split_and!; [|done|lia|lia| |].
  - apply elem_of_app. left. rewrite Hl. left.
  - injection Ha as Ha. unfold read_document, readBounded in Ha. destruct (ga_Body ans) as [b|]; [|done].
    destruct (maxResponseBytes <? byte_len b); [done|]. destruct (parse_json b); [|done]. by injection Ha as -> _.
  - destruct credential as [[t|user password|]|]; [| |done..];
      (destruct Hsent as [[Hx _]|(cred & v & [= <-] & -> & Hcar & _)]; [done|]); cbn in Hcar; subst v;
      unfold header_set; by rewrite lookup_insert_eq.
Qed.

Definition whoami_request : Request := get_request "/v1/whoami" ∅.
Definition auth_request : Request := get_request "/v1/auth" ∅.
(** The gateway said who the caller is, in answer to that credential. *)
Definition identified (credential : Credential) (w : Whoami) (log : list (answered loginCall)) : Prop :=
  exists body, asked (Some credential) whoami_request body log /\ decodeOne to_who body = Some w.
(** It said how it authenticates, or knows of no such route or of no login. *)
Definition reports (reported : option AuthSnap) (log : list (answered loginCall)) : Prop :=
  reported = None \/ exists body, asked None auth_request body log /\ judge_auth body = inl reported.

Lemma asked_more (credential : option Credential) (req : Request) (body : string) g h :
  asked credential req body h -> asked credential req body (g ++ h).
Proof using. intros (rq & ans & H & Hr). exists rq, ans. split; [|done]. apply elem_of_app. by right. Qed.
Lemma identified_more (credential : Credential) (w : Whoami) g h : identified credential w h -> identified credential w (g ++ h).
Proof using. intros (body & H & Hb). exists body. split; [by apply asked_more|done]. Qed.

Lemma fetchWhoami_runs (cred : Credential) h h' w :
  cred <> Cached -> runs (fetchWhoami wild parseHost ToLower lock_rounds s (Some cred)) h h' (done w) ->
  exists g, h' = g ++ h /\ silent g /\ identified cred w h'.
Proof using server_web server_read.
  intros Hc H. apply runs_ltry_done in H as ([body hd] & h1 & H1 & H). destruct H as [Hw <-].
  apply principal_runs in H1 as (g & -> & Hg & Ha); [|congruence]. exists g. split_and!; [done|done|].
  exists body. split; [done|]. cbn [fst] in Hw. destruct (decodeOne to_who body); [|done]. by injection Hw as ->.
Qed.

Lemma gatewayAuth_runs h h' snap :
  runs (gatewayAuth wild parseHost ToLower certFile lock_rounds s flags) h h' (done snap) ->
  exists g reported, h' = g ++ h /\ silent g /\ reports reported h' /\ complete parseHost certFile s flags reported = inl snap.
Proof using server_web server_read.
  intros H. apply runs_ltry_done in H as (reported & h1 & H1 & H). destruct H as [Hc <-]. injection Hc as Hc.
  unfold readAuthInfo in H1. apply runs_bind in H1 as (r & h2 & H2 & [Hr <-]).
  destruct r as [[[body hd]|e]|]; [| |done].
  - apply principal_runs in H2 as (g & -> & Hg & Ha); [|discriminate]. injection Hr as Hr.
    exists g, reported. split_and!; [done|done| |done]. right. exists body. by split.
  - apply (runs_lift _ _ _ _ []) in H2 as (g & H2 & ->). rewrite app_nil_r in H2.
    apply runs_gtry in H2 as (a & h3 & Hd & H2).
    apply uncached_quiet in Hd as (g' & Hg' & Hq); [|done]. rewrite app_nil_r in Hg'. subst h3.
    assert (g = g') as -> by (destruct a as [[a|e']|]; [by destruct H2 as [_ <-]|by destruct H2 as [_ <-]..]).
    eexists _, reported. split_and!; [done|by apply plain_silent| |done]. left.
    destruct e; try discriminate Hr. destruct (_ && _); [|discriminate Hr]. by injection Hr as <-.
Qed.

(** *** The grant *)

Lemma on_cache_runs {A} (p : cprog (res A)) h h' (a : A) :
  runs (on_cache p) h h' (done a) ->
  exists g, h' = map (lift_answered (fun R c => OnGateway c)) (map (lift_answered (fun R c => OnCache c)) g) ++ h /\ runs p [] g (ok a).
Proof using.
  intros H. apply (runs_lift _ _ _ _ []) in H as (g & H & ->). rewrite app_nil_r in H.
  apply runs_of_cache in H as (g' & r & -> & Hp & Hr). rewrite app_nil_r. exists g'. split; [done|].
  destruct r as [[x|e]|]; [|done..]. injection Hr as <-. exact Hp.
Qed.
Lemma on_cache_in (x : answered cacheCall) (g : list (answered cacheCall)) :
  x ∈ g -> lift_answered (fun R c => OnGateway c) (lift_answered (fun R c => OnCache c) x) ∈
    map (lift_answered (fun R c => OnGateway c)) (map (lift_answered (fun R c => OnCache c)) g).
Proof using. intros H. by apply list_elem_of_fmap_2, list_elem_of_fmap_2. Qed.

Lemma writeEntry_runs (e : Entry) h h' :
  runs (on_cache (writeEntry lock_rounds s e)) h h' (done tt) ->
  exists g, h' = g ++ h /\ At (OnGateway (OnCache (WriteEntry (s_CacheName s) e))) true ∈ g.
Proof using.
  intros H. apply on_cache_runs in H as (g & -> & H). eexists. split; [done|].
  unfold writeEntry, locked_by in H. apply runs_try in H as (x & h1 & _ & H).
  destruct x as [[[]|x]|]; [|by destruct H..]. apply runs_bind in H as (r & h2 & Hw & H).
  apply runs_ask in H as [released [Hr Hg]].
  assert (r = ok tt) as -> by (destruct r as [[[]|x]|]; [done|by destruct released..]).
  apply storeWrite_wrote in Hw. apply (on_cache_in (At (WriteEntry (s_CacheName s) e) true)).
  rewrite <-Hg. by right.
Qed.

(** The calls of the issuer's client as this login makes them. *)
Definition by_login (g : list (answered issuerCall)) : list (answered loginCall) :=
  map (lift_answered (fun R c => OnGateway c)) (map (lift_answered (fun R c => OnCache c))
    (map (lift_answered (fun R c => OnIssuer c)) g)).

(** What the issuer granted in time, and when that was read: the newest calls of the
    log are the discovery of the issuer, its answer to this login's device
    authorization, the lines that show that answer's code, the clock that starts
    the grant, the poll of that very code under the deadline of that start, and
    the clock again. *)
Definition granted (snap : AuthSnap) (limit : duration) (tr : TokenResponse) (at_ : time)
    (log : list (answered loginCall)) : Prop :=
  exists m d start gd ga gp before,
    runs (Discover parseHost ToLower URLString (as_Issuer snap)) [] gd (inl m) /\
    runs (Authorize parseHost ToLower m (as_ClientID snap) (as_Scopes snap) (as_PKCE snap)) [] ga (inl d) /\
    runs (Poll parseHost ToLower poll_rounds m (as_ClientID snap) d (grant_deadline start d limit)) [] gp (Some (inl tr)) /\
    log = At (OnGateway (OnCache Now)) at_ :: by_login gp ++ At (OnGateway (OnCache Now)) start ::
      (if empty (da_VerificationURIComplete d) then [] else [At (Show (OrOpen (da_VerificationURIComplete d))) tt]) ++
      At (Show (EnterCode (da_UserCode d) (da_VerificationURI d))) tt :: by_login ga ++ by_login gd ++ before.

Lemma issued_runs {A} (p : itx issuerCall (A + clientErr)) h h' (a : A) :
  runs (issued p) h h' (done a) -> exists g, h' = by_login g ++ h /\ runs p [] g (inl a).
Proof using.
  intros H. apply on_cache_runs in H as (g & -> & H). unfold on_issuer in H. apply runs_bind in H as (r & h1 & H & [Hr <-]).
  apply (runs_lift _ _ _ _ []) in H as (g' & H & ->). rewrite app_nil_r in H. exists g'.
  rewrite app_nil_r. split; [done|]. by injection Hr as ->.
Qed.

Lemma grant_runs (snap : AuthSnap) (limit : duration) h h' tr :
  runs (grant parseHost ToLower poll_rounds snap limit) h h' (done tr) ->
  forall at_, granted snap limit tr at_ (At (OnGateway (OnCache Now)) at_ :: h').
Proof using.
  intros H at_. unfold grant in H. apply runs_ltry_done in H as (m & h1 & Hd & H). apply issued_runs in Hd as (gd & -> & Hd).
  apply runs_ltry_done in H as (d & h2 & Ha & H). apply issued_runs in Ha as (ga & -> & Ha).
  apply runs_ask in H as [[] H]. apply runs_bind in H as ([] & h3 & Hs & H).
  apply runs_ask in H as [start H]. apply on_cache_runs in H as (g & -> & H). unfold polled_issuer in H.
  apply (runs_lift _ _ _ _ []) in H as (gp & H & ->). rewrite app_nil_r in H.
  exists m, d, start, gd, ga, gp, h. split; [done|]. split; [done|]. split; [done|]. rewrite app_nil_r.
  unfold by_login at 1. do 3 f_equal. destruct (empty _); [by destruct Hs as [_ <-]|by destruct Hs as [[] [_ <-]]].
Qed.

(** What a login of each mode has come to, of what it recorded. *)
Definition logged_in (snap : AuthSnap) (limit : duration) (w : Whoami) (log : list (answered loginCall)) : Prop :=
  if String.eqb (as_Mode snap) "disabled" then w = nobody /\ silent log
  else if String.eqb (as_Mode snap) "basic" then
    exists user password, BasicCredential user password = inl (BasicOf user password) /\
      identified (BasicOf user password) w log /\ silent log
  else
    exists tr at_ e after before, log = after ++ before /\ granted snap limit tr at_ before /\
      entry_of wild s snap tr at_ = inl e /\ e_Token e <> EmptyString /\
      At (OnGateway (OnCache (WriteEntry (s_CacheName s) e))) true ∈ after /\ identified (TokenOf (e_Token e)) w log /\
      forall s', s_Origin s' = s_Origin s -> gc_Auth (s_Context s') = snap -> Usable e s' = true.

Lemma entry_of_usable (snap : AuthSnap) (tr : TokenResponse) (at_ : time) (e : Entry) (s' : Settings) :
  entry_of wild s snap tr at_ = inl e -> s_Origin s' = s_Origin s -> gc_Auth (s_Context s') = snap -> Usable e s' = true.
Proof using.
  unfold entry_of. destruct (ExpiryOf _ _ _ _ _); [|done]. intros [= <-] Ho Ha. unfold Usable. cbn.
  rewrite Ho, Ha, !String.eqb_refl. cbn. by rewrite orb_true_r.
Qed.

Lemma loginOIDC_runs (snap : AuthSnap) (limit : duration) h h' w :
  runs (loginOIDC wild parseHost ToLower lock_rounds poll_rounds s snap limit) h h' (done w) ->
  exists tr at_ e after before, h' = after ++ before /\ granted snap limit tr at_ before /\
    entry_of wild s snap tr at_ = inl e /\ e_Token e <> EmptyString /\
    At (OnGateway (OnCache (WriteEntry (s_CacheName s) e))) true ∈ after /\ identified (TokenOf (e_Token e)) w h'.
Proof using server_web server_read.
  intros H. apply runs_ltry_done in H as (tr & h1 & Hg & H). 
  destruct (empty (granted_token snap tr)) eqn:Et; [by destruct H|]. apply runs_ask in H as [at_ H].
  apply grant_runs with (at_ := at_) in Hg.
  destruct (entry_of wild s snap tr at_) as [e|x] eqn:Ee; [|by destruct H].
  assert (e_Token e <> EmptyString) as Hn.
  { unfold entry_of in Ee. destruct (ExpiryOf _ _ _ _ _); [|done]. injection Ee as <-. by apply empty_false. }
  apply runs_ltry_done in H as ([] & h2 & Hw & H). apply writeEntry_runs in Hw as (g & -> & Hin).
  apply runs_bind in H as (r & h3 & Hr & H). destruct r as [[w'|x]|]; [|destruct H as [H _]; discriminate H..].
  apply runs_ask in H as [[] [Hd <-]]. injection Hd as ->. apply fetchWhoami_runs in Hr as (g' & -> & _ & Hi); [|discriminate].
  eexists tr, at_, e, (At (Show (Identified w)) tt :: g' ++ g), _. split; [by rewrite <-app_comm_cons, <-app_assoc|].
  split_and!; [exact Hg|done|done| |by apply (identified_more _ _ [_])]. right. apply elem_of_app. by right.
Qed.
Lemma loginBasic_runs h h' w :
  runs (loginBasic wild parseHost ToLower lock_rounds s prompts) h h' (done w) ->
  exists user password g, h' = g ++ h /\ silent g /\ BasicCredential user password = inl (BasicOf user password) /\
    identified (BasicOf user password) w h'.
Proof using server_web server_read.
  unfold loginBasic. destruct (negb prompts); intros H; [by destruct H|]. apply runs_ask in H as [[[user password]|] H]; [|by destruct H].
  destruct (BasicCredential user password) as [cred|x] eqn:Ec; [|by destruct H].
  assert (cred = BasicOf user password) as ->.
  { unfold BasicCredential in Ec. destruct (has_byte _ _); [discriminate Ec|]. destruct (_ <? _); [discriminate Ec|]. by injection Ec. }
  apply runs_ltry_done in H as (w' & h1 & Hf & H). do 2 apply runs_ask in H as [[] H]. destruct H as [Hd <-]. injection Hd as ->.
  apply fetchWhoami_runs in Hf as (g & -> & Hg & Hi); [|discriminate].
  exists user, password, (At (Show NothingStored) tt :: At (Show (Identified w)) tt :: g ++ [At AskBasic (Some (user, password))]).
  split; [by rewrite <-!app_comm_cons, <-app_assoc|].
  split; [repeat (constructor; [exact (fun x => x)|]); apply silent_app; [done|by repeat constructor; intros []]|].
  split; [done|]. by apply (identified_more _ _ [_; _]).
Qed.

(** C26: a login that succeeds is what it says.  The gateway reported how it
    authenticates, or the context and the flags did, and the settings passed the
    rules of a context.  Disabled or basic, nothing is cached, and a basic pair was
    sent to the gateway and answered with the name that is shown.  Otherwise the
    issuer this login discovered answered its device authorization with a code,
    the user was shown that code and no other, and the token is the issuer's
    answer to a poll of that code, begun under the deadline that the code's lifetime and
    the limit set from the clock read when the poll began; afterwards it is cached under this gateway's origin, issuer and client,
    so any later settings of the same origin and context use it; and the gateway
    itself answered for it.  The context is recorded, with exactly that, last. *)
Theorem Login_sound (log : list (answered loginCall)) (w : Whoami)
    (Hr : runs (Login wild parseHost ToLower certFile lock_rounds poll_rounds s flags prompts saves file) [] log (done w)) :
  exists limit reported snap, minLoginTimeout <= limit <= maxLoginTimeout /\ reports reported log /\
    complete parseHost certFile s flags reported = inl snap /\ logged_in snap limit w log /\
    checkPlaintext ToLower (s_Server s) <> None /\
    (saves = true -> s_ContextName s <> EmptyString ->
     exists f, f = RecordLogin URLString (default {| fl_CurrentContext := EmptyString; fl_Contexts := ∅ |} file) s snap /\
       At (OnGateway (OnCache (SaveFile f))) true ∈ log /\
       gc_Auth <$> (fl_Contexts f !! s_ContextName s) = Some snap).
Proof using All.
  unfold Login in Hr. destruct (timeout flags) as [limit|] eqn:Et; [|by destruct Hr].
  assert (minLoginTimeout <= limit <= maxLoginTimeout) as Hlim.
  { unfold timeout in Et. destruct (_ =? 0); [injection Et as <-; vm_compute; by split|].
    destruct (_ || _) eqn:Eb; [done|]. injection Et as <-. to_prop. lia. }
  destruct (checkPlaintext ToLower (s_Server s)) eqn:Ec; [|by destruct Hr].
  apply runs_ltry_done in Hr as (snap & h1 & Ha & Hr). apply gatewayAuth_runs in Ha as (g & reported & -> & Hg & Hrep & Hcom).
  rewrite app_nil_r in *. apply runs_ltry_done in Hr as (w' & h2 & Hm & Hr). apply runs_ltry_done in Hr as ([] & h3 & Hs & Hr).
  destruct Hr as [Hd <-]. injection Hd as ->.
  assert (exists g2, h2 = g2 ++ g) as [g2 ->] by by eapply runs_grows.
  exists limit, reported, snap.
  assert (exists g3, h3 = g3 ++ g2 ++ g /\ silent g3 /\
    (saves = true -> s_ContextName s <> EmptyString ->
     exists f, f = RecordLogin URLString (default {| fl_CurrentContext := EmptyString; fl_Contexts := ∅ |} file) s snap /\
       At (OnGateway (OnCache (SaveFile f))) true ∈ h3 /\ gc_Auth <$> (fl_Contexts f !! s_ContextName s) = Some snap))
    as (g3 & -> & Hg3 & Hsave).
  { unfold recordLogin in Hs. destruct (negb saves || empty (s_ContextName s)) eqn:Esv.
    - destruct Hs as [_ <-]. exists []. split_and!; [done|constructor|]. intros -> Hn. apply empty_false in Hn. rewrite Hn in Esv. done.
    - set (f := RecordLogin _ _ _ _) in *. apply runs_ask in Hs as [[|] Hs]; [|by destruct Hs]. cbn [negb] in Hs.
      apply runs_bind in Hs as ([] & h4 & Hl & [_ <-]).
      assert (exists x, h4 = x ++ At (OnGateway (OnCache (SaveFile f))) true :: g2 ++ g /\ silent x) as (x & -> & Hx).
      { destruct (String.eqb _ _); [destruct Hl as [_ <-]; exists []; split; [done|constructor]|].
        destruct Hl as [[] [_ <-]]. exists [At (Show (NotSelected (s_ContextName s))) tt]. split; [done|]. by repeat constructor; intros []. }
      exists (x ++ [At (OnGateway (OnCache (SaveFile f))) true]). split_and!.
      + by rewrite <-app_assoc.
      + apply silent_app; [done|]. by repeat constructor; intros [].
      + intros _ _. exists f. split_and!; [done|apply elem_of_app; right; by left|].
        unfold f, RecordLogin. cbn [fl_Contexts]. by rewrite lookup_insert_eq. }
  split_and!; [lia|lia| |done| |done|exact Hsave].
  - destruct Hrep as [->|(body & Hb & Hj)]; [by left|right]. exists body. split; [|done]. rewrite app_assoc. by apply asked_more.
  - unfold by_mode in Hm. unfold logged_in. destruct (String.eqb (as_Mode snap) "disabled") eqn:E1; [|destruct (String.eqb (as_Mode snap) "basic") eqn:E2].
    + apply runs_ask in Hm as [[] [Hd He]]. injection Hd as ->. split; [done|]. rewrite <-He.
      repeat (apply silent_app; [done|]). constructor; [exact (fun x => x)|done].
    + apply loginBasic_runs in Hm as (user & password & g4 & -> & Hg4 & Hb & Hi). exists user, password. split_and!; [done|by apply identified_more|].
      apply silent_app; [done|]. by apply silent_app.
    + apply loginOIDC_runs in Hm as (tr & at_ & e & after & before & -> & H1 & H2 & H3 & H4 & H5).
      exists tr, at_, e, (g3 ++ after), before. split; [by rewrite <-app_assoc|].
      split_and!; [done..|apply elem_of_app; by right|by apply identified_more|]. intros s' Ho Hau. by eapply entry_of_usable.
Qed.
End sound.

(** ** Instances *)

(** A gateway that delegates to an issuer, and the issuer, which grants the first
    poll. *)
Definition document (v : json) : option gwAnswer :=
  Some {| ga_Status := 200; ga_Header := {[ "Content-Type"%string := ["application/json"%string] ]}; ga_Body := Some (print v) |}.
Definition demo_report : json :=
  JObj [("mode"%string, JStr "oidc");
        ("oidc"%string, JObj [("issuer"%string, JStr "https://id.example"); ("clientID"%string, JStr "cli");
                              ("tokenType"%string, JStr "access"); ("pkce"%string, JBool false)])].
Definition demo_who : json :=
  JObj [("principal"%string, JStr "ana"); ("realm"%string, JObj [("name"%string, JStr "default")])].
Definition demo_discovery : json :=
  JObj [("issuer"%string, JStr "https://id.example"); ("token_endpoint"%string, JStr "https://id.example/token");
        ("device_authorization_endpoint"%string, JStr "https://id.example/device")].
Definition demo_code : json :=
  JObj [("device_code"%string, JStr "dc"); ("user_code"%string, JStr "ABCD");
        ("verification_uri"%string, JStr "https://id.example/activate"); ("expires_in"%string, JNum "600")].
Definition issuer_says (v : json) : option httpAnswer :=
  Some {| ha_Status := 200; ha_ContentType := "application/json"; ha_Body := Some (print v) |}.
Definition demo_login_world (R : Type) (c : loginCall R) (h : list (answered loginCall)) : R :=
  match c in loginCall R return R with
  | AskBasic => None
  | Show _ => tt
  | OnGateway c =>
      match c in gwCall R return R with
      | ReadTokenFile _ | ReadStdin _ | PromptPassword _ => None
      | Warn _ => tt
      | Send r => document (if String.eqb (u_Path (hr_URL r)) "/v1/auth" then demo_report else demo_who)
      | GatewayClient.Clock => 0
      | Wait _ => true
      | ShowProgress _ _ _ _ => tt
      | OnCache c =>
          match c in cacheCall R return R with
          | OnIssuer c =>
              match c in issuerCall R return R with
              | SendGet _ => issuer_says demo_discovery
              | SendPost url _ => if String.eqb url "https://id.example/device" then issuer_says demo_code else token_of "tok"
              | ClientIssuer.Clock => 0
              | Sleep _ => true
              | CtxDone => false
              | Entropy => None
              end
          | c => demo_cache _ c []
          end
      end
  end.
Definition demo_flags : LoginFlags :=
  {| fg_Issuer := ""; fg_ClientID := ""; fg_TokenType := ""; fg_IssuerCAFile := ""; fg_Scopes := []; fg_PKCE := None;
     fg_LoginTimeout := 0 |}.
Definition demo_login : lprog (gres Whoami) :=
  Login no_wild any_host lower (fun _ => true) 301 5 demo_settings demo_flags false true (Some demo_contexts).
Definition demo_login_run : gres Whoami * list (answered loginCall) := run demo_login_world demo_login [].
Definition shown (log : list (answered loginCall)) : list line :=
  omap (fun x => match x with At (Show l) _ => Some l | _ => None end) (rev log).
Example demo_logged_in :
  demo_login_run.1 = done {| wh_Principal := "ana"; wh_Realm := "default" |} /\
  shown demo_login_run.2 =
    [EnterCode "ABCD" "https://id.example/activate"; Identified {| wh_Principal := "ana"; wh_Realm := "default" |}].
Proof. vm_compute. split; reflexivity. Qed.

Lemma Login_sound_witness :
  exists limit reported snap, minLoginTimeout <= limit <= maxLoginTimeout /\ reports demo_settings reported demo_login_run.2 /\
    complete any_host (fun _ => true) demo_settings demo_flags reported = inl snap /\
    logged_in no_wild any_host lower 5 demo_settings snap limit {| wh_Principal := "ana"; wh_Realm := "default" |}
      demo_login_run.2 /\
    exists f, At (OnGateway (OnCache (SaveFile f))) true ∈ demo_login_run.2 /\
      gc_Auth <$> (fl_Contexts f !! "prod"%string) = Some snap.
Proof.
  assert (demo_login_run.1 = done {| wh_Principal := "ana"; wh_Realm := "default" |}) as E by (vm_compute; reflexivity).
  pose proof (run_runs demo_login_world demo_login []) as Hr. fold demo_login_run in Hr. rewrite E in Hr.
  destruct (Login_sound no_wild any_host lower (fun _ => true) 301 5 demo_settings demo_flags false true (Some demo_contexts)
    demo_server_web eq_refl demo_login_run.2 {| wh_Principal := "ana"; wh_Realm := "default" |} Hr)
    as (limit & reported & snap & H1 & H2 & H3 & H5 & _ & H4).
  destruct (H4 eq_refl) as (f & _ & Hs & Hf); [discriminate|].
  exists limit, reported, snap. split; [exact H1|]. split; [exact H2|]. split; [exact H3|]. split; [exact H5|]. exists f. split; [exact Hs|exact Hf].
Defined.
