(* ===== verification/System.v ===== *)
(** * The system: replicas, their goroutines, one bucket

    The components put together.  A [world] is PROFGATE_JOBS, the memory of
    each replica, and the goroutines running; a step is one call of one
    goroutine, one watch delivery, the start of a component, a reconnection or
    a crash.  Any goroutine may run next, an acknowledgement may be lost, and a
    call may fail for reasons of its own.

    The bucket is natskv's: a value is replaced or deleted only at the revision
    it is at (client.go, [Update] and [Delete]), and a key is created only
    where there is none.  An identifier names one Collection for ever: [NewID]
    draws a hundred random bits, and the model takes no two draws to agree.

    Whatever interleaving the world takes, the records each Collection's key
    has held form one story of the lifecycle of Lifecycle.v.  The components
    enter only through their [orderly] theorems. *)

From S2P Require Import Prelude Effects Ident Config TokenBucket Policy Records Keys Caches.
From S2P Require Import Discovery Lifecycle Runtime Publisher Scheduler Worker Owner Rounds Sweeper.
From S2P Require Import Api.

(** ** Stories *)

(** The records one key has held, newest first. *)
Inductive story : list Job -> Prop :=
  | story_nil : story []
  | story_new r : initial r -> story [r]
  | story_next b a l : story (a :: l) -> transition a b -> story (b :: a :: l).

Definition unended (r : Job) : Prop := terminal (j_State r) = false.

(** Nothing before the newest record has ended, unless the newest is the expiry
    of the one before it. *)
Lemma story_tail (x : Job) (l : list Job) :
  story (x :: l) ->
  Forall unended l \/
  exists a l', l = a :: l' /\ j_State a = StateCompleted /\ x = set_state StateExpired a /\ Forall unended l'.
Proof.
  revert x. induction l as [|a l IH]; intros x Hs; [by left|].
  inversion Hs as [| |? ? ? Ha Ht]; subst. destruct (terminal (j_State a)) eqn:Hterm.
  - right. destruct (terminal_final a x Ht Hterm) as [Hc Hx]. exists a, l.
    split; [done|]. split; [done|]. split; [by apply transition_completed|].
    destruct (IH a Ha) as [?|(a' & l' & -> & Hc' & -> & _)]; [done|].
    simpl in Hc. done.
  - left. constructor; [done|].
    destruct (IH a Ha) as [?|(a' & l' & -> & Hc' & -> & _)]; [done|]. simpl in Hterm. done.
Qed.

Lemma story_completed (l : list Job) (x y : Job) :
  story l -> x ∈ l -> y ∈ l -> j_State x = StateCompleted -> j_State y = StateCompleted -> x = y.
Proof.
  assert (forall l z, Forall unended l -> z ∈ l -> j_State z <> StateCompleted) as Hun.
  { intros k z Hk Hz He. rewrite Forall_forall in Hk. specialize (Hk z Hz). unfold unended in Hk.
    by rewrite He in Hk. }
  intros Hs Hx Hy Hcx Hcy. destruct l as [|b l]; [by apply not_elem_of_nil in Hx|].
  destruct (story_tail b l Hs) as [Hl|(a & l' & -> & Ha & -> & Hl)].
  - apply elem_of_cons in Hx as [->|Hx], Hy as [->|Hy]; [done|exfalso; by eapply Hun..].
  - apply elem_of_cons in Hx as [->|[->|Hx]%elem_of_cons], Hy as [->|[->|Hy]%elem_of_cons];
      first [done|exfalso; by eapply Hun].
Qed.

(** Every record of a story is well formed. *)
Lemma story_well_formed (l : list Job) : story l -> Forall well_formed l.
Proof.
  intros Hs. induction Hs as [|r Hi|b a l Hs IH Ht]; [constructor| |].
  - constructor; [by apply initial_well_formed|constructor].
  - constructor; [|done]. apply (transition_well_formed a b Ht). by inversion IH.
Qed.


(** ** Caches and the log *)

Section deliveries.
  Context {V : Type} `{HW : Wire V}.
  Abbreviation log := (Lifecycle.log (V:=V)).

Lemma cache_ok_mono (K K' : log) (c : Caches) : log_le K K' -> cache_ok K c -> cache_ok K' c.
Proof.
  intros HK [Hj Hs]. split; [|done]. intros key j Hkey.
  destruct (Hj key j Hkey) as (id & v & rec & ? & ? & ?). exists id, v, rec. eauto.
Qed.

Lemma NewCaches_ok (K : log) : cache_ok K NewCaches.
Proof.
  split; simpl; [intros key j Hj; by rewrite lookup_empty in Hj|].
  intros key [s Hs]. by rewrite lookup_empty in Hs.
Qed.

(** What the invariant reads of the caches. *)
Lemma cache_ok_same (K : log) (c c' : Caches) :
  jobs c' ⊆ jobs c -> slots c' ⊆ slots c -> cache_ok K c -> cache_ok K c'.
Proof.
  intros Hj Hs [H1 H2]. split.
  - intros key j Hkey. apply H1. by eapply lookup_weaken.
  - intros key [s Hkey]. apply H2. exists s. by eapply lookup_weaken.
Qed.

Lemma deleteJob_sub (key : string) (c : Caches) : jobs (deleteJob key c) ⊆ jobs c /\ slots (deleteJob key c) = slots c.
Proof. unfold deleteJob. destruct (jobs c !! key); [|done]. split; [apply delete_subseteq|done]. Qed.

(** A delivery of a value the bucket took keeps the caches within the log. *)
Lemma apply_ok (K : log) (kind : cacheKind) (e : watch_entry V) (c : Caches) :
  (forall v, kind = cacheJobs -> we_Value e = Some v -> K (we_Key e) (we_Revision e) v) ->
  cache_ok K c -> cache_ok K (apply kind e c).
Proof.
  intros He Hc. unfold apply.
  set (c1 := if (we_Generation e =? gen c kind)%N then c else _).
  assert (cache_ok K c1) as Hc1.
  { unfold c1. case_match; [done|]. apply (cache_ok_same K c); [| |done];
      destruct kind; simpl; first [done|apply map_empty_subseteq]. }
  case_match; [by apply (cache_ok_same K c1)|]. destruct kind.
  - unfold applyOverride. repeat case_match; try done; by apply (cache_ok_same K c1).
  - apply (cache_ok_same K (applyJob e c1)).
    { simpl. unfold pulseSubscribers. by repeat case_match. }
    { simpl. unfold pulseSubscribers. by repeat case_match. }
    unfold applyJob. destruct (cut_prefix jobPrefix (we_Key e)) as [id|] eqn:Hid; [|done].
    apply cut_prefix_Some in Hid. case_match; [done|].
    assert (cache_ok K (deleteJob (we_Key e) c1)) as Hdel.
    { destruct (deleteJob_sub (we_Key e) c1) as [H1 H2]. apply (cache_ok_same K c1); [done|by rewrite H2|done]. }
    destruct (we_Value e) as [v|] eqn:Hv; [|done]. destruct (dec_job v) as [rec|] eqn:Hd; [|done].
    unfold recordJob. set (c2 := match jobs c1 !! we_Key e with Some _ => _ | None => _ end).
    assert (cache_ok K c2) as [Hj Hs] by (unfold c2; repeat case_match; done).
    split; simpl; [|done]. intros key j [[<- <-]|[Hne Hj']]%lookup_insert_Some; [|by apply Hj].
    exists id, v, rec. split; [done|]. split; [by apply He|]. split; [done|].
    by destruct rec.
  - unfold applyActive. repeat case_match; try done; by apply (cache_ok_same K c1).
  - unfold applySlot. destruct (has_prefix slotPrefix (we_Key e)) eqn:Hp; [|done]. simpl.
    assert (cache_ok K (set_slots (delete (we_Key e) (slots c1)) c1)) as Hdel
      by (apply (cache_ok_same K c1); [done|apply delete_subseteq|done]).
    destruct (we_Value e) as [v|]; [|done]. destruct (dec_slot v) as [s|]; [|done].
    destruct Hc1 as [Hj Hs]. split; simpl; [done|].
    intros key [x [[<- _]|[_ Hx]]%lookup_insert_Some]; [done|]. apply Hs. by eexists.
Qed.
End deliveries.

(** ** The world *)

(** The memory of one replica. *)
Definition memory : Type :=
  (Caches * PubState * SchedState * WorkerState * SweepState * TokenBucket)%type.

Section system.
  Context {V : Type} `{HW : Wire V} `{HL : !WireLaws V}.
  Abbreviation prog := (Effects.prog V memory).
  Abbreviation op := (Effects.op V memory).
  Abbreviation log := (Lifecycle.log (V:=V)).
  (** The configuration every replica runs under. *)
  Variables (defaults : Policy) (limits : PGOLimits) (cfg : WorkerConfig) (jobRetention : duration).

(** PROFGATE_JOBS: what each key holds, the last revision, and every value it
    has taken, newest first. *)
Record jobs_bucket := {
  bk_now : gmap string (N * V);
  bk_rev : N;
  bk_log : list (string * N * V)
}.

Definition taken_by (b : jobs_bucket) : log := fun k r v => (k, r, v) ∈ bk_log b.

Definition bucket_put (k : string) (v : V) (b : jobs_bucket) : jobs_bucket :=
  {| bk_now := <[k := (bk_rev b + 1, v)%N]> (bk_now b); bk_rev := bk_rev b + 1;
     bk_log := (k, bk_rev b + 1, v)%N :: bk_log b |}.
Definition bucket_delete (k : string) (b : jobs_bucket) : jobs_bucket :=
  {| bk_now := delete k (bk_now b); bk_rev := bk_rev b + 1; bk_log := bk_log b |}.

(** What the bucket does with a call and what the caller may be told: a write
    that is taken may still be answered with an error, and a call that is not
    taken always is. *)
Inductive serve (b : jobs_bucket) : forall R, op R -> R -> jobs_bucket -> Prop :=
  | sv_get k e : bk_now b !! k = Some (e_revision e, e_value e) -> serve b _ (KvGet BJobs k) (Ok e) b
  | sv_get_failed k err : serve b _ (KvGet BJobs k) (Err err) b
  | sv_create k v r :
      bk_now b !! k = None -> (forall id, k = jobKey id -> forall r v, ~ taken_by b k r v) ->
      (r = Ok (bk_rev b + 1)%N \/ exists err, r = Err err) ->
      serve b _ (KvCreate BJobs k v) r (bucket_put k v b)
  | sv_create_failed k v err : serve b _ (KvCreate BJobs k v) (Err err) b
  | sv_update k v old expected r :
      bk_now b !! k = Some (expected, old) ->
      (r = Ok (bk_rev b + 1)%N \/ exists err, r = Err err) ->
      serve b _ (KvUpdate BJobs k v expected) r (bucket_put k v b)
  | sv_update_failed k v expected err : serve b _ (KvUpdate BJobs k v expected) (Err err) b
  | sv_delete k old expected r :
      bk_now b !! k = Some (expected, old) ->
      serve b _ (KvDelete BJobs k expected) r (bucket_delete k b)
  | sv_delete_failed k expected err : serve b _ (KvDelete BJobs k expected) (Err err) b
  | sv_keys bk prefix r :
      match r with Ok keys => Forall (fun k => has_prefix prefix k = true) keys | Err _ => True end ->
      serve b _ (KvKeys bk prefix) r b
  | sv_other R (o : op R) r :
      match o with
      | KvGet BJobs _ | KvCreate BJobs _ _ | KvUpdate BJobs _ _ _ | KvDelete BJobs _ _ | KvKeys _ _
      | Atomic _ => False
      | _ => True
      end ->
      serve b R o r b.

(** A goroutine: it ends with the goroutines it leaves running. *)
Definition goroutine := prog (list (prog unit)).
Definition plain {A} (p : prog A) : goroutine := _ ← p; mret [].

(** The goroutines of the program: every request, tick, pass and timer, with
    any arguments.  A scan leaves an owner for each Collection it claimed,
    which runs through some sequence of events and exits.  [startOwner] starts
    an owner at its claim, while the scan goes on to its next candidate: that
    is [co_visit], the visit of one candidate as a goroutine of its own, so the
    visits of a scan are any sequence of those, each owner running from its
    own claim. *)
Definition owner_goroutine (o : started) (events : list owner_event) : prog unit :=
  _ ← ownerLoop cfg o events; ownerExit o.

Definition scan_goroutine (events : started -> list owner_event) : goroutine :=
  l ← (scan cfg : prog (list started));
  (mret (map (fun o => owner_goroutine o (events o)) l) : prog (list (prog unit))).

Definition visit_goroutine (candidate : string * cachedJob) (now : time) (slotFree : bool)
    (events : started -> list owner_event) : goroutine :=
  l ← (visit_due cfg [candidate] now slotFree : prog (list started));
  (mret (map (fun o => owner_goroutine o (events o)) l) : prog (list (prog unit))).

Inductive component : goroutine -> Prop :=
  | co_create gen ns svc principal keys body targets gone :
      component (plain (serveCollectionCreate defaults limits gen ns svc principal keys body targets gone))
  | co_collection route id allows : component (plain (servePGOCollection route id allows))
  | co_latest gen ns svc : component (plain (LatestCompleted gen ns svc))
  | co_schedule : component (plain (tick defaults limits))
  | co_scan events : component (scan_goroutine events)
  | co_visit candidate now slotFree events : component (visit_goroutine candidate now slotFree events)
  | co_sweep : component (plain (sweep jobRetention))
  | co_cutoff fl now : component (plain (cutoffFires fl now))
  | co_drain : component (plain (locked stopWork)).

Record world := {
  w_bucket : jobs_bucket;
  w_memory : nat -> memory;
  w_running : list (nat * goroutine)
}.

Definition set_memory (i : nat) (m : memory) (f : nat -> memory) : nat -> memory :=
  fun j => if decide (j = i) then m else f j.

(** A memory a process starts with. *)
Definition fresh_memory (m : memory) : Prop := the m = NewCaches.

Inductive step : world -> world -> Prop :=
  | st_start w i g : component g ->
      step w {| w_bucket := w_bucket w; w_memory := w_memory w; w_running := (i, g) :: w_running w |}
  | st_call w i R (o : op R) k r b l1 l2 :
      w_running w = l1 ++ (i, Vis o k) :: l2 -> serve (w_bucket w) R o r b ->
      step w {| w_bucket := b; w_memory := w_memory w; w_running := l1 ++ (i, k r) :: l2 |}
  | st_memory w i R (f : memory -> R * memory) k l1 l2 :
      w_running w = l1 ++ (i, Vis (Atomic f) k) :: l2 ->
      step w {| w_bucket := w_bucket w;
                w_memory := set_memory i (f (w_memory w i)).2 (w_memory w);
                w_running := l1 ++ (i, k (f (w_memory w i)).1) :: l2 |}
  | st_end w i ps l1 l2 :
      w_running w = l1 ++ (i, Ret ps) :: l2 ->
      step w {| w_bucket := w_bucket w; w_memory := w_memory w;
                w_running := l1 ++ map (fun p => (i, plain p)) ps ++ l2 |}
  | st_deliver w i kind (e : watch_entry V) :
      (forall v, kind = cacheJobs -> we_Value e = Some v ->
         taken_by (w_bucket w) (we_Key e) (we_Revision e) v) ->
      step w {| w_bucket := w_bucket w;
                w_memory := set_memory i (put (apply kind e (the (w_memory w i))) (w_memory w i)) (w_memory w);
                w_running := w_running w |}
  | st_reconnect w i :
      step w {| w_bucket := w_bucket w;
                w_memory := set_memory i (put (startAttempt (the (w_memory w i))) (w_memory w i)) (w_memory w);
                w_running := w_running w |}
  | st_crash w i m : fresh_memory m ->
      step w {| w_bucket := w_bucket w; w_memory := set_memory i m (w_memory w);
                w_running := filter (fun t => t.1 <> i) (w_running w) |}.

(** A cluster before its first request. *)
Definition initial_world (w : world) : Prop :=
  w_bucket w = {| bk_now := ∅; bk_rev := 0; bk_log := [] |} /\ (forall i, fresh_memory (w_memory w i)) /\
  w_running w = [].

Definition reachable (w : world) : Prop := exists w0, initial_world w0 /\ rtc step w0 w.

(** The records a Collection's key has held, newest first. *)
Definition records (id : string) (b : jobs_bucket) : list Job :=
  omap (fun '(k, r, v) => if String.eqb k (jobKey id) then dec_job v else None) (bk_log b).

(** ** The bucket keeps stories *)

Record bucket_ok (b : jobs_bucket) : Prop := {
  bo_rev : forall k r v, taken_by b k r v -> (r <= bk_rev b)%N;
  bo_uniq : NoDup ((fun t => t.1.2) <$> bk_log b);
  bo_now : forall k r v, bk_now b !! k = Some (r, v) ->
    exists l1 l2, bk_log b = l1 ++ (k, r, v) :: l2 /\ Forall (fun t => t.1.1 <> k) l1;
  bo_dec : forall id r v, taken_by b (jobKey id) r v ->
    exists rec, dec_job v = Some rec /\ j_ID rec = id;
  bo_story : forall id, story (records id b)
}.

Lemma taken_rev (b : jobs_bucket) k r v v' :
  bucket_ok b -> taken_by b k r v -> taken_by b k r v' -> v = v'.
Proof.
  intros Hb [i Hi]%list_elem_of_lookup_1 [j Hj]%list_elem_of_lookup_1.
  assert (i = j) as ->; [|congruence].
  apply (NoDup_lookup _ i j r (bo_uniq b Hb)); by rewrite list_lookup_fmap, ?Hi, ?Hj.
Qed.

Lemma records_in (b : jobs_bucket) id r v rec :
  taken_by b (jobKey id) r v -> dec_job v = Some rec -> rec ∈ records id b.
Proof.
  intros Ht Hd. unfold records. apply list_elem_of_omap. exists (jobKey id, r, v).
  split; [done|]. by rewrite String.eqb_refl.
Qed.

Lemma bucket_log_ok (b : jobs_bucket) : bucket_ok b -> log_ok (taken_by b).
Proof.
  intros Hb. split.
  - apply (bo_dec b Hb).
  - intros k r v v'. by apply taken_rev.
  - intros id r r' v v' rec rec' Hv Hv' Hd Hd' Hc Hc'.
    symmetry. apply (story_completed (records id b)); [by apply (bo_story b Hb)| | |done|done].
    + exact (records_in b id r v rec Hv Hd).
    + exact (records_in b id r' v' rec' Hv' Hd').
  - intros id r v rec Hv Hd.
    exact (proj1 (Forall_forall _ _) (story_well_formed _ (bo_story b Hb id)) rec (records_in b id r v rec Hv Hd)).
Qed.

Lemma bucket_put_le k v (b : jobs_bucket) : log_le (taken_by b) (taken_by (bucket_put k v b)).
Proof. intros k' r v' Ht. unfold taken_by, bucket_put. simpl. by apply list_elem_of_further. Qed.

Lemma bucket_put_ok (k : string) (v : V) (b : jobs_bucket) :
  bucket_ok b ->
  (forall id, k = jobKey id -> exists rec, dec_job v = Some rec /\ j_ID rec = id /\
     story (rec :: records id b)) ->
  bucket_ok (bucket_put k v b).
Proof.
  intros Hb Hk. split; unfold taken_by, bucket_put; simpl.
  - intros k' r v' [Heq|Hin]%elem_of_cons; [injection Heq; lia|].
    pose proof (bo_rev b Hb _ _ _ Hin). lia.
  - csimpl. constructor; [|apply (bo_uniq b Hb)].
    intros ([[k' r'] v'] & Hr & Hin)%list_elem_of_fmap. simpl in Hr.
    pose proof (bo_rev b Hb _ _ _ Hin). lia.
  - intros k' r v' [[<- [= <- <-]]|[Hne Hn]]%lookup_insert_Some.
    { exists [], (bk_log b). done. }
    destruct (bo_now b Hb _ _ _ Hn) as (l1 & l2 & -> & Hf).
    exists ((k, (bk_rev b + 1)%N, v) :: l1), l2. split; [done|]. by constructor.
  - intros id r v' [Heq|Hin]%elem_of_cons; [|by apply (bo_dec b Hb id r)].
    injection Heq as Hid _ ->. destruct (Hk id (eq_sym Hid)) as (rec & ? & ? & _). eauto.
  - intros id. pose proof (bo_story b Hb id) as Hs. unfold records in *. simpl.
    destruct (String.eqb_spec k (jobKey id)) as [He|]; [|done].
    destruct (Hk id He) as (rec & Hd & _ & Hst). by rewrite Hd.
Qed.

(** What a key holds is the newest record of its story. *)
Lemma now_newest (b : jobs_bucket) id r v rec :
  bucket_ok b -> bk_now b !! jobKey id = Some (r, v) -> dec_job v = Some rec ->
  exists l, records id b = rec :: l.
Proof.
  intros Hb Hn Hd. destruct (bo_now b Hb _ _ _ Hn) as (l1 & l2 & Hl & Hf).
  unfold records. rewrite Hl, omap_app.
  assert (omap (fun '(k, r, v) => if String.eqb k (jobKey id) then dec_job v else None) l1 = []) as ->.
  { clear -Hf. induction Hf as [|[[k r] v] l Hk Hf IH]; [done|]. csimpl.
    destruct (String.eqb_spec k (jobKey id)) as [->|]; [by destruct Hk|done]. }
  csimpl. rewrite String.eqb_refl, Hd. eauto.
Qed.

Lemma now_taken (b : jobs_bucket) k r v : bucket_ok b -> bk_now b !! k = Some (r, v) -> taken_by b k r v.
Proof.
  intros Hb Hn. destruct (bo_now b Hb _ _ _ Hn) as (l1 & l2 & Hl & _). unfold taken_by. rewrite Hl.
  apply elem_of_app. right. apply list_elem_of_here.
Qed.

(** A call that is in order keeps the bucket, and is answered from its log. *)
Lemma serve_ok (b b' : jobs_bucket) R (o : op R) r :
  serve b R o r b' -> bucket_ok b -> call_ok (taken_by b) o ->
  bucket_ok b' /\ log_le (taken_by b) (taken_by b') /\ answer_ok (taken_by b') o r.
Proof.
  intros Hs Hb Hc. destruct Hs.
  - split; [done|]. split; [done|]. simpl. by apply now_taken.
  - done.
  - split; [|split; [apply bucket_put_le|]].
    + apply bucket_put_ok; [done|]. intros id Hid. destruct (Hc id Hid) as (rec & Hd & Hj & Hi).
      exists rec. split; [done|]. split; [done|].
      assert (records id b = []) as ->; [|by constructor].
      destruct (records id b) as [|x l] eqn:Hx; [done|].
      assert (x ∈ records id b) as Hin by (rewrite Hx; apply list_elem_of_here).
      apply list_elem_of_omap in Hin as ([[k' r'] v'] & Hin & He).
      destruct (String.eqb_spec k' (jobKey id)) as [->|]; [|done].
      rewrite <-Hid in Hin. by destruct (H0 id Hid r' v').
    + simpl. destruct H1 as [->|[err ->]]; [|done]. unfold taken_by. apply list_elem_of_here.
  - done.
  - split; [|split; [apply bucket_put_le|]].
    + destruct Hc as (id & v0 & rold & rnew & -> & Hold & Hd0 & Hd & Hj & Ht).
      apply bucket_put_ok; [done|]. intros id' Hid'%jobKey_inj. subst id'. exists rnew.
      split; [done|]. split; [done|].
      assert (v0 = old) as ->.
      { eapply taken_rev; [done|exact Hold|]. by apply now_taken. }
      destruct (now_newest b id _ _ _ Hb H Hd0) as [l Hl]. rewrite Hl.
      constructor; [|done]. rewrite <-Hl. by apply (bo_story b Hb).
    + simpl. destruct H0 as [->|[err ->]]; [|done]. unfold taken_by. apply list_elem_of_here.
  - done.
  - split; [|split; [done|done]]. destruct Hb as [H1 H2 H3 H4 H5]. split; try done.
    + intros k' r' v' Ht. pose proof (H1 _ _ _ Ht). simpl. lia.
    + intros k' r' v' Hn. simpl in Hn. apply lookup_delete_Some in Hn as [_ Hn]. by apply H3.
  - done.
  - split; [done|]. split; [done|]. done.
  - split; [done|]. split; [done|]. destruct o; try done; by destruct b0.
Qed.

(** ** Every component is in order *)

(** A goroutine whose calls, and those of what it leaves running, are in order. *)
Definition in_order (K : log) (g : goroutine) : Prop :=
  lawful K g (fun K' ps => Forall (orderly K') ps).

Lemma in_order_mono (K K' : log) (g : goroutine) : log_le K K' -> in_order K g -> in_order K' g.
Proof.
  intros HK Hg. apply (lawful_mono K K' g _ _ HK Hg). intros K2 K2' ps H2 Hps.
  eapply Forall_impl; [exact Hps|]. intros p Hp. by eapply orderly_mono.
Qed.

Lemma plain_in_order (K : log) {A} (p : prog A) : orderly K p -> in_order K (plain p).
Proof.
  intros Hp. unfold in_order, plain. apply lawful_bind.
  apply (lawful_weaken K p _ _ Hp). intros K' a _ _. by constructor.
Qed.

Lemma owner_goroutine_orderly (K : log) (o : started) (events : list owner_event) :
  start_sound K (Some o) -> orderly K (owner_goroutine o events).
Proof.
  intros Ho. unfold owner_goroutine. apply orderly_bind; [by apply ownerLoop_lawful|].
  intros K1 s H1. unfold ownerExit. apply (locked_lawful K1 (A:=WorkerState)). intros K2 [] _ _.
  apply lawful_harmless; [done|]. intros K3 [] _ _ _.
  apply (locked_lawful K3 (A:=WorkerState)). intros K4 [] _ _.
  apply (locked_orderly K4 (A:=WorkerState)).
Qed.

Lemma owners_orderly (K : log) (l : list started) (events : started -> list owner_event) :
  (forall o, o ∈ l -> start_sound K (Some o)) ->
  Forall (orderly K) (map (fun o => owner_goroutine o (events o)) l).
Proof.
  intros Hl. apply Forall_forall. intros p Hp%list_elem_of_In%in_map_iff.
  destruct Hp as (o & <- & Ho%list_elem_of_In). apply owner_goroutine_orderly. by apply Hl.
Qed.

Lemma component_in_order (K : log) (g : goroutine) : component g -> in_order K g.
Proof.
  intros Hg. destruct Hg.
  - apply plain_in_order, serveCollectionCreate_lawful.
  - apply plain_in_order, servePGOCollection_lawful.
  - apply plain_in_order, LatestCompleted_lawful.
  - apply plain_in_order, tick_lawful.
  - unfold in_order, scan_goroutine. apply lawful_bind.
    apply (lawful_weaken K _ _ _ (scan_lawful cfg K)). intros K' l _ Hl. by apply owners_orderly.
  - unfold in_order, visit_goroutine. apply lawful_bind.
    apply (lawful_weaken K _ _ _ (visit_due_lawful cfg K [candidate] now slotFree)).
    intros K' l _ Hl. by apply owners_orderly.
  - apply plain_in_order, sweep_lawful.
  - apply plain_in_order, (locked_orderly K (A:=WorkerState)).
  - apply plain_in_order, (locked_orderly K (A:=WorkerState)).
Qed.

(** ** The invariant of the world *)

Record world_ok (w : world) : Prop := {
  wo_bucket : bucket_ok (w_bucket w);
  wo_memory : forall i, cache_ok (taken_by (w_bucket w)) (the (w_memory w i));
  wo_running : forall i g, (i, g) ∈ w_running w -> in_order (taken_by (w_bucket w)) g
}.

Lemma set_memory_ok (K : log) i m f :
  cache_ok K (the m) -> (forall j, cache_ok K (the (f j))) ->
  forall j, cache_ok K (the (set_memory i m f j)).
Proof. intros Hm Hf j. unfold set_memory. by case_decide. Qed.

Lemma step_ok (w w' : world) : step w w' -> world_ok w -> world_ok w'.
Proof.
  intros Hs [Hb Hm Hr]. destruct Hs; simpl in *.
  - split; simpl; [done|done|]. intros j g' [Heq|Hin]%elem_of_cons; [|by eapply Hr].
    injection Heq as -> ->. by apply component_in_order.
  - assert (in_order (taken_by (w_bucket w)) (Vis o k)) as [Hc Hk].
    { apply (Hr i). rewrite H. apply elem_of_app. right. apply list_elem_of_here. }
    destruct (serve_ok _ _ _ _ _ H0 Hb Hc) as (Hb' & Hle & Ha). split; simpl; [done| |].
    + intros j. by eapply cache_ok_mono.
    + intros j g [Hin|[Heq|Hin]%elem_of_cons]%elem_of_app.
      * apply (in_order_mono (taken_by (w_bucket w))); [done|]. apply (Hr j). rewrite H. set_solver.
      * injection Heq as -> ->. apply Hk; [done|by apply bucket_log_ok|done].
      * apply (in_order_mono (taken_by (w_bucket w))); [done|]. apply (Hr j). rewrite H. set_solver.
  - assert (in_order (taken_by (w_bucket w)) (Vis (Atomic f) k)) as [Hc Hk].
    { apply (Hr i). rewrite H. apply elem_of_app. right. apply list_elem_of_here. }
    split; simpl; [done| |].
    + apply set_memory_ok; [|done]. apply Hc, Hm.
    + intros j g [Hin|[Heq|Hin]%elem_of_cons]%elem_of_app.
      * apply (Hr j). rewrite H. set_solver.
      * injection Heq as -> ->. apply Hk; [done|by apply bucket_log_ok|]. exists (w_memory w i). split; [apply Hm|reflexivity].
      * apply (Hr j). rewrite H. set_solver.
  - assert (in_order (taken_by (w_bucket w)) (Ret ps)) as Hps.
    { apply (Hr i). rewrite H. apply elem_of_app. right. apply list_elem_of_here. }
    split; simpl; [done|done|]. intros j g [Hin|[Hin|Hin]%elem_of_app]%elem_of_app.
    + apply (Hr j). rewrite H. set_solver.
    + apply list_elem_of_In, in_map_iff in Hin as (p & Heq & Hp%list_elem_of_In).
      injection Heq as <- <-. apply plain_in_order.
      exact (proj1 (Forall_forall _ _) Hps p Hp).
    + apply (Hr j). rewrite H. set_solver.
  - split; simpl; [done| |done]. apply set_memory_ok; [|done]. apply (apply_ok _ kind e); [done|apply Hm].
  - split; simpl; [done| |done]. apply set_memory_ok; [|done]. apply Hm.
  - split; simpl; [done| |].
    + apply set_memory_ok; [|done]. rewrite H. apply NewCaches_ok.
    + intros j g [_ Hin]%list_elem_of_filter. by eapply Hr.
Qed.

Lemma reachable_ok (w : world) : reachable w -> world_ok w.
Proof.
  intros (w0 & (Hb & Hm & Hr) & Hs). assert (world_ok w0) as H0.
  { split; rewrite ?Hb, ?Hr.
    - split; simpl; try done; try (intros; by apply not_elem_of_nil in H).
      + constructor.
      + intros id. constructor.
    - intros i. rewrite Hm. apply NewCaches_ok.
    - by intros i g ?%not_elem_of_nil. }
  clear Hb Hm Hr. induction Hs as [|w w1 w2 Hw Hs IH]; [done|]. apply IH. by eapply step_ok.
Qed.

(** ** What every reachable world satisfies *)

(** Whatever requests, scans, ticks, passes, timers, lost acknowledgements,
    crashes and reconnections the replicas go through, in any interleaving, the
    records the key of each Collection has held are one story: the first is a
    fresh one, and each of the others a transition of the one before it; and
    what the key holds, while it holds anything, is the newest of them.  So no
    writer ever replaces a record it had not seen, or by one another writer
    could not have expected. *)
Theorem lifecycle_safe (w : world) (id : string) :
  reachable w ->
  story (records id (w_bucket w)) /\
  (forall r v, bk_now (w_bucket w) !! jobKey id = Some (r, v) ->
     exists rec l, dec_job v = Some rec /\ j_ID rec = id /\ records id (w_bucket w) = rec :: l).
Proof.
  intros [Hb _ _]%reachable_ok. split; [by apply (bo_story _ Hb)|]. intros r v Hn.
  destruct (bo_dec _ Hb id r v (now_taken _ _ _ _ Hb Hn)) as (rec & Hd & Hid).
  destruct (now_newest _ _ _ _ _ Hb Hn Hd) as [l Hl]. by exists rec, l.
Qed.

(** A step adds at most one record to a story, at its end. *)
Lemma serve_records (b b' : jobs_bucket) R (o : op R) r id :
  serve b R o r b' ->
  records id b' = records id b \/ exists rec, records id b' = rec :: records id b.
Proof.
  assert (forall k v, records id (bucket_put k v b) = records id b \/
    exists rec, records id (bucket_put k v b) = rec :: records id b) as Hput.
  { intros k v. unfold records, bucket_put. csimpl.
    destruct (String.eqb k (jobKey id)); [|by left]. destruct (dec_job v); [|by left]. right. by eexists. }
  intros Hs. destruct Hs; auto.
Qed.

Lemma step_records (w w' : world) id :
  step w w' ->
  records id (w_bucket w') = records id (w_bucket w) \/
  exists rec, records id (w_bucket w') = rec :: records id (w_bucket w).
Proof. intros Hs. destruct Hs; simpl; try (by left). by eapply serve_records. Qed.

Lemma step_reachable (w w' : world) : reachable w -> step w w' -> reachable w'.
Proof. intros (w0 & H0 & Hr) Hs. exists w0. split; [done|]. by eapply rtc_r. Qed.

Lemma bucket_story (w : world) (id : string) : reachable w -> story (records id (w_bucket w)).
Proof. intros [Hb _ _]%reachable_ok. by apply (bo_story _ Hb). Qed.

(** Nothing has followed the end [x], or its expiry has. *)
Definition ended_as (x : Job) (l recs : list Job) : Prop :=
  recs = x :: l \/ j_State x = StateCompleted /\ recs = set_state StateExpired x :: x :: l.

(** C2: a Collection that has ended stays as it ended: from any reachable world
    in which its newest record is terminal, every later record of its key is
    that record's own expiry, which only a completed one has, and at most one. *)
Theorem ended_is_final (w w' : world) (id : string) (x : Job) (l : list Job) :
  reachable w -> rtc step w w' -> records id (w_bucket w) = x :: l ->
  terminal (j_State x) = true ->
  ended_as x l (records id (w_bucket w')).
Proof.
  intros Hw Hs Hx Ht.
  assert (forall a, rtc step a w' -> reachable a ->
    ended_as x l (records id (w_bucket a)) -> ended_as x l (records id (w_bucket w'))) as Hgen.
  { clear w Hw Hs Hx. intros a Hs. induction Hs as [|a b c Hab Hbc IH]; [done|]. intros Ha He.
    pose proof (step_reachable a b Ha Hab) as Hb. apply IH; [done|].
    pose proof (bucket_story b id Hb) as Hz.
    destruct (step_records a b id Hab) as [->|[rec Hrec]]; [done|]. rewrite Hrec in *.
    destruct He as [He|[Hc He]]; rewrite He in *; inversion Hz as [| |? ? ? _ Htr]; subst.
    - destruct (terminal_final _ _ Htr Ht) as [Hc _]. right. split; [done|].
      f_equal. by apply transition_completed.
    - by destruct (terminal_final _ _ Htr eq_refl). }
  apply (Hgen w Hs Hw). by left.
Qed.

End system.

(** ** A run of the system *)

Section drive.
  Context {V : Type} `{HW : Wire V}.
  Variables (defaults : Policy) (limits : PGOLimits) (cfg : WorkerConfig) (jobRetention : duration).
  Abbreviation prog := (Effects.prog V memory).
  Abbreviation op := (Effects.op V memory).
  Abbreviation steps := (step (V:=V) defaults limits cfg jobRetention).
  Variable clock : time.

(** A store that answers every call and a clock that stands still at [clock]:
    one of the worlds a goroutine can meet. *)
Definition ever_held (k : string) (b : jobs_bucket (V:=V)) : bool :=
  existsb (fun t => String.eqb t.1.1 k) (bk_log b).

Definition serve_one {R} (o : op R) (s : jobs_bucket (V:=V) * memory) : option (R * (jobs_bucket (V:=V) * memory)) :=
  let '(b, m) := s in
  match o in Effects.op _ _ R return option (R * (jobs_bucket (V:=V) * memory)) with
  | KvGet BJobs k =>
      Some (match bk_now b !! k with
            | Some (r, v) => Ok {| e_value := v; e_revision := r; e_created := 0 |}
            | None => Err ErrKeyNotFound
            end, s)
  | KvCreate BJobs k v =>
      if bool_decide (bk_now b !! k = None) && negb (ever_held k b)
      then Some (Ok (bk_rev b + 1)%N, (bucket_put k v b, m)) else Some (Err ErrKeyExists, s)
  | KvUpdate BJobs k v expected =>
      match bk_now b !! k with
      | Some (r, _) =>
          if (r =? expected)%N then Some (Ok (bk_rev b + 1)%N, (bucket_put k v b, m))
          else Some (Err ErrRevisionMismatch, s)
      | None => Some (Err ErrRevisionMismatch, s)
      end
  | KvDelete BJobs k expected =>
      match bk_now b !! k with
      | Some (r, _) =>
          if (r =? expected)%N then Some (Ok tt, (bucket_delete k b, m)) else Some (Err ErrRevisionMismatch, s)
      | None => Some (Err ErrRevisionMismatch, s)
      end
  | KvGet BConfig _ => Some (Err ErrKeyNotFound, s)
  | KvKeys _ _ => Some (Ok [], s)
  | ObjList => Some (Ok [], s)
  | Generation => Some (1%N, s)
  | Connected => Some (true, s)
  | WatchSynced _ => Some (true, s)
  | View _ => Some (Ok tt, s)
  | Now => Some (clock, s)
  | Rand n => Some (replicate n Byte.x05, s)
  | Atomic f => let '(r, m') := f m in Some (r, (b, m'))
  | Emit _ => Some (tt, s)
  | _ => None
  end.

Fixpoint drive {A} (p : prog A) (s : jobs_bucket (V:=V) * memory) : option (A * (jobs_bucket (V:=V) * memory)) :=
  match p with
  | Ret a => Some (a, s)
  | Vis o k =>
      match serve_one o s with Some (r, s') => drive (k r) s' | None => None end
  end.

Lemma ever_held_false k b : ever_held k b = false -> forall r v, ~ taken_by b k r v.
Proof.
  intros He r v Ht. apply not_true_iff_false in He. apply He. apply existsb_exists.
  exists (k, r, v). split; [by apply list_elem_of_In|apply String.eqb_refl].
Qed.

(** Either the call is one the bucket serves, or it is a step on the memory. *)
Lemma serve_one_spec {R} (o : op R) b m r b' m' :
  serve_one o (b, m) = Some (r, (b', m')) ->
  (serve b R o r b' /\ m' = m) \/
  (exists f, o = Atomic f /\ b' = b /\ f m = (r, m')).
Proof.
  intros H. destruct o; simpl in H; try done.
  - destruct b0; injection H as <- <- <-; left; (split; [|done]).
    + by apply sv_other.
    + destruct (bk_now b !! k) as [[r v]|] eqn:Hk; [by apply sv_get|apply sv_get_failed].
  - destruct b0; [done|]. destruct (bool_decide _ && negb _) eqn:Hc; injection H as <- <- <-; left; (split; [|done]).
    + apply andb_true_iff in Hc as [H1%bool_decide_eq_true H2%negb_true_iff].
      apply sv_create; [done| |by left]. intros _ _. by apply ever_held_false.
    + apply sv_create_failed.
  - destruct b0; [done|]. destruct (bk_now b !! k) as [[r0 v0]|] eqn:Hk.
    + destruct (N.eqb_spec r0 expected) as [->|]; injection H as <- <- <-; left; (split; [|done]).
      * eapply sv_update; [done|by left].
      * apply sv_update_failed.
    + injection H as <- <- <-. left. split; [apply sv_update_failed|done].
  - destruct b0; [done|]. destruct (bk_now b !! k) as [[r0 v0]|] eqn:Hk.
    + destruct (N.eqb_spec r0 expected) as [->|]; injection H as <- <- <-; left; (split; [|done]).
      * by eapply sv_delete.
      * apply sv_delete_failed.
    + injection H as <- <- <-. left. split; [apply sv_delete_failed|done].
  - injection H as <- <- <-. left. split; [|done]. apply sv_keys. constructor.
  - injection H as <- <- <-. left. split; [by apply sv_other|done].
  - injection H as <- <- <-. left. split; [by apply sv_other|done].
  - injection H as <- <- <-. left. split; [by apply sv_other|done].
  - injection H as <- <- <-. left. split; [by apply sv_other|done].
  - injection H as <- <- <-. left. split; [by apply sv_other|done].
  - injection H as <- <- <-. left. split; [by apply sv_other|done].
  - injection H as <- <- <-. left. split; [by apply sv_other|done].
  - destruct (f m) as [x m1] eqn:Hf. injection H as <- <- <-. right. by exists f.
  - injection H as <- <- <-. left. split; [by apply sv_other|done].
Qed.

Lemma drive_bind {A B} (p : prog A) (f : A -> prog B) s :
  drive (p ≫= f) s = match drive p s with Some (a, s') => drive (f a) s' | None => None end.
Proof.
  revert s. induction p as [a|R o k IH]; intros s; [done|].
  change ((Vis o k) ≫= f) with (Vis o (fun r => k r ≫= f)). cbn [drive].
  destruct (serve_one o s) as [[r s']|]; [apply IH|done].
Qed.

(** A driven goroutine of one replica runs in the system, beside whatever else
    is running. *)
Lemma drive_steps (i : nat) rest (g : goroutine (V:=V)) b m ps b' m' mem :
  drive g (b, m) = Some (ps, (b', m')) -> mem i = m ->
  exists mem', rtc steps {| w_bucket := b; w_memory := mem; w_running := (i, g) :: rest |}
                        {| w_bucket := b'; w_memory := mem'; w_running := (i, Ret ps) :: rest |} /\
    mem' i = m'.
Proof.
  revert b m mem. induction g as [a|R o k IH]; intros b m mem; cbn [drive].
  { intros [= -> -> ->] Hm. by exists mem. }
  destruct (serve_one o (b, m)) as [[r [b1 m1]]|] eqn:Hs; [|done]. intros Hd Hm.
  destruct (serve_one_spec _ _ _ _ _ _ Hs) as [[Hsv ->]|(f & -> & -> & Hf)].
  - destruct (IH r b1 m mem Hd Hm) as (mem' & Hr & Hm'). exists mem'. split; [|done].
    eapply rtc_l; [|exact Hr].
    apply (st_call _ _ _ _ {| w_bucket := b; w_memory := mem; w_running := (i, Vis o k) :: rest |}
      i R o k r b1 [] rest); done.
  - destruct (IH r b m1 (set_memory i m1 mem) Hd) as (mem' & Hr & Hm').
    { unfold set_memory. by rewrite decide_True. }
    exists mem'. split; [|done]. eapply rtc_l; [|exact Hr].
    pose proof (st_memory defaults limits cfg jobRetention
      {| w_bucket := b; w_memory := mem; w_running := (i, Vis (Atomic f) k) :: rest |}
      i R f k [] rest eq_refl) as Hst. simpl in Hst. rewrite Hm, Hf in Hst. exact Hst.
Qed.

(** A goroutine from its start to its end. *)
Lemma drive_runs (i : nat) rest (g : goroutine (V:=V)) b m b' m' mem :
  component defaults limits cfg jobRetention g ->
  drive g (b, m) = Some ([], (b', m')) -> mem i = m ->
  exists mem', rtc steps {| w_bucket := b; w_memory := mem; w_running := rest |}
                        {| w_bucket := b'; w_memory := mem'; w_running := rest |} /\ mem' i = m'.
Proof.
  intros Hg Hd Hm. destruct (drive_steps i rest g b m [] b' m' mem Hd Hm) as (mem' & Hr & Hm').
  exists mem'. split; [|exact Hm']. eapply rtc_l.
  { exact (st_start _ _ _ _ {| w_bucket := b; w_memory := mem; w_running := rest |} i g Hg). }
  eapply rtc_r; [exact Hr|].
  exact (st_end _ _ _ _ {| w_bucket := b'; w_memory := mem'; w_running := (i, Ret []) :: rest |}
    i [] [] rest eq_refl).
Qed.
End drive.

(** A replica that has replayed its watches, an empty bucket; then a create,
    and a cancel of what it created. *)
Definition demo_bucket : jobs_bucket (V:=tagged) := {| bk_now := ∅; bk_rev := 0; bk_log := [] |}.
Definition started_memory : memory :=
  (NewCaches, NewPublisher, {| loggedViolations := ∅ |}, NewWorker, {| sweeps := 0 |}, NewTokenBucket 10 0).
Definition replayed (m : memory) (kinds : list cacheKind) : memory :=
  fold_left (fun m k => put (apply (V:=tagged) k (WatchEntry EmptyString None 0 0 1 true) (the m)) m) kinds m.
Definition demo_memory : memory :=
  replayed (put (startAttempt (the started_memory)) started_memory) cacheKinds.

Definition demo_create : goroutine (V:=tagged) :=
  plain (serveCollectionCreate default_policy small_limits 1 "shop" "cart" "alice" [] (inl demo_body)
    demo_found false).
Definition demo_created : string := "55555555555555555555".
Definition demo_cancel : goroutine (V:=tagged) :=
  plain (servePGOCollection RouteCancel demo_created (fun _ _ => true)).

Abbreviation demo_step := (step default_policy small_limits demo_config (100 * second)).
Abbreviation demo_reachable := (reachable default_policy small_limits demo_config (100 * second)).

Abbreviation demo_drive := (drive (V:=tagged) (400 * second)).

(** What the two requests leave: the bucket passes the test. *)
Definition after_both (test : jobs_bucket (V:=tagged) -> bool) : bool :=
  match demo_drive demo_create (demo_bucket, demo_memory) with
  | Some ([], s) =>
      match demo_drive demo_cancel s with Some ([], (b, _)) => test b | _ => false end
  | _ => false
  end.

Lemma replay_steps (kinds : list cacheKind) mem m :
  mem 0%nat = m ->
  exists mem', rtc demo_step {| w_bucket := demo_bucket; w_memory := mem; w_running := [] |}
                            {| w_bucket := demo_bucket; w_memory := mem'; w_running := [] |} /\
    mem' 0%nat = replayed m kinds.
Proof.
  revert mem m. induction kinds as [|k kinds IH]; intros mem m Hm; [by exists mem|].
  set (e := WatchEntry (V:=tagged) EmptyString None 0 0 1 true).
  destruct (IH (set_memory 0 (put (apply k e (the m)) m) mem) (put (apply k e (the m)) m))
    as (mem' & Hr & Hm').
  { unfold set_memory. by rewrite decide_True. }
  exists mem'. split; [|exact Hm']. eapply rtc_l; [|exact Hr].
  pose proof (st_deliver default_policy small_limits demo_config (100 * second)
    {| w_bucket := demo_bucket; w_memory := mem; w_running := [] |} 0%nat k e) as Hst.
  simpl in Hst. rewrite Hm in Hst. by apply Hst.
Qed.

Lemma demo_create_reached b1 m1 :
  demo_drive demo_create (demo_bucket, demo_memory) = Some ([], (b1, m1)) ->
  exists mem, mem 0%nat = m1 /\
    demo_reachable {| w_bucket := b1; w_memory := mem; w_running := [] |}.
Proof.
  intros H1. set (mem0 := set_memory 0 (put (startAttempt (the started_memory)) started_memory)
    (fun _ : nat => started_memory)).
  destruct (replay_steps cacheKinds mem0 (mem0 0%nat) eq_refl) as (mem1 & R1 & E1).
  destruct (drive_runs default_policy small_limits demo_config (100 * second) (400 * second) 0 []
    demo_create demo_bucket demo_memory b1 m1 mem1) as (mem2 & R2 & E2);
    [apply co_create|exact H1|exact E1|].
  exists mem2. split; [done|].
  exists {| w_bucket := demo_bucket; w_memory := fun _ => started_memory; w_running := [] |}.
  split; [done|]. eapply rtc_l; [|etrans; [exact R1|exact R2]].
  exact (st_reconnect _ _ _ _ {| w_bucket := demo_bucket; w_memory := fun _ => started_memory;
    w_running := [] |} 0%nat).
Qed.

Lemma demo_reached (test : jobs_bucket -> bool) :
  after_both test = true -> exists w, demo_reachable w /\ test (w_bucket w) = true.
Proof.
  unfold after_both. destruct (demo_drive demo_create _) as [[[|? ?] [b1 m1]]|] eqn:H1; [|done..].
  destruct (demo_drive demo_cancel _) as [[[|? ?] [b2 m2]]|] eqn:H2; [|done..]. intros Ht.
  destruct (demo_create_reached b1 m1 H1) as (mem2 & E2 & w0 & H0 & R).
  destruct (drive_runs default_policy small_limits demo_config (100 * second) (400 * second) 0 []
    demo_cancel b1 m1 b2 m2 mem2) as (mem3 & R3 & _);
    [apply co_collection|exact H2|exact E2|].
  exists {| w_bucket := b2; w_memory := mem3; w_running := [] |}. split; [|exact Ht].
  exists w0. split; [done|]. etrans; [exact R|exact R3].
Qed.

(** The three records of the story. *)
Definition cancelled_story (b : jobs_bucket) : bool :=
  bool_decide (j_State <$> records demo_created b = [StateCancelled; StatePending; StateInitializing]).

Lemma lifecycle_safe_witness :
  exists w, demo_reachable w /\ j_State <$> records demo_created (w_bucket w) =
    [StateCancelled; StatePending; StateInitializing] /\ story (records demo_created (w_bucket w)).
Proof.
  destruct (demo_reached cancelled_story) as (w & Hw & Ht); [vm_compute; reflexivity|].
  apply bool_decide_eq_true in Ht. exists w. split; [exact Hw|]. split; [exact Ht|].
  exact (proj1 (lifecycle_safe default_policy small_limits demo_config (100 * second) w demo_created Hw)).
Defined.

Lemma ended_is_final_witness :
  exists w w' x l, demo_reachable w /\ rtc demo_step w w' /\
    records demo_created (w_bucket w) = x :: l /\ terminal (j_State x) = true /\
    ended_as x l (records demo_created (w_bucket w')).
Proof.
  destruct (demo_reached cancelled_story) as (w & Hw & Ht); [vm_compute; reflexivity|].
  apply bool_decide_eq_true in Ht.
  destruct (records demo_created (w_bucket w)) as [|x l] eqn:Hr; [done|].
  assert (terminal (j_State x) = true) as Hx by (by injection Ht as -> _).
  assert (rtc demo_step w {| w_bucket := w_bucket w; w_memory := set_memory 0 started_memory (w_memory w);
    w_running := filter (fun t => t.1 <> 0%nat) (w_running w) |}) as Hs
    by (apply rtc_once; by apply st_crash).
  eexists w, _, x, l. split; [exact Hw|]. split; [exact Hs|]. split; [exact Hr|]. split; [exact Hx|].
  exact (ended_is_final default_policy small_limits demo_config (100 * second) w _ demo_created x l
    Hw Hs Hr Hx).
Defined.

