(* ===== verification/Refinement.v ===== *)
(** * The system refines the lifecycle

    The abstract machine of a cluster of Collections: each identifier has a
    history of records and either still holds the newest of them or has been
    deleted.  Every step of the world of System.v, whichever goroutine takes
    it, is one step of this machine on one Collection or changes nothing of
    it.  With it, what the states promise of the fields of a record, and that
    no goroutine of a reachable world has panicked. *)

From S2P Require Import Prelude Effects Config Policy Records Keys Caches Lifecycle Worker System.

(** What the machine knows of one identifier: the records its key has held,
    newest first, and whether the key holds the newest now. *)
Definition collection_state : Type := list Job * bool.

(** One move of one Collection: created once, replaced by a transition of what
    the key holds, deleted when nobody needs it. *)
Inductive collection_step (id : string) : collection_state -> collection_state -> Prop :=
  | cs_create r : initial r -> j_ID r = id -> collection_step id ([], false) ([r], true)
  | cs_replace a b l :
      transition a b -> j_ID b = id -> collection_step id (a :: l, true) (b :: a :: l, true)
  | cs_delete a l : deletable (j_State a) -> collection_step id (a :: l, true) (a :: l, false).

(** One step of the machine moves one Collection, or none. *)
Definition machine_step (s s' : string -> collection_state) : Prop :=
  (forall id, s' id = s id) \/
  exists id, collection_step id (s id) (s' id) /\ forall id', id' <> id -> s' id' = s id'.

Section refinement.
  Context {V : Type} `{HW : Wire V} `{HL : !WireLaws V}.
  Variables (defaults : Policy) (limits : PGOLimits) (cfg : WorkerConfig) (jobRetention : duration).
  Abbreviation step := (step (V:=V) defaults limits cfg jobRetention).
  Abbreviation reachable := (reachable (V:=V) defaults limits cfg jobRetention).

(** What the bucket says of an identifier. *)
Definition abstraction (b : jobs_bucket (V:=V)) (id : string) : collection_state :=
  (records id b, bool_decide (is_Some (bk_now b !! jobKey id))).

Lemma abstraction_put_other (b : jobs_bucket) k v id :
  k <> jobKey id -> abstraction (bucket_put k v b) id = abstraction b id.
Proof.
  intros Hk. unfold abstraction, records, bucket_put. csimpl.
  destruct (String.eqb_spec k (jobKey id)); [done|]. by rewrite lookup_insert_ne.
Qed.

Lemma abstraction_put (b : jobs_bucket) v id rec :
  dec_job v = Some rec ->
  abstraction (bucket_put (jobKey id) v b) id = (rec :: records id b, true).
Proof.
  intros Hd. unfold abstraction, records, bucket_put. csimpl.
  rewrite String.eqb_refl, Hd, lookup_insert_eq. by rewrite bool_decide_true by by eexists.
Qed.

Lemma machine_put (b : jobs_bucket) k v :
  (forall id, k = jobKey id -> exists rec, dec_job v = Some rec /\
     collection_step id (abstraction b id) (rec :: records id b, true)) ->
  machine_step (abstraction b) (abstraction (bucket_put k v b)).
Proof.
  intros Hk. destruct (cut_prefix jobPrefix k) as [id|] eqn:Hc.
  - apply cut_prefix_Some in Hc. destruct (Hk id Hc) as (rec & Hd & Hstep). right. exists id.
    subst k. split; [change (jobPrefix +:+ id) with (jobKey id); by rewrite (abstraction_put _ _ _ rec)|].
    intros id' Hne. apply abstraction_put_other. by intros ?%jobKey_inj.
  - left. intros id. apply abstraction_put_other. intros ->. unfold jobKey in Hc.
    by rewrite cut_prefix_app in Hc.
Qed.

Lemma abstraction_delete_other (b : jobs_bucket) k id :
  k <> jobKey id -> abstraction (bucket_delete k b) id = abstraction b id.
Proof. intros Hk. unfold abstraction, bucket_delete. simpl. by rewrite lookup_delete_ne. Qed.

Lemma now_abstraction (b : jobs_bucket) id r v rec :
  bucket_ok b -> bk_now b !! jobKey id = Some (r, v) -> dec_job v = Some rec ->
  exists l, abstraction b id = (rec :: l, true) /\ records id b = rec :: l.
Proof.
  intros Hb Hn Hd. destruct (now_newest b id r v rec Hb Hn Hd) as [l Hl]. exists l.
  split; [|done]. unfold abstraction. by rewrite Hl, Hn, bool_decide_true by by eexists.
Qed.

Lemma serve_refines (b b' : jobs_bucket) R (o : op V memory R) r :
  serve b R o r b' -> bucket_ok b -> call_ok (taken_by b) o ->
  machine_step (abstraction b) (abstraction b').
Proof.
  intros Hs Hb Hc. destruct Hs; try (by left).
  - apply machine_put. intros id Hid. destruct (Hc id Hid) as (rec & Hd & Hj & Hi). exists rec.
    split; [done|]. assert (records id b = []) as Hnil.
    { destruct (records id b) as [|x l] eqn:Hx; [done|].
      assert (x ∈ records id b) as Hin by (rewrite Hx; apply list_elem_of_here).
      apply list_elem_of_omap in Hin as ([[k' r'] v'] & Hin & He).
      destruct (String.eqb_spec k' (jobKey id)) as [->|]; [|done].
      rewrite <-Hid in Hin. by destruct (H0 id Hid r' v'). }
    unfold abstraction. rewrite Hnil, <-Hid, H, bool_decide_false by (by intros []). by constructor.
  - destruct Hc as (id & v0 & rold & rnew & -> & Hold & Hd0 & Hd & Hj & Ht).
    apply machine_put. intros id' <-%jobKey_inj. exists rnew. split; [done|].
    assert (v0 = old) as -> by (eapply taken_rev; [done|exact Hold|by apply now_taken]).
    destruct (now_abstraction b id _ _ _ Hb H Hd0) as (l & -> & ->). by constructor.
  - destruct (cut_prefix jobPrefix k) as [id|] eqn:Hk.
    + apply cut_prefix_Some in Hk. right. exists id. subst k. change (jobPrefix +:+ id) with (jobKey id) in *.
      split; [|intros id' Hne; apply abstraction_delete_other; by intros ?%jobKey_inj].
      destruct (Hc id eq_refl) as (v & rec & Hv & Hd & Hdel).
      assert (v = old) as -> by (eapply taken_rev; [done|exact Hv|by apply now_taken]).
      destruct (now_abstraction b id _ _ _ Hb H Hd) as (l & -> & Hl).
      unfold abstraction, bucket_delete. simpl. rewrite lookup_delete_eq, bool_decide_false by (by intros []).
      change (records id {| bk_now := delete (jobKey id) (bk_now b); bk_rev := bk_rev b + 1; bk_log := bk_log b |})
        with (records id b). rewrite Hl. by constructor.
    + left. intros id. apply abstraction_delete_other. intros ->. unfold jobKey in Hk.
      by rewrite cut_prefix_app in Hk.
Qed.

(** C1: the system refines the lifecycle.  From any world the cluster can
    reach, whatever requests, scans, ticks, passes, timers, lost
    acknowledgements, crashes and reconnections led there, each further step is
    a step of the abstract machine on one Collection or leaves them all as
    they are: a Collection is created once, its record is only ever replaced
    by a transition of what the key holds at that moment, never of one another
    writer has already replaced, and it is deleted only while nobody needs it.
    Of [NewID] it takes that no identifier is drawn twice. *)
Theorem system_refines_lifecycle (w w' : world) :
  reachable w -> step w w' -> machine_step (abstraction (w_bucket w)) (abstraction (w_bucket w')).
Proof.
  intros Hw Hs. pose proof (reachable_ok _ _ _ _ _ Hw) as [Hb _ Hr].
  destruct Hs; try (by left). simpl. eapply serve_refines; [done|done|].
  assert (in_order (taken_by (w_bucket w)) (Vis o k)) as [Hc _]; [|exact Hc].
  apply (Hr i). rewrite H. apply elem_of_app. right. apply list_elem_of_here.
Qed.

(** The goroutine's next call is a runtime panic. *)
Definition panicking (g : goroutine (V:=V)) : Prop := exists k, g = Vis PanicOp k.

(** C5: what the state of a record promises of its fields holds of every
    record a Collection's key has held: a running one has an owner, a lease, a
    start and a deadline, a completed one an artifact and an expiry, an ended
    one its end and nothing else does; and so no goroutine of a reachable
    world dereferences a missing field or divides by a policy's zero. *)
Theorem records_well_formed (w : world) :
  reachable w ->
  (forall id, Forall well_formed (records id (w_bucket w))) /\
  (forall i g, (i, g) ∈ w_running w -> ~ panicking g).
Proof.
  intros Hw. pose proof (reachable_ok _ _ _ _ _ Hw) as [Hb _ Hr]. split.
  - intros id. apply story_well_formed. by apply (bo_story _ Hb).
  - intros i g Hg [k ->]. by destruct (Hr i _ Hg) as [Hc _].
Qed.
End refinement.

(** ** Witnesses *)

Lemma system_refines_lifecycle_witness :
  exists w w', demo_reachable w /\ demo_step w w' /\
    (abstraction (w_bucket w) demo_created).1 <> [] /\
    machine_step (abstraction (w_bucket w)) (abstraction (w_bucket w')).
Proof.
  destruct (demo_reached cancelled_story) as (w & Hw & Ht); [vm_compute; reflexivity|].
  apply bool_decide_eq_true in Ht.
  pose (w' := {| w_bucket := w_bucket w; w_memory := w_memory w;
                 w_running := (0%nat, demo_cancel) :: w_running w |}).
  assert (demo_step w w') as Hs by (apply st_start, co_collection).
  exists w, w'. split; [exact Hw|]. split; [exact Hs|]. split.
  - simpl. intros He. by rewrite He in Ht.
  - exact (system_refines_lifecycle default_policy small_limits demo_config (100 * second) w w' Hw Hs).
Defined.

Lemma records_well_formed_witness :
  exists w, demo_reachable w /\ j_State <$> records demo_created (w_bucket w) =
    [StateCancelled; StatePending; StateInitializing] /\
    Forall well_formed (records demo_created (w_bucket w)).
Proof.
  destruct (demo_reached cancelled_story) as (w & Hw & Ht); [vm_compute; reflexivity|].
  apply bool_decide_eq_true in Ht. exists w. split; [exact Hw|]. split; [exact Ht|].
  exact (proj1 (records_well_formed default_policy small_limits demo_config (100 * second) w Hw) demo_created).
Defined.
