(* ===== verification/Liveness.v ===== *)
(** * No Collection is stranded

    Whatever the replicas have been through, and whichever of them are gone, a
    Collection that has not ended is ended by the next scan of any replica whose
    connection is up, whose caches are replayed and current, and whose clock has
    passed the Collection's grace.  The owner's death, a lost acknowledgement
    and a creator that stopped half way leave nothing behind that only they
    could finish.

    A scan runs among the rest of the system ([attended]): between two of its
    calls the world takes any steps, and each of its calls is answered by the
    bucket or by the replica's memory.  The theorem is over every such run. *)

From S2P Require Import Prelude Effects Ident Config Policy Records Keys Caches Lifecycle.
From S2P Require Import Runtime Publisher Scheduler Worker Owner Sweeper TokenBucket System.

(** The moment from which a scan ends the record: the publication's grace, the
    claim's, or the deadline, each past the clock skew. *)
Definition grace_end (x : Job) : time :=
  match j_State x with
  | StateInitializing => j_CreatedAt x + (publishGrace + skewMargin)
  | StatePending => j_ClaimBy x + skewMargin
  | StateRunning => default 0 (j_Deadline x) + skewMargin
  | _ => 0
  end.

(** The reason the scan gives. *)
Definition overdue_reason (x : Job) : string :=
  match j_State x with
  | StateInitializing => ReasonNotPublished
  | StatePending => ReasonNotClaimed
  | _ => ReasonDeadlineExceeded
  end.

Lemma overdue_action (x : Job) (now : time) (rev : N) (slotFree : bool) :
  well_formed x -> unended x -> grace_end x < now ->
  visit_action x now = ActTerminate (overdue_reason x) /\
  due (cached_of x rev) now slotFree = true.
Proof.
  unfold well_formed, unended, grace_end, overdue_reason, visit_action, due, before. simpl.
  intros Hw Hu Hg. destruct (j_State x) eqn:Hs; try done.
  - split; [|by apply Z.ltb_lt].
    rewrite bool_decide_true by done. by rewrite (proj2 (Z.ltb_lt _ _) Hg).
  - rewrite (proj2 (Z.ltb_lt _ _) Hg). rewrite orb_true_r.
    rewrite bool_decide_false by done. by rewrite bool_decide_true by done.
  - destruct Hw as (_ & _ & _ & [d Hd] & _). rewrite Hd in *. simpl in Hg.
    rewrite (proj2 (Z.ltb_lt _ _) Hg). rewrite orb_true_r.
    rewrite !bool_decide_false by done. by rewrite bool_decide_true by done.
Qed.

(** Candidates are of distinct Collections, and a cached record that has not
    ended is one of them. *)
Lemma candidates_distinct (c : Caches) : NoDup (nonterminalJobs c).*1.
Proof.
  unfold nonterminalJobs. rewrite (merge_sort_Permutation candidate_le).
  assert (forall k k' id, cut_prefix jobPrefix k = Some id -> cut_prefix jobPrefix k' = Some id -> k = k') as Hinj.
  { intros k k' id Hk%cut_prefix_Some Hk'%cut_prefix_Some. congruence. }
  revert Hinj. generalize (cut_prefix jobPrefix). intros cut Hinj.
  pose proof (NoDup_fst_map_to_list (jobs c)) as Hn. revert Hn.
  induction (map_to_list (jobs c)) as [|[k j] l IH]; [constructor|]. csimpl. intros [Hk Hl]%NoDup_cons.
  destruct (terminal (cj_State j)); [by apply IH|].
  destruct (cut k) as [id|] eqn:Hid; [|by apply IH]. csimpl.
  apply NoDup_cons. split; [|by apply IH]. intros ([id' j'] & He & Hin)%list_elem_of_fmap.
  cbn [fst] in He. subst id'. apply Hk. apply list_elem_of_omap in Hin as ([k' j2] & Hin & He).
  destruct (terminal (cj_State j2)); [done|].
  destruct (cut k') as [id'|] eqn:Hid'; [|done]. injection He as -> ->.
  apply list_elem_of_fmap. exists (k', j'). split; [|done]. by apply (Hinj k k' id).
Qed.

Lemma candidate_in (id : string) (j : cachedJob) (c : Caches) :
  jobs c !! jobKey id = Some j -> terminal (cj_State j) = false -> (id, j) ∈ nonterminalJobs c.
Proof.
  intros Hj Ht. unfold nonterminalJobs. rewrite (merge_sort_Permutation candidate_le).
  apply list_elem_of_omap. exists (jobKey id, j). split; [by apply elem_of_map_to_list|].
  rewrite Ht. unfold jobKey. by rewrite cut_prefix_app.
Qed.

Lemma claimed_ID (cfg : WorkerConfig) (rec rec' : Job) (now : time) :
  claimed cfg rec now = Some rec' -> j_ID rec' = j_ID rec.
Proof.
  unfold claimed. cbv zeta. destruct (j_StartedAt rec); [by intros [= <-]|].
  destruct (Deadline _ _ _); [by intros [= <-]|done].
Qed.

Section scanning.
  Context {V : Type} `{HW : Wire V} `{HL : !WireLaws V}.
  Variables (defaults : Policy) (limits : PGOLimits) (cfg : WorkerConfig) (jobRetention : duration).
  Abbreviation world := (world (V:=V)).
  Abbreviation step := (step (V:=V) defaults limits cfg jobRetention).
  Abbreviation reachable := (reachable (V:=V) defaults limits cfg jobRetention).
  Abbreviation world_ok := (world_ok (V:=V)).
  Abbreviation bucket := (jobs_bucket (V:=V)).
  Abbreviation prog := (Effects.prog V memory).
  Abbreviation op := (Effects.op V memory).

(** ** A program of one replica among the rest of the system *)

(** One call of a goroutine of replica [i]: a step on the memory of the replica,
    or a call the bucket serves. *)
Definition takes (i : nat) (w : world) {R} (o : op R) : R -> world -> Prop :=
  match o in Effects.op _ _ R return R -> world -> Prop with
  | Atomic f => fun a w' => a = (f (w_memory w i)).1 /\
      w' = {| w_bucket := w_bucket w; w_memory := set_memory i (f (w_memory w i)).2 (w_memory w);
              w_running := w_running w |}
  | o' => fun a w' => exists b, serve (w_bucket w) _ o' a b /\
      w' = {| w_bucket := b; w_memory := w_memory w; w_running := w_running w |}
  end.

(** [attended i others good p w a w']: replica [i] runs [p] from [w], and it
    returns [a] in [w'].  Before each of its calls the rest of the system has
    moved the world by [others], and each call meets [good]. *)
Fixpoint attended (i : nat) (others : relation world)
    (good : world -> forall R, op R -> R -> world -> Prop) {A} (p : prog A) (w : world) (a : A)
    (w' : world) : Prop :=
  match p with
  | Ret b => b = a /\ w = w'
  | Vis o k => exists w1 c w2, others w w1 /\ takes i w1 o c w2 /\ good w1 _ o c w2 /\
      attended i others good (k c) w2 a w'
  end.

(** Whatever happens meanwhile and whatever it is answered, [p] makes its next
    call, until it returns. *)
Fixpoint proceeds (i : nat) (others : relation world) {A} (p : prog A) (w : world) : Prop :=
  match p with
  | Ret _ => True
  | Vis o k => forall w1, others w w1 ->
      (exists c w2, takes i w1 o c w2) /\
      forall c w2, takes i w1 o c w2 -> proceeds i others (k c) w2
  end.

Lemma attended_bind i others good {A B} (p : prog A) (f : A -> prog B) w b w' :
  attended i others good (p ≫= f) w b w' ->
  exists a w1, attended i others good p w a w1 /\ attended i others good (f a) w1 b w'.
Proof.
  revert w. induction p as [a|R o k IH]; intros w; [by intros H; exists a, w|].
  intros (w1 & c & w2 & H1 & H2 & H3 & H4). destruct (IH c w2 H4) as (a & w3 & H5 & H6).
  exists a, w3. split; [|done]. by exists w1, c, w2.
Qed.

Lemma attended_join i others good {A B} (p : prog A) (f : A -> prog B) w a w1 b w' :
  attended i others good p w a w1 -> attended i others good (f a) w1 b w' ->
  attended i others good (p ≫= f) w b w'.
Proof.
  revert w. induction p as [c|R o k IH]; intros w; [by intros [-> ->]|].
  intros (u & c & u1 & H1 & H2 & H3 & H4) H5. exists u, c, u1. eauto 6.
Qed.

(** ** The invariant of the world, with the goroutine beside it *)

Lemma step_log_le (w w' : world) : step w w' -> log_le (taken_by (w_bucket w)) (taken_by (w_bucket w')).
Proof.
  intros Hs. destruct Hs as [|? ? ? ? ? ? ? ? ? _ Hv| | | | |]; try done.
  destruct Hv; try done; apply bucket_put_le.
Qed.

Lemma steps_ok (w w' : world) :
  rtc step w w' -> world_ok w ->
  world_ok w' /\ log_le (taken_by (w_bucket w)) (taken_by (w_bucket w')).
Proof.
  intros Hs. induction Hs as [|u u1 u2 H1 Hs IH]; [done|]. intros Hw.
  destruct (IH (step_ok _ _ _ _ _ _ H1 Hw)) as [H2 H3]. split; [done|].
  etrans; [by apply step_log_le|done].
Qed.

Lemma takes_ok i (w w' : world) {R} (o : op R) a :
  world_ok w -> call_ok (taken_by (w_bucket w)) o -> takes i w o a w' ->
  world_ok w' /\ log_le (taken_by (w_bucket w)) (taken_by (w_bucket w')) /\
  answer_ok (taken_by (w_bucket w')) o a.
Proof.
  intros [Hb Hm Hr] Hc Ht.
  assert (forall b, serve (w_bucket w) R o a b ->
    w' = {| w_bucket := b; w_memory := w_memory w; w_running := w_running w |} ->
    world_ok w' /\ log_le (taken_by (w_bucket w)) (taken_by (w_bucket w')) /\
    answer_ok (taken_by (w_bucket w')) o a) as Hs.
  { intros b Hs ->. destruct (serve_ok _ _ _ _ _ Hs Hb Hc) as (Hb' & Hle & Ha).
    split; [|done]. split; simpl; [done| |].
    - intros j. exact (cache_ok_mono _ _ _ Hle (Hm j)).
    - intros j g Hg. exact (in_order_mono _ _ _ Hle (Hr j g Hg)). }
  destruct o; try (destruct Ht as (b' & Hv & ->); by eapply Hs).
  destruct Ht as [-> ->]. split; [|split; [done|by exists (w_memory w i)]].
  split; simpl; [done| |done]. apply set_memory_ok; [by apply Hc|done].
Qed.

Section among.
  Variables (i : nat) (others : relation world) (good : world -> forall R, op R -> R -> world -> Prop).
  Hypothesis Hothers : forall u u', others u u' -> rtc step u u'.

Lemma attended_lawful {A} (p : prog A) w a w' (Q : Lifecycle.log (V:=V) -> A -> Prop) :
  world_ok w -> lawful (taken_by (w_bucket w)) p Q -> attended i others good p w a w' ->
  world_ok w' /\ Q (taken_by (w_bucket w')) a.
Proof.
  revert w. induction p as [b|R o k IH]; intros w Hw Hp; [by intros [-> ->]|].
  intros (w1 & c & w2 & H1 & H2 & _ & H4). destruct Hp as [Hc Hk].
  destruct (steps_ok _ _ (Hothers _ _ H1) Hw) as [Hw1 Hle1].
  destruct (takes_ok i w1 w2 o c Hw1) as (Hw2 & Hle2 & Ha); [by eapply call_ok_mono|done|].
  apply (IH c w2 Hw2); [|done]. apply Hk; [by etrans|by apply bucket_log_ok, Hw2|done].
Qed.

Lemma takes_something (w : world) {R} (o : op R) : call_ok (taken_by (w_bucket w)) o -> exists a w', takes i w o a w'.
Proof.
  intros Hc. destruct o; try done;
    try (eexists _, _; eexists; split; [by apply sv_other|reflexivity]); try destruct b;
    try (eexists (Err ErrOther), _; eexists; split; [by apply sv_other|reflexivity]);
    try (eexists (Err ErrOther), _; eexists; split; [by constructor|reflexivity]).
  by eexists _, _.
  Unshelve. all: first [exact (Err ErrOther)|exact (Ok tt)|exact 0|exact 0%N|exact true|exact []|exact tt].
Qed.

Lemma lawful_proceeds {A} (p : prog A) w (Q : Lifecycle.log (V:=V) -> A -> Prop) :
  world_ok w -> lawful (taken_by (w_bucket w)) p Q -> proceeds i others p w.
Proof.
  revert w. induction p as [b|R o k IH]; intros w Hw Hp; [done|]. intros w1 H1. destruct Hp as [Hc Hk].
  destruct (steps_ok _ _ (Hothers _ _ H1) Hw) as [Hw1 Hle1].
  assert (call_ok (taken_by (w_bucket w1)) o) as Hc1 by (by eapply call_ok_mono).
  split; [by apply takes_something|]. intros c w2 H2.
  destruct (takes_ok i w1 w2 o c Hw1 Hc1 H2) as (Hw2 & Hle2 & Ha).
  apply (IH c w2 Hw2), Hk; [by etrans|by apply bucket_log_ok, Hw2|done].
Qed.
End among.

(** ** Calls that leave a Collection's key alone *)

Definition quiet (id : string) {R} (o : op R) : Prop :=
  match o with
  | KvCreate BJobs k _ | KvUpdate BJobs k _ _ | KvDelete BJobs k _ => k <> jobKey id
  | _ => True
  end.

Fixpoint spares (id : string) {A} (p : prog A) : Prop :=
  match p with
  | Ret _ => True
  | Vis o k => quiet id o /\ forall r, spares id (k r)
  end.

Lemma spares_bind id {A B} (p : prog A) (f : A -> prog B) :
  spares id p -> (forall a, spares id (f a)) -> spares id (p ≫= f).
Proof.
  intros Hp Hf. induction p as [a|R o k IH]; [apply Hf|]. destruct Hp as [Ho Hk].
  split; [done|]. intros r. apply IH, Hk.
Qed.

Lemma spares_call id {R B} (o : op R) (f : R -> prog B) :
  quiet id o -> (forall r, spares id (f r)) -> spares id (call o ≫= f).
Proof. intros Ho Hf. split; [done|exact Hf]. Qed.

Lemma spares_releaseActive id (rec : Job) : spares id (releaseActive rec : prog unit).
Proof.
  split; [done|]. intros [e|]; [|done]. cbn. destruct (dec_active _); [|done].
  destruct (negb _); [done|]. split; [|done]. apply not_eq_sym, jobKey_not_activeKey.
Qed.

Lemma spares_terminate id (rec : Job) rev reason :
  j_ID rec <> id -> spares id (terminate rec rev reason : prog unit).
Proof.
  intros Hne. split; [done|]. intros now. cbn. destruct (MarshalBounded _); try done.
  split; [by intros ?%jobKey_inj|]. intros [n|]; [|done]. do 2 (split; [done|intros []]).
  apply spares_releaseActive.
Qed.

Lemma spares_claim id (rec : Job) rev :
  j_ID rec <> id -> spares id (claim cfg rec rev : prog (option started)).
Proof.
  intros Hne. unfold claim. case_match; [by apply spares_bind; [apply spares_terminate|]|].
  split; [done|]. intros []; [|done]. cbn [negb]. apply spares_bind; [|done].
  unfold claim_reserved. case_match.
  { split; [done|]. intros []. by apply spares_bind; [apply spares_terminate|]. }
  split; [done|]. intros now. cbn. destruct (claimed cfg rec now) as [rec'|] eqn:Hc; [|done].
  destruct (MarshalBounded _); try done. split.
  { rewrite (claimed_ID _ _ _ _ Hc). by intros ?%jobKey_inj. }
  intros [n|]; [|done]. do 2 (split; [done|intros []]). by destruct (j_LeaseUntil rec').
Qed.

(** ** One Collection and one scan *)

(** The answers that concern the Collection of [id], which holds [x] at
    revision [r].  The connection is up, at generation [g], and its watches are
    synced; the clock reads a moment past the record's grace, and the record
    failed at that moment can be serialized; while the key is at [r] the
    replica's caches have been replayed and show the record; and a call on the
    key reaches the bucket, whose acknowledgement may still be lost.  Of the
    calls on other keys nothing is said. *)
Definition favourable (i : nat) (id : string) (r : N) (v : V) (x : Job) (g : N)
    (w : world) R (o : op R) : R -> world -> Prop :=
  match o in Effects.op _ _ R return R -> world -> Prop with
  | Generation => fun a _ => a = g
  | WatchSynced _ => fun a _ => a = true
  | View _ => fun a _ => a = Ok tt
  | Now => fun now _ => grace_end x < now /\
      exists v', MarshalBounded (enc_job (set_ended StateFailed (overdue_reason x) now x)) = Marshalled v'
  | Atomic _ => fun _ _ => bk_now (w_bucket w) !! jobKey id = Some (r, v) ->
      Synced g (the (w_memory w i)) = true /\
      jobs (the (w_memory w i)) !! jobKey id = Some (cached_of x r)
  | KvGet BJobs k => fun a _ => k = jobKey id ->
      forall n u, bk_now (w_bucket w) !! k = Some (n, u) -> exists c, a = Ok (Entry u n c)
  | KvUpdate BJobs k u n => fun _ w' => k = jobKey id ->
      (exists old, bk_now (w_bucket w) !! k = Some (n, old)) -> w_bucket w' = bucket_put k u (w_bucket w)
  | _ => fun _ _ => True
  end.

Section collection.
  Variables (i : nat) (others : relation world).
  Variables (id : string) (r : N) (v : V) (x : Job) (g : N).
  Hypothesis Hothers : forall u u', others u u' -> rtc step u u'.
  Hypothesis Hdec : dec_job v = Some x.
  Hypothesis Hwf : well_formed x.
  Hypothesis Hun : unended x.
  Hypothesis Hid : j_ID x = id.
  Abbreviation runs := (attended i others (favourable i id r v x g)).

(** The bucket while the record waits, after somebody else moved it, and after
    this scan ended it: what is asked of the three is what the steps of the
    system, and a call of this goroutine, do to them. *)
  Variables (waiting gone over : bucket -> Prop).
  Hypothesis waiting_now : forall b, waiting b -> bk_now b !! jobKey id = Some (r, v).
  Hypothesis others_move : forall u u', others u u' ->
    (waiting (w_bucket u) -> waiting (w_bucket u') \/ gone (w_bucket u')) /\
    (over (w_bucket u) -> over (w_bucket u')).
  Hypothesis others_gone : forall u u', others u u' -> gone (w_bucket u) -> gone (w_bucket u').
  Hypothesis own_gone : forall b b' R (o : op R) a, serve b R o a b' -> gone b -> gone b'.
  Hypothesis own_quiet : forall b b' R (o : op R) a, serve b R o a b' -> quiet id o ->
    (waiting b -> waiting b') /\ (over b -> over b').
  Hypothesis own_end : forall b now v', waiting b -> grace_end x < now ->
    MarshalBounded (enc_job (set_ended StateFailed (overdue_reason x) now x)) = Marshalled v' ->
    over (bucket_put (jobKey id) v' b).

Lemma runs_call {R B} (o : op R) (f : R -> prog B) w b w' :
  runs (call o ≫= f) w b w' ->
  exists w1 c w2, others w w1 /\ takes i w1 o c w2 /\ favourable i id r v x g w1 _ o c w2 /\ runs (f c) w2 b w'.
Proof. done. Qed.

Definition open (w : world) : Prop := waiting (w_bucket w) \/ gone (w_bucket w).
Definition closed (w : world) : Prop := over (w_bucket w) \/ gone (w_bucket w).

Lemma open_others u u' : others u u' -> open u -> open u'.
Proof.
  intros Ho [Hw|Hg]; [by apply (proj1 (others_move _ _ Ho))|right; by eapply others_gone].
Qed.

Lemma closed_others u u' : others u u' -> closed u -> closed u'.
Proof.
  intros Ho [Hw|Hg]; [left; by apply (proj2 (others_move _ _ Ho))|right; by eapply others_gone].
Qed.

(** A call is a step on the memory or a call of the bucket. *)
Lemma takes_bucket w {R} (o : op R) a w' :
  takes i w o a w' -> w_bucket w' = w_bucket w \/ serve (w_bucket w) R o a (w_bucket w').
Proof.
  destruct o; try (intros (b' & Hs & ->); by right). intros [_ ->]. by left.
Qed.

Lemma takes_gone w {R} (o : op R) a w' : takes i w o a w' -> gone (w_bucket w) -> gone (w_bucket w').
Proof. intros [->|Hs]%takes_bucket; [done|]. by eapply own_gone. Qed.

Lemma takes_quiet w {R} (o : op R) a w' :
  takes i w o a w' -> quiet id o -> (open w -> open w') /\ (closed w -> closed w').
Proof.
  intros Ht Hq. pose proof (takes_gone w o a w' Ht) as Hg. apply takes_bucket in Ht as [He|Hs].
  - unfold open, closed. by rewrite He.
  - destruct (own_quiet _ _ _ _ _ Hs Hq). unfold open, closed. tauto.
Qed.

Lemma runs_gone {A} (p : prog A) w a w' : runs p w a w' -> gone (w_bucket w) -> gone (w_bucket w').
Proof.
  revert w. induction p as [b|R o k IH]; intros w; [by intros [_ ->]|].
  intros (w1 & c & w2 & H1 & H2 & _ & H4) Hg. apply (IH c w2 H4), (takes_gone w1 o c w2 H2).
  by eapply others_gone.
Qed.

Lemma runs_spared {A} (p : prog A) w a w' :
  spares id p -> runs p w a w' -> (open w -> open w') /\ (closed w -> closed w').
Proof.
  revert w. induction p as [b|R o k IH]; intros w Hp; [by intros [_ ->]|].
  intros (w1 & c & w2 & H1 & H2 & _ & H4). destruct Hp as [Hq Hk].
  destruct (IH c w2 (Hk c) H4) as [I1 I2]. destruct (takes_quiet w1 o c w2 H2 Hq) as [T1 T2].
  split; intros Hs; [by eapply I1, T1, open_others|by eapply I2, T2, closed_others].
Qed.

Lemma visit_orderly (K : Lifecycle.log (V:=V)) id' : orderly K (visit cfg id' : prog (option started)).
Proof.
  assert (forall (p : prog (option started)) K, orderly K (p ≫= mret) -> orderly K p) as Hret.
  { intros p. induction p as [a|R o k IH]; intros K'; [done|]. intros [Hc Hk]. split; [done|].
    intros K2 c H1 H2 H3. apply IH. by apply Hk. }
  by apply Hret, visit_lawful.
Qed.

(** A visit of another Collection. *)
Lemma visit_other id' w s w' :
  id' <> id -> world_ok w -> runs (visit cfg id') w s w' ->
  (open w -> open w') /\ (closed w -> closed w').
Proof.
  intros Hne Hw (w1 & e & w2 & H1 & H2 & _ & H4)%runs_call.
  destruct (steps_ok _ _ (Hothers _ _ H1) Hw) as [Hw1 _].
  destruct (takes_ok i w1 w2 (KvGet BJobs (jobKey id')) e Hw1 I H2) as ([Hb2 _ _] & _ & Ha).
  destruct (takes_quiet w1 (KvGet BJobs (jobKey id')) e w2 H2 I) as [T1 T2].
  match type of H4 with runs ?p _ _ _ => assert (spares id p) as Hp end.
  { destruct e as [e|]; [|done]. destruct (dec_job (e_value e)) as [rec|] eqn:Hd; [|done].
    destruct (bo_dec _ Hb2 _ _ _ Ha) as (rec' & Hd' & Hi'). assert (rec' = rec) as -> by congruence.
    apply spares_call; [done|]. intros now. destruct (visit_action rec now).
    - apply spares_bind; [|done]. apply spares_terminate. congruence.
    - apply spares_claim. congruence.
    - done. }
  destruct (runs_spared _ _ _ _ Hp H4) as [I1 I2].
  split; intros Hs; [by eapply I1, T1, open_others|by eapply I2, T2, closed_others].
Qed.

(** The visit of this one: whoever writes it, its key leaves the revision. *)
Lemma visit_own w s w' : open w -> runs (visit cfg id) w s w' -> closed w'.
Proof.
  intros Ho (w1 & e & w2 & H1 & H2 & H3 & H4)%runs_call. destruct (open_others _ _ H1 Ho) as [Hnow0|Hg];
    [|right; by eapply runs_gone, takes_gone].
  destruct (H3 eq_refl r v (waiting_now _ Hnow0)) as [c ->]. cbn [e_value e_revision] in H4. rewrite Hdec in H4.
  assert (open w2) as Ho2 by (apply (takes_quiet _ _ _ _ H2 I); by left).
  apply runs_call in H4 as (w3 & now & w4 & H5 & H6 & [Hnow _] & H8).
  apply (open_others _ _ H5), (takes_quiet _ _ _ _ H6 I) in Ho2.
  rewrite (proj1 (overdue_action x now r true Hwf Hun Hnow)) in H8.
  apply attended_bind in H8 as ([] & w5 & H9 & [_ <-]).
  apply runs_call in H9 as (w6 & now' & w7 & H10 & H11 & [Hnow' [v' Hm]] & H12).
  apply (open_others _ _ H10), (takes_quiet _ _ _ _ H11 I) in Ho2. cbv zeta in H12. rewrite Hm in H12.
  apply runs_call in H12 as (w8 & u & w9 & H13 & H14 & H15 & H16).
  apply (open_others _ _ H13) in Ho2 as [Ho2|Hg]; [|right; by eapply runs_gone, takes_gone].
  cbn in H15. rewrite Hid in H15. specialize (H15 eq_refl (ex_intro _ v (waiting_now _ Ho2))).
  match type of H16 with runs ?p _ _ _ => assert (spares id p) as Hp end.
  { destruct u; [|done]. do 2 (split; [done|intros []]). apply spares_releaseActive. }
  apply (runs_spared _ _ _ _ Hp H16). left. rewrite H15. by eapply own_end.
Qed.

Lemma visit_due_ends l now slotFree w s w' :
  NoDup l.*1 -> world_ok w -> grace_end x < now -> runs (visit_due cfg l now slotFree) w s w' ->
  (closed w -> id ∉ l.*1 -> closed w') /\ (open w -> (id, cached_of x r) ∈ l -> closed w').
Proof.
  revert w s. induction l as [|[id' j] l IH]; intros w s Hnd Hw Hnow Hr.
  { destruct Hr as [_ <-]. split; [done|]. by intros _ ?%not_elem_of_nil. }
  csimpl in Hnd. apply NoDup_cons in Hnd as [Hni Hnd]. cbn [visit_due] in Hr.
  destruct (due j now slotFree) eqn:Hdue; cbn [negb] in Hr.
  - apply attended_bind in Hr as (s1 & w1 & H1 & H2). apply attended_bind in H2 as (s2 & w2 & H2 & [_ <-]).
    assert (world_ok w1) as Hw1.
    { apply (attended_lawful i others _ Hothers _ w s1 w1 (fun _ _ => True) Hw (visit_orderly _ id') H1). }
    destruct (IH w1 s2 Hnd Hw1 Hnow H2) as [I1 I2]. split.
    + intros Hc Hni'. apply not_elem_of_cons in Hni' as [Hne Hni'].
      apply I1; [|done]. eapply visit_other; [by apply not_eq_sym|exact Hw|exact H1|exact Hc].
    + intros Ho [[= <- <-]|Hin]%elem_of_cons; [apply I1; [by eapply visit_own|done]|].
      apply I2; [|done]. eapply visit_other; [|exact Hw|exact H1|exact Ho].
      intros ->. apply Hni, list_elem_of_fmap. by exists (id, cached_of x r).
  - destruct (IH w s Hnd Hw Hnow Hr) as [I1 I2]. split.
    + intros Hc [Hne Hni']%not_elem_of_cons. by apply I1.
    + intros Ho [[= <- <-]|Hin]%elem_of_cons; [|by apply I2].
      by rewrite (proj2 (overdue_action x now r slotFree Hwf Hun Hnow)) in Hdue.
Qed.

(** A scan that meets such answers ends the record, or finds it moved. *)
Lemma scan_ends w l w' : world_ok w -> open w -> runs (scan cfg) w l w' -> closed w'.
Proof.
  intros Hw Ho Hr. pose proof (conj Hw Ho) as Hok.
  assert (forall w (R : Type) (o : op R) a w1 w2 (p : prog (list started)) s w3,
    (world_ok w /\ open w) -> others w w1 -> takes i w1 o a w2 -> quiet id o /\ (forall K, call_ok K o) ->
    runs p w2 s w3 -> (waiting (w_bucket w1) -> world_ok w2 /\ open w2 -> closed w3) -> closed w3) as Hstep.
  { intros u R o a w1 w2 p s w3 [Hk Hu] H1 H2 [Hq Hc] H3 Hgo.
    apply (open_others _ _ H1) in Hu as [Hu|Hg]; [|right; by eapply runs_gone, takes_gone].
    apply Hgo; [done|]. split; [|apply (takes_quiet _ _ _ _ H2 Hq); by left].
    eapply takes_ok; [|apply Hc|exact H2]. by eapply steps_ok, Hk; apply Hothers. }
  apply runs_call in Hr as (w1 & a & w2 & H1 & H2 & Ha & H3). cbn in Ha. subst a.
  apply (Hstep _ _ _ _ _ _ _ _ _ Hok H1 H2 ltac:(done) H3). clear Hok. intros _ Hok.
  apply runs_call in H3 as (w3 & watched & w4 & H3 & H4 & -> & H5).
  apply (Hstep _ _ _ _ _ _ _ _ _ Hok H3 H4 ltac:(done) H5). clear Hok. intros _ Hok. cbn [negb] in H5.
  apply runs_call in H5 as (w5 & syn & w6 & H5 & H6 & Hs & H7).
  apply (Hstep _ _ _ _ _ _ _ _ _ Hok H5 H6 ltac:(split; [exact I|by intros K K' st]) H7). clear Hok. intros Hwait Hok.
  destruct (Hs (waiting_now _ Hwait)) as [Hsyn _]. destruct H6 as [-> H6]. cbn [fst] in H7.
  rewrite Hsyn in H7. cbn [negb] in H7.
  apply runs_call in H7 as (w7 & vw & w8 & H7 & H8 & -> & H9).
  apply (Hstep _ _ _ _ _ _ _ _ _ Hok H7 H8 ltac:(done) H9). clear Hok. intros _ Hok.
  apply runs_call in H9 as (w9 & now & w10 & H9 & H10 & [Hnow _] & H11).
  apply (Hstep _ _ _ _ _ _ _ _ _ Hok H9 H10 ltac:(done) H11). clear Hok. intros _ Hok.
  apply runs_call in H11 as (w11 & slotFree & w12 & H11 & H12 & _ & H13).
  apply (Hstep _ _ _ _ _ _ _ _ _ Hok H11 H12 ltac:(split; [exact I|by intros K K' st]) H13). clear Hok. intros _ Hok.
  apply runs_call in H13 as (w13 & cands & w14 & H13 & H14 & Hc & H15).
  apply (Hstep _ _ _ _ _ _ _ _ _ Hok H13 H14 ltac:(split; [exact I|by intros K K' st]) H15).
  clear Hok. intros Hwait' Hok.
  destruct (Hc (waiting_now _ Hwait')) as [_ Hj]. destruct H14 as [-> H14].
  cbn [fst] in H15. eapply (visit_due_ends _ now slotFree w14); [apply candidates_distinct|apply Hok|done|
    exact H15|apply Hok|by apply candidate_in].
Qed.
End collection.

(** ** The key over a call and a step *)

Lemma serve_key (b b' : bucket) R (o : op R) a k :
  serve b R o a b' ->
  (bk_rev b <= bk_rev b')%N /\
  forall n u, bk_now b' !! k = Some (n, u) -> bk_now b !! k = Some (n, u) \/ (bk_rev b < n)%N.
Proof.
  assert (forall k' u', (bk_rev b <= bk_rev (bucket_put k' u' b))%N /\
    forall n u, bk_now (bucket_put k' u' b) !! k = Some (n, u) ->
      bk_now b !! k = Some (n, u) \/ (bk_rev b < n)%N) as Hput.
  { intros k' u'. split; [cbn; lia|]. intros n u. cbn [bk_now bucket_put].
    intros [[_ [= <- _]]|[_ ?]]%lookup_insert_Some; [right; lia|by left]. }
  intros Hs. destruct Hs; try (split; [done|]; by left); try apply Hput.
  split; [cbn; lia|]. intros n u. cbn [bk_now bucket_delete]. intros [_ ?]%lookup_delete_Some. by left.
Qed.

Lemma serve_quiet (b b' : bucket) R (o : op R) a id :
  serve b R o a b' -> quiet id o ->
  bk_now b' !! jobKey id = bk_now b !! jobKey id /\ records id b' = records id b.
Proof.
  assert (forall k u, k <> jobKey id -> bk_now (bucket_put k u b) !! jobKey id = bk_now b !! jobKey id /\
    records id (bucket_put k u b) = records id b) as Hput.
  { intros k u Hne. cbn [bk_now bucket_put]. rewrite lookup_insert_ne by done. split; [done|].
    unfold records. csimpl. by destruct (String.eqb_spec k (jobKey id)). }
  intros Hs Hq. destruct Hs; try done; cbn [quiet] in Hq; try by apply Hput.
  cbn [bk_now bucket_delete]. by rewrite lookup_delete_ne.
Qed.

Definition held (id : string) (r : N) (v : V) (b : bucket) : Prop :=
  (r <= bk_rev b)%N /\ bk_now b !! jobKey id = Some (r, v).
Definition passed (id : string) (r : N) (b : bucket) : Prop :=
  (r <= bk_rev b)%N /\ forall u, bk_now b !! jobKey id <> Some (r, u).

Lemma serve_held id r v (b b' : bucket) R (o : op R) a :
  serve b R o a b' ->
  (held id r v b -> held id r v b' \/ passed id r b') /\ (passed id r b -> passed id r b').
Proof.
  intros Hs. destruct (serve_key _ _ _ _ _ (jobKey id) Hs) as [Hr Hk]. split; intros [Hb Hn].
  - destruct (bk_now b' !! jobKey id) as [[n u]|] eqn:He; [|right; split; [lia|congruence]].
    destruct (decide (n = r)) as [->|]; [|right; split; [lia|congruence]].
    destruct (Hk _ _ eq_refl) as [Ho|]; [|lia]. left. split; [lia|congruence].
  - split; [lia|]. intros u He. destruct (Hk _ _ He) as [Ho|]; [by apply (Hn u)|lia].
Qed.

Lemma steps_held id r v (w w' : world) :
  rtc step w w' ->
  (held id r v (w_bucket w) -> held id r v (w_bucket w') \/ passed id r (w_bucket w')) /\
  (passed id r (w_bucket w) -> passed id r (w_bucket w')).
Proof.
  intros Hs. induction Hs as [u|u u1 u2 H1 Hs IH]; [by auto|].
  assert ((held id r v (w_bucket u) -> held id r v (w_bucket u1) \/ passed id r (w_bucket u1)) /\
    (passed id r (w_bucket u) -> passed id r (w_bucket u1))) as H.
  { destruct H1 as [|? ? ? ? ? ? ? ? ? _ Hv| | | | |]; cbn; auto. by eapply serve_held. }
  tauto.
Qed.

(** The rest of the system left the key alone. *)
Definition left_alone (id : string) (u u' : world) : Prop :=
  bk_now (w_bucket u') !! jobKey id = bk_now (w_bucket u) !! jobKey id /\
  records id (w_bucket u') = records id (w_bucket u).

(** C4: no Collection is stranded.  From any world the cluster can reach, in
    which the key of a Collection holds a record that has not ended, and
    whatever the rest of the system does between its calls, a scan of any
    replica makes its calls one after another to the end without a panic; and
    every scan whose answers are [favourable], its connection up, its caches
    replayed and current, and its clock past the record's grace, leaves the
    record behind.  At its end the key no longer holds the revision the record
    had, whatever other candidates the scan had, whatever it did with them and
    whatever their calls were answered; and where nobody else wrote the key
    meanwhile, the newest record is this one, failed with the reason its state
    calls for at a moment past its grace, and nothing else was written.  So the
    owner that died, the acknowledgement that was lost and the creator that
    stopped half way leave nothing behind that only they could finish. *)
Theorem no_collection_stranded (i : nat) (others : relation world) (w : world) (id : string)
    (r : N) (v : V) (x : Job) (g : N) :
  reachable w -> (forall u u', others u u' -> rtc step u u') ->
  bk_now (w_bucket w) !! jobKey id = Some (r, v) -> dec_job v = Some x -> unended x ->
  proceeds i others (scan cfg) w /\
  forall l w', attended i others (favourable i id r v x g) (scan cfg) w l w' ->
    (forall u, bk_now (w_bucket w') !! jobKey id <> Some (r, u)) /\
    ((forall u u', others u u' -> left_alone id u u') ->
     exists now, grace_end x < now /\
       records id (w_bucket w') =
         set_ended StateFailed (overdue_reason x) now x :: records id (w_bucket w)).
Proof.
  intros Hw%reachable_ok Ho Hn Hd Hu. pose proof (wo_bucket _ Hw) as Hb.
  pose proof (now_taken _ _ _ _ Hb Hn) as Ht.
  destruct (bo_dec _ Hb _ _ _ Ht) as (x' & Hd' & Hid). assert (x' = x) as -> by congruence.
  assert (well_formed x) as Hwf by exact (log_wf _ (bucket_log_ok _ Hb) _ _ _ _ Ht Hd).
  split; [exact (lawful_proceeds i others Ho _ w _ Hw (scan_lawful cfg _))|]. intros l w' Hr. split.
  - assert (closed (passed id r) (passed id r) w') as [Hc|Hc]; [|exact (proj2 Hc)..].
    eapply (scan_ends i others id r v x g Ho Hd Hwf Hu Hid (held id r v) (passed id r) (passed id r));
      [..|exact Hw|left; split; [by eapply bo_rev|done]|exact Hr].
    + by intros b [].
    + intros u u' Hs. apply (steps_held id r v u u'), Ho, Hs.
    + intros u u' Hs. apply (steps_held id r v u u'), Ho, Hs.
    + intros b b' R o a Hs. by apply (serve_held id r v b b' R o a).
    + intros b b' R o a Hs Hq. split; [|by apply (serve_held id r v b b' R o a)].
      destruct (serve_quiet _ _ _ _ _ _ Hs Hq) as [He _]. destruct (serve_key _ _ _ _ _ (jobKey id) Hs) as [Hle _].
      intros [? ?]. split; [lia|congruence].
    + intros b now v' [Hle _] _ _. split; [cbn; lia|]. intros u. cbn. rewrite lookup_insert_eq. intros [= He _]. lia.
  - intros Hq. set (recs := records id (w_bucket w)).
    assert (closed (fun _ => False) (fun b => exists now, grace_end x < now /\
      records id b = set_ended StateFailed (overdue_reason x) now x :: recs) w') as [Hc|[]]; [|exact Hc].
    eapply (scan_ends i others id r v x g Ho Hd Hwf Hu Hid
      (fun b => bk_now b !! jobKey id = Some (r, v) /\ records id b = recs));
      [..|exact Hw|by left|exact Hr].
    + by intros b [].
    + intros u u' [H1 H2]%Hq. rewrite H1, H2. by auto.
    + done.
    + done.
    + intros b b' R o a Hs Hqu. destruct (serve_quiet _ _ _ _ _ _ Hs Hqu) as [-> ->]. done.
    + intros b now v' [_ <-] Hnow Hm. exists now. split; [done|]. unfold records. csimpl.
      rewrite String.eqb_refl. apply MarshalBounded_Some in Hm as [Hm _]. by rewrite (dec_enc_job _ _ Hm).
Qed.

(** ** A scan of a replica that has just replayed *)

(** The memory of a replica whose job cache holds this record alone, and whose
    caches are replayed. *)
Record holds_only (x : Job) (r : N) (m : memory) : Prop := {
  ho_synced : Synced 1 (the m) = true;
  ho_jobs : jobs (the m) = {[jobKey (j_ID x) := cached_of x r]}
}.

Lemma only_candidate (x : Job) (r : N) (m : memory) :
  holds_only x r m -> unended x -> nonterminalJobs (the m) = [(j_ID x, cached_of x r)].
Proof.
  intros [_ Hj] Hu. unfold nonterminalJobs. rewrite Hj, map_to_list_singleton. cbn [omap list_omap].
  unfold unended in Hu. change (cj_State (cached_of x r)) with (j_State x). rewrite Hu.
  unfold jobKey. by rewrite cut_prefix_app.
Qed.

Lemma set_memory_at i (m : memory) f : set_memory i m f i = m.
Proof. unfold set_memory. by rewrite decide_True. Qed.

Ltac answered a := eexists _, a, _; split; [done|]; split;
  [eexists; split; [by constructor|reflexivity]|split; [try done|]];
  cbn [prog_mbind prog_bind]; cbv beta iota zeta; cbn [negb w_bucket w_memory w_running].
Ltac looked := eexists _, _, _; split; [done|]; split; [split; reflexivity|
  split; [cbn [favourable fst snd w_memory w_bucket]; rewrite ?set_memory_at; done|]];
  cbn [fst snd w_memory w_bucket w_running]; rewrite ?set_memory_at.

(** A scan of such a replica meets answers of that kind. *)
Lemma lone_scan i (others : relation world) (b : bucket) mem running (x : Job) (r : N) (v v' : V) (clock : time) :
  (forall u, others u u) -> holds_only x r (mem i) -> well_formed x -> unended x -> grace_end x < clock ->
  bk_now b !! jobKey (j_ID x) = Some (r, v) -> dec_job v = Some x ->
  MarshalBounded (enc_job (set_ended StateFailed (overdue_reason x) clock x)) = Marshalled v' ->
  exists mem', attended i others (favourable i (j_ID x) r v x 1) (scan cfg)
    {| w_bucket := b; w_memory := mem; w_running := running |} []
    {| w_bucket := bucket_put (jobKey (j_ID x)) v' b; w_memory := mem'; w_running := running |}.
Proof.
  intros Ho Hh Hw Hu Hg Hn Hd Hm. eexists.
  assert (bk_now b !! jobKey (j_ID x) = Some (r, v) ->
    Synced 1 (the (mem i)) = true /\ jobs (the (mem i)) !! jobKey (j_ID x) = Some (cached_of x r)) as Hc.
  { intros _. split; [apply Hh|]. rewrite (ho_jobs _ _ _ Hh). apply lookup_insert_eq. }
  destruct (overdue_action x clock r (w_active (the (mem i)) <? wc_maxActive cfg) Hw Hu Hg) as [Ha Hdue].
  unfold scan. answered 1%N. answered true. looked.
  rewrite (ho_synced _ _ _ Hh). cbn [negb]. answered (@Ok unit tt). answered clock; [by split; [|exists v']|].
  looked. looked.
  rewrite (only_candidate x r _ Hh Hu).
  change (prog_mbind _ _ ?f (Ret ?a)) with (f a). cbv beta. cbn [visit_due]. rewrite Hdue. cbn [negb].
  eapply (attended_join _ _ _ _ _ _ None); [|by split].
  unfold visit. answered (Ok (Entry v r 0)).
  { intros _ n u. cbn [w_bucket]. rewrite Hn. intros [= <- <-]. by exists 0. }
  cbn [e_value e_revision]. rewrite Hd. answered clock; [by split; [|exists v']|]. rewrite Ha.
  eapply attended_join; [|by split]. unfold terminate. answered clock; [by split; [|exists v']|].
  rewrite Hm. change (j_ID (set_ended StateFailed (overdue_reason x) clock x)) with (j_ID x).
  eexists _, (Ok (bk_rev b + 1)%N), _. split; [done|]. split.
  { eexists. split; [|reflexivity]. apply (sv_update _ _ _ v); [exact Hn|by left]. }
  split; [done|]. cbn [prog_mbind prog_bind]. unfold logTransition. answered tt. answered tt.
  answered (@Err (entry V) ErrUnavailable). split; reflexivity.
Qed.

(** ** A replica that starts afresh *)

Definition deliver (m : memory) (d : cacheKind * watch_entry V) : memory :=
  put (apply d.1 d.2 (the m)) m.

Lemma deliver_steps (i : nat) (l : list (cacheKind * watch_entry V)) (b : bucket) mem running :
  (forall d v, d ∈ l -> we_Value d.2 = Some v -> taken_by b (we_Key d.2) (we_Revision d.2) v) ->
  exists mem', rtc step {| w_bucket := b; w_memory := mem; w_running := running |}
                        {| w_bucket := b; w_memory := mem'; w_running := running |} /\
    mem' i = fold_left deliver l (mem i).
Proof.
  revert mem. induction l as [|d l IH]; intros mem Hl; [by exists mem|].
  destruct (IH (set_memory i (deliver (mem i) d) mem)) as (mem' & Hr & Hm').
  { intros d' v Hin. apply Hl. by apply list_elem_of_further. }
  exists mem'. split.
  - eapply rtc_l; [|exact Hr]. refine (st_deliver _ _ _ _ {| w_bucket := b; w_memory := mem;
      w_running := running |} i d.1 d.2 _). intros v _. apply Hl, list_elem_of_here.
  - rewrite Hm'. unfold set_memory. by rewrite decide_True.
Qed.

(** The replay of a bucket watch: the record, then the four replay markers. *)
Definition replay_of (x : Job) (r : N) (v : V) : list (cacheKind * watch_entry V) :=
  (cacheJobs, WatchEntry (jobKey (j_ID x)) (Some v) r 0 1 false)
  :: map (fun kind => (kind, WatchEntry EmptyString None 0 0 1 true)) cacheKinds.

Definition restarted : memory := put (startAttempt (the started_memory)) started_memory.

(** What the entry of the record leaves in caches that were just started. *)
Lemma first_entry (x : Job) (r : N) (v : V) :
  ValidID (j_ID x) = true -> dec_job v = Some x ->
  let c := apply cacheJobs (WatchEntry (jobKey (j_ID x)) (Some v) r 0 1 false) (startAttempt NewCaches) in
  jobs c = {[jobKey (j_ID x) := cached_of x r]} /\ gen c cacheJobs = 1%N.
Proof.
  intros Hid Hd c. subst c. unfold apply. cbn [we_Generation we_Synced we_Key].
  change ((1 =? gen (startAttempt NewCaches) cacheJobs)%N) with false. cbn iota.
  match goal with |- context [pulseSubscribers ?k ?c] =>
    destruct (pulseSubscribers_fields k c) as (E1 & _ & E3 & _) end.
  cbn [jobs gen set_pulses]. rewrite E1, E3. unfold applyJob. cbn [we_Key we_Value we_Revision].
  rewrite (cut_prefix_app jobPrefix (j_ID x) :
    cut_prefix jobPrefix (jobKey (j_ID x)) = Some (j_ID x)), Hid. cbn [negb]. rewrite Hd.
  unfold recordJob. cbn [reset set_barrier set_jobs jobs]. rewrite lookup_empty. cbn [gen set_jobs].
  by split.
Qed.

Definition marker : watch_entry V := WatchEntry EmptyString None 0 0 1 true.

Lemma marker_applied (kind : cacheKind) (c : Caches) :
  gen c cacheJobs = 1%N ->
  jobs (apply kind marker c) = jobs c /\
  forall k, gen (apply kind marker c) k = (if decide (k = kind) then 1%N else gen c k) /\
            synced (apply kind marker c) k = (if decide (k = kind) then true else synced c k).
Proof.
  intros Hg. unfold apply. cbn [we_Generation we_Synced marker].
  destruct (N.eqb_spec 1 (gen c kind)) as [He|Hne].
  - split; [done|]. intros k. cbn [gen synced set_barrier]. unfold insert, fn_insert.
    repeat case_decide; subst; auto; try done.
  - assert (kind <> cacheJobs) as Hk by congruence. split; [by destruct kind|]. intros k.
    destruct kind; try done; cbn [gen synced set_barrier reset set_overrides set_active set_slots];
      unfold insert, fn_insert; repeat case_decide; subst; auto; done.
Qed.

Lemma replay_holds (x : Job) (r : N) (v : V) :
  ValidID (j_ID x) = true -> dec_job v = Some x ->
  holds_only x r (fold_left deliver (replay_of x r v) restarted).
Proof.
  intros Hid Hd. destruct (first_entry x r v Hid Hd) as [Hj Hg].
  unfold replay_of, restarted, started_memory, deliver. fold marker. cbn [fold_left map cacheKinds fst snd].
  cbn [the put has_left has_right has_self fst snd] in *. unfold id in *.
  set (c := apply cacheJobs (WatchEntry _ _ _ _ _ _) (startAttempt NewCaches)) in *. clearbody c.
  destruct (marker_applied cacheOverrides c Hg) as [J1 S1].
  set (c1 := apply _ _ c) in *. clearbody c1.
  destruct (marker_applied cacheJobs c1) as [J2 S2]; [by rewrite (proj1 (S1 cacheJobs))|].
  set (c2 := apply _ _ c1) in *. clearbody c2.
  destruct (marker_applied cacheActive c2) as [J3 S3]; [by rewrite (proj1 (S2 cacheJobs))|].
  set (c3 := apply _ _ c2) in *. clearbody c3.
  destruct (marker_applied cacheSlots c3) as [J4 S4]; [by rewrite (proj1 (S3 cacheJobs)), (proj1 (S2 cacheJobs))|].
  set (c4 := apply _ _ c3) in *. clearbody c4.
  split; cbn [the has_left has_self fst]; [|unfold id; by rewrite J4, J3, J2, J1].
  unfold Synced, cacheKinds, id. cbn [forallb].
  repeat match goal with
  | |- context [synced c4 ?k] => rewrite (proj2 (S4 k)), (proj1 (S4 k)); cbn [decide]
  end.
  repeat (rewrite ?(proj2 (S3 _)), ?(proj1 (S3 _)), ?(proj2 (S2 _)), ?(proj1 (S2 _)), ?(proj2 (S1 _)), ?(proj1 (S1 _))).
  done.
Qed.
End scanning.

(** A Collection that was created and never claimed, and a scan long after. *)
Definition created_bucket : option (jobs_bucket (V:=tagged)) :=
  match demo_drive demo_create (demo_bucket, demo_memory) with
  | Some ([], (b, _)) => Some b
  | _ => None
  end.

Definition left_pending (b : jobs_bucket (V:=tagged)) : bool :=
  match bk_now b !! jobKey demo_created with
  | Some (_, v) =>
      match dec_job v with
      | Some x =>
          bool_decide (j_State x = StatePending) && (grace_end x <? 100000 * second)
          && bool_decide (j_ID x = demo_created)
          && match MarshalBounded (enc_job (set_ended StateFailed (overdue_reason x) (100000 * second) x)) with
             | Marshalled _ => true
             | _ => false
             end
      | None => false
      end
  | None => false
  end.

(** The rest of the system, short of writing the Collection's key. *)
Definition elsewhere (id : string) : relation (world (V:=tagged)) :=
  fun u u' => rtc demo_step u u' /\ left_alone id u u'.

(** Its creator is gone; another replica restarts, replays the bucket and
    scans. *)
Lemma no_collection_stranded_witness :
  exists w w' x r v, demo_reachable w /\ j_State x = StatePending /\
    attended 0 (elsewhere demo_created)
      (favourable 0 demo_created r v x 1) (scan demo_config) w [] w' /\
    exists now, records demo_created (w_bucket w') =
      set_ended StateFailed ReasonNotClaimed now x :: records demo_created (w_bucket w).
Proof.
  assert (match created_bucket with Some b => left_pending b | None => false end = true) as Hc
    by (vm_compute; reflexivity).
  unfold created_bucket in Hc. destruct (demo_drive demo_create _) as [[[|? ?] [b m]]|] eqn:Hd; [|done..].
  destruct (demo_create_reached b m Hd) as (mem & _ & Hw). unfold left_pending in Hc.
  destruct (bk_now b !! jobKey demo_created) as [[r v]|] eqn:Hn; [|done].
  destruct (dec_job v) as [x|] eqn:Hx; [|done].
  destruct (MarshalBounded _) as [v'| |] eqn:Hm; [|by rewrite !andb_false_r in Hc..].
  apply andb_true_iff in Hc as [[[Hp%bool_decide_eq_true Hg%Z.ltb_lt]%andb_true_iff
    Hid%bool_decide_eq_true]%andb_true_iff _].
  assert (unended x) as Hu by (unfold unended; by rewrite Hp).
  set (rest := filter (fun t : nat * goroutine (V:=tagged) => t.1 <> 0%nat) []).
  set (mem0 := set_memory 0 started_memory mem).
  destruct (deliver_steps default_policy small_limits demo_config (100 * second) 0 (replay_of x r v) b
    (set_memory 0 restarted mem0) rest) as (mem2 & R2 & E2).
  { intros d u Hin Hu'. unfold replay_of in Hin. apply elem_of_cons in Hin as [->|Hin].
    - simpl in *. injection Hu' as <-. rewrite Hid.
      exact (now_taken _ _ _ _ (wo_bucket _ (reachable_ok _ _ _ _ _ Hw)) Hn).
    - apply list_elem_of_In, in_map_iff in Hin as (k & <- & _). done. }
  set (w := {| w_bucket := b; w_memory := mem2; w_running := rest |}).
  assert (demo_reachable w) as Hw2.
  { destruct Hw as (w0 & H0 & R). exists w0. split; [done|]. etrans; [exact R|].
    eapply rtc_l; [apply (st_crash _ _ _ _ _ 0 started_memory); done|].
    eapply rtc_l; [|exact R2].
    exact (st_reconnect _ _ _ _ {| w_bucket := b; w_memory := mem0; w_running := rest |} 0%nat). }
  destruct (lone_scan demo_config 0 (elsewhere demo_created) b mem2 rest x r v v' (100000 * second))
    as (mem3 & Hr); [done| | |done|done|by rewrite Hid|done|done|].
  { rewrite E2, set_memory_at. apply replay_holds; [by rewrite Hid|done]. }
  { exact (log_wf _ (bucket_log_ok _ (wo_bucket _ (reachable_ok _ _ _ _ _ Hw))) _ _ _ _
      (now_taken _ _ _ _ (wo_bucket _ (reachable_ok _ _ _ _ _ Hw)) Hn) Hx). }
  rewrite Hid in Hr. eexists w, _, x, r, v. split; [exact Hw2|]. split; [exact Hp|]. split; [exact Hr|].
  destruct (no_collection_stranded default_policy small_limits demo_config (100 * second) 0
    (elsewhere demo_created) w demo_created r v x 1 Hw2 ltac:(by intros u u' []) Hn Hx Hu) as [_ Hall].
  destruct (Hall [] _ Hr) as [_ Hq]. destruct Hq as (now & _ & He); [by intros u u' []|].
  exists now. rewrite He. unfold overdue_reason. by rewrite Hp.
Defined.
